(* ===== verification/_CoqProject ===== *)
-Q . S2P
Prelude.v
GoStrings.v
Float64.v
IntOrString.v
Types.v
Expectations.v
Conditions.v
GroupTypes.v
Gang.v
Dependency.v
CoordinationScaling.v
Coordination.v
Effects.v
Revisions.v
Owners.v
StatefulUtils.v
RevisionHistory.v
StatefulControl.v
StatefulHealth.v
StatefulRollout.v
StatefulReconcile.v
StatefulController.v
StatefulWhole.v
StatelessUtils.v
StatelessDiffs.v
StatelessWorld.v
InstanceControls.v
SlowStart.v
StatelessScale.v
StatelessUpdate.v
StatelessScaling.v
StatelessCreation.v
StatelessUpdating.v
StatelessReconcile.v
StatelessPass.v
StatelessSteady.v
InstancePods.v
ComponentOrder.v
NodeBindings.v
PortAllocator.v
InstanceWorld.v
InstanceRestarts.v
PodInPlace.v
InstanceDemo.v
InstanceScale.v
InstanceCreation.v
InstanceScaling.v
InstanceUpdate.v
InstanceStatus.v
InstanceReadiness.v
Json.v
InstanceReconcile.v
InstanceRevisions.v
InstancePass.v
Requests.v
GroupSet.v
GroupSetTemplate.v
GroupSetPass.v
ScalingAdapter.v
ScalingAdapterPass.v
Admission.v
AdmissionDependencies.v
AdmissionRules.v
GroupRevisions.v
PolicyMigration.v
GroupWorld.v
GroupReconcile.v
Histories.v
GroupReconcilePass.v
GroupReconcileDemo.v
GroupReconcileRules.v
Utf8.v
WarmupActions.v
Warmup.v
WarmupReconcile.v
WarmupRules.v
WarmupCompletion.v
Conversion.v
GangScheduler.v
GangSchedulerRules.v
