(* ===== verification/Prelude.v ===== *)
(** * A verification library for the RBG controllers

    RBG runs groups of roles on Kubernetes.  A RoleBasedGroup has roles; a role
    becomes a workload, for which the project has its own kind, the
    RoleInstanceSet; a RoleInstanceSet keeps a number of RoleInstances, each a few
    pods.  A RoleBasedGroupSet keeps a number of groups, a scaling adapter hands a
    role the replicas of an autoscaler, a warmup prepares nodes.  A controller per
    kind reads the objects from the API server, computes a difference and writes;
    it runs again whenever something changes.  The library models these controllers
    as they are written under src/ and proves what makes them correct.

    ** The parts

    - Prelude: the result type, notations, automation, lists, counting, sorting.
    - GoStrings, Utf8, Float64, IntOrString, Json: Go's strings and decimal text,
      its runes, its float64 rounding, [intstr.IntOrString] with the partition
      helpers of pkg/utils/utils.go, JSON trees.
    - Types, GroupTypes: the API objects (api/workloads/v1alpha2).
    - Conditions, Owners: the vendored helpers on conditions and owner references.
    - Expectations: pkg/utils/expectations and pkg/utils/requeueduration, the
      stores in which a controller notes the writes it has not yet seen.
    - Effects, Requests, Histories: the state-and-error monad of all that follows;
      a logic of the calls a computation makes ([run], [silent], [only], [calls]);
      the world of the group-level controllers; and the order of requests, each
      explained by those before it ([keeps]).
    - Revisions, RevisionHistory: the revision history (pkg/utils/history and the
      Kubernetes package it implements), the choice of the current and the update
      revision, the cache of semantic matches, truncation.
    - The stateful mode of a RoleInstanceSet
      (pkg/reconciler/roleinstanceset/statefulmode), numbered instances with a
      rolling update that may use surge instances: StatefulUtils, StatefulControl,
      StatefulHealth, StatefulRollout, StatefulReconcile (the pass),
      StatefulController (the controller around it); StatefulWhole has the
      properties of the whole.
    - The stateless mode (statelessmode) with the controls of one instance
      (pkg/inplace/instance): StatelessUtils, StatelessDiffs, StatelessWorld,
      InstanceControls, SlowStart (requests in growing batches, also used for
      pods), StatelessScale, StatelessUpdate, StatelessReconcile; StatelessScaling,
      StatelessCreation, StatelessUpdating, StatelessPass and StatelessSteady hold
      its properties.
    - The RoleInstance controller (pkg/reconciler/roleinstance, pkg/inplace/pod,
      pkg/component-discovery, pkg/port-allocator): InstancePods (pods and
      components), ComponentOrder (dependencies of components), NodeBindings
      (in-place scheduling), PortAllocator, PodInPlace (in-place update of a pod),
      InstanceWorld, InstanceRestarts (restart policy and backoff), InstanceScale,
      InstanceUpdate, InstanceStatus, InstanceReconcile; InstanceCreation,
      InstanceScaling, InstanceReadiness, InstanceRevisions and InstancePass hold
      its properties, InstanceDemo a concrete instance.
    - What the group controller decides: Gang (pkg/scheduler/common), Dependency
      (pkg/dependency), CoordinationScaling and Coordination (pkg/coordination and
      rolebasedgroup_controller.go), GroupRevisions (pkg/utils/revision_utils.go),
      PolicyMigration (the CoordinatedPolicy of a v1alpha1 group).
    - The group controller (internal/controller/workloads): GroupWorld (its
      requests), GroupReconcile (Reconcile, step by step); GroupReconcilePass and
      GroupReconcileRules hold its properties, GroupReconcileDemo a concrete pass.
    - GangScheduler, GangSchedulerRules: the two gang scheduling plugins
      (pkg/scheduler) behind the [SchedulerPodGroup] request of GroupWorld.
    - GroupSet, GroupSetTemplate, GroupSetPass: the RoleBasedGroupSet controller.
    - ScalingAdapter, ScalingAdapterPass: the scaling adapter controller.
    - Admission, AdmissionDependencies, AdmissionRules: validation and defaulting.
    - WarmupActions, Warmup, WarmupReconcile, WarmupRules, WarmupCompletion: the
      warmup controller.
    - Conversion: v1alpha1 to v1alpha2 and back.

    A file's definitions keep the names of the code; a loop of the code is a
    function of its own, with the name of the function and a suffix, or of what it
    does.

    ** How the outside world is modelled

    A controller function is a computation of [Effects.ST] over a record [world]:
    the requests made so far, newest first, the in-memory stores, and the objects
    the function shares by pointer (the replica slots of the stateful mode, the
    slice of instances of the stateless mode).  A class of answers ([Env],
    [SetEnv], [AdapterEnv], [GroupEnv], [WarmupEnv], [SchedulerEnv]) gives each
    request its answer as a function of the requests made before, so a theorem over
    every answer holds for every behaviour of the API server, errors, conflicts and
    stale reads included, of the clock and of the random source.  The clock is read
    where the code reads it; a theorem never needs to know how it moves unless it
    says so.  The goroutines of a batch reach the server in an order that [Env]
    picks among the permutations.  Theorems on convergence are about a server that
    keeps what it is told while nobody else writes; it is an instance of the class.
    The encodings the code only compares and stores (patches, readiness messages,
    annotations in JSON) are classes of codecs.  A workload reconciler is an answer
    too: it gets the group the code passes it, and what it may fill in there (the
    default rollout of a role) is not fed back.  Logs and Kubernetes events are left
    out.

    ** What is shown

    - Availability: a whole pass over a set takes at most what maxUnavailable leaves
      out of service, whatever the server answers, instances that a stateless set
      names for deletion not counted as down
      (StatefulWhole.update_disruption_budget, StatelessPass.sync_availability_floor
      and the theorems on scaling and updating alone).
    - Completeness and rest: what a pass creates, and that what has converged is left
      alone (StatefulReconcile.parallel_creates_missing, StatelessSteady,
      GroupSetPass.Reconcile_converges, ScalingAdapterPass.Reconcile_settles,
      GangSchedulerRules.pod_group_lives_with_its_gang).
    - Waiting and order: nothing is asked while a write is awaited
      (StatelessPass.reconcile_waits, Expectations.Scale.scale_expectations_refine);
      a role waits for its dependencies, its gang and its configuration
      (GroupReconcileRules); components start and go in order (InstanceScaling);
      sorting and cycle detection terminate and agree (Dependency, ComponentOrder,
      AdmissionDependencies).
    - Ownership: pods, instances, groups, adapters, PodGroups and revisions of
      others are left alone, and what is deleted is deleted for a reason
      (InstancePass.Reconcile_calls, GroupSetPass.Reconcile_touches_own,
      ScalingAdapterPass.Reconcile_scales_only_its_role,
      GroupReconcileRules.adapters_are_deleted_for_a_reason,
      GangSchedulerRules.pod_groups_of_others_untouched).
    - Status: an instance, a group and a warmup are reported ready or completed only
      when they are, but for an instance whose ready policy is None and two cases in
      which a warmup completes early (InstanceReadiness,
      GroupReconcileRules.ready_condition_is_readiness, WarmupCompletion); stale writes
      lose nothing.
    - Warmups: pods only where they are needed (WarmupRules), bounded delays
      (WarmupCompletion), results that fit the status (WarmupActions).
    - Revisions: which revision is chosen, created, compared and deleted, and what
      makes two of them equal (RevisionHistory, InstanceRevisions, GroupRevisions).
    - Admission: what is accepted can be carried out (AdmissionRules).
    - Conversion: the round trip of a v1alpha1 group, and what it costs a group of
      v1alpha2.
    - Arithmetic: differences, topologies, percentages, partitions, skews and
      backoffs over exact float64 and machine integers.

    ** Bounds and fuel

    [Dependency.visit], [ComponentOrder.dfs] and [Admission.search] run on fuel that
    is proved enough: one more than the nodes not yet visited.  [Utf8.runes] has the
    length of the text as fuel, and a step eats a byte at least.
    [SlowStart.slowly_loop] runs at most once for each item, which is its fuel.
    Three loops of the code have no bound: the draw of a fresh id
    (getOrGenInstanceID), the draw of an unused port (AllocateBatch) and the search
    for a free revision name (CreateControllerRevision); they take fuel as an
    argument and fail when it runs out.  PortAllocator.AllocateBatch_total shows the
    fuel enough when the random source shows every port within so many draws; the
    theorem on getActiveRevisions says what any answer is, not that the server ever
    accepts a name.
    [RetryOnConflict] makes the attempts of [retry.DefaultBackoff] (four) or
    [retry.DefaultRetry] (five).  Decimal printing takes one digit for each bit,
    more than enough.

    ** What is not modelled, and why

    - The workload reconcilers (pkg/reconciler: StatefulSets, Deployments,
      LeaderWorkerSets, RoleInstanceSets, Services) and the sidecars and
      configuration texts of pkg/discovery: they build third-party objects for
      server-side apply.  Of a pod the model has what the controllers read or write
      themselves; the rest of its spec is opaque.
    - JSON text and strategic merges: parameters, with the laws the theorems use.
    - The wiring of a process: managers, watches, informers, work queues, flags,
      certificates, registration of webhooks.  The event filters and the maps from
      events to requests are modelled where they are functions of the objects.
    - Generated code: clients, apply configurations, deep copies; and the tests. *)
From Stdlib Require Import ZArith Lia Bool Permutation Sorted.
From stdpp Require Import base tactics list strings gmap sets.

#[global] Open Scope Z_scope.

(** * Errors: Go's [(T, error)] results *)

(** A Go error is identified by its message text; only the cases a caller can
    distinguish are kept apart. *)
Definition error := string.

Inductive result (A : Type) : Type :=
| Ok (a : A)
| Err (e : error).
Arguments Ok {A} _.
Arguments Err {A} _.

#[export] Instance result_ret : MRet result := fun A a => Ok a.
#[export] Instance result_bind : MBind result :=
  fun A B f r => match r with Ok a => f a | Err e => Err e end.
#[export] Instance result_fmap : FMap result :=
  fun A B f r => match r with Ok a => Ok (f a) | Err e => Err e end.

#[export] Instance result_eq_dec {A} `{EqDecision A} : EqDecision (result A).
Proof. solve_decision. Defined.

Definition is_ok {A} (r : result A) : bool :=
  match r with Ok _ => true | Err _ => false end.

(** * Machine integers *)

Definition int32_min : Z := -2147483648.
Definition int32_max : Z := 2147483647.
Definition int64_min : Z := -9223372036854775808.
Definition int64_max : Z := 9223372036854775807.

(** The conversion [int32(x)] of a wider integer, and the result of an int32
    operation: the low 32 bits, read in two's complement. *)
Definition int32 (z : Z) : Z := (z + 2147483648) mod 4294967296 - 2147483648.

(** The result of an int64 operation. *)
Definition int64 (z : Z) : Z :=
  (z + 9223372036854775808) mod 18446744073709551616 - 9223372036854775808.

Definition is_int32 (z : Z) : Prop := int32_min <= z <= int32_max.
Definition is_int64 (z : Z) : Prop := int64_min <= z <= int64_max.
#[export] Instance is_int32_dec z : Decision (is_int32 z).
Proof. unfold is_int32. apply _. Defined.
#[export] Instance is_int64_dec z : Decision (is_int64 z).
Proof. unfold is_int64. apply _. Defined.

Ltac unfold_int := unfold is_int32, is_int64, int32_min, int32_max, int64_min, int64_max in *.

Lemma int32_id z : is_int32 z -> int32 z = z.
Proof. unfold_int. intros H. unfold int32. rewrite Z.mod_small; lia. Qed.

Lemma int64_id z : is_int64 z -> int64 z = z.
Proof. unfold_int. intros H. unfold int64. rewrite Z.mod_small; lia. Qed.

Lemma int32_range z : is_int32 (int32 z).
Proof.
  unfold_int. unfold int32.
  pose proof (Z.mod_pos_bound (z + 2147483648) 4294967296 ltac:(lia)). lia.
Qed.

Create HintDb rbg discriminated.
Create Rewrite HintDb rbg.
#[export] Hint Resolve int32_range : rbg.
#[export] Hint Rewrite int32_id using (unfold_int; lia) : rbg.

(** * Time *)

(** [time.Time]: [None] is the zero time, [Some t] an instant in nanoseconds. *)
Definition gotime := option Z.
Definition second : Z := 1000000000.

(** * Lists *)

Lemma Forall_filter_bool {A} (P : A -> Prop) (f : A -> bool) l :
  Forall P l -> Forall P (List.filter f l).
Proof.
  rewrite !List.Forall_forall. intros H x Hx.
  apply List.filter_In in Hx as [? _]. by apply H.
Qed.

Lemma elem_of_snoc {A} (x y : A) l : x ∈ l ++ [y] <-> x ∈ l \/ x = y.
Proof. by rewrite elem_of_app, list_elem_of_singleton. Qed.

(** Number of elements satisfying a test, as the Go code counts them. *)
Fixpoint countb {A} (f : A -> bool) (l : list A) : Z :=
  match l with
  | [] => 0
  | x :: l' => (if f x then 1 else 0) + countb f l'
  end.

Lemma countb_nonneg {A} (f : A -> bool) l : 0 <= countb f l.
Proof. induction l; simpl; [lia|]. destruct (f a); lia. Qed.

Lemma countb_le_length {A} (f : A -> bool) l : countb f l <= Z.of_nat (length l).
Proof. induction l; simpl length; simpl countb; [lia|]. destruct (f a); lia. Qed.

Lemma countb_app {A} (f : A -> bool) l1 l2 :
  countb f (l1 ++ l2) = countb f l1 + countb f l2.
Proof. induction l1; simpl; lia. Qed.

Lemma countb_ext {A} (f g : A -> bool) l :
  (forall x, x ∈ l -> f x = g x) -> countb f l = countb g l.
Proof.
  induction l as [|x l IH]; intros H; simpl; [done|].
  rewrite (H x) by set_solver. rewrite IH by set_solver. done.
Qed.

Lemma countb_pos {A} (f : A -> bool) l :
  0 < countb f l -> exists x, x ∈ l /\ f x = true.
Proof.
  induction l as [|x l IH]; simpl; [lia|]. destruct (f x) eqn:E.
  - intros _. exists x. set_solver.
  - intros H. destruct IH as (y & ? & ?); [lia|]. exists y. set_solver.
Qed.

Lemma countb_le_countb {A} (f g : A -> bool) l :
  (forall x, x ∈ l -> f x = true -> g x = true) -> countb f l <= countb g l.
Proof.
  induction l as [|x l IH]; intros H; simpl; [lia|].
  specialize (IH ltac:(set_solver)). specialize (H x ltac:(set_solver)).
  destruct (f x); [rewrite H by done|destruct (g x)]; lia.
Qed.

Lemma countb_zero_iff {A} (f : A -> bool) l : countb f l = 0 <-> forall x, x ∈ l -> f x = false.
Proof.
  split.
  - induction l as [|x l IH]; simpl; [by intros _ x ?%elem_of_nil|].
    pose proof (countb_nonneg f l). intros H0 y [->|Hy]%elem_of_cons.
    + destruct (f x); [lia|done].
    + apply IH; [destruct (f x); lia|done].
  - induction l as [|x l IH]; simpl; [done|]. intros Hf. rewrite (Hf x) by (by left).
    apply IH. intros y Hy. apply Hf. by right.
Qed.

Lemma countb_all {A} (l : list A) : countb (fun _ => true) l = Z.of_nat (length l).
Proof. induction l as [|x l IH]; [done|]. cbn [countb length]. rewrite IH. lia. Qed.

Lemma countb_full {A} (f : A -> bool) l : countb f l = Z.of_nat (length l) <-> forall x, x ∈ l -> f x = true.
Proof.
  induction l as [|x l IH]; [split; [by intros _ y ?%elem_of_nil|done]|].
  cbn [countb length]. rewrite Nat2Z.inj_succ. pose proof (countb_le_length f l). split.
  - intros Hc y [->|Hy]%elem_of_cons; [destruct (f x); [done|lia]|]. apply IH; [destruct (f x); lia|done].
  - intros Hf. rewrite (Hf x) by (by left). rewrite (proj2 IH); [lia|]. intros y Hy. apply Hf. by right.
Qed.

Lemma countb_zero {A} (f : A -> bool) l : (forall x, x ∈ l -> f x = false) -> countb f l = 0.
Proof. apply countb_zero_iff. Qed.

Lemma countb_split {A} (f g : A -> bool) l :
  countb f l = countb (fun x => f x && g x) l + countb (fun x => f x && negb (g x)) l.
Proof. induction l as [|x l IH]; simpl; [lia|]. destruct (f x), (g x); simpl; lia. Qed.

Lemma countb_filter {A} (f : A -> bool) l :
  countb f l = Z.of_nat (length (List.filter f l)).
Proof. induction l; simpl; [done|]. destruct (f a); simpl length; lia. Qed.

(** A count in which each test reads the clock: [nows k] at the [k]-th element. *)
Fixpoint countb_at {A} (f : Z -> A -> bool) (nows : nat -> Z) (l : list A) : Z :=
  match l with
  | [] => 0
  | x :: l' => (if f (nows O) x then 1 else 0) + countb_at f (fun k => nows (S k)) l'
  end.

Lemma countb_at_bounds {A} (f : Z -> A -> bool) nows l : 0 <= countb_at f nows l <= Z.of_nat (length l).
Proof.
  revert nows. induction l as [|x l IH]; intros nows; cbn [countb_at length]; [lia|].
  specialize (IH (fun k => nows (S k))). destruct (f _ x); lia.
Qed.

Lemma countb_at_static {A} (f : Z -> A -> bool) (g : A -> bool) nows l :
  (forall k x, x ∈ l -> f (nows k) x = g x) -> countb_at f nows l = countb g l.
Proof.
  revert nows. induction l as [|x l IH]; intros nows Hf; cbn [countb_at countb]; [done|].
  rewrite Hf by set_solver. rewrite IH; [done|]. intros k y Hy. apply (Hf (S k)). set_solver.
Qed.

Lemma countb_at_le_countb {A} (f : Z -> A -> bool) (g : A -> bool) nows l :
  (forall t x, f t x = true -> g x = true) -> countb_at f nows l <= countb g l.
Proof.
  intros Hf. revert nows. induction l as [|x l IH]; intros nows; cbn [countb_at countb]; [lia|].
  specialize (IH (fun k => nows (S k))). specialize (Hf (nows O) x).
  destruct (f _ x); [rewrite Hf by done|destruct (g x)]; lia.
Qed.

#[export] Hint Resolve countb_nonneg countb_le_length : rbg.

(** * Maps: the order of iteration *)

(** The order in which [range] visits a map. *)
Class MapRange := {
  map_range : forall {A : Type}, gmap string A -> list (string * A);
  map_range_perm : forall {A} (m : gmap string A), map_range m ≡ₚ map_to_list m
}.

Lemma elem_of_keys `{MapRange} {A} (m : gmap string A) k : k ∈ map fst (map_range m) <-> is_Some (m !! k).
Proof.
  rewrite list_elem_of_fmap. split.
  - intros ([k' v] & -> & Hkv). rewrite map_range_perm in Hkv. apply elem_of_map_to_list in Hkv. eauto.
  - intros [v Hv]. exists (k, v). split; [done|]. rewrite map_range_perm. by apply elem_of_map_to_list.
Qed.

(** * Sorting

    Go's [sort.Slice] and [sort.Sort] promise a permutation that is sorted for
    the comparison, and nothing about the order of equal elements.  A client is
    proved against the promise; [insertion_sort] keeps it, and is what the
    concrete runs use. *)

Definition strict_weak {A} (less : A -> A -> bool) : Prop :=
  (forall x, less x x = false) /\
  (forall x y z, less x y = true -> less y z = true -> less x z = true) /\
  (forall x y z, less x y = true -> less x z = true \/ less z y = true).

(** The same between the elements at hand, which is all that sorting them needs. *)
Definition strict_weak_on {A} (P : A -> Prop) (less : A -> A -> bool) : Prop :=
  (forall x, P x -> less x x = false) /\
  (forall x y z, P x -> P y -> P z -> less x y = true -> less y z = true -> less x z = true) /\
  (forall x y z, P x -> P y -> P z -> less x y = true -> less x z = true \/ less z y = true).

Lemma strict_weak_everywhere {A} (P : A -> Prop) less : strict_weak less -> strict_weak_on P less.
Proof. intros (? & ? & ?). repeat split; eauto. Qed.

Class SortSlice := {
  sort_slice : forall {A : Type}, (A -> A -> bool) -> list A -> list A;
  sort_slice_perm : forall {A} (less : A -> A -> bool) l, sort_slice less l ≡ₚ l;
  sort_slice_sorted_on : forall {A} (less : A -> A -> bool) l,
    strict_weak_on (fun x => x ∈ l) less -> StronglySorted (fun x y => less y x = false) (sort_slice less l)
}.

Lemma sort_slice_sorted `{SortSlice} {A} (less : A -> A -> bool) l :
  strict_weak less -> StronglySorted (fun x y => less y x = false) (sort_slice less l).
Proof. intros Hw. by apply sort_slice_sorted_on, strict_weak_everywhere. Qed.

Fixpoint insert_sorted {A} (less : A -> A -> bool) (x : A) (l : list A) : list A :=
  match l with
  | [] => [x]
  | y :: l' => if less y x then y :: insert_sorted less x l' else x :: y :: l'
  end.

Fixpoint insertion_sort {A} (less : A -> A -> bool) (l : list A) : list A :=
  match l with
  | [] => []
  | x :: l' => insert_sorted less x (insertion_sort less l')
  end.

Lemma insert_sorted_perm {A} (less : A -> A -> bool) x l :
  insert_sorted less x l ≡ₚ x :: l.
Proof.
  induction l as [|y l IH]; simpl; [done|]. destruct (less y x); [|done].
  rewrite IH. apply Permutation_swap.
Qed.

Lemma insertion_sort_perm {A} (less : A -> A -> bool) l : insertion_sort less l ≡ₚ l.
Proof. induction l; simpl; [done|]. by rewrite insert_sorted_perm, IHl. Qed.

Lemma insert_sorted_sorted {A} (P : A -> Prop) (less : A -> A -> bool) x l :
  strict_weak_on P less -> P x -> Forall P l ->
  StronglySorted (fun x y => less y x = false) l ->
  StronglySorted (fun x y => less y x = false) (insert_sorted less x l).
Proof.
  intros (Hirr & Htr & Hwk) Hx. induction l as [|y l IHl]; intros HP HS; simpl; [repeat constructor|].
  inversion HS as [|?? HS' HF]; subst. apply Forall_cons in HP as [Hy HP]. destruct (less y x) eqn:E.
  - constructor; [auto|]. rewrite Forall_forall. intros z Hz.
    rewrite insert_sorted_perm in Hz. apply elem_of_cons in Hz as [->|Hz].
    + destruct (less x y) eqn:E2; [|done].
      pose proof (Htr y x y Hy Hx Hy E E2). rewrite Hirr in *; done.
    + rewrite Forall_forall in HF. by apply HF.
  - constructor; [done|]. constructor; [done|].
    rewrite Forall_forall in HF |- *. rewrite Forall_forall in HP. intros z Hz. specialize (HF z Hz).
    destruct (less z x) eqn:E2; [|done]. destruct (Hwk z x y (HP z Hz) Hx Hy E2); congruence.
Qed.

Lemma insertion_sort_sorted_on {A} (less : A -> A -> bool) l :
  strict_weak_on (fun x => x ∈ l) less -> StronglySorted (fun x y => less y x = false) (insertion_sort less l).
Proof.
  intros Hw. assert (Forall (fun x => x ∈ l) l) as HP by by apply Forall_forall.
  revert Hw HP. generalize (fun x : A => x ∈ l). intros P Hw HP.
  induction HP as [|x l Hx HP IH]; simpl; [constructor|].
  apply (insert_sorted_sorted P); [done..| |done]. by rewrite insertion_sort_perm.
Qed.

#[export] Instance insertion_sort_slice : SortSlice := {|
  sort_slice := @insertion_sort;
  sort_slice_perm := @insertion_sort_perm;
  sort_slice_sorted_on := @insertion_sort_sorted_on
|}.

Lemma insertion_sort_sorted {A} (less : A -> A -> bool) l :
  strict_weak less -> StronglySorted (fun x y => less y x = false) (insertion_sort less l).
Proof. apply (sort_slice_sorted (H := insertion_sort_slice)). Qed.

(** A comparison through an integer key is a strict weak order. *)
Lemma strict_weak_key {A} (key : A -> Z) : strict_weak (fun x y => key x <? key y).
Proof. repeat split; intros *; rewrite ?Z.ltb_lt, ?Z.ltb_ge; lia. Qed.

Lemma strict_weak_key_desc {A} (key : A -> Z) : strict_weak (fun x y => key x >? key y).
Proof. repeat split; intros *; rewrite ?Z.gtb_ltb, ?Z.ltb_lt, ?Z.ltb_ge; lia. Qed.

(** The lexicographic order: the key first, then [less] between equal keys. *)
Definition lex {A} (key : A -> Z) (less : A -> A -> bool) (x y : A) : bool :=
  if key x =? key y then less x y else key x <? key y.

Lemma strict_weak_lex {A} (key : A -> Z) less : strict_weak less -> strict_weak (lex key less).
Proof.
  intros (Hirr & Htr & Hwk). unfold lex. split; [|split].
  - intros x. rewrite Z.eqb_refl. apply Hirr.
  - intros x y z. destruct (Z.eqb_spec (key x) (key y)), (Z.eqb_spec (key y) (key z)),
      (Z.eqb_spec (key x) (key z)); rewrite ?Z.ltb_lt; try lia. apply Htr.
  - intros x y z. destruct (Z.eqb_spec (key x) (key y)), (Z.eqb_spec (key x) (key z)),
      (Z.eqb_spec (key z) (key y)); rewrite ?Z.ltb_lt; try lia. apply Hwk.
Qed.

Lemma strict_weak_false {A} : strict_weak (fun _ _ : A => false).
Proof. by repeat split. Qed.

Lemma strict_weak_ext {A} (f g : A -> A -> bool) :
  (forall x y, f x y = g x y) -> strict_weak g -> strict_weak f.
Proof.
  intros Hfg (Hirr & Htr & Hwk). split; [|split]; intros *; rewrite ?Hfg; [apply Hirr|apply Htr|apply Hwk].
Qed.

#[export] Hint Resolve strict_weak_key strict_weak_key_desc strict_weak_lex strict_weak_false : rbg.

(** * Tactics *)

(** Case analysis on the boolean tests of the goal, innermost first. *)
Ltac bool_cases :=
  repeat match goal with
  | |- context [if ?b then _ else _] =>
      lazymatch b with
      | context [if _ then _ else _] => fail
      | _ => let E := fresh "E" in destruct b eqn:E
      end
  end.

Ltac breflect :=
  repeat match goal with
  | H : (_ && _)%bool = true |- _ => apply andb_prop in H; destruct H
  | H : (_ || _)%bool = false |- _ => apply orb_false_elim in H; destruct H
  | H : negb _ = true |- _ => apply negb_true_iff in H
  | H : negb _ = false |- _ => apply negb_false_iff in H
  | H : (_ <? _) = true |- _ => apply Z.ltb_lt in H
  | H : (_ <? _) = false |- _ => apply Z.ltb_ge in H
  | H : (_ <=? _) = true |- _ => apply Z.leb_le in H
  | H : (_ <=? _) = false |- _ => apply Z.leb_gt in H
  | H : (_ >? _) = _ |- _ => rewrite Z.gtb_ltb in H
  | H : (_ >=? _) = _ |- _ => rewrite Z.geb_leb in H
  | H : (_ =? _) = true |- _ => apply Z.eqb_eq in H
  | H : (_ =? _) = false |- _ => apply Z.eqb_neq in H
  | H : bool_decide _ = true |- _ => apply bool_decide_eq_true in H
  | H : bool_decide _ = false |- _ => apply bool_decide_eq_false in H
  end.

Ltac bcase := bool_cases; breflect; try lia; try done.
