(* ===== verification/GoStrings.v ===== *)
(** The operations of Go's [strings], [strconv] and [fmt] packages that the
    modelled code uses, on Rocq strings: suffix tests, decimal printing
    ([strconv.Itoa], [%d]) and decimal parsing ([strconv.Atoi],
    [strconv.ParseInt]) with the range check, and the round trip between them. *)
From Stdlib Require Import ZArith Lia Bool Ascii String.
From stdpp Require Import base tactics list strings.
From S2P Require Import Prelude.

Abbreviation chars := list_ascii_of_string.
Abbreviation of_chars := string_of_list_ascii.

(** [strings.Join(l, sep)]. *)
Fixpoint Join (l : list string) (sep : string) : string :=
  match l with
  | [] => ""
  | [x] => x
  | x :: l' => x +:+ sep +:+ Join l' sep
  end.

(** The text before the first slash and the text after it; [None] without one. *)
Fixpoint cut_slash (l : list ascii) : option (list ascii * list ascii) :=
  match l with
  | [] => None
  | c :: l' =>
      if bool_decide (c = "/"%char) then Some ([], l')
      else match cut_slash l' with Some (a, b) => Some (c :: a, b) | None => None end
  end.

(** [%q] of a text that needs no escape. *)
Definition dquote : ascii := ascii_of_nat 34.
Definition quoted (s : string) : string := String dquote (s +:+ String dquote "").

(** * Digits *)

Definition digit_val (c : ascii) : option Z :=
  let n := Z.of_nat (nat_of_ascii c) in
  if (48 <=? n) && (n <=? 57) then Some (n - 48) else None.

Definition digit_char (d : Z) : ascii := ascii_of_nat (Z.to_nat (d + 48)).

Definition is_digit (c : ascii) : bool := bool_decide (is_Some (digit_val c)).

Fixpoint parse_digits (acc : Z) (l : list ascii) : option Z :=
  match l with
  | [] => Some acc
  | c :: l' => d ← digit_val c; parse_digits (acc * 10 + d) l'
  end.

(** The value of a non-empty digit string. *)
Definition parse_udec (l : list ascii) : option Z :=
  match l with [] => None | _ => parse_digits 0 l end.

Definition split_sign (l : list ascii) : bool * list ascii :=
  match l with
  | c :: l' =>
      if bool_decide (c = "+"%char) then (false, l')
      else if bool_decide (c = "-"%char) then (true, l')
      else (false, l)
  | [] => (false, l)
  end.

(** [strconv.ParseInt(s, 10, bits)]: an optional sign, digits, a range check. *)
Definition ParseInt (s : string) (bits : Z) : result Z :=
  let '(neg, ds) := split_sign (chars s) in
  match parse_udec ds with
  | None => Err "invalid syntax"
  | Some v =>
      let r := if neg then - v else v in
      if (- 2 ^ (bits - 1) <=? r) && (r <? 2 ^ (bits - 1)) then Ok r
      else Err "value out of range"
  end.

Definition Atoi (s : string) : result Z := ParseInt s 64.

(** [strconv.ParseUint(s, 10, 64)]: no sign is accepted. *)
Definition ParseUint64 (s : string) : result Z :=
  match parse_udec (chars s) with
  | None => Err "invalid syntax"
  | Some v => if v <? 2 ^ 64 then Ok v else Err "value out of range"
  end.

Fixpoint digits_of (fuel : nat) (n : Z) (acc : list ascii) : list ascii :=
  match fuel with
  | O => acc
  | S fuel' =>
      let acc' := digit_char (n mod 10) :: acc in
      if n / 10 =? 0 then acc' else digits_of fuel' (n / 10) acc'
  end.

(** One digit per bit of [n] is more than enough. *)
Definition utoa (n : Z) : list ascii := digits_of (S (Z.to_nat (Z.log2 n))) n [].

(** [strconv.Itoa] and the [%d] verb. *)
Definition Itoa (n : Z) : string :=
  if n <? 0 then of_chars ("-"%char :: utoa (- n)) else of_chars (utoa n).

(** * [strings] *)

Definition HasSuffixChar (s : string) (c : ascii) : bool :=
  match last (chars s) with Some c' => bool_decide (c' = c) | None => false end.

(** [strings.TrimSuffix(s, string(c))] for a one-character suffix. *)
Definition TrimSuffixChar (s : string) (c : ascii) : string :=
  if HasSuffixChar s c then of_chars (removelast (chars s)) else s.

(** [strings.TrimSpace] on ASCII text. *)
Definition is_space (c : ascii) : bool :=
  let n := nat_of_ascii c in ((9 <=? n) && (n <=? 13) || (n =? 32))%nat.

Fixpoint drop_spaces (l : list ascii) : list ascii :=
  match l with c :: l' => if is_space c then drop_spaces l' else l | [] => [] end.

Definition TrimSpace (s : string) : string :=
  of_chars (rev (drop_spaces (rev (drop_spaces (chars s))))).

(** [strings.Replace(s, string(c), "", -1)]. *)
Definition RemoveChar (s : string) (c : ascii) : string :=
  of_chars (List.filter (fun c' => negb (bool_decide (c' = c))) (chars s)).

(** [list := strings.Split(s, string(c)); list[len(list)-1]]: what follows the
    last separator. *)
Fixpoint after_last (c : ascii) (cur : list ascii) (l : list ascii) : list ascii :=
  match l with
  | [] => cur
  | x :: l' => if bool_decide (x = c) then after_last c l' l' else after_last c cur l'
  end.

Definition LastField (s : string) (c : ascii) : string :=
  of_chars (after_last c (chars s) (chars s)).

(** [strings.Split(s, string(c))]. *)
Fixpoint split_chars (c : ascii) (l : list ascii) : list (list ascii) :=
  match l with
  | [] => [[]]
  | x :: l' =>
      let fields := split_chars c l' in
      if bool_decide (x = c) then [] :: fields
      else match fields with
           | [] => [[x]]
           | f :: fields' => (x :: f) :: fields'
           end
  end.

Definition Split (s : string) (c : ascii) : list string := map of_chars (split_chars c (chars s)).

(** [strings.HasPrefix]. *)
Fixpoint has_prefix (p l : list ascii) : bool :=
  match p, l with
  | [], _ => true
  | x :: p', y :: l' => bool_decide (x = y) && has_prefix p' l'
  | _, [] => false
  end.

Definition HasPrefix (s p : string) : bool := has_prefix (chars p) (chars s).

(** [strings.Replace(s, old, "", 1)] for a non-empty [old]. *)
Fixpoint remove_first (old l : list ascii) : list ascii :=
  if has_prefix old l then drop (length old) l
  else match l with [] => [] | x :: l' => x :: remove_first old l' end.

Definition RemoveFirst (s old : string) : string := of_chars (remove_first (chars old) (chars s)).

(** * Round trip *)

Lemma digit_val_char d : 0 <= d < 10 -> digit_val (digit_char d) = Some d.
Proof.
  intros H. unfold digit_val, digit_char. rewrite nat_ascii_embedding by lia.
  rewrite Z2Nat.id by lia.
  replace (48 <=? d + 48) with true by (symmetry; apply Z.leb_le; lia).
  replace (d + 48 <=? 57) with true by (symmetry; apply Z.leb_le; lia).
  simpl. f_equal. lia.
Qed.

Lemma digits_of_app fuel n acc : digits_of fuel n acc = (digits_of fuel n [] ++ acc)%list.
Proof.
  revert n acc. induction fuel as [|fuel IH]; intros n acc; [done|]. simpl.
  destruct (n / 10 =? 0); [done|].
  rewrite (IH _ (_ :: acc)), (IH _ [_]). by rewrite <-(assoc_L (++)).
Qed.

Lemma parse_digits_app acc l1 l2 :
  parse_digits acc (l1 ++ l2)%list = v ← parse_digits acc l1; parse_digits v l2.
Proof.
  revert acc. induction l1 as [|c l1 IH]; intros acc; [done|]. simpl.
  destruct (digit_val c); simpl; [apply IH|done].
Qed.

Lemma parse_digits_of fuel n :
  0 <= n -> n < 2 ^ Z.of_nat fuel -> parse_digits 0 (digits_of fuel n []) = Some n.
Proof.
  revert n. induction fuel as [|fuel IH]; intros n Hn Hb.
  - simpl in *. f_equal. lia.
  - cbn [digits_of]. pose proof (Z.div_mod n 10 ltac:(lia)) as Hdm.
    pose proof (Z.mod_pos_bound n 10 ltac:(lia)).
    destruct (n / 10 =? 0) eqn:E; breflect.
    + simpl. rewrite digit_val_char by lia. simpl. f_equal. lia.
    + rewrite digits_of_app, parse_digits_app, IH.
      * simpl. rewrite digit_val_char by lia. simpl. f_equal. lia.
      * apply Z.div_pos; lia.
      * rewrite Nat2Z.inj_succ, Z.pow_succ_r in Hb by lia.
        apply Z.div_lt_upper_bound; lia.
Qed.

Lemma parse_utoa n : 0 <= n -> parse_digits 0 (utoa n) = Some n.
Proof.
  intros H. unfold utoa. apply parse_digits_of; [done|].
  rewrite Nat2Z.inj_succ, Z2Nat.id by apply Z.log2_nonneg.
  destruct (decide (n = 0)) as [->|]; [done|]. apply Z.log2_spec. lia.
Qed.

Lemma digits_of_all_digits fuel n acc :
  0 <= n -> Forall (fun c => is_digit c = true) acc ->
  Forall (fun c => is_digit c = true) (digits_of fuel n acc).
Proof.
  revert n acc. induction fuel as [|fuel IH]; intros n acc Hn Hacc; [done|]. simpl.
  assert (is_digit (digit_char (n mod 10)) = true) as Hd.
  { unfold is_digit. rewrite digit_val_char by (apply Z.mod_pos_bound; lia).
    apply bool_decide_eq_true. eauto. }
  destruct (n / 10 =? 0); [by constructor|].
  apply IH; [apply Z.div_pos; lia|by constructor].
Qed.

Lemma utoa_all_digits n : 0 <= n -> Forall (fun c => is_digit c = true) (utoa n).
Proof. intros. by apply digits_of_all_digits. Qed.

Lemma utoa_nonempty n : utoa n <> [].
Proof.
  unfold utoa. simpl. destruct (n / 10 =? 0); [done|].
  rewrite digits_of_app. by destruct (digits_of _ _ []).
Qed.

Lemma parse_udec_utoa n : 0 <= n -> parse_udec (utoa n) = Some n.
Proof.
  intros H. pose proof (utoa_nonempty n). unfold parse_udec.
  destruct (utoa n) eqn:E; [done|]. rewrite <-E. by apply parse_utoa.
Qed.

Lemma is_digit_not_sign c : is_digit c = true -> c <> "+"%char /\ c <> "-"%char.
Proof. by split; intros ->. Qed.

Lemma ParseInt_digits l bits v :
  Forall (fun c => is_digit c = true) l -> parse_udec l = Some v ->
  0 <= v < 2 ^ (bits - 1) -> ParseInt (of_chars l) bits = Ok v.
Proof.
  intros HF Hp Hv. unfold ParseInt. rewrite list_ascii_of_string_of_list_ascii.
  assert (split_sign l = (false, l)) as ->.
  { destruct HF as [|c l Hc HF]; [done|].
    pose proof (is_digit_not_sign c Hc) as [H1 H2]. simpl.
    by rewrite !bool_decide_eq_false_2. }
  rewrite Hp.
  replace (- 2 ^ (bits - 1) <=? v) with true by (symmetry; apply Z.leb_le; lia).
  replace (v <? 2 ^ (bits - 1)) with true by (symmetry; apply Z.ltb_lt; lia).
  done.
Qed.

Lemma ParseInt_Itoa n bits :
  0 <= n < 2 ^ (bits - 1) -> ParseInt (Itoa n) bits = Ok n.
Proof.
  intros H. unfold Itoa. replace (n <? 0) with false by (symmetry; apply Z.ltb_ge; lia).
  apply ParseInt_digits; [apply utoa_all_digits|apply parse_udec_utoa|]; lia.
Qed.

(** A parsed integer fits the requested width. *)
Lemma ParseInt_range s bits v :
  ParseInt s bits = Ok v -> - 2 ^ (bits - 1) <= v < 2 ^ (bits - 1).
Proof.
  unfold ParseInt. destruct (split_sign _) as [neg ds].
  destruct (parse_udec ds); [|done]. intros H.
  destruct (_ && _)%bool eqn:E in H; simplify_eq; breflect; lia.
Qed.

#[export] Hint Resolve ParseInt_range utoa_all_digits utoa_nonempty : rbg.

(** The last field has no separator, so taking it again changes nothing. *)
Lemma after_last_free c cur l : c ∉ l -> after_last c cur l = cur.
Proof.
  revert cur. induction l as [|x l IH]; intros cur Hc; [done|]. cbn [after_last]. apply not_elem_of_cons in Hc as [Hx Hl].
  rewrite bool_decide_eq_false_2 by congruence. by apply IH.
Qed.

Lemma after_last_result c cur l : (c ∈ l -> c ∉ after_last c cur l) /\ (c ∉ l -> after_last c cur l = cur).
Proof.
  split; [|apply after_last_free]. revert cur. induction l as [|x l IH]; intros cur Hc; [by apply elem_of_nil in Hc|].
  cbn [after_last]. case_bool_decide as Hx.
  - destruct (decide (c ∈ l)) as [Hl|Hl]; [by apply IH|]. by rewrite after_last_free.
  - apply elem_of_cons in Hc as [Hc|Hc]; [congruence|]. by apply IH.
Qed.

Lemma LastField_idem s c : LastField (LastField s c) c = LastField s c.
Proof.
  unfold LastField. rewrite list_ascii_of_string_of_list_ascii. f_equal. apply after_last_free.
  destruct (decide (c ∈ chars s)) as [Hc|Hc]; [by apply after_last_result|]. by rewrite after_last_free.
Qed.
