(* ===== verification/Float64.v ===== *)
(** Go's [float64] for the values the controllers compute with.

    A finite value is a dyadic [m * 2^e]; every operation returns the exact
    result rounded to 53 significant bits, ties to even, which is IEEE-754
    binary64 without its exponent bounds.  The code only builds floats from
    integers of at most 64 bits, small decimal constants and their quotients
    and products, so no result is near 2^1024 or 2^-1022.  The sign of zero is
    not kept: no modelled operation divides by a computed zero of unknown sign.
    A conversion to an integer that does not fit, which the Go specification
    leaves to the implementation, gives the amd64 value (the minimum). *)
From Stdlib Require Import ZArith Lia Bool.
From stdpp Require Import base tactics.
From S2P Require Import Prelude.

Inductive float64 : Type :=
| Fin (m e : Z)
| Inf (neg : bool)
| NaN.

#[export] Instance float64_eq_dec : EqDecision float64.
Proof. solve_decision. Defined.

(** * Rounding the rational [n / d], [d > 0] *)

(** The exponent [e] with [2^52 <= (|n| / d) * 2^-e < 2^53]. *)
Definition scaled_num (a e : Z) : Z := a * 2 ^ Z.max 0 (- e).
Definition scaled_den (d e : Z) : Z := d * 2 ^ Z.max 0 e.

Definition round_exp (a d : Z) : Z :=
  let e0 := Z.log2 a - Z.log2 d - 53 in
  if 2 ^ 53 <=? scaled_num a e0 / scaled_den d e0 then e0 + 1 else e0.

Definition round_even (n d : Z) : Z :=
  let q := n / d in
  let r := n mod d in
  if 2 * r <? d then q
  else if d <? 2 * r then q + 1
  else if Z.even q then q else q + 1.

Definition round_pos (a d : Z) : Z * Z :=
  let e := round_exp a d in
  (round_even (scaled_num a e) (scaled_den d e), e).

(** Correctly rounded [n / d]. *)
Definition rnd (n d : Z) : float64 :=
  if n =? 0 then Fin 0 0
  else
    let '(m, e) := round_pos (Z.abs n) d in
    (* a carry to 2^53 is renormalised *)
    let '(m, e) := if m =? 2 ^ 53 then (2 ^ 52, e + 1) else (m, e) in
    Fin (Z.sgn n * m) e.

(** * Operations *)

Definition fnum (m e : Z) : Z := m * 2 ^ Z.max 0 e.
Definition fden (e : Z) : Z := 2 ^ Z.max 0 (- e).

(** [float64(i)] of an integer. *)
Definition f_of_int (i : Z) : float64 := rnd i 1.

Definition f_sign (f : float64) : Z :=
  match f with Fin m _ => Z.sgn m | Inf neg => if neg then -1 else 1 | NaN => 0 end.

Definition f_opp (f : float64) : float64 :=
  match f with Fin m e => Fin (- m) e | Inf s => Inf (negb s) | NaN => NaN end.

Definition f_add (x y : float64) : float64 :=
  match x, y with
  | Fin m1 e1, Fin m2 e2 =>
      rnd (fnum m1 e1 * fden e2 + fnum m2 e2 * fden e1) (fden e1 * fden e2)
  | NaN, _ | _, NaN => NaN
  | Inf s, Inf s' => if Bool.eqb s s' then Inf s else NaN
  | Inf s, _ | _, Inf s => Inf s
  end.

Definition f_sub (x y : float64) : float64 := f_add x (f_opp y).

Definition f_mul (x y : float64) : float64 :=
  match x, y with
  | Fin m1 e1, Fin m2 e2 => rnd (fnum m1 e1 * fnum m2 e2) (fden e1 * fden e2)
  | NaN, _ | _, NaN => NaN
  | Inf _, _ | _, Inf _ =>
      if f_sign x * f_sign y =? 0 then NaN else Inf (f_sign x * f_sign y <? 0)
  end.

Definition f_div (x y : float64) : float64 :=
  match x, y with
  | Fin m1 e1, Fin m2 e2 =>
      if m2 =? 0 then (if m1 =? 0 then NaN else Inf (m1 <? 0))
      else
        let n := fnum m1 e1 * fden e2 in
        let d := fden e1 * fnum m2 e2 in
        rnd (Z.sgn d * n) (Z.abs d)
  | NaN, _ | _, NaN => NaN
  | Inf _, Inf _ => NaN
  | Inf s, Fin m2 _ => Inf (if m2 <? 0 then negb s else s)
  | Fin _ _, Inf _ => Fin 0 0
  end.

(** [x < y]; false when either is NaN. *)
Definition f_ltb (x y : float64) : bool :=
  match x, y with
  | Fin m1 e1, Fin m2 e2 => fnum m1 e1 * fden e2 <? fnum m2 e2 * fden e1
  | NaN, _ | _, NaN => false
  | Inf s, Inf s' => s && negb s'
  | Inf s, Fin _ _ => s
  | Fin _ _, Inf s => negb s
  end.

(** [x >= y], [x > y]; false when either is NaN. *)
Definition f_geb (x y : float64) : bool :=
  match x, y with
  | NaN, _ | _, NaN => false
  | _, _ => negb (f_ltb x y)
  end.
Definition f_gtb (x y : float64) : bool := f_ltb y x.

(** [math.Ceil], [math.Floor], [math.Round] (half away from zero), as the
    integer they denote; [None] for an infinity or NaN. *)
Definition f_ceil (f : float64) : option Z :=
  match f with Fin m e => Some (- (- fnum m e / fden e)) | _ => None end.
Definition f_floor (f : float64) : option Z :=
  match f with Fin m e => Some (fnum m e / fden e) | _ => None end.
Definition f_round (f : float64) : option Z :=
  match f with
  | Fin m e => Some (Z.sgn m * ((2 * Z.abs (fnum m e) + fden e) / (2 * fden e)))
  | _ => None
  end.

(** [int(f)] and [int32(f)] of an integral float. *)
Definition int64_of (z : option Z) : Z :=
  match z with
  | Some v => if bool_decide (is_int64 v) then v else int64_min
  | None => int64_min
  end.
Definition int32_of (z : option Z) : Z :=
  match z with
  | Some v => if bool_decide (is_int32 v) then v else int32_min
  | None => int32_min
  end.

(** * Rounding is accurate to half a unit in the last place *)

Lemma round_even_spec n d :
  0 < d -> 2 * Z.abs (round_even n d * d - n) <= d /\ (n mod d = 0 -> round_even n d * d = n).
Proof.
  intros Hd. unfold round_even.
  pose proof (Z.div_mod n d ltac:(lia)). pose proof (Z.mod_pos_bound n d Hd).
  bool_cases; breflect; split; intros; nia.
Qed.

Lemma pow2_pos k : 0 < 2 ^ Z.max 0 k.
Proof. apply Z.pow_pos_nonneg; lia. Qed.

Lemma pow2_split e : 2 ^ Z.max 0 e * 2 ^ Z.max 0 (- e) = 2 ^ Z.abs e.
Proof. rewrite <-Z.pow_add_r by lia. f_equal. lia. Qed.

Lemma fden_pos e : 0 < fden e.
Proof. apply pow2_pos. Qed.

#[export] Hint Resolve pow2_pos fden_pos : rbg.

(** When the quotient is below [2^52] the exponent is not positive and the
    scale factor is at least [d] for numerators up to [2^52]. *)
Lemma round_exp_bounds a d :
  0 < a < 2 ^ 52 -> 0 < d -> round_exp a d <= 0 /\ d < 2 ^ (- round_exp a d).
Proof.
  intros Ha Hd. unfold round_exp.
  pose proof (Z.log2_spec a ltac:(lia)) as [Hla Hla'].
  pose proof (Z.log2_spec d ltac:(lia)) as [Hld Hld'].
  pose proof (Z.log2_nonneg a). pose proof (Z.log2_nonneg d).
  assert (Z.log2 a < 52) as Hl52 by (apply Z.log2_lt_pow2; lia).
  set (la := Z.log2 a) in *. set (ld := Z.log2 d) in *.
  rewrite Z.pow_succ_r in Hld' by lia.
  assert (2 ^ (ld + 1) = 2 * 2 ^ ld) as Hs by (rewrite Z.add_1_r, Z.pow_succ_r; lia).
  assert (2 ^ (ld + 1) <= 2 ^ (ld + 53 - la)) as Hm by (apply Z.pow_le_mono_r; lia).
  destruct (2 ^ 53 <=? _) eqn:E; [|split; [lia|]].
  2:{ replace (- (la - ld - 53)) with (ld + 53 - la) by lia. lia. }
  split; [lia|]. breflect.
  unfold scaled_num, scaled_den in E.
  replace (Z.max 0 (la - ld - 53)) with 0 in E by lia.
  replace (Z.max 0 (- (la - ld - 53))) with (ld + 53 - la) in E by lia.
  rewrite Z.pow_0_r, Z.mul_1_r in E.
  replace (- (la - ld - 53 + 1)) with (ld + 52 - la) by lia.
  replace (ld + 53 - la) with (Z.succ (ld + 52 - la)) in E by lia.
  rewrite Z.pow_succ_r in E by lia.
  assert (2 ^ 53 * d <= a * (2 * 2 ^ (ld + 52 - la))) as HE.
  { pose proof (Z.mul_div_le (a * (2 * 2 ^ (ld + 52 - la))) d Hd). nia. }
  change (2 ^ 53) with (2 * 2 ^ 52) in HE. nia.
Qed.

(** The rounded quotient of [a / d] has the value [m' / 2^k], within half a
    unit, where the unit [2^-k] is below [1 / d]; it is exact when it can be. *)
Lemma rnd_pos_spec a d :
  0 < a < 2 ^ 52 -> 0 < d ->
  exists m e m' k,
    rnd a d = Fin m e /\ 0 <= m /\ fnum m e * 2 ^ k = m' * fden e /\ 0 <= k /\ d < 2 ^ k
    /\ 2 * Z.abs (m' * d - a * 2 ^ k) <= d
    /\ ((a * 2 ^ k) mod d = 0 -> m' * d = a * 2 ^ k).
Proof.
  intros Ha Hd. pose proof (round_exp_bounds a d Ha Hd) as [He Hk].
  unfold rnd. replace (a =? 0) with false by (symmetry; apply Z.eqb_neq; lia).
  rewrite Z.abs_eq, Z.sgn_pos by lia. unfold round_pos. cbv zeta.
  set (e := round_exp a d) in *.
  assert (scaled_num a e = a * 2 ^ (- e)) as -> by (unfold scaled_num; f_equal; f_equal; lia).
  assert (scaled_den d e = d) as ->
    by (unfold scaled_den; replace (Z.max 0 e) with 0 by lia; lia).
  pose proof (round_even_spec (a * 2 ^ (- e)) d Hd) as [Herr Hex].
  set (m' := round_even (a * 2 ^ (- e)) d) in *.
  assert (0 <= m') as Hm'.
  { assert (0 < 2 ^ (- e)) by (apply Z.pow_pos_nonneg; lia). nia. }
  destruct (m' =? 2 ^ 53) eqn:E; breflect.
  - exists (1 * 2 ^ 52), (e + 1), m', (- e). repeat split; try done; try lia.
    unfold fnum, fden. rewrite E.
    destruct (decide (e = 0)) as [->|]; [done|].
    replace (Z.max 0 (e + 1)) with 0 by lia.
    replace (Z.max 0 (- (e + 1))) with (- e - 1) by lia.
    replace (2 ^ (- e)) with (2 * 2 ^ (- e - 1))
      by (rewrite <-Z.pow_succ_r by lia; f_equal; lia).
    change (2 ^ 53) with (2 * 2 ^ 52). lia.
  - exists (1 * m'), e, m', (- e). repeat split; try done; try lia.
    unfold fnum, fden. replace (Z.max 0 e) with 0 by lia.
    replace (Z.max 0 (- e)) with (- e) by lia. lia.
Qed.

Lemma div_cross n d n' d' : 0 < d -> 0 < d' -> n * d' = n' * d -> n / d = n' / d'.
Proof.
  intros Hd Hd' H.
  rewrite <-(Z.div_mul_cancel_r n d d'), H, (Z.mul_comm d d'), Z.div_mul_cancel_r; lia.
Qed.

Lemma div_intro n d c : 0 < d -> c * d <= n < (c + 1) * d -> n / d = c.
Proof. intros. symmetry. apply (Z.div_unique n d c (n - c * d)); lia. Qed.

Lemma mul_cancel d x y : 0 < d -> x * d = y * d -> x = y.
Proof. intros. apply (Z.mul_reg_r x y d); lia. Qed.

Lemma mul_cancel_lt d x y : 0 < d -> x * d < y * d -> x < y.
Proof. intros ? H. by apply Zmult_lt_reg_r in H. Qed.

Lemma exact_mod a d p : 0 < d -> a mod d = 0 -> (a * p) mod d = 0.
Proof.
  intros Hd H. rewrite Z.mul_mod, H, Z.mul_0_l by lia. apply Z.mod_0_l. lia.
Qed.

Lemma f_floor_rnd a d : 0 <= a < 2 ^ 52 -> 0 < d -> f_floor (rnd a d) = Some (a / d).
Proof.
  intros Ha Hd. destruct (decide (a = 0)) as [->|]; [by rewrite Z.div_0_l by lia|].
  destruct (rnd_pos_spec a d) as (m & e & m' & k & -> & _ & Hv & Hk & Hdk & Herr & Hex); [lia..|].
  simpl. f_equal. pose proof (fden_pos e).
  assert (0 < 2 ^ k) by lia. rewrite (div_cross _ (fden e) m' (2 ^ k)) by done.
  apply div_intro; [done|].
  pose proof (Z.div_mod a d ltac:(lia)) as Hdm. pose proof (Z.mod_pos_bound a d Hd).
  pose proof (exact_mod a d (2 ^ k)) as Hm.
  set (c := a / d) in *. set (r := a mod d) in *. set (P := 2 ^ k) in *.
  destruct (decide (r = 0)) as [Hr|].
  - specialize (Hex (Hm Hd Hr)). assert (m' = c * P); [|nia].
    apply (mul_cancel d); [done|]. rewrite Hex. replace a with (d * c) by lia. ring.
  - assert (0 <= (r - 1) * P /\ 0 <= (d - 1 - r) * P) by nia.
    split; [|apply (mul_cancel_lt d); [done|nia]].
    apply Z.lt_le_incl, (mul_cancel_lt d); [done|nia].
Qed.

Lemma f_ceil_rnd a d : 0 <= a < 2 ^ 52 -> 0 < d -> f_ceil (rnd a d) = Some ((a + d - 1) / d).
Proof.
  intros Ha Hd. destruct (decide (a = 0)) as [->|].
  { transitivity (Some 0); [done|]. f_equal. symmetry. apply div_intro; lia. }
  destruct (rnd_pos_spec a d) as (m & e & m' & k & -> & _ & Hv & Hk & Hdk & Herr & Hex); [lia..|].
  simpl. f_equal. pose proof (fden_pos e).
  assert (0 < 2 ^ k) by lia. rewrite (div_cross _ (fden e) (- m') (2 ^ k)) by (done || lia).
  pose proof (Z.div_mod (a + d - 1) d ltac:(lia)) as Hdm.
  pose proof (Z.mod_pos_bound (a + d - 1) d Hd).
  set (c := (a + d - 1) / d) in *.
  pose proof (exact_mod a d (2 ^ k)) as Hm. set (P := 2 ^ k) in *.
  enough (- m' / P = - c) by lia. apply div_intro; [done|].
  clearbody c. destruct (decide (a = c * d)) as [->|].
  - specialize (Hex (Hm Hd (Z.mod_mul c d ltac:(lia)))).
    assert (m' = c * P); [|nia]. apply (mul_cancel d); [done|]. rewrite Hex. ring.
  - assert (0 <= (a - (c - 1) * d - 1) * P /\ 0 <= (c * d - 1 - a) * P) by nia.
    assert ((c - 1) * P < m' /\ m' < c * P); [|nia].
    split; apply (mul_cancel_lt d); try done; nia.
Qed.

Lemma f_round_rnd a d :
  0 <= a < 2 ^ 52 -> 0 < d -> f_round (rnd a d) = Some ((2 * a + d) / (2 * d)).
Proof.
  intros Ha Hd. destruct (decide (a = 0)) as [->|].
  { transitivity (Some 0); [done|]. f_equal. symmetry. apply div_intro; lia. }
  destruct (rnd_pos_spec a d) as (m & e & m' & k & -> & Hm0 & Hv & Hk & Hdk & Herr & Hex); [lia..|].
  pose proof (fden_pos e). assert (0 < 2 ^ k) by lia.
  assert (0 < m') by nia.
  assert (0 < m) by (unfold fnum in Hv; pose proof (pow2_pos e); nia).
  assert (0 <= fnum m e) by nia.
  simpl. f_equal. rewrite Z.sgn_pos, Z.mul_1_l, Z.abs_eq by lia.
  rewrite (div_cross _ (2 * fden e) (2 * m' + 2 ^ k) (2 * 2 ^ k)) by nia.
  pose proof (Z.div_mod (2 * a + d) (2 * d) ltac:(lia)) as Hdm.
  pose proof (Z.mod_pos_bound (2 * a + d) (2 * d) ltac:(lia)).
  set (c := (2 * a + d) / (2 * d)) in *.
  apply div_intro; [lia|].
  destruct (decide (2 * a + d = c * (2 * d))) as [Ht|Ht].
  - assert ((a * 2 ^ k) mod d = 0) as Hz.
    { assert (1 <= k) by (destruct (decide (k = 0)) as [->|]; [change (2 ^ 0) with 1 in *; lia|lia]).
      replace (2 ^ k) with (2 * 2 ^ (k - 1)) by (rewrite <-Z.pow_succ_r by lia; f_equal; lia).
      replace (a * (2 * 2 ^ (k - 1))) with ((2 * c - 1) * 2 ^ (k - 1) * d) by nia.
      apply Z.mod_mul. lia. }
    specialize (Hex Hz). set (P := 2 ^ k) in *.
    assert (2 * m' + P = c * (2 * P)) by (apply (mul_cancel d); [done|nia]). lia.
  - set (P := 2 ^ k) in *.
    assert (0 <= (2 * a + d - c * (2 * d) - 1) * P /\ 0 <= ((c + 1) * (2 * d) - 1 - (2 * a + d)) * P) by nia.
    split; [|apply (mul_cancel_lt d); [done|nia]].
    apply Z.lt_le_incl, (mul_cancel_lt d); [done|nia].
Qed.

(** * Integers are exact, and so are the quotients the code forms *)

Lemma round_even_scale n d c : 0 < d -> 0 < c -> round_even (n * c) (d * c) = round_even n d.
Proof.
  intros Hd Hc. unfold round_even.
  rewrite Z.div_mul_cancel_r, Z.mul_mod_distr_r by lia.
  set (r := n mod d).
  replace (2 * (r * c) <? d * c) with (2 * r <? d) by (apply Bool.eq_iff_eq_true; rewrite !Z.ltb_lt; nia).
  replace (d * c <? 2 * (r * c)) with (d <? 2 * r) by (apply Bool.eq_iff_eq_true; rewrite !Z.ltb_lt; nia).
  done.
Qed.

Lemma rnd_scale n d j : 0 <= j -> 0 < d -> rnd (n * 2 ^ j) (d * 2 ^ j) = rnd n d.
Proof.
  intros Hj Hd. assert (0 < 2 ^ j) as Hp by (apply Z.pow_pos_nonneg; lia).
  unfold rnd.
  replace (n * 2 ^ j =? 0) with (n =? 0) by (apply Bool.eq_iff_eq_true; rewrite !Z.eqb_eq; nia).
  destruct (n =? 0) eqn:E; [done|]. breflect.
  rewrite Z.abs_mul, (Z.abs_eq (2 ^ j)), Z.sgn_mul, (Z.sgn_pos (2 ^ j)), Z.mul_1_r by lia.
  assert (forall e, scaled_num (Z.abs n * 2 ^ j) e = scaled_num (Z.abs n) e * 2 ^ j) as Hn
    by (intros; unfold scaled_num; lia).
  assert (forall e, scaled_den (d * 2 ^ j) e = scaled_den d e * 2 ^ j) as Hd'
    by (intros; unfold scaled_den; lia).
  assert (forall e, 0 < scaled_den d e) as Hpos
    by (intros; unfold scaled_den; pose proof (pow2_pos e); nia).
  assert (round_exp (Z.abs n * 2 ^ j) (d * 2 ^ j) = round_exp (Z.abs n) d) as Hre.
  { unfold round_exp. rewrite !Z.log2_mul_pow2 by lia.
    replace (j + Z.log2 (Z.abs n) - (j + Z.log2 d) - 53) with (Z.log2 (Z.abs n) - Z.log2 d - 53) by lia.
    rewrite Hn, Hd', Z.div_mul_cancel_r; [done| |lia]. specialize (Hpos (Z.log2 (Z.abs n) - Z.log2 d - 53)). lia. }
  unfold round_pos. cbv zeta. rewrite Hre, Hn, Hd', round_even_scale by auto. done.
Qed.

Lemma f_of_int_exact a :
  0 <= a < 2 ^ 52 -> exists m e, f_of_int a = Fin m e /\ fnum m e = a * fden e /\ (m = 0 <-> a = 0).
Proof.
  intros Ha. destruct (decide (a = 0)) as [->|]; [by exists 0, 0|].
  destruct (rnd_pos_spec a 1) as (m & e & m' & k & Heq & Hm0 & Hv & Hk & Hdk & Herr & Hex); [lia..|].
  exists m, e. split; [done|]. specialize (Hex ltac:(apply Z.mod_1_r)).
  assert (fnum m e = a * fden e) as Hval by nia.
  split; [done|]. pose proof (fden_pos e). unfold fnum in Hval. pose proof (pow2_pos e). nia.
Qed.

Lemma fden_pow e : exists j, 0 <= j /\ fden e = 2 ^ j.
Proof. exists (Z.max 0 (- e)). split; [lia|done]. Qed.

Lemma f_div_int a b :
  0 <= a < 2 ^ 52 -> 0 < b < 2 ^ 52 -> f_div (f_of_int a) (f_of_int b) = rnd a b.
Proof.
  intros Ha Hb.
  destruct (f_of_int_exact a Ha) as (m1 & e1 & -> & H1 & _).
  destruct (f_of_int_exact b ltac:(lia)) as (m2 & e2 & -> & H2 & Hz).
  simpl. replace (m2 =? 0) with false by (symmetry; apply Z.eqb_neq; lia).
  rewrite H1, H2. destruct (fden_pow e1) as (j1 & ? & ->), (fden_pow e2) as (j2 & ? & ->).
  assert (0 < 2 ^ j1) by (apply Z.pow_pos_nonneg; lia).
  assert (0 < 2 ^ j2) by (apply Z.pow_pos_nonneg; lia).
  rewrite Z.sgn_pos, Z.abs_eq by nia.
  rewrite <-(rnd_scale a b (j1 + j2)) by lia. rewrite Z.pow_add_r by lia. f_equal; lia.
Qed.

Lemma f_mul_int a b :
  0 <= a < 2 ^ 52 -> 0 <= b < 2 ^ 52 -> f_mul (f_of_int a) (f_of_int b) = f_of_int (a * b).
Proof.
  intros Ha Hb.
  destruct (f_of_int_exact a Ha) as (m1 & e1 & -> & H1 & _).
  destruct (f_of_int_exact b Hb) as (m2 & e2 & -> & H2 & _).
  simpl. rewrite H1, H2. destruct (fden_pow e1) as (j1 & ? & ->), (fden_pow e2) as (j2 & ? & ->).
  unfold f_of_int. rewrite <-(rnd_scale (a * b) 1 (j1 + j2)) by lia.
  rewrite Z.pow_add_r by lia. f_equal; lia.
Qed.

(** [math.Ceil(float64(v) * float64(t) / 100)] and [math.Floor] are the exact
    integer quotients for the products the controllers meet. *)
Lemma f_percent v t :
  0 <= v < 2 ^ 52 -> 0 <= t < 2 ^ 52 -> v * t < 2 ^ 52 ->
  f_div (f_mul (f_of_int v) (f_of_int t)) (f_of_int 100) = rnd (v * t) 100.
Proof. intros. rewrite f_mul_int, f_div_int by nia. done. Qed.

Lemma f_ltb_ints a b :
  0 <= a < 2 ^ 52 -> 0 <= b < 2 ^ 52 -> f_ltb (f_of_int a) (f_of_int b) = (a <? b).
Proof.
  intros Ha Hb.
  destruct (f_of_int_exact a Ha) as (m1 & e1 & -> & H1 & _).
  destruct (f_of_int_exact b Hb) as (m2 & e2 & -> & H2 & _).
  simpl. rewrite H1, H2. pose proof (fden_pos e1). pose proof (fden_pos e2).
  apply Bool.eq_iff_eq_true. rewrite !Z.ltb_lt.
  replace (a * fden e1 * fden e2) with (a * (fden e1 * fden e2)) by ring.
  replace (b * fden e2 * fden e1) with (b * (fden e1 * fden e2)) by ring.
  symmetry. apply Z.mul_lt_mono_pos_r. nia.
Qed.

(** [int(math.Abs(float64(i)))]. *)
Definition f_abs_int (i : Z) : Z :=
  match f_of_int i with
  | Fin m e => int64_of (f_floor (Fin (Z.abs m) e))
  | _ => int64_min
  end.

Lemma rnd_opp n d : rnd (- n) d = f_opp (rnd n d).
Proof.
  unfold rnd. rewrite Z.abs_opp, Z.sgn_opp.
  replace (- n =? 0) with (n =? 0) by (apply Bool.eq_iff_eq_true; rewrite !Z.eqb_eq; lia).
  destruct (n =? 0); [done|]. destruct (round_pos _ _) as [m e].
  destruct (m =? 2 ^ 53); simpl; f_equal; lia.
Qed.

Lemma f_abs_int_abs i : - 2 ^ 52 < i < 2 ^ 52 -> f_abs_int i = Z.abs i.
Proof.
  intros Hi.
  assert (forall a, 0 <= a < 2 ^ 52 -> f_abs_int a = a) as Hpos.
  { intros a Ha. unfold f_abs_int.
    destruct (f_of_int_exact a Ha) as (m & e & -> & H1 & _).
    pose proof (fden_pos e). pose proof (pow2_pos e).
    assert (0 <= m).
    { apply Z.nlt_ge. intros Hm. pose proof (Z.mul_neg_pos m (2 ^ Z.max 0 e) Hm ltac:(lia)).
      unfold fnum in H1. nia. }
    rewrite Z.abs_eq by done. simpl f_floor. rewrite H1, Z.div_mul by lia.
    unfold int64_of. rewrite bool_decide_eq_true_2; [done|]. unfold_int. lia. }
  destruct (decide (0 <= i)); [rewrite Hpos; lia|].
  rewrite Z.abs_neq by lia. rewrite <-(Hpos (- i)) by lia.
  unfold f_abs_int, f_of_int. rewrite rnd_opp. destruct (rnd i 1); simpl; [|done..].
  by rewrite Z.abs_opp.
Qed.

(** * The relative error of a rounding, and the comparison of two ratios *)

Lemma round_exp_low a d :
  0 < a -> 0 < d -> 2 ^ 52 * scaled_den d (round_exp a d) <= scaled_num a (round_exp a d).
Proof.
  intros Ha Hd. unfold round_exp. cbv zeta.
  pose proof (Z.log2_spec a Ha) as [Hla _]. pose proof (Z.log2_spec d Hd) as [_ Hld].
  pose proof (Z.log2_nonneg a). pose proof (Z.log2_nonneg d).
  set (la := Z.log2 a) in *. set (ld := Z.log2 d) in *. set (e0 := la - ld - 53).
  assert (0 < scaled_den d e0) by (unfold scaled_den; pose proof (pow2_pos e0); nia).
  destruct (2 ^ 53 <=? _) eqn:E.
  - breflect. assert (2 ^ 53 * scaled_den d e0 <= scaled_num a e0) as HE.
    { pose proof (Z.mul_div_le (scaled_num a e0) (scaled_den d e0) ltac:(lia)). nia. }
    change (2 ^ 53) with (2 * 2 ^ 52) in HE. unfold scaled_num, scaled_den in *.
    destruct (Z.le_gt_cases 0 e0).
    + replace (Z.max 0 (- e0)) with 0 in HE by lia. replace (Z.max 0 (- (e0 + 1))) with 0 by lia.
      replace (Z.max 0 e0) with e0 in HE by lia. replace (Z.max 0 (e0 + 1)) with (Z.succ e0) by lia.
      rewrite Z.pow_succ_r by lia. lia.
    + replace (Z.max 0 (- e0)) with (Z.succ (Z.max 0 (- (e0 + 1)))) in HE by lia. rewrite Z.pow_succ_r in HE by lia.
      replace (Z.max 0 e0) with 0 in HE by lia. replace (Z.max 0 (e0 + 1)) with 0 by lia. lia.
  - assert (2 ^ 52 * 2 ^ Z.succ ld * 2 ^ Z.max 0 e0 = 2 ^ la * 2 ^ Z.max 0 (- e0)) as Hp.
    { rewrite <-!Z.pow_add_r by lia. f_equal. lia. }
    unfold scaled_num, scaled_den. pose proof (pow2_pos e0). pose proof (pow2_pos (- e0)). nia.
Qed.

Lemma rnd_error a d :
  0 <= a -> 0 < d ->
  exists m e, rnd a d = Fin m e /\ 0 <= m /\ 2 ^ 53 * Z.abs (fnum m e * d - a * fden e) <= a * fden e.
Proof.
  intros Ha Hd. destruct (decide (a = 0)) as [->|]; [by exists 0, 0|].
  pose proof (round_exp_low a d ltac:(lia) Hd) as Hlow.
  unfold rnd. replace (a =? 0) with false by (symmetry; apply Z.eqb_neq; lia).
  rewrite Z.abs_eq, Z.sgn_pos by lia. unfold round_pos. cbv zeta. set (e := round_exp a d) in *.
  assert (0 < scaled_den d e) as Hsd by (unfold scaled_den; pose proof (pow2_pos e); nia).
  pose proof (round_even_spec (scaled_num a e) (scaled_den d e) Hsd) as [Herr _].
  set (m' := round_even _ _) in *.
  assert (0 <= m') as Hm' by nia.
  assert (2 ^ 53 * Z.abs (fnum m' e * d - a * fden e) <= a * fden e) as Hgoal.
  { change (2 ^ 53) with (2 ^ 52 * 2).
    replace (fnum m' e * d) with (m' * scaled_den d e) by (unfold fnum, scaled_den; lia).
    change (a * fden e) with (scaled_num a e). lia. }
  destruct (m' =? 2 ^ 53) eqn:E; breflect.
  - exists (1 * 2 ^ 52), (e + 1). split; [done|]. split; [lia|].
    rewrite E in Hgoal. revert Hgoal. unfold fnum, fden. destruct (Z.le_gt_cases 0 e).
    + replace (Z.max 0 (- e)) with 0 by lia. replace (Z.max 0 (- (e + 1))) with 0 by lia.
      replace (Z.max 0 e) with e by lia. replace (Z.max 0 (e + 1)) with (Z.succ e) by lia.
      rewrite Z.pow_succ_r by lia. change (2 ^ 53) with (2 ^ 52 * 2). lia.
    + replace (Z.max 0 (- e)) with (Z.succ (Z.max 0 (- (e + 1)))) by lia. rewrite Z.pow_succ_r by lia.
      replace (Z.max 0 e) with 0 by lia. replace (Z.max 0 (e + 1)) with 0 by lia.
      change (2 ^ 53) with (2 ^ 52 * 2). lia.
  - exists (1 * m'), e. rewrite Z.mul_1_l. done.
Qed.
