(* ===== verification/IntOrString.v ===== *)
(** [intstr.IntOrString] (vendor/k8s.io/apimachinery/pkg/util/intstr/intstr.go)
    and the helpers of pkg/utils/utils.go built on it: how a partition, a
    maxUnavailable or a maxSkew is resolved against a replica count. *)
From Stdlib Require Import ZArith Lia Bool Ascii String.
From stdpp Require Import base tactics list strings.
From S2P Require Import Prelude GoStrings Float64.

(** A value read from JSON or YAML is an int32 or a string. *)
Inductive IntOrString : Type :=
| FromInt32 (v : Z)
| FromString (s : string).

#[export] Instance IntOrString_eq_dec : EqDecision IntOrString.
Proof. solve_decision. Defined.

Definition IntValue (i : IntOrString) : Z :=
  match i with
  | FromInt32 v => v
  | FromString s => match Atoi s with Ok v => v | Err _ => 0 end
  end.

Definition IntOrString_String (i : option IntOrString) : string :=
  match i with
  | None => "<nil>"
  | Some (FromString s) => s
  | Some (FromInt32 v as i') => Itoa (IntValue i')
  end.

Definition ValueOrDefault (i : option IntOrString) (dflt : IntOrString) : option IntOrString :=
  match i with None => Some dflt | Some _ => i end.

Definition getIntOrPercentValueSafely (i : IntOrString) : result (Z * bool) :=
  match i with
  | FromInt32 v => Ok (IntValue i, false)
  | FromString s =>
      if HasSuffixChar s "%" then
        v ← Atoi (TrimSuffixChar s "%"); Ok (v, true)
      else Err "invalid type: string is not a percentage"
  end.

Definition getIntOrPercentValue (i : IntOrString) : result (Z * bool) :=
  match i with
  | FromInt32 v => Ok (IntValue i, false)
  | FromString s => v ← Atoi (RemoveChar s "%"); Ok (v, true)
  end.

(** [int(math.Ceil(float64(value) * float64(total) / 100))], or [Floor]. *)
Definition scale_percent (value total : Z) (roundUp : bool) : Z :=
  let x := f_div (f_mul (f_of_int value) (f_of_int total)) (f_of_int 100) in
  int64_of (if roundUp then f_ceil x else f_floor x).

Definition GetScaledValueFromIntOrPercent (i : option IntOrString) (total : Z) (roundUp : bool)
    : result Z :=
  match i with
  | None => Err "nil value for IntOrString"
  | Some i' =>
      match getIntOrPercentValueSafely i' with
      | Err _ => Err "invalid value for IntOrString"
      | Ok (value, isPercent) =>
          Ok (if isPercent then scale_percent value total roundUp else value)
      end
  end.

Definition GetValueFromIntOrPercent (i : option IntOrString) (total : Z) (roundUp : bool)
    : result Z :=
  match i with
  | None => Err "nil value for IntOrString"
  | Some i' =>
      match getIntOrPercentValue i' with
      | Err _ => Err "invalid value for IntOrString"
      | Ok (value, isPercent) =>
          Ok (if isPercent then scale_percent value total roundUp else value)
      end
  end.

Arguments GetScaledValueFromIntOrPercent : simpl never.
Arguments GetValueFromIntOrPercent : simpl never.

(** The idiom [v, _ := GetScaledValueFromIntOrPercent(..)]: the error is dropped
    and the value is the zero that accompanies it. *)
Definition scaled_or_zero (i : option IntOrString) (total : Z) (roundUp : bool) : Z :=
  match GetScaledValueFromIntOrPercent i total roundUp with Ok v => v | Err _ => 0 end.

(** pkg/utils/utils.go *)
Definition CalculatePartitionReplicas (partition : option IntOrString) (replicasPointer : option Z)
    : result Z :=
  match partition with
  | None => Ok 0
  | Some p =>
      let replicas := match replicasPointer with Some r => r | None => 1 end in
      pValue ← GetScaledValueFromIntOrPercent partition replicas true;
      let pValue :=
        match p with
        | FromString s =>
            if (1 <=? replicas) && (pValue =? replicas) && negb (bool_decide (s = "100%"%string))
            then replicas - 1 else pValue
        | FromInt32 _ => pValue
        end in
      Ok (Z.max (Z.min pValue replicas) 0)
  end.

(** The value is paired with an error flag: callers keep the value. *)
Definition ParseIntStrAsNonZero (p : IntOrString) (replicas : Z) : Z * bool :=
  match GetScaledValueFromIntOrPercent (Some p) replicas true with
  | Err _ => (1, true)
  | Ok value => (int32 (if value <? 1 then 1 else value), false)
  end.

Definition ABSFloat64 (x : float64) : float64 := if f_ltb x (Fin 0 0) then f_opp x else x.

Definition ContainsString (slice : list string) (str : string) : bool :=
  existsb (fun v => bool_decide (v = str)) slice.

(** * Percentages *)

Lemma ContainsString_spec slice s : ContainsString slice s = true <-> s ∈ slice.
Proof.
  unfold ContainsString. rewrite existsb_exists, list_elem_of_In. split.
  - intros (v & Hv & ->%bool_decide_eq_true). done.
  - intros H. exists s. by rewrite bool_decide_eq_true.
Qed.

Lemma chars_app s1 s2 : chars (s1 +:+ s2) = (chars s1 ++ chars s2)%list.
Proof. induction s1; simpl; [done|]. by f_equal. Qed.

Lemma of_chars_app l1 l2 : of_chars (l1 ++ l2) = of_chars l1 +:+ of_chars l2.
Proof. induction l1; simpl; [done|]. by rewrite IHl1. Qed.

Lemma chars_of_chars l : chars (of_chars l) = l.
Proof. apply list_ascii_of_string_of_list_ascii. Qed.

Lemma of_chars_chars s : of_chars (chars s) = s.
Proof. apply string_of_list_ascii_of_string. Qed.

(** The string ["<p>%"]. *)
Definition percent (p : Z) : string := Itoa p +:+ "%".

Lemma chars_percent p : chars (percent p) = (chars (Itoa p) ++ ["%"%char])%list.
Proof. unfold percent. by rewrite chars_app. Qed.

Lemma getIntOrPercentValueSafely_percent p :
  0 <= p <= int64_max -> getIntOrPercentValueSafely (FromString (percent p)) = Ok (p, true).
Proof.
  intros Hp. simpl. unfold TrimSuffixChar, HasSuffixChar.
  rewrite chars_percent, last_snoc, bool_decide_eq_true_2 by done.
  rewrite removelast_last, of_chars_chars. unfold Atoi.
  rewrite ParseInt_Itoa; [done|]. unfold_int. change (2 ^ (64 - 1)) with 9223372036854775808. lia.
Qed.

Lemma filter_none {A} (f : A -> bool) l :
  Forall (fun x => f x = true) l -> List.filter f l = l.
Proof. induction 1 as [|x l Hx Hl IH]; simpl; [done|]. by rewrite Hx, IH. Qed.

Lemma getIntOrPercentValue_percent p :
  0 <= p <= int64_max -> getIntOrPercentValue (FromString (percent p)) = Ok (p, true).
Proof.
  intros Hp. simpl. unfold RemoveChar. rewrite chars_percent.
  unfold Itoa. replace (p <? 0) with false by (symmetry; apply Z.ltb_ge; lia).
  rewrite chars_of_chars, List.filter_app. simpl. rewrite app_nil_r, filter_none.
  - unfold Atoi. rewrite (ParseInt_digits _ _ p); [done|apply utoa_all_digits|apply parse_udec_utoa|];
      unfold_int; change (2 ^ (64 - 1)) with 9223372036854775808; lia.
  - eapply Forall_impl; [apply utoa_all_digits; lia|].
    intros c Hc. simpl. rewrite bool_decide_eq_false_2; [done|]. by intros ->.
Qed.

Lemma int64_of_id z : is_int64 z -> int64_of (Some z) = z.
Proof. intros H. simpl. by rewrite bool_decide_eq_true_2. Qed.

(** Rounding in floating point never shows for the products that arise. *)
Lemma scale_percent_exact value total up :
  0 <= value < 2 ^ 52 -> 0 <= total < 2 ^ 52 -> value * total < 2 ^ 52 ->
  scale_percent value total up
  = if up then (value * total + 99) / 100 else value * total / 100.
Proof.
  intros Hv Ht Hvt. unfold scale_percent. rewrite f_percent by lia.
  assert (0 <= value * total) by nia.
  destruct up.
  - rewrite f_ceil_rnd by lia. rewrite int64_of_id; [f_equal; lia|].
    replace (value * total + 100 - 1) with (value * total + 99) by lia. unfold_int.
    pose proof (Z.div_pos (value * total + 99) 100 ltac:(lia) ltac:(lia)).
    pose proof (Z.div_le_upper_bound (value * total + 99) 100 (2 ^ 52) ltac:(lia) ltac:(lia)). lia.
  - rewrite f_floor_rnd by lia. apply int64_of_id. unfold_int.
    pose proof (Z.div_pos (value * total) 100 ltac:(lia) ltac:(lia)).
    pose proof (Z.div_le_upper_bound (value * total) 100 (2 ^ 52) ltac:(lia) ltac:(lia)). lia.
Qed.

Lemma GetScaled_percent p total up :
  0 <= p < 2 ^ 52 -> 0 <= total < 2 ^ 52 -> p * total < 2 ^ 52 ->
  GetScaledValueFromIntOrPercent (Some (FromString (percent p))) total up
  = Ok (if up then (p * total + 99) / 100 else p * total / 100).
Proof.
  intros. unfold GetScaledValueFromIntOrPercent.
  rewrite getIntOrPercentValueSafely_percent by (unfold_int; lia).
  by rewrite scale_percent_exact.
Qed.

Lemma GetValue_percent p total up :
  0 <= p < 2 ^ 52 -> 0 <= total < 2 ^ 52 -> p * total < 2 ^ 52 ->
  GetValueFromIntOrPercent (Some (FromString (percent p))) total up
  = Ok (if up then (p * total + 99) / 100 else p * total / 100).
Proof.
  intros. unfold GetValueFromIntOrPercent.
  rewrite getIntOrPercentValue_percent by (unfold_int; lia).
  by rewrite scale_percent_exact.
Qed.

Lemma percent_100 p : 0 <= p -> percent p = "100%"%string -> p = 100.
Proof.
  intros Hp H. assert (chars (percent p) = chars "100%"%string) as Hc by (by rewrite H).
  rewrite chars_percent in Hc. change (chars "100%") with (utoa 100 ++ ["%"%char])%list in Hc.
  apply app_inj_tail in Hc as [Hc _]. unfold Itoa in Hc.
  replace (p <? 0) with false in Hc by (symmetry; apply Z.ltb_ge; lia).
  rewrite chars_of_chars in Hc.
  pose proof (parse_utoa p Hp) as H1. rewrite Hc, parse_utoa in H1 by lia. by simplify_eq.
Qed.

(** Ceiling division by 100: the facts the partition rules need. *)
Lemma ceil100_bounds x : 100 * ((x + 99) / 100) - 99 <= x <= 100 * ((x + 99) / 100).
Proof.
  pose proof (Z.div_mod (x + 99) 100 ltac:(lia)).
  pose proof (Z.mod_pos_bound (x + 99) 100 ltac:(lia)). lia.
Qed.

(** The partition always fits the replica count. *)
Lemma CalculatePartitionReplicas_range partition replicas p :
  0 <= replicas -> CalculatePartitionReplicas partition (Some replicas) = Ok p ->
  0 <= p <= replicas.
Proof.
  intros Hr. unfold CalculatePartitionReplicas. destruct partition as [i|].
  2:{ intros [= <-]. lia. }
  destruct (GetScaledValueFromIntOrPercent _ _ _) as [v|]; [|done]. simpl.
  intros [= <-]. destruct i; lia.
Qed.

(** * Properties *)

(** The floating-point percentage arithmetic of intstr is exact on the sizes a
    group can have: a percentage of an int32 total resolves to the ceiling (or the
    floor) of the rational it denotes, through either reader. *)
Theorem percentage_exact (p total : Z) (up : bool) :
  0 <= p <= 1000 -> 0 <= total <= int32_max ->
  GetScaledValueFromIntOrPercent (Some (FromString (percent p))) total up
    = Ok (if up then (p * total + 99) / 100 else p * total / 100) /\
  GetValueFromIntOrPercent (Some (FromString (percent p))) total up
    = Ok (if up then (p * total + 99) / 100 else p * total / 100).
Proof. unfold_int. intros Hp Ht. split; [apply GetScaled_percent|apply GetValue_percent]; nia. Qed.

Lemma percentage_exact_witness :
  GetScaledValueFromIntOrPercent (Some (FromString (percent 30))) 10 true
    = Ok (if true then (30 * 10 + 99) / 100 else 30 * 10 / 100) /\
  GetValueFromIntOrPercent (Some (FromString (percent 30))) 10 true
    = Ok (if true then (30 * 10 + 99) / 100 else 30 * 10 / 100).
Proof. apply (percentage_exact 30 10 true); unfold_int; lia. Defined.

(** A percentage partition below 100% keeps the rounded-up share of the
    replicas on the old revision but always leaves at least one replica to update,
    and 100% keeps them all. *)
Theorem CalculatePartitionReplicas_percent (p replicas : Z) :
  0 <= p <= 100 -> 1 <= replicas <= int32_max ->
  CalculatePartitionReplicas (Some (FromString (percent p))) (Some replicas)
  = Ok (if p =? 100 then replicas else Z.min ((p * replicas + 99) / 100) (replicas - 1)).
Proof.
  unfold_int. intros Hp Hr. unfold CalculatePartitionReplicas.
  rewrite GetScaled_percent by nia. simpl.
  pose proof (ceil100_bounds (p * replicas)) as Hc.
  set (v := (p * replicas + 99) / 100) in *.
  replace (1 <=? replicas) with true by (symmetry; apply Z.leb_le; lia). simpl.
  destruct (p =? 100) eqn:E; breflect.
  - subst p. rewrite (bool_decide_eq_true_2 (percent 100 = _)) by done. simpl.
    rewrite andb_false_r. f_equal. lia.
  - rewrite (bool_decide_eq_false_2 (percent p = _)) by (intros H; apply percent_100 in H; lia).
    rewrite andb_true_r. assert (0 <= v <= replicas) by nia. f_equal. bcase.
Qed.

Lemma CalculatePartitionReplicas_percent_witness :
  CalculatePartitionReplicas (Some (FromString (percent 99))) (Some 4)
  = Ok (if 99 =? 100 then 4 else Z.min ((99 * 4 + 99) / 100) (4 - 1)).
Proof. apply CalculatePartitionReplicas_percent; unfold_int; lia. Defined.
