(* ===== verification/Types.v ===== *)
(** The API objects the controllers work on: [ObjectMeta], [RoleInstance]
    (api/workloads/v1alpha2/roleinstance_types.go), [RoleInstanceSet]
    (roleinstanceset_types.go), [ControllerRevision], and the small accessors of
    pkg/inplace/instance on them.

    A Go [map[string]string] is a [gmap string string]; a nil map and an empty
    one have the same lookups and are not told apart.  An optional pointer is an
    [option].  Of a pod spec, the fields no modelled operation looks into are the
    opaque [ps_rest]. *)
From Stdlib Require Import ZArith Lia Bool String.
From stdpp Require Import base tactics list strings gmap.
From S2P Require Import Prelude IntOrString.

Abbreviation labels := (gmap string string).

(** * Names used in labels and annotations (api/workloads/constants) *)

Definition RBGPrefix : string := "rbg.workloads.x-k8s.io/".
Definition ControllerRevisionHashLabelKey : string := "controller-revision-hash".
Definition StatefulSetPodNameLabel : string := "statefulset.kubernetes.io/pod-name".
Definition RoleInstanceSetLifecycleStateKey : string := RBGPrefix +:+ "role-instance-lifecycle-state".
Definition RoleInstanceSetLifecycleTimestampKey : string :=
  RBGPrefix +:+ "role-instance-lifecycle-timestamp".
Definition RoleInstanceDeleteLabelKey : string := RBGPrefix +:+ "role-instance-delete".
Definition RoleInstanceIndexLabelKey : string := RBGPrefix +:+ "role-instance-index".
Definition RoleInstanceIDLabelKey : string := RBGPrefix +:+ "role-instance-id".
Definition RoleInstanceOwnerLabelKey : string := RBGPrefix +:+ "role-instance-owner".
Definition GroupNameLabelKey : string := RBGPrefix +:+ "group-name".
Definition RoleNameLabelKey : string := RBGPrefix +:+ "role-name".
Definition RoleInstanceGangSchedulingAnnotationKey : string :=
  RBGPrefix +:+ "role-instance-gang-scheduling".
Definition RoleInplaceSchedulingAnnotationKey : string := RBGPrefix +:+ "role-inplace-scheduling".
Definition RoleInplaceSchedulingGranularityAnnotationKey : string :=
  RBGPrefix +:+ "role-inplace-scheduling-granularity".
Definition RoleInplaceSchedulingAvoidAnnotationKey : string :=
  RBGPrefix +:+ "role-inplace-scheduling-avoid".
Definition RoleInplaceUpdateGracePeriodSecondsKey : string :=
  RBGPrefix +:+ "inplace-update-grace-period-seconds".

(** Lifecycle states: the string type [RoleInstanceLifecycleStateType]. *)
Definition StateNormal : string := "Normal".
Definition StatePreparingUpdate : string := "PreparingUpdate".
Definition StateUpdating : string := "Updating".
Definition StateUpdated : string := "Updated".
Definition StatePreparingDelete : string := "PreparingDelete".

Definition ParallelPodManagement : string := "Parallel".
Definition OrderedReadyPodManagement : string := "OrderedReady".
Definition RecreatePodUpdateStrategyType : string := "RecreatePod".

(** * Object metadata *)

Record OwnerReference := {
  or_APIVersion : string;
  or_Kind : string;
  or_Name : string;
  or_UID : string;
  or_Controller : option bool;
  or_BlockOwnerDeletion : option bool
}.

Record ObjectMeta := {
  om_Name : string;
  om_GenerateName : string;
  om_Namespace : string;
  om_UID : string;
  om_ResourceVersion : string;
  om_Generation : Z;
  om_CreationTimestamp : gotime;
  om_DeletionTimestamp : option Z;
  om_Labels : labels;
  om_Annotations : labels;
  om_OwnerReferences : list OwnerReference;
  om_Finalizers : list string
}.

#[export] Instance OwnerReference_dec : EqDecision OwnerReference.
Proof. solve_decision. Defined.
#[export] Instance ObjectMeta_dec : EqDecision ObjectMeta.
Proof. solve_decision. Defined.

Definition empty_meta : ObjectMeta := {|
  om_Name := ""; om_GenerateName := ""; om_Namespace := ""; om_UID := "";
  om_ResourceVersion := ""; om_Generation := 0; om_CreationTimestamp := None;
  om_DeletionTimestamp := None; om_Labels := ∅; om_Annotations := ∅;
  om_OwnerReferences := []; om_Finalizers := []
|}.

(** [labels.SelectorFromSet]. *)
Definition selector_matches (selector l : labels) : bool :=
  forallb (fun kv => bool_decide (l !! kv.1 = Some kv.2)) (map_to_list selector).

Definition with_labels (l : labels) (m : ObjectMeta) : ObjectMeta := {|
  om_Name := om_Name m; om_GenerateName := om_GenerateName m; om_Namespace := om_Namespace m;
  om_UID := om_UID m; om_ResourceVersion := om_ResourceVersion m; om_Generation := om_Generation m;
  om_CreationTimestamp := om_CreationTimestamp m; om_DeletionTimestamp := om_DeletionTimestamp m;
  om_Labels := l; om_Annotations := om_Annotations m;
  om_OwnerReferences := om_OwnerReferences m; om_Finalizers := om_Finalizers m |}.

Definition with_annotations (a : labels) (m : ObjectMeta) : ObjectMeta := {|
  om_Name := om_Name m; om_GenerateName := om_GenerateName m; om_Namespace := om_Namespace m;
  om_UID := om_UID m; om_ResourceVersion := om_ResourceVersion m; om_Generation := om_Generation m;
  om_CreationTimestamp := om_CreationTimestamp m; om_DeletionTimestamp := om_DeletionTimestamp m;
  om_Labels := om_Labels m; om_Annotations := a;
  om_OwnerReferences := om_OwnerReferences m; om_Finalizers := om_Finalizers m |}.

Definition with_version (v : string) (m : ObjectMeta) : ObjectMeta := {|
  om_Name := om_Name m; om_GenerateName := om_GenerateName m; om_Namespace := om_Namespace m;
  om_UID := om_UID m; om_ResourceVersion := v; om_Generation := om_Generation m;
  om_CreationTimestamp := om_CreationTimestamp m; om_DeletionTimestamp := om_DeletionTimestamp m;
  om_Labels := om_Labels m; om_Annotations := om_Annotations m; om_OwnerReferences := om_OwnerReferences m;
  om_Finalizers := om_Finalizers m |}.
Definition with_name (n ns : string) (m : ObjectMeta) : ObjectMeta := {|
  om_Name := n; om_GenerateName := om_GenerateName m; om_Namespace := ns;
  om_UID := om_UID m; om_ResourceVersion := om_ResourceVersion m; om_Generation := om_Generation m;
  om_CreationTimestamp := om_CreationTimestamp m; om_DeletionTimestamp := om_DeletionTimestamp m;
  om_Labels := om_Labels m; om_Annotations := om_Annotations m;
  om_OwnerReferences := om_OwnerReferences m; om_Finalizers := om_Finalizers m |}.

(** [metav1.GetControllerOfNoCopy]: the first controlling owner. *)
Definition GetControllerOf (m : ObjectMeta) : option OwnerReference :=
  List.find (fun o => bool_decide (or_Controller o = Some true)) (om_OwnerReferences m).

(** A lookup in a possibly absent entry gives Go's zero value, the empty string. *)
Definition label_of (l : labels) (k : string) : string := default "" (l !! k).

(** * Pod specs (k8s.io/api/core/v1) *)

Record NodeSelectorRequirement := {
  nsr_Key : string;
  nsr_Operator : string;
  nsr_Values : list string
}.

Record NodeSelectorTerm := {
  nst_MatchExpressions : list NodeSelectorRequirement;
  nst_MatchFields : list NodeSelectorRequirement
}.

Record PreferredSchedulingTerm := {
  pst_Weight : Z;
  pst_Preference : NodeSelectorTerm
}.

(** The required terms of a node selector: [None] for a nil selector. *)
Record NodeAffinity := {
  na_Required : option (list NodeSelectorTerm);
  na_Preferred : list PreferredSchedulingTerm
}.

(** Pod affinity and anti-affinity are the opaque [af_rest]. *)
Record Affinity := {
  af_NodeAffinity : option NodeAffinity;
  af_rest : string
}.

(** A source of a value other than the value itself is the opaque [ev_rest]. *)
Record EnvVar := {
  ev_Name : string;
  ev_Value : string;
  ev_rest : string
}.

Record ContainerPort := {
  cp_ContainerPort : Z;
  cp_HostPort : Z;
  cp_Protocol : string;
  cp_rest : string
}.

Record Container := {
  ct_Name : string;
  ct_Image : string;
  ct_Env : list EnvVar;
  ct_Ports : list ContainerPort;
  ct_rest : string
}.

Record PodSpec := {
  ps_NodeName : string;
  ps_Hostname : string;
  ps_Subdomain : string;
  ps_HostNetwork : bool;
  ps_ReadinessGates : list string;  (* the ConditionType of each gate *)
  ps_Affinity : option Affinity;
  ps_Containers : list Container;
  ps_InitContainers : list Container;
  ps_rest : string
}.

Definition spec_with_identity (hostname subdomain : string) (s : PodSpec) : PodSpec := {|
  ps_NodeName := ps_NodeName s; ps_Hostname := hostname; ps_Subdomain := subdomain;
  ps_HostNetwork := ps_HostNetwork s; ps_ReadinessGates := ps_ReadinessGates s; ps_Affinity := ps_Affinity s;
  ps_Containers := ps_Containers s; ps_InitContainers := ps_InitContainers s; ps_rest := ps_rest s |}.
Definition spec_with_gates (gates : list string) (s : PodSpec) : PodSpec := {|
  ps_NodeName := ps_NodeName s; ps_Hostname := ps_Hostname s; ps_Subdomain := ps_Subdomain s;
  ps_HostNetwork := ps_HostNetwork s; ps_ReadinessGates := gates; ps_Affinity := ps_Affinity s;
  ps_Containers := ps_Containers s; ps_InitContainers := ps_InitContainers s; ps_rest := ps_rest s |}.
Definition spec_with_affinity (a : option Affinity) (s : PodSpec) : PodSpec := {|
  ps_NodeName := ps_NodeName s; ps_Hostname := ps_Hostname s; ps_Subdomain := ps_Subdomain s;
  ps_HostNetwork := ps_HostNetwork s; ps_ReadinessGates := ps_ReadinessGates s; ps_Affinity := a;
  ps_Containers := ps_Containers s; ps_InitContainers := ps_InitContainers s; ps_rest := ps_rest s |}.
Definition spec_with_containers (cs init : list Container) (s : PodSpec) : PodSpec := {|
  ps_NodeName := ps_NodeName s; ps_Hostname := ps_Hostname s; ps_Subdomain := ps_Subdomain s;
  ps_HostNetwork := ps_HostNetwork s; ps_ReadinessGates := ps_ReadinessGates s; ps_Affinity := ps_Affinity s;
  ps_Containers := cs; ps_InitContainers := init; ps_rest := ps_rest s |}.

(** [len(validation.ValidatePodName(prefix, true)) == 0]. *)
Class PodNames := ValidPodNamePrefix : string -> bool.

(** * RoleInstance *)

Record PodTemplateSpec := {
  tmpl_Labels : labels;
  tmpl_Annotations : labels;
  tmpl_Finalizers : list string;
  tmpl_spec : PodSpec
}.

Record RoleInstanceComponent := {
  ric_Name : string;
  ric_Size : option Z;
  ric_ServiceName : string;
  ric_Labels : labels;
  ric_Annotations : labels;
  ric_Template : PodTemplateSpec
}.

#[export] Instance NodeSelectorRequirement_dec : EqDecision NodeSelectorRequirement.
Proof. solve_decision. Defined.
#[export] Instance NodeSelectorTerm_dec : EqDecision NodeSelectorTerm.
Proof. solve_decision. Defined.
#[export] Instance PreferredSchedulingTerm_dec : EqDecision PreferredSchedulingTerm.
Proof. solve_decision. Defined.
#[export] Instance NodeAffinity_dec : EqDecision NodeAffinity.
Proof. solve_decision. Defined.
#[export] Instance Affinity_dec : EqDecision Affinity.
Proof. solve_decision. Defined.
#[export] Instance EnvVar_dec : EqDecision EnvVar.
Proof. solve_decision. Defined.
#[export] Instance ContainerPort_dec : EqDecision ContainerPort.
Proof. solve_decision. Defined.
#[export] Instance Container_dec : EqDecision Container.
Proof. solve_decision. Defined.
#[export] Instance PodSpec_dec : EqDecision PodSpec.
Proof. solve_decision. Defined.
#[export] Instance PodTemplateSpec_dec : EqDecision PodTemplateSpec.
Proof. solve_decision. Defined.
#[export] Instance RoleInstanceComponent_dec : EqDecision RoleInstanceComponent.
Proof. solve_decision. Defined.

(** rolebasedgroup_types.go. *)
Record RestartPolicyConfig := {
  rpc_Type : string;
  rpc_BaseDelaySeconds : option Z;
  rpc_MaxDelaySeconds : option Z
}.

#[export] Instance RestartPolicyConfig_dec : EqDecision RestartPolicyConfig.
Proof. solve_decision. Defined.

Definition resolveRestartPolicyConfig (cfg : option RestartPolicyConfig) (legacy defaultType : string)
    : RestartPolicyConfig :=
  let resolved := default {| rpc_Type := ""; rpc_BaseDelaySeconds := None; rpc_MaxDelaySeconds := None |} cfg in
  let typed t := {| rpc_Type := t; rpc_BaseDelaySeconds := rpc_BaseDelaySeconds resolved;
                    rpc_MaxDelaySeconds := rpc_MaxDelaySeconds resolved |} in
  if bool_decide (rpc_Type resolved <> ""%string) then resolved
  else if bool_decide (legacy <> ""%string) then typed legacy
  else typed defaultType.

Definition DefaultBaseDelaySeconds : Z := 30.
Definition DefaultMaxDelaySeconds : Z := 600.

Record RoleInstanceSpec := {
  ris_Components : list RoleInstanceComponent;
  ris_ReadyPolicy : string;
  ris_RestartPolicy : string;
  ris_RestartPolicyConfig : option RestartPolicyConfig;
  ris_ReadinessGates : list string  (* the ConditionType of each gate *)
}.

(** roleinstance_types.go, on a spec that is there. *)
Definition GetRestartPolicyConfig (s : RoleInstanceSpec) : RestartPolicyConfig :=
  resolveRestartPolicyConfig (ris_RestartPolicyConfig s) (ris_RestartPolicy s) "".
Definition GetRestartPolicy (s : RoleInstanceSpec) : string := rpc_Type (GetRestartPolicyConfig s).
Definition GetBaseDelaySeconds (s : RoleInstanceSpec) : Z :=
  default DefaultBaseDelaySeconds (rpc_BaseDelaySeconds (GetRestartPolicyConfig s)).
Definition GetMaxDelaySeconds (s : RoleInstanceSpec) : Z :=
  default DefaultMaxDelaySeconds (rpc_MaxDelaySeconds (GetRestartPolicyConfig s)).

(** [corev1.ConditionStatus]. *)
Definition ConditionTrue : string := "True".
Definition ConditionFalse : string := "False".

(** [RoleInstanceConditionType]. *)
Definition RoleInstanceReady : string := "RoleInstanceReady".
Definition RoleInstanceInPlaceUpdateReady : string := "RoleInstanceInPlaceUpdateReady".

Record RoleInstanceCondition := {
  cond_Type : string;
  cond_Status : string;
  cond_LastTransitionTime : gotime;
  cond_Reason : string;
  cond_Message : string
}.

Record RoleInstanceComponentStatus := {
  cs_Name : string;
  cs_Size : Z;
  cs_ReadyReplicas : Z;
  cs_UpdatedReplicas : Z;
  cs_ScheduledReplicas : Z;
  cs_AvailableReplicas : Z;
  cs_UpdatedReadyReplicas : Z
}.

(** A container before an in-place update. *)
Record ContainerUpdateBaseline := {
  cub_RestartCount : Z;
  cub_ImageID : string
}.

#[export] Instance ContainerUpdateBaseline_eq_dec : EqDecision ContainerUpdateBaseline.
Proof. solve_decision. Defined.

(** Pod name to container name to baseline. *)
Abbreviation baselines := (gmap string (gmap string ContainerUpdateBaseline)).

Record RoleInstanceStatus := {
  rist_ObservedGeneration : Z;
  rist_Conditions : list RoleInstanceCondition;
  rist_ComponentStatuses : list RoleInstanceComponentStatus;
  rist_LabelSelector : string;
  rist_CurrentRevision : string;
  rist_UpdateRevision : string;
  rist_CollisionCount : option Z;
  rist_Baselines : baselines;  (* InPlaceUpdateContainerBaselines *)
  rist_RestartCount : Z;
  rist_LastRestartTime : option Z
}.

Definition empty_instance_status : RoleInstanceStatus := {|
  rist_ObservedGeneration := 0; rist_Conditions := []; rist_ComponentStatuses := [];
  rist_LabelSelector := ""; rist_CurrentRevision := ""; rist_UpdateRevision := "";
  rist_CollisionCount := None; rist_Baselines := ∅; rist_RestartCount := 0; rist_LastRestartTime := None |}.

Record RoleInstance := {
  ri_meta : ObjectMeta;
  ri_spec : RoleInstanceSpec;
  ri_status : RoleInstanceStatus
}.

Definition ri_Name (i : RoleInstance) : string := om_Name (ri_meta i).
Definition ri_UID (i : RoleInstance) : string := om_UID (ri_meta i).
Definition ri_Labels (i : RoleInstance) : labels := om_Labels (ri_meta i).

Definition ri_with_meta (m : ObjectMeta) (i : RoleInstance) : RoleInstance :=
  {| ri_meta := m; ri_spec := ri_spec i; ri_status := ri_status i |}.

(** * RoleInstanceSet *)

Record LifecycleHook := {
  lh_LabelsHandler : labels;
  lh_FinalizersHandler : list string;
  lh_MarkNotReady : bool
}.

Record RoleInstanceSetLifecycle := {
  lc_PreDelete : option LifecycleHook;
  lc_InPlaceUpdate : option LifecycleHook
}.

Record ScaleStrategy := {
  ss_RoleInstanceToDelete : list string;
  ss_MaxUnavailable : option IntOrString
}.

Record UpdateStrategy := {
  us_Type : string;
  us_Partition : option IntOrString;
  us_MaxUnavailable : option IntOrString;
  us_MaxSurge : option IntOrString;
  us_Paused : bool;
  us_InPlaceUpdateStrategy : option Z  (* GracePeriodSeconds *)
}.

Record RoleInstanceSetSpec := {
  rss_Replicas : option Z;
  rss_Selector : option labels;  (* MatchLabels *)
  rss_RoleInstanceTemplate : RoleInstanceSpec;
  rss_PodManagementPolicy : string;
  rss_ScaleStrategy : ScaleStrategy;
  rss_UpdateStrategy : UpdateStrategy;
  rss_RevisionHistoryLimit : option Z;
  rss_MinReadySeconds : Z;
  rss_Lifecycle : option RoleInstanceSetLifecycle
}.

Record RolloutReplacementState := {
  rrs_UpdateRevision : string;
  rrs_Replicas : Z;
  rrs_Partition : Z
}.

#[export] Instance RolloutReplacementState_eq_dec : EqDecision RolloutReplacementState.
Proof. solve_decision. Defined.

Record RoleInstanceSetCondition := {
  sc_Type : string;
  sc_Status : string;
  sc_LastTransitionTime : gotime;
  sc_Reason : string;
  sc_Message : string
}.

#[export] Instance RoleInstanceSetCondition_eq_dec : EqDecision RoleInstanceSetCondition.
Proof. solve_decision. Defined.

Record RoleInstanceSetStatus := {
  st_ObservedGeneration : Z;
  st_Replicas : Z;
  st_ReadyReplicas : Z;
  st_AvailableReplicas : Z;
  st_CurrentReplicas : Z;
  st_UpdatedReplicas : Z;
  st_UpdatedReadyReplicas : Z;
  st_ExpectedUpdatedReplicas : Z;
  st_UpdateRevision : string;
  st_CurrentRevision : string;
  st_RolloutReplacementState : option RolloutReplacementState;
  st_CollisionCount : option Z;
  st_LabelSelector : string;
  st_Conditions : list RoleInstanceSetCondition
}.

#[export] Instance RoleInstanceSetStatus_eq_dec : EqDecision RoleInstanceSetStatus.
Proof. solve_decision. Defined.

Definition empty_set_status : RoleInstanceSetStatus := {|
  st_ObservedGeneration := 0; st_Replicas := 0; st_ReadyReplicas := 0;
  st_AvailableReplicas := 0; st_CurrentReplicas := 0; st_UpdatedReplicas := 0;
  st_UpdatedReadyReplicas := 0; st_ExpectedUpdatedReplicas := 0; st_UpdateRevision := "";
  st_CurrentRevision := ""; st_RolloutReplacementState := None; st_CollisionCount := None;
  st_LabelSelector := ""; st_Conditions := [] |}.

Record RoleInstanceSet := {
  rs_meta : ObjectMeta;
  rs_spec : RoleInstanceSetSpec;
  rs_status : RoleInstanceSetStatus
}.

Definition rs_Name (s : RoleInstanceSet) : string := om_Name (rs_meta s).
Definition rs_UID (s : RoleInstanceSet) : string := om_UID (rs_meta s).
Definition rs_Namespace (s : RoleInstanceSet) : string := om_Namespace (rs_meta s).
Definition rs_update (s : RoleInstanceSet) : UpdateStrategy := rss_UpdateStrategy (rs_spec s).

(** [apps.ControllerRevision]; the data is the raw text of the patch. *)
Record ControllerRevision := {
  cr_meta : ObjectMeta;
  cr_Revision : Z;
  cr_Data : string
}.

Definition cr_Name (r : ControllerRevision) : string := om_Name (cr_meta r).
Definition cr_ResourceVersion (r : ControllerRevision) : string := om_ResourceVersion (cr_meta r).
Definition cr_UID (r : ControllerRevision) : string := om_UID (cr_meta r).

(** * pkg/inplace/instance/instance_util.go *)

Definition GetRoleInstanceName (instances : list RoleInstance) : gset string :=
  list_to_set (map ri_Name instances).

Definition identityLabelKeys : list string :=
  [StatefulSetPodNameLabel; RoleInstanceIndexLabelKey].

Definition inject_labels (identity : labels) (c : RoleInstanceComponent) : RoleInstanceComponent := {|
  ric_Name := ric_Name c; ric_Size := ric_Size c; ric_ServiceName := ric_ServiceName c;
  ric_Labels := ric_Labels c; ric_Annotations := ric_Annotations c;
  ric_Template := {| tmpl_Labels := identity ∪ tmpl_Labels (ric_Template c);
                     tmpl_Annotations := tmpl_Annotations (ric_Template c);
                     tmpl_Finalizers := tmpl_Finalizers (ric_Template c);
                     tmpl_spec := tmpl_spec (ric_Template c) |} |}.

Definition with_components (cs : list RoleInstanceComponent) (s : RoleInstanceSpec) : RoleInstanceSpec :=
  {| ris_Components := cs; ris_ReadyPolicy := ris_ReadyPolicy s;
     ris_RestartPolicy := ris_RestartPolicy s; ris_RestartPolicyConfig := ris_RestartPolicyConfig s;
     ris_ReadinessGates := ris_ReadinessGates s |}.

(** The identity labels the instance itself carries. *)
Definition identity_of (l : labels) : labels :=
  filter (fun kv => kv.1 ∈ identityLabelKeys) l.

Definition InjectIdentityLabelsIntoComponents (i : RoleInstance) : RoleInstance :=
  let identity := identity_of (ri_Labels i) in
  if bool_decide (identity = ∅) then i
  else {| ri_meta := ri_meta i;
          ri_spec := with_components (map (inject_labels identity) (ris_Components (ri_spec i))) (ri_spec i);
          ri_status := ri_status i |}.

Definition GetRoleInstanceCondition (i : RoleInstance) (cType : string) : option RoleInstanceCondition :=
  List.find (fun c => bool_decide (cond_Type c = cType)) (rist_Conditions (ri_status i)).

Definition condition_true (c : option RoleInstanceCondition) : bool :=
  match c with Some c => bool_decide (cond_Status c = ConditionTrue) | None => false end.

Definition IsRoleInstanceReady (i : RoleInstance) : bool :=
  condition_true (GetRoleInstanceCondition i RoleInstanceReady).

Definition GetComponentSize (c : option RoleInstanceComponent) : Z :=
  match c with
  | None => 0
  | Some c => match ric_Size c with None => 1 | Some s => s end
  end.

(** pkg/inplace/instance/specifieddelete/specified_delete.go *)
Definition IsSpecifiedDelete (m : ObjectMeta) : bool :=
  bool_decide (is_Some (om_Labels m !! RoleInstanceDeleteLabelKey)).

(** * pkg/inplace/instance/inplaceupdate: the completion check *)

(** [DefaultCheckInPlaceUpdateCompleted] returns no error
    (pkg/inplace/instance/inplaceupdate/inplace_update_defaults.go). *)
Definition componentSizes (cs : list RoleInstanceComponent) : gmap string Z :=
  fold_left (fun m c => <[ric_Name c := GetComponentSize (Some c)]> m) cs ∅.

Definition CheckRoleInstanceUpdateCompleted (i : RoleInstance) : bool :=
  if rist_ObservedGeneration (ri_status i) <? om_Generation (ri_meta i) then false
  else if negb (length (ris_Components (ri_spec i)) =? length (rist_ComponentStatuses (ri_status i)))%nat then false
  else
    let sizes := componentSizes (ris_Components (ri_spec i)) in
    forallb (fun s => bool_decide (sizes !! cs_Name s = Some (cs_UpdatedReplicas s)))
      (rist_ComponentStatuses (ri_status i)).

(** * pkg/inplace/instance/lifecycle/lifecycle_utils.go: the pure part *)

Definition GetRoleInstanceLifecycleState (i : RoleInstance) : string :=
  label_of (ri_Labels i) RoleInstanceSetLifecycleStateKey.

Definition IsHookMarkGroupNotReady (h : option LifecycleHook) : bool :=
  match h with None => false | Some h => lh_MarkNotReady h end.

Definition IsLifecycleMarkRoleInstanceNotReady (l : option RoleInstanceSetLifecycle) : bool :=
  match l with
  | None => false
  | Some l => IsHookMarkGroupNotReady (lc_PreDelete l) || IsHookMarkGroupNotReady (lc_InPlaceUpdate l)
  end.

(** [time.Now().Format(time.RFC3339)] is the argument [timestamp]. *)
Definition SetRoleInstanceLifecycle (state timestamp : string) (i : RoleInstance) : RoleInstance :=
  let m := ri_meta i in
  ri_with_meta
    (with_annotations (<[RoleInstanceSetLifecycleTimestampKey := timestamp]> (om_Annotations m))
      (with_labels (<[RoleInstanceSetLifecycleStateKey := state]> (om_Labels m)) m)) i.

Definition ContainsFinalizer (i : RoleInstance) (f : string) : bool :=
  existsb (fun f' => bool_decide (f' = f)) (om_Finalizers (ri_meta i)).

Definition IsRoleInstanceHooked (h : option LifecycleHook) (i : RoleInstance) : bool :=
  match h with
  | None => false
  | Some h =>
      existsb (ContainsFinalizer i) (lh_FinalizersHandler h)
      || existsb (fun kv => bool_decide (label_of (ri_Labels i) kv.1 = kv.2))
           (map_to_list (lh_LabelsHandler h))
  end.

Definition IsRoleInstanceAllHooked (h : option LifecycleHook) (i : RoleInstance) : bool :=
  match h with
  | None => false
  | Some h =>
      forallb (ContainsFinalizer i) (lh_FinalizersHandler h)
      && forallb (fun kv => bool_decide (label_of (ri_Labels i) kv.1 = kv.2))
           (map_to_list (lh_LabelsHandler h))
  end.

(** * Lemmas *)

Lemma SetRoleInstanceLifecycle_state state ts i :
  GetRoleInstanceLifecycleState (SetRoleInstanceLifecycle state ts i) = state.
Proof.
  unfold GetRoleInstanceLifecycleState, label_of, ri_Labels, SetRoleInstanceLifecycle,
    ri_with_meta, with_annotations, with_labels.
  cbn [ri_meta om_Labels]. by rewrite lookup_insert_eq.
Qed.

Lemma identity_of_lookup l k :
  k ∈ identityLabelKeys -> identity_of l !! k = l !! k.
Proof.
  intros Hk. unfold identity_of. destruct (l !! k) eqn:E.
  - by apply map_lookup_filter_Some_2.
  - by apply map_lookup_filter_None_2; left.
Qed.

(** Every pod template carries the instance's own identity labels. *)
Lemma InjectIdentityLabels_spec i c k v :
  k ∈ identityLabelKeys -> ri_Labels i !! k = Some v ->
  c ∈ ris_Components (ri_spec (InjectIdentityLabelsIntoComponents i)) ->
  tmpl_Labels (ric_Template c) !! k = Some v.
Proof.
  intros Hk Hv. unfold InjectIdentityLabelsIntoComponents.
  assert (identity_of (ri_Labels i) !! k = Some v) as Hid by (by rewrite identity_of_lookup).
  case_bool_decide as He; [by rewrite He in Hid|]. simpl.
  rewrite list_elem_of_fmap. intros (c0 & -> & _). simpl. by apply lookup_union_Some_l.
Qed.

#[export] Hint Rewrite SetRoleInstanceLifecycle_state : rbg.
