(* ===== verification/Expectations.v ===== *)
(** pkg/utils/expectations and pkg/utils/requeueduration: the in-memory stores
    the controllers use to wait for their own writes to be observed.

    Every method takes the store's lock for its whole body, so a method is one
    atomic step and concurrent callers interleave whole methods: sequences of
    the functions below are exactly the possible histories. *)
From Stdlib Require Import ZArith Lia Bool String.
From stdpp Require Import base tactics list strings gmap sets fin_maps.
From S2P Require Import Prelude GoStrings Types.

(** [time.Now()] and [time.Since] are readings of a clock, passed as arguments. *)
Definition since (now : Z) (t : gotime) : Z :=
  match t with Some t => now - t | None => now end.

(** * Scale expectations (scale_expectations.go) *)
Module Scale.

Inductive ScaleAction := Create | Delete.

#[export] Instance ScaleAction_eq_dec : EqDecision ScaleAction.
Proof. solve_decision. Defined.
#[export] Instance ScaleAction_countable : Countable ScaleAction.
Proof.
  refine (inj_countable' (fun a => match a with Create => true | Delete => false end)
            (fun b => match b with true => Create | false => Delete end) _).
  by intros [].
Defined.

Record controller := {
  objsCache : gmap ScaleAction (gset string);
  firstUnsatisfiedTimestamp : gotime
}.

(** [realScaleExpectations.controllerCache]. *)
Abbreviation cache := (gmap string controller).

Definition new_controller : controller :=
  {| objsCache := ∅; firstUnsatisfiedTimestamp := None |}.

Definition GetExpectations (r : cache) (key : string) : option (gmap ScaleAction (gset string)) :=
  objsCache <$> r !! key.

Definition ExpectScale (key : string) (action : ScaleAction) (name : string) (r : cache) : cache :=
  let e := default new_controller (r !! key) in
  let s := default ∅ (objsCache e !! action) in
  <[key := {| objsCache := <[action := {[name]} ∪ s]> (objsCache e);
              firstUnsatisfiedTimestamp := firstUnsatisfiedTimestamp e |}]> r.

(** [for _, s := range objsCache { if s.Len() > 0 { return } }] reaches its end. *)
Definition all_empty (m : gmap ScaleAction (gset string)) : bool :=
  bool_decide (map_Forall (fun _ s => s = ∅) m).

Definition ObserveScale (key : string) (action : ScaleAction) (name : string) (r : cache) : cache :=
  match r !! key with
  | None => r
  | Some e =>
      match objsCache e !! action with
      | None => r
      | Some s =>
          let m := <[action := s ∖ {[name]}]> (objsCache e) in
          if all_empty m then delete key r
          else <[key := {| objsCache := m;
                           firstUnsatisfiedTimestamp := firstUnsatisfiedTimestamp e |}]> r
      end
  end.

(** [s.Len() > 0]. *)
Definition dirty (kv : ScaleAction * gset string) : bool := negb (bool_decide (kv.2 = ∅)).

(** The result: satisfied, how long it has not been, and one dirty action with
    its names.  Which of two dirty actions Go's map iteration meets first is
    not specified; the model reports the first in the map's own order. *)
Definition SatisfiedExpectations (key : string) (now1 now2 : Z) (r : cache)
    : (bool * Z * option (ScaleAction * gset string)) * cache :=
  match r !! key with
  | None => ((true, 0, None), r)
  | Some e =>
      match List.find dirty (map_to_list (objsCache e)) with
      | Some (a, s) =>
          let first := match firstUnsatisfiedTimestamp e with Some t => Some t | None => Some now1 end in
          ((false, since now2 first, Some (a, s)),
           <[key := {| objsCache := objsCache e; firstUnsatisfiedTimestamp := first |}]> r)
      | None => ((true, 0, None), delete key r)
      end
  end.

Definition DeleteExpectations (key : string) (r : cache) : cache := delete key r.

Definition satisfied (key : string) (r : cache) : bool := (SatisfiedExpectations key 0 0 r).1.1.1.

(** The abstract store: which names of which action are awaited under a key. *)
Definition pending (r : cache) (key : string) : gset (ScaleAction * string) :=
  match r !! key with
  | None => ∅
  | Some e => map_fold (fun a s acc => set_map (pair a) s ∪ acc) ∅ (objsCache e)
  end.

(** Since when a key has been waited for, as far as a pass has looked. *)
Definition first_unsatisfied (r : cache) (key : string) : gotime := r !! key ≫= firstUnsatisfiedTimestamp.

Lemma elem_of_pending_fold (m : gmap ScaleAction (gset string)) a n :
  (a, n) ∈ (map_fold (fun a s acc => set_map (pair a) s ∪ acc) ∅ m : gset (ScaleAction * string))
  <-> exists s, m !! a = Some s /\ n ∈ s.
Proof.
  revert a n.
  apply (map_fold_weak_ind (fun (acc : gset (ScaleAction * string)) m =>
    forall a n, (a, n) ∈ acc <-> exists s, m !! a = Some s /\ n ∈ s)).
  - intros a n. split; [set_solver|]. intros (s & Hs & _). by rewrite lookup_empty in Hs.
  - intros a' s' m' acc Hm' IH a n. rewrite elem_of_union, elem_of_map, IH. split.
    + intros [(x & [= -> ->] & Hx)|(s & Hs & Hn)].
      * exists s'. by rewrite lookup_insert_eq.
      * exists s. rewrite lookup_insert_ne; [done|congruence].
    + intros (s & Hs & Hn). rewrite lookup_insert in Hs. case_decide; simplify_eq; [left|right]; eauto.
Qed.

Lemma elem_of_pending r key a n :
  (a, n) ∈ pending r key <-> exists e s, r !! key = Some e /\ objsCache e !! a = Some s /\ n ∈ s.
Proof.
  unfold pending. destruct (r !! key) as [e|].
  - rewrite elem_of_pending_fold. naive_solver.
  - set_solver.
Qed.

Lemma pending_delete r key : pending (delete key r) key = ∅.
Proof. unfold pending. by rewrite lookup_delete_eq. Qed.

Lemma pending_other r key key' e :
  key <> key' -> pending (<[key := e]> r) key' = pending r key'.
Proof. intros. unfold pending. by rewrite lookup_insert_ne. Qed.

Lemma pending_delete_other r key key' :
  key <> key' -> pending (delete key r) key' = pending r key'.
Proof. intros. unfold pending. by rewrite lookup_delete_ne. Qed.

Lemma pending_Expect key a n r : pending (ExpectScale key a n r) key = {[(a, n)]} ∪ pending r key.
Proof.
  apply set_eq. intros [a' n']. rewrite elem_of_union, elem_of_singleton, !elem_of_pending.
  unfold ExpectScale. rewrite lookup_insert_eq. split.
  - intros (e & s & [= <-] & Hs & Hn). simpl in Hs. rewrite lookup_insert in Hs.
    case_decide; simplify_eq.
    + apply elem_of_union in Hn as [->%elem_of_singleton|Hn]; [by left|right].
      destruct (r !! key) as [e|]; simpl in *; [|set_solver].
      destruct (objsCache e !! a') eqn:E; simpl in *; [eauto 10|set_solver].
    + right. destruct (r !! key) as [e|]; simpl in *; [eauto 10|set_solver].
  - intros [[= -> ->]|(e & s & He & Hs & Hn)].
    + eexists _, _. split; [done|]. simpl. rewrite lookup_insert_eq. split; [done|set_solver].
    + rewrite He. simpl. destruct (decide (a = a')) as [->|].
      * eexists _, ({[n]} ∪ s). split; [done|]. simpl. rewrite Hs, lookup_insert_eq. set_solver.
      * eexists _, s. split; [done|]. simpl. by rewrite lookup_insert_ne.
Qed.

Lemma pending_Observe key a n r : pending (ObserveScale key a n r) key = pending r key ∖ {[(a, n)]}.
Proof.
  apply set_eq. intros [a' n']. rewrite elem_of_difference, not_elem_of_singleton.
  unfold ObserveScale. destruct (r !! key) as [e|] eqn:He.
  2:{ unfold pending. rewrite He. set_solver. }
  destruct (objsCache e !! a) as [s|] eqn:Hs.
  2:{ rewrite elem_of_pending. split; [|naive_solver]. intros (e' & s' & ? & ? & ?). simplify_eq.
      split; [eauto 10|]. intros [= -> ->]. congruence. }
  assert ((exists s', <[a := s ∖ {[n]}]> (objsCache e) !! a' = Some s' /\ n' ∈ s')
    <-> (a', n') ∈ pending r key /\ (a', n') <> (a, n)) as Hiff.
  { rewrite elem_of_pending, He. destruct (decide (a = a')) as [->|Hne].
    - rewrite lookup_insert_eq. split.
      + intros (s' & [= <-] & Hn). apply elem_of_difference in Hn as [? ?]. set_solver.
      + intros ((e' & s' & [= <-] & Hs' & Hn) & Hd). simplify_eq. eexists. split; [done|].
        apply elem_of_difference. split; [done|]. rewrite elem_of_singleton. congruence.
    - rewrite lookup_insert_ne by done. split; [|naive_solver].
      intros (s' & ? & ?). split; [eauto 10|]. congruence. }
  rewrite <-Hiff. destruct (all_empty _) eqn:Hall.
  - rewrite pending_delete. apply bool_decide_eq_true in Hall. split; [set_solver|].
    intros (s' & Hl & Hn). specialize (Hall _ _ Hl). simpl in Hall. set_solver.
  - rewrite elem_of_pending, lookup_insert_eq. split; [|naive_solver].
    intros (e' & s' & [= <-] & ? & ?). eauto.
Qed.

Lemma pending_Observe_other key key' a n r :
  key <> key' -> pending (ObserveScale key a n r) key' = pending r key'.
Proof.
  intros Hne. unfold ObserveScale. destruct (r !! key) as [e|]; [|done].
  destruct (objsCache e !! a); [|done].
  destruct (all_empty _); [by apply pending_delete_other|by apply pending_other].
Qed.

Lemma find_nonempty (m : gmap ScaleAction (gset string)) :
  match List.find dirty (map_to_list m) with
  | Some (a, s) => m !! a = Some s /\ s <> ∅
  | None => forall a s, m !! a = Some s -> s = ∅
  end.
Proof.
  destruct (List.find _ _) as [[a s]|] eqn:E.
  - apply List.find_some in E as [Hin Hne]. unfold dirty in Hne. breflect. simpl in *.
    split; [|done]. by apply elem_of_map_to_list, list_elem_of_In.
  - intros a s Hs. apply elem_of_map_to_list, list_elem_of_In in Hs.
    pose proof (List.find_none _ _ E _ Hs) as Hn. unfold dirty in Hn. by breflect.
Qed.

Lemma satisfied_pending key r now1 now2 :
  (SatisfiedExpectations key now1 now2 r).1.1.1 = bool_decide (pending r key = ∅).
Proof.
  unfold SatisfiedExpectations. destruct (r !! key) as [e|] eqn:He.
  2:{ symmetry. apply bool_decide_eq_true. unfold pending. by rewrite He. }
  pose proof (find_nonempty (objsCache e)) as Hf. destruct (List.find _ _) as [[a s]|]; simpl.
  - symmetry. apply bool_decide_eq_false. destruct Hf as [Hs Hne].
    apply set_choose_L in Hne as [n Hn]. intros Hp.
    assert ((a, n) ∈ pending r key) as Hin by (apply elem_of_pending; eauto). set_solver.
  - symmetry. apply bool_decide_eq_true. apply set_eq. intros [a n]. rewrite elem_of_pending.
    split; [|set_solver]. intros (e' & s & ? & Hs & ?). simplify_eq. rewrite (Hf _ _ Hs) in *. set_solver.
Qed.

(** Looking at an unsatisfied key reports how long it has been since the first
    look, and remembers it. *)
Lemma unsatisfied_since key r now1 now2 :
  pending r key <> ∅ ->
  let first := default now1 (first_unsatisfied r key) in
  (SatisfiedExpectations key now1 now2 r).1.1.2 = now2 - first /\
  first_unsatisfied (SatisfiedExpectations key now1 now2 r).2 key = Some first.
Proof.
  intros Hp. cbv zeta. pose proof (satisfied_pending key r now1 now2) as Hs.
  rewrite bool_decide_eq_false_2 in Hs by done. unfold first_unsatisfied in *. unfold SatisfiedExpectations in *.
  destruct (r !! key) as [e|]; [|done]. destruct (List.find _ _) as [[a s]|]; [|done]. cbn.
  rewrite lookup_insert_eq. cbn. by destruct (firstUnsatisfiedTimestamp e).
Qed.

(** ** A history of calls against the abstract store *)

Inductive call :=
| CExpect (key : string) (a : ScaleAction) (n : string)
| CObserve (key : string) (a : ScaleAction) (n : string)
| CSatisfied (key : string) (now1 now2 : Z)
| CDelete (key : string).

Definition step (c : call) (r : cache) : cache :=
  match c with
  | CExpect k a n => ExpectScale k a n r
  | CObserve k a n => ObserveScale k a n r
  | CSatisfied k n1 n2 => (SatisfiedExpectations k n1 n2 r).2
  | CDelete k => DeleteExpectations k r
  end.

Definition spec_step (c : call) (p : string -> gset (ScaleAction * string)) (key : string)
    : gset (ScaleAction * string) :=
  match c with
  | CExpect k a n => if bool_decide (k = key) then {[(a, n)]} ∪ p key else p key
  | CObserve k a n => if bool_decide (k = key) then p key ∖ {[(a, n)]} else p key
  | CSatisfied _ _ _ => p key
  | CDelete k => if bool_decide (k = key) then ∅ else p key
  end.

Lemma step_refines c r key : pending (step c r) key = spec_step c (pending r) key.
Proof.
  destruct c as [k a n|k a n|k n1 n2|k]; simpl; try case_bool_decide as Hk; subst.
  - apply pending_Expect.
  - unfold ExpectScale. by apply pending_other.
  - apply pending_Observe.
  - by apply pending_Observe_other.
  - unfold SatisfiedExpectations. destruct (r !! k) as [e|] eqn:He; [|done].
    pose proof (find_nonempty (objsCache e)) as Hf.
    destruct (List.find _ _) as [[a s]|]; simpl.
    + destruct (decide (k = key)) as [->|]; [|by apply pending_other].
      unfold pending. by rewrite lookup_insert_eq, He.
    + destruct (decide (k = key)) as [->|]; [|by apply pending_delete_other].
      rewrite pending_delete. apply set_eq. intros [a n]. rewrite elem_of_pending, He.
      split; [set_solver|]. intros (e' & s & [= <-] & Hs & ?). rewrite (Hf _ _ Hs) in *. set_solver.
  - apply pending_delete.
  - by apply pending_delete_other.
Qed.

(** ** No entry outlives its names *)

Definition no_garbage (r : cache) : Prop := forall key, is_Some (r !! key) -> pending r key <> ∅.

Lemma step_no_garbage c r : no_garbage r -> no_garbage (step c r).
Proof.
  intros Hng key. rewrite step_refines. specialize (Hng key).
  destruct c as [k a n|k a n|k n1 n2|k]; simpl; try case_bool_decide as Hk; subst.
  - intros _. set_solver.
  - unfold ExpectScale. by rewrite lookup_insert_ne.
  - unfold ObserveScale. destruct (r !! key) as [e|] eqn:He; [|rewrite He; by intros []].
    destruct (objsCache e !! a) as [s|] eqn:Hs.
    2:{ intros _ Hp. apply Hng; [eauto|]. rewrite <-Hp. apply set_eq. intros [a' n'].
        rewrite elem_of_difference, not_elem_of_singleton, elem_of_pending, He.
        split; [|tauto]. intros (e' & s' & ? & ? & ?). simplify_eq.
        split; [eauto 10|]. intros [= -> ->]. congruence. }
    destruct (all_empty _) eqn:Hall; [rewrite lookup_delete_eq; by intros []|].
    intros _. apply bool_decide_eq_false in Hall.
    apply map_not_Forall in Hall as (a' & s' & Hl & Hne); [|apply _].
    apply set_choose_L in Hne as [n' Hn'].
    intros Hp. assert ((a', n') ∈ pending r key ∖ {[(a, n)]}); [|set_solver].
    rewrite lookup_insert in Hl. apply elem_of_difference.
    rewrite elem_of_pending, not_elem_of_singleton, He. case_decide; simplify_eq.
    + split; [set_solver|]. intros [= ->]. set_solver.
    + split; [eauto 10|congruence].
  - unfold ObserveScale. destruct (r !! k) as [e|]; [|done]. destruct (objsCache e !! a); [|done].
    destruct (all_empty _); [by rewrite lookup_delete_ne|by rewrite lookup_insert_ne].
  - unfold SatisfiedExpectations. destruct (r !! k) as [e|] eqn:He; [|done].
    destruct (List.find _ _) as [[a s]|]; simpl.
    + destruct (decide (k = key)) as [->|]; [rewrite He in *; intros; apply Hng; eauto|].
      by rewrite lookup_insert_ne.
    + destruct (decide (k = key)) as [->|]; [rewrite lookup_delete_eq; by intros []|].
      by rewrite lookup_delete_ne.
  - unfold DeleteExpectations. rewrite lookup_delete_eq. by intros [].
  - unfold DeleteExpectations. by rewrite lookup_delete_ne.
Qed.

(** A history of calls, oldest first, and what it leaves in the abstract store. *)
Definition run (cs : list call) (r : cache) : cache := fold_left (fun r c => step c r) cs r.
Definition spec_run (cs : list call) (p : string -> gset (ScaleAction * string)) (key : string)
    : gset (ScaleAction * string) := fold_left (fun p c => spec_step c p) cs p key.

Lemma spec_step_ext c p q : (forall k, p k = q k) -> forall k, spec_step c p k = spec_step c q k.
Proof. intros H k. destruct c; simpl; by rewrite ?H. Qed.

Lemma spec_run_ext cs p q : (forall k, p k = q k) -> forall k, spec_run cs p k = spec_run cs q k.
Proof.
  unfold spec_run. revert p q. induction cs as [|c cs IH]; intros p q H k; simpl; [apply H|].
  apply IH. by apply spec_step_ext.
Qed.

Lemma run_refines cs r key : pending (run cs r) key = spec_run cs (pending r) key.
Proof.
  unfold run. revert r. induction cs as [|c cs IH]; intros r; simpl; [done|].
  rewrite IH. apply spec_run_ext. intros k. apply step_refines.
Qed.

Lemma run_no_garbage cs r : no_garbage r -> no_garbage (run cs r).
Proof. revert r. induction cs as [|c cs IH]; intros r H; simpl; [done|]. by apply IH, step_no_garbage. Qed.

(** C36: From the empty store, after any interleaving of ExpectScale, ObserveScale,
    SatisfiedExpectations and DeleteExpectations calls the controller cache
    implements the abstract store of awaited names: a key is reported satisfied
    exactly when no awaited name is left under it, and a key with no awaited name
    keeps no entry in the cache once it has been observed. *)
Theorem scale_expectations_refine (cs : list call) (key : string) (now1 now2 : Z) :
  let r := run cs ∅ in
  pending r key = spec_run cs (fun _ => ∅) key /\
  (SatisfiedExpectations key now1 now2 r).1.1.1 = bool_decide (spec_run cs (fun _ => ∅) key = ∅) /\
  (is_Some (r !! key) <-> spec_run cs (fun _ => ∅) key <> ∅).
Proof.
  simpl. assert (forall k, pending ∅ k = ∅) as Hempty.
  { intros k. unfold pending. by rewrite lookup_empty. }
  assert (pending (run cs ∅) key = spec_run cs (fun _ => ∅) key) as Href.
  { rewrite run_refines. by apply spec_run_ext. }
  split; [done|]. split; [by rewrite satisfied_pending, Href|]. rewrite <-Href. split.
  - apply run_no_garbage. intros k. rewrite lookup_empty. by intros [].
  - unfold pending. destruct (run cs ∅ !! key); [eauto|done].
Qed.

End Scale.

(** * Update expectations (update_expectations.go) *)
Module Update.

Section update.
(** The injected [revisionadapter.Interface]. *)
Context (EqualToRevisionHash : string -> ObjectMeta -> string -> bool).

Record controller := {
  revision : string;
  objsUpdated : gset string;
  firstUnsatisfiedTimestamp : gotime
}.

Abbreviation cache := (gmap string controller).

Definition getKey (obj : ObjectMeta) : string := om_Namespace obj +:+ "/" +:+ om_Name obj.

Definition ExpectUpdated (controllerKey rev : string) (obj : ObjectMeta) (r : cache) : cache :=
  let fresh := {| revision := rev; objsUpdated := ∅; firstUnsatisfiedTimestamp := None |} in
  let e := match r !! controllerKey with
           | None => fresh
           | Some e => if bool_decide (revision e <> rev) then fresh else e
           end in
  <[controllerKey := {| revision := revision e; objsUpdated := {[getKey obj]} ∪ objsUpdated e;
                        firstUnsatisfiedTimestamp := firstUnsatisfiedTimestamp e |}]> r.

Definition ObserveUpdated (controllerKey rev : string) (obj : ObjectMeta) (r : cache) : cache :=
  match r !! controllerKey with
  | None => r
  | Some e =>
      let objs :=
        if bool_decide (revision e = rev) && bool_decide (getKey obj ∈ objsUpdated e)
           && EqualToRevisionHash controllerKey obj rev
        then objsUpdated e ∖ {[getKey obj]} else objsUpdated e in
      if bool_decide (revision e <> rev) || bool_decide (objs = ∅) then delete controllerKey r
      else <[controllerKey := {| revision := revision e; objsUpdated := objs;
                                 firstUnsatisfiedTimestamp := firstUnsatisfiedTimestamp e |}]> r
  end.

Definition DeleteObject (controllerKey : string) (obj : ObjectMeta) (r : cache) : cache :=
  match r !! controllerKey with
  | None => r
  | Some e =>
      <[controllerKey := {| revision := revision e; objsUpdated := objsUpdated e ∖ {[getKey obj]};
                            firstUnsatisfiedTimestamp := firstUnsatisfiedTimestamp e |}]> r
  end.

Definition SatisfiedExpectations (controllerKey rev : string) (now1 now2 : Z) (r : cache)
    : (bool * Z * gset string) * cache :=
  match r !! controllerKey with
  | None => ((true, 0, ∅), r)
  | Some e =>
      let put t := <[controllerKey := {| revision := revision e; objsUpdated := objsUpdated e;
                                         firstUnsatisfiedTimestamp := t |}]> r in
      if bool_decide (revision e <> rev) then ((true, 0, ∅), put None)
      else if bool_decide (objsUpdated e <> ∅) then
        let first := match firstUnsatisfiedTimestamp e with Some t => Some t | None => Some now1 end in
        ((false, since now2 first, objsUpdated e), put first)
      else ((true, 0, objsUpdated e), put None)
  end.

Definition DeleteExpectations (controllerKey : string) (r : cache) : cache := delete controllerKey r.

(** The names awaited under a key for a revision. *)
Definition awaiting (r : cache) (key rev : string) : gset string :=
  match r !! key with
  | Some e => if bool_decide (revision e = rev) then objsUpdated e else ∅
  | None => ∅
  end.

Lemma satisfied_awaiting key rev n1 n2 r :
  (SatisfiedExpectations key rev n1 n2 r).1.1.1 = bool_decide (awaiting r key rev = ∅).
Proof.
  unfold SatisfiedExpectations, awaiting. destruct (r !! key) as [e|]; [|done].
  destruct (decide (revision e = rev)) as [<-|Hne].
  - rewrite (bool_decide_eq_false_2 (_ <> _)), (bool_decide_eq_true_2 (revision e = revision e)) by tauto.
    destruct (decide (objsUpdated e = ∅)) as [He|He].
    + by rewrite He.
    + by rewrite bool_decide_eq_true_2, bool_decide_eq_false_2.
  - by rewrite (bool_decide_eq_true_2 (_ <> _)), (bool_decide_eq_false_2 (revision e = rev)).
Qed.

Lemma awaiting_Expect key rev obj r :
  awaiting (ExpectUpdated key rev obj r) key rev = {[getKey obj]} ∪ awaiting r key rev.
Proof.
  unfold ExpectUpdated, awaiting. rewrite lookup_insert_eq.
  destruct (r !! key) as [e|]; simpl; [|by rewrite bool_decide_eq_true_2].
  destruct (decide (revision e = rev)) as [<-|Hne].
  - rewrite (bool_decide_eq_false_2 (_ <> _)) by tauto. by rewrite !bool_decide_eq_true_2.
  - rewrite (bool_decide_eq_true_2 (revision e <> rev)) by done. simpl.
    by rewrite bool_decide_eq_true_2, (bool_decide_eq_false_2 (revision e = rev)).
Qed.

Lemma awaiting_Observe key rev obj r :
  awaiting (ObserveUpdated key rev obj r) key rev
  = if EqualToRevisionHash key obj rev then awaiting r key rev ∖ {[getKey obj]} else awaiting r key rev.
Proof.
  unfold ObserveUpdated, awaiting. destruct (r !! key) as [e|] eqn:He.
  2:{ rewrite He. destruct (EqualToRevisionHash _ _ _); [set_solver|done]. }
  destruct (decide (revision e = rev)) as [<-|Hne].
  2:{ rewrite (bool_decide_eq_true_2 (revision e <> rev)), (bool_decide_eq_false_2 (revision e = rev)) by done.
      simpl. rewrite lookup_delete_eq. destruct (EqualToRevisionHash _ _ _); [set_solver|done]. }
  rewrite (bool_decide_eq_true_2 (revision e = revision e)), (bool_decide_eq_false_2 (_ <> _)) by tauto.
  simpl. set (objs := if _ && _ then _ else _).
  assert (objs = if EqualToRevisionHash key obj (revision e) then objsUpdated e ∖ {[getKey obj]} else objsUpdated e) as <-.
  { subst objs. destruct (EqualToRevisionHash _ _ _); [|by rewrite andb_false_r].
    rewrite andb_true_r. case_bool_decide; [done|set_solver]. }
  destruct (decide (objs = ∅)) as [Ho|Ho].
  - rewrite bool_decide_eq_true_2, lookup_delete_eq by done. by rewrite Ho.
  - rewrite bool_decide_eq_false_2, lookup_insert_eq by done. simpl. by rewrite bool_decide_eq_true_2.
Qed.

Lemma awaiting_other_revision key rev rev' obj r :
  rev <> rev' -> awaiting (ExpectUpdated key rev obj r) key rev' = ∅.
Proof.
  intros Hne. unfold ExpectUpdated, awaiting. rewrite lookup_insert_eq.
  destruct (r !! key) as [e|]; simpl; [|by rewrite bool_decide_eq_false_2].
  destruct (decide (revision e = rev)) as [Hr|Hr].
  - rewrite (bool_decide_eq_false_2 (revision e <> rev)) by tauto. by rewrite bool_decide_eq_false_2 by congruence.
  - rewrite (bool_decide_eq_true_2 (revision e <> rev)) by done. simpl. by rewrite bool_decide_eq_false_2.
Qed.

Definition expect_objects (key rev : string) (objs : list ObjectMeta) (r : cache) : cache :=
  fold_left (fun r o => ExpectUpdated key rev o r) objs r.
Definition observe_objects (key rev : string) (objs : list ObjectMeta) (r : cache) : cache :=
  fold_left (fun r o => ObserveUpdated key rev o r) objs r.

Lemma awaiting_expect_objects key rev objs r :
  awaiting (expect_objects key rev objs r) key rev = list_to_set (map getKey objs) ∪ awaiting r key rev.
Proof.
  unfold expect_objects. revert r. induction objs as [|o objs IH]; intros r; simpl; [set_solver|].
  rewrite IH, awaiting_Expect. set_solver.
Qed.

Lemma awaiting_observe_objects key rev objs r :
  awaiting (observe_objects key rev objs r) key rev
  = awaiting r key rev ∖
    list_to_set (map getKey (List.filter (fun o => EqualToRevisionHash key o rev) objs)).
Proof.
  unfold observe_objects. revert r. induction objs as [|o objs IH]; intros r; simpl; [set_solver|].
  rewrite IH, awaiting_Observe. destruct (EqualToRevisionHash key o rev); simpl; set_solver.
Qed.

(** After a controller expects some objects to reach a revision and then
    observes others, the expectation of that revision is satisfied exactly when
    each expected object was observed carrying the revision's hash; expecting any
    object at another revision afterwards drops what was awaited before. *)
Theorem update_expectations_satisfied (key rev : string) (expected observed : list ObjectMeta) (now1 now2 : Z) :
  let r := observe_objects key rev observed (expect_objects key rev expected ∅) in
  ((SatisfiedExpectations key rev now1 now2 r).1.1.1 = true <->
   forall o, o ∈ expected ->
     exists o', o' ∈ observed /\ getKey o' = getKey o /\ EqualToRevisionHash key o' rev = true) /\
  (forall rev' obj, rev' <> rev -> awaiting (ExpectUpdated key rev' obj r) key rev = ∅).
Proof.
  simpl. split; [|intros rev' obj Hne; by apply awaiting_other_revision].
  rewrite satisfied_awaiting, awaiting_observe_objects, awaiting_expect_objects, bool_decide_eq_true.
  assert (awaiting ∅ key rev = ∅) as -> by (unfold awaiting; by rewrite lookup_empty).
  rewrite union_empty_r_L.
  split.
  - intros Hsub o Ho.
    assert (getKey o ∈ (list_to_set (map getKey (List.filter (fun o => EqualToRevisionHash key o rev) observed)) : gset string)) as Hin.
    { destruct (decide (getKey o ∈ (list_to_set (map getKey (List.filter (fun o => EqualToRevisionHash key o rev) observed)) : gset string))); [done|].
      assert (getKey o ∈ (list_to_set (map getKey expected) : gset string)); [|set_solver].
      apply elem_of_list_to_set, list_elem_of_fmap. eauto. }
    apply elem_of_list_to_set, list_elem_of_fmap in Hin as (o' & Heq & Hin).
    apply list_elem_of_In, List.filter_In in Hin as [Hin He]. exists o'. by rewrite list_elem_of_In.
  - intros H. apply set_eq. intros k. rewrite elem_of_difference, !elem_of_list_to_set.
    split; [|set_solver]. intros [Hk Hn]. destruct Hn.
    apply list_elem_of_fmap in Hk as (o & -> & Ho). destruct (H o Ho) as (o' & Ho' & <- & He).
    apply list_elem_of_fmap. exists o'. split; [done|].
    apply list_elem_of_In, List.filter_In. by rewrite <-list_elem_of_In.
Qed.

End update.
End Update.

(** * Resource version expectations (resource_version_expectation.go) *)
Module ResourceVersion.

Record versions := { version : string; firstUnsatisfiedTimestamp : gotime }.

(** [objectVersions], keyed by UID. *)
Abbreviation cache := (gmap string versions).

Definition isResourceVersionNewer (old new : string) : bool :=
  if bool_decide (old = ""%string) then true
  else match ParseUint64 old with
       | Err _ => true
       | Ok oldCount =>
           match ParseUint64 new with
           | Err _ => false
           | Ok newCount => oldCount <=? newCount
           end
       end.

Definition Expect (obj : ObjectMeta) (r : cache) : cache :=
  let uid := om_UID obj in
  let v := default {| version := ""; firstUnsatisfiedTimestamp := None |} (r !! uid) in
  if isResourceVersionNewer (version v) (om_ResourceVersion obj)
  then <[uid := {| version := om_ResourceVersion obj;
                   firstUnsatisfiedTimestamp := firstUnsatisfiedTimestamp v |}]> r
  else <[uid := v]> r.

Definition Observe (obj : ObjectMeta) (r : cache) : cache :=
  match r !! om_UID obj with
  | None => r
  | Some v => if isResourceVersionNewer (version v) (om_ResourceVersion obj)
              then delete (om_UID obj) r else r
  end.

Definition IsSatisfied (obj : ObjectMeta) (now1 now2 : Z) (r : cache) : (bool * Z) * cache :=
  let uid := om_UID obj in
  match r !! uid with
  | None => ((true, 0), r)
  | Some v =>
      if isResourceVersionNewer (version v) (om_ResourceVersion obj) then ((true, 0), delete uid r)
      else
        let first := match firstUnsatisfiedTimestamp v with Some t => Some t | None => Some now1 end in
        ((false, since now2 first),
         <[uid := {| version := version v; firstUnsatisfiedTimestamp := first |}]> r)
  end.

Definition Delete (obj : ObjectMeta) (r : cache) : cache := delete (om_UID obj) r.

(** A resource version an API server issues: a decimal uint64. *)
Definition numeric (obj : ObjectMeta) (n : Z) : Prop := ParseUint64 (om_ResourceVersion obj) = Ok n.

Lemma numeric_nonempty obj n : numeric obj n -> om_ResourceVersion obj <> ""%string.
Proof. unfold numeric. intros H He. by rewrite He in H. Qed.

Lemma newer_numeric v obj n m :
  ParseUint64 v = Ok m -> numeric obj n -> isResourceVersionNewer v (om_ResourceVersion obj) = (m <=? n).
Proof.
  intros Hm Hn. unfold isResourceVersionNewer. case_bool_decide as He; [by rewrite He in Hm|].
  by rewrite Hm, Hn.
Qed.

(** The version awaited for a UID. *)
Definition awaited (r : cache) (uid : string) : option string := version <$> r !! uid.

Fixpoint expect_all (objs : list ObjectMeta) (r : cache) : cache :=
  match objs with [] => r | o :: objs' => expect_all objs' (Expect o r) end.

Lemma Expect_awaited obj n r m v :
  awaited r (om_UID obj) = Some v -> ParseUint64 v = Ok m -> numeric obj n ->
  exists v', awaited (Expect obj r) (om_UID obj) = Some v' /\ ParseUint64 v' = Ok (Z.max m n).
Proof.
  unfold awaited, Expect. intros Hv Hm Hn.
  destruct (r !! om_UID obj) as [w|] eqn:Hw; simplify_eq/=.
  rewrite (newer_numeric _ _ n m) by done.
  destruct (m <=? n) eqn:E; breflect; rewrite lookup_insert_eq; simpl; eexists; split; try done.
  - by rewrite Z.max_r by lia.
  - by rewrite Z.max_l by lia.
Qed.

Lemma Expect_first obj n r :
  awaited r (om_UID obj) = None -> numeric obj n ->
  awaited (Expect obj r) (om_UID obj) = Some (om_ResourceVersion obj).
Proof.
  unfold awaited, Expect. intros Hv Hn. destruct (r !! om_UID obj) as [w|] eqn:Hw; [done|].
  simpl. by rewrite lookup_insert_eq.
Qed.

Lemma expect_all_max uid objs ns r v m :
  Forall2 (fun o n => om_UID o = uid /\ numeric o n) objs ns ->
  awaited r uid = Some v -> ParseUint64 v = Ok m ->
  exists v', awaited (expect_all objs r) uid = Some v'
    /\ ParseUint64 v' = Ok (fold_left Z.max ns m).
Proof.
  intros H. revert r v m. induction H as [|o n objs ns [Hu Hn] HF IH]; intros r v m Hv Hm; simpl.
  - eauto.
  - subst uid. destruct (Expect_awaited o n r m v) as (v' & ? & ?); eauto.
Qed.

(** The expectations of one object, the newest resource version winning. *)
Lemma expect_all_first uid objs n ns :
  Forall2 (fun o n => om_UID o = uid /\ numeric o n) objs (n :: ns) ->
  exists v, awaited (expect_all objs ∅) uid = Some v /\ ParseUint64 v = Ok (fold_left Z.max ns n).
Proof.
  intros HF. inversion HF as [|o ? objs' ? [Hu Hn] HF']; subst. simpl.
  eapply expect_all_max; [done| |exact Hn].
  apply (Expect_first o n ∅); [unfold awaited; by rewrite lookup_empty|done].
Qed.

Lemma fold_max_le ns n m : fold_left Z.max ns n <= m <-> n <= m /\ Forall (fun x => x <= m) ns.
Proof.
  revert n. induction ns as [|x ns IH]; intros n; simpl; [rewrite Forall_nil; tauto|].
  rewrite IH, Forall_cons, Z.max_lub_iff. tauto.
Qed.

(** After any sequence of writes of one object was expected, a read of the
    object is satisfied exactly when its resource version is at least every
    expected one, whatever order the writes were recorded in; a satisfied read
    forgets the object and an unsatisfied one keeps waiting for the same version. *)
Theorem resource_version_satisfied (uid : string) (objs : list ObjectMeta) (ns : list Z)
    (obj : ObjectMeta) (m now1 now2 : Z) :
  objs <> [] -> Forall2 (fun o n => om_UID o = uid /\ numeric o n) objs ns ->
  om_UID obj = uid -> numeric obj m ->
  let '((ok, _), r) := IsSatisfied obj now1 now2 (expect_all objs ∅) in
  (ok = true <-> Forall (fun n => n <= m) ns) /\
  awaited r uid = if ok then None else awaited (expect_all objs ∅) uid.
Proof.
  intros Hne HF Hu Hm. destruct ns as [|n ns]; [by apply Forall2_nil_inv_r in HF|].
  destruct (expect_all_first uid objs n ns HF) as (v & Hv & Hp).
  unfold IsSatisfied, awaited in *. rewrite Hu.
  destruct (expect_all objs ∅ !! uid) as [w|]; simplify_eq/=.
  rewrite (newer_numeric _ _ m _ Hp Hm).
  assert (fold_left Z.max ns n <= m <-> Forall (fun n => n <= m) (n :: ns)) as Hle
    by (rewrite fold_max_le; by rewrite Forall_cons).
  destruct (fold_left Z.max ns n <=? m) eqn:E; breflect.
  - split; [tauto|]. by rewrite lookup_delete_eq.
  - rewrite lookup_insert_eq. simpl. split; [|done]. split; [done|]. intros H. apply Hle in H. lia.
Qed.

Lemma resource_version_satisfied_witness :
  let o v := {| om_Name := "i"; om_GenerateName := ""; om_Namespace := "n"; om_UID := "u";
    om_ResourceVersion := v; om_Generation := 0; om_CreationTimestamp := None; om_DeletionTimestamp := None;
    om_Labels := ∅; om_Annotations := ∅; om_OwnerReferences := []; om_Finalizers := [] |} in
  let '((ok, _), r) := IsSatisfied (o "12") 0 0 (expect_all [o "9"; o "13"] ∅) in
  (ok = true <-> Forall (fun n => n <= 12) [9; 13]) /\
  awaited r "u" = if ok then None else awaited (expect_all [o "9"; o "13"] ∅) "u".
Proof.
  intros o. apply (resource_version_satisfied "u" [o "9"; o "13"] [9; 13]); [done| |done|done].
  repeat constructor.
Defined.

End ResourceVersion.

(** * Requeue durations (requeueduration/duration.go) *)
Module Requeue.

Record Duration := { duration : Z; message : string }.

Definition new_Duration : Duration := {| duration := 0; message := "" |}.

Definition Update (newDuration : Z) (rd : Duration) : Duration :=
  if 0 <? newDuration then
    if (duration rd <=? 0) || (newDuration <? duration rd)
    then {| duration := newDuration; message := message rd |} else rd
  else rd.

(** The formatted message is the argument [msg]. *)
Definition UpdateWithMsg (newDuration : Z) (msg : string) (rd : Duration) : Duration :=
  if 0 <? newDuration then
    if (duration rd <=? 0) || (newDuration <? duration rd)
    then {| duration := newDuration; message := msg |} else rd
  else rd.

Definition Merge (rd2 rd : Duration) : Duration := UpdateWithMsg (duration rd2) (message rd2) rd.

Definition Get (rd : Duration) : Z := duration rd.
Definition GetWithMsg (rd : Duration) : Z * string := (duration rd, message rd).

(** [DurationStore.store]: every value put there is a [*Duration], so the type
    assertions of [Push] and [Pop] succeed. *)
Abbreviation store := (gmap string Duration).

Definition Push (key : string) (newDuration : Z) (s : store) : store :=
  <[key := Update newDuration (default new_Duration (s !! key))]> s.

Definition Pop (key : string) (s : store) : Z * store :=
  match s !! key with
  | None => (0, s)
  | Some d => (Get d, delete key s)
  end.

(** The least positive duration of a list, 0 when there is none. *)
Definition shortest (ds : list Z) : Z :=
  fold_left (fun acc d => if 0 <? d then (if acc <=? 0 then d else Z.min acc d) else acc) ds 0.

Fixpoint push_all (key : string) (ds : list Z) (s : store) : store :=
  match ds with [] => s | d :: ds' => push_all key ds' (Push key d s) end.

Lemma Update_duration d rd :
  duration (Update d rd)
  = if 0 <? d then (if duration rd <=? 0 then d else Z.min (duration rd) d) else duration rd.
Proof. unfold Update. bcase; simpl; lia. Qed.

Lemma push_all_duration key ds s :
  ds <> [] ->
  exists d, push_all key ds s !! key = Some d
  /\ duration d = fold_left (fun acc d => if 0 <? d then (if acc <=? 0 then d else Z.min acc d) else acc) ds
                    (duration (default new_Duration (s !! key))).
Proof.
  revert s. induction ds as [|d ds IH]; intros s Hne; [done|]. simpl.
  destruct ds as [|d' ds'].
  - simpl. unfold Push. rewrite lookup_insert_eq. eexists. split; [done|]. by rewrite Update_duration.
  - destruct (IH (Push key d s)) as (x & Hx & Hd); [done|]. exists x. split; [done|].
    rewrite Hd. unfold Push. rewrite lookup_insert_eq. simpl default. by rewrite Update_duration.
Qed.

Lemma shortest_fold_spec ds acc :
  0 <= acc ->
  let r := fold_left (fun acc d => if 0 <? d then (if acc <=? 0 then d else Z.min acc d) else acc) ds acc in
  0 <= r
  /\ (forall d, d ∈ ds -> 0 < d -> 0 < r <= d)
  /\ (0 < acc -> 0 < r <= acc)
  /\ (r = acc \/ (r ∈ ds /\ 0 < r)).
Proof.
  revert acc. induction ds as [|d ds IH]; intros acc Hacc; simpl.
  - split; [done|]. split; [set_solver|]. split; [lia|by left].
  - set (acc' := if 0 <? d then _ else _).
    assert (0 <= acc' /\ (0 < d -> 0 < acc' <= d) /\ (0 < acc -> 0 < acc' <= acc)
      /\ (acc' = acc \/ acc' = d /\ 0 < d)) as (H1 & H2 & H3 & H4) by (subst acc'; bcase).
    destruct (IH acc' H1) as (I1 & I2 & I3 & I4). split; [done|]. split_and!.
    + intros x Hx Hp. apply elem_of_cons in Hx as [->|Hx]; [|by apply I2].
      specialize (H2 Hp). lia.
    + intros Hp. specialize (H3 Hp). lia.
    + destruct I4 as [->|[? ?]]; [|right; set_solver].
      destruct H4 as [->|[-> ?]]; [by left|right; set_solver].
Qed.

(** After any pushes under a key, Pop returns the shortest positive duration
    pushed (0 when there is none), and clears the key. *)
Theorem requeue_pop_shortest (key : string) (ds : list Z) (s : store) :
  s !! key = None ->
  let '(d, s') := Pop key (push_all key ds s) in
  s' !! key = None /\
  (forall x, x ∈ ds -> 0 < x -> 0 < d <= x) /\ (d = 0 \/ (d ∈ ds /\ 0 < d)).
Proof.
  intros Hs. unfold Pop. destruct (decide (ds = [])) as [->|Hne].
  - simpl. rewrite Hs. split; [done|]. split; [set_solver|by left].
  - destruct (push_all_duration key ds s Hne) as (d & -> & Hd). rewrite lookup_delete_eq.
    split; [done|]. unfold Get. rewrite Hd, Hs.
    destruct (shortest_fold_spec ds 0) as (_ & H1 & _ & H2); [lia|]. by split.
Qed.

Lemma requeue_pop_shortest_witness :
  let '(d, s') := Pop "ns/g" (push_all "ns/g" [30; 0; 10; 20] ∅) in
  s' !! "ns/g" = None /\
  (forall x, x ∈ [30; 0; 10; 20] -> 0 < x -> 0 < d <= x) /\ (d = 0 \/ (d ∈ [30; 0; 10; 20] /\ 0 < d)).
Proof. by apply requeue_pop_shortest. Defined.

End Requeue.
