(* ===== verification/Conditions.v ===== *)
(** [metav1.Condition] and the helpers of k8s.io/apimachinery/pkg/api/meta
    (conditions.go) that the group-level controllers use. *)
From Stdlib Require Import ZArith Lia Bool String.
From stdpp Require Import base tactics list strings.
From S2P Require Import Prelude Types.

Record Condition := {
  c_Type : string;
  c_Status : string;
  c_ObservedGeneration : Z;
  c_LastTransitionTime : gotime;
  c_Reason : string;
  c_Message : string
}.

#[export] Instance Condition_eq_dec : EqDecision Condition.
Proof. solve_decision. Defined.

Definition FindStatusCondition (conditions : list Condition) (type : string) : option Condition :=
  List.find (fun c => bool_decide (c_Type c = type)) conditions.

(** [now] is read only when the new condition has no transition time. *)
Definition transition_time (now : Z) (new : Condition) : gotime :=
  match c_LastTransitionTime new with None => Some now | t => t end.

(** An existing condition takes the new status, reason, message and generation; its
    transition time moves only with the status. *)
Definition merge_condition (now : Z) (old new : Condition) : Condition := {|
  c_Type := c_Type old; c_Status := c_Status new; c_ObservedGeneration := c_ObservedGeneration new;
  c_LastTransitionTime := if bool_decide (c_Status old <> c_Status new) then transition_time now new
                          else c_LastTransitionTime old;
  c_Reason := c_Reason new; c_Message := c_Message new |}.

Fixpoint set_status_condition (now : Z) (new : Condition) (conditions : list Condition) : list Condition :=
  match conditions with
  | [] => [{| c_Type := c_Type new; c_Status := c_Status new; c_ObservedGeneration := c_ObservedGeneration new;
              c_LastTransitionTime := transition_time now new; c_Reason := c_Reason new; c_Message := c_Message new |}]
  | c :: conditions' =>
      if bool_decide (c_Type c = c_Type new) then merge_condition now c new :: conditions'
      else c :: set_status_condition now new conditions'
  end.

(** The new list, and whether it differs. *)
Definition SetStatusCondition (now : Z) (new : Condition) (conditions : list Condition) : list Condition * bool :=
  (set_status_condition now new conditions,
   match FindStatusCondition conditions (c_Type new) with
   | None => true
   | Some old => bool_decide (c_Status old <> c_Status new) || bool_decide (c_Reason old <> c_Reason new)
                 || bool_decide (c_Message old <> c_Message new)
                 || bool_decide (c_ObservedGeneration old <> c_ObservedGeneration new)
   end).

Definition RemoveStatusCondition (type : string) (conditions : list Condition) : list Condition * bool :=
  let kept := List.filter (fun c => negb (bool_decide (c_Type c = type))) conditions in
  (kept, bool_decide (length conditions <> length kept)).

Definition IsStatusConditionPresentAndEqual (conditions : list Condition) (type status : string) : bool :=
  match FindStatusCondition conditions type with Some c => bool_decide (c_Status c = status) | None => false end.

Definition IsStatusConditionTrue (conditions : list Condition) (type : string) : bool :=
  IsStatusConditionPresentAndEqual conditions type ConditionTrue.

(** * Lemmas *)

Lemma find_set_status_condition now new conditions :
  exists c, FindStatusCondition (set_status_condition now new conditions) (c_Type new) = Some c /\
    c_Status c = c_Status new /\ c_Reason c = c_Reason new /\ c_Message c = c_Message new /\
    c_ObservedGeneration c = c_ObservedGeneration new.
Proof.
  unfold FindStatusCondition. induction conditions as [|c l IH]; cbn [set_status_condition List.find].
  - cbn [c_Type]. rewrite bool_decide_eq_true_2 by done. by eexists.
  - destruct (bool_decide_reflect (c_Type c = c_Type new)) as [Ht|Ht]; cbn [List.find].
    + cbn [c_Type merge_condition]. rewrite bool_decide_eq_true_2 by done. by eexists.
    + by rewrite bool_decide_eq_false_2.
Qed.

Lemma find_set_status_condition_other now new conditions type :
  type <> c_Type new ->
  FindStatusCondition (set_status_condition now new conditions) type = FindStatusCondition conditions type.
Proof.
  intros Hne. unfold FindStatusCondition. induction conditions as [|c l IH]; cbn [set_status_condition List.find].
  - cbn [c_Type]. by rewrite bool_decide_eq_false_2.
  - destruct (bool_decide_reflect (c_Type c = c_Type new)) as [Ht|Ht]; cbn [List.find]; [|by rewrite IH].
    cbn [c_Type merge_condition]. by rewrite bool_decide_eq_false_2 by congruence.
Qed.

(** The flag is exact: without a change the list is what it was. *)
Lemma SetStatusCondition_unchanged now new conditions :
  (SetStatusCondition now new conditions).2 = false -> set_status_condition now new conditions = conditions.
Proof.
  cbn [SetStatusCondition snd]. unfold FindStatusCondition.
  induction conditions as [|c l IH]; cbn [set_status_condition List.find]; [done|].
  destruct (bool_decide_reflect (c_Type c = c_Type new)) as [Ht|Ht]; [|intros H; by rewrite IH].
  rewrite !orb_false_iff, !bool_decide_eq_false. intros (((Hs & Hr) & Hm) & Hg).
  apply dec_stable in Hs, Hr, Hm, Hg. f_equal. unfold merge_condition. rewrite bool_decide_eq_false_2 by tauto.
  destruct c; cbn in *. by subst.
Qed.

(** Setting a condition again changes nothing. *)
Lemma set_status_condition_twice now new conditions :
  set_status_condition now new (set_status_condition now new conditions) = set_status_condition now new conditions.
Proof.
  induction conditions as [|c l IH]; cbn [set_status_condition].
  - cbn [c_Type]. rewrite bool_decide_eq_true_2 by done. unfold merge_condition. cbn. by rewrite bool_decide_eq_false_2 by auto.
  - destruct (bool_decide_reflect (c_Type c = c_Type new)) as [Ht|Ht]; cbn [set_status_condition].
    + cbn [c_Type merge_condition]. rewrite bool_decide_eq_true_2 by done. f_equal. unfold merge_condition at 1.
      cbn. by rewrite (bool_decide_eq_false_2 (c_Status new <> c_Status new)) by auto.
    + rewrite bool_decide_eq_false_2 by done. by rewrite IH.
Qed.
