(* ===== verification/GroupTypes.v ===== *)
(** [RoleBasedGroup] and [CoordinatedPolicy] (api/workloads/v1alpha2) and the
    helpers of helper.go: role lookup, group size, generated names, workload
    types, template sources.

    In [role_rest] is what only the conversion between API versions looks into; which
    of the empty maps and lists of a role are nil is opaque. *)
From Stdlib Require Import ZArith Lia Bool Ascii String.
From stdpp Require Import base tactics list strings gmap.
From S2P Require Import Prelude GoStrings IntOrString Types Conditions.

(** * Roles *)

Definition InPlaceIfPossibleUpdateStrategyType : string := "InPlaceIfPossible".
Definition LegacyRecreateUpdateStrategyType : string := "Recreate".

Definition NormalizeUpdateStrategyType (t : string) : string :=
  if bool_decide (t = ""%string) then InPlaceIfPossibleUpdateStrategyType
  else if bool_decide (t = LegacyRecreateUpdateStrategyType) then RecreatePodUpdateStrategyType
  else t.

Record RollingUpdate := {
  ru_Type : string;
  ru_Partition : option IntOrString;
  ru_MaxUnavailable : option IntOrString;
  ru_MaxSurge : option IntOrString;
  ru_Paused : bool;
  ru_InPlaceUpdateStrategy : option Z
}.

(** The zero value [RollingUpdate{}]. *)
Definition empty_RollingUpdate : RollingUpdate := {|
  ru_Type := ""; ru_Partition := None; ru_MaxUnavailable := None; ru_MaxSurge := None;
  ru_Paused := false; ru_InPlaceUpdateStrategy := None |}.

Definition with_MaxUnavailable (v : option IntOrString) (r : RollingUpdate) : RollingUpdate := {|
  ru_Type := ru_Type r; ru_Partition := ru_Partition r; ru_MaxUnavailable := v;
  ru_MaxSurge := ru_MaxSurge r; ru_Paused := ru_Paused r;
  ru_InPlaceUpdateStrategy := ru_InPlaceUpdateStrategy r |}.

Definition with_Partition (v : option IntOrString) (r : RollingUpdate) : RollingUpdate := {|
  ru_Type := ru_Type r; ru_Partition := v; ru_MaxUnavailable := ru_MaxUnavailable r;
  ru_MaxSurge := ru_MaxSurge r; ru_Paused := ru_Paused r;
  ru_InPlaceUpdateStrategy := ru_InPlaceUpdateStrategy r |}.

Definition with_Type (t : string) (r : RollingUpdate) : RollingUpdate := {|
  ru_Type := t; ru_Partition := ru_Partition r; ru_MaxUnavailable := ru_MaxUnavailable r;
  ru_MaxSurge := ru_MaxSurge r; ru_Paused := ru_Paused r;
  ru_InPlaceUpdateStrategy := ru_InPlaceUpdateStrategy r |}.

Record ScalingAdapterSpec := { sa_Enable : bool; sa_Labels : labels }.

(** The patch is the raw text of a [RawExtension]. *)
Record TemplateRef := { tr_Name : string; tr_Patch : option string }.

Record TemplateSource := {
  ts_Template : option PodTemplateSpec;
  ts_TemplateRef : option TemplateRef
}.

Record LeaderWorkerPattern := {
  lw_Size : option Z;
  lw_Source : TemplateSource;
  lw_LeaderTemplatePatch : option string;
  lw_WorkerTemplatePatch : option string;
  lw_SharedServiceSelection : option string;
  lw_RestartPolicy : string;
  lw_RestartPolicyConfig : option RestartPolicyConfig
}.

Record CustomComponentsPattern := {
  cc_Components : list RoleInstanceComponent;
  cc_RestartPolicy : string;
  cc_RestartPolicyConfig : option RestartPolicyConfig
}.

(** The inlined [Pattern]. *)
Record Pattern := {
  pat_Standalone : option TemplateSource;
  pat_LeaderWorker : option LeaderWorkerPattern;
  pat_CustomComponents : option CustomComponentsPattern
}.

Definition no_template : TemplateSource := {| ts_Template := None; ts_TemplateRef := None |}.
Definition standalone (src : TemplateSource) : Pattern :=
  {| pat_Standalone := Some src; pat_LeaderWorker := None; pat_CustomComponents := None |}.

(** The containers of an engine runtime and a service port are opaque.  A rollout
    strategy that is nil is one of the empty type without a rolling update. *)
Record EngineRuntime := { er_ProfileName : string; er_InjectContainers : list string; er_Containers : string }.

Record RoleRest := {
  rr_RolloutType : string;
  rr_ServicePorts : string;
  rr_EngineRuntimes : list EngineRuntime;
  rr_PodManagementPolicy : string;
  rr_nils : string
}.

Definition no_rest : RoleRest :=
  {| rr_RolloutType := ""; rr_ServicePorts := ""; rr_EngineRuntimes := []; rr_PodManagementPolicy := ""; rr_nils := "" |}.

Record RoleSpec := {
  role_Name : string;
  role_Labels : labels;
  role_Annotations : labels;
  role_Replicas : option Z;
  role_RollingUpdate : option RollingUpdate;  (* RolloutStrategy.RollingUpdate *)
  role_Dependencies : list string;
  role_Pattern : Pattern;
  role_ScalingAdapter : option ScalingAdapterSpec;
  role_MinReadySeconds : Z;
  role_rest : RoleRest
}.

#[export] Instance EngineRuntime_eq_dec : EqDecision EngineRuntime.
Proof. solve_decision. Defined.
#[export] Instance RoleRest_eq_dec : EqDecision RoleRest.
Proof. solve_decision. Defined.
#[export] Instance ScalingAdapterSpec_eq_dec : EqDecision ScalingAdapterSpec.
Proof. solve_decision. Defined.
#[export] Instance RollingUpdate_eq_dec : EqDecision RollingUpdate.
Proof. solve_decision. Defined.
#[export] Instance TemplateRef_eq_dec : EqDecision TemplateRef.
Proof. solve_decision. Defined.
#[export] Instance TemplateSource_eq_dec : EqDecision TemplateSource.
Proof. solve_decision. Defined.
#[export] Instance LeaderWorkerPattern_eq_dec : EqDecision LeaderWorkerPattern.
Proof. solve_decision. Defined.
#[export] Instance CustomComponentsPattern_eq_dec : EqDecision CustomComponentsPattern.
Proof. solve_decision. Defined.
#[export] Instance Pattern_eq_dec : EqDecision Pattern.
Proof. solve_decision. Defined.
#[export] Instance RoleSpec_eq_dec : EqDecision RoleSpec.
Proof. solve_decision. Defined.

Definition with_Replicas (v : option Z) (r : RoleSpec) : RoleSpec := {|
  role_Name := role_Name r; role_Labels := role_Labels r; role_Annotations := role_Annotations r;
  role_Replicas := v; role_RollingUpdate := role_RollingUpdate r;
  role_Dependencies := role_Dependencies r; role_Pattern := role_Pattern r;
  role_ScalingAdapter := role_ScalingAdapter r; role_MinReadySeconds := role_MinReadySeconds r;
  role_rest := role_rest r |}.

Definition with_RollingUpdate (v : option RollingUpdate) (r : RoleSpec) : RoleSpec := {|
  role_Name := role_Name r; role_Labels := role_Labels r; role_Annotations := role_Annotations r;
  role_Replicas := role_Replicas r; role_RollingUpdate := v;
  role_Dependencies := role_Dependencies r; role_Pattern := role_Pattern r;
  role_ScalingAdapter := role_ScalingAdapter r; role_MinReadySeconds := role_MinReadySeconds r;
  role_rest := role_rest r |}.

Record RoleTemplate := { rt_Name : string; rt_Template : PodTemplateSpec }.

#[export] Instance RoleTemplate_eq_dec : EqDecision RoleTemplate.
Proof. solve_decision. Defined.

Record RoleStatus := {
  rst_Name : string;
  rst_ReadyReplicas : Z;
  rst_Replicas : Z;
  rst_UpdatedReplicas : Z
}.

#[export] Instance RoleStatus_eq_dec : EqDecision RoleStatus.
Proof. solve_decision. Defined.

Record RoleBasedGroup := {
  rbg_meta : ObjectMeta;
  rbg_Roles : list RoleSpec;
  rbg_RoleTemplates : list RoleTemplate;
  rbg_ObservedGeneration : Z;
  rbg_Conditions : list Condition;
  rbg_RoleStatuses : list RoleStatus
}.

Definition rbg_with_meta (m : ObjectMeta) (g : RoleBasedGroup) : RoleBasedGroup := {|
  rbg_meta := m; rbg_Roles := rbg_Roles g; rbg_RoleTemplates := rbg_RoleTemplates g;
  rbg_ObservedGeneration := rbg_ObservedGeneration g; rbg_Conditions := rbg_Conditions g;
  rbg_RoleStatuses := rbg_RoleStatuses g |}.
Definition rbg_with_roles (roles : list RoleSpec) (g : RoleBasedGroup) : RoleBasedGroup := {|
  rbg_meta := rbg_meta g; rbg_Roles := roles; rbg_RoleTemplates := rbg_RoleTemplates g;
  rbg_ObservedGeneration := rbg_ObservedGeneration g; rbg_Conditions := rbg_Conditions g;
  rbg_RoleStatuses := rbg_RoleStatuses g |}.
Definition rbg_with_status (generation : Z) (conditions : list Condition) (statuses : list RoleStatus)
    (g : RoleBasedGroup) : RoleBasedGroup := {|
  rbg_meta := rbg_meta g; rbg_Roles := rbg_Roles g; rbg_RoleTemplates := rbg_RoleTemplates g;
  rbg_ObservedGeneration := generation; rbg_Conditions := conditions; rbg_RoleStatuses := statuses |}.

#[export] Instance RoleBasedGroup_eq_dec : EqDecision RoleBasedGroup.
Proof. solve_decision. Defined.

Definition rbg_Name (g : RoleBasedGroup) : string := om_Name (rbg_meta g).

(** * CoordinatedPolicy *)

Record RollingUpdateCoordination := {
  rc_MaxSkew : option IntOrString;
  rc_Partition : option IntOrString;
  rc_MaxUnavailable : option IntOrString
}.

Definition OrderScheduledProgression : string := "OrderScheduled".
Definition OrderReadyProgression : string := "OrderReady".

Record ScalingCoordination := {
  sc_MaxSkew : option IntOrString;
  sc_Progression : string
}.

Record CoordinatedPolicyRule := {
  rule_Name : string;
  rule_Roles : list string;
  rule_RollingUpdate : option RollingUpdateCoordination;
  rule_Scaling : option ScalingCoordination;
  (* Scheduling.Gang.MinReplicas; [None] when Scheduling or Gang is nil *)
  rule_Gang : option (gmap string Z)
}.

Record CoordinatedPolicy := {
  cp_meta : ObjectMeta;
  cp_Policies : list CoordinatedPolicyRule
}.

(** * helper.go *)

Definition GroupAPIVersion : string := "workloads.x-k8s.io/v1alpha2".
Definition GroupKind : string := "RoleBasedGroup".

Definition GenerateScalingAdapterName (rbgName roleName : string) : string :=
  rbgName +:+ "-" +:+ roleName.

Definition RoleInstanceSetWorkloadType : string := "workloads.x-k8s.io/v1alpha2/RoleInstanceSet".
Definition DeploymentWorkloadType : string := "apps/v1/Deployment".
Definition StatefulSetWorkloadType : string := "apps/v1/StatefulSet".
Definition LeaderWorkerSetWorkloadType : string := "leaderworkerset.x-k8s.io/v1/LeaderWorkerSet".
Definition RoleWorkloadTypeAnnotationKey : string := RBGPrefix +:+ "role-workload-type".
Definition RoleInstancePatternKey : string := RBGPrefix +:+ "role-instance-pattern".
Definition StatelessPattern : string := "Stateless".

Definition GetWorkloadType (r : RoleSpec) : string :=
  let wt := label_of (role_Annotations r) RoleWorkloadTypeAnnotationKey in
  if bool_decide (wt <> ""%string) then wt else RoleInstanceSetWorkloadType.

Record WorkloadSpec := { ws_APIVersion : string; ws_Kind : string }.

(** The text before and after the last slash, when that is not the first character. *)
Definition split_last_slash (s : string) : option (string * string) :=
  let kind := LastField s "/" in
  let n := (String.length s - String.length kind)%nat in
  if (1 <? n)%nat then Some (of_chars (take (n - 1) (chars s)), kind) else None.

Definition GetWorkloadSpec (r : RoleSpec) : WorkloadSpec :=
  match split_last_slash (GetWorkloadType r) with
  | Some (v, k) => {| ws_APIVersion := v; ws_Kind := k |}
  | None => match split_last_slash RoleInstanceSetWorkloadType with
            | Some (v, k) => {| ws_APIVersion := v; ws_Kind := k |}
            | None => {| ws_APIVersion := ""; ws_Kind := "" |}
            end
  end.

(** Whether a role is stateful; unknown kinds are. *)
Definition IsStatefulRole (r : RoleSpec) : bool :=
  let wt := GetWorkloadType r in
  if bool_decide (wt = DeploymentWorkloadType) then false
  else if bool_decide (wt = StatefulSetWorkloadType) || bool_decide (wt = LeaderWorkerSetWorkloadType)
          || bool_decide (wt = ""%string) then true
  else if bool_decide (wt = RoleInstanceSetWorkloadType)
       then bool_decide (label_of (role_Annotations r) RoleInstancePatternKey <> StatelessPattern)
  else true.

Definition HasStatefulRole (g : RoleBasedGroup) : bool := existsb IsStatefulRole (rbg_Roles g).

Definition IsLeaderWorkerPattern (r : RoleSpec) : bool := bool_decide (is_Some (pat_LeaderWorker (role_Pattern r))).

(** The source of the standalone pattern, or else of the leader-worker one. *)
Definition template_source (r : RoleSpec) : TemplateSource :=
  match pat_Standalone (role_Pattern r) with
  | Some src => src
  | None => match pat_LeaderWorker (role_Pattern r) with Some lwp => lw_Source lwp | None => no_template end
  end.

Definition GetTemplate (r : RoleSpec) : option PodTemplateSpec := ts_Template (template_source r).
Definition GetTemplateRef (r : RoleSpec) : option TemplateRef := ts_TemplateRef (template_source r).

Definition GetTemplatePatch (r : RoleSpec) : option string :=
  match pat_Standalone (role_Pattern r) ≫= ts_TemplateRef with
  | Some ref => tr_Patch ref
  | None => match pat_LeaderWorker (role_Pattern r) ≫= (fun lwp => ts_TemplateRef (lw_Source lwp)) with
            | Some ref => tr_Patch ref
            | None => None
            end
  end.

Definition SharedServiceSelectionAll : string := "All".
Definition SharedServiceSelectionLeaderOnly : string := "LeaderOnly".

Definition GetSharedServiceSelection (r : RoleSpec) : string :=
  match pat_LeaderWorker (role_Pattern r) with
  | None => SharedServiceSelectionAll
  | Some lwp =>
      if bool_decide (GetWorkloadType r <> RoleInstanceSetWorkloadType) then SharedServiceSelectionAll
      else default SharedServiceSelectionLeaderOnly (lw_SharedServiceSelection lwp)
  end.

Definition RestartPolicyNone : string := "None".
Definition RecreateRoleInstanceOnPodRestart : string := "RecreateRoleInstanceOnPodRestart".

Definition role_RestartPolicyConfig (r : RoleSpec) : RestartPolicyConfig :=
  match pat_LeaderWorker (role_Pattern r), pat_CustomComponents (role_Pattern r) with
  | Some lwp, _ =>
      resolveRestartPolicyConfig (lw_RestartPolicyConfig lwp) (lw_RestartPolicy lwp) RecreateRoleInstanceOnPodRestart
  | None, Some ccp =>
      resolveRestartPolicyConfig (cc_RestartPolicyConfig ccp) (cc_RestartPolicy ccp) RecreateRoleInstanceOnPodRestart
  | None, None => {| rpc_Type := RestartPolicyNone; rpc_BaseDelaySeconds := None; rpc_MaxDelaySeconds := None |}
  end.

Definition IsScalingAdapterEnable (r : option RoleSpec) : bool :=
  match r with
  | None => false
  | Some r => match role_ScalingAdapter r with None => false | Some sa => sa_Enable sa end
  end.

Definition GetRole (roleName : string) (g : RoleBasedGroup) : result RoleSpec :=
  if bool_decide (roleName = ""%string) then Err "roleName cannot be empty"
  else match List.find (fun r => bool_decide (role_Name r = roleName)) (rbg_Roles g) with
       | Some r => Ok r
       | None => Err "role not found"
       end.

Definition GetRoleStatus (roleName : string) (g : RoleBasedGroup) : option RoleStatus :=
  if bool_decide (roleName = ""%string) then None
  else List.find (fun s => bool_decide (rst_Name s = roleName)) (rbg_RoleStatuses g).

Definition GetRoleReplicasV2 (g : RoleBasedGroup) (roleName : string) : Z :=
  match List.find (fun r => bool_decide (role_Name r = roleName)) (rbg_Roles g) with
  | Some r => default 1 (role_Replicas r)
  | None => 0
  end.

(** The int32 sum over the components of a custom pattern. *)
Definition components_size (cs : list RoleInstanceComponent) : Z :=
  fold_left (fun total c => int32 (total + match ric_Size c with None => 1 | Some s => Z.max s 0 end)) cs 0.

Definition ComputeSubGroupSize (r : option RoleSpec) : Z :=
  match r with
  | None => 1
  | Some r =>
      match pat_LeaderWorker (role_Pattern r) with
      | Some lwp => match lw_Size lwp with Some s => Z.max s 1 | None => 1 end
      | None =>
          match pat_CustomComponents (role_Pattern r) with
          | Some ccp => components_size (cc_Components ccp)
          | None => 1
          end
      end
  end.

(** [None] is the nil dereference of [*role.Replicas]. *)
Fixpoint GetGroupSize_loop (roles : list RoleSpec) (ret : Z) : option Z :=
  match roles with
  | [] => Some ret
  | r :: roles' =>
      match role_Replicas r with
      | None => None
      | Some n => GetGroupSize_loop roles' (ret + ComputeSubGroupSize (Some r) * n)
      end
  end.

Definition GetGroupSize (g : RoleBasedGroup) : option Z := GetGroupSize_loop (rbg_Roles g) 0.

(** [strings.TrimRight(s, "-")] on the reversed characters. *)
Fixpoint drop_dashes (l : list ascii) : list ascii :=
  match l with
  | c :: l' => if bool_decide (c = "-"%char) then drop_dashes l' else l
  | [] => []
  end.

Definition TrimRightDash (s : string) : string := of_chars (rev (drop_dashes (rev (chars s)))).

(** The truncation both name generators apply above 63 bytes. *)
Definition truncate63 (s : string) : string :=
  if (63 <? String.length s)%nat then TrimRightDash (of_chars (take 63 (chars s))) else s.

Definition GetWorkloadName (g : option RoleBasedGroup) (role : RoleSpec) : string :=
  match g with
  | None => ""
  | Some g => truncate63 (rbg_Name g +:+ "-" +:+ role_Name role)
  end.

Definition GetServiceName (g : RoleBasedGroup) (role : RoleSpec) : string :=
  truncate63 ("s-" +:+ rbg_Name g +:+ "-" +:+ role_Name role).

Example GetWorkloadSpec_default r : role_Annotations r = ∅ ->
  GetWorkloadSpec r = {| ws_APIVersion := "workloads.x-k8s.io/v1alpha2"; ws_Kind := "RoleInstanceSet" |}.
Proof. intros Ha. unfold GetWorkloadSpec, GetWorkloadType. by rewrite Ha. Qed.

(** * Lemmas *)

Lemma find_role_Some name (roles : list RoleSpec) r :
  List.find (fun r => bool_decide (role_Name r = name)) roles = Some r ->
  r ∈ roles /\ role_Name r = name.
Proof. intros [Hin Hb]%List.find_some. breflect. by rewrite list_elem_of_In. Qed.

Lemma find_role_None name (roles : list RoleSpec) :
  List.find (fun r => bool_decide (role_Name r = name)) roles = None <->
  name ∉ map role_Name roles.
Proof.
  split.
  - intros H Hin. apply list_elem_of_fmap in Hin as (r & -> & Hr).
    apply list_elem_of_In in Hr. pose proof (List.find_none _ _ H _ Hr) as Hn. simpl in Hn. by breflect.
  - intros Hn. destruct (List.find _ _) as [r|] eqn:E; [|done].
    apply find_role_Some in E as [Hr <-]. destruct Hn. apply list_elem_of_fmap. eauto.
Qed.

Lemma GetRole_Ok name g r : GetRole name g = Ok r -> r ∈ rbg_Roles g /\ role_Name r = name.
Proof.
  unfold GetRole. case_bool_decide; [done|].
  destruct (List.find _ _) as [r'|] eqn:E; [|done]. intros [= ->]. by apply find_role_Some.
Qed.

Lemma components_size_fold cs acc :
  is_int32 acc -> is_int32 (fold_left (fun total c => int32 (total + match ric_Size c with None => 1 | Some s => Z.max s 0 end)) cs acc).
Proof.
  revert acc. induction cs as [|c cs IH]; intros acc Hacc; simpl; [done|]. apply IH, int32_range.
Qed.

Lemma ComputeSubGroupSize_pos r :
  (pat_CustomComponents (role_Pattern r) = None \/ pat_LeaderWorker (role_Pattern r) <> None) ->
  1 <= ComputeSubGroupSize (Some r).
Proof.
  intros H. unfold ComputeSubGroupSize. destruct (pat_LeaderWorker _) as [lwp|]; [destruct (lw_Size lwp); lia|].
  destruct (pat_CustomComponents _); [naive_solver|lia].
Qed.

Lemma string_length_chars s : String.length s = length (chars s).
Proof. induction s; simpl; [done|]. by f_equal. Qed.

Lemma drop_dashes_length l : (length (drop_dashes l) <= length l)%nat.
Proof. induction l; simpl; [lia|]. case_bool_decide; simpl; lia. Qed.

Lemma truncate63_length s : (String.length (truncate63 s) <= 63)%nat.
Proof.
  unfold truncate63. destruct (63 <? String.length s)%nat eqn:E; [|apply Nat.ltb_ge in E; lia].
  unfold TrimRightDash. rewrite string_length_chars, chars_of_chars, length_rev, chars_of_chars.
  pose proof (drop_dashes_length (rev (take 63 (chars s)))) as H.
  rewrite length_rev, length_take in H. lia.
Qed.

#[export] Hint Resolve truncate63_length : rbg.
