(* ===== verification/Gang.v ===== *)
(** Gang scheduling strategy (pkg/scheduler/common/gang_strategy.go): merging the
    gang rules of a CoordinatedPolicy, the pods a gang covers and the replica
    count below which another controller must not hold a role. *)
From Stdlib Require Import ZArith Lia Bool String.
From stdpp Require Import base tactics list strings gmap sets fin_maps.
From S2P Require Import Prelude Types GroupTypes.

Record GangStrategy := {
  gs_Roles : gset string;
  gs_MinReplicas : gmap string Z
}.

Definition RoleInGang (role : option RoleSpec) (strategy : option GangStrategy) : bool :=
  match strategy, role with
  | Some s, Some r => bool_decide (gs_Roles s = ∅) || bool_decide (role_Name r ∈ gs_Roles s)
  | _, _ => false
  end.

(** The sorted list of Go is a set here. *)
Definition UnknownGangRoles (g : RoleBasedGroup) (strategy : option GangStrategy) : gset string :=
  match strategy with
  | None => ∅
  | Some s => if bool_decide (gs_Roles s = ∅) then ∅
              else gs_Roles s ∖ list_to_set (map role_Name (rbg_Roles g))
  end.

Definition GangSize_loop (strategy : option GangStrategy) (roles : list RoleSpec) : Z :=
  fold_left (fun size r =>
    if RoleInGang (Some r) strategy
    then int32 (size + int32 (ComputeSubGroupSize (Some r) * default 1 (role_Replicas r)))
    else size) roles 0.

Definition GangSize (g : RoleBasedGroup) (strategy : option GangStrategy) : result Z :=
  if bool_decide (UnknownGangRoles g strategy <> ∅)
  then Err "gang scheduling covers roles that do not exist in the RoleBasedGroup"
  else
    let size := GangSize_loop strategy (rbg_Roles g) in
    if size =? 0 then Err "gang scheduling resolved to minMember 0" else Ok size.

Definition GangMinimum_step (s : GangStrategy) (minimums : gmap string Z) (r : RoleSpec) : gmap string Z :=
  if RoleInGang (Some r) (Some s) then
    match gs_MinReplicas s !! role_Name r with
    | Some m => <[role_Name r := m]> minimums
    | None => <[role_Name r := default 1 (role_Replicas r)]> minimums
    end
  else minimums.

Definition GangMinimumReplicas (g : RoleBasedGroup) (strategy : option GangStrategy) : gmap string Z :=
  match strategy with
  | None => ∅
  | Some s => fold_left (GangMinimum_step s) (rbg_Roles g) ∅
  end.

(** One rule of [MergeGangStrategies]: the all-or-nothing roles, the merged
    minimums and whether a gang was declared.  The largest minimum wins, so the
    order of Go's map iteration does not matter. *)
Definition MergeGang_rule (acc : gset string * gmap string Z * bool) (rule : CoordinatedPolicyRule)
    : gset string * gmap string Z * bool :=
  let '(allOrNothing, merged, found) := acc in
  match rule_Gang rule with
  | None => acc
  | Some minReplicas =>
      if bool_decide (minReplicas = ∅)
      then (allOrNothing ∪ list_to_set (rule_Roles rule), merged, true)
      else (allOrNothing,
            union_with (fun a b => Some (Z.max a b)) merged
              (filter (fun kv => kv.1 ∈ rule_Roles rule) minReplicas),
            true)
  end.

Definition MergeGangStrategies (p : CoordinatedPolicy) : result (option GangStrategy) :=
  let '(allOrNothing, merged, found) := fold_left MergeGang_rule (cp_Policies p) (∅, ∅, false) in
  if negb found then Ok None
  else
    let merged := filter (fun kv => kv.1 ∉ allOrNothing) merged in
    if bool_decide (merged = ∅) then
      if bool_decide (allOrNothing <> ∅)
      then Ok (Some {| gs_Roles := allOrNothing; gs_MinReplicas := ∅ |})
      else Err "gang scheduling minReplicas names only roles outside their own policy rule"
    else Ok (Some {| gs_Roles := allOrNothing ∪ dom merged; gs_MinReplicas := merged |}).

Definition GangSchedulingAnnotationKey : string := RBGPrefix +:+ "group-gang-scheduling".

(** The outcome of reading the CoordinatedPolicy: the object, NotFound, or
    another error. *)
Inductive get_result (A : Type) := Found (a : A) | NotFound | GetError (e : error).
Arguments Found {A} _.
Arguments NotFound {A}.
Arguments GetError {A} _.

Definition getGangStrategy (read : get_result CoordinatedPolicy) (g : RoleBasedGroup)
    : result (option GangStrategy) :=
  let annotation :=
    if bool_decide (label_of (om_Annotations (rbg_meta g)) GangSchedulingAnnotationKey = "true"%string)
    then Some {| gs_Roles := ∅; gs_MinReplicas := ∅ |} else None in
  match read with
  | Found p =>
      s ← MergeGangStrategies p;
      Ok (match s with Some s => Some s | None => annotation end)
  | GetError e => Err e
  | NotFound => Ok annotation
  end.

(** * What the merge promises *)

(** Role [r] is asked in full by some all-or-nothing gang rule. *)
Definition asked_in_full (rules : list CoordinatedPolicyRule) (r : string) : Prop :=
  exists rule, rule ∈ rules /\ rule_Gang rule = Some ∅ /\ r ∈ rule_Roles rule.

(** Rule [rule] asks at least [n] replicas of role [r], within its own scope. *)
Definition rule_minimum (rule : CoordinatedPolicyRule) (r : string) (n : Z) : Prop :=
  exists m, rule_Gang rule = Some m /\ m !! r = Some n /\ r ∈ rule_Roles rule.

Definition merge_state (rules : list CoordinatedPolicyRule) : gset string * gmap string Z * bool :=
  fold_left MergeGang_rule rules (∅, ∅, false).

Lemma merge_state_snoc rules rule :
  merge_state (rules ++ [rule]) = MergeGang_rule (merge_state rules) rule.
Proof. unfold merge_state. by rewrite fold_left_app. Qed.

Lemma lookup_union_max (m1 m2 : gmap string Z) k :
  union_with (fun a b => Some (Z.max a b)) m1 m2 !! k
  = match m1 !! k, m2 !! k with
    | Some a, Some b => Some (Z.max a b)
    | Some a, None => Some a
    | None, o => o
    end.
Proof. rewrite lookup_union_with. by destruct (m1 !! k), (m2 !! k). Qed.

Lemma asked_in_full_snoc rules rule r :
  asked_in_full (rules ++ [rule]) r <->
  asked_in_full rules r \/ (rule_Gang rule = Some ∅ /\ r ∈ rule_Roles rule).
Proof.
  unfold asked_in_full. setoid_rewrite elem_of_snoc. split.
  - intros (x & [Hx|Hx] & H & Hr); [left; eauto|subst x; auto].
  - intros [(x & H)|H]; [exists x; tauto|exists rule; tauto].
Qed.

Lemma merge_state_allOrNothing rules r :
  r ∈ (merge_state rules).1.1 <-> asked_in_full rules r.
Proof.
  induction rules as [|rule rules IH] using rev_ind.
  - simpl. unfold asked_in_full. set_solver.
  - rewrite merge_state_snoc, asked_in_full_snoc, <-IH.
    destruct (merge_state rules) as [[aon merged] found]. unfold MergeGang_rule.
    destruct (rule_Gang rule) as [m|]; [case_bool_decide as Hm|]; simpl.
    + subst m. rewrite elem_of_union, elem_of_list_to_set. tauto.
    + split; [auto|]. intros [?|[[= Heq] _]]; [done|by destruct Hm].
    + split; [auto|]. by intros [?|[? _]].
Qed.

Lemma lookup_scoped (m : gmap string Z) roles r n :
  filter (fun kv : string * Z => kv.1 ∈ (roles : list string)) m !! r = Some n <-> m !! r = Some n /\ r ∈ roles.
Proof. by rewrite map_lookup_filter_Some. Qed.

(** [o] is the largest of the minimums [P] declares, [None] when it declares none. *)
Definition largest (P : Z -> Prop) (o : option Z) : Prop :=
  match o with
  | Some n => P n /\ (forall n', P n' -> n' <= n)
  | None => forall n, ~ P n
  end.

Lemma largest_ext (P Q : Z -> Prop) o : (forall n, P n <-> Q n) -> largest P o -> largest Q o.
Proof. intros HPQ. destruct o; simpl; setoid_rewrite HPQ; done. Qed.

Lemma largest_or (P Q : Z -> Prop) o1 o2 :
  largest P o1 -> largest Q o2 ->
  largest (fun n => P n \/ Q n) (union_with (fun a b => Some (Z.max a b)) o1 o2).
Proof.
  destruct o1 as [a|], o2 as [b|]; simpl.
  - intros [Ha HP] [Hb HQ]. split.
    + destruct (Z.max_spec a b) as [[_ ->]|[_ ->]]; auto.
    + intros n [H|H]; [apply HP in H|apply HQ in H]; lia.
  - intros [Ha HP] HQ. split; [auto|]. intros n [H|H]; [auto|by destruct (HQ n)].
  - intros HP [Hb HQ]. split; [auto|]. intros n [H|H]; [by destruct (HP n)|auto].
  - intros HP HQ n [H|H]; [by apply (HP n)|by apply (HQ n)].
Qed.

Definition declared_minimum (rules : list CoordinatedPolicyRule) (r : string) (n : Z) : Prop :=
  exists rule, rule ∈ rules /\ rule_minimum rule r n.

Lemma declared_minimum_snoc rules rule r n :
  declared_minimum (rules ++ [rule]) r n <-> declared_minimum rules r n \/ rule_minimum rule r n.
Proof. unfold declared_minimum. setoid_rewrite elem_of_snoc. naive_solver. Qed.

Lemma MergeGang_rule_minimum acc rule r :
  exists o, (MergeGang_rule acc rule).1.2 !! r = union_with (fun a b => Some (Z.max a b)) (acc.1.2 !! r) o
    /\ largest (rule_minimum rule r) o.
Proof.
  destruct acc as [[aon merged] found]. unfold MergeGang_rule, rule_minimum.
  destruct (rule_Gang rule) as [m|] eqn:Hg; simpl; [case_bool_decide as Hm; simpl|].
  - exists None. split; [by destruct (merged !! r)|]. subst m.
    intros n (m & [= <-] & ? & _). by rewrite lookup_empty in *.
  - exists (filter (fun kv : string * Z => kv.1 ∈ rule_Roles rule) m !! r).
    split; [apply lookup_union_with|].
    destruct (filter _ m !! r) as [b|] eqn:Hb; simpl.
    + apply lookup_scoped in Hb as [Hb Hr]. split; [eauto|].
      intros n' (m' & [= <-] & Hn & _). simplify_eq. lia.
    + apply map_lookup_filter_None in Hb. intros n (m' & [= <-] & Hn & Hr). destruct Hb as [Hb|Hb]; [congruence|by apply (Hb n)].
  - exists None. split; [by destruct (merged !! r)|]. intros n (m & ? & _). done.
Qed.

(** The merged minimum of a role is the largest one its rules declare. *)
Lemma merge_state_minimum rules r :
  largest (declared_minimum rules r) ((merge_state rules).1.2 !! r).
Proof.
  induction rules as [|rule rules IH] using rev_ind.
  - unfold largest. simpl. rewrite lookup_empty. intros n (x & Hx & _). set_solver.
  - rewrite merge_state_snoc.
    destruct (MergeGang_rule_minimum (merge_state rules) rule r) as (o & -> & Ho).
    eapply largest_ext; [|apply (largest_or _ _ _ _ IH Ho)].
    intros n. by rewrite declared_minimum_snoc.
Qed.

Lemma merge_state_found rules :
  (merge_state rules).2 = existsb (fun rule => bool_decide (is_Some (rule_Gang rule))) rules.
Proof.
  induction rules as [|rule rules IH] using rev_ind; [done|].
  rewrite merge_state_snoc, existsb_app. destruct (merge_state rules) as [[aon merged] found].
  simpl in *. unfold MergeGang_rule. rewrite <-IH.
  destruct (rule_Gang rule); simpl; [rewrite orb_true_r; by case_bool_decide|by rewrite orb_false_r].
Qed.

(** The accumulated state once the all-or-nothing roles are taken out of the minimums. *)
Lemma merge_state_kept rules r :
  let kept := filter (fun kv : string * Z => kv.1 ∉ (merge_state rules).1.1) (merge_state rules).1.2 in
  (r ∈ (merge_state rules).1.1 ∪ dom kept <->
     asked_in_full rules r \/ exists n, declared_minimum rules r n) /\
  (asked_in_full rules r -> kept !! r = None) /\
  (~ asked_in_full rules r -> largest (declared_minimum rules r) (kept !! r)).
Proof.
  intros kept. rewrite elem_of_union, elem_of_dom, <-merge_state_allOrNothing.
  pose proof (merge_state_minimum rules r) as Hmin. fold kept.
  destruct (decide (r ∈ (merge_state rules).1.1)) as [Hr|Hr].
  - assert (kept !! r = None) as Hk.
    { apply map_lookup_filter_None. right. intros n _. simpl. tauto. }
    rewrite Hk. tauto.
  - assert (kept !! r = (merge_state rules).1.2 !! r) as ->.
    { unfold kept. destruct (_ !! r) as [n|] eqn:Hn.
      - by apply map_lookup_filter_Some.
      - apply map_lookup_filter_None. by left. }
    split; [|tauto]. destruct ((merge_state rules).1.2 !! r) as [n|]; simpl in Hmin.
    + destruct Hmin as [Hn _]. split; eauto.
    + split; [intros [?|[n Hn]]; done|intros [?|[n Hn]]; [tauto|by destruct (Hmin n)]].
Qed.

Lemma merge_state_no_gang rules :
  (merge_state rules).2 = false <-> forall rule, rule ∈ rules -> rule_Gang rule = None.
Proof.
  rewrite merge_state_found. split.
  - intros H rule Hin. apply eq_None_not_Some. intros Hs.
    assert (existsb (fun rule => bool_decide (is_Some (rule_Gang rule))) rules = true); [|congruence].
    apply List.existsb_exists. exists rule. rewrite <-list_elem_of_In. split; [done|by apply bool_decide_eq_true].
  - intros H. apply not_true_iff_false. intros (rule & Hin & Hb)%List.existsb_exists.
    apply list_elem_of_In in Hin. apply bool_decide_eq_true in Hb. rewrite (H rule Hin) in Hb. by destruct Hb.
Qed.

(** * Minimums per role *)

Lemma GangMinimum_fold s roles acc r :
  r ∉ map role_Name roles -> fold_left (GangMinimum_step s) roles acc !! r = acc !! r.
Proof.
  revert acc. induction roles as [|x roles IH]; intros acc Hr; simpl; [done|].
  simpl in Hr. rewrite IH by set_solver. unfold GangMinimum_step.
  destruct (RoleInGang _ _); [|done].
  destruct (gs_MinReplicas s !! _); rewrite lookup_insert_ne; set_solver.
Qed.

Lemma GangMinimum_lookup s roles acc x :
  NoDup (map role_Name roles) -> x ∈ roles -> acc !! role_Name x = None ->
  fold_left (GangMinimum_step s) roles acc !! role_Name x
  = if RoleInGang (Some x) (Some s)
    then Some (default (default 1 (role_Replicas x)) (gs_MinReplicas s !! role_Name x)) else None.
Proof.
  revert acc. induction roles as [|y roles IH]; intros acc Hnd Hx Hacc; [set_solver|].
  cbn [map fold_left] in *. apply NoDup_cons in Hnd as [Hy Hnd]. apply elem_of_cons in Hx as [->|Hx].
  - rewrite GangMinimum_fold by done. unfold GangMinimum_step.
    destruct (RoleInGang _ _); [|done]. by destruct (gs_MinReplicas s !! _); rewrite lookup_insert_eq.
  - apply IH; [done..|]. unfold GangMinimum_step.
    assert (role_Name y <> role_Name x) by (intros He; apply Hy; rewrite He; apply list_elem_of_fmap; eauto).
    destruct (RoleInGang (Some y) _); [|done].
    by destruct (gs_MinReplicas s !! role_Name y); rewrite lookup_insert_ne.
Qed.

(** * Properties *)

(** MergeGangStrategies returns no gang exactly when no rule declares one.
    Otherwise the merged gang covers exactly the roles some rule asks in full or
    gives a minimum within its own scope, is never empty (which would mean every
    role), asks a role in full when any rule does, and otherwise for the largest
    minimum declared for it; it is an error exactly when that leaves no role. *)
Theorem MergeGangStrategies_spec (p : CoordinatedPolicy) :
  let covered r := asked_in_full (cp_Policies p) r \/ exists n, declared_minimum (cp_Policies p) r n in
  match MergeGangStrategies p with
  | Ok None => forall rule, rule ∈ cp_Policies p -> rule_Gang rule = None
  | Ok (Some s) =>
      (forall r, r ∈ gs_Roles s <-> covered r) /\ gs_Roles s <> ∅ /\
      (forall r, asked_in_full (cp_Policies p) r -> gs_MinReplicas s !! r = None) /\
      (forall r, ~ asked_in_full (cp_Policies p) r ->
         largest (declared_minimum (cp_Policies p) r) (gs_MinReplicas s !! r))
  | Err _ => (exists rule, rule ∈ cp_Policies p /\ rule_Gang rule <> None) /\ forall r, ~ covered r
  end.
Proof.
  intros covered. unfold MergeGangStrategies. fold (merge_state (cp_Policies p)).
  pose proof (merge_state_no_gang (cp_Policies p)) as Hfound.
  pose proof (merge_state_kept (cp_Policies p)) as Hkept.
  destruct (merge_state (cp_Policies p)) as [[aon merged] found]. simpl in *.
  destruct found; simpl; [|by apply Hfound].
  case_bool_decide as Hempty; [case_bool_decide as Haon|]; simpl.
  - rewrite Hempty, dom_empty_L, union_empty_r_L in Hkept.
    repeat split; try apply Hkept; try done.
  - rewrite Hempty, dom_empty_L, union_empty_r_L in Hkept.
    assert (aon = ∅) as -> by (destruct (decide (aon = ∅)); tauto). split.
    + destruct (decide (Exists (fun rule => rule_Gang rule <> None) (cp_Policies p))) as [He|He].
      * apply Exists_exists in He as (rule & ? & ?). eauto.
      * exfalso. assert (true = false); [|done]. apply Hfound. intros rule Hin.
        destruct (rule_Gang rule) eqn:E; [|done]. destruct He. apply Exists_exists.
        exists rule. by rewrite E.
    + intros r Hr. apply Hkept in Hr. set_solver.
  - repeat split; try apply Hkept.
    intros He. apply Hempty. apply map_empty. intros r. apply not_elem_of_dom.
    intros Hr. assert (r ∈ (∅ : gset string)); [|set_solver]. rewrite <-He. set_solver.
Qed.

(** GangMinimumReplicas gives each gang role its declared minimum, a role of
    the gang without one its own replica count (1 when unset), and no entry to any
    other role of the group. *)
Theorem GangMinimumReplicas_lookup (g : RoleBasedGroup) (s : GangStrategy) (r : RoleSpec) :
  NoDup (map role_Name (rbg_Roles g)) -> r ∈ rbg_Roles g ->
  GangMinimumReplicas g (Some s) !! role_Name r
  = if bool_decide (gs_Roles s = ∅ \/ role_Name r ∈ gs_Roles s)
    then Some (default (default 1 (role_Replicas r)) (gs_MinReplicas s !! role_Name r)) else None.
Proof.
  intros Hnd Hr. unfold GangMinimumReplicas. rewrite GangMinimum_lookup; [|done..].
  simpl. by rewrite <-bool_decide_or.
Qed.

Lemma GangMinimumReplicas_lookup_witness :
  let r := {| role_Name := "prefill"; role_Labels := ∅; role_Annotations := ∅; role_Replicas := Some 4;
              role_RollingUpdate := None; role_Dependencies := [];
              role_Pattern := standalone no_template;
              role_ScalingAdapter := None; role_MinReadySeconds := 0; role_rest := no_rest |} in
  let g := {| rbg_meta := empty_meta; rbg_Roles := [r]; rbg_RoleTemplates := []; rbg_Conditions := []; rbg_ObservedGeneration := 0; rbg_RoleStatuses := [] |} in
  let s := {| gs_Roles := {["prefill"]}; gs_MinReplicas := {["prefill" := 2]} |} in
  GangMinimumReplicas g (Some s) !! role_Name r
  = if bool_decide (gs_Roles s = ∅ \/ role_Name r ∈ gs_Roles s)
    then Some (default (default 1 (role_Replicas r)) (gs_MinReplicas s !! role_Name r)) else None.
Proof.
  intros r g s. apply GangMinimumReplicas_lookup.
  - apply (bool_decide_unpack (NoDup _)). by vm_compute.
  - by apply list_elem_of_singleton.
Defined.
