(* ===== verification/Dependency.v ===== *)
(** Role ordering (pkg/dependency/dependency.go): the depth-first topological
    sort of the role dependencies, the levels [SortRoles] hands to the group
    controller, and the readiness check of a role's dependencies.

    [visit] runs on fuel; [visit_spec] shows that one more than the number of
    roles not started is enough, and [dependencyOrder] starts with that much. *)
From Stdlib Require Import ZArith Lia Bool String.
From stdpp Require Import base tactics list strings gmap sets fin_maps relations.
From S2P Require Import Prelude IntOrString GroupTypes.

Abbreviation graph := (gmap string (list string)).
(** The [order] field of every [roleWithOrder]: [-2] not started, [-1] in
    progress, otherwise computed. *)
Abbreviation orders := (gmap string Z).

Section visit.
Context (dependencies : graph).

(** The loop over the dependencies of one role, [visit] being the closure. *)
Fixpoint visit_deps (visit : orders -> string -> option (result (Z * orders)))
    (st : orders) (deps : list string) (maxOrder : Z) : option (result (Z * orders)) :=
  match deps with
  | [] => Some (Ok (maxOrder, st))
  | dep :: deps' =>
      match st !! dep with
      | None => Some (Err "dependency not found")
      | Some _ =>
          match visit st dep with
          | None => None
          | Some (Err e) => Some (Err e)
          | Some (Ok (order, st')) => visit_deps visit st' deps' (Z.max maxOrder (order + 1))
          end
      end
  end.

(** [None] is running out of fuel. *)
Fixpoint visit (fuel : nat) (st : orders) (role : string) : option (result (Z * orders)) :=
  match fuel with
  | O => None
  | S fuel' =>
      let order := default (-2) (st !! role) in
      if 0 <=? order then Some (Ok (order, st))
      else if order =? -1 then Some (Err "cycle detected")
      else
        match visit_deps (visit fuel') (<[role := -1]> st) (default [] (dependencies !! role)) 0 with
        | Some (Ok (maxOrder, st')) => Some (Ok (maxOrder, <[role := maxOrder]> st'))
        | r => r
        end
  end.

(** The loop over all roles. *)
Fixpoint visit_all (fuel : nat) (st : orders) (names : list string) : option (result orders) :=
  match names with
  | [] => Some (Ok st)
  | n :: names' =>
      if default (-2) (st !! n) =? -2 then
        match visit fuel st n with
        | None => None
        | Some (Err e) => Some (Err e)
        | Some (Ok (_, st')) => visit_all fuel st' names'
        end
      else visit_all fuel st names'
  end.
End visit.

Definition order_of (st : orders) (n : string) : Z := default (-2) (st !! n).

(** [order[roleWithOrder.order] = append(..)] over the sorted names. *)
Definition bucket (st : orders) (maxOrder : Z) (names : list string) : list (list string) :=
  fold_left (fun order n => alter (fun l => l ++ [n]) (Z.to_nat (order_of st n)) order)
    names (replicate (Z.to_nat (maxOrder + 1)) []).

Section order.
Context `{SortSlice}.

Definition sorted_keys (dependencies : graph) : list string :=
  sort_slice String.ltb (map fst (map_to_list dependencies)).

Definition dependencyOrder (dependencies : graph) : option (result (list (list string))) :=
  let keys := sorted_keys dependencies in
  let st := list_to_map (map (fun k => (k, -2)) keys) in
  match visit_all dependencies (S (length keys)) st keys with
  | None => None
  | Some (Err e) => Some (Err e)
  | Some (Ok st') =>
      let maxOrder := fold_left (fun m n => Z.max m (order_of st' n)) keys 0 in
      Some (Ok (bucket st' maxOrder keys))
  end.

(** [roleDependency], or the error of a dependency that names no role. *)
Fixpoint roleDependency (names : list string) (roles : list RoleSpec) (acc : graph) : result graph :=
  match roles with
  | [] => Ok acc
  | r :: roles' =>
      if forallb (ContainsString names) (role_Dependencies r)
      then roleDependency names roles' (<[role_Name r := role_Dependencies r]> acc)
      else Err "dependency role not found in rbg"
  end.

Definition roles_of_level (roles : list RoleSpec) (names : list string) : list RoleSpec :=
  omap (fun n => List.find (fun r => bool_decide (role_Name r = n)) roles) names.

Definition SortRoles (g : RoleBasedGroup) : option (result (list (list RoleSpec))) :=
  match rbg_Roles g with
  | [] => Some (Ok [])
  | _ =>
      match roleDependency (map role_Name (rbg_Roles g)) (rbg_Roles g) ∅ with
      | Err e => Some (Err e)
      | Ok deps =>
          match dependencyOrder deps with
          | None => None
          | Some (Err _) => Some (Err "failed to sort roles by dependency order")
          | Some (Ok roleOrder) => Some (Ok (map (roles_of_level (rbg_Roles g)) roleOrder))
          end
      end
  end.
End order.

(** [CheckWorkloadReady] of the workload reconciler a role selects. *)
Section ready.
Context (CheckWorkloadReady : RoleSpec -> result bool).

Fixpoint CheckDependencyReady (g : RoleBasedGroup) (deps : list string) : result bool :=
  match deps with
  | [] => Ok true
  | dep :: deps' =>
      depRole ← GetRole dep g;
      ready ← CheckWorkloadReady depRole;
      if negb ready then Ok false else CheckDependencyReady g deps'
  end.

Lemma CheckDependencyReady_spec g deps :
  CheckDependencyReady g deps = Ok true <->
  Forall (fun d => exists r, GetRole d g = Ok r /\ CheckWorkloadReady r = Ok true) deps.
Proof.
  induction deps as [|d deps IH]; simpl; [by split|].
  rewrite Forall_cons, <-IH. destruct (GetRole d g) as [r|e]; simpl.
  - destruct (CheckWorkloadReady r) as [[]|e] eqn:E; simpl; [naive_solver|..];
      (split; [done|]); intros [(r' & [= <-] & ?) _]; congruence.
  - split; [done|]. by intros [(r & ? & _) _].
Qed.
End ready.

(** * The search computes a topological order *)

Section correctness.
Context (deps : graph).

Definition edge (a b : string) : Prop := b ∈ default [] (deps !! a).

(** Every computed order is one more than the largest order it depends on. *)
Definition ordered (st : orders) (n : string) (o : Z) : Prop :=
  (forall d, edge n d -> exists od, st !! d = Some od /\ 0 <= od < o) /\
  (o = 0 \/ exists d, edge n d /\ st !! d = Some (o - 1)).

Definition order_inv (st : orders) : Prop :=
  forall n o, st !! n = Some o -> -2 <= o /\ (0 <= o -> ordered st n o).

(** A visit only turns [-2] into computed orders. *)
Definition extends (st st' : orders) : Prop :=
  forall k, st' !! k = st !! k \/
            (st !! k = Some (-2) /\ exists o, 0 <= o /\ st' !! k = Some o).

Definition not_started (st : orders) : nat :=
  size (filter (fun kv : string * Z => kv.2 = -2) st).

Definition cyclic : Prop := exists x, tc edge x x.
Definition dangling (st : orders) : Prop := exists a d, edge a d /\ st !! d = None.

Lemma extends_refl st : extends st st.
Proof. by left. Qed.

Lemma extends_trans st1 st2 st3 : extends st1 st2 -> extends st2 st3 -> extends st1 st3.
Proof.
  intros H1 H2 k. destruct (H2 k) as [->|(H & o & Ho & ->)]; [apply H1|].
  destruct (H1 k) as [Hk|(_ & o' & Ho' & Hk)]; [|rewrite H in Hk; injection Hk; lia].
  right. rewrite <-Hk. eauto.
Qed.

Lemma extends_None st st' k : extends st st' -> st' !! k = None <-> st !! k = None.
Proof. intros H. destruct (H k) as [->|(-> & o & _ & ->)]; done. Qed.

Lemma extends_computed st st' k o :
  extends st st' -> st !! k = Some o -> o <> -2 -> st' !! k = Some o.
Proof. intros H Hk Ho. destruct (H k) as [->|(Hk' & _)]; [done|congruence]. Qed.

Lemma extends_back st st' k o :
  extends st st' -> st' !! k = Some o -> o < 0 -> st !! k = Some o.
Proof. intros H Hk Ho. destruct (H k) as [<-|(_ & o' & Ho' & Hk')]; [done|]. rewrite Hk in Hk'. injection Hk'. lia. Qed.

Lemma not_started_extends st st' : extends st st' -> (not_started st' <= not_started st)%nat.
Proof.
  intros H. apply map_subseteq_size, map_subseteq_spec. intros k o.
  rewrite !map_lookup_filter_Some. simpl. intros [Hk ->].
  split; [|done]. eapply extends_back; [done..|lia].
Qed.

Lemma not_started_start st n :
  st !! n = Some (-2) -> (not_started (<[n := (-1)%Z]> st) < not_started st)%nat.
Proof.
  intros Hn. unfold not_started. apply map_subset_size. split.
  - apply map_subseteq_spec. intros k o. rewrite !map_lookup_filter_Some. simpl.
    intros [Hk ->]. split; [|done]. rewrite lookup_insert_Some in Hk. destruct Hk as [[_ [=]]|[_ ?]]; done.
  - intros Hsub. rewrite map_subseteq_spec in Hsub.
    specialize (Hsub n (-2)%Z). rewrite !map_lookup_filter_Some in Hsub. simpl in Hsub.
    destruct Hsub as [Hk _]; [done|]. by rewrite lookup_insert_eq in Hk.
Qed.

Definition visit_post (st : orders) (name : string) (r : result (Z * orders)) : Prop :=
  match r with
  | Ok (o, st') => 0 <= o /\ st' !! name = Some o /\ extends st st' /\ order_inv st'
  | Err _ => cyclic \/ dangling st
  end.

Definition visit_pre (st : orders) (name : string) : Prop :=
  is_Some (st !! name) /\ order_inv st /\ (forall g, st !! g = Some (-1) -> tc edge g name).

Lemma dangling_extends st st' : extends st st' -> dangling st' -> dangling st.
Proof. intros H (a & d & He & Hd). exists a, d. split; [done|]. by apply (extends_None st st' d H). Qed.

Lemma visit_deps_spec n V name ds st m :
  (forall st1 d, visit_pre st1 d -> (not_started st1 < n)%nat ->
     exists r, V st1 d = Some r /\ visit_post st1 d r) ->
  order_inv st -> (forall g, st !! g = Some (-1) -> g = name \/ tc edge g name) ->
  (not_started st < n)%nat -> (forall d, d ∈ ds -> edge name d) -> 0 <= m ->
  exists r, visit_deps V st ds m = Some r /\
    match r with
    | Ok (m', st') =>
        m <= m' /\ extends st st' /\ order_inv st' /\
        (forall d, d ∈ ds -> exists od, st' !! d = Some od /\ 0 <= od < m') /\
        (m' = m \/ exists d, d ∈ ds /\ st' !! d = Some (m' - 1))
    | Err _ => cyclic \/ dangling st
    end.
Proof.
  intros HV. revert st m. induction ds as [|d ds IH]; intros st m Hinv Hpath Hn Hds Hm; simpl.
  { exists (Ok (m, st)). split; [done|]. split; [lia|]. split; [apply extends_refl|].
    split; [done|]. split; [set_solver|by left]. }
  destruct (st !! d) as [od|] eqn:Hd.
  2:{ eexists; split; [done|]. right. exists name, d. split; [apply Hds; set_solver|done]. }
  assert (edge name d) as Hed by (apply Hds; set_solver).
  destruct (HV st d) as ([[o st1]|e] & -> & Hpost); [|done|..|eauto].
  { split; [by rewrite Hd|]. split; [done|].
    intros g [->|Hg]%Hpath; [by apply tc_once|by eapply tc_r]. }
  destruct Hpost as (Ho & Hod & Hext & Hinv1).
  destruct (IH st1 (Z.max m (o + 1))) as ([[m' st2]|e] & Heq & Hpost); [done|..].
  { intros g Hg. apply Hpath. eapply extends_back; [done..|lia]. }
  { pose proof (not_started_extends _ _ Hext). lia. }
  { set_solver. }
  { lia. }
  2:{ eexists; split; [done|]. destruct Hpost; [auto|]. right. by eapply dangling_extends. }
  rewrite Heq. eexists; split; [done|]. destruct Hpost as (Hm' & Hext2 & Hinv2 & Hall & Hex).
  assert (st2 !! d = Some o) as Hd2 by (eapply extends_computed; [done..|lia]).
  split; [lia|]. split; [by eapply extends_trans|]. split; [done|]. split.
  - intros x [->|Hx]%elem_of_cons; [exists o; split; [done|lia]|auto].
  - destruct Hex as [->|(x & Hx & Hx')]; [|right; exists x; set_solver].
    destruct (Z.max_spec m (o + 1)) as [[_ ->]|[_ ->]]; [|by left].
    right. exists d. split; [set_solver|]. rewrite Hd2. f_equal. lia.
Qed.

Lemma ordered_keep (st st' : orders) n o :
  (forall d od, st !! d = Some od -> 0 <= od -> st' !! d = Some od) ->
  ordered st n o -> ordered st' n o.
Proof.
  intros Hkeep [Hdep Hmax]. split.
  - intros d (od & Hd & Hod)%Hdep. exists od. split; [apply Hkeep; [done|lia]|done].
  - destruct Hmax as [?|(d & Hd & Hod)]; [by left|]. right. exists d. split; [done|].
    destruct (Hdep d Hd) as (od & Hd' & Hod'). rewrite Hod in Hd'. injection Hd' as ?.
    apply Hkeep; [done|lia].
Qed.

Lemma insert_keep (st : orders) name o' d od :
  (exists o, st !! name = Some o /\ o < 0) -> st !! d = Some od -> 0 <= od ->
  <[name := o']> st !! d = Some od.
Proof.
  intros (o & Ho & Hneg) Hd Hod. rewrite lookup_insert_ne; [done|].
  intros <-. rewrite Ho in Hd. injection Hd. lia.
Qed.

(** Marking a role in progress, or recording the order of the role in progress. *)
Lemma order_inv_insert st name o :
  order_inv st -> (exists o', st !! name = Some o' /\ o' < 0) ->
  -2 <= o -> (0 <= o -> ordered st name o) -> order_inv (<[name := o]> st).
Proof.
  intros Hinv Hname Hge Hord n on Hn.
  assert (-2 <= on /\ (0 <= on -> ordered st n on)) as [Hr Ho].
  { apply lookup_insert_Some in Hn as [[<- <-]|[Hne Hn]]; [done|by apply Hinv]. }
  split; [done|]. intros H0. eapply ordered_keep; [|by apply Ho]. eauto using insert_keep.
Qed.

Lemma visit_spec fuel st name :
  visit_pre st name -> (not_started st < fuel)%nat ->
  exists r, visit deps fuel st name = Some r /\ visit_post st name r.
Proof.
  revert st name. induction fuel as [|fuel IH]; intros st name (Hin & Hinv & Hpath) Hfuel; [lia|].
  destruct Hin as [o Ho]. destruct (Hinv name o Ho) as [Hge _]. simpl. rewrite Ho. simpl.
  destruct (0 <=? o) eqn:E1; breflect.
  { eexists; split; [done|]. split; [done|]. split; [done|]. split; [apply extends_refl|done]. }
  destruct (o =? -1) eqn:E2; breflect.
  { eexists; split; [done|]. left. exists name. apply Hpath. by subst. }
  assert (o = -2) as -> by lia.
  destruct (visit_deps_spec (not_started st) (visit deps fuel) name (default [] (deps !! name))
              (<[name := -1]> st) 0) as (r & -> & Hr).
  - intros st1 d Hpre Hlt. apply IH; [done|lia].
  - apply order_inv_insert; [done|eauto with lia|lia|lia].
  - intros g [[-> _]|[_ Hg]]%lookup_insert_Some; [by left|right; auto].
  - by apply not_started_start.
  - done.
  - lia.
  - destruct r as [[m' st']|e].
    2:{ eexists; split; [done|]. destruct Hr as [?|(a & d & He & Hd)]; [by left|].
        right. exists a, d. split; [done|]. by apply lookup_insert_None in Hd as [? _]. }
    destruct Hr as (Hm & Hext & Hinv' & Hall & Hex).
    eexists; split; [done|]. split; [done|]. split; [apply lookup_insert_eq|]. split.
    + intros k. destruct (decide (name = k)) as [<-|Hne].
      * rewrite lookup_insert_eq. right. eauto.
      * rewrite lookup_insert_ne by done. specialize (Hext k).
        by rewrite lookup_insert_ne in Hext by done.
    + assert (st' !! name = Some (-1)) as Hname.
      { eapply extends_computed; [done|apply lookup_insert_eq|lia]. }
      apply order_inv_insert; [done|eauto with lia|lia|]. intros _. split; [apply Hall|].
      destruct Hex as [?|(d & Hd & Hd')]; [by left|right; eauto].
Qed.

Lemma visit_all_spec fuel names st :
  order_inv st -> (forall n, n ∈ names -> is_Some (st !! n)) ->
  (forall g, st !! g <> Some (-1)) -> (not_started st < fuel)%nat ->
  exists r, visit_all deps fuel st names = Some r /\
    match r with
    | Ok st' => order_inv st' /\ extends st st' /\
                (forall n, n ∈ names -> exists o, 0 <= o /\ st' !! n = Some o)
    | Err _ => cyclic \/ dangling st
    end.
Proof.
  revert st. induction names as [|n names IH]; intros st Hinv Hin Hno Hfuel; simpl.
  { eexists; split; [done|]. split; [done|]. split; [apply extends_refl|set_solver]. }
  destruct (Hin n) as [o Ho]; [set_solver|]. rewrite Ho. simpl. destruct (Hinv n o Ho) as [Hge Hord].
  destruct (o =? -2) eqn:E; breflect.
  - destruct (visit_spec fuel st n) as ([[on st1]|e] & -> & Hpost); [|done|..|eauto].
    { split; [eauto|]. split; [done|]. intros g Hg. by apply Hno in Hg. }
    destruct Hpost as (Hon & Hn & Hext & Hinv1).
    destruct (IH st1) as (r & -> & Hr); [done|..].
    + intros x Hx. destruct (st1 !! x) as [ox|] eqn:Ex; [done|].
      apply (extends_None st st1) in Ex; [|done]. destruct (Hin x) as [? ?]; [set_solver|congruence].
    + intros g Hg. apply (Hno g). eapply extends_back; [done..|lia].
    + pose proof (not_started_extends _ _ Hext). lia.
    + eexists; split; [done|]. destruct r as [st2|e].
      * destruct Hr as (Hinv2 & Hext2 & Hall). split; [done|]. split; [by eapply extends_trans|].
        intros x [->|Hx]%elem_of_cons; [|auto]. exists on. split; [done|].
        eapply extends_computed; [done..|lia].
      * destruct Hr; [auto|]. right. by eapply dangling_extends.
  - destruct (IH st) as (r & -> & Hr); [set_solver..|]. eexists; split; [done|].
    destruct r as [st2|e]; [|done]. destruct Hr as (Hinv2 & Hext2 & Hall).
    split; [done|]. split; [done|]. intros x [->|Hx]%elem_of_cons; [|auto].
    assert (o <> -1) by (intros ->; by apply (Hno n)).
    exists o. split; [lia|]. eapply extends_computed; [done..|lia].
Qed.

(** * Levels *)

Definition at_level (levels : list (list string)) (i : nat) (n : string) : Prop :=
  exists names, levels !! i = Some names /\ n ∈ names.

(** A role stands directly above the highest level it depends on. *)
Definition layered (levels : list (list string)) : Prop :=
  forall i n, at_level levels i n ->
    (forall d, edge n d -> exists j, (j < i)%nat /\ at_level levels j d) /\
    (i = O \/ exists d, edge n d /\ at_level levels (pred i) d).

Lemma fold_alter_lookup (f : string -> nat) names (acc : list (list string)) i :
  fold_left (fun order n => alter (fun l => l ++ [n]) (f n) order) names acc !! i
  = (fun l => l ++ List.filter (fun n => bool_decide (f n = i)) names) <$> acc !! i.
Proof.
  revert acc. induction names as [|n names IH]; intros acc; simpl.
  { by destruct (acc !! i); simpl; rewrite ?app_nil_r. }
  rewrite IH. case_bool_decide as E.
  - subst i. rewrite list_lookup_alter_eq. destruct (acc !! f n); simpl; [|done]. by rewrite <-app_assoc.
  - by rewrite list_lookup_alter_ne.
Qed.

Lemma bucket_at_level st m names i n :
  0 <= m -> (forall x, x ∈ names -> 0 <= order_of st x <= m) ->
  at_level (bucket st m names) i n <-> n ∈ names /\ order_of st n = Z.of_nat i.
Proof.
  intros Hm Hr. unfold at_level, bucket. rewrite fold_alter_lookup. split.
  - intros (l & Hl & Hn). apply fmap_Some in Hl as (l0 & Hl0 & ->).
    apply lookup_replicate in Hl0 as [-> _]. simpl in Hn.
    apply list_elem_of_In, List.filter_In in Hn as [Hn Hb]. apply list_elem_of_In in Hn. breflect.
    specialize (Hr n Hn). split; [done|lia].
  - intros [Hn Ho]. exists (List.filter (fun n => bool_decide (Z.to_nat (order_of st n) = i)) names).
    specialize (Hr n Hn). split.
    + rewrite lookup_replicate_2 by lia. done.
    + apply list_elem_of_In, List.filter_In. split; [by apply list_elem_of_In|].
      apply bool_decide_eq_true. lia.
Qed.

Lemma concat_alter_snoc (order : list (list string)) i n :
  (i < length order)%nat -> concat (alter (fun l => l ++ [n]) i order) ≡ₚ n :: concat order.
Proof.
  revert i. induction order as [|l order IH]; intros [|i]; simpl; intros Hi; [lia..| |].
  - rewrite <-app_assoc. simpl. by rewrite Permutation_middle.
  - change (l ++ concat (alter (fun l => l ++ [n]) i order) ≡ₚ n :: l ++ concat order).
    rewrite IH by lia. by rewrite Permutation_middle.
Qed.

Lemma concat_fold_alter (f : string -> nat) names (acc : list (list string)) :
  (forall n, n ∈ names -> (f n < length acc)%nat) ->
  concat (fold_left (fun order n => alter (fun l => l ++ [n]) (f n) order) names acc)
  ≡ₚ names ++ concat acc.
Proof.
  revert acc. induction names as [|n names IH]; intros acc Hr; simpl; [done|].
  rewrite IH.
  - rewrite concat_alter_snoc by (apply Hr; set_solver). by rewrite Permutation_middle.
  - intros x Hx. rewrite length_alter. apply Hr. set_solver.
Qed.

Lemma concat_replicate_nil k : concat (replicate k ([] : list string)) = [].
Proof. by induction k. Qed.

Lemma bucket_concat st m names :
  0 <= m -> (forall x, x ∈ names -> 0 <= order_of st x <= m) ->
  concat (bucket st m names) ≡ₚ names.
Proof.
  intros Hm Hr. unfold bucket. rewrite concat_fold_alter, concat_replicate_nil, app_nil_r; [done|].
  intros n Hn. rewrite length_replicate. specialize (Hr n Hn). lia.
Qed.

Lemma fold_max_spec (f : string -> Z) names acc :
  acc <= fold_left (fun m n => Z.max m (f n)) names acc /\
  (forall x, x ∈ names -> f x <= fold_left (fun m n => Z.max m (f n)) names acc).
Proof.
  revert acc. induction names as [|n names IH]; intros acc; simpl; [split; [lia|set_solver]|].
  destruct (IH (Z.max acc (f n))) as [H1 H2]. split; [lia|].
  intros x [->|Hx]%elem_of_cons; [lia|auto].
Qed.

Context `{SortSlice}.

Lemma sorted_keys_spec n : n ∈ sorted_keys deps <-> is_Some (deps !! n).
Proof.
  unfold sorted_keys. rewrite sort_slice_perm, list_elem_of_fmap. split.
  - intros ([k v] & -> & Hk%elem_of_map_to_list). eauto.
  - intros [v Hv]. exists (n, v). by rewrite elem_of_map_to_list.
Qed.

Lemma sorted_keys_NoDup : NoDup (sorted_keys deps).
Proof. unfold sorted_keys. rewrite sort_slice_perm. apply NoDup_fst_map_to_list. Qed.

Definition initial : orders := list_to_map (map (fun k => (k, -2)) (sorted_keys deps)).

Lemma initial_lookup n : initial !! n = if decide (is_Some (deps !! n)) then Some (-2) else None.
Proof.
  unfold initial. pose proof sorted_keys_NoDup as Hnd.
  assert ((map (fun k => (k, -2)) (sorted_keys deps)).*1 = sorted_keys deps) as Hfst.
  { rewrite <-list_fmap_compose. apply list_fmap_id. }
  destruct (decide _) as [Hin|Hin].
  - apply elem_of_list_to_map_1; [by rewrite Hfst|].
    apply list_elem_of_fmap. exists n. split; [done|by apply sorted_keys_spec].
  - apply not_elem_of_list_to_map_1. by rewrite Hfst, sorted_keys_spec.
Qed.

Definition unknown_dependency : Prop := exists a d, edge a d /\ deps !! d = None.

Lemma dangling_initial : dangling initial -> unknown_dependency.
Proof.
  intros (a & d & He & Hd). exists a, d. split; [done|].
  rewrite initial_lookup in Hd. destruct (decide _) as [?|Hn]; [done|]. by apply eq_None_not_Some.
Qed.

Lemma dependencyOrder_spec :
  exists r, dependencyOrder deps = Some r /\
    match r with
    | Ok levels => concat levels ≡ₚ sorted_keys deps /\ layered levels
    | Err _ => cyclic \/ unknown_dependency
    end.
Proof.
  unfold dependencyOrder. fold initial.
  destruct (visit_all_spec (S (length (sorted_keys deps))) (sorted_keys deps) initial)
    as (r & -> & Hr).
  - intros n o Hn. rewrite initial_lookup in Hn. destruct (decide _); [|done].
    injection Hn as <-. split; [lia|lia].
  - intros n Hn%sorted_keys_spec. rewrite initial_lookup. by rewrite decide_True.
  - intros g. rewrite initial_lookup. by destruct (decide _).
  - unfold not_started. pose proof (map_subseteq_size _ _ (map_filter_subseteq (fun kv : string * Z => kv.2 = -2) initial)) as Hsz.
    assert (size initial <= length (sorted_keys deps))%nat; [|lia].
    unfold initial. rewrite <-size_dom, dom_list_to_map_L.
    rewrite <-list_fmap_compose. change (fst ∘ (fun k : string => (k, -2))) with (fun k : string => k).
    rewrite list_fmap_id, size_list_to_set by apply sorted_keys_NoDup. done.
  - destruct r as [st|e]; eexists; (split; [done|]).
    2:{ destruct Hr as [?|?%dangling_initial]; auto. }
    destruct Hr as (Hinv & Hext & Hall).
    set (m := fold_left _ _ _). destruct (fold_max_spec (order_of st) (sorted_keys deps) 0) as [Hm Hle].
    fold m in Hm, Hle.
    assert (forall x, x ∈ sorted_keys deps -> 0 <= order_of st x <= m) as Hr.
    { intros x Hx. split; [|auto]. destruct (Hall x Hx) as (o & Ho & Hx'). unfold order_of. by rewrite Hx'. }
    split; [by apply bucket_concat|].
    assert (forall i n, at_level (bucket st m (sorted_keys deps)) i n <-> st !! n = Some (Z.of_nat i)) as Hat.
    { intros i n. rewrite bucket_at_level by done. unfold order_of. split.
      - intros [Hn Ho]. destruct (Hall n Hn) as (o & _ & Hno). rewrite Hno in Ho |- *. by rewrite <-Ho.
      - intros Hn. rewrite Hn. split; [|done]. apply sorted_keys_spec.
        destruct (deps !! n) as [|] eqn:E; [eauto|exfalso].
        assert (initial !! n = None) as Hi.
        { rewrite initial_lookup, decide_False; [done|]. rewrite E. by intros [? ?]. }
        apply (extends_None _ _ n Hext) in Hi. congruence. }
    intros i n Hn%Hat. destruct (Hinv n _ Hn) as [_ Hord]. destruct Hord as [Hdep Hmax]; [lia|].
    split.
    + intros d (od & Hd & Hod)%Hdep. exists (Z.to_nat od). split; [lia|].
      apply Hat. rewrite Hd. f_equal. lia.
    + destruct Hmax as [?|(d & Hd & Hod)]; [left; lia|].
      destruct (Hdep d Hd) as (od & Hd' & ?). rewrite Hod in Hd'. injection Hd' as <-.
      right. exists d. split; [done|]. apply Hat. rewrite Hod. f_equal. lia.
Qed.

Lemma layered_acyclic levels :
  concat levels ≡ₚ sorted_keys deps -> layered levels -> ~ cyclic.
Proof.
  intros Hperm Hlay [x Hx].
  assert (forall a, is_Some (deps !! a) -> exists i, at_level levels i a) as Hlev.
  { intros a Ha. apply sorted_keys_spec in Ha. rewrite <-Hperm in Ha.
    apply list_elem_of_In, List.in_concat in Ha as (l & Hl & Ha).
    apply list_elem_of_In, list_elem_of_lookup in Hl as [i Hi]. exists i, l.
    split; [done|by apply list_elem_of_In]. }
  assert (forall a b, tc edge a b -> forall i, at_level levels i a ->
            exists j, (j < i)%nat /\ at_level levels j b) as Hdown.
  { intros a b Hab. induction Hab as [a b Hab|a b c Hab _ IH]; intros i Hi.
    - by apply (Hlay i a).
    - destruct (Hlay i a Hi) as [Hd _]. destruct (Hd b Hab) as (j & Hj & Hb).
      destruct (IH j Hb) as (k & Hk & Hc). exists k. split; [lia|done]. }
  assert (forall i, ~ at_level levels i x) as Hno.
  { induction i as [i IH] using lt_wf_ind. intros Hi.
    destruct (Hdown x x Hx i Hi) as (j & Hj & Hxj). by apply (IH j). }
  assert (is_Some (deps !! x)) as Hin.
  { assert (exists y, edge x y) as [y Hy] by (inversion Hx; subst; eauto).
    unfold edge in Hy. destruct (deps !! x); [eauto|set_solver]. }
  destruct (Hlev x Hin) as [i Hi]. by apply (Hno i).
Qed.
End correctness.

(** * Roles *)

Section roles.
Context `{SortSlice}.

(** Role [a] of the group declares a dependency on [b]. *)
Definition depends (roles : list RoleSpec) (a b : string) : Prop :=
  exists r, r ∈ roles /\ role_Name r = a /\ b ∈ role_Dependencies r.

Definition role_names (roles : list RoleSpec) : list string := map role_Name roles.

Definition unknown_role (roles : list RoleSpec) : Prop :=
  exists a d, depends roles a d /\ d ∉ role_names roles.

Lemma role_name_inj roles r r' :
  NoDup (role_names roles) -> r ∈ roles -> r' ∈ roles -> role_Name r = role_Name r' -> r = r'.
Proof.
  intros Hnd Hr Hr' Heq. apply list_elem_of_lookup in Hr as [i Hi], Hr' as [j Hj].
  assert (i = j) as ->.
  { apply (NoDup_lookup (role_names roles) i j (role_Name r)); [done|..];
      unfold role_names; rewrite list_lookup_fmap; [by rewrite Hi|by rewrite Hj, Heq]. }
  congruence.
Qed.

Lemma find_role_eq roles r :
  NoDup (role_names roles) -> r ∈ roles ->
  List.find (fun x => bool_decide (role_Name x = role_Name r)) roles = Some r.
Proof.
  intros Hnd Hr. destruct (List.find _ roles) as [x|] eqn:E.
  - apply find_role_Some in E as [Hx Heq]. f_equal. by eapply role_name_inj.
  - apply find_role_None in E. destruct E. apply list_elem_of_fmap. eauto.
Qed.

Lemma roleDependency_spec names roles acc :
  match roleDependency names roles acc with
  | Ok g =>
      (forall r, r ∈ roles -> Forall (fun d => d ∈ names) (role_Dependencies r)) /\
      (NoDup (role_names roles) ->
       (forall r, r ∈ roles -> g !! role_Name r = Some (role_Dependencies r)) /\
       (forall n, n ∉ role_names roles -> g !! n = acc !! n))
  | Err _ => exists r d, r ∈ roles /\ d ∈ role_Dependencies r /\ d ∉ names
  end.
Proof.
  revert acc. induction roles as [|r roles IH]; intros acc; simpl; [set_solver|].
  destruct (forallb _ _) eqn:Hall.
  - specialize (IH (<[role_Name r := role_Dependencies r]> acc)).
    destruct (roleDependency names roles _) as [g|e].
    2:{ destruct IH as (x & d & Hx & Hd). exists x, d. set_solver. }
    destruct IH as [Hclosed Hlook]. split.
    + intros x [->|Hx]%elem_of_cons; [|auto]. apply List.Forall_forall. intros d Hd.
      rewrite List.forallb_forall in Hall. by apply ContainsString_spec, Hall.
    + intros [Hr Hnd]%NoDup_cons. destruct (Hlook Hnd) as [Hin Hout]. split.
      * intros x [->|Hx]%elem_of_cons; [|auto]. by rewrite (Hout _ Hr), lookup_insert_eq.
      * intros n Hn. apply not_elem_of_cons in Hn as [Hne Hn].
        by rewrite (Hout _ Hn), lookup_insert_ne.
  - assert (~ Forall (fun d => d ∈ names) (role_Dependencies r)) as Hn.
    { intros HF. rewrite List.Forall_forall in HF.
      assert (forallb (ContainsString names) (role_Dependencies r) = true) as Ht; [|congruence].
      apply List.forallb_forall. intros d Hd. by apply ContainsString_spec, HF. }
    apply not_Forall_Exists in Hn; [|apply _].
    apply Exists_exists in Hn as (d & Hd & Hdn). exists r, d. simpl in Hdn. set_solver.
Qed.

Section group.
Context (roles : list RoleSpec) (deps : graph).
Context (Hnodup : NoDup (role_names roles)).
Context (Hdeps : roleDependency (role_names roles) roles ∅ = Ok deps).

Lemma deps_lookup r : r ∈ roles -> deps !! role_Name r = Some (role_Dependencies r).
Proof. pose proof (roleDependency_spec (role_names roles) roles ∅) as Hs. rewrite Hdeps in Hs. by apply Hs. Qed.

Lemma deps_None n : n ∉ role_names roles -> deps !! n = None.
Proof.
  pose proof (roleDependency_spec (role_names roles) roles ∅) as Hs. rewrite Hdeps in Hs.
  intros Hn. by rewrite (proj2 (proj2 Hs Hnodup) n Hn).
Qed.

Lemma edge_depends a b : edge deps a b <-> depends roles a b.
Proof.
  unfold edge, depends. split.
  - intros Hb. destruct (decide (a ∈ role_names roles)) as [Ha|Ha].
    + apply list_elem_of_fmap in Ha as (r & -> & Hr). rewrite deps_lookup in Hb by done. by exists r.
    + rewrite deps_None in Hb by done. set_solver.
  - intros (r & Hr & <- & Hb). by rewrite deps_lookup.
Qed.

Lemma deps_closed : ~ unknown_role roles.
Proof.
  pose proof (roleDependency_spec (role_names roles) roles ∅) as Hs. rewrite Hdeps in Hs.
  destruct Hs as [Hc _]. intros (a & d & (r & Hr & <- & Hd) & Hn).
  specialize (Hc r Hr). rewrite Forall_forall in Hc. by apply Hn, Hc.
Qed.

Lemma sorted_keys_roles : sorted_keys deps ≡ₚ role_names roles.
Proof.
  apply NoDup_Permutation; [apply sorted_keys_NoDup|done|]. intros n. rewrite sorted_keys_spec. split.
  - intros [ds Hds]. destruct (decide (n ∈ role_names roles)) as [?|Hn]; [done|].
    rewrite deps_None in Hds by done. done.
  - intros (r & -> & Hr)%list_elem_of_fmap. rewrite deps_lookup by done. eauto.
Qed.

Lemma deps_cyclic : cyclic deps <-> exists x, tc (depends roles) x x.
Proof.
  unfold cyclic.
  assert (forall a b, tc (edge deps) a b <-> tc (depends roles) a b) as Htc.
  { intros a b. split; induction 1; [apply tc_once|eapply tc_l|apply tc_once|eapply tc_l]; try done; by apply edge_depends. }
  by setoid_rewrite Htc.
Qed.

Lemma omap_find_names names :
  (forall n, n ∈ names -> n ∈ role_names roles) ->
  map role_Name (roles_of_level roles names) = names.
Proof.
  unfold roles_of_level. induction names as [|n names IH]; intros Hin; simpl; [done|].
  assert (n ∈ role_names roles) as Hn by (apply Hin; set_solver).
  apply list_elem_of_fmap in Hn as (r & -> & Hr).
  rewrite find_role_eq by done. simpl. f_equal. apply IH. set_solver.
Qed.

Lemma roles_of_level_in names r :
  r ∈ roles_of_level roles names -> r ∈ roles /\ role_Name r ∈ names.
Proof.
  unfold roles_of_level. intros Hr. apply list_elem_of_omap in Hr as (n & Hn & Hf).
  apply find_role_Some in Hf as [Hin <-]. done.
Qed.

Lemma roles_of_level_names sub :
  (forall r, r ∈ sub -> r ∈ roles) -> roles_of_level roles (role_names sub) = sub.
Proof.
  unfold roles_of_level. induction sub as [|r sub IH]; intros Hin; simpl; [done|].
  rewrite find_role_eq by (done || apply Hin; set_solver). f_equal. apply IH. set_solver.
Qed.

Lemma levels_perm levels :
  concat levels ≡ₚ sorted_keys deps -> concat (map (roles_of_level roles) levels) ≡ₚ roles.
Proof.
  intros Hperm. rewrite sorted_keys_roles in Hperm.
  assert (concat (map (roles_of_level roles) levels) = roles_of_level roles (concat levels)) as ->.
  { unfold roles_of_level. clear Hperm. induction levels as [|l levels IH]; simpl; [done|]. by rewrite omap_app, IH. }
  unfold roles_of_level. rewrite Hperm. fold (roles_of_level roles (role_names roles)).
  by rewrite roles_of_level_names.
Qed.
End group.

Lemma SortRoles_cons g :
  rbg_Roles g <> [] ->
  SortRoles g =
    match roleDependency (role_names (rbg_Roles g)) (rbg_Roles g) ∅ with
    | Err e => Some (Err e)
    | Ok deps =>
        match dependencyOrder deps with
        | None => None
        | Some (Err _) => Some (Err "failed to sort roles by dependency order")
        | Some (Ok roleOrder) => Some (Ok (map (roles_of_level (rbg_Roles g)) roleOrder))
        end
    end.
Proof. unfold SortRoles. by destruct (rbg_Roles g). Qed.

(** What [SortRoles] decides, on distinct role names. *)
Lemma SortRoles_cases g :
  NoDup (role_names (rbg_Roles g)) ->
  let cyc := exists x, tc (depends (rbg_Roles g)) x x in
  (exists e, SortRoles g = Some (Err e) /\ (cyc \/ unknown_role (rbg_Roles g))) \/
  (exists names deps, SortRoles g = Some (Ok (map (roles_of_level (rbg_Roles g)) names)) /\
     ~ cyc /\ ~ unknown_role (rbg_Roles g) /\
     roleDependency (role_names (rbg_Roles g)) (rbg_Roles g) ∅ = Ok deps /\
     concat names ≡ₚ sorted_keys deps /\ layered deps names).
Proof.
  intros Hnd. simpl. destruct (decide (rbg_Roles g = [])) as [Hnil|Hne].
  { right. exists [], ∅. unfold SortRoles. rewrite Hnil. split; [done|].
    assert (forall a b, ~ depends [] a b) as Hno by (intros a b (r & Hr & _); set_solver).
    split. { intros [x Hx]. inversion Hx; by eapply Hno. }
    split. { intros (a & d & Hd & _). by eapply Hno. }
    split; [done|]. split; [|intros i n (l & Hl & _); done].
    symmetry. apply (sorted_keys_roles [] ∅); [constructor|done]. }
  rewrite SortRoles_cons by done.
  pose proof (roleDependency_spec (role_names (rbg_Roles g)) (rbg_Roles g) ∅) as Hspec.
  destruct (roleDependency _ _ _) as [deps|e] eqn:Hdeps.
  2:{ left. exists e. split; [done|]. right. destruct Hspec as (r & d & Hr & Hd & Hn).
      exists (role_Name r), d. split; [by exists r|done]. }
  pose proof (deps_closed _ _ Hdeps) as Hclosed.
  destruct (dependencyOrder_spec deps) as (r & -> & Hr). destruct r as [names|e].
  - destruct Hr as [Hperm Hlay]. right. exists names, deps. split; [done|].
    split; [|by split].
    rewrite <-(deps_cyclic _ _ Hnd Hdeps). by eapply layered_acyclic.
  - left. eexists. split; [done|]. destruct Hr as [Hc|(a & d & He & Hd)].
    + left. by apply (deps_cyclic _ _ Hnd Hdeps).
    + destruct Hclosed. exists a, d. split; [by eapply edge_depends|].
      intros Hin. apply list_elem_of_fmap in Hin as (r & -> & Hin).
      by rewrite (deps_lookup _ _ Hnd Hdeps r Hin) in Hd.
Qed.

(** The levels partition the group, and a role stands directly above the
    highest role it depends on. *)
Definition dependency_levels (roles : list RoleSpec) (levels : list (list RoleSpec)) : Prop :=
  concat levels ≡ₚ roles /\
  forall i level role, levels !! i = Some level -> role ∈ level ->
    (forall d, d ∈ role_Dependencies role ->
       exists j level' dep, (j < i)%nat /\ levels !! j = Some level' /\ dep ∈ level' /\ role_Name dep = d) /\
    (i = O \/ exists level' dep, levels !! (pred i) = Some level' /\ dep ∈ level' /\
                                role_Name dep ∈ role_Dependencies role).

Lemma at_level_role roles deps names i n :
  NoDup (role_names roles) -> roleDependency (role_names roles) roles ∅ = Ok deps ->
  concat names ≡ₚ sorted_keys deps -> at_level names i n ->
  exists level dep, map (roles_of_level roles) names !! i = Some level /\ dep ∈ level /\ role_Name dep = n.
Proof.
  intros Hnd Hdeps Hperm (l & Hl & Hn).
  assert (n ∈ role_names roles) as Hin.
  { rewrite <-(sorted_keys_roles _ _ Hnd Hdeps), <-Hperm. apply list_elem_of_In, List.in_concat.
    exists l. split; apply list_elem_of_In; [by eapply list_elem_of_lookup_2|done]. }
  apply list_elem_of_fmap in Hin as (r & -> & Hr).
  exists (roles_of_level roles l), r. split; [by rewrite list_lookup_fmap, Hl|]. split; [|done].
  apply list_elem_of_omap. exists (role_Name r). split; [done|by apply find_role_eq].
Qed.

Lemma levels_dependency roles deps names :
  NoDup (role_names roles) -> roleDependency (role_names roles) roles ∅ = Ok deps ->
  concat names ≡ₚ sorted_keys deps -> layered deps names ->
  dependency_levels roles (map (roles_of_level roles) names).
Proof.
  intros Hnd Hdeps Hperm Hlay. split; [by eapply levels_perm|].
  intros i level role Hi Hrole. rewrite list_lookup_fmap in Hi.
  apply fmap_Some in Hi as (l & Hl & ->). apply roles_of_level_in in Hrole as [Hin Hname].
  destruct (Hlay i (role_Name role)) as [Hd Hm]; [by exists l|].
  unfold edge in Hd, Hm. rewrite (deps_lookup _ _ Hnd Hdeps role Hin) in Hd, Hm. split.
  - intros d (j & Hj & Hat)%Hd. eapply at_level_role in Hat as (l' & dep & ?); [|done..].
    exists j, l', dep. tauto.
  - destruct Hm as [?|(d & Hd' & Hat)]; [by left|right].
    eapply at_level_role in Hat as (l' & dep & ? & ? & <-); [|done..]. by exists l', dep.
Qed.
End roles.

(** * Properties *)

(** C35: SortRoles either rejects the group or returns levels that partition its
    roles, in which every dependency of a role stands in a strictly lower level
    and a role is not placed higher than its dependencies force it to be. *)
Theorem SortRoles_levels `{SortSlice} (g : RoleBasedGroup) (levels : list (list RoleSpec)) :
  NoDup (role_names (rbg_Roles g)) -> SortRoles g = Some (Ok levels) ->
  dependency_levels (rbg_Roles g) levels.
Proof.
  intros Hnd Hsort.
  destruct (SortRoles_cases g Hnd) as [(e & He & _)|(names & deps & He & _ & _ & Hdeps & Hperm & Hlay)];
    [congruence|].
  rewrite Hsort in He. injection He as ->. by eapply levels_dependency.
Qed.

(** On distinct role names SortRoles always terminates (the fuel is never
    exhausted) and fails exactly when the roles depend on each other in a cycle
    or a role depends on a name outside the group. *)
Theorem SortRoles_error_iff `{SortSlice} (g : RoleBasedGroup) :
  NoDup (role_names (rbg_Roles g)) ->
  exists r, SortRoles g = Some r /\
    (is_ok r = false <->
     (exists x, tc (depends (rbg_Roles g)) x x) \/ unknown_role (rbg_Roles g)).
Proof.
  intros Hnd. destruct (SortRoles_cases g Hnd) as [(e & -> & Hbad)|(names & deps & -> & H1 & H2 & _)].
  - eexists. split; [done|]. by split.
  - eexists. split; [done|]. split; [done|]. by intros [?|?].
Qed.

(** * Witnesses *)

Module Witness.
Definition plain (name : string) (deps : list string) : RoleSpec := {|
  role_Name := name; role_Labels := ∅; role_Annotations := ∅; role_Replicas := Some 1;
  role_RollingUpdate := None; role_Dependencies := deps;
  role_Pattern := standalone no_template;
  role_ScalingAdapter := None; role_MinReadySeconds := 0; role_rest := no_rest |}.

Definition group (roles : list RoleSpec) : RoleBasedGroup := {|
  rbg_meta := Types.empty_meta; rbg_Roles := roles; rbg_RoleTemplates := []; rbg_Conditions := []; rbg_ObservedGeneration := 0; rbg_RoleStatuses := [] |}.

Definition pd : RoleBasedGroup :=
  group [plain "decode" ["prefill"; "router"]; plain "prefill" ["router"]; plain "router" []].

Definition levels : list (list RoleSpec) :=
  [[plain "router" []]; [plain "prefill" ["router"]]; [plain "decode" ["prefill"; "router"]]].
End Witness.

Lemma SortRoles_levels_witness :
  SortRoles Witness.pd = Some (Ok Witness.levels) /\
  dependency_levels (rbg_Roles Witness.pd) Witness.levels.
Proof.
  split; [by vm_compute|]. apply (SortRoles_levels Witness.pd).
  - apply (bool_decide_unpack (NoDup _)); by vm_compute.
  - by vm_compute.
Defined.

Lemma SortRoles_error_iff_witness :
  let g := Witness.group [Witness.plain "a" ["b"]; Witness.plain "b" ["a"]] in
  exists r, SortRoles g = Some r /\
    (is_ok r = false <->
     (exists x, tc (depends (rbg_Roles g)) x x) \/ unknown_role (rbg_Roles g)).
Proof. apply SortRoles_error_iff. apply (bool_decide_unpack (NoDup _)); by vm_compute. Defined.
