(* ===== verification/CoordinationScaling.v ===== *)
(** Coordinated scaling (pkg/coordination/coordinationscaling/scaler.go): the
    replica targets that keep the deployment progress of several roles within
    maxSkew, and the progression gate between two batches.

    The parser of decimal floats, [strconv.ParseFloat], is an argument: no theorem
    depends on which float a maxSkew string denotes. *)
From Stdlib Require Import ZArith Lia Bool Ascii String.
From stdpp Require Import base tactics list strings gmap sets fin_maps.
From S2P Require Import Prelude GoStrings Float64 IntOrString Types GroupTypes.

(** ScheduledPods counts the non-terminating Pods with a node, ExpectedPods the
    Pods the current replicas should have. *)
Record RoleScalingState := {
  rs_DesiredReplicas : Z;
  rs_CurrentReplicas : Z;
  rs_ScheduledPods : Z;
  rs_ExpectedPods : Z;
  rs_ReadyReplicas : Z
}.

Definition empty_state : RoleScalingState := {|
  rs_DesiredReplicas := 0; rs_CurrentReplicas := 0; rs_ScheduledPods := 0;
  rs_ExpectedPods := 0; rs_ReadyReplicas := 0 |}.

Record CoordinationScaler := {
  maxSkew : float64;
  policyRule : option CoordinatedPolicyRule
}.

Record roleProgress := {
  rp_roleName : string;
  rp_desiredReplicas : Z;
  rp_currentReplicas : Z;
  rp_progress : float64
}.

Section parse.
Context (ParseFloat : string -> result float64).

Definition parsePercentage (percentStr : string) : result float64 :=
  let percentStr := TrimSpace percentStr in
  if negb (HasSuffixChar percentStr "%") then Err "percentage string must end with '%'"
  else
    match ParseFloat (TrimSuffixChar percentStr "%") with
    | Err _ => Err "failed to parse percentage number"
    | Ok num =>
        if f_ltb num (Fin 0 0) || f_gtb num (f_of_int 100)
        then Err "percentage must be between 0 and 100"
        else Ok (f_div num (f_of_int 100))
    end.

Definition NewCoordinationScalerFromPolicy (rule : option CoordinatedPolicyRule) : result CoordinationScaler :=
  match rule with
  | None => Err "invalid policy configuration: scaling strategy is nil"
  | Some p =>
      match rule_Scaling p with
      | None => Err "invalid policy configuration: scaling strategy is nil"
      | Some scaling =>
          let maxSkewStr :=
            match sc_MaxSkew scaling with Some m => IntOrString_String (Some m) | None => "100%"%string end in
          match parsePercentage maxSkewStr with
          | Err _ => Err "failed to parse maxSkew"
          | Ok skew => Ok {| maxSkew := skew; policyRule := rule |}
          end
      end
  end.
End parse.

Definition GetCoordinationRoles (s : CoordinationScaler) : list string :=
  match policyRule s with Some p => rule_Roles p | None => [] end.

Definition getProgressionType (s : CoordinationScaler) : string :=
  match policyRule s with
  | Some p => match rule_Scaling p with
              | Some sc => sc_Progression sc
              | None => OrderScheduledProgression
              end
  | None => OrderScheduledProgression
  end.

Section targets.
Context (roleStates : gmap string RoleScalingState).

(** A missing entry reads as the zero state. *)
Definition state_of (roleName : string) : RoleScalingState := default empty_state (roleStates !! roleName).

Definition below_desired (st : RoleScalingState) : bool := rs_CurrentReplicas st <? rs_DesiredReplicas st.

(** The gate of one role between two batches. *)
Definition role_ready_for_next (progression : string) (st : RoleScalingState) : bool :=
  if rs_CurrentReplicas st >=? rs_DesiredReplicas st then true
  else if rs_CurrentReplicas st =? 0 then true
  else if bool_decide (progression = OrderScheduledProgression) then
    negb (rs_ScheduledPods st <? rs_ExpectedPods st)
  else if bool_decide (progression = OrderReadyProgression) then
    negb (rs_ReadyReplicas st <? rs_CurrentReplicas st)
  else true.

Definition canProceedToNextBatch (roles : list string) (progression : string) : bool :=
  if negb (existsb (fun r => below_desired (state_of r)) roles) then true
  else forallb (fun r => role_ready_for_next progression (state_of r)) roles.

Definition progress_of (st : RoleScalingState) : float64 :=
  if rs_DesiredReplicas st =? 0 then
    if rs_CurrentReplicas st =? 0 then f_of_int 1 else Fin 0 0
  else f_div (f_of_int (rs_CurrentReplicas st)) (f_of_int (rs_DesiredReplicas st)).

Definition roleProgress_of (roleName : string) : roleProgress :=
  let st := state_of roleName in
  {| rp_roleName := roleName; rp_desiredReplicas := rs_DesiredReplicas st;
     rp_currentReplicas := rs_CurrentReplicas st; rp_progress := progress_of st |}.

(** The target of one role under [maxAllowedProgress]. *)
Definition target_of (maxAllowedProgress : float64) (rp : roleProgress) : Z :=
  if rp_currentReplicas rp >=? rp_desiredReplicas rp then rp_desiredReplicas rp
  else if f_geb (rp_progress rp) maxAllowedProgress then rp_currentReplicas rp
  else
    let target := int32_of (f_ceil (f_mul maxAllowedProgress (f_of_int (rp_desiredReplicas rp)))) in
    let target := if target >? rp_desiredReplicas rp then rp_desiredReplicas rp else target in
    if (target <=? rp_currentReplicas rp) && (rp_currentReplicas rp <? rp_desiredReplicas rp)
    then int32 (rp_currentReplicas rp + 1) else target.

Context `{SortSlice}.

Definition progresses (roles : list string) : list roleProgress :=
  sort_slice (fun x y => f_ltb (rp_progress x) (rp_progress y)) (map roleProgress_of roles).

(** [None]: [roleProgresses[0]] of no role panics. *)
Definition min_progress (rps : list roleProgress) : option float64 :=
  match rps with
  | [] => None
  | rp0 :: _ =>
      match List.find (fun rp => rp_currentReplicas rp <? rp_desiredReplicas rp) rps with
      | Some rp => Some (rp_progress rp)
      | None => Some (rp_progress rp0)
      end
  end.

(** [result[name] = target], later writes winning. *)
Definition write_targets (f : string -> Z) (names : list string) : gmap string Z :=
  fold_left (fun m n => <[n := f n]> m) names ∅.

(** [None] is the index panic of a rule without roles. *)
Definition CalculateTargetReplicas (s : CoordinationScaler) : option (result (gmap string Z)) :=
  if bool_decide (roleStates = ∅) then Some (Err "no role states provided")
  else
    let roles := GetCoordinationRoles s in
    if negb (forallb (fun r => bool_decide (is_Some (roleStates !! r))) roles)
    then Some (Err "role not found in roleStates")
    else if negb (canProceedToNextBatch roles (getProgressionType s))
    then Some (Ok (write_targets (fun r => rs_CurrentReplicas (state_of r)) roles))
    else
      let rps := progresses roles in
      match min_progress rps with
      | None => None
      | Some minProgress =>
          let maxAllowedProgress := f_add minProgress (maxSkew s) in
          Some (Ok (fold_left (fun m rp => <[rp_roleName rp := target_of maxAllowedProgress rp]> m) rps ∅))
      end.
End targets.

(** * Lemmas *)

(** Writing [f x] under [name x] for every element: each name ends up with its
    value, and nothing else is written. *)
Lemma insert_all_lookup {A} (name : A -> string) (f : A -> Z) (l : list A) :
  (forall x y, x ∈ l -> y ∈ l -> name x = name y -> f x = f y) ->
  let m := fold_left (fun (m : gmap string Z) x => <[name x := f x]> m) l ∅ in
  (forall x, x ∈ l -> m !! name x = Some (f x)) /\
  (forall k, is_Some (m !! k) <-> k ∈ map name l).
Proof.
  induction l as [|y l IH] using rev_ind; intros Hf; simpl.
  { split; [set_solver|]. intros k. rewrite lookup_empty. split; [by intros []|set_solver]. }
  rewrite fold_left_app. simpl. destruct IH as [Hin Hdom].
  { intros x z Hx Hz. apply Hf; apply elem_of_snoc; by left. }
  split.
  - intros x Hx. rewrite lookup_insert. case_decide as Heq.
    + f_equal. apply Hf; [apply elem_of_snoc; by right|done|done].
    + apply elem_of_snoc in Hx as [Hx| ->]; [by apply Hin|done].
  - intros k. rewrite map_app. simpl. rewrite elem_of_snoc, <-Hdom, lookup_insert.
    case_decide as Heq; [subst; split; eauto|]. split; [tauto|]. intros [?|?]; [done|congruence].
Qed.

(** What a role is told: to stay, to stop at its desired count, or to grow. *)
Inductive role_target (st : RoleScalingState) (limit : Z) : Z -> Prop :=
| target_desired : rs_DesiredReplicas st <= rs_CurrentReplicas st -> role_target st limit (rs_DesiredReplicas st)
| target_hold : rs_CurrentReplicas st < rs_DesiredReplicas st -> role_target st limit (rs_CurrentReplicas st)
| target_grow t : rs_CurrentReplicas st < t <= rs_DesiredReplicas st ->
    t <= Z.max limit (rs_CurrentReplicas st + 1) -> role_target st limit t.

Lemma target_of_spec roleStates p name :
  let st := state_of roleStates name in
  is_int32 (rs_CurrentReplicas st) -> is_int32 (rs_DesiredReplicas st) ->
  role_target st (int32_of (f_ceil (f_mul p (f_of_int (rs_DesiredReplicas st)))))
    (target_of p (roleProgress_of roleStates name)).
Proof.
  intros st Hc Hd. unfold target_of. simpl. fold st.
  destruct (rs_CurrentReplicas st >=? rs_DesiredReplicas st) eqn:E1; breflect; [by constructor|].
  destruct (f_geb _ _); [by constructor|].
  set (limit := int32_of _). unfold_int.
  destruct (limit >? rs_DesiredReplicas st) eqn:E2; breflect.
  - replace (rs_DesiredReplicas st <=? rs_CurrentReplicas st) with false by (symmetry; apply Z.leb_gt; lia).
    simpl. constructor; lia.
  - destruct (_ && _) eqn:E3.
    + rewrite int32_id by (unfold_int; lia). constructor; lia.
    + constructor; [|lia]. destruct (limit <=? rs_CurrentReplicas st) eqn:E4; breflect; [|lia].
      simpl in E3. breflect. lia.
Qed.

(** The gate, spelled out: no unfinished role with replicas is still waiting. *)
Definition batch_complete (roleStates : gmap string RoleScalingState) (roles : list string) (progression : string) : Prop :=
  forall r, r ∈ roles ->
    let st := state_of roleStates r in
    0 <> rs_CurrentReplicas st -> rs_CurrentReplicas st < rs_DesiredReplicas st ->
    (progression = OrderScheduledProgression -> rs_ExpectedPods st <= rs_ScheduledPods st) /\
    (progression = OrderReadyProgression -> rs_CurrentReplicas st <= rs_ReadyReplicas st).

Lemma role_ready_for_next_spec progression st :
  role_ready_for_next progression st = true <->
  (0 <> rs_CurrentReplicas st -> rs_CurrentReplicas st < rs_DesiredReplicas st ->
   (progression = OrderScheduledProgression -> rs_ExpectedPods st <= rs_ScheduledPods st) /\
   (progression = OrderReadyProgression -> rs_CurrentReplicas st <= rs_ReadyReplicas st)).
Proof.
  unfold role_ready_for_next.
  destruct (_ >=? _) eqn:E1; breflect; [split; [lia|done]|].
  destruct (_ =? 0) eqn:E2; breflect; [split; [lia|done]|].
  destruct (decide (progression = OrderScheduledProgression)) as [Hp|Hp].
  - rewrite bool_decide_eq_true_2, negb_true_iff, Z.ltb_ge by done. split; [|intros H; apply H; lia || done].
    intros ? _ _. split; [done|]. by rewrite Hp.
  - rewrite bool_decide_eq_false_2 by done. destruct (decide (progression = OrderReadyProgression)) as [Hq|Hq].
    + rewrite bool_decide_eq_true_2, negb_true_iff, Z.ltb_ge by done.
      split; [|intros H; apply H; lia || done]. intros ? _ _. split; done.
    + rewrite bool_decide_eq_false_2 by done. split; done.
Qed.

Lemma canProceed_spec roleStates roles progression :
  canProceedToNextBatch roleStates roles progression = true <->
  batch_complete roleStates roles progression.
Proof.
  unfold canProceedToNextBatch, batch_complete. destruct (existsb _ roles) eqn:E; simpl.
  - rewrite List.forallb_forall. setoid_rewrite <-list_elem_of_In.
    setoid_rewrite role_ready_for_next_spec. done.
  - split; [intros _|done]. intros r Hr _ Hlt. exfalso.
    assert (existsb (fun r => below_desired (state_of roleStates r)) roles = true); [|congruence].
    apply List.existsb_exists. exists r. rewrite <-list_elem_of_In. split; [done|].
    unfold below_desired. by apply Z.ltb_lt.
Qed.

Lemma min_progress_some `{SortSlice} roleStates roles :
  roles <> [] -> exists p, min_progress (progresses roleStates roles) = Some p.
Proof.
  intros Hne. unfold min_progress.
  destruct (progresses roleStates roles) as [|rp rps] eqn:E; [|destruct (List.find _ _); eauto].
  exfalso. unfold progresses in E.
  assert (map (roleProgress_of roleStates) roles ≡ₚ []) as Hp by (rewrite <-E; by rewrite sort_slice_perm).
  apply Permutation_nil_r in Hp. by destruct roles.
Qed.

Lemma progresses_targets `{SortSlice} roleStates roles q :
  let m := fold_left (fun (m : gmap string Z) rp => <[rp_roleName rp := target_of q rp]> m)
             (progresses roleStates roles) ∅ in
  (forall r, r ∈ roles -> m !! r = Some (target_of q (roleProgress_of roleStates r))) /\
  (forall k, is_Some (m !! k) <-> k ∈ roles).
Proof.
  intros m. assert (forall rp, rp ∈ progresses roleStates roles <->
                    exists r, rp = roleProgress_of roleStates r /\ r ∈ roles) as Hin.
  { intros rp. unfold progresses. rewrite sort_slice_perm. apply list_elem_of_fmap. }
  destruct (insert_all_lookup rp_roleName (target_of q) (progresses roleStates roles)) as [Hval Hdom].
  { intros x y (r & -> & _)%Hin (r' & -> & _)%Hin. simpl. by intros ->. }
  split.
  - intros r Hr. change r with (rp_roleName (roleProgress_of roleStates r)) at 1.
    apply Hval, Hin. eauto.
  - intros k. unfold m. rewrite Hdom, list_elem_of_fmap. split.
    + intros (rp & -> & (r & -> & Hr)%Hin). done.
    + intros Hk. exists (roleProgress_of roleStates k). split; [done|]. apply Hin. eauto.
Qed.

(** The decimal rendering of an integer holds no space and no percent sign. *)
Lemma Itoa_chars v : Forall (fun c => is_space c = false /\ c <> "%"%char) (chars (Itoa v)).
Proof.
  assert (forall n, 0 <= n -> Forall (fun c => is_space c = false /\ c <> "%"%char) (utoa n)) as Hu.
  { intros n Hn. eapply Forall_impl; [by apply utoa_all_digits|].
    intros [b0 b1 b2 b3 b4 b5 b6 b7]. by destruct b0, b1, b2, b3, b4, b5, b6, b7. }
  unfold Itoa. destruct (v <? 0) eqn:E; breflect; rewrite chars_of_chars.
  - constructor; [done|]. apply Hu. lia.
  - by apply Hu.
Qed.

Lemma drop_spaces_none l : Forall (fun c => is_space c = false) l -> drop_spaces l = l.
Proof. destruct 1 as [|c l Hc _]; simpl; [done|]. by rewrite Hc. Qed.

Lemma Itoa_no_percent v : HasSuffixChar (TrimSpace (Itoa v)) "%" = false.
Proof.
  pose proof (Itoa_chars v) as HF.
  assert (Forall (fun c => is_space c = false) (chars (Itoa v))) as Hs by (eapply Forall_impl; [exact HF|by intros c [? _]]).
  unfold TrimSpace, HasSuffixChar.
  rewrite (drop_spaces_none (chars _)), drop_spaces_none, rev_involutive, chars_of_chars by (done || by apply Forall_rev).
  destruct (last (chars (Itoa v))) as [c|] eqn:Hl; [|done].
  apply bool_decide_eq_false. apply last_Some_elem_of in Hl. rewrite Forall_forall in HF. by apply (HF c Hl).
Qed.

(** A target lies between the current and the desired replicas. *)
Definition in_scaling_range (st : RoleScalingState) (t : Z) : Prop :=
  (rs_DesiredReplicas st <= rs_CurrentReplicas st -> t = rs_DesiredReplicas st \/ t = rs_CurrentReplicas st) /\
  (rs_CurrentReplicas st < rs_DesiredReplicas st -> rs_CurrentReplicas st <= t <= rs_DesiredReplicas st).

Lemma role_target_range st limit t : role_target st limit t -> in_scaling_range st t.
Proof. intros []; split; intros; auto with lia. Qed.

Lemma CalculateTargetReplicas_range `{SortSlice} roleStates s m r t :
  CalculateTargetReplicas roleStates s = Some (Ok m) -> m !! r = Some t ->
  is_int32 (rs_CurrentReplicas (state_of roleStates r)) -> is_int32 (rs_DesiredReplicas (state_of roleStates r)) ->
  in_scaling_range (state_of roleStates r) t.
Proof.
  unfold CalculateTargetReplicas. case_bool_decide; [done|]. set (roles := GetCoordinationRoles s).
  destruct (negb _); [done|]. destruct (negb _); cbv iota zeta.
  - intros [= <-] Hr Hc Hd.
    destruct (insert_all_lookup id (fun r => rs_CurrentReplicas (state_of roleStates r)) roles) as [Hval Hdom].
    { intros x y _ _ Heq. simpl in Heq. by subst. }
    assert (r ∈ roles) as Hin by (rewrite <-(list_fmap_id roles); apply Hdom; eauto).
    specialize (Hval r Hin). unfold write_targets in Hr. simpl in Hval. rewrite Hval in Hr.
    injection Hr as <-. split; [by right|lia].
  - destruct (min_progress _) as [p|]; [|done]. intros [= <-] Hr Hc Hd.
    destruct (progresses_targets roleStates roles (f_add p (maxSkew s))) as [Hval Hdom].
    assert (r ∈ roles) as Hin by (apply Hdom; eauto).
    rewrite (Hval r Hin) in Hr. injection Hr as <-.
    by eapply role_target_range, target_of_spec.
Qed.

Lemma CalculateTargetReplicas_dom `{SortSlice} roleStates s m r :
  CalculateTargetReplicas roleStates s = Some (Ok m) -> r ∉ GetCoordinationRoles s -> m !! r = None.
Proof.
  unfold CalculateTargetReplicas. case_bool_decide; [done|]. set (roles := GetCoordinationRoles s).
  intros Hm Hr. apply eq_None_not_Some. intros Hs. apply Hr. revert Hm.
  destruct (negb _); [done|]. destruct (negb _); cbv iota zeta.
  - intros [= <-].
    destruct (insert_all_lookup id (fun r => rs_CurrentReplicas (state_of roleStates r)) roles) as [_ Hdom].
    { intros x y _ _ Heq. simpl in Heq. by subst. }
    rewrite <-(list_fmap_id roles). by apply Hdom.
  - destruct (min_progress _) as [p|]; [|done]. intros [= <-].
    by apply (progresses_targets roleStates roles (f_add p (maxSkew s))).
Qed.

(** * Properties *)

(** For a rule whose roles all have a state, CalculateTargetReplicas returns a
    target for each of its roles and for no other.  While some unfinished role with
    replicas has not met the progression requirement every role is held at its
    current replicas; otherwise a role at or above its desired replicas is set to
    them, and any other is held or grows, never past its desired replicas and never
    by more than one replica beyond what minimum progress plus maxSkew allows. *)
Theorem CalculateTargetReplicas_targets `{SortSlice} (roleStates : gmap string RoleScalingState)
    (s : CoordinationScaler) :
  let roles := GetCoordinationRoles s in
  roles <> [] -> (forall r, r ∈ roles -> is_Some (roleStates !! r)) ->
  (forall r, r ∈ roles -> is_int32 (rs_CurrentReplicas (state_of roleStates r)) /\
                      is_int32 (rs_DesiredReplicas (state_of roleStates r))) ->
  exists m, CalculateTargetReplicas roleStates s = Some (Ok m) /\
    (forall r, is_Some (m !! r) <-> r ∈ roles) /\
    (~ batch_complete roleStates roles (getProgressionType s) ->
     forall r, r ∈ roles -> m !! r = Some (rs_CurrentReplicas (state_of roleStates r))) /\
    (batch_complete roleStates roles (getProgressionType s) ->
     exists p, min_progress (progresses roleStates roles) = Some p /\
       forall r, r ∈ roles -> exists t, m !! r = Some t /\
         let st := state_of roleStates r in
         role_target st
           (int32_of (f_ceil (f_mul (f_add p (maxSkew s)) (f_of_int (rs_DesiredReplicas st))))) t).
Proof.
  intros roles Hne Hin Hint. unfold CalculateTargetReplicas. fold roles.
  rewrite (bool_decide_eq_false_2 (roleStates = ∅)).
  2:{ destruct roles as [|r ?]; [done|]. intros ->. destruct (Hin r); [set_solver|].
      by rewrite lookup_empty in *. }
  replace (forallb _ roles) with true.
  2:{ symmetry. apply List.forallb_forall. intros r Hr%list_elem_of_In. by apply bool_decide_eq_true, Hin. }
  cbn [negb]. pose proof (canProceed_spec roleStates roles (getProgressionType s)) as Hc.
  destruct (canProceedToNextBatch roleStates roles (getProgressionType s)); cbn [negb].
  - destruct (min_progress_some roleStates roles Hne) as [p Hp]. rewrite Hp. eexists. split; [done|].
    destruct (progresses_targets roleStates roles (f_add p (maxSkew s))) as [Hval Hdom].
    split; [done|]. split; [tauto|]. intros _. exists p. split; [done|]. intros r Hr.
    eexists. split; [by apply Hval|]. by apply target_of_spec; apply Hint.
  - eexists. split; [done|].
    destruct (insert_all_lookup id (fun r => rs_CurrentReplicas (state_of roleStates r)) roles) as [Hval Hdom].
    { intros x y _ _ Heq. simpl in Heq. by subst. }
    split; [intros k; rewrite Hdom; by rewrite list_fmap_id|]. split; [auto|].
    intros Hb. by apply Hc in Hb.
Qed.

(** A maxSkew given as an absolute number, which the type documents as
    accepted, is rejected by the scaler: no decimal number ends with a percent sign. *)
Theorem absolute_maxSkew_rejected (ParseFloat : string -> result float64)
    (p : CoordinatedPolicyRule) (sc : ScalingCoordination) (v : Z) :
  rule_Scaling p = Some sc -> sc_MaxSkew sc = Some (FromInt32 v) ->
  NewCoordinationScalerFromPolicy ParseFloat (Some p) = Err "failed to parse maxSkew".
Proof.
  intros Hp Hsc. unfold NewCoordinationScalerFromPolicy. rewrite Hp, Hsc.
  change (IntOrString_String (Some (FromInt32 v))) with (Itoa v).
  unfold parsePercentage. by rewrite Itoa_no_percent.
Qed.

(** * Witnesses *)

Module Witness.
(** [strconv.ParseFloat] on integer literals. *)
Definition ParseFloat (s : string) : result float64 := v ← Atoi s; Ok (f_of_int v).

Definition rule (skew : IntOrString) : CoordinatedPolicyRule := {|
  rule_Name := "pd"; rule_Roles := ["prefill"; "decode"]; rule_RollingUpdate := None;
  rule_Scaling := Some {| sc_MaxSkew := Some skew; sc_Progression := OrderReadyProgression |};
  rule_Gang := None |}.

Definition st (desired current ready : Z) : RoleScalingState := {|
  rs_DesiredReplicas := desired; rs_CurrentReplicas := current; rs_ScheduledPods := current;
  rs_ExpectedPods := current; rs_ReadyReplicas := ready |}.

Definition states : gmap string RoleScalingState :=
  {["prefill" := st 10 2 2; "decode" := st 4 2 2]}.

Definition scaler : CoordinationScaler := {|
  maxSkew := f_div (f_of_int 10) (f_of_int 100); policyRule := Some (rule (FromString "10%")) |}.
End Witness.

Example scaler_parsed :
  NewCoordinationScalerFromPolicy Witness.ParseFloat (Some (Witness.rule (FromString "10%"))) = Ok Witness.scaler.
Proof. by vm_compute. Qed.

(** prefill is at 2/10 and maxSkew is 10%, so 3 replicas are allowed; the floats
    0.2 + 0.1 and 0.30000000000000004 * 10 round up, and the target is 4. *)
Example scaler_targets :
  CalculateTargetReplicas Witness.states Witness.scaler = Some (Ok {["prefill" := 4; "decode" := 2]}).
Proof. by vm_compute. Qed.

Lemma CalculateTargetReplicas_targets_witness :
  exists m, CalculateTargetReplicas Witness.states Witness.scaler = Some (Ok m) /\
    (forall r, is_Some (m !! r) <-> r ∈ ["prefill"; "decode"]).
Proof.
  destruct (CalculateTargetReplicas_targets Witness.states Witness.scaler) as (m & Hm & Hdom & _).
  - done.
  - intros r Hr. repeat (apply elem_of_cons in Hr as [->|Hr]; [by vm_compute; eauto|]). by apply elem_of_nil in Hr.
  - intros r Hr. repeat (apply elem_of_cons in Hr as [->|Hr]; [by vm_compute|]). by apply elem_of_nil in Hr.
  - exists m. split; [exact Hm|exact Hdom].
Defined.

Lemma absolute_maxSkew_rejected_witness :
  NewCoordinationScalerFromPolicy Witness.ParseFloat (Some (Witness.rule (FromInt32 5)))
  = Err "failed to parse maxSkew".
Proof. by eapply absolute_maxSkew_rejected. Defined.
