(* ===== verification/Coordination.v ===== *)
(** The coordination of roles in the group controller
    (internal/controller/workloads/rolebasedgroup_controller.go): scaling targets
    over all rules of a CoordinatedPolicy, their lift to the gang minimum, and the
    rolling-update partitions that bound the skew between roles.

    A Go map of results is a [gmap]; a nil map is the empty one.  The order in
    which a Go map or set is iterated is not specified: where it matters it only
    reaches the result through [sort.Slice]. *)
From Stdlib Require Import ZArith Lia Bool Ascii String Sorted.
From stdpp Require Import base tactics list strings gmap sets fin_maps.
From S2P Require Import Prelude GoStrings Float64 IntOrString Types GroupTypes Gang CoordinationScaling.

(** * Gang minimums *)

Definition raise_target (minimums : gmap string Z) (roleName : string) (target : Z) : Z :=
  match minimums !! roleName with
  | Some minimum => if target >=? minimum then target else minimum
  | None => target
  end.

(** The new targets and the sorted names of the roles that were raised. *)
Definition raiseScalingTargetsToGangMinimum `{SortSlice} (targets : gmap string Z) (g : RoleBasedGroup)
    (gangStrategy : option GangStrategy) : gmap string Z * list string :=
  if bool_decide (targets = ∅) || bool_decide (gangStrategy = None) then (targets, [])
  else
    let minimums := GangMinimumReplicas g gangStrategy in
    (map_imap (fun r t => Some (raise_target minimums r t)) targets,
     sort_slice String.ltb
       (map fst (List.filter (fun kv : string * Z => negb (raise_target minimums kv.1 kv.2 =? kv.2))
                   (map_to_list targets)))).

(** * Scaling over all rules *)

Record Pod := {
  pod_DeletionTimestamp : option Z;
  pod_NodeName : string
}.

Section scaling.
Context `{SortSlice}.
Context (ParseFloat : string -> result float64).
(** [client.List] of the Pods of a namespace that match labels. *)
Context (ListPods : string -> labels -> result (list Pod)).

Definition getPodSchedulingCounts (g : RoleBasedGroup) (roleName : string) (currentReplicas : Z)
    : result (Z * Z) :=
  match GetRole roleName g with
  | Err _ => Ok (0, 0)
  | Ok role =>
      let expectedPods := currentReplicas * ComputeSubGroupSize (Some role) in
      if expectedPods =? 0 then Ok (0, 0)
      else
        pods ← ListPods (om_Namespace (rbg_meta g))
                 {[GroupNameLabelKey := rbg_Name g; RoleNameLabelKey := roleName]};
        Ok (countb (fun p => bool_decide (pod_DeletionTimestamp p = None) &&
                             negb (bool_decide (pod_NodeName p = ""%string))) pods, expectedPods)
  end.

(** The state of one role of a rule. *)
Definition role_state (g : RoleBasedGroup) (roleStatuses : list RoleStatus) (roleName : string)
    : result RoleScalingState :=
  let status := List.find (fun s => bool_decide (rst_Name s = roleName)) roleStatuses in
  let current := match status with Some s => rst_Replicas s | None => 0 end in
  let ready := match status with Some s => rst_ReadyReplicas s | None => 0 end in
  match getPodSchedulingCounts g roleName current with
  | Err _ => Err "failed to query Pod scheduling counts"
  | Ok (scheduled, expected) =>
      Ok {| rs_DesiredReplicas := GetRoleReplicasV2 g roleName; rs_CurrentReplicas := current;
            rs_ScheduledPods := scheduled; rs_ExpectedPods := expected; rs_ReadyReplicas := ready |}
  end.

Fixpoint role_states (g : RoleBasedGroup) (roleStatuses : list RoleStatus) (roles : list string)
    (acc : gmap string RoleScalingState) : result (gmap string RoleScalingState) :=
  match roles with
  | [] => Ok acc
  | r :: roles' =>
      st ← role_state g roleStatuses r;
      role_states g roleStatuses roles' (<[r := st]> acc)
  end.

(** Roles under several rules take the minimum of their targets. *)
Definition merge_targets (existing targets : gmap string Z) : gmap string Z :=
  union_with (fun e t => Some (if t <? e then t else e)) existing targets.

(** [None] is the panic of a rule without roles. *)
Fixpoint CalculateScaling_rules (g : RoleBasedGroup) (roleStatuses : list RoleStatus)
    (rules : list CoordinatedPolicyRule) (acc : gmap string Z) : option (result (gmap string Z)) :=
  match rules with
  | [] => Some (Ok acc)
  | rule :: rules' =>
      match rule_Scaling rule with
      | None => CalculateScaling_rules g roleStatuses rules' acc
      | Some _ =>
          match NewCoordinationScalerFromPolicy ParseFloat (Some rule) with
          | Err _ => Some (Err "failed to create coordination scaler")
          | Ok scaler =>
              match role_states g roleStatuses (rule_Roles rule) ∅ with
              | Err e => Some (Err e)
              | Ok roleStates =>
                  match CalculateTargetReplicas roleStates scaler with
                  | None => None
                  | Some (Err _) => Some (Err "failed to calculate target replicas")
                  | Some (Ok targets) =>
                      CalculateScaling_rules g roleStatuses rules' (merge_targets acc targets)
                  end
              end
          end
      end
  end.

Definition CalculateScalingForAllCoordination (g : RoleBasedGroup) (policy : option CoordinatedPolicy)
    (roleStatuses : list RoleStatus) : option (result (gmap string Z)) :=
  match policy with
  | None => Some (Ok ∅)
  | Some p => CalculateScaling_rules g roleStatuses (cp_Policies p) ∅
  end.
End scaling.

(** * Rolling updates *)

(** A read of a Go [map[string]int32]. *)
Definition zget (m : gmap string Z) (k : string) : Z := default 0 (m !! k).

(** [int32(math.Round(float64(n) / float64(d)))]. *)
Definition round_div (n d : Z) : Z := int32_of (f_round (f_div (f_of_int n) (f_of_int d))).

Definition calculateCoordinationUpdatedReplicasBound (maxSkew : IntOrString)
    (refUpdated refDesired requestDesired : Z) : Z * Z :=
  if refDesired =? 0 then (0, 0)
  else
    let a := refUpdated in
    let b := refDesired in
    let d := requestDesired in
    let s := scaled_or_zero (Some maxSkew) 100 true in
    let ad := int64 (100 * a * d) in
    let sbd := int64 (s * b * d) in
    (round_div (Z.max (int64 (ad - sbd)) 0) (int64 (100 * b)),
     round_div (Z.max (int64 (sbd + ad)) 0) (int64 (100 * b))).

Section rolling.
Context `{SortSlice}.

(** The comparison of [getFastestAndSlowestRole]. *)
Definition ratio_less (desiredReplicas updatedReplicas : gmap string Z) (x y : string) : bool :=
  let ratio r := f_div (f_of_int (zget updatedReplicas r)) (f_of_int (zget desiredReplicas r)) in
  if f_gtb (ABSFloat64 (f_sub (ratio x) (ratio y))) (rnd 1 1000000)
  then f_ltb (ratio x) (ratio y)
  else zget desiredReplicas x >? zget desiredReplicas y.

Definition getFastestAndSlowestRole (coordinationRoles : gset string)
    (desiredReplicas updatedReplicas : gmap string Z) : string * string :=
  if (size coordinationRoles <=? 1)%nat then ("", "")%string
  else
    let roles := sort_slice (ratio_less desiredReplicas updatedReplicas) (elements coordinationRoles) in
    (default ""%string (last roles), default ""%string (head roles)).

Definition calculateNextRollingTarget (maxSkewPercent : string) (coordinationRoles : gset string)
    (desiredReplicas updatedReplicas readyReplicas : gmap string Z) : gmap string Z :=
  let '(fastestRole, slowestRole) := getFastestAndSlowestRole coordinationRoles desiredReplicas updatedReplicas in
  if bool_decide (fastestRole = ""%string) || bool_decide (slowestRole = ""%string) then ∅
  else
    let rollingTarget : gmap string Z := set_to_map (fun r => (r, zget updatedReplicas r)) coordinationRoles in
    let desired := zget desiredReplicas in
    let updated := zget updatedReplicas in
    let maxSkew := (ParseIntStrAsNonZero (FromString maxSkewPercent) (desired slowestRole)).1 in
    let '(lowerBound, upperBound) :=
      calculateCoordinationUpdatedReplicasBound (FromString maxSkewPercent)
        (updated fastestRole) (desired fastestRole) (desired slowestRole) in
    let balanceThreshold := Z.shiftr (int32 (int32 (lowerBound + upperBound) + 1)) 1 in
    let distance2Balance := Z.max (int32 (balanceThreshold - updated slowestRole)) 0 in
    let nextRollingStep := Z.max distance2Balance (Z.shiftr maxSkew 1) in
    let nextRollingStep :=
      if (nextRollingStep =? 0) && (updated slowestRole <? desired slowestRole) then 1 else nextRollingStep in
    let nextRollingStep :=
      if zget readyReplicas fastestRole =? desired fastestRole then Z.max nextRollingStep 1 else nextRollingStep in
    <[slowestRole := Z.min (int32 (updated slowestRole + nextRollingStep)) (int32 (upperBound + 1))]> rollingTarget.

(** [desiredReplicas] of the coordinated roles; [None] is the nil dereference of
    [*role.Replicas]. *)
Fixpoint desired_map (coordinationRoles : gset string) (roles : list RoleSpec) (acc : gmap string Z)
    : option (gmap string Z) :=
  match roles with
  | [] => Some acc
  | r :: roles' =>
      if bool_decide (role_Name r ∈ coordinationRoles) then
        match role_Replicas r with
        | None => None
        | Some n => desired_map coordinationRoles roles' (<[role_Name r := n]> acc)
        end
      else desired_map coordinationRoles roles' acc
  end.

Definition status_map (coordinationRoles : gset string) (field : RoleStatus -> Z)
    (roleStatuses : list RoleStatus) : gmap string Z :=
  fold_left (fun m s => if bool_decide (rst_Name s ∈ coordinationRoles)
                        then <[rst_Name s := field s]> m else m) roleStatuses ∅.

Definition calculateNextRollingTargetFromPolicy (g : RoleBasedGroup) (rule : CoordinatedPolicyRule)
    (roleStatuses : list RoleStatus) (coordinationRoles : gset string) : option (gmap string Z) :=
  match rule_RollingUpdate rule with
  | None => Some ∅
  | Some ru =>
      match rc_MaxSkew ru with
      | None => Some ∅
      | Some skew =>
          if (length (rule_Roles rule) <=? 1)%nat then Some ∅
          else
            match desired_map coordinationRoles (rbg_Roles g) ∅ with
            | None => None
            | Some desiredReplicas =>
                Some (calculateNextRollingTarget (IntOrString_String (Some skew)) coordinationRoles
                        desiredReplicas
                        (status_map coordinationRoles rst_UpdatedReplicas roleStatuses)
                        (status_map coordinationRoles rst_ReadyReplicas roleStatuses))
            end
      end
  end.

(** The roles of a rule with replicas to coordinate. *)
Definition coordination_roles (g : RoleBasedGroup) (rule : CoordinatedPolicyRule) : gset string :=
  list_to_set (List.filter (fun r => GetRoleReplicasV2 g r >? 0) (rule_Roles rule)).

(** The strategy of one role with the settings of the rule. *)
Definition initial_strategy (ru : RollingUpdateCoordination) (role : RoleSpec) : result RollingUpdate :=
  let strategy := default empty_RollingUpdate (role_RollingUpdate role) in
  let strategy := match rc_MaxUnavailable ru with
                  | Some v => with_MaxUnavailable (Some v) strategy | None => strategy end in
  match rc_Partition ru with
  | None => Ok strategy
  | Some p =>
      partition ← CalculatePartitionReplicas (Some p) (role_Replicas role);
      Ok (with_Partition (Some (FromInt32 (int32 partition))) strategy)
  end.

Fixpoint initial_strategies (ru : RollingUpdateCoordination) (coordinationRoles : gset string)
    (roles : list RoleSpec) (acc : gmap string RollingUpdate) : result (gmap string RollingUpdate) :=
  match roles with
  | [] => Ok acc
  | r :: roles' =>
      if bool_decide (role_Name r ∈ coordinationRoles) then
        s ← initial_strategy ru r;
        initial_strategies ru coordinationRoles roles' (<[role_Name r := s]> acc)
      else initial_strategies ru coordinationRoles roles' acc
  end.

(** The partition of one role once its update target is known: never below the
    partition the user asked for. *)
Definition step_strategy (role : RoleSpec) (updatedTarget : Z) (strategy : RollingUpdate) : result RollingUpdate :=
  finalPartition ←
    match ru_Partition strategy, role_Replicas role with
    | Some p, Some n => v ← GetScaledValueFromIntOrPercent (Some p) n true; Ok (int32 v)
    | _, _ => Ok 0
    end;
  match role_Replicas role with
  | None => Ok strategy
  | Some n =>
      let stepPartition := Z.max (int32 (n - updatedTarget)) 0 in
      Ok (with_Partition (Some (FromInt32 (if stepPartition >? finalPartition then stepPartition else finalPartition))) strategy)
  end.

Fixpoint step_strategies (coordinationRoles : gset string) (nextRollingTarget : gmap string Z)
    (roles : list RoleSpec) (acc : gmap string RollingUpdate) : result (gmap string RollingUpdate) :=
  match roles with
  | [] => Ok acc
  | r :: roles' =>
      if bool_decide (role_Name r ∈ coordinationRoles) then
        match nextRollingTarget !! role_Name r with
        | None => step_strategies coordinationRoles nextRollingTarget roles' acc
        | Some target =>
            s ← step_strategy r target (default empty_RollingUpdate (acc !! role_Name r));
            step_strategies coordinationRoles nextRollingTarget roles' (<[role_Name r := s]> acc)
        end
      else step_strategies coordinationRoles nextRollingTarget roles' acc
  end.

(** [None] is the nil dereference of a coordinated role without replicas. *)
Definition calculateRollingUpdateForPolicyRule (g : RoleBasedGroup) (rule : option CoordinatedPolicyRule)
    (roleStatuses : list RoleStatus) : option (result (gmap string RollingUpdate)) :=
  match rule with
  | None => Some (Ok ∅)
  | Some rule =>
      match rule_RollingUpdate rule with
      | None => Some (Ok ∅)
      | Some ru =>
          if (length (rule_Roles rule) <=? 1)%nat then Some (Ok ∅)
          else
            let coordinationRoles := coordination_roles g rule in
            match initial_strategies ru coordinationRoles (rbg_Roles g) ∅ with
            | Err e => Some (Err e)
            | Ok strategies =>
                match calculateNextRollingTargetFromPolicy g rule roleStatuses coordinationRoles with
                | None => None
                | Some target => Some (step_strategies coordinationRoles target (rbg_Roles g) strategies)
                end
            end
      end
  end.

(** One role present in both maps: the smaller maxUnavailable, the larger partition. *)
Definition merge_strategy (strategyA strategyB : RollingUpdate) : RollingUpdate :=
  let strategyA :=
    if scaled_or_zero (ru_MaxUnavailable strategyA) 100 true >? scaled_or_zero (ru_MaxUnavailable strategyB) 100 true
    then with_MaxUnavailable (ru_MaxUnavailable strategyB) strategyA else strategyA in
  let part s := match ru_Partition s with Some _ => scaled_or_zero (ru_Partition s) 100 true | None => 0 end in
  if part strategyA <? part strategyB then with_Partition (ru_Partition strategyB) strategyA else strategyA.

Definition mergeStrategyRollingUpdate (strategiesA strategiesB : gmap string RollingUpdate)
    : gmap string RollingUpdate :=
  union_with (fun a b => Some (merge_strategy a b)) strategiesA strategiesB.

Fixpoint CalculateRollingUpdate_rules (g : RoleBasedGroup) (roleStatuses : list RoleStatus)
    (rules : list CoordinatedPolicyRule) (acc : gmap string RollingUpdate)
    : option (result (gmap string RollingUpdate)) :=
  match rules with
  | [] => Some (Ok acc)
  | rule :: rules' =>
      match calculateRollingUpdateForPolicyRule g (Some rule) roleStatuses with
      | None => None
      | Some (Err e) => Some (Err e)
      | Some (Ok strategy) =>
          CalculateRollingUpdate_rules g roleStatuses rules' (mergeStrategyRollingUpdate strategy acc)
      end
  end.

Definition CalculateRollingUpdateForAllCoordination (g : RoleBasedGroup) (policy : option CoordinatedPolicy)
    (roleStatuses : list RoleStatus) : option (result (gmap string RollingUpdate)) :=
  match policy with
  | None => Some (Ok ∅)
  | Some p => CalculateRollingUpdate_rules g roleStatuses (cp_Policies p) ∅
  end.
End rolling.

Definition handleCoordinationStrategies `{SortSlice} (ParseFloat : string -> result float64)
    (ListPods : string -> labels -> result (list Pod)) (read : get_result CoordinatedPolicy)
    (g : RoleBasedGroup) (roleStatuses : list RoleStatus)
    : option (result (gmap string Z * gmap string RollingUpdate)) :=
  match read with
  | NotFound => Some (Ok (∅, ∅))
  | GetError e => Some (Err e)
  | Found policy =>
      match CalculateScalingForAllCoordination ParseFloat ListPods g (Some policy) roleStatuses with
      | None => None
      | Some (Err e) => Some (Err e)
      | Some (Ok scalingTargets) =>
          match CalculateRollingUpdateForAllCoordination g (Some policy) roleStatuses with
          | None => None
          | Some (Err e) => Some (Err e)
          | Some (Ok strategies) => Some (Ok (scalingTargets, strategies))
          end
      end
  end.

(** * Gang minimums: lemmas *)

Lemma raise_target_max minimums r t :
  raise_target minimums r t = match minimums !! r with Some m => Z.max t m | None => t end.
Proof. unfold raise_target. destruct (minimums !! r); bcase. Qed.

Lemma raised_keys (f : string * Z -> bool) (m : gmap string Z) r :
  r ∈ map fst (List.filter f (map_to_list m)) <-> exists t, m !! r = Some t /\ f (r, t) = true.
Proof.
  rewrite list_elem_of_fmap. split.
  - intros ([k t] & -> & Hin). apply list_elem_of_In, List.filter_In in Hin as [Hin Hf].
    apply list_elem_of_In, elem_of_map_to_list in Hin. eauto.
  - intros (t & Ht & Hf). exists (r, t). split; [done|].
    apply list_elem_of_In, List.filter_In. split; [|done]. by apply list_elem_of_In, elem_of_map_to_list.
Qed.

(** * Rolling updates: lemmas *)

Lemma round_div_exact n d :
  0 <= n < 2 ^ 52 -> 0 < d < 2 ^ 52 -> (2 * n + d) / (2 * d) <= int32_max ->
  round_div n d = (2 * n + d) / (2 * d).
Proof.
  intros Hn Hd Hle. unfold round_div. rewrite f_div_int, f_round_rnd by lia. simpl.
  rewrite bool_decide_eq_true_2; [done|]. pose proof (Z.div_pos (2 * n + d) (2 * d)). unfold_int. lia.
Qed.

Lemma round_half_bounds n d :
  0 < d -> 2 * d * ((2 * n + d) / (2 * d)) <= 2 * n + d < 2 * d * ((2 * n + d) / (2 * d)) + 2 * d.
Proof.
  intros Hd. pose proof (Z.div_mod (2 * n + d) (2 * d) ltac:(lia)).
  pose proof (Z.mod_pos_bound (2 * n + d) (2 * d) ltac:(lia)). lia.
Qed.

Lemma scaled_percent p : 0 <= p <= 1000 -> scaled_or_zero (Some (FromString (percent p))) 100 true = p.
Proof.
  intros Hp. unfold scaled_or_zero. rewrite GetScaled_percent by lia.
  symmetry. apply Z.div_unique with 99; lia.
Qed.

(** The bound is the pair of integers nearest to the rationals of the skew inequality. *)
Definition nearest (n d : Z) : Z := (2 * n + d) / (2 * d).

Lemma nearest_le n n' d : 0 < d -> n <= n' -> nearest n d <= nearest n' d.
Proof. intros. apply Z.div_le_mono; lia. Qed.

Lemma nearest_bounds n d :
  0 < d -> 2 * d * nearest n d <= 2 * n + d < 2 * d * nearest n d + 2 * d.
Proof. apply round_half_bounds. Qed.

Lemma nearest_upper n d k : 0 < d -> n <= k * d -> nearest n d <= k.
Proof.
  intros Hd Hn. unfold nearest. apply Z.lt_succ_r. apply Z.div_lt_upper_bound; nia.
Qed.

Lemma bound_percent a b d p :
  0 <= a <= 1000000 -> 0 < b <= 1000000 -> 0 <= d <= 1000000 -> 0 <= p <= 100 -> a <= b ->
  calculateCoordinationUpdatedReplicasBound (FromString (percent p)) a b d
  = (nearest (Z.max (100 * a * d - p * b * d) 0) (100 * b), nearest (100 * a * d + p * b * d) (100 * b))
  /\ nearest (100 * a * d + p * b * d) (100 * b) <= 2 * d.
Proof.
  intros Ha Hb Hd Hp Hab. unfold calculateCoordinationUpdatedReplicasBound.
  replace (b =? 0) with false by (symmetry; apply Z.eqb_neq; lia).
  rewrite scaled_percent by lia.
  assert (0 <= a * d <= b * d) by nia. assert (0 <= b * d <= 10 ^ 12) by nia.
  assert (0 <= p * (b * d) <= 100 * (b * d)) by nia.
  replace (100 * a * d) with (100 * (a * d)) by ring. replace (p * b * d) with (p * (b * d)) by ring.
  rewrite !(int64_id (100 * _)), !(int64_id (p * _)) by (unfold_int; lia).
  rewrite !int64_id by (unfold_int; lia).
  assert (nearest (100 * (a * d) + p * (b * d)) (100 * b) <= 2 * d) as Hup by (apply nearest_upper; nia).
  assert (nearest (Z.max (100 * (a * d) - p * (b * d)) 0) (100 * b) <= 2 * d) as Hlo.
  { etrans; [|exact Hup]. apply nearest_le; lia. }
  split; [|done].
  rewrite (Z.max_l (p * (b * d) + 100 * (a * d)) 0) by lia.
  rewrite (Z.add_comm (p * (b * d))). unfold nearest in *.
  rewrite !round_div_exact; unfold_int; done || lia.
Qed.

(** ** The slowest and the fastest role

    The comparison of [getFastestAndSlowestRole] takes ratios that differ by at
    most a millionth for equal, so between large counts it is not transitive and
    a sort may leave any role in front.  Up to 700 replicas two ratios that
    differ do so by more, floats included, and the order is that of progress. *)

(** Three roles the comparison puts in a circle. *)
Example ratio_less_circle :
  let updated : gmap string Z := <["a" := 493]> (<["b" := 641]> (<["c" := 567]> ∅)) in
  let desired : gmap string Z := <["a" := 1006]> (<["b" := 1308]> (<["c" := 1157]> ∅)) in
  let less := ratio_less desired updated in
  less "a" "b" = true /\ less "b" "c" = true /\ less "c" "a" = true.
Proof. vm_compute. by repeat split. Qed.

Lemma abs_rnd n d : 0 < d -> ABSFloat64 (rnd n d) = rnd (Z.abs n) d.
Proof.
  intros Hd. destruct (rnd_error (Z.abs n) d ltac:(lia) Hd) as (m & e & Heq & Hm & Herr).
  pose proof (fden_pos e). pose proof (pow2_pos e). rewrite Heq.
  destruct (Z.le_gt_cases 0 n) as [Hn|Hn].
  - rewrite Z.abs_eq in Heq by done. rewrite Heq. unfold ABSFloat64. cbn [f_ltb].
    replace (_ <? _) with false; [done|]. symmetry. apply Z.ltb_ge. unfold fnum. change (fden 0) with 1. nia.
  - replace n with (- Z.abs n) by lia. rewrite rnd_opp, Heq. unfold ABSFloat64. cbn [f_opp f_ltb].
    replace (_ <? _) with true; [by rewrite Z.opp_involutive|]. symmetry. apply Z.ltb_lt.
    assert (m <> 0) by (intros ->; unfold fnum in Herr; nia).
    unfold fnum. change (fden 0) with 1. nia.
Qed.

Lemma ratio_diff a b c d X P Y Q :
  0 <= a <= b -> 0 <= c <= d -> 0 < b -> 0 < d -> 0 < P -> 0 < Q ->
  2 ^ 53 * Z.abs (X * b - a * P) <= a * P -> 2 ^ 53 * Z.abs (Y * d - c * Q) <= c * Q ->
  2 ^ 52 * Z.abs ((X * Q - Y * P) * (b * d) - (a * d - c * b) * (P * Q)) <= P * Q * (b * d).
Proof.
  intros Ha Hc Hb Hd HP HQ HX HY.
  replace ((X * Q - Y * P) * (b * d) - (a * d - c * b) * (P * Q))
    with ((X * b - a * P) * (d * Q) - (Y * d - c * Q) * (b * P)) by ring.
  assert (2 ^ 53 * Z.abs ((X * b - a * P) * (d * Q)) <= P * Q * (b * d)) as H1.
  { rewrite Z.abs_mul, (Z.abs_eq (d * Q)) by nia. 
    transitivity (a * P * (d * Q)); [|nia].
    rewrite Z.mul_assoc. apply Z.mul_le_mono_nonneg_r; [nia|done]. }
  assert (2 ^ 53 * Z.abs ((Y * d - c * Q) * (b * P)) <= P * Q * (b * d)) as H2.
  { rewrite Z.abs_mul, (Z.abs_eq (b * P)) by nia.
    transitivity (c * Q * (b * P)); [|nia].
    rewrite Z.mul_assoc. apply Z.mul_le_mono_nonneg_r; [nia|done]. }
  change (2 ^ 53) with (2 ^ 52 * 2) in *. lia.
Qed.

(** Ratios of small counts: the difference of two is within the tolerance only
    when they are equal. *)
Lemma ratio_close a b c d :
  0 <= a <= b -> 0 <= c <= d -> 0 < b <= 700 -> 0 < d <= 700 ->
  f_gtb (ABSFloat64 (f_sub (rnd a b) (rnd c d))) (rnd 1 1000000) = negb (a * d =? c * b) /\
  (a * d <> c * b -> f_ltb (rnd a b) (rnd c d) = (a * d <? c * b)).
Proof.
  intros Ha Hc Hb Hd.
  destruct (rnd_error a b) as (m1 & e1 & -> & Hm1 & HX); [lia..|].
  destruct (rnd_error c d) as (m2 & e2 & -> & Hm2 & HY); [lia..|].
  pose proof (fden_pos e1) as HP. pose proof (fden_pos e2) as HQ.
  pose proof (ratio_diff a b c d _ _ _ _ ltac:(lia) ltac:(lia) ltac:(lia) ltac:(lia) HP HQ HX HY) as Hdiff.
  cbn [f_sub f_add f_opp]. unfold f_sub. cbn [f_opp f_add f_ltb].
  replace (fnum (- m2) e2) with (- fnum m2 e2) by (unfold fnum; lia).
  replace (fnum m1 e1 * fden e2 + - fnum m2 e2 * fden e1) with (fnum m1 e1 * fden e2 - fnum m2 e2 * fden e1) by ring.
  replace (fnum m1 e1 * fden e2 <? fnum m2 e2 * fden e1)
    with (fnum m1 e1 * fden e2 - fnum m2 e2 * fden e1 <? 0)
    by (apply Bool.eq_iff_eq_true; rewrite !Z.ltb_lt; lia).
  set (N := fnum m1 e1 * fden e2 - fnum m2 e2 * fden e1) in *. rewrite abs_rnd by nia.
    destruct (rnd_error (Z.abs N) (fden e1 * fden e2)) as (m & e & -> & Hm & Herr); [nia..|].
  assert (0 < fden e1 * fden e2) as HD by nia. set (D := fden e1 * fden e2) in *.
  change (rnd 1 1000000) with (Fin 4722366482869645 (-72)). cbn [f_gtb]. unfold f_gtb. cbn [f_ltb].
  change (fnum 4722366482869645 (-72)) with 4722366482869645. change (fden (-72)) with (2 ^ 72).
  pose proof (fden_pos e) as HW. set (V := fnum m e) in *. set (W := fden e) in *.
  clearbody N D V W. clear - Ha Hc Hb Hd Hdiff Herr HD HW.
  assert (0 < b * d <= 490000) as Hbd by nia.
  set (k := b * d) in *. set (diff := a * d - c * b) in *.
  replace (a * d =? c * b) with (diff =? 0) by (unfold diff; lia).
  replace (a * d <? c * b) with (diff <? 0) by (unfold diff; lia).
  assert (a * d <> c * b <-> diff <> 0) as -> by lia.
  clearbody k diff. destruct (Z.eqb_spec diff 0) as [->|Hne]; cbn [negb].
  - split; [|done]. apply Z.ltb_ge. rewrite Z.mul_0_l, Z.sub_0_r, Z.abs_mul, (Z.abs_eq k) in Hdiff by lia.
    assert (2 ^ 52 * Z.abs N <= D) as HN by nia.
    assert (2 ^ 51 * V * D <= W * D) by nia. assert (2 ^ 51 * V <= W) by nia. lia.
  - assert (D * (2 ^ 52 - k) <= 2 ^ 52 * (Z.abs N * k) /\ (N < 0 <-> diff < 0)) as [HN Hsgn].
    { destruct (Z.le_gt_cases 0 diff).
      - assert (D <= diff * D) by nia. assert (D * (2 ^ 52 - k) <= 2 ^ 52 * (N * k)) by lia.
        assert (0 < N) by nia. rewrite Z.abs_eq by lia. lia.
      - assert (diff * D <= - D) by nia. assert (2 ^ 52 * (N * k) <= - (D * (2 ^ 52 - k))) by lia.
        assert (N < 0) by nia. rewrite Z.abs_neq by lia. lia. }
    split; [apply Z.ltb_lt|intros _; apply Bool.eq_iff_eq_true; rewrite !Z.ltb_lt; done].
    clear Hsgn. set (n := Z.abs N) in *. assert (0 <= n) by lia. clearbody n.
    assert (D * (2 ^ 52 - 490000) <= 2 ^ 52 * 490000 * n) as HN' by nia.
    assert ((2 ^ 53 - 1) * (n * W) <= 2 ^ 53 * (V * D)) as HV by lia.
    assert ((2 ^ 53 - 1) * (D * (2 ^ 52 - 490000)) * W <= 2 ^ 105 * 490000 * V * D) as Hc1.
    { assert (D * (2 ^ 52 - 490000) * W <= 2 ^ 52 * 490000 * (n * W)) by nia. lia. }
    assert ((2 ^ 53 - 1) * (2 ^ 52 - 490000) * W <= 2 ^ 105 * 490000 * V) by nia. lia.
Qed.

(** Progress: the smaller part updated first, and the larger role between equals. *)
Definition progress_less (desired updated : gmap string Z) (x y : string) : bool :=
  if zget updated x * zget desired y =? zget updated y * zget desired x
  then zget desired x >? zget desired y
  else zget updated x * zget desired y <? zget updated y * zget desired x.

Definition counted (desired updated : gmap string Z) (r : string) : Prop :=
  0 <= zget updated r <= zget desired r /\ 0 < zget desired r <= 700.

Lemma ratio_less_progress desired updated x y :
  counted desired updated x -> counted desired updated y ->
  ratio_less desired updated x y = progress_less desired updated x y.
Proof.
  intros [Hx Hx'] [Hy Hy']. unfold ratio_less, progress_less. rewrite !f_div_int by lia.
  destruct (ratio_close (zget updated x) (zget desired x) (zget updated y) (zget desired y)) as [-> Hlt]; [lia..|].
  destruct (Z.eqb_spec (zget updated x * zget desired y) (zget updated y * zget desired x)) as [|Hne]; cbn [negb]; auto.
Qed.

(** Comparing fractions is transitive. *)
Lemma cross_le_trans a b c d e f :
  0 < b -> 0 < d -> 0 < f -> a * d <= c * b -> c * f <= e * d -> a * f <= e * b.
Proof. intros. assert (a * d * f <= e * d * b) by nia. nia. Qed.

Lemma cross_eq_trans a b c d e f :
  0 < b -> 0 < d -> 0 < f -> a * d = c * b -> c * f = e * d -> a * f = e * b.
Proof. intros. apply (Z.mul_reg_r _ _ d); [lia|]. nia. Qed.

Lemma progress_less_iff desired updated x y :
  progress_less desired updated x y = true <->
  zget updated x * zget desired y < zget updated y * zget desired x \/
  zget updated x * zget desired y = zget updated y * zget desired x /\ zget desired y < zget desired x.
Proof. unfold progress_less. destruct (Z.eqb_spec (zget updated x * zget desired y) (zget updated y * zget desired x)); lia. Qed.

Lemma progress_strict_weak desired updated (P : string -> Prop) :
  (forall r, P r -> counted desired updated r) -> strict_weak_on P (progress_less desired updated).
Proof.
  intros HP. split; [|split].
  - intros x _. apply not_true_iff_false. rewrite progress_less_iff. lia.
  - intros x y z [_ Hx]%HP [_ Hy]%HP [_ Hz]%HP. rewrite !progress_less_iff. intros Hxy Hyz.
    pose proof (cross_le_trans (zget updated x) (zget desired x) (zget updated y) (zget desired y)
                  (zget updated z) (zget desired z) ltac:(lia) ltac:(lia) ltac:(lia) ltac:(lia) ltac:(lia)) as Hle.
    destruct (Z.eq_dec (zget updated x * zget desired z) (zget updated z * zget desired x)) as [He|]; [right|lia].
    pose proof (cross_eq_trans (zget updated z) (zget desired z) (zget updated x) (zget desired x)
                  (zget updated y) (zget desired y)) as H1.
    pose proof (cross_le_trans (zget updated z) (zget desired z) (zget updated x) (zget desired x)
                  (zget updated y) (zget desired y)) as H2.
    pose proof (cross_le_trans (zget updated y) (zget desired y) (zget updated z) (zget desired z)
                  (zget updated x) (zget desired x)) as H3. lia.
  - intros x y z [_ Hx]%HP [_ Hy]%HP [_ Hz]%HP. rewrite !progress_less_iff. intros Hxy.
    pose proof (cross_le_trans (zget updated y) (zget desired y) (zget updated z) (zget desired z)
                  (zget updated x) (zget desired x)) as H1.
    pose proof (cross_le_trans (zget updated z) (zget desired z) (zget updated x) (zget desired x)
                  (zget updated y) (zget desired y)) as H2.
    pose proof (cross_le_trans (zget updated x) (zget desired x) (zget updated y) (zget desired y)
                  (zget updated z) (zget desired z)) as H3. lia.
Qed.

Lemma strict_weak_on_ext {A} (P : A -> Prop) (f g : A -> A -> bool) :
  (forall x y, P x -> P y -> f x y = g x y) -> strict_weak_on P g -> strict_weak_on P f.
Proof.
  intros Hfg (Hi & Ht & Hw). split; [|split].
  - intros x Hx. rewrite Hfg by done. auto.
  - intros x y z Hx Hy Hz. rewrite !Hfg by done. eauto.
  - intros x y z Hx Hy Hz. rewrite !Hfg by done. eauto.
Qed.

Lemma sorted_last {A} (R : A -> A -> Prop) l x y : StronglySorted R l -> last l = Some x -> y ∈ l -> y = x \/ R y x.
Proof.
  induction 1 as [|z l HS IH HF]; [done|]. intros Hl [->|Hy]%elem_of_cons.
  - destruct l as [|z' l']; [left; by simplify_eq/=|]. right. rewrite Forall_forall in HF. apply HF.
    by apply last_Some_elem_of.
  - destruct l as [|z' l']; [by apply elem_of_nil in Hy|]. by apply IH.
Qed.

Lemma fastest_slowest_spec `{SortSlice} roles desired updated :
  (2 <= size roles)%nat ->
  let '(fast, slow) := getFastestAndSlowestRole roles desired updated in
  fast ∈ roles /\ slow ∈ roles /\
  ((forall r, r ∈ roles -> counted desired updated r) -> forall r, r ∈ roles ->
   zget updated slow * zget desired r <= zget updated r * zget desired slow /\
   zget updated r * zget desired fast <= zget updated fast * zget desired r).
Proof.
  intros Hsz. unfold getFastestAndSlowestRole.
  replace (size roles <=? 1)%nat with false by (symmetry; apply Nat.leb_gt; lia).
  pose proof (sort_slice_perm (ratio_less desired updated) (elements roles)) as Hp.
  pose proof (sort_slice_sorted_on (ratio_less desired updated) (elements roles)) as Hsort.
  set (l := sort_slice _ _) in *.
  assert (forall r, r ∈ l <-> r ∈ roles) as Hin by (intros r; by rewrite Hp, elem_of_elements).
  assert (l <> []) as Hne.
  { intros Hl. rewrite Hl in Hp. apply Permutation_nil_l in Hp.
    unfold size, set_size in Hsz. simpl in Hsz. rewrite <-Hp in Hsz. simpl in Hsz. lia. }
  destruct (last l) as [x|] eqn:Hlast; [|by apply last_None in Hlast].
  pose proof (last_Some_elem_of _ _ Hlast) as Hxl.
  destruct l as [|y l']; [done|]. simpl. split; [by apply Hin|]. split; [apply Hin; left|].
  intros Hc. assert (strict_weak_on (fun r => r ∈ elements roles) (progress_less desired updated)) as Hw.
  { apply progress_strict_weak. intros r Hr%elem_of_elements. auto. }
  assert (forall a b, a ∈ roles -> b ∈ roles -> ratio_less desired updated a b = progress_less desired updated a b) as Heq.
  { intros a b Ha Hb. apply ratio_less_progress; auto. }
  specialize (Hsort (strict_weak_on_ext _ _ _ (fun a b Ha Hb => Heq a b
    (proj1 (elem_of_elements _ _) Ha) (proj1 (elem_of_elements _ _) Hb)) Hw)).
  destruct Hw as (Hirr & _ & _). intros r Hr.
  assert (progress_less desired updated r r = false) as Hrr by by apply Hirr, elem_of_elements.
  assert (y ∈ roles /\ x ∈ roles) as [Hy Hx] by (split; apply Hin; [left|done]).
  assert (progress_less desired updated r y = false /\ progress_less desired updated x r = false) as [H1 H2].
  2:{ apply not_true_iff_false in H1, H2. rewrite progress_less_iff in H1, H2. lia. }
  rewrite <-!Heq in * by done. split.
  - inversion Hsort as [|?? _ HF]; subst. apply Hin, elem_of_cons in Hr as [->|Hr]; [done|].
    rewrite Forall_forall in HF. by apply HF.
  - apply Hin in Hr. by destruct (sorted_last _ _ _ _ Hsort Hlast Hr) as [->|].
Qed.

Lemma ParseIntStrAsNonZero_percent p d :
  0 <= p <= 100 -> 0 <= d <= 1000000 ->
  1 <= (ParseIntStrAsNonZero (FromString (percent p)) d).1 <= 1000000.
Proof.
  intros Hp Hd. unfold ParseIntStrAsNonZero. rewrite GetScaled_percent by nia. simpl.
  pose proof (ceil100_bounds (p * d)). set (v := (p * d + 99) / 100) in *.
  assert (v <= 1000000) by nia. rewrite int32_id by (unfold_int; bcase). bcase.
Qed.

Lemma rollingTarget_lookup (updated : gmap string Z) (roles : gset string) r :
  (set_to_map (fun r => (r, zget updated r)) roles : gmap string Z) !! r
  = if bool_decide (r ∈ roles) then Some (zget updated r) else None.
Proof.
  case_bool_decide as Hr.
  - apply (lookup_set_to_map (M := gmap string)); [by intros ? ? _ _|]. eauto.
  - apply eq_None_not_Some. intros [z Hz].
    apply (lookup_set_to_map (M := gmap string)) in Hz as (k & Hk & [= <- _]); [done|by intros ? ? _ _].
Qed.

Lemma shiftr_half_bounds x : 0 <= x -> 0 <= Z.shiftr x 1 <= x.
Proof. intros Hx. rewrite Z.shiftr_div_pow2 by lia. change (2 ^ 1) with 2. split; [apply Z.div_pos; lia|]. apply Z.div_le_upper_bound; lia. Qed.

(** Sizes a group can have, where no int32 operation of the step wraps. *)
Definition sane_counts (roles : gset string) (desired updated : gmap string Z) : Prop :=
  forall r, r ∈ roles -> 0 <= zget updated r <= zget desired r /\ 0 < zget desired r <= 1000000.

Lemma next_step_range maxSkew lo hi u d (ready : bool) :
  1 <= maxSkew <= 1000000 -> 0 <= lo <= 2000000 -> 0 <= hi <= 2000000 -> 0 <= u <= 1000000 -> 
  let balance := Z.shiftr (int32 (int32 (lo + hi) + 1)) 1 in
  let distance := Z.max (int32 (balance - u)) 0 in
  let step := Z.max distance (Z.shiftr maxSkew 1) in
  let step := if (step =? 0) && (u <? d) then 1 else step in
  let step := if ready then Z.max step 1 else step in
  0 <= step <= 5000000 /\ (u < d -> 1 <= step).
Proof.
  intros Hm Hlo Hhi Hu balance distance step step1 step2.
  pose proof (shiftr_half_bounds maxSkew ltac:(lia)).
  assert (0 <= balance <= 4000001) as Hb.
  { subst balance. rewrite !int32_id by (rewrite ?int32_id; unfold_int; lia).
    pose proof (shiftr_half_bounds (lo + hi + 1) ltac:(lia)). lia. }
  assert (0 <= distance <= 4000001) as Hd.
  { subst distance. rewrite int32_id by (unfold_int; lia). lia. }
  subst step2 step1. destruct ready, (_ && _) eqn:E; split; lia.
Qed.

(** * Properties *)

(** Raising the scaling targets lifts each paced role to its gang minimum and
    changes nothing else: no role is added, no target is lowered, and the returned
    names are exactly the roles whose target changed, each once. *)
Theorem raiseScalingTargets_spec `{SortSlice} (targets : gmap string Z) (g : RoleBasedGroup)
    (gangStrategy : option GangStrategy) :
  let '(targets', raised) := raiseScalingTargetsToGangMinimum targets g gangStrategy in
  (forall r, targets' !! r =
     (fun t => match GangMinimumReplicas g gangStrategy !! r with
               | Some m => Z.max t m | None => t end) <$> targets !! r) /\
  (forall r, r ∈ raised <-> targets' !! r <> targets !! r) /\ NoDup raised.
Proof.
  unfold raiseScalingTargetsToGangMinimum.
  destruct (_ || _) eqn:E.
  - split; [|split; [|constructor]].
    + intros r. apply orb_prop in E as [E|E]; apply bool_decide_eq_true in E; subst.
      * by rewrite lookup_empty.
      * simpl. rewrite lookup_empty. by destruct (targets !! r).
    + intros r. split; [set_solver|done].
  - assert (forall r, map_imap (fun r t => Some (raise_target (GangMinimumReplicas g gangStrategy) r t)) targets !! r
              = (fun t => raise_target (GangMinimumReplicas g gangStrategy) r t) <$> targets !! r) as Hl.
    { intros r. rewrite map_lookup_imap. by destruct (targets !! r). }
    split; [|split].
    + intros r. rewrite Hl. destruct (targets !! r); simpl; [|done]. by rewrite raise_target_max.
    + intros r. rewrite sort_slice_perm, raised_keys, Hl.
      destruct (targets !! r) as [t|]; simpl; [|split; [by intros (t & ? & _)|done]].
      split; [intros (t' & [= <-] & Hf)|intros Hne; exists t]; breflect; [congruence|].
      split; [done|]. apply negb_true_iff, Z.eqb_neq. congruence.
    + rewrite sort_slice_perm.
      assert (map fst (List.filter (fun kv : string * Z => negb (raise_target (GangMinimumReplicas g gangStrategy) kv.1 kv.2 =? kv.2)) (map_to_list targets))
              `sublist_of` map fst (map_to_list targets)) as Hsub.
      { apply fmap_sublist. generalize (map_to_list targets). intros l.
        induction l as [|x l IH]; simpl; [done|]. destruct (negb _); by constructor. }
      apply (sublist_NoDup _ _ (NoDup_fst_map_to_list targets) Hsub).
Qed.

(** For a percentage maxSkew the bounds of calculateCoordinationUpdatedReplicasBound
    are the integers nearest to the two ends of the skew inequality
    |a/b - x/d| <= s/100 (clipped at 0), in order, and at most twice the request. *)
Theorem coordination_bound_nearest (a b d p : Z) :
  0 <= a <= b -> 0 < b <= 1000000 -> 0 <= d <= 1000000 -> 0 <= p <= 100 ->
  exists lower upper,
    calculateCoordinationUpdatedReplicasBound (FromString (percent p)) a b d = (lower, upper) /\
    0 <= lower <= upper /\ upper <= 2 * d /\
    2 * 100 * b * lower <= 2 * Z.max (100 * a * d - p * b * d) 0 + 100 * b < 2 * 100 * b * (lower + 1) /\
    2 * 100 * b * upper <= 2 * (100 * a * d + p * b * d) + 100 * b < 2 * 100 * b * (upper + 1).
Proof.
  intros Ha Hb Hd Hp. destruct (bound_percent a b d p) as [Heq Hup]; [lia..|].
  do 2 eexists. split; [exact Heq|]. split; [split|].
  - apply Z.div_pos; lia.
  - apply nearest_le; nia.
  - split; [done|]. unfold nearest.
    pose proof (round_half_bounds (Z.max (100 * a * d - p * b * d) 0) (100 * b) ltac:(lia)).
    pose proof (round_half_bounds (100 * a * d + p * b * d) (100 * b) ltac:(lia)). lia.
Qed.

Lemma coordination_bound_nearest_witness :
  exists lower upper,
    calculateCoordinationUpdatedReplicasBound (FromString (percent 10)) 2 10 4 = (lower, upper) /\
    0 <= lower <= upper /\ upper <= 2 * 4 /\
    2 * 100 * 10 * lower <= 2 * Z.max (100 * 2 * 4 - 10 * 10 * 4) 0 + 100 * 10 < 2 * 100 * 10 * (lower + 1) /\
    2 * 100 * 10 * upper <= 2 * (100 * 2 * 4 + 10 * 10 * 4) + 100 * 10 < 2 * 100 * 10 * (upper + 1).
Proof. apply coordination_bound_nearest; lia. Defined.

(** C37: One step of the coordinated rolling update of roles of at most 1000000
    replicas moves a single role, the slowest.  With at most 700 replicas a role
    the slowest has the least and the fastest the greatest part updated (above,
    the comparison of the code is not an order).  The target of the slowest is at
    most one above [upper], the integer nearest to the part the fastest has
    updated plus the skew, of the replicas of the slowest; every other role keeps
    the replicas it has updated; and while the slowest role is unfinished and
    within the bound its target strictly grows, so the rollout cannot stall. *)
Theorem calculateNextRollingTarget_step `{SortSlice} (p : Z) (roles : gset string)
    (desired updated ready : gmap string Z) :
  0 <= p <= 100 -> (2 <= size roles)%nat -> ""%string ∉ roles -> sane_counts roles desired updated ->
  let target := calculateNextRollingTarget (percent p) roles desired updated ready in
  exists fast slow upper t,
  getFastestAndSlowestRole roles desired updated = (fast, slow) /\
  fast ∈ roles /\ slow ∈ roles /\
  ((forall r, r ∈ roles -> zget desired r <= 700) -> forall r, r ∈ roles ->
     zget updated slow * zget desired r <= zget updated r * zget desired slow /\
     zget updated r * zget desired fast <= zget updated fast * zget desired r) /\
  (let a := zget updated fast in let b := zget desired fast in let d := zget desired slow in
   200 * b * upper <= 2 * (100 * a * d + p * b * d) + 100 * b < 200 * b * (upper + 1)) /\
  target !! slow = Some t /\ t <= upper + 1 /\
  (zget updated slow < zget desired slow -> zget updated slow <= upper -> zget updated slow < t) /\
  (forall r, r ∈ roles -> r <> slow -> target !! r = Some (zget updated r)) /\
  (forall r, r ∉ roles -> target !! r = None).
Proof.
  intros Hp Hsz Hempty Hsane target.
  pose proof (fastest_slowest_spec roles desired updated Hsz) as Hfs. unfold target, calculateNextRollingTarget.
  destruct (getFastestAndSlowestRole roles desired updated) as [fast slow]. destruct Hfs as (Hfast & Hslow & Hext).
  rewrite (bool_decide_eq_false_2 (fast = _)), (bool_decide_eq_false_2 (slow = _)) by congruence. cbn [orb].
  destruct (Hsane fast Hfast) as [Hf1 Hf2], (Hsane slow Hslow) as [Hs1 Hs2].
  destruct (bound_percent (zget updated fast) (zget desired fast) (zget desired slow) p) as [Heq Hup]; [lia..|].
  rewrite Heq. cbn [fst snd]. set (hi := nearest (_ + _) _) in *. set (lo := nearest (Z.max _ _) _) in *.
  assert (0 <= lo <= hi) as Hlo.
  { split; [apply Z.div_pos; lia|]. apply nearest_le; nia. }
  pose proof (ParseIntStrAsNonZero_percent p (zget desired slow) Hp ltac:(lia)) as Hms.
  destruct (next_step_range (ParseIntStrAsNonZero (FromString (percent p)) (zget desired slow)).1 lo hi
              (zget updated slow) (zget desired slow) (zget ready fast =? zget desired fast)) as [Hr1 Hr2]; [lia..|].
  set (step := if zget ready fast =? zget desired fast then _ else _) in *. cbv zeta in Hr1, Hr2.
  fold step in Hr1, Hr2. rewrite !int32_id by (unfold_int; lia). clearbody step.
  exists fast, slow, hi. eexists. split; [done|]. split; [done|]. split; [done|]. split.
  { intros Hsmall r Hr. apply Hext; [|done]. intros r' Hr'. destruct (Hsane r' Hr'). specialize (Hsmall r' Hr'). unfold counted. lia. }
  split.
  { pose proof (nearest_bounds (100 * zget updated fast * zget desired slow + p * zget desired fast * zget desired slow)
                  (100 * zget desired fast) ltac:(lia)) as Hb. fold hi in Hb. clearbody hi. cbv zeta. lia. }
  rewrite lookup_insert_eq. split; [done|]. split; [lia|].
  split; [intros H1 H2; specialize (Hr2 H1); lia|]. split.
  - intros r Hr Hne. rewrite lookup_insert_ne, rollingTarget_lookup by done. by rewrite bool_decide_eq_true_2.
  - intros r Hr. rewrite lookup_insert_ne, rollingTarget_lookup by (intros ->; done). by rewrite bool_decide_eq_false_2.
Qed.

(** * Rule strategies: lemmas *)

Lemma initial_strategies_spec ru cr roles acc m :
  NoDup (map role_Name roles) -> initial_strategies ru cr roles acc = Ok m ->
  (forall r, r ∈ roles -> role_Name r ∈ cr ->
     exists s, initial_strategy ru r = Ok s /\ m !! role_Name r = Some s) /\
  (forall n, n ∉ map role_Name roles -> m !! n = acc !! n).
Proof.
  revert acc. induction roles as [|r roles IH]; intros acc Hnd Heq; simpl in *.
  { injection Heq as <-. split; [set_solver|done]. }
  apply NoDup_cons in Hnd as [Hr Hnd]. case_bool_decide as Hc.
  - destruct (initial_strategy ru r) as [s|] eqn:Hs; [|done]. simpl in Heq.
    destruct (IH _ Hnd Heq) as [Hin Hout]. split.
    + intros x [->|Hx]%elem_of_cons Hxc; [|auto]. exists s. split; [done|].
      by rewrite (Hout _ Hr), lookup_insert_eq.
    + intros n [Hn Hn']%not_elem_of_cons. by rewrite (Hout _ Hn'), lookup_insert_ne.
  - destruct (IH _ Hnd Heq) as [Hin Hout]. split.
    + intros x [->|Hx]%elem_of_cons Hxc; [done|auto].
    + intros n [Hn Hn']%not_elem_of_cons. by apply Hout.
Qed.

Lemma step_strategies_spec cr target roles acc m :
  NoDup (map role_Name roles) -> step_strategies cr target roles acc = Ok m ->
  (forall r t, r ∈ roles -> role_Name r ∈ cr -> target !! role_Name r = Some t ->
     exists s, step_strategy r t (default empty_RollingUpdate (acc !! role_Name r)) = Ok s /\
               m !! role_Name r = Some s) /\
  (forall n, n ∉ map role_Name roles -> m !! n = acc !! n).
Proof.
  revert acc. induction roles as [|r roles IH]; intros acc Hnd Heq; simpl in *.
  { injection Heq as <-. split; [set_solver|done]. }
  apply NoDup_cons in Hnd as [Hr Hnd].
  assert (forall acc', step_strategies cr target roles acc' = Ok m ->
    (forall x, x <> role_Name r -> acc' !! x = acc !! x) ->
    (forall x t, x ∈ roles -> role_Name x ∈ cr -> target !! role_Name x = Some t ->
       exists s, step_strategy x t (default empty_RollingUpdate (acc !! role_Name x)) = Ok s /\
                 m !! role_Name x = Some s) /\
    (forall n, n ∉ map role_Name roles -> m !! n = acc' !! n)) as Hgo.
  { intros acc' Heq' Hacc. destruct (IH _ Hnd Heq') as [Hin Hout]. split; [|done].
    intros x t Hx Hxc Ht. destruct (Hin x t Hx Hxc Ht) as (s & Hs & Hm). exists s. split; [|done].
    rewrite <-Hacc; [done|]. intros He. apply Hr. rewrite <-He. apply list_elem_of_fmap. eauto. }
  case_bool_decide as Hc; [destruct (target !! role_Name r) as [t0|] eqn:Ht0|].
  - destruct (step_strategy r t0 _) as [s|] eqn:Hs; [|done]. simpl in Heq.
    destruct (Hgo _ Heq) as [Hin Hout]; [intros x Hx; by apply lookup_insert_ne|]. split.
    + intros x t [->|Hx]%elem_of_cons Hxc Ht; [|eauto]. simplify_eq. exists s. split; [done|].
      by rewrite (Hout _ Hr), lookup_insert_eq.
    + intros n [Hn Hn']%not_elem_of_cons. by rewrite (Hout _ Hn'), lookup_insert_ne.
  - destruct (Hgo _ Heq) as [Hin Hout]; [done|]. split.
    + intros x t [->|Hx]%elem_of_cons Hxc Ht; [congruence|eauto].
    + intros n [Hn Hn']%not_elem_of_cons. by apply Hout.
  - destruct (Hgo _ Heq) as [Hin Hout]; [done|]. split.
    + intros x t [->|Hx]%elem_of_cons Hxc Ht; [done|eauto].
    + intros n [Hn Hn']%not_elem_of_cons. by apply Hout.
Qed.

Lemma step_strategy_spec role t s s' n :
  role_Replicas role = Some n -> step_strategy role t s = Ok s' ->
  exists p, s' = with_Partition (Some (FromInt32 p)) s /\ int32 (n - t) <= p /\ 0 <= p /\
    (forall u, ru_Partition s = Some (FromInt32 u) -> is_int32 u -> u <= p) /\
    (forall q u, ru_Partition s = Some q -> GetScaledValueFromIntOrPercent (Some q) n true = Ok u ->
                 is_int32 u -> u <= p).
Proof.
  intros Hn. unfold step_strategy. rewrite Hn.
  destruct (ru_Partition s) as [q|] eqn:Hq; cbn [mbind result_bind].
  - destruct (GetScaledValueFromIntOrPercent (Some q) n true) as [v|] eqn:Hv; [|done].
    cbn [mbind result_bind]. intros [= <-]. eexists. split; [done|].
    assert (forall u, GetScaledValueFromIntOrPercent (Some q) n true = Ok u -> is_int32 u ->
              u <= (if Z.max (int32 (n - t)) 0 >? int32 v then Z.max (int32 (n - t)) 0 else int32 v)) as Hu.
    { intros u Hu Hr. rewrite Hv in Hu. injection Hu as ->. rewrite (int32_id u) by done. bcase. }
    split_and!; [bcase|bcase| |].
    + intros u [= ->]. by apply Hu.
    + intros q' u [= <-]. apply Hu.
  - intros [= <-]. eexists. split; [done|]. split_and!; [bcase|bcase|done|done].
Qed.

Lemma initial_strategy_spec ru role s :
  initial_strategy ru role = Ok s ->
  (forall q, rc_Partition ru = Some q ->
     exists u, CalculatePartitionReplicas (Some q) (role_Replicas role) = Ok u /\
               ru_Partition s = Some (FromInt32 (int32 u))) /\
  (forall v, rc_MaxUnavailable ru = Some v -> ru_MaxUnavailable s = Some v).
Proof.
  unfold initial_strategy. destruct (rc_Partition ru) as [q|].
  - destruct (CalculatePartitionReplicas (Some q) (role_Replicas role)) as [u|] eqn:Hu; [|done].
    cbn [mbind result_bind]. intros [= <-]. split.
    + intros q' [= <-]. by exists u.
    + intros v Hv. by rewrite Hv.
  - intros [= <-]. split; [done|]. intros v Hv. by rewrite Hv.
Qed.

(** The partition a coordination rule sets never lets a role update more
    replicas than the coordinated target of this step, and never goes below the
    partition the rule itself asks for; the rule's maxUnavailable replaces the
    role's when it gives one. *)
Theorem rolling_partition_respected `{SortSlice} (g : RoleBasedGroup) (rule : CoordinatedPolicyRule)
    (ru : RollingUpdateCoordination) (statuses : list RoleStatus) (m : gmap string RollingUpdate)
    (targets : gmap string Z) (role : RoleSpec) (n t : Z) :
  NoDup (map role_Name (rbg_Roles g)) -> rule_RollingUpdate rule = Some ru -> (2 <= length (rule_Roles rule))%nat ->
  calculateRollingUpdateForPolicyRule g (Some rule) statuses = Some (Ok m) ->
  calculateNextRollingTargetFromPolicy g rule statuses (coordination_roles g rule) = Some targets ->
  role ∈ rbg_Roles g -> role_Name role ∈ coordination_roles g rule -> targets !! role_Name role = Some t ->
  role_Replicas role = Some n -> is_int32 (n - t) -> 0 <= n <= int32_max ->
  exists s p, m !! role_Name role = Some s /\ ru_Partition s = Some (FromInt32 p) /\
    n - p <= t /\ 0 <= p /\
    (forall q u, rc_Partition ru = Some q -> CalculatePartitionReplicas (Some q) (Some n) = Ok u -> u <= p) /\
    (forall v, rc_MaxUnavailable ru = Some v -> ru_MaxUnavailable s = Some v).
Proof.
  intros Hnd Hru Hlen Hcalc Htargets Hrole Hcr Ht Hn Hint Hnr. unfold calculateRollingUpdateForPolicyRule in Hcalc.
  rewrite Hru in Hcalc. replace (length (rule_Roles rule) <=? 1)%nat with false in Hcalc by (symmetry; apply Nat.leb_gt; lia).
  destruct (initial_strategies _ _ _ _) as [m0|] eqn:H0 in Hcalc; [|done].
  rewrite Htargets in Hcalc. injection Hcalc as Hcalc.
  destruct (initial_strategies_spec _ _ _ _ _ Hnd H0) as [Hini _].
  destruct (Hini role Hrole Hcr) as (s0 & Hs0 & Hm0).
  destruct (step_strategies_spec _ _ _ _ _ Hnd Hcalc) as [Hstep _].
  destruct (Hstep role t Hrole Hcr Ht) as (s & Hs & Hm). rewrite Hm0 in Hs. simpl in Hs.
  destruct (step_strategy_spec _ _ _ _ _ Hn Hs) as (p & -> & Hp1 & Hp0 & Hp2 & _).
  rewrite int32_id in Hp1 by done.
  exists (with_Partition (Some (FromInt32 p)) s0), p. split; [done|]. split; [done|]. split; [lia|]. split; [done|].
  apply initial_strategy_spec in Hs0 as [Hpart Hmu]. split; [|done].
  intros q u Hq Hu. specialize (Hpart q Hq). rewrite Hn, Hu in Hpart.
  pose proof (CalculatePartitionReplicas_range (Some q) n u ltac:(lia) Hu).
  destruct Hpart as (u' & [= <-] & Hpart). rewrite int32_id in Hpart by (unfold_int; lia).
  apply Hp2; [done|unfold_int; lia].
Qed.

(** When two rules set the strategy of one role, the merged strategy takes the
    larger partition and the smaller maxUnavailable (both resolved against 100),
    and roles of a single rule keep its strategy. *)
Theorem mergeStrategyRollingUpdate_spec (A B : gmap string RollingUpdate) (r : string) :
  let partition s := match ru_Partition s with Some _ => scaled_or_zero (ru_Partition s) 100 true | None => 0 end in
  let maxUnavailable s := scaled_or_zero (ru_MaxUnavailable s) 100 true in
  match A !! r, B !! r with
  | Some a, Some b =>
      exists s, mergeStrategyRollingUpdate A B !! r = Some s /\
        partition s = Z.max (partition a) (partition b) /\
        maxUnavailable s = Z.min (maxUnavailable a) (maxUnavailable b)
  | Some a, None => mergeStrategyRollingUpdate A B !! r = Some a
  | None, o => mergeStrategyRollingUpdate A B !! r = o
  end.
Proof.
  intros partition maxUnavailable. unfold mergeStrategyRollingUpdate.
  rewrite lookup_union_with. destruct (A !! r) as [a|], (B !! r) as [b|]; [|done..].
  exists (merge_strategy a b). split; [done|]. unfold merge_strategy.
  fold (maxUnavailable a) (maxUnavailable b).
  destruct (maxUnavailable a >? maxUnavailable b) eqn:E1; breflect.
  - set (a' := with_MaxUnavailable _ a).
    change (match ru_Partition a' with Some _ => _ | None => 0 end) with (partition a).
    fold (partition b). destruct (partition a <? partition b) eqn:E2; breflect; unfold partition, maxUnavailable in *; simpl; lia.
  - fold (partition a) (partition b).
    destruct (partition a <? partition b) eqn:E2; breflect; unfold partition, maxUnavailable in *; simpl; lia.
Qed.

(** * Scaling over all rules: lemmas *)

Section scaling_spec.
Context `{SortSlice} (ParseFloat : string -> result float64) (ListPods : string -> labels -> result (list Pod)).
Context (g : RoleBasedGroup) (statuses : list RoleStatus).

Definition current_replicas (r : string) : Z :=
  match List.find (fun s => bool_decide (rst_Name s = r)) statuses with Some s => rst_Replicas s | None => 0 end.

Definition in_range (r : string) (t : Z) : Prop :=
  (GetRoleReplicasV2 g r <= current_replicas r -> t = GetRoleReplicasV2 g r \/ t = current_replicas r) /\
  (current_replicas r < GetRoleReplicasV2 g r -> current_replicas r <= t <= GetRoleReplicasV2 g r).

Context (Hcur : forall r, is_int32 (current_replicas r)) (Hdes : forall r, is_int32 (GetRoleReplicasV2 g r)).

Lemma role_states_lookup roles acc m r st :
  role_states ListPods g statuses roles acc = Ok m -> m !! r = Some st ->
  acc !! r = Some st \/
  (rs_CurrentReplicas st = current_replicas r /\ rs_DesiredReplicas st = GetRoleReplicasV2 g r).
Proof.
  revert acc. induction roles as [|x roles IH]; intros acc; simpl.
  { intros [= ->] Hm. by left. }
  destruct (role_state ListPods g statuses x) as [sx|] eqn:Hx; [|done]. simpl. intros Hm Hr.
  destruct (IH _ Hm Hr) as [Hin|?]; [|by right].
  rewrite lookup_insert in Hin. case_decide as Hxr; [|by left]. right. injection Hin as ->. subst x.
  unfold role_state in Hx. destruct (getPodSchedulingCounts _ _ _ _) as [[sc ex]|]; [|done]. by injection Hx as <-.
Qed.

Lemma in_range_min r t t' : in_range r t -> in_range r t' -> in_range r (if t' <? t then t' else t).
Proof. intros ? ?. by destruct (t' <? t). Qed.

Lemma CalculateScaling_rules_range rules acc m :
  (forall r t, acc !! r = Some t -> in_range r t) ->
  CalculateScaling_rules ParseFloat ListPods g statuses rules acc = Some (Ok m) ->
  forall r t, m !! r = Some t -> in_range r t.
Proof.
  revert acc. induction rules as [|rule rules IH]; intros acc Hacc; cbn [CalculateScaling_rules].
  { by intros [= <-]. }
  destruct (rule_Scaling rule); [|by apply IH].
  destruct (NewCoordinationScalerFromPolicy ParseFloat (Some rule)) as [scaler|]; [|done].
  destruct (role_states _ _ _ _ _) as [states|] eqn:Hst; [|done].
  destruct (CalculateTargetReplicas states scaler) as [[targets|]|] eqn:Ht; [|done..].
  apply IH. intros r t. unfold merge_targets. rewrite lookup_union_with.
  assert (forall t, targets !! r = Some t -> in_range r t) as Htr.
  { intros t' Ht'.
    assert (is_int32 0) as H0 by (unfold_int; lia).
    destruct (states !! r) as [st|] eqn:Hr.
    - destruct (role_states_lookup _ _ _ _ _ Hst Hr) as [Hn|[Hc Hd]]; [by rewrite lookup_empty in Hn|].
      pose proof (CalculateTargetReplicas_range states scaler targets r t' Ht Ht') as Hgo.
      unfold state_of in Hgo. rewrite Hr in Hgo. simpl in Hgo. rewrite Hc, Hd in Hgo.
      destruct Hgo as [H1 H2]; [done..|]. rewrite Hc, Hd in H1, H2. by split.
    - exfalso. revert Ht'. apply eq_None_ne_Some.
      destruct (decide (r ∈ GetCoordinationRoles scaler)) as [Hin|Hin].
      + unfold CalculateTargetReplicas in Ht. case_bool_decide; [done|].
        destruct (forallb _ _) eqn:Hall in Ht; [|done].
        rewrite List.forallb_forall in Hall. specialize (Hall r (proj1 (list_elem_of_In _ _) Hin)).
        breflect. rewrite Hr in Hall. by destruct Hall.
      + by eapply CalculateTargetReplicas_dom. }
  destruct (acc !! r) as [e|] eqn:He, (targets !! r) as [t0|]; simpl; intros [= <-]; auto using in_range_min.
Qed.
End scaling_spec.

(** Whatever rules a CoordinatedPolicy stacks on a role, the replica target
    coordination hands out never leaves the way from the replicas the role runs
    to the ones it wants: a role that must grow gets a target between the two, and
    a role that must not is told one of them. *)
Theorem coordinated_scaling_range `{SortSlice} (ParseFloat : string -> result float64)
    (ListPods : string -> labels -> result (list Pod)) (g : RoleBasedGroup) (statuses : list RoleStatus)
    (policy : CoordinatedPolicy) (m : gmap string Z) (r : string) (t : Z) :
  (forall r, is_int32 (current_replicas statuses r)) -> (forall r, is_int32 (GetRoleReplicasV2 g r)) ->
  CalculateScalingForAllCoordination ParseFloat ListPods g (Some policy) statuses = Some (Ok m) ->
  m !! r = Some t -> in_range g statuses r t.
Proof.
  intros Hc Hd Hm Hr. by eapply CalculateScaling_rules_range; [..|exact Hm|exact Hr].
Qed.

(** * Witnesses *)

Module Witness.
Definition role (name : string) (n : Z) : RoleSpec := {|
  role_Name := name; role_Labels := ∅; role_Annotations := ∅; role_Replicas := Some n;
  role_RollingUpdate := None; role_Dependencies := [];
  role_Pattern := standalone no_template;
  role_ScalingAdapter := None; role_MinReadySeconds := 0; role_rest := no_rest |}.

Definition g : RoleBasedGroup := {|
  rbg_meta := with_name "pd" "default" empty_meta;
  rbg_Roles := [role "prefill" 10; role "decode" 4]; rbg_RoleTemplates := []; rbg_Conditions := []; rbg_ObservedGeneration := 1; rbg_RoleStatuses := [] |}.

Definition ru : RollingUpdateCoordination := {|
  rc_MaxSkew := Some (FromString (percent 10)); rc_Partition := Some (FromString (percent 20));
  rc_MaxUnavailable := Some (FromInt32 1) |}.

Definition rule : CoordinatedPolicyRule := {|
  rule_Name := "pd"; rule_Roles := ["prefill"; "decode"]; rule_RollingUpdate := Some ru;
  rule_Scaling := Some {| sc_MaxSkew := Some (FromString "20%"); sc_Progression := OrderReadyProgression |};
  rule_Gang := None |}.

Definition policy : CoordinatedPolicy := {| cp_meta := empty_meta; cp_Policies := [rule] |}.

Definition statuses : list RoleStatus :=
  [{| rst_Name := "prefill"; rst_ReadyReplicas := 4; rst_Replicas := 4; rst_UpdatedReplicas := 2 |};
   {| rst_Name := "decode"; rst_ReadyReplicas := 4; rst_Replicas := 2; rst_UpdatedReplicas := 0 |}].

Definition ListPods (ns : string) (l : labels) : result (list Pod) := Ok [].
Definition ParseFloat (s : string) : result float64 := v ← Atoi s; Ok (f_of_int v).

Definition desired : gmap string Z := {["prefill" := 10; "decode" := 4]}.
Definition updated : gmap string Z := {["prefill" := 2; "decode" := 0]}.

Definition strategies : gmap string RollingUpdate :=
  Eval vm_compute in
    match calculateRollingUpdateForPolicyRule g (Some rule) statuses with Some (Ok m) => m | _ => ∅ end.

Definition scaling : gmap string Z :=
  Eval vm_compute in
    match CalculateScalingForAllCoordination ParseFloat ListPods g (Some policy) statuses with
    | Some (Ok m) => m | _ => ∅ end.
End Witness.

Lemma calculateNextRollingTarget_step_witness :
  let roles : gset string := {["prefill"; "decode"]} in
  exists t, calculateNextRollingTarget (percent 10) roles Witness.desired Witness.updated ∅ !! "decode" = Some t /\
    0 < t.
Proof.
  intros roles.
  assert (getFastestAndSlowestRole roles Witness.desired Witness.updated = ("prefill", "decode")%string) as Hfs
    by by vm_compute.
  destruct (calculateNextRollingTarget_step 10 roles Witness.desired Witness.updated ∅)
    as (fast & slow & upper & t & Heq & _ & _ & _ & Hup & Ht & _ & Hgrow & _).
  - lia.
  - by vm_compute; lia.
  - apply (bool_decide_unpack (~ _)). by vm_compute.
  - intros r Hr. unfold roles in Hr. apply elem_of_union in Hr as [->%elem_of_singleton| ->%elem_of_singleton];
      vm_compute; repeat split; discriminate.
  - rewrite Hfs in Heq. injection Heq as <- <-. cbv zeta in Hup. exists t. split; [exact Ht|].
    change (zget Witness.updated "decode") with 0 in Hgrow, Hup |- *. change (zget Witness.desired "decode") with 4 in Hgrow, Hup.
    change (zget Witness.updated "prefill") with 2 in Hup. change (zget Witness.desired "prefill") with 10 in Hup.
    apply Hgrow; lia.
Defined.

Lemma rolling_partition_respected_witness :
  exists s p, Witness.strategies !! "prefill" = Some s /\ ru_Partition s = Some (FromInt32 p) /\ 10 - p <= 2.
Proof.
  destruct (rolling_partition_respected Witness.g Witness.rule Witness.ru Witness.statuses Witness.strategies
              {["prefill" := 2; "decode" := 1]} (Witness.role "prefill" 10) 10 2) as (s & p & H1 & H2 & H3 & _).
  - apply (bool_decide_unpack (NoDup _)). by vm_compute.
  - done.
  - by vm_compute; lia.
  - by vm_compute.
  - by vm_compute.
  - apply elem_of_cons. by left.
  - apply (bool_decide_unpack (_ ∈ _)). by vm_compute.
  - by vm_compute.
  - done.
  - by unfold_int.
  - by unfold_int.
  - exists s, p. split; [exact H1|]. split; [exact H2|exact H3].
Defined.

Lemma coordinated_scaling_range_witness :
  exists t, Witness.scaling !! "prefill" = Some t /\ in_range Witness.g Witness.statuses "prefill" t.
Proof.
  exists 7. split; [by vm_compute|].
  apply (coordinated_scaling_range Witness.ParseFloat Witness.ListPods Witness.g Witness.statuses
           Witness.policy Witness.scaling).
  - intros r. unfold current_replicas. simpl. repeat (case_bool_decide; [by vm_compute|]). by vm_compute.
  - intros r. unfold GetRoleReplicasV2. simpl. repeat (case_bool_decide; [by vm_compute|]). by vm_compute.
  - by vm_compute.
  - by vm_compute.
Defined.
