(* ===== verification/Effects.v ===== *)
(** Stateful, fallible code: a state-and-error monad, and a logic for the calls
    a computation makes to the outside world. *)
From Stdlib Require Import ZArith Lia Bool.
From stdpp Require Import base tactics list strings.
From S2P Require Import Prelude GoStrings.

(** * The monad *)

Definition ST (W A : Type) : Type := W -> result A * W.

#[export] Instance ST_ret W : MRet (ST W) := fun A a w => (Ok a, w).
#[export] Instance ST_bind W : MBind (ST W) := fun A B f m w =>
  match m w with
  | (Ok a, w') => f a w'
  | (Err e, w') => (Err e, w')
  end.

Definition lift {W A} (r : result A) : ST W A := fun w => (r, w).
Definition fail {W A} (e : error) : ST W A := fun w => (Err e, w).
Definition gets {W A} (f : W -> A) : ST W A := fun w => (Ok (f w), w).
Definition modify {W} (f : W -> W) : ST W unit := fun w => (Ok tt, f w).
(** A step that never fails. *)
Definition state {W A} (f : W -> A * W) : ST W A := fun w => let '(a, w') := f w in (Ok a, w').
(** Run [m], then [k] on its outcome: [k] sees an error as a value. *)
Definition attempt {W A B} (m : ST W A) (k : result A -> ST W B) : ST W B :=
  fun w => let '(r, w') := m w in k r w'.

Fixpoint for_each {W A} (f : A -> ST W unit) (l : list A) : ST W unit :=
  match l with
  | [] => mret tt
  | x :: l' => f x ≫= fun _ => for_each f l'
  end.

(** * Several errors at once (k8s.io/apimachinery/pkg/util/errors)

    [NewAggregate] of a list without nil, and its text: each message once. *)
Fixpoint distinct (seen : list error) (errs : list error) : list error :=
  match errs with
  | [] => []
  | e :: errs' => if bool_decide (e ∈ seen) then distinct seen errs' else e :: distinct (e :: seen) errs'
  end.

Definition aggregate_message (errs : list error) : string :=
  match errs with
  | [e] => e
  | _ => match distinct [] errs with
         | [e] => e
         | l => "[" +:+ Join l ", " +:+ "]"
         end
  end.


Definition NewAggregate (errs : list error) : option error :=
  match errs with [] => None | _ => Some (aggregate_message errs) end.

(** Run [f] on each, and keep the errors. *)
Fixpoint collect {W A} (f : A -> ST W (option error)) (l : list A) : ST W (list error) :=
  match l with
  | [] => mret []
  | x :: l' => e ← f x; errs ← collect f l'; mret (option_list e ++ errs)
  end.

(** Fail with the aggregate of the errors, if any. *)
Definition fail_all {W} (errs : list error) : ST W unit :=
  match NewAggregate errs with None => mret tt | Some e => fail e end.

(** * Retrying (client-go/util/retry)

    [RetryOnConflict(backoff, fn)] runs [fn] again as long as its error is a
    conflict and attempts are left; [steps] counts those after the first. *)
Definition ConflictError : error := "Conflict".
Definition IsConflict (e : error) : bool := bool_decide (e = ConflictError).

Fixpoint RetryOnConflict {W A} (steps : nat) (fn : ST W A) : ST W A :=
  match steps with
  | O => fn
  | S steps' => attempt fn (fun r =>
      match r with
      | Ok a => mret a
      | Err e => if IsConflict e then RetryOnConflict steps' fn else fail e
      end)
  end.

(** The attempts share a variable of the closure: each gets the value the one
    before it left there. *)
Fixpoint retry_with {W S A} (steps : nat) (fn : S -> ST W (result A * S)) (s : S) : ST W A :=
  '(r, s') ← fn s;
  match r with
  | Ok a => mret a
  | Err e =>
      match steps with
      | O => fail e
      | Datatypes.S steps' => if IsConflict e then retry_with steps' fn s' else fail e
      end
  end.

(** [retry.DefaultBackoff] makes four attempts, [retry.DefaultRetry] five. *)
Definition DefaultBackoff : nat := 3.
Definition DefaultRetry : nat := 4.

(** Taking a run apart. *)
Lemma bind_inv {W A B} (m : ST W A) (f : A -> ST W B) w r w' :
  (m ≫= f) w = (r, w') ->
  (exists e, m w = (Err e, w') /\ r = Err e) \/ (exists a w1, m w = (Ok a, w1) /\ f a w1 = (r, w')).
Proof.
  unfold mbind, ST_bind. destruct (m w) as [[a|e] w1]; [intros Hf; right; eauto|].
  intros [= <- <-]. left. eauto.
Qed.

Lemma bind_ok {W A B} (m : ST W A) (f : A -> ST W B) w a w1 : m w = (Ok a, w1) -> (m ≫= f) w = f a w1.
Proof. unfold mbind, ST_bind. by intros ->. Qed.

Lemma lift_inv {W A B} (x : result A) (f : A -> ST W B) w r w' :
  (lift x ≫= f) w = (r, w') ->
  (exists e, x = Err e /\ r = Err e /\ w' = w) \/ (exists a, x = Ok a /\ f a w = (r, w')).
Proof.
  intros [(e & [= -> ->] & ->)|(a & w1 & [= -> ->] & Hf)]%bind_inv; [left|right]; eauto.
Qed.

Lemma modify_inv {W B} g (f : unit -> ST W B) w r w' : (modify g ≫= f) w = (r, w') -> f tt (g w) = (r, w').
Proof. done. Qed.

Lemma ret_inv {W A} (a : A) (w : W) r w' : (mret a : ST W A) w = (r, w') -> r = Ok a /\ w' = w.
Proof. by intros [= <- <-]. Qed.

Lemma attempt_inv {W A B} (m : ST W A) (k : result A -> ST W B) w r w' :
  attempt m k w = (r, w') -> exists x w1, m w = (x, w1) /\ k x w1 = (r, w').
Proof. unfold attempt. destruct (m w) as [x w1]. eauto. Qed.

(** * Reasoning about the calls a computation makes

    The calls made so far are a part of the state, newest first.
    [run trace I P m Q]: from a state satisfying [I], [m] ends in a state
    satisfying [I], its new calls are put in front of the trace, and [Q] holds of
    its outcome and of the number of new calls that satisfy [P]. *)
Section run.
Context {W C : Type} (trace : W -> list C) (I : W -> Prop) (P : C -> bool).

Definition run {A} (m : ST W A) (Q : result A -> Z -> Prop) : Prop :=
  forall w r w', I w -> m w = (r, w') ->
    I w' /\ exists new, trace w' = new ++ trace w /\ Q r (countb P new).

Lemma run_conseq {A} (m : ST W A) (Q Q' : result A -> Z -> Prop) :
  run m Q -> (forall r n, 0 <= n -> Q r n -> Q' r n) -> run m Q'.
Proof.
  intros Hm HQ w r w' HI Hw. destruct (Hm w r w' HI Hw) as (HI' & new & Ht & Hq).
  split; [done|]. exists new. split; [done|]. apply HQ; [apply countb_nonneg|done].
Qed.

Lemma run_ret {A} (a : A) (Q : result A -> Z -> Prop) : Q (Ok a) 0 -> run (mret a) Q.
Proof. intros HQ w r w' HI [= <- <-]. split; [done|]. by exists []. Qed.

Lemma run_lift {A} (x : result A) (Q : result A -> Z -> Prop) : Q x 0 -> run (lift x) Q.
Proof. intros HQ w r w' HI [= <- <-]. split; [done|]. by exists []. Qed.

Lemma run_fail {A} e (Q : result A -> Z -> Prop) : Q (Err e) 0 -> run (fail e) Q.
Proof. apply run_lift. Qed.

Lemma run_gets {A} (f : W -> A) (Q : result A -> Z -> Prop) :
  (forall w, I w -> Q (Ok (f w)) 0) -> run (gets f) Q.
Proof. intros HQ w r w' HI [= <- <-]. split; [done|]. exists []. split; [done|]. by apply HQ. Qed.

Lemma run_modify (f : W -> W) (Q : result unit -> Z -> Prop) :
  (forall w, I w -> I (f w)) -> (forall w, trace (f w) = trace w) -> Q (Ok tt) 0 -> run (modify f) Q.
Proof. intros HI Ht HQ w r w' Hw [= <- <-]. split; [auto|]. exists []. by rewrite Ht. Qed.

Lemma run_bind {A B} (m : ST W A) (f : A -> ST W B) (Q1 : result A -> Z -> Prop) (Q : result B -> Z -> Prop) :
  run m Q1 ->
  (forall a n1, 0 <= n1 -> Q1 (Ok a) n1 -> run (f a) (fun r n2 => Q r (n1 + n2))) ->
  (forall e n, 0 <= n -> Q1 (Err e) n -> Q (Err e) n) ->
  run (m ≫= f) Q.
Proof.
  intros Hm Hf He w r w' HI. unfold mbind, ST_bind. destruct (m w) as [[a|e] w1] eqn:Hw.
  - intros Hfw. destruct (Hm w _ w1 HI Hw) as (HI1 & new1 & Ht1 & HQ1).
    destruct (Hf a _ (countb_nonneg _ _) HQ1 w1 r w' HI1 Hfw) as (HI2 & new2 & Ht2 & HQ2).
    split; [done|]. exists (new2 ++ new1). split; [by rewrite Ht2, Ht1, app_assoc|].
    rewrite countb_app. by rewrite Z.add_comm.
  - intros [= <- <-]. destruct (Hm w _ w1 HI Hw) as (HI1 & new1 & Ht1 & HQ1).
    split; [done|]. exists new1. split; [done|]. apply He; [apply countb_nonneg|done].
Qed.

Lemma run_bind_gets {A B} (g : W -> A) (f : A -> ST W B) (Q : result B -> Z -> Prop) :
  (forall w, I w -> run (f (g w)) Q) -> run (gets g ≫= f) Q.
Proof. intros Hf w r w' HI Hr. exact (Hf w HI w r w' HI Hr). Qed.

(** A step that makes no [P] call, whatever it returns. *)
Definition silent {A} (m : ST W A) : Prop := run m (fun _ n => n = 0).

Lemma run_bind_silent {A B} (m : ST W A) (f : A -> ST W B) (Q : result B -> Z -> Prop) :
  silent m -> (forall a, run (f a) Q) -> (forall e, Q (Err e) 0) -> run (m ≫= f) Q.
Proof.
  intros Hm Hf He. eapply run_bind; [exact Hm|..].
  - intros a n1 _ ->. eapply run_conseq; [apply Hf|]. intros r n _ HQ. by rewrite Z.add_0_l.
  - intros e n _ ->. apply He.
Qed.

Lemma silent_bind {A B} (m : ST W A) (f : A -> ST W B) : silent m -> (forall a, silent (f a)) -> silent (m ≫= f).
Proof. intros Hm Hf. by apply run_bind_silent. Qed.

Lemma silent_ret {A} (a : A) : silent (mret a).
Proof. by apply run_ret. Qed.
Lemma silent_lift {A} (x : result A) : silent (lift x).
Proof. by apply run_lift. Qed.
Lemma silent_fail {A} e : silent (fail (A := A) e).
Proof. by apply run_fail. Qed.
Lemma silent_gets {A} (f : W -> A) : silent (gets f).
Proof. by apply run_gets. Qed.
Lemma silent_modify (f : W -> W) :
  (forall w, I w -> I (f w)) -> (forall w, trace (f w) = trace w) -> silent (modify f).
Proof. intros. by apply run_modify. Qed.

Lemma run_silent {A} (m : ST W A) (Q : result A -> Z -> Prop) :
  silent m -> (forall r, Q r 0) -> run m Q.
Proof. intros Hm HQ. eapply run_conseq; [exact Hm|]. by intros r n _ ->. Qed.

Lemma run_attempt {A B} (m : ST W A) (k : result A -> ST W B) (Q1 : result A -> Z -> Prop) (Q : result B -> Z -> Prop) :
  run m Q1 -> (forall r n1, 0 <= n1 -> Q1 r n1 -> run (k r) (fun r' n => Q r' (n1 + n))) ->
  run (attempt m k) Q.
Proof.
  intros Hm Hk w r w' Hw. unfold attempt. destruct (m w) as [r1 w1] eqn:E.
  destruct (Hm w r1 w1 Hw E) as (Hw1 & new1 & Ht1 & HQ1). intros Hr.
  destruct (Hk r1 _ (countb_nonneg _ _) HQ1 w1 r w' Hw1 Hr) as (Hw' & new2 & Ht2 & HQ2).
  split; [done|]. exists (new2 ++ new1). split; [by rewrite Ht2, Ht1, app_assoc|].
  rewrite countb_app, Z.add_comm. done.
Qed.

Lemma silent_attempt {A B} (m : ST W A) (k : result A -> ST W B) :
  silent m -> (forall r, silent (k r)) -> silent (attempt m k).
Proof.
  intros Hm Hk. eapply run_attempt; [exact Hm|]. intros r n1 _ ->. apply Hk.
Qed.

Lemma silent_inv {A} (m : ST W A) w r w' :
  silent m -> I w -> m w = (r, w') ->
  I w' /\ exists new, trace w' = new ++ trace w /\ forall c, c ∈ new -> P c = false.
Proof.
  intros Hm Hw Hr. destruct (Hm w r w' Hw Hr) as (? & new & ? & Hn). split; [done|]. exists new. split; [done|].
  by apply countb_zero_iff.
Qed.

Lemma silent_RetryOnConflict {A} n (fn : ST W A) : silent fn -> silent (RetryOnConflict n fn).
Proof.
  intros Hf. induction n as [|n IH]; [done|]. cbn [RetryOnConflict]. apply silent_attempt; [done|].
  intros [a|e]; [apply silent_ret|]. destruct (IsConflict e); [done|apply silent_fail].
Qed.

Lemma silent_retry_with {S A} n (fn : S -> ST W (result A * S)) s :
  (forall s, silent (fn s)) -> silent (retry_with n fn s).
Proof.
  intros Hf. revert s. induction n as [|n IH]; intros s; cbn [retry_with]; (apply silent_bind; [apply Hf|]);
    intros [[a|e] s']; try apply silent_ret; try apply silent_fail.
  destruct (IsConflict e); [apply IH|apply silent_fail].
Qed.

End run.

(** * Which calls a computation makes *)
Section only.
Context {W C : Type} (trace : W -> list C).

(** The calls made between two states all satisfy [ok]. *)
Definition only (ok : C -> Prop) (w w' : W) : Prop :=
  exists new, trace w' = (new ++ trace w)%list /\ forall c, c ∈ new -> ok c.

Lemma only_refl ok w : only ok w w.
Proof. exists []. split; [done|]. by intros c ?%elem_of_nil. Qed.

Lemma only_trans ok w w1 w2 : only ok w w1 -> only ok w1 w2 -> only ok w w2.
Proof.
  intros (n1 & Ht1 & Hn1) (n2 & Ht2 & Hn2). exists (n2 ++ n1)%list. split; [by rewrite Ht2, Ht1, app_assoc|].
  intros c [Hc|Hc]%elem_of_app; auto.
Qed.

Lemma only_same ok w w' : trace w' = trace w -> only ok w w'.
Proof. intros Ht. exists []. split; [done|]. by intros c ?%elem_of_nil. Qed.

Lemma only_mono (ok ok' : C -> Prop) w w' : (forall c, ok c -> ok' c) -> only ok w w' -> only ok' w w'.
Proof. intros Hok (new & Ht & Hn). exists new. split; [done|]. auto. Qed.

Lemma only_for_each {A} (ok : C -> Prop) (f : A -> ST W unit) l w r w' :
  (forall x w r w', x ∈ l -> f x w = (r, w') -> only ok w w') -> for_each f l w = (r, w') -> only ok w w'.
Proof.
  revert w. induction l as [|x l IH]; intros w Hf; cbn [for_each]; [intros [-> ->]%ret_inv; apply only_refl|].
  intros [(e & He & ->)|(t & w1 & He & Hr)]%bind_inv; [eapply Hf, He; by left|].
  eapply only_trans; [eapply Hf, He; by left|]. eapply IH, Hr. intros y w2 r2 w3 Hy. apply Hf. by right.
Qed.

(** A computation that makes no [P] calls, and a [P] that rejects what is not [ok]. *)
Lemma only_silent {A} (ok : C -> Prop) (P : C -> bool) (m : ST W A) w r w' :
  (forall c, P c = false -> ok c) -> silent trace (fun _ => True) P m -> m w = (r, w') -> only ok w w'.
Proof.
  intros HP Hm Hr. destruct (silent_inv _ _ _ _ _ _ _ Hm I Hr) as (_ & new & Ht & Hn). exists new. split; [done|]. auto.
Qed.
End only.

(** * Computations by the calls they make *)
Section calls.
Context {W C : Type} (trace : W -> list C) (ok : C -> Prop).

Definition calls {A} (m : ST W A) : Prop := forall w r w', m w = (r, w') -> only trace ok w w'.

Lemma calls_ret {A} (a : A) : calls (mret a).
Proof. intros w r w' [_ ->]%ret_inv. apply only_refl. Qed.

Lemma calls_fail {A} e : calls (fail (A := A) e).
Proof. intros w r w' [= _ <-]. apply only_refl. Qed.

Lemma calls_lift {A} (x : result A) : calls (lift x).
Proof. intros w r w' [= _ <-]. apply only_refl. Qed.

Lemma calls_modify f : (forall w, trace (f w) = trace w) -> calls (modify f).
Proof. intros Hf w r w' [= _ <-]. by apply only_same. Qed.

Lemma calls_gets {A} (f : W -> A) : calls (gets f).
Proof. intros w r w' [= _ <-]. apply only_refl. Qed.

Lemma calls_bind {A B} (m : ST W A) (f : A -> ST W B) : calls m -> (forall a, calls (f a)) -> calls (m ≫= f).
Proof.
  intros Hm Hf w r w' [(e & He & ->)|(a & w1 & He & Hr)]%bind_inv; [by eapply Hm|].
  eapply only_trans; [by eapply Hm|by eapply Hf].
Qed.

(** The second part may use how the first one ended. *)
Lemma calls_bind_at {A B} (m : ST W A) (f : A -> ST W B) :
  calls m -> (forall w a w', m w = (Ok a, w') -> calls (f a)) -> calls (m ≫= f).
Proof.
  intros Hm Hf w r w' [(e & He & ->)|(a & w1 & He & Hr)]%bind_inv; [by eapply Hm|].
  eapply only_trans; [by eapply Hm|by eapply Hf].
Qed.

Lemma calls_attempt {A B} (m : ST W A) (f : result A -> ST W B) : calls m -> (forall r, calls (f r)) -> calls (attempt m f).
Proof.
  intros Hm Hf w r w' (x & w1 & Hx & Hr)%attempt_inv. eapply only_trans; [by eapply Hm|by eapply Hf].
Qed.

Lemma calls_attempt_at {A B} (m : ST W A) (f : result A -> ST W B) :
  calls m -> (forall w r w', m w = (r, w') -> calls (f r)) -> calls (attempt m f).
Proof.
  intros Hm Hf w r w' (x & w1 & Hx & Hr)%attempt_inv. eapply only_trans; [by eapply Hm|by eapply Hf].
Qed.

Lemma calls_for_each {A} (f : A -> ST W unit) l : (forall x, x ∈ l -> calls (f x)) -> calls (for_each f l).
Proof. intros Hf w r w'. apply only_for_each. intros x w1 r1 w2 Hx. by apply Hf. Qed.

Lemma calls_collect {A} (f : A -> ST W (option error)) l : (forall x, x ∈ l -> calls (f x)) -> calls (collect f l).
Proof.
  induction l as [|x l IH]; intros Hf; cbn [collect]; [apply calls_ret|].
  apply calls_bind; [apply Hf; by left|intros e]. apply calls_bind; [|intros; apply calls_ret].
  apply IH. intros y Hy. apply Hf. by right.
Qed.

Lemma calls_fail_all errs : calls (fail_all errs).
Proof. unfold fail_all. destruct (NewAggregate errs); [apply calls_fail|apply calls_ret]. Qed.

Lemma calls_RetryOnConflict {A} n (fn : ST W A) : calls fn -> calls (RetryOnConflict n fn).
Proof.
  intros Hf. induction n as [|n IH]; [done|]. cbn [RetryOnConflict]. apply calls_attempt; [done|].
  intros [a|e]; [apply calls_ret|]. destruct (IsConflict e); [done|apply calls_fail].
Qed.

Lemma calls_retry_with {S A} (P : S -> Prop) n (fn : S -> ST W (result A * S)) s :
  (forall s, P s -> calls (fn s)) -> (forall s w x s' w', P s -> fn s w = (Ok (x, s'), w') -> P s') ->
  P s -> calls (retry_with n fn s).
Proof.
  intros Hf Hp. revert s. induction n as [|n IH]; intros s Hs; cbn [retry_with].
  - apply calls_bind; [auto|]. intros [[a|e] s']; [apply calls_ret|apply calls_fail].
  - apply calls_bind_at; [auto|]. intros w [[a|e] s'] w' Hw; [apply calls_ret|].
    destruct (IsConflict e); [|apply calls_fail]. apply IH. by eapply Hp.
Qed.
End calls.

Lemma calls_mono {W C A} (trace : W -> list C) (ok ok' : C -> Prop) (m : ST W A) :
  (forall c, ok c -> ok' c) -> calls trace ok m -> calls trace ok' m.
Proof. intros Hok Hm w r w' Hr. eapply only_mono; [exact Hok|by eapply Hm]. Qed.

Create HintDb silent discriminated.
#[export] Hint Resolve silent_ret silent_lift silent_fail silent_gets silent_bind
  silent_RetryOnConflict silent_retry_with : silent.

(** Discharges [silent] of a computation whose calls are silent. *)
Ltac silence :=
  repeat match goal with
  | |- forall _, _ => intros ?
  | |- silent _ _ _ (mbind _ _) => apply silent_bind; [|intros ?]
  | |- silent _ _ _ (match ?x with _ => _ end) => destruct x
  | |- silent _ _ _ _ => solve [eauto with silent]
  end.
