(* ===== verification/Revisions.v ===== *)
(** The revision history of a controlled object: naming, order and equality of
    ControllerRevisions (the Kubernetes history package the controllers call),
    the client of pkg/utils/history/controller_history.go, the truncation of
    pkg/utils/history/truncate_history.go, the cached comparison
    SetMatchesRevision and the choice of the current and the update revision in
    the stateless (statelessmode/reconciler.go) and the stateful
    (statefulmode/stateful_instance_set_control.go) controllers.

    The client is generic in the world it runs in: a reconciler provides the
    requests as an instance of [RevisionClient], the cache as one of
    [RevisionCache] and the JSON encoding of a set as one of [RevisionCodec]. *)
From Stdlib Require Import ZArith Lia Bool Ascii String.
From stdpp Require Import base tactics list strings gmap sets.
From S2P Require Import Prelude GoStrings IntOrString Types Effects.

(** * Naming *)

(** hash/fnv: [New32] over the bytes of a text. *)
Definition fnv32 (s : string) : Z :=
  fold_left (fun h c => Z.lxor ((h * 16777619) mod 4294967296) (Z.of_nat (nat_of_ascii c))) (chars s) 2166136261.

Definition alphanums : string := "bcdfghjklmnpqrstvwxz2456789".

Definition SafeEncodeString (s : string) : string :=
  string_of_list_ascii (map (fun b =>
    default "b"%char (chars alphanums !! Z.to_nat (Z.of_nat (nat_of_ascii b) mod 27))) (chars s)).

(** The data is raw bytes here, never an object. *)
Definition HashControllerRevision (revision : ControllerRevision) (probe : option Z) : string :=
  SafeEncodeString (Itoa (fnv32 (cr_Data revision +:+ match probe with Some p => Itoa p | None => "" end))).

Definition ControllerRevisionName (prefix hash : string) : string :=
  let prefix := if (223 <? Z.of_nat (length (chars prefix))) then string_of_list_ascii (take 223 (chars prefix)) else prefix in
  prefix +:+ "-" +:+ hash.

Definition ControllerRevisionHashLabel : string := "controller.kubernetes.io/hash".

(** [metav1.NewControllerRef]. *)
Definition NewControllerRef (apiVersion kind : string) (owner : ObjectMeta) : OwnerReference := {|
  or_APIVersion := apiVersion; or_Kind := kind; or_Name := om_Name owner; or_UID := om_UID owner;
  or_Controller := Some true; or_BlockOwnerDeletion := Some true |}.

Definition with_cr_meta (m : ObjectMeta) (r : ControllerRevision) : ControllerRevision :=
  {| cr_meta := m; cr_Revision := cr_Revision r; cr_Data := cr_Data r |}.
Definition with_revision (n : Z) (r : ControllerRevision) : ControllerRevision :=
  {| cr_meta := cr_meta r; cr_Revision := n; cr_Data := cr_Data r |}.
Definition with_owners (l : list OwnerReference) (m : ObjectMeta) : ObjectMeta := {|
  om_Name := om_Name m; om_GenerateName := om_GenerateName m; om_Namespace := om_Namespace m;
  om_UID := om_UID m; om_ResourceVersion := om_ResourceVersion m; om_Generation := om_Generation m;
  om_CreationTimestamp := om_CreationTimestamp m; om_DeletionTimestamp := om_DeletionTimestamp m;
  om_Labels := om_Labels m; om_Annotations := om_Annotations m;
  om_OwnerReferences := l; om_Finalizers := om_Finalizers m |}.

Definition NewControllerRevision (parent : ObjectMeta) (apiVersion kind : string) (templateLabels : labels)
    (data : string) (revision collisionCount : Z) : ControllerRevision :=
  let cr := {| cr_meta := with_owners [NewControllerRef apiVersion kind parent] empty_meta;
               cr_Revision := revision; cr_Data := data |} in
  let hash := HashControllerRevision cr (Some collisionCount) in
  with_cr_meta (with_labels (<[ControllerRevisionHashLabel := hash]> templateLabels)
                  (with_name (ControllerRevisionName (om_Name parent) hash) "" (cr_meta cr))) cr.

(** * Order and equality *)

Definition time_equal (t1 t2 : gotime) : bool := bool_decide (t1 = t2).

(** [t1.After(t2)]; the zero time is before every instant. *)
Definition time_after (t1 t2 : gotime) : bool :=
  match t1, t2 with
  | None, _ => false
  | Some _, None => true
  | Some x, Some y => x >? y
  end.

(** [byRevision.Less]. *)
Definition byRevision_Less (x y : ControllerRevision) : bool :=
  if cr_Revision x =? cr_Revision y then
    let cx := om_CreationTimestamp (cr_meta x) in
    let cy := om_CreationTimestamp (cr_meta y) in
    if time_equal cy cx then String.ltb (cr_Name x) (cr_Name y) else time_after cy cx
  else cr_Revision x <? cr_Revision y.

(** [sort.Stable], which insertion sort is. *)
Definition SortControllerRevisions (revisions : list ControllerRevision) : list ControllerRevision :=
  insertion_sort byRevision_Less revisions.

Definition EqualRevision (lhs rhs : ControllerRevision) : bool := bool_decide (cr_Data lhs = cr_Data rhs).

Definition FindEqualRevisions (revisions : list ControllerRevision) (needle : ControllerRevision)
    : list ControllerRevision := List.filter (fun r => EqualRevision r needle) revisions.

(** The number after the last of the sorted revisions, in the stateful and in the
    stateless mode. *)
Definition nextRevision (revisions : list ControllerRevision) : Z :=
  match last revisions with None => 1 | Some r => int64 (cr_Revision r + 1) end.

Definition NextRevision (revisions : list ControllerRevision) : Z :=
  match last revisions with None => 1 | Some r => int64 (cr_Revision r + 1) end.

(** * The client (pkg/utils/history/controller_history.go) *)

(** The selector [None] matches nothing. *)
Class RevisionClient (W : Type) := {
  rev_list : string -> option labels -> ST W (list ControllerRevision);
  rev_create : ControllerRevision -> ST W ControllerRevision;
  rev_get : string -> string -> ST W ControllerRevision;
  rev_update : ControllerRevision -> ST W ControllerRevision;
  rev_delete : ControllerRevision -> ST W unit
}.

Definition AlreadyExistsError : error := "AlreadyExists".
Definition IsAlreadyExists (e : error) : bool := bool_decide (e = AlreadyExistsError).
Definition NotFoundError : error := "NotFound".
Definition IsNotFound (e : error) : bool := bool_decide (e = NotFoundError).
Definition InvalidError : error := "Invalid".
Definition IsInvalid (e : error) : bool := bool_decide (e = InvalidError).

Section client.
Context {W : Type} `{RevisionClient W}.

(** Those controlled by the parent or by nobody. *)
Definition owned_by (parent : ObjectMeta) (r : ControllerRevision) : bool :=
  match GetControllerOf (cr_meta r) with
  | None => true
  | Some ref => bool_decide (or_UID ref = om_UID parent)
  end.

Definition ListControllerRevisions (parent : ObjectMeta) (selector : option labels) : ST W (list ControllerRevision) :=
  revisions ← rev_list (om_Namespace parent) selector;
  mret (List.filter (owned_by parent) revisions).

(** The name of an attempt. *)
Definition attempt_name (parent : ObjectMeta) (revision : ControllerRevision) (collisionCount : Z) : string :=
  ControllerRevisionName (om_Name parent) (HashControllerRevision revision (Some collisionCount)).

(** The loop has no bound: [fuel] bounds the attempts.  The collision count is
    the caller's variable, handed back next to the revision. *)
Fixpoint create_loop (fuel : nat) (parent : ObjectMeta) (revision : ControllerRevision) (collisionCount : Z)
    : ST W (ControllerRevision * Z) :=
  match fuel with
  | O => fail "no free name"
  | S fuel' =>
      let name := attempt_name parent revision collisionCount in
      let created := with_cr_meta (with_name name (om_Namespace parent) (cr_meta revision)) revision in
      attempt (rev_create created) (fun r =>
        match r with
        | Ok stored => mret (stored, collisionCount)
        | Err e =>
            if IsAlreadyExists e then
              got ← rev_get (om_Namespace parent) name;
              if bool_decide (cr_Data got = cr_Data revision) then mret (got, collisionCount)
              else create_loop fuel' parent revision (int32 (collisionCount + 1))
            else fail e
        end)
  end.

Definition CreateControllerRevision (fuel : nat) (parent : ObjectMeta) (revision : ControllerRevision)
    (collisionCount : option Z) : ST W (ControllerRevision * Z) :=
  match collisionCount with
  | None => fail "collisionCount should not be nil"
  | Some c => create_loop fuel parent revision c
  end.

(** After a failed write, the object read back; the one in hand when that fails. *)
Definition read_back (ns name : string) (clone : ControllerRevision) : ST W ControllerRevision :=
  attempt (rev_get ns name) (fun g => mret (match g with Ok got => got | Err _ => clone end)).

Definition revision_attempt (ns name : string) (newRevision : Z) (clone : ControllerRevision)
    : ST W (result ControllerRevision * ControllerRevision) :=
  if cr_Revision clone =? newRevision then mret (Ok clone, clone)
  else
    let clone := with_revision newRevision clone in
    attempt (rev_update clone) (fun r =>
      match r with
      | Ok stored => mret (Ok stored, stored)
      | Err e => clone ← read_back ns name clone; mret (Err e, clone)
      end).

Definition UpdateControllerRevision (revision : ControllerRevision) (newRevision : Z) : ST W ControllerRevision :=
  retry_with DefaultBackoff
    (revision_attempt (om_Namespace (cr_meta revision)) (cr_Name revision) newRevision) revision.

Definition DeleteControllerRevision (revision : ControllerRevision) : ST W unit := rev_delete revision.

Definition owned_error : error := "attempt to adopt revision owned by another object".

(** Write the owner references [owners] makes of the present ones. *)
Definition owners_attempt (ns name : string) (owners : list OwnerReference -> list OwnerReference)
    (clone : ControllerRevision) : ST W (result ControllerRevision * ControllerRevision) :=
  match GetControllerOf (cr_meta clone) with
  | Some _ => mret (Err owned_error, clone)
  | None =>
      let clone := with_cr_meta (with_owners (owners (om_OwnerReferences (cr_meta clone))) (cr_meta clone)) clone in
      attempt (rev_update clone) (fun r =>
        match r with
        | Ok stored => mret (Ok stored, stored)
        | Err e => clone ← read_back ns name clone; mret (Err e, clone)
        end)
  end.

Definition AdoptControllerRevision (apiVersion kind : string) (parent : ObjectMeta) (revision : ControllerRevision)
    : ST W ControllerRevision :=
  retry_with DefaultBackoff
    (owners_attempt (om_Namespace (cr_meta revision)) (cr_Name revision)
       (fun l => (l ++ [NewControllerRef apiVersion kind parent])%list)) revision.

(** [None]: the revision is gone, or not the parent's any more. *)
Definition ReleaseControllerRevision (parent : ObjectMeta) (revision : ControllerRevision)
    : ST W (option ControllerRevision) :=
  attempt (retry_with DefaultBackoff
    (owners_attempt (om_Namespace (cr_meta revision)) (cr_Name revision)
       (List.filter (fun o => negb (bool_decide (or_UID o = om_UID parent))))) revision) (fun r =>
    match r with
    | Ok clone => mret (Some clone)
    | Err e => if IsNotFound e || IsInvalid e then mret None else fail e
    end).
End client.

(** * Truncation (pkg/utils/history/truncate_history.go) *)

Section truncate.
Context {W : Type}.

Definition is_live (current update : option ControllerRevision) (isRevisionInUse : option (string -> bool))
    (revision : ControllerRevision) : bool :=
  match current with Some c => bool_decide (cr_Name revision = cr_Name c) | None => false end
  || match update with Some u => bool_decide (cr_Name revision = cr_Name u) | None => false end
  || match isRevisionInUse with Some f => f (cr_Name revision) | None => false end.

Definition TruncateControllerRevisions (revisions : list ControllerRevision) (current update : option ControllerRevision)
    (historyLimit : Z) (isRevisionInUse : option (string -> bool))
    (deleteRevision : option (ControllerRevision -> ST W unit)) : ST W unit :=
  if historyLimit <? 0 then fail "historyLimit must be non-negative"
  else
    match deleteRevision with
    | None => fail "deleteRevision must not be nil"
    | Some deleteRevision =>
        let nonLiveRevisions :=
          List.filter (fun r => negb (is_live current update isRevisionInUse r)) revisions in
        let n := Z.of_nat (length nonLiveRevisions) in
        if n <=? historyLimit then mret tt
        else for_each deleteRevision (take (Z.to_nat (n - historyLimit)) nonLiveRevisions)
    end.
End truncate.

(** * The revisions of a RoleInstanceSet *)

(** The JSON encoding of the template of a set as a patch, and the set a patch
    makes of another. *)
Class RevisionCodec := {
  getPatch : RoleInstanceSet -> result string;
  apply_patch : RoleInstanceSet -> string -> result RoleInstanceSet
}.

Section codec.
Context `{RevisionCodec}.

Definition ApplyRevision (set : RoleInstanceSet) (revision : ControllerRevision) : result RoleInstanceSet :=
  apply_patch set (cr_Data revision).

Definition groupVersion : string := "workloads.x-k8s.io/v1alpha2".

(** The annotations of the set are copied to a new revision. *)
Definition annotated (set : RoleInstanceSet) (cr : ControllerRevision) : ControllerRevision :=
  with_cr_meta (with_annotations (om_Annotations (rs_meta set)) (cr_meta cr)) cr.

(** statelessmode/revision/revision.go: [NewRevision]. *)
Definition NewRevision (set : RoleInstanceSet) (revision collisionCount : Z) : result ControllerRevision :=
  patch ← getPatch set;
  mret (annotated set
    (NewControllerRevision (rs_meta set) groupVersion "RoleInstanceSet"
       {[ RoleInstanceOwnerLabelKey := rs_UID set ]} patch revision collisionCount)).

(** statefulmode/stateful_instance_set_helper.go: [newRevision]. *)
Definition newRevision (set : RoleInstanceSet) (revision collisionCount : Z) : result ControllerRevision :=
  patch ← getPatch set;
  mret (annotated set
    (NewControllerRevision (rs_meta set) groupVersion "RoleInstanceSet"
       (default ∅ (rss_Selector (rs_spec set))) patch revision collisionCount)).

(** ** The equality cache *)

(** A least-recently-used cache of keys, the latest first
    (k8s.io/utils/lru over groupcache's lru.go). *)
Section lru.
Context {K : Type} `{EqDecision K}.

Definition forget (k : K) (c : list K) : list K := List.filter (fun k' => negb (bool_decide (k' = k))) c.

Definition lru_get (k : K) (c : list K) : option (list K) :=
  if bool_decide (k ∈ c) then Some (k :: forget k c) else None.

Definition lru_add (size : nat) (k : K) (c : list K) : list K :=
  if bool_decide (k ∈ c) then k :: forget k c
  else if negb (size =? 0)%nat && (size <? length (k :: c))%nat then removelast (k :: c) else k :: c.
End lru.

Definition MaxRevisionEqualityCacheEntries : nat := 100 * 100.

Record revisionEqualityCacheKey := {
  setUID : string;
  setGeneration : Z;
  revisionResourceVersion : string
}.

#[export] Instance revisionEqualityCacheKey_eq_dec : EqDecision revisionEqualityCacheKey.
Proof. solve_decision. Defined.

Definition cache_key (set : RoleInstanceSet) (existing : ControllerRevision) : revisionEqualityCacheKey := {|
  setUID := rs_UID set; setGeneration := om_Generation (rs_meta set);
  revisionResourceVersion := cr_ResourceVersion existing |}.

(** Applying the existing revision and encoding the set again gives the proposed
    data. *)
Definition semantic_match (set : RoleInstanceSet) (proposed existing : ControllerRevision) : bool :=
  match restoredSet ← ApplyRevision set existing; getPatch restoredSet with
  | Ok reconstructedPatch => bool_decide (cr_Data proposed = reconstructedPatch)
  | Err _ => false
  end.
End codec.

Class RevisionCache (W : Type) := {
  cache_get : W -> list revisionEqualityCacheKey;
  cache_put : list revisionEqualityCacheKey -> W -> W;
  cache_get_put : forall c w, cache_get (cache_put c w) = c
}.

Section active.
Context {W : Type} `{RevisionClient W, RevisionCache W, RevisionCodec}.

Definition SetMatchesRevision (set : RoleInstanceSet) (proposed existing : ControllerRevision) : ST W bool :=
  cache ← gets cache_get;
  let key := cache_key set existing in
  match lru_get key cache with
  | Some cache => modify (cache_put cache) ≫= fun _ => mret true
  | None =>
      if semantic_match set proposed existing
      then modify (cache_put (lru_add MaxRevisionEqualityCacheEntries key cache)) ≫= fun _ => mret true
      else mret false
  end.

(** ** The current and the update revision *)

Definition find_name (name : string) (revisions : list ControllerRevision) : option ControllerRevision :=
  List.find (fun r => bool_decide (cr_Name r = name)) revisions.

(** The update revision, given the proposed one: an equal revision that is the
    newest, an equal one made the newest, the newest when it matches, or the
    proposed one created.  When there is an equal revision there is a newest. *)
Definition settle (fuel : nat) (set : RoleInstanceSet) (revisions : list ControllerRevision)
    (proposed : ControllerRevision) (collisionCount : Z) : ST W (ControllerRevision * Z) :=
  match last (FindEqualRevisions revisions proposed) with
  | Some equal =>
      let newest := default equal (last revisions) in
      if EqualRevision newest equal then mret (newest, collisionCount)
      else r ← UpdateControllerRevision equal (cr_Revision proposed); mret (r, collisionCount)
  | None =>
      let create := CreateControllerRevision fuel (rs_meta set) proposed (Some collisionCount) in
      match last revisions with
      | None => create
      | Some newest =>
          matches ← SetMatchesRevision set proposed newest;
          if (matches : bool) then mret (newest, collisionCount) else create
      end
  end.

(** The listed revision the status names, or the update revision. *)
Definition current_of (set : RoleInstanceSet) (revisions : list ControllerRevision)
    (updateRevision : ControllerRevision) : ControllerRevision :=
  default updateRevision (find_name (st_CurrentRevision (rs_status set)) revisions).

(** statelessmode/reconciler.go, on sorted revisions; the collision count comes
    last. *)
Definition getActiveRevisions (fuel : nat) (set : RoleInstanceSet) (revisions : list ControllerRevision)
    : ST W (ControllerRevision * ControllerRevision * Z) :=
  let collisionCount := default 0 (st_CollisionCount (rs_status set)) in
  proposed ← lift (NewRevision set (NextRevision revisions) collisionCount);
  '(updateRevision, collisionCount) ← settle fuel set revisions proposed collisionCount;
  mret (current_of set revisions updateRevision, updateRevision, collisionCount).

(** statefulmode/stateful_instance_set_control.go, which sorts again. *)
Definition getInstanceSetRevisions (fuel : nat) (set : RoleInstanceSet) (revisions : list ControllerRevision)
    : ST W (ControllerRevision * ControllerRevision * Z) :=
  let revisions := SortControllerRevisions revisions in
  let collisionCount := default 0 (st_CollisionCount (rs_status set)) in
  proposed ← lift (newRevision set (nextRevision revisions) collisionCount);
  '(updateRevision, collisionCount) ← settle fuel set revisions proposed collisionCount;
  mret (current_of set revisions updateRevision, updateRevision, collisionCount).
End active.

(** * Lemmas *)

Lemma string_ltb_true s1 s2 : String.ltb s1 s2 = true <-> ~ String.le s2 s1.
Proof.
  unfold String.le. rewrite Is_true_true. unfold String.ltb, String.leb. rewrite (String.compare_antisym s2 s1).
  destruct (String.compare s1 s2); cbn; naive_solver.
Qed.

Lemma strict_weak_string {A} (name : A -> string) : strict_weak (fun x y => String.ltb (name x) (name y)).
Proof.
  pose proof (fun s1 s2 => total String.le s1 s2) as Htot.
  split; [|split]; intros *; rewrite <-?not_true_iff_false, !string_ltb_true.
  - intros H1. by apply H1.
  - intros H1 H2 H3. destruct (Htot (name x) (name y)); [apply H2; by etrans|done].
  - intros H1. destruct (decide (String.le (name z) (name x))) as [H2|H2]; [right|by left].
    intros H3. apply H1. by etrans.
Qed.

(** The order of revisions: number, then time of creation, then name. *)
Lemma byRevision_lex x y :
  byRevision_Less x y
  = lex cr_Revision (lex (fun r => if om_CreationTimestamp (cr_meta r) then 1 else 0)
      (lex (fun r => default 0 (om_CreationTimestamp (cr_meta r)))
         (fun x y => String.ltb (cr_Name x) (cr_Name y)))) x y.
Proof.
  unfold byRevision_Less, lex. destruct (cr_Revision x =? cr_Revision y); [|done].
  unfold time_equal, time_after.
  destruct (om_CreationTimestamp (cr_meta x)) as [a|], (om_CreationTimestamp (cr_meta y)) as [b|]; cbn; try done.
  destruct (Z.eqb_spec a b) as [->|Hn]; [by rewrite bool_decide_eq_true_2|].
  rewrite bool_decide_eq_false_2 by congruence. by rewrite Z.gtb_ltb.
Qed.

Lemma byRevision_strict_weak : strict_weak byRevision_Less.
Proof. eapply strict_weak_ext; [intros x y; apply byRevision_lex|]. repeat apply strict_weak_lex. apply strict_weak_string. Qed.

Lemma SortControllerRevisions_sorted l :
  Sorted.StronglySorted (fun x y => byRevision_Less y x = false) (SortControllerRevisions l).
Proof. apply insertion_sort_sorted, byRevision_strict_weak. Qed.

(** Sorting a sorted list changes nothing. *)
Lemma insertion_sort_id {A} (less : A -> A -> bool) l :
  Sorted.StronglySorted (fun x y => less y x = false) l -> insertion_sort less l = l.
Proof.
  induction 1 as [|x l Hs IH Hf]; [done|]. cbn [insertion_sort]. rewrite IH.
  destruct l as [|y l]; [done|]. cbn. inversion Hf as [|?? Hy]; subst. by rewrite Hy.
Qed.

(** The newest revision has the largest number. *)
Lemma sorted_last_max l newest r :
  Sorted.StronglySorted (fun x y => byRevision_Less y x = false) l -> last l = Some newest -> r ∈ l ->
  cr_Revision r <= cr_Revision newest.
Proof.
  intros Hs Hl Hr. apply last_Some in Hl as [l' ->].
  apply elem_of_app in Hr as [Hr|Hr%list_elem_of_singleton]; [|by subst].
  induction l' as [|x l' IH]; [by apply elem_of_nil in Hr|]. inversion Hs as [|?? Hs' Hf]; subst.
  apply elem_of_cons in Hr as [->|Hr]; [|by apply IH].
  rewrite List.Forall_forall in Hf. specialize (Hf newest ltac:(apply List.in_or_app; right; by left)).
  rewrite byRevision_lex in Hf. unfold lex in Hf. destruct (Z.eqb_spec (cr_Revision newest) (cr_Revision x)); [lia|].
  apply Z.ltb_ge in Hf. lia.
Qed.
