(* ===== verification/Owners.v ===== *)
(** Owner references (sigs.k8s.io/controller-runtime/pkg/controller/controllerutil
    and the group-version text of k8s.io/apimachinery): who controls an object, and
    how a controller makes itself the owner. *)
From Stdlib Require Import ZArith Lia Bool Ascii String.
From stdpp Require Import base tactics list strings gmap.
From S2P Require Import Prelude GoStrings Types Revisions.

(** [schema.ParseGroupVersion]: the group and the version. *)
Definition ParseGroupVersion (gv : string) : option (string * string) :=
  if bool_decide (gv = ""%string) || bool_decide (gv = "/"%string) then Some (""%string, ""%string)
  else match Split gv "/" with
       | [version] => Some (""%string, version)
       | [group; version] => Some (group, version)
       | _ => None
       end.

(** The same group, kind and name. *)
Definition referSameObject (a b : OwnerReference) : bool :=
  match ParseGroupVersion (or_APIVersion a), ParseGroupVersion (or_APIVersion b) with
  | Some ga, Some gb =>
      bool_decide (ga.1 = gb.1) && bool_decide (or_Kind a = or_Kind b) && bool_decide (or_Name a = or_Name b)
  | _, _ => false
  end.

Fixpoint upsertOwnerRef (ref : OwnerReference) (owners : list OwnerReference) : list OwnerReference :=
  match owners with
  | [] => [ref]
  | o :: owners' => if referSameObject o ref then ref :: owners' else o :: upsertOwnerRef ref owners'
  end.

Definition validateOwner (ownerNs objNs : string) : option error :=
  if bool_decide (ownerNs = ""%string) then None
  else if bool_decide (objNs = ""%string) then Some "cluster-scoped resource must not have a namespace-scoped owner"%string
  else if bool_decide (ownerNs = objNs) then None
  else Some "cross-namespace owner references are disallowed"%string.

Definition AlreadyOwnedError : error := "already owned by another controller".

(** [owner], of kind [apiVersion]/[kind], becomes the controller of [controlled]. *)
Definition SetControllerReference (apiVersion kind : string) (owner controlled : ObjectMeta) : result ObjectMeta :=
  match validateOwner (om_Namespace owner) (om_Namespace controlled) with
  | Some e => Err e
  | None =>
      let ref := NewControllerRef apiVersion kind owner in
      let owned := Ok (with_owners (upsertOwnerRef ref (om_OwnerReferences controlled)) controlled) in
      match GetControllerOf controlled with
      | Some existing => if referSameObject existing ref then owned else Err AlreadyOwnedError
      | None => owned
      end
  end.

(** * Lemmas *)

Lemma validateOwner_same ns : validateOwner ns ns = None.
Proof.
  unfold validateOwner. destruct (bool_decide_reflect (ns = ""%string)); [done|].
  by rewrite bool_decide_eq_true_2.
Qed.

Lemma find_upsert_controller ref owners :
  or_Controller ref = Some true -> List.find (fun o => bool_decide (or_Controller o = Some true)) owners = None ->
  List.find (fun o => bool_decide (or_Controller o = Some true)) (upsertOwnerRef ref owners) = Some ref.
Proof.
  intros Href. induction owners as [|o owners IH]; cbn [upsertOwnerRef List.find]; [by rewrite bool_decide_eq_true_2|].
  destruct (bool_decide (or_Controller o = Some true)) eqn:Eo; [done|]. intros Hn.
  destruct (referSameObject o ref); cbn [List.find]; [by rewrite bool_decide_eq_true_2|]. rewrite Eo. by apply IH.
Qed.

(** An object without a controller gets one, and nothing else of it changes. *)
Lemma SetControllerReference_orphan apiVersion kind owner m m' :
  GetControllerOf m = None -> SetControllerReference apiVersion kind owner m = Ok m' ->
  GetControllerOf m' = Some (NewControllerRef apiVersion kind owner) /\ m' = with_owners (om_OwnerReferences m') m.
Proof.
  unfold SetControllerReference. intros Hm. destruct (validateOwner _ _); [done|]. rewrite Hm. intros [= <-].
  split; [|done]. unfold GetControllerOf in *. cbn [om_OwnerReferences with_owners]. by apply find_upsert_controller.
Qed.

Lemma SetControllerReference_ok apiVersion kind owner m :
  om_Namespace owner = om_Namespace m -> GetControllerOf m = None ->
  SetControllerReference apiVersion kind owner m =
    Ok (with_owners (upsertOwnerRef (NewControllerRef apiVersion kind owner) (om_OwnerReferences m)) m).
Proof. intros Hns Hm. unfold SetControllerReference. by rewrite Hns, validateOwner_same, Hm. Qed.
