(* ===== verification/StatefulUtils.v ===== *)
(** Stateful mode, helpers and topology
    (pkg/reconciler/roleinstanceset/statefulmode/stateful_instance_set_utils.go):
    instance names and ordinals, building an instance at a revision, and the
    ordinal window of a reconcile.

    Instance pointers the code tests for nil are [option]s. *)
From Stdlib Require Import ZArith Lia Bool Ascii String.
From stdpp Require Import base tactics list strings gmap sets fin_maps.
From S2P Require Import Prelude GoStrings IntOrString Types.

(** * Names and ordinals *)

(** The longest run of digits at the front of a list, and the rest. *)
Fixpoint span_digits (l : list ascii) : list ascii * list ascii :=
  match l with
  | c :: l' => if is_digit c then let '(d, r) := span_digits l' in (c :: d, r) else ([], l)
  | [] => ([], [])
  end.

(** The pattern matches a dash followed by digits at the end of the name.  On a
    name without line breaks its greedy first group ends at the last dash, which
    only digits may follow. *)
Definition statefulInstanceRegex (name : string) : option (string * string) :=
  let '(digits, rest) := span_digits (rev (chars name)) in
  match digits, rest with
  | _ :: _, c :: parent =>
      if bool_decide (c = "-"%char) then Some (of_chars (rev parent), of_chars (rev digits)) else None
  | _, _ => None
  end.

Definition parse_instance_name (name : string) : string * Z :=
  match statefulInstanceRegex name with
  | None => (""%string, -1)
  | Some (parent, digits) =>
      (parent, match ParseInt digits 32 with Ok i => i | Err _ => -1 end)
  end.

Definition getParentNameAndOrdinal (instance : RoleInstance) : string * Z :=
  parse_instance_name (ri_Name instance).
Definition getParentName (instance : RoleInstance) : string := (getParentNameAndOrdinal instance).1.
Definition getOrdinal (instance : RoleInstance) : Z := (getParentNameAndOrdinal instance).2.

Definition instanceInOrdinalRangeWithParams (instance : RoleInstance) (startOrdinal endOrdinal : Z)
    (reserveOrdinals : gset Z) : bool :=
  let ordinal := getOrdinal instance in
  (ordinal >=? startOrdinal) && (ordinal <? endOrdinal) && negb (bool_decide (ordinal ∈ reserveOrdinals)).

Definition instance_name (set_name : string) (ordinal : Z) : string := set_name +:+ "-" +:+ Itoa ordinal.
Definition getInstanceName (set : RoleInstanceSet) (ordinal : Z) : string := instance_name (rs_Name set) ordinal.

Definition isMemberOf (set : RoleInstanceSet) (instance : RoleInstance) : bool :=
  bool_decide (getParentName instance = rs_Name set).

Definition identityMatches (set : RoleInstanceSet) (instance : RoleInstance) : bool :=
  let '(parent, ordinal) := getParentNameAndOrdinal instance in
  (ordinal >=? 0) && bool_decide (rs_Name set = parent) &&
  bool_decide (ri_Name instance = getInstanceName set ordinal) &&
  bool_decide (om_Namespace (ri_meta instance) = rs_Namespace set) &&
  bool_decide (label_of (ri_Labels instance) StatefulSetPodNameLabel = ri_Name instance).

Definition identityLabels (name : string) (ordinal : Z) : labels :=
  {[StatefulSetPodNameLabel := name; RoleInstanceIndexLabelKey := Itoa ordinal]}.

Definition updateIdentity (set : RoleInstanceSet) (instance : RoleInstance) : RoleInstance :=
  let ordinal := getOrdinal instance in
  let name := getInstanceName set ordinal in
  let m := with_name name (rs_Namespace set) (ri_meta instance) in
  InjectIdentityLabelsIntoComponents
    (ri_with_meta (with_labels (identityLabels name ordinal ∪ om_Labels m) m) instance).

Definition getInstanceSetKey (set : RoleInstanceSet) : string := rs_Namespace set +:+ "/" +:+ rs_Name set.

Definition getInstanceRevision (instance : RoleInstance) : string :=
  label_of (ri_Labels instance) ControllerRevisionHashLabelKey.

(** * Building an instance *)

(** [portallocator.AllocatePortsForInstance] writes annotations of the instance
    and nothing else: it is the annotations it leaves. *)
Class PortAllocation := AllocatePortsForInstance : RoleInstanceSet -> RoleInstance -> labels.

Definition controllerRef (set : RoleInstanceSet) : OwnerReference := {|
  or_APIVersion := "workloads.x-k8s.io/v1alpha2"; or_Kind := "RoleInstanceSet";
  or_Name := rs_Name set; or_UID := rs_UID set;
  or_Controller := Some true; or_BlockOwnerDeletion := Some true |}.

(** The annotations handed down from the set to each instance. *)
Definition propagatedAnnotations : list string :=
  [RoleInstanceGangSchedulingAnnotationKey; RoleInplaceSchedulingAnnotationKey;
   RoleInplaceSchedulingGranularityAnnotationKey; RoleInplaceSchedulingAvoidAnnotationKey;
   RoleInplaceUpdateGracePeriodSecondsKey].

(** The partition [newVersionedInstance] compares the ordinal with. *)
Definition instance_partition (currentSet : RoleInstanceSet) : Z :=
  match us_Partition (rs_update currentSet), rss_Replicas (rs_spec currentSet) with
  | Some p, Some n =>
      match GetValueFromIntOrPercent (Some p) n false with Ok v => int32 v | Err _ => 0 end
  | _, _ => 0
  end.

Definition newVersionedInstance `{PortAllocation} (currentSet updateSet : RoleInstanceSet)
    (currentRevision updateRevision : string) (ordinal : Z) : RoleInstance :=
  let useUpdateRevision := ordinal >=? instance_partition currentSet in
  let setToUse := if useUpdateRevision then updateSet else currentSet in
  let name := getInstanceName currentSet ordinal in
  let selector := default ∅ (rss_Selector (rs_spec currentSet)) in
  let revision := if useUpdateRevision then updateRevision else currentRevision in
  let labels :=
    identityLabels name ordinal ∪
    <[ControllerRevisionHashLabelKey := revision]> (selector ∪ om_Labels (rs_meta currentSet)) in
  let annotations :=
    filter (fun kv : string * string => kv.1 ∈ propagatedAnnotations) (om_Annotations (rs_meta currentSet)) in
  let meta := {|
    om_Name := name; om_GenerateName := ""; om_Namespace := rs_Namespace currentSet; om_UID := "";
    om_ResourceVersion := ""; om_Generation := 0; om_CreationTimestamp := None;
    om_DeletionTimestamp := None; om_Labels := labels; om_Annotations := annotations;
    om_OwnerReferences := [controllerRef currentSet]; om_Finalizers := [] |} in
  let instance := InjectIdentityLabelsIntoComponents
    {| ri_meta := meta; ri_spec := rss_RoleInstanceTemplate (rs_spec setToUse);
       ri_status := empty_instance_status |} in
  ri_with_meta (with_annotations (AllocatePortsForInstance currentSet instance) (ri_meta instance)) instance.

(** * Instance state *)

Definition isHealthy (instance : RoleInstance) : bool :=
  existsb (fun c => bool_decide (cond_Type c = RoleInstanceReady) && bool_decide (cond_Status c = ConditionTrue))
    (rist_Conditions (ri_status instance)).

Definition isCreated (instance : option RoleInstance) : bool :=
  match instance with Some i => negb (bool_decide (ri_UID i = ""%string)) | None => false end.

Definition isTerminating (instance : option RoleInstance) : bool :=
  match instance with Some i => bool_decide (is_Some (om_DeletionTimestamp (ri_meta i))) | None => false end.

Definition isRunningAndReady (instance : RoleInstance) : bool :=
  isHealthy instance && negb (isTerminating (Some instance)).

(** [time.Time.Sub], which saturates against the zero time. *)
Definition time_sub (now : Z) (t : gotime) : Z := match t with Some t => now - t | None => int64_max end.

Definition isInstanceRunningAndAvailable (now : Z) (instance : RoleInstance) (minReadySeconds : Z) : bool * Z :=
  if negb (isRunningAndReady instance) then (false, 0)
  else
    match List.find (fun c => bool_decide (cond_Type c = RoleInstanceReady) && bool_decide (cond_Status c = ConditionTrue))
            (rist_Conditions (ri_status instance)) with
    | Some cond =>
        let availableFor := time_sub now (cond_LastTransitionTime cond) in
        let minDuration := minReadySeconds * second in
        if availableFor <? minDuration then (false, minDuration - availableFor) else (true, 0)
    | None => (false, 0)
    end.

(** * Topology *)

Record topology := {
  tp_startOrdinal : Z;
  tp_endOrdinal : Z;
  tp_reserveOrdinals : gset Z;
  tp_replicas : Z;
  tp_partition : Z;
  tp_maxUnavailable : Z;
  tp_maxSurge : Z;
  tp_activeSurge : Z;
  tp_surgeStart : Z;
  tp_inRollout : bool
}.

Definition computeMaxSurge (set : RoleInstanceSet) : result Z :=
  match us_MaxSurge (rs_update set), rss_Replicas (rs_spec set) with
  | Some s, Some n =>
      maxSurge ← GetScaledValueFromIntOrPercent (Some s) n true;
      Ok (if maxSurge <? 0 then 0 else maxSurge)
  | _, _ => Ok 0
  end.

Definition DefaultRoleInstanceSetMaxUnavailable : string := "10%".

Definition computeMaxUnavailable (set : RoleInstanceSet) (maxSurge : Z) : result Z :=
  match rss_Replicas (rs_spec set) with
  | None =>
      match us_MaxUnavailable (rs_update set) with
      | Some _ => Err "spec.Replicas is nil"
      | None => Ok 0
      end
  | Some replicas =>
      let v := default (FromString DefaultRoleInstanceSetMaxUnavailable) (us_MaxUnavailable (rs_update set)) in
      raw ← GetScaledValueFromIntOrPercent (Some v) replicas (maxSurge =? 0);
      let raw := if (maxSurge =? 0) && (raw <? 1) then 1 else raw in
      Ok (if raw <? 0 then 0 else raw)
  end.

Definition computePartition (set : RoleInstanceSet) : result Z :=
  match us_Partition (rs_update set), rss_Replicas (rs_spec set) with
  | Some p, Some n =>
      v ← GetValueFromIntOrPercent (Some p) n false;
      Ok (if v <? 0 then 0 else if v >? n then n else v)
  | _, _ => Ok 0
  end.

Definition in_ordinals (lo hi : Z) (i : RoleInstance) : bool := (lo <=? getOrdinal i) && (getOrdinal i <? hi).

(** Healthy and serving: created, ready and not being deleted. *)
Definition serving (i : RoleInstance) : bool :=
  isCreated (Some i) && isHealthy i && negb (isTerminating (Some i)).

Definition at_revision (revision : string) (i : RoleInstance) : bool :=
  bool_decide (getInstanceRevision i = revision).

Definition on_instance (f : RoleInstance -> bool) (o : option RoleInstance) : bool :=
  match o with Some i => f i | None => false end.

Definition countHealthyOldInBase (instances : list (option RoleInstance)) (partition replicas : Z)
    (updateRevision : string) : Z :=
  if replicas <=? partition then 0
  else countb (on_instance (fun i => in_ordinals partition replicas i && negb (at_revision updateRevision i) && serving i))
         instances.

Definition countExistingValidSurge (instances : list (option RoleInstance)) (replicas maxSurge : Z)
    (updateRevision : string) : Z :=
  if maxSurge <=? 0 then 0
  else countb (on_instance (fun i => in_ordinals replicas (replicas + maxSurge) i && at_revision updateRevision i
                                     && negb (isTerminating (Some i))))
         instances.

(** Done with respect to the update revision. *)
Definition up_to_date (updateRevision : string) (i : RoleInstance) : bool :=
  at_revision updateRevision i && serving i
  && negb (rist_ObservedGeneration (ri_status i) <? om_Generation (ri_meta i)).

(** The loop: [None] when an instance of the range is not done, otherwise the
    ordinals seen. *)
Fixpoint allBase_loop (instances : list (option RoleInstance)) (partition replicas : Z)
    (updateRevision : string) (seen : gset Z) : option (gset Z) :=
  match instances with
  | [] => Some seen
  | None :: l => allBase_loop l partition replicas updateRevision seen
  | Some i :: l =>
      if negb (in_ordinals partition replicas i) then allBase_loop l partition replicas updateRevision seen
      else if up_to_date updateRevision i
      then allBase_loop l partition replicas updateRevision ({[getOrdinal i]} ∪ seen)
      else None
  end.

Definition allBaseAtUpdateRevHealthy (instances : list (option RoleInstance)) (partition replicas : Z)
    (updateRevision : string) : bool :=
  if replicas <=? partition then true
  else match allBase_loop instances partition replicas updateRevision ∅ with
       | None => false
       | Some seen => Z.of_nat (size seen) =? replicas - partition
       end.

Definition hasStaleBaseInstance (instances : list (option RoleInstance)) (partition replicas : Z)
    (updateRevision : string) : bool :=
  if replicas <=? partition then false
  else existsb (on_instance (fun i => isCreated (Some i) && in_ordinals partition replicas i
                                      && negb (at_revision updateRevision i))) instances.

Definition rolloutReplacementStateActive (set : option RoleInstanceSet) (instances : list (option RoleInstance))
    (partition replicas : Z) (updateRevision : string) : bool :=
  match set with
  | None => false
  | Some set =>
      match st_RolloutReplacementState (rs_status set) with
      | None => false
      | Some state =>
          if negb (bool_decide (rrs_UpdateRevision state = updateRevision)) then false
          else negb (allBaseAtUpdateRevHealthy instances (Z.max partition (rrs_Partition state))
                       (Z.min replicas (rrs_Replicas state)) updateRevision)
      end
  end.

Definition computeTopology (set : RoleInstanceSet) (instances : list (option RoleInstance))
    (currentRevision updateRevision : string) (earlyRollbackReplacement : bool) : result topology :=
  let replicas := default 0 (rss_Replicas (rs_spec set)) in
  maxSurge ← computeMaxSurge set;
  maxUnav ← computeMaxUnavailable set maxSurge;
  partition ← computePartition set;
  let staleBase := hasStaleBaseInstance instances partition replicas updateRevision in
  let updatePending := negb (bool_decide (currentRevision = updateRevision)) || staleBase || earlyRollbackReplacement in
  let paused := us_Paused (rs_update set) in
  let inRollout := updatePending && negb paused in
  let mk active := {|
    tp_startOrdinal := 0; tp_endOrdinal := replicas + active; tp_reserveOrdinals := ∅;
    tp_replicas := replicas; tp_partition := partition; tp_maxUnavailable := maxUnav;
    tp_maxSurge := maxSurge; tp_activeSurge := active; tp_surgeStart := replicas;
    tp_inRollout := inRollout |} in
  if maxSurge =? 0 then Ok (mk 0)
  else if negb inRollout then
    if paused && updatePending then
      let existing := countExistingValidSurge instances replicas maxSurge updateRevision in
      Ok (mk (if existing >? maxSurge then maxSurge else existing))
    else Ok (mk 0)
  else
    let healthyOld := countHealthyOldInBase instances partition replicas updateRevision in
    let surgeNeeded := if healthyOld - maxUnav <? 0 then 0 else healthyOld - maxUnav in
    let active :=
      if negb (allBaseAtUpdateRevHealthy instances partition replicas updateRevision) then
        let existing := countExistingValidSurge instances replicas maxSurge updateRevision in
        if existing >? surgeNeeded then existing else surgeNeeded
      else surgeNeeded in
    Ok (mk (if active >? maxSurge then maxSurge else active)).

(** * Names round-trip *)

Lemma span_digits_app d r :
  Forall (fun c => is_digit c = true) d ->
  match r with c :: _ => is_digit c = false | [] => True end ->
  span_digits (d ++ r) = (d, r).
Proof.
  intros HF Hr. induction HF as [|c d Hc HF IH]; simpl.
  - destruct r as [|c r]; [done|]. simpl. by rewrite Hr.
  - by rewrite Hc, IH.
Qed.

Lemma parse_instance_name_eq set_name n :
  0 <= n -> statefulInstanceRegex (instance_name set_name n) = Some (set_name, Itoa n).
Proof.
  intros Hn. unfold statefulInstanceRegex, instance_name. rewrite !chars_app. unfold Itoa.
  replace (n <? 0) with false by (symmetry; apply Z.ltb_ge; lia). rewrite chars_of_chars.
  change (chars "-") with ["-"%char]. rewrite !rev_app_distr. simpl (rev ["-"%char]).
  rewrite <-app_assoc, span_digits_app; [|apply Forall_rev, utoa_all_digits; lia|done].
  destruct (rev (utoa n)) as [|c l] eqn:E.
  { apply (f_equal (@rev ascii)) in E. rewrite rev_involutive in E. by apply utoa_nonempty in E. }
  cbn [app]. rewrite bool_decide_eq_true_2 by done.
  by rewrite <-E, !rev_involutive, of_chars_chars.
Qed.

Lemma parse_instance_name_instance set_name n :
  0 <= n <= int32_max -> parse_instance_name (instance_name set_name n) = (set_name, n).
Proof.
  intros Hn. unfold parse_instance_name. rewrite parse_instance_name_eq by lia.
  rewrite ParseInt_Itoa; [done|]. unfold_int. change (2 ^ (32 - 1)) with 2147483648. lia.
Qed.

Lemma getOrdinal_name i set n :
  ri_Name i = getInstanceName set n -> 0 <= n <= int32_max ->
  getParentName i = rs_Name set /\ getOrdinal i = n.
Proof.
  intros Hi Hn. unfold getParentName, getOrdinal, getParentNameAndOrdinal. rewrite Hi.
  unfold getInstanceName. by rewrite parse_instance_name_instance.
Qed.

Lemma newVersionedInstance_name `{PortAllocation} cs us cr ur n :
  ri_Name (newVersionedInstance cs us cr ur n) = getInstanceName cs n.
Proof. unfold newVersionedInstance, InjectIdentityLabelsIntoComponents. by destruct (bool_decide _). Qed.

(** * The topology *)

Lemma countb_option_bounds f (l : list (option RoleInstance)) : 0 <= countb (on_instance f) l.
Proof. apply countb_nonneg. Qed.

Lemma computeMaxSurge_nonneg set s : computeMaxSurge set = Ok s -> 0 <= s.
Proof.
  unfold computeMaxSurge. destruct (us_MaxSurge (rs_update set)), (rss_Replicas (rs_spec set)); try (intros [= <-]; lia).
  destruct (GetScaledValueFromIntOrPercent _ _ _); [|done]. intros [= <-]. bcase.
Qed.

Lemma computeMaxUnavailable_bounds set s u :
  computeMaxUnavailable set s = Ok u ->
  0 <= u /\ (s = 0 -> rss_Replicas (rs_spec set) <> None -> 1 <= u).
Proof.
  unfold computeMaxUnavailable. destruct (rss_Replicas (rs_spec set)) as [n|].
  - destruct (GetScaledValueFromIntOrPercent _ _ _) as [raw|]; [|done]. cbn [mbind result_bind].
    intros [= <-]. destruct (s =? 0) eqn:E; breflect; cbn [andb]; (split; [bcase|intros Hs _; bcase]).
  - destruct (us_MaxUnavailable (rs_update set)); [done|]. intros [= <-]. done.
Qed.

Lemma computePartition_bounds set p :
  0 <= default 0 (rss_Replicas (rs_spec set)) ->
  computePartition set = Ok p -> 0 <= p <= default 0 (rss_Replicas (rs_spec set)).
Proof.
  unfold computePartition. destruct (us_Partition (rs_update set)) as [q|], (rss_Replicas (rs_spec set)) as [n|]; simpl;
    try (intros ? [= <-]; lia).
  destruct (GetValueFromIntOrPercent _ _ _) as [v|]; [|done]. intros Hn [= <-]. bcase.
Qed.

(** The surge of a topology, named by the situation that sizes it. *)
Inductive surge_case (set : RoleInstanceSet) (instances : list (option RoleInstance)) (updateRevision : string)
    (pending : bool) (t : topology) : Prop :=
| surge_none : tp_activeSurge t = 0 -> tp_maxSurge t = 0 \/ pending = false -> surge_case set instances updateRevision pending t
| surge_frozen : pending = true -> us_Paused (rs_update set) = true ->
    tp_activeSurge t = Z.min (countExistingValidSurge instances (tp_replicas t) (tp_maxSurge t) updateRevision) (tp_maxSurge t) ->
    surge_case set instances updateRevision pending t
| surge_rolling : pending = true -> us_Paused (rs_update set) = false ->
    (let needed := Z.max 0 (countHealthyOldInBase instances (tp_partition t) (tp_replicas t) updateRevision - tp_maxUnavailable t) in
     let existing := countExistingValidSurge instances (tp_replicas t) (tp_maxSurge t) updateRevision in
     tp_activeSurge t =
       Z.min (tp_maxSurge t)
         (if allBaseAtUpdateRevHealthy instances (tp_partition t) (tp_replicas t) updateRevision
          then needed else Z.max needed existing)) ->
    surge_case set instances updateRevision pending t.

Definition update_pending (instances : list (option RoleInstance)) (currentRevision updateRevision : string)
    (early : bool) (t : topology) : bool :=
  negb (bool_decide (currentRevision = updateRevision))
  || hasStaleBaseInstance instances (tp_partition t) (tp_replicas t) updateRevision || early.

Lemma countExistingValidSurge_nonneg instances n s r : 0 <= countExistingValidSurge instances n s r.
Proof. unfold countExistingValidSurge. destruct (_ <=? _); [done|apply countb_nonneg]. Qed.

Lemma computeTopology_spec set instances cr ur early t :
  computeTopology set instances cr ur early = Ok t ->
  computeMaxSurge set = Ok (tp_maxSurge t) /\
  computeMaxUnavailable set (tp_maxSurge t) = Ok (tp_maxUnavailable t) /\
  computePartition set = Ok (tp_partition t) /\
  tp_replicas t = default 0 (rss_Replicas (rs_spec set)) /\
  tp_startOrdinal t = 0 /\ tp_surgeStart t = tp_replicas t /\
  tp_endOrdinal t = tp_replicas t + tp_activeSurge t /\ tp_reserveOrdinals t = ∅ /\
  tp_inRollout t = update_pending instances cr ur early t && negb (us_Paused (rs_update set)) /\
  surge_case set instances ur (update_pending instances cr ur early t) t.
Proof.
  unfold computeTopology. destruct (computeMaxSurge set) as [ms|] eqn:Hms; [|done].
  cbn [mbind result_bind]. destruct (computeMaxUnavailable set ms) as [mu|] eqn:Hmu; [|done].
  cbn [mbind result_bind]. destruct (computePartition set) as [p|] eqn:Hp; [|done].
  cbn [mbind result_bind]. pose proof (computeMaxSurge_nonneg _ _ Hms).
  set (pending := _ || _ || _).
  assert (forall t, tp_partition t = p -> tp_replicas t = default 0 (rss_Replicas (rs_spec set)) ->
            update_pending instances cr ur early t = pending) as Hpend.
  { intros t' Hp' Hr'. unfold update_pending. by rewrite Hp', Hr'. }
  clearbody pending.
  destruct (ms =? 0) eqn:E0; breflect.
  { intros [= <-]. rewrite Hpend by done. split_and!; try done. by apply surge_none; [|left]. }
  destruct (us_Paused (rs_update set)) eqn:Hpaused, pending; cbn [negb andb]; intros [= <-];
    rewrite Hpend by done; split_and!; try done.
  - apply surge_frozen; [done..|]. simpl. bcase.
  - apply surge_none; [done|by right].
  - apply surge_rolling; [done..|]. simpl. destruct (allBaseAtUpdateRevHealthy _ _ _ _); cbn [negb]; bcase.
  - apply surge_none; [done|by right].
Qed.

(** * The base is up to date *)

Definition instances_in (instances : list (option RoleInstance)) (lo hi : Z) (i : RoleInstance) : Prop :=
  Some i ∈ instances /\ lo <= getOrdinal i < hi.

Lemma in_ordinals_true lo hi i : in_ordinals lo hi i = true <-> lo <= getOrdinal i < hi.
Proof. unfold in_ordinals. rewrite andb_true_iff, Z.leb_le, Z.ltb_lt. tauto. Qed.

Lemma allBase_loop_spec instances lo hi rev seen :
  match allBase_loop instances lo hi rev seen with
  | Some seen' =>
      (forall i, instances_in instances lo hi i -> up_to_date rev i = true) /\
      (forall o, o ∈ seen' <-> o ∈ seen \/ exists i, instances_in instances lo hi i /\ getOrdinal i = o)
  | None => exists i, instances_in instances lo hi i /\ up_to_date rev i = false
  end.
Proof.
  unfold instances_in. revert seen. induction instances as [|[i|] l IH]; intros seen; simpl.
  - split; [set_solver|]. intros o. split; [auto|]. intros [?|(i & [? _] & _)]; [done|set_solver].
  - destruct (in_ordinals lo hi i) eqn:Hin; simpl.
    + apply in_ordinals_true in Hin. destruct (up_to_date rev i) eqn:Hup.
      * specialize (IH ({[getOrdinal i]} ∪ seen)). destruct (allBase_loop l _ _ _ _) as [s|].
        -- destruct IH as [IH1 IH2]. split.
           ++ intros j [[Hj|Hj]%elem_of_cons Hr]; [by simplify_eq|auto].
           ++ intros o. rewrite IH2. rewrite elem_of_union, elem_of_singleton. split.
              ** intros [[->|?]|(j & [Hj Hr] & Ho)]; [right; exists i; set_solver|by left|].
                 right. exists j. set_solver.
              ** intros [?|(j & [[Hj|Hj]%elem_of_cons Hr] & Ho)]; [tauto|simplify_eq; tauto|].
                 right. eauto.
        -- destruct IH as (j & [Hj Hr] & Hn). exists j. set_solver.
      * exists i. set_solver.
    + assert (~ (lo <= getOrdinal i < hi)) as Hno by (rewrite <-in_ordinals_true; congruence).
      specialize (IH seen). destruct (allBase_loop l _ _ _ _) as [s|].
      * destruct IH as [IH1 IH2]. split.
        -- intros j [[Hj|Hj]%elem_of_cons Hr]; [by simplify_eq|auto].
        -- intros o. rewrite IH2. split; (intros [?|(j & [Hj Hr] & Ho)]; [by left|right; exists j]); [set_solver|].
           apply elem_of_cons in Hj as [Hj|Hj]; [by simplify_eq|auto].
      * destruct IH as (j & [Hj Hr] & Hn). exists j. set_solver.
  - specialize (IH seen). destruct (allBase_loop l _ _ _ _) as [s|].
    + destruct IH as [IH1 IH2]. split; [set_solver|]. intros o. rewrite IH2. set_solver.
    + set_solver.
Qed.

Lemma size_seqZ lo hi : lo <= hi -> size (list_to_set (seqZ lo (hi - lo)) : gset Z) = Z.to_nat (hi - lo).
Proof. intros H. rewrite size_list_to_set by apply NoDup_seqZ. apply length_seqZ. Qed.

Lemma allBase_iff instances lo hi rev :
  lo < hi ->
  allBaseAtUpdateRevHealthy instances lo hi rev = true <->
  (forall i, instances_in instances lo hi i -> up_to_date rev i = true) /\
  (forall o, lo <= o < hi -> exists i, instances_in instances lo hi i /\ getOrdinal i = o).
Proof.
  intros Hlt. unfold allBaseAtUpdateRevHealthy.
  replace (hi <=? lo) with false by (symmetry; apply Z.leb_gt; lia).
  pose proof (allBase_loop_spec instances lo hi rev ∅) as Hs.
  destruct (allBase_loop _ _ _ _ _) as [seen|].
  2:{ split; [done|]. intros [H _]. destruct Hs as (i & Hi & Hn). by rewrite (H i Hi) in Hn. }
  destruct Hs as [Hup Hseen]. set (all := list_to_set (seqZ lo (hi - lo)) : gset Z).
  assert (size all = Z.to_nat (hi - lo)) as Hsz by (apply size_seqZ; lia).
  assert (seen ⊆ all) as Hsub.
  { intros o Ho. apply Hseen in Ho as [?|(i & [_ Hr] & <-)]; [set_solver|].
    unfold all. apply elem_of_list_to_set, elem_of_seqZ. lia. }
  rewrite Z.eqb_eq. split.
  - intros Heq. split; [done|]. intros o Ho.
    assert (seen = all) as Hall by (apply set_subseteq_size_eq; [done|lia]).
    assert (o ∈ seen) as Hos.
    { rewrite Hall. unfold all. apply elem_of_list_to_set, elem_of_seqZ. lia. }
    apply Hseen in Hos as [?|?]; [set_solver|done].
  - intros [_ Hex]. assert (all ⊆ seen) as Hsup.
    { intros o Ho. unfold all in Ho. apply elem_of_list_to_set, elem_of_seqZ in Ho.
      apply Hseen. right. apply Hex. lia. }
    assert (seen = all) as Hall by (apply set_eq; set_solver). rewrite Hall. lia.
Qed.

Lemma up_to_date_not_old rev i : up_to_date rev i = true -> at_revision rev i = true.
Proof. unfold up_to_date. by intros [[? _]%andb_prop _]%andb_prop. Qed.

Lemma allBase_no_old instances lo hi rev :
  allBaseAtUpdateRevHealthy instances lo hi rev = true -> countHealthyOldInBase instances lo hi rev = 0.
Proof.
  intros H. unfold countHealthyOldInBase. destruct (hi <=? lo) eqn:E; breflect; [done|].
  apply allBase_iff in H as [Hup _]; [|lia]. apply countb_zero. intros [i|] Hi; [|done]. simpl.
  destruct (in_ordinals lo hi i) eqn:Hin; [|done]. apply in_ordinals_true in Hin.
  by rewrite (up_to_date_not_old rev i (Hup i (conj Hi Hin))).
Qed.

(** * Identity: lemmas *)

Lemma Inject_meta i : ri_meta (InjectIdentityLabelsIntoComponents i) = ri_meta i.
Proof. unfold InjectIdentityLabelsIntoComponents. by destruct (bool_decide _). Qed.

Lemma identityLabels_name name n : identityLabels name n !! StatefulSetPodNameLabel = Some name.
Proof. unfold identityLabels. by rewrite lookup_insert_eq. Qed.

Lemma identityLabels_index name n : identityLabels name n !! RoleInstanceIndexLabelKey = Some (Itoa n).
Proof. unfold identityLabels. rewrite lookup_insert_ne by done. apply lookup_singleton_eq. Qed.

Lemma identityLabels_other name n k :
  k ∉ identityLabelKeys -> identityLabels name n !! k = None.
Proof.
  intros Hk. unfold identityLabels, identityLabelKeys in *.
  rewrite lookup_insert_ne, lookup_singleton_ne; set_solver.
Qed.

Lemma identityMatches_intro set i n :
  ri_Name i = getInstanceName set n -> 0 <= n <= int32_max ->
  om_Namespace (ri_meta i) = rs_Namespace set ->
  ri_Labels i !! StatefulSetPodNameLabel = Some (ri_Name i) -> identityMatches set i = true.
Proof.
  intros Hname Hn Hns Hl. unfold identityMatches.
  destruct (getOrdinal_name i set n Hname Hn) as [Hp Ho]. unfold getParentName, getOrdinal in Hp, Ho.
  destruct (getParentNameAndOrdinal i) as [parent o]. simpl in *. subst.
  unfold label_of. rewrite Hl. simpl. rewrite !bool_decide_eq_true_2 by done.
  replace (n >=? 0) with true by (symmetry; apply Z.geb_le; lia). done.
Qed.

Lemma getOrdinal_range i : -1 <= getOrdinal i <= int32_max \/ getOrdinal i < 0.
Proof.
  unfold getOrdinal, getParentNameAndOrdinal, parse_instance_name.
  destruct (statefulInstanceRegex _) as [[p d]|]; simpl; [|left; unfold_int; lia].
  destruct (ParseInt d 32) eqn:E; [|left; unfold_int; lia].
  apply ParseInt_range in E. change (2 ^ (32 - 1)) with 2147483648 in E. unfold_int. lia.
Qed.

(** * Properties *)

(** An instance built for ordinal n is a member of its set, parses back to
    ordinal n, has the identity the set requires, carries the update revision
    exactly when n is at or above the partition, hands its identity labels to the
    pod template of every component, and is neither created nor terminating. *)
Theorem newVersionedInstance_identity `{PortAllocation} (cs us : RoleInstanceSet) (cr ur : string) (n : Z) :
  0 <= n <= int32_max ->
  let i := newVersionedInstance cs us cr ur n in
  getParentNameAndOrdinal i = (rs_Name cs, n) /\ isMemberOf cs i = true /\ identityMatches cs i = true /\
  getInstanceRevision i = (if instance_partition cs <=? n then ur else cr) /\
  (forall c, c ∈ ris_Components (ri_spec i) ->
     tmpl_Labels (ric_Template c) !! StatefulSetPodNameLabel = Some (getInstanceName cs n) /\
     tmpl_Labels (ric_Template c) !! RoleInstanceIndexLabelKey = Some (Itoa n)) /\
  isCreated (Some i) = false /\ isTerminating (Some i) = false.
Proof.
  intros Hn. simpl. set (i := newVersionedInstance cs us cr ur n).
  pose proof (newVersionedInstance_name cs us cr ur n : ri_Name i = _) as Hname.
  assert (ri_Labels i !! StatefulSetPodNameLabel = Some (getInstanceName cs n) /\
          ri_Labels i !! RoleInstanceIndexLabelKey = Some (Itoa n) /\
          ri_Labels i !! ControllerRevisionHashLabelKey = Some (if instance_partition cs <=? n then ur else cr)) as (H1 & H2 & H3).
  { unfold i, ri_Labels, newVersionedInstance. cbn [ri_meta ri_with_meta with_annotations om_Labels].
    rewrite Inject_meta. cbn [ri_meta om_Labels]. rewrite Z.geb_leb. split_and!.
    - apply lookup_union_Some_l, identityLabels_name.
    - apply lookup_union_Some_l, identityLabels_index.
    - rewrite lookup_union_r by (by apply identityLabels_other; unfold identityLabelKeys; set_solver).
      apply lookup_insert_eq. }
  split_and!.
  - unfold getParentNameAndOrdinal. rewrite Hname. by apply parse_instance_name_instance.
  - apply bool_decide_eq_true. by apply (getOrdinal_name i cs n).
  - apply identityMatches_intro with n; [done|done| |by rewrite Hname].
    unfold i, newVersionedInstance. cbn [ri_meta ri_with_meta with_annotations om_Namespace]. by rewrite Inject_meta.
  - unfold getInstanceRevision, label_of. by rewrite H3.
  - intros c Hc. split; (eapply InjectIdentityLabels_spec; [| |exact Hc]); unfold identityLabelKeys; try set_solver.
    + by rewrite <-H1; unfold i, ri_Labels, newVersionedInstance; cbn; rewrite Inject_meta.
    + by rewrite <-H2; unfold i, ri_Labels, newVersionedInstance; cbn; rewrite Inject_meta.
  - unfold i, newVersionedInstance, isCreated, ri_UID. cbn [ri_meta ri_with_meta with_annotations om_UID]. by rewrite Inject_meta.
  - unfold i, newVersionedInstance, isTerminating. cbn [ri_meta ri_with_meta with_annotations om_DeletionTimestamp].
    by rewrite Inject_meta.
Qed.

(** UpdateIdentity gives any instance with an ordinal the identity its set
    requires, and keeps the ordinal. *)
Theorem updateIdentity_matches (set : RoleInstanceSet) (i : RoleInstance) :
  0 <= getOrdinal i ->
  identityMatches set (updateIdentity set i) = true /\ getOrdinal (updateIdentity set i) = getOrdinal i.
Proof.
  intros Hn. assert (0 <= getOrdinal i <= int32_max) as Hr by (pose proof (getOrdinal_range i); lia).
  assert (ri_Name (updateIdentity set i) = getInstanceName set (getOrdinal i)) as Hname.
  { unfold updateIdentity, ri_Name. by rewrite Inject_meta. }
  split; [|by apply (getOrdinal_name _ set)].
  apply identityMatches_intro with (getOrdinal i); [done|done| |rewrite Hname].
  - unfold updateIdentity. by rewrite Inject_meta.
  - unfold updateIdentity, ri_Labels. rewrite Inject_meta. cbn. apply lookup_union_Some_l, identityLabels_name.
Qed.

(** The base is reported up to date exactly when every ordinal of
    [partition, replicas) holds an instance and every instance there is at the
    update revision, created, ready, not terminating and observed at its latest
    generation; the size comparison of the code needs no distinct ordinals. *)
Theorem allBaseAtUpdateRevHealthy_spec (instances : list (option RoleInstance)) (partition replicas : Z) (rev : string) :
  allBaseAtUpdateRevHealthy instances partition replicas rev = true <->
  (forall o, partition <= o < replicas -> exists i, Some i ∈ instances /\ getOrdinal i = o) /\
  (forall i, Some i ∈ instances -> partition <= getOrdinal i < replicas -> up_to_date rev i = true).
Proof.
  destruct (decide (partition < replicas)) as [Hlt|Hge].
  - rewrite allBase_iff by done. unfold instances_in. split.
    + intros [Hup Hex]. split; [|auto]. intros o Ho. destruct (Hex o Ho) as (i & [? _] & ?). eauto.
    + intros [Hex Hup]. split; [intros i [? ?]; auto|]. intros o Ho. destruct (Hex o Ho) as (i & Hi & <-). eauto.
  - unfold allBaseAtUpdateRevHealthy. replace (replicas <=? partition) with true by (symmetry; apply Z.leb_le; lia).
    split; [|done]. intros _. split; intros; lia.
Qed.

(** The ordinal window of a reconcile: it starts at 0, covers every desired
    replica and at most maxSurge ordinals more; it holds no surge when no update is
    pending; while the base is unfinished or the rollout is paused it keeps the
    surge already allocated at the update revision; while rolling it holds a surge
    slot for each serving old instance that maxUnavailable does not cover, up to
    maxSurge, and drops all surge once the base is done.  The partition lies within the
    replicas, and without surge at least one instance may be unavailable. *)
Theorem computeTopology_window (set : RoleInstanceSet) (instances : list (option RoleInstance))
    (cr ur : string) (early : bool) (t : topology) :
  0 <= default 0 (rss_Replicas (rs_spec set)) -> computeTopology set instances cr ur early = Ok t ->
  let pending := update_pending instances cr ur early t in
  let done := allBaseAtUpdateRevHealthy instances (tp_partition t) (tp_replicas t) ur in
  let existing := countExistingValidSurge instances (tp_replicas t) (tp_maxSurge t) ur in
  let surge := tp_endOrdinal t - tp_replicas t in
  tp_startOrdinal t = 0 /\ 0 <= surge <= tp_maxSurge t /\ 0 <= tp_partition t <= tp_replicas t /\
  (pending = false -> surge = 0) /\
  (pending = true -> us_Paused (rs_update set) = true \/ done = false ->
     Z.min existing (tp_maxSurge t) <= surge) /\
  (pending = true -> us_Paused (rs_update set) = false ->
     Z.min (tp_maxSurge t)
       (countHealthyOldInBase instances (tp_partition t) (tp_replicas t) ur - tp_maxUnavailable t) <= surge /\
     (done = true -> surge = 0)) /\
  (tp_maxSurge t = 0 -> rss_Replicas (rs_spec set) <> None -> 1 <= tp_maxUnavailable t).
Proof.
  intros Hrep Ht. apply computeTopology_spec in Ht as (Hms & Hmu & Hp & Hr & Hs & Hss & He & _ & _ & Hcase).
  simpl. set (pending := update_pending _ _ _ _ _) in *. clearbody pending.
  pose proof (computeMaxSurge_nonneg _ _ Hms). pose proof (computeMaxUnavailable_bounds _ _ _ Hmu) as [Hmu0 Hmu1].
  pose proof (computePartition_bounds _ _ Hrep Hp) as Hpb. rewrite <-Hr in Hpb.
  pose proof (countExistingValidSurge_nonneg instances (tp_replicas t) (tp_maxSurge t) ur).
  replace (tp_endOrdinal t - tp_replicas t) with (tp_activeSurge t) by lia.
  destruct Hcase as [Hz [Hn|Hn]|Hpd Hpa Hact|Hpd Hpa Hact]; cbv zeta in *.
  - split_and!; [lia..| |by intros; apply Hmu1]. intros _ _. split; lia.
  - subst pending. split_and!; [lia..|done|done|]. intros; by apply Hmu1.
  - subst pending. rewrite Hpa. split_and!; [lia..|done|lia|done|by intros; apply Hmu1].
  - subst pending. rewrite Hpa.
    destruct (allBaseAtUpdateRevHealthy _ _ _ _) eqn:Hd.
    + split_and!; [lia..|done|by intros _ [?|?]| |by intros; apply Hmu1].
      intros _ _. rewrite (allBase_no_old _ _ _ _ Hd) in *. split; lia.
    + split_and!; [lia..|done|lia| |by intros; apply Hmu1].
      intros _ _. split; [lia|done].
Qed.

(** A percentage partition of the instance set is rounded down, both by the
    topology and by the construction of new instances, although the field
    documents rounding up. *)
Theorem computePartition_rounds_down (set : RoleInstanceSet) (p n : Z) :
  us_Partition (rs_update set) = Some (FromString (percent p)) -> rss_Replicas (rs_spec set) = Some n ->
  0 <= p <= 100 -> 0 <= n <= int32_max ->
  computePartition set = Ok (p * n / 100) /\ instance_partition set = p * n / 100.
Proof.
  unfold_int. intros Hp Hn Hpr Hnr. unfold computePartition, instance_partition. rewrite Hp, Hn.
  rewrite GetValue_percent by nia. cbn [mbind result_bind].
  pose proof (Z.div_pos (p * n) 100 ltac:(nia) ltac:(lia)).
  pose proof (Z.div_le_upper_bound (p * n) 100 n ltac:(lia) ltac:(nia)).
  split; [bcase|]. apply int32_id. unfold_int. lia.
Qed.

(** * A concrete set, for the runs of this file and its clients *)

Module Fixture.
Definition spec : RoleInstanceSpec := {|
  ris_Components := [{| ric_Name := "worker"; ric_Size := Some 2; ric_ServiceName := ""; ric_Labels := ∅;
                        ric_Annotations := ∅;
                        ric_Template := {| tmpl_Labels := ∅; tmpl_Annotations := ∅; tmpl_Finalizers := [];
                          tmpl_spec := {| ps_NodeName := ""; ps_Hostname := ""; ps_Subdomain := "";
                            ps_HostNetwork := false; ps_ReadinessGates := []; ps_Affinity := None;
                            ps_Containers := [{| ct_Name := "main"; ct_Image := "v1"; ct_Env := [];
                                                 ct_Ports := []; ct_rest := "" |}];
                            ps_InitContainers := []; ps_rest := "" |} |} |}];
  ris_ReadyPolicy := ""; ris_RestartPolicy := ""; ris_RestartPolicyConfig := None; ris_ReadinessGates := [] |}.

Definition set (replicas : Z) (partition maxSurge maxUnavailable : option IntOrString) : RoleInstanceSet := {|
  rs_meta := with_name "decode" "default" empty_meta;
  rs_spec := {|
    rss_Replicas := Some replicas; rss_Selector := Some {["app" := "decode"]}; rss_RoleInstanceTemplate := spec;
    rss_PodManagementPolicy := ParallelPodManagement;
    rss_ScaleStrategy := {| ss_RoleInstanceToDelete := []; ss_MaxUnavailable := None |};
    rss_UpdateStrategy := {| us_Type := "RollingUpdate"; us_Partition := partition;
      us_MaxUnavailable := maxUnavailable; us_MaxSurge := maxSurge; us_Paused := false;
      us_InPlaceUpdateStrategy := None |};
    rss_RevisionHistoryLimit := None; rss_MinReadySeconds := 0; rss_Lifecycle := None |};
  rs_status := empty_set_status |}.

Definition instance (ordinal : Z) (revision : string) (ready : bool) : RoleInstance := {|
  ri_meta := with_labels {[ControllerRevisionHashLabelKey := revision]}
    {| om_Name := instance_name "decode" ordinal; om_GenerateName := ""; om_Namespace := "default"; om_UID := "uid-" +:+ Itoa ordinal;
       om_ResourceVersion := "1"; om_Generation := 1; om_CreationTimestamp := Some 0;
       om_DeletionTimestamp := None; om_Labels := ∅; om_Annotations := ∅; om_OwnerReferences := [];
       om_Finalizers := [] |};
  ri_spec := spec;
  ri_status := {|
    rist_ObservedGeneration := 1;
    rist_Conditions := [{| cond_Type := RoleInstanceReady;
                           cond_Status := if ready then ConditionTrue else ConditionFalse;
                           cond_LastTransitionTime := Some 0; cond_Reason := ""; cond_Message := "" |}];
    rist_ComponentStatuses := [{| cs_Name := "worker"; cs_Size := 2; cs_ReadyReplicas := 2; cs_UpdatedReplicas := 2;
                                  cs_ScheduledReplicas := 2; cs_AvailableReplicas := 2; cs_UpdatedReadyReplicas := 2 |}];
    rist_LabelSelector := ""; rist_CurrentRevision := revision;
    rist_UpdateRevision := revision; rist_CollisionCount := None; rist_Baselines := ∅;
    rist_RestartCount := 0; rist_LastRestartTime := None |} |}.

(** No port is allocated: the annotations stay as they are. *)
Definition no_ports : PortAllocation := fun _ i => om_Annotations (ri_meta i).

Definition rolling : RoleInstanceSet := set 4 (Some (FromString "30%")) (Some (FromInt32 2)) (Some (FromInt32 1)).
Definition four_old : list (option RoleInstance) :=
  map (fun n => Some (instance n "old" true)) [0; 1; 2; 3].
Definition rolling_topology : topology := {|
  tp_startOrdinal := 0; tp_endOrdinal := 6; tp_reserveOrdinals := ∅; tp_replicas := 4; tp_partition := 1;
  tp_maxUnavailable := 1; tp_maxSurge := 2; tp_activeSurge := 2; tp_surgeStart := 4; tp_inRollout := true |}.
End Fixture.

(** * Witnesses *)

Lemma newVersionedInstance_identity_witness :
  let i := @newVersionedInstance Fixture.no_ports Fixture.rolling Fixture.rolling "old" "new" 3 in
  getParentNameAndOrdinal i = ("decode"%string, 3) /\ identityMatches Fixture.rolling i = true.
Proof.
  intros i. destruct (@newVersionedInstance_identity Fixture.no_ports Fixture.rolling Fixture.rolling "old" "new" 3)
    as (H1 & _ & H2 & _); [unfold_int; lia|]. split; [exact H1|exact H2].
Defined.

Lemma updateIdentity_matches_witness :
  identityMatches Fixture.rolling (updateIdentity Fixture.rolling (Fixture.instance 2 "old" true)) = true.
Proof.
  destruct (updateIdentity_matches Fixture.rolling (Fixture.instance 2 "old" true)) as [H _]; [|exact H].
  by vm_compute.
Defined.

Lemma computeTopology_window_witness :
  computeTopology Fixture.rolling Fixture.four_old "old" "new" false = Ok Fixture.rolling_topology /\
  Z.min 2 (countHealthyOldInBase Fixture.four_old 1 4 "new" - 1)
    <= tp_endOrdinal Fixture.rolling_topology - tp_replicas Fixture.rolling_topology.
Proof.
  assert (computeTopology Fixture.rolling Fixture.four_old "old" "new" false = Ok Fixture.rolling_topology) as Ht
    by by vm_compute.
  split; [exact Ht|].
  destruct (computeTopology_window Fixture.rolling Fixture.four_old "old" "new" false Fixture.rolling_topology)
    as (_ & _ & _ & _ & _ & H & _); [by vm_compute|exact Ht|].
  apply H; by vm_compute.
Defined.

Lemma computePartition_rounds_down_witness :
  computePartition (Fixture.set 4 (Some (FromString (percent 30))) None None) = Ok (30 * 4 / 100) /\
  instance_partition (Fixture.set 4 (Some (FromString (percent 30))) None None) = 30 * 4 / 100.
Proof. apply computePartition_rounds_down; [done|done|lia|unfold_int; lia]. Defined.
