(* ===== verification/RevisionHistory.v ===== *)
(** The revision history, its properties: which revision becomes the update
    revision, what the equality cache answers and what truncation deletes. *)
From Stdlib Require Import ZArith Lia Bool Ascii String Sorted.
From stdpp Require Import base tactics list strings gmap sets.
From S2P Require Import Prelude GoStrings IntOrString Types Effects Revisions StatefulUtils.

Abbreviation oldest_first := (StronglySorted (fun x y => byRevision_Less y x = false)).

(** * Truncation *)

Section truncation.
Context {W : Type}.

Lemma for_each_inv {A} (f : A -> ST W unit) l w r w' :
  for_each f l w = (r, w') ->
  match r with
  | Ok _ => True
  | Err e => exists l1 x l2 w1, l = l1 ++ x :: l2 /\ for_each f l1 w = (Ok tt, w1) /\ f x w1 = (Err e, w')
  end.
Proof.
  revert w. induction l as [|x l IH]; intros w; cbn [for_each]; [by intros [= <- <-]|].
  intros [(e & He & ->)|([] & w1 & H1 & H2)]%bind_inv.
  - exists [], x, l, w. by rewrite He.
  - apply IH in H2. destruct r as [|e]; [done|]. destruct H2 as (l1 & y & l2 & w2 & -> & H3 & H4).
    exists (x :: l1), y, l2, w2. split; [done|]. split; [|done]. cbn [for_each].
    unfold mbind, ST_bind. by rewrite H1.
Qed.

Lemma oldest_first_app l1 l2 x y :
  oldest_first (l1 ++ l2) -> x ∈ l1 -> y ∈ l2 -> byRevision_Less y x = false.
Proof.
  induction l1 as [|z l1 IH]; intros Hs Hx Hy; [by apply elem_of_nil in Hx|].
  inversion Hs as [|?? Hs' Hf]; subst. apply elem_of_cons in Hx as [->|Hx]; [|by apply IH].
  rewrite List.Forall_forall in Hf. apply Hf, List.in_or_app. right. by apply list_elem_of_In.
Qed.

Lemma oldest_first_filter f l : oldest_first l -> oldest_first (List.filter f l).
Proof.
  induction 1 as [|x l Hs IH Hf]; [constructor|]. cbn. destruct (f x); [|done]. constructor; [done|].
  by apply Forall_filter_bool.
Qed.

(** Truncation keeps the history within its limit and only at the cost of the
    past.  With a limit that is not negative it deletes, oldest first, the oldest
    revisions that nothing needs: none of them is current, updating or in use, as
    many of the others stay as the limit allows, and none of those is older.  An
    error is the error of a deletion, and the deletions before it were made. *)
Theorem TruncateControllerRevisions_spec (revisions : list ControllerRevision)
    (current update : option ControllerRevision) (historyLimit : Z) (isRevisionInUse : option (string -> bool))
    (deleteRevision : ControllerRevision -> ST W unit) (w : W) :
  0 <= historyLimit -> oldest_first revisions ->
  let live := is_live current update isRevisionInUse in
  let p := TruncateControllerRevisions revisions current update historyLimit isRevisionInUse (Some deleteRevision) w in
  exists victims kept,
    List.filter (fun r => negb (live r)) revisions = (victims ++ kept)%list /\
    Z.of_nat (length kept) = Z.min (Z.of_nat (length (victims ++ kept))) historyLimit /\
    (forall v k, v ∈ victims -> k ∈ kept -> byRevision_Less k v = false) /\
    match p.1 with
    | Ok _ => for_each deleteRevision victims w = (Ok tt, p.2)
    | Err e => exists done v rest w1, victims = (done ++ v :: rest)%list /\
        for_each deleteRevision done w = (Ok tt, w1) /\ deleteRevision v w1 = (Err e, p.2)
    end.
Proof.
  intros Hlim Hs. cbv zeta. unfold TruncateControllerRevisions. rewrite (proj2 (Z.ltb_ge _ _)) by done.
  set (l := List.filter _ revisions). assert (oldest_first l) as Hl by by apply oldest_first_filter.
  set (n := Z.to_nat (Z.of_nat (length l) - historyLimit)).
  exists (take n l), (drop n l). rewrite take_drop.
  split; [done|]. split; [rewrite length_drop; lia|].
  split. { intros v k. apply oldest_first_app. by rewrite take_drop. }
  destruct (Z.leb_spec (Z.of_nat (length l)) historyLimit).
  - assert (n = 0%nat) as -> by lia. by rewrite take_0.
  - fold n. destruct (for_each deleteRevision (take n l) w) as [r w'] eqn:Hr. cbn [fst snd].
    pose proof (for_each_inv _ _ _ _ _ Hr) as He. destruct r as [[]|e]; [done|].
    destruct He as (l1 & x & l2 & w1 & He). by exists l1, x, l2, w1.
Qed.
End truncation.

(** * The equality cache *)

Section lru.
Context {K : Type} `{EqDecision K}.

Lemma elem_of_forget (k x : K) c : x ∈ forget k c -> x ∈ c.
Proof. unfold forget. rewrite !list_elem_of_In, filter_In. tauto. Qed.

Lemma forget_length (k : K) c : k ∈ c -> (length (forget k c) < length c)%nat.
Proof.
  unfold forget. induction c as [|x c IH]; [by intros ?%elem_of_nil|]. cbn.
  destruct (decide (x = k)) as [->|Hn].
  - rewrite bool_decide_eq_true_2 by done. intros _. cbn. pose proof (filter_length_le (fun k' => negb (bool_decide (k' = k))) c). lia.
  - rewrite bool_decide_eq_false_2 by done. intros [?|Hk]%elem_of_cons; [congruence|]. cbn. specialize (IH Hk). lia.
Qed.

Lemma lru_get_elem (k x : K) c c' : lru_get k c = Some c' -> x ∈ c' -> x ∈ c.
Proof.
  unfold lru_get. case_bool_decide as Hk; [|done]. intros [= <-] [->|Hx]%elem_of_cons; [done|].
  by eapply elem_of_forget.
Qed.

Lemma removelast_elem {A} (x : A) l : x ∈ removelast l -> x ∈ l.
Proof.
  induction l as [|y l IH]; [done|]. cbn [removelast]. destruct l; [by intros ?%elem_of_nil|].
  intros [->|Hx]%elem_of_cons; [by left|right; by apply IH].
Qed.

Lemma lru_add_elem n (k x : K) c : x ∈ lru_add n k c -> x = k \/ x ∈ c.
Proof.
  unfold lru_add. case_bool_decide.
  - intros [->|Hx]%elem_of_cons; [by left|right; by eapply elem_of_forget].
  - destruct (_ && _); [intros Hx%removelast_elem|intros Hx]; by apply elem_of_cons in Hx.
Qed.

Lemma removelast_length {A} (l : list A) : length (removelast l) = (length l - 1)%nat.
Proof.
  induction l as [|x l IH]; [done|]. cbn [removelast]. destruct l; [done|].
  change (S (length (removelast (a :: l))) = (S (length (a :: l)) - 1)%nat). rewrite IH. cbn. lia.
Qed.

Lemma lru_bounded n (k : K) c : n <> 0%nat -> (length c <= n)%nat ->
  (length (lru_add n k c) <= n)%nat /\ (forall c', lru_get k c = Some c' -> (length c' <= n)%nat).
Proof.
  intros Hn Hc. unfold lru_add, lru_get. case_bool_decide as Hk.
  - pose proof (forget_length k c Hk). split; [cbn; lia|intros c' [= <-]; cbn; lia].
  - split; [|done]. destruct (Nat.eqb_spec n 0); [done|]. cbn [negb andb].
    destruct (Nat.ltb_spec n (length (k :: c))); [|lia].
    rewrite removelast_length. cbn. lia.
Qed.
End lru.

Section matching.
Context {W : Type} `{RevisionCache W, RevisionCodec}.

(** A comparison: the set, the proposed revision and the existing one. *)
Definition comparison : Type := RoleInstanceSet * ControllerRevision * ControllerRevision.

Definition answer (c : comparison) : bool := semantic_match c.1.1 c.1.2 c.2.

Fixpoint compare_all (cs : list comparison) : ST W (list bool) :=
  match cs with
  | [] => mret []
  | c :: cs' =>
      b ← SetMatchesRevision c.1.1 c.1.2 c.2;
      bs ← compare_all cs';
      mret (b :: bs)
  end.

(** A generation of a set stands for one template, encoded in one way and patched
    in one way; a version of a revision for one content. *)
Definition versioned (cs : list comparison) : Prop :=
  forall c c', c ∈ cs -> c' ∈ cs -> cache_key c.1.1 c.2 = cache_key c'.1.1 c'.2 ->
    cr_Data c.1.2 = cr_Data c'.1.2 /\ cr_Data c.2 = cr_Data c'.2 /\
    forall patch, (apply_patch c.1.1 patch ≫= getPatch) = (apply_patch c'.1.1 patch ≫= getPatch).

Lemma versioned_answer cs c c' :
  versioned cs -> c ∈ cs -> c' ∈ cs -> cache_key c.1.1 c.2 = cache_key c'.1.1 c'.2 -> answer c = answer c'.
Proof.
  intros Hv Hc Hc' Hk. destruct (Hv c c' Hc Hc' Hk) as (H1 & H2 & H3).
  unfold answer, semantic_match, ApplyRevision. by rewrite H1, H2, H3.
Qed.

(** The cached keys stand for comparisons that matched. *)
Definition sound (cs : list comparison) (w : W) : Prop :=
  (length (cache_get w) <= MaxRevisionEqualityCacheEntries)%nat /\
  forall k, k ∈ cache_get w -> forall c, c ∈ cs -> cache_key c.1.1 c.2 = k -> answer c = true.

Lemma SetMatches_sound cs c w :
  versioned cs -> c ∈ cs -> sound cs w ->
  exists w', SetMatchesRevision c.1.1 c.1.2 c.2 w = (Ok (answer c), w') /\ sound cs w'.
Proof.
  intros Hv Hc [Hlen Hs]. unfold SetMatchesRevision, mbind, ST_bind, gets.
  pose proof (lru_bounded MaxRevisionEqualityCacheEntries (cache_key c.1.1 c.2) (cache_get w) ltac:(done) Hlen) as [Ha Hg].
  destruct (lru_get _ _) as [c'|] eqn:E.
  - assert (answer c = true) as ->.
    { apply (Hs (cache_key c.1.1 c.2)); [|done..]. unfold lru_get in E. by case_bool_decide. }
    eexists. split; [done|]. split; [rewrite cache_get_put; by apply Hg|].
    intros k. rewrite cache_get_put. intros Hk%(lru_get_elem _ _ _ _ E). by apply Hs.
  - fold (answer c). destruct (answer c) eqn:Eb; [|by eexists].
    eexists. split; [done|]. split; [by rewrite cache_get_put|].
    intros k. rewrite cache_get_put. intros [->|Hk]%lru_add_elem; [|by apply Hs].
    intros d Hd Hkey. by rewrite (versioned_answer cs d c).
Qed.

(** The cache changes no answer.  As long as a generation of a set and a version
    of a revision always stand for the same content, any sequence of comparisons
    from a cache that is sound answers exactly as without the cache, and the cache
    never holds more than its size. *)
Theorem SetMatchesRevision_transparent (cs : list comparison) (w : W) :
  versioned cs -> sound cs w ->
  exists w', compare_all cs w = (Ok (map answer cs), w') /\
    (length (cache_get w') <= MaxRevisionEqualityCacheEntries)%nat.
Proof.
  intros Hv Hs. enough (forall l, (forall c, c ∈ l -> c ∈ cs) -> forall w, sound cs w ->
    exists w', compare_all l w = (Ok (map answer l), w') /\ sound cs w') as Hl.
  { destruct (Hl cs ltac:(done) w Hs) as (w' & ? & Hs'). exists w'. by split; [|apply Hs']. }
  induction l as [|c l IH]; intros Hl w1 Hw1; [by eexists|]. cbn [compare_all map].
  destruct (SetMatches_sound cs c w1 Hv ltac:(apply Hl; by left) Hw1) as (w2 & H2 & Hw2).
  destruct (IH ltac:(intros d Hd; apply Hl; by right) w2 Hw2) as (w3 & H3 & Hw3).
  exists w3. unfold mbind, ST_bind. by rewrite H2, H3.
Qed.
End matching.

(** * The update revision *)

(** The answers of the API server: an object is stored as it was sent and read
    under the name asked for, and the data of a revision never changes.  [data_of]
    is the data of the revision of a name. *)
Class RevisionServer (W : Type) `{RevisionClient W} (data_of : string -> string) := {
  server_create : forall r w r' w', rev_create r w = (Ok r', w') ->
    cr_Name r' = cr_Name r /\ cr_Revision r' = cr_Revision r /\ cr_Data r' = cr_Data r;
  server_update : forall r w r' w', rev_update r w = (Ok r', w') ->
    cr_Name r' = cr_Name r /\ cr_Revision r' = cr_Revision r /\ cr_Data r' = cr_Data r;
  server_get : forall ns n w r' w', rev_get ns n w = (Ok r', w') -> cr_Name r' = n /\ cr_Data r' = data_of n
}.

Section settle.
Context {W : Type} `{RevisionClient W, RevisionCache W, RevisionCodec} (data_of : string -> string)
  `{!RevisionServer W data_of}.

(** A property of the shared variable that every attempt keeps. *)
Lemma retry_with_inv {S A} (fn : S -> ST W (result A * S)) (P : S -> Prop) (Q : A -> Prop) :
  (forall s w x s' w', P s -> fn s w = (Ok (x, s'), w') ->
     P s' /\ match x with Ok a => Q a | Err _ => True end) ->
  forall n s w r w', P s -> retry_with n fn s w = (r, w') -> match r with Ok a => Q a | Err _ => True end.
Proof.
  intros Hf. induction n as [|n IH]; intros s w r w' Hs; cbn [retry_with];
    intros [(e & He & ->)|([x s'] & w1 & E1 & E2)]%bind_inv; try done;
    destruct (Hf _ _ _ _ _ Hs E1) as [Hs' Hx]; destruct x as [a|e]; try (by injection E2 as <- <-).
  destruct (IsConflict e); [by eapply IH|by injection E2 as <- <-].
Qed.

(** Whatever the server answered, the revision handed back has the number asked
    for and the name and the data it had. *)
Lemma UpdateControllerRevision_ok revision n w r w' :
  cr_Data revision = data_of (cr_Name revision) -> UpdateControllerRevision revision n w = (Ok r, w') ->
  cr_Revision r = n /\ cr_Name r = cr_Name revision /\ cr_Data r = cr_Data revision.
Proof.
  intros Hd Hr. unfold UpdateControllerRevision in Hr.
  refine (retry_with_inv _ (fun s => cr_Name s = cr_Name revision /\ cr_Data s = cr_Data revision)
    (fun r => cr_Revision r = n /\ cr_Name r = cr_Name revision /\ cr_Data r = cr_Data revision) _ _ _ _ _ _ _ Hr); [|done].
  clear Hr r w w'. intros s w x s' w' [Hn Hsd]. unfold revision_attempt.
  destruct (Z.eqb_spec (cr_Revision s) n) as [<-|_]; [by intros [= <- <- <-]|].
  intros (y & w1 & Hu & E2)%attempt_inv. destruct y as [stored|e].
  - injection E2 as <- <- <-. destruct (server_update _ _ _ _ Hu) as (E3 & E4 & E5). 
    change (cr_Name (with_revision n s)) with (cr_Name s) in E3. cbn in E4, E5.
    rewrite E3, E5. done.
  - apply bind_inv in E2 as [(e' & _ & [=])|(got & w2 & Hb & E3)]. injection E3 as <- <- <-. split; [|done].
    unfold read_back in Hb. apply attempt_inv in Hb as (g & w3 & Hg & Hb). injection Hb as <- <-.
    destruct g as [g|]; [|done]. destruct (server_get _ _ _ _ _ Hg) as [-> ->]. by rewrite Hd.
Qed.

Lemma create_loop_ok fuel parent revision c w r c' w' :
  create_loop fuel parent revision c w = (Ok (r, c'), w') ->
  cr_Data r = cr_Data revision /\ cr_Name r = attempt_name parent revision c' /\
  (cr_Revision r = cr_Revision revision \/ cr_Data revision = data_of (cr_Name r)).
Proof.
  revert c w. induction fuel as [|fuel IH]; intros c w; cbn [create_loop]; [done|].
  intros (x & w1 & Hc & E2)%attempt_inv. destruct x as [stored|e].
  - injection E2 as <- <- <-. destruct (server_create _ _ _ _ Hc) as (E3 & E4 & E5). cbn in *. auto.
  - destruct (IsAlreadyExists e); [|done].
    apply bind_inv in E2 as [(e' & _ & [=])|(got & w2 & Hg & E3)].
    case_bool_decide as Heq; [|by apply IH in E3]. injection E3 as <- <- <-.
    destruct (server_get _ _ _ _ _ Hg) as [-> Hd]. rewrite <-Hd, Heq. auto.
Qed.

(** Whether the newest revision matches the set, looked up or computed. *)
Definition matches_newest (set : RoleInstanceSet) (proposed newest : ControllerRevision) (w : W) : Prop :=
  semantic_match set proposed newest = true \/ cache_key set newest ∈ cache_get w.

Lemma SetMatchesRevision_inv set proposed newest w b w' :
  SetMatchesRevision set proposed newest w = (Ok b, w') -> b = true -> matches_newest set proposed newest w.
Proof.
  unfold SetMatchesRevision, mbind, ST_bind, gets. destruct (lru_get _ _) as [c|] eqn:E.
  - intros _ _. right. unfold lru_get in E. by case_bool_decide.
  - intros Hr ->. left. by destruct (semantic_match _ _ _).
Qed.

Lemma last_elem {A} (l : list A) x : last l = Some x -> x ∈ l.
Proof. intros Hl. apply last_Some in Hl as [l' ->]. apply elem_of_app. right. by apply list_elem_of_singleton. Qed.

Lemma FindEqual_elem l needle r : r ∈ FindEqualRevisions l needle <-> r ∈ l /\ cr_Data r = cr_Data needle.
Proof.
  unfold FindEqualRevisions, EqualRevision. by rewrite !list_elem_of_In, filter_In, bool_decide_eq_true.
Qed.

(** Where the update revision comes from. *)
Lemma settle_ok fuel set revisions proposed c w upd c' w' :
  oldest_first revisions ->
  (forall r, r ∈ revisions -> cr_Data r = data_of (cr_Name r) /\ cr_Revision r < cr_Revision proposed) ->
  settle fuel set revisions proposed c w = (Ok (upd, c'), w') ->
  (cr_Data upd = cr_Data proposed \/ last revisions = Some upd /\ matches_newest set proposed upd w) /\
  ((forall r, r ∈ revisions -> cr_Revision r <= cr_Revision upd) \/
   (cr_Data upd = data_of (cr_Name upd) /\ forall r, r ∈ revisions -> cr_Data r <> cr_Data upd)).
Proof.
  intros Hs Hd. unfold settle. destruct (last (FindEqualRevisions _ _)) as [equal|] eqn:El.
  - apply last_elem, FindEqual_elem in El as [Hin Heq].
    destruct (last revisions) as [newest|] eqn:En; [|by apply last_None in En; subst; apply elem_of_nil in Hin].
    change (default equal (Some newest)) with newest. unfold EqualRevision. case_bool_decide as Hne.
    + intros [= <- <- <-]. split; [left; congruence|left]. intros r Hr. by eapply sorted_last_max.
    + intros [(e & _ & [=])|(r & w1 & Hu & E2)]%bind_inv. injection E2 as <- <- <-.
      apply UpdateControllerRevision_ok in Hu as (E3 & E4 & E5); [|by apply Hd].
      split; [left; congruence|left]. intros x Hx. rewrite E3. apply Z.lt_le_incl, Hd, Hx.
  - assert (forall r, r ∈ revisions -> cr_Data r <> cr_Data proposed) as Hno.
    { intros r Hr Heq. apply last_None in El. assert (r ∈ FindEqualRevisions revisions proposed) as Hf by by apply FindEqual_elem.
      rewrite El in Hf. by apply elem_of_nil in Hf. }
    assert (forall w, CreateControllerRevision fuel (rs_meta set) proposed (Some c) w = (Ok (upd, c'), w') ->
      cr_Data upd = cr_Data proposed /\
      ((forall r, r ∈ revisions -> cr_Revision r <= cr_Revision upd) \/
       (cr_Data upd = data_of (cr_Name upd) /\ forall r, r ∈ revisions -> cr_Data r <> cr_Data upd))) as Hcreate.
    { intros w1 Hc. apply create_loop_ok in Hc as (E1 & _ & [E3|E3]); (split; [done|]).
      - left. intros r Hr. rewrite E3. apply Z.lt_le_incl, Hd, Hr.
      - right. rewrite E1. split; [done|]. apply Hno. }
    destruct (last revisions) as [newest|] eqn:En; [|intros [? ?]%Hcreate; auto].
    intros [(e & _ & [=])|([] & w1 & Hm & E2)]%bind_inv.
    + injection E2 as <- <- <-. split; [right; split; [done|by eapply SetMatchesRevision_inv]|left].
      intros r Hr. by eapply sorted_last_max.
    + apply Hcreate in E2 as [E2 E3]. auto.
Qed.

Lemma lift_ok {A B} (x : result A) (f : A -> ST W B) w b w' :
  (lift x ≫= f) w = (Ok b, w') -> exists a, x = Ok a /\ f a w = (Ok b, w').
Proof. intros [(e & -> & [=] & _)|(a & -> & Hf)]%lift_inv. eauto. Qed.

Lemma NextRevision_newest revisions r :
  oldest_first revisions -> (forall r, r ∈ revisions -> 0 <= cr_Revision r < int64_max) ->
  r ∈ revisions -> cr_Revision r < NextRevision revisions.
Proof.
  intros Hs Hr Hin. unfold NextRevision. destruct (last revisions) as [newest|] eqn:El.
  - pose proof (sorted_last_max _ _ _ Hs El Hin). pose proof (Hr newest (last_elem _ _ El)).
    rewrite int64_id; [lia|]. unfold_int. lia.
  - apply last_None in El. subst. by apply elem_of_nil in Hin.
Qed.

(** C31: Which revision a set is brought to.  When the choice succeeds, the update
    revision has the data of the set as it is now, or is the newest of the history
    and matches it; it is newer than every listed revision, or one the listing did
    not show, stored under the name its data give it; and the current revision is
    the listed one the status names, or the update revision when there is none. *)
Theorem getActiveRevisions_update (fuel : nat) (set : RoleInstanceSet) (revisions : list ControllerRevision)
    (cur upd : ControllerRevision) (c : Z) (w w' : W) :
  oldest_first revisions ->
  (forall r, r ∈ revisions -> cr_Data r = data_of (cr_Name r) /\ 0 <= cr_Revision r < int64_max) ->
  getActiveRevisions fuel set revisions w = (Ok (cur, upd, c), w') ->
  exists proposed, NewRevision set (NextRevision revisions) (default 0 (st_CollisionCount (rs_status set))) = Ok proposed /\
    getPatch set = Ok (cr_Data proposed) /\
    (cr_Data upd = cr_Data proposed \/ last revisions = Some upd /\ matches_newest set proposed upd w) /\
    ((forall r, r ∈ revisions -> cr_Revision r <= cr_Revision upd) \/
     (cr_Data upd = data_of (cr_Name upd) /\ forall r, r ∈ revisions -> cr_Data r <> cr_Data upd)) /\
    (cur ∈ revisions /\ cr_Name cur = st_CurrentRevision (rs_status set) \/
     (forall r, r ∈ revisions -> cr_Name r <> st_CurrentRevision (rs_status set)) /\ cur = upd).
Proof.
  intros Hs Hd. unfold getActiveRevisions. intros (proposed & Hp & Ha)%lift_ok.
  apply bind_inv in Ha as [(e & _ & [=])|([u cc] & w1 & Ha & E2)]. injection E2 as <- <- <- <-.
  exists proposed. split; [done|].
  assert (getPatch set = Ok (cr_Data proposed) /\ cr_Revision proposed = NextRevision revisions) as [Hpatch Hn].
  { revert Hp. unfold NewRevision. destruct (getPatch set); [|done]. by intros [= <-]. }
  split; [done|]. apply settle_ok in Ha as [E3 E4]; [|done|].
  2:{ intros r Hr. split; [by apply Hd|]. rewrite Hn. apply NextRevision_newest; [done| |done]. intros x Hx. by apply Hd. }
  split; [done|]. split; [done|]. unfold current_of, find_name. destruct (List.find _ revisions) as [r|] eqn:Ef; [left|right].
  - apply find_some in Ef as [Hin Hb]. breflect. by apply list_elem_of_In in Hin.
  - split; [|done]. intros r Hr. eapply find_none in Ef; [|by apply list_elem_of_In]. by breflect.
Qed.
End settle.

(** With the data in the newest revision, nothing is asked of the server. *)
Lemma settle_stable `{RevisionClient W, RevisionCache W, RevisionCodec} fuel set l proposed newest c (w : W) :
  last l = Some newest -> cr_Data proposed = cr_Data newest -> settle fuel set l proposed c w = (Ok (newest, c), w).
Proof.
  intros Hl Hdata.
  assert (newest ∈ FindEqualRevisions l proposed) as Hin by (apply FindEqual_elem; by split; [apply last_elem|]).
  unfold settle, mbind, ST_bind. destruct (last (FindEqualRevisions l proposed)) as [equal|] eqn:El.
  - apply last_elem, FindEqual_elem in El as [_ Heq]. rewrite Hl. change (default equal (Some newest)) with newest.
    unfold EqualRevision. rewrite bool_decide_eq_true_2; [done|]. by rewrite Heq.
  - apply last_None in El. rewrite El in Hin. by apply elem_of_nil in Hin.
Qed.

Lemma getActiveRevisions_newest `{RevisionClient W, RevisionCache W, RevisionCodec} fuel set l newest (w : W) :
  last l = Some newest -> getPatch set = Ok (cr_Data newest) ->
  getActiveRevisions fuel set l w
  = (Ok (current_of set l newest, newest, default 0 (st_CollisionCount (rs_status set))), w).
Proof.
  intros Hl Hp. unfold getActiveRevisions.
  assert (exists proposed, NewRevision set (NextRevision l) (default 0 (st_CollisionCount (rs_status set))) = Ok proposed
    /\ cr_Data proposed = cr_Data newest) as (proposed & -> & Hdata).
  { unfold NewRevision. rewrite Hp. by eexists. }
  unfold mbind, ST_bind, lift. by rewrite (settle_stable _ _ _ _ newest).
Qed.

(** A set whose template is recorded in the newest revision makes no revision:
    nothing is asked of the server and the newest revision is the update revision,
    whatever order the listing came in. *)
Theorem getInstanceSetRevisions_stable `{RevisionClient W, RevisionCache W, RevisionCodec}
    (fuel : nat) (set : RoleInstanceSet) (revisions : list ControllerRevision) (newest : ControllerRevision) (w : W) :
  last (SortControllerRevisions revisions) = Some newest -> getPatch set = Ok (cr_Data newest) ->
  getInstanceSetRevisions fuel set revisions w
  = (Ok (current_of set (SortControllerRevisions revisions) newest, newest,
         default 0 (st_CollisionCount (rs_status set))), w).
Proof.
  intros Hl Hp. unfold getInstanceSetRevisions. set (l := SortControllerRevisions revisions) in *.
  assert (exists proposed, newRevision set (nextRevision l) (default 0 (st_CollisionCount (rs_status set))) = Ok proposed
    /\ cr_Data proposed = cr_Data newest) as (proposed & -> & Hdata).
  { unfold newRevision. rewrite Hp. by eexists. }
  unfold mbind, ST_bind, lift. by rewrite (settle_stable _ _ _ _ newest).
Qed.

(** A revision that has a controller, the parent or another, is never released:
    nothing is asked of the server and the answer is an error. *)
Lemma ReleaseControllerRevision_owned `{RevisionClient W} parent revision w :
  is_Some (GetControllerOf (cr_meta revision)) -> ReleaseControllerRevision parent revision w = (Err owned_error, w).
Proof.
  intros [ref Hr]. unfold ReleaseControllerRevision, attempt, DefaultBackoff, retry_with, mbind, ST_bind, owners_attempt.
  by rewrite Hr.
Qed.

(** An update that meets a conflict and then cannot read the revision back is
    reported as made: the next attempt compares the number with the one just
    written to the copy in hand. *)
Lemma UpdateControllerRevision_lost `{RevisionClient W} revision n w w1 e w2 :
  cr_Revision revision <> n ->
  rev_update (with_revision n revision) w = (Err ConflictError, w1) ->
  rev_get (om_Namespace (cr_meta revision)) (cr_Name revision) w1 = (Err e, w2) ->
  UpdateControllerRevision revision n w = (Ok (with_revision n revision), w2).
Proof.
  intros Hn Hu Hg. apply Z.eqb_neq in Hn.
  unfold UpdateControllerRevision, DefaultBackoff, retry_with, mbind, ST_bind, revision_attempt at 1.
  rewrite Hn. unfold attempt. rewrite Hu. unfold read_back, mbind, ST_bind, attempt. rewrite Hg. cbn.
  unfold revision_attempt. cbn. by rewrite Z.eqb_refl.
Qed.

(** * Calls that do not count *)

Section calls.
Context `{RevisionClient W, RevisionCache W, RevisionCodec} {C : Type} (trace : W -> list C) (I : W -> Prop) (P : C -> bool).
Abbreviation quiet := (Effects.silent trace I P).
Hypothesis Hlist : forall ns s, quiet (rev_list ns s).
Hypothesis Hcreate : forall r, quiet (rev_create r).
Hypothesis Hget : forall ns n, quiet (rev_get ns n).
Hypothesis Hupdate : forall r, quiet (rev_update r).
Hypothesis Hdelete : forall r, quiet (rev_delete r).
Hypothesis Hcache : forall c, quiet (modify (cache_put c)).

Lemma silent_ListRevisions parent selector : quiet (ListControllerRevisions parent selector).
Proof. unfold ListControllerRevisions. silence. Qed.

Lemma silent_create_loop fuel parent r c : quiet (create_loop fuel parent r c).
Proof.
  revert c. induction fuel as [|fuel IH]; intros c; cbn [create_loop]; [silence|].
  apply silent_attempt; [done|]. intros [stored|e]; [silence|]. destruct (IsAlreadyExists e); [|silence].
  apply silent_bind; [done|]. intros got. case_bool_decide; [silence|apply IH].
Qed.

Lemma silent_read_back ns n r : quiet (read_back ns n r).
Proof. unfold read_back. apply silent_attempt; [done|]. intros []; silence. Qed.

Lemma silent_UpdateRevision r n : quiet (UpdateControllerRevision r n).
Proof.
  apply silent_retry_with. intros s. unfold revision_attempt. destruct (_ =? _); [silence|].
  apply silent_attempt; [done|]. intros []; [silence|]. apply silent_bind; [apply silent_read_back|]. silence.
Qed.

Lemma silent_owners ns n f r : quiet (owners_attempt ns n f r).
Proof.
  unfold owners_attempt. destruct (GetControllerOf _); [silence|].
  apply silent_attempt; [done|]. intros []; [silence|]. apply silent_bind; [apply silent_read_back|]. silence.
Qed.

Lemma silent_AdoptRevision v k parent r : quiet (AdoptControllerRevision v k parent r).
Proof. apply silent_retry_with. intros s. apply silent_owners. Qed.

Lemma silent_SetMatches set r1 r2 : quiet (SetMatchesRevision set r1 r2).
Proof.
  unfold SetMatchesRevision. apply silent_bind; [silence|]. intros c. destruct (lru_get _ _).
  - apply silent_bind; [done|]. silence.
  - destruct (semantic_match _ _ _); [|silence]. apply silent_bind; [done|]. silence.
Qed.

Lemma silent_settle fuel set revisions r c : quiet (settle fuel set revisions r c).
Proof.
  unfold settle. destruct (last (FindEqualRevisions _ _)).
  - destruct (EqualRevision _ _); [silence|]. apply silent_bind; [apply silent_UpdateRevision|]. silence.
  - destruct (last revisions); [|apply silent_create_loop].
    apply silent_bind; [apply silent_SetMatches|]. intros []; [silence|apply silent_create_loop].
Qed.

Lemma silent_getInstanceSetRevisions fuel set revisions : quiet (getInstanceSetRevisions fuel set revisions).
Proof.
  unfold getInstanceSetRevisions. apply silent_bind; [silence|]. intros p. apply silent_bind; [apply silent_settle|].
  intros [u c]. silence.
Qed.

Lemma silent_Truncate revisions cur upd n live : quiet (TruncateControllerRevisions revisions cur upd n live (Some DeleteControllerRevision)).
Proof.
  unfold TruncateControllerRevisions. destruct (_ <? 0); [silence|]. destruct (_ <=? _); [silence|].
  induction (take _ _) as [|r l IH]; cbn [for_each]; [silence|]. apply silent_bind; [apply Hdelete|]. by intros _.
Qed.
End calls.

(** * A concrete server *)
Module Echo.

(** Writes succeed except for a taken name; the revision read under a name has
    the data kept under it.  The world is the cache and the requests made. *)
Record world := { w_cache : list revisionEqualityCacheKey; w_writes : list string }.

Definition data_of (name : string) : string :=
  default "new"%string (({["decode-old" := "old"; "decode-other" := "other"; "decode-dfdf4d459" := "stale"]}
    : gmap string string) !! name).

Definition write (r : ControllerRevision) (ok : bool) (e : error) : ST world ControllerRevision := fun w =>
  (if ok then Ok r else Err e, {| w_cache := w_cache w; w_writes := cr_Name r :: w_writes w |}).

Definition revision (name data : string) (n : Z) : ControllerRevision :=
  {| cr_meta := with_name name "default" empty_meta; cr_Revision := n; cr_Data := data |}.

#[export] Instance client : RevisionClient world := {|
  rev_list := fun _ _ => mret [];
  rev_create := fun r => write r (negb (bool_decide (cr_Name r = "decode-dfdf4d459"))) AlreadyExistsError;
  rev_get := fun ns n => mret (revision n (data_of n) 7);
  rev_update := fun r => write r true "";
  rev_delete := fun r => write r (negb (bool_decide (cr_Name r = "locked"))) "Forbidden" ≫= fun _ => mret tt |}.

#[export] Program Instance cache : RevisionCache world := {|
  cache_get := w_cache;
  cache_put := fun c w => {| w_cache := c; w_writes := w_writes w |} |}.
Next Obligation. done. Qed.

(** Every template is encoded as one text, and another text of an earlier
    encoding stands for the same template. *)
#[export] Instance codec : RevisionCodec := {|
  getPatch := fun set => Ok "new"%string;
  apply_patch := fun set patch =>
    if bool_decide (patch = "new"%string) || bool_decide (patch = "earlier"%string) then Ok set else Err "other"%string |}.

#[export] Instance server : RevisionServer world data_of.
Proof.
  split; cbn; unfold write; [intros r w r' w'..|].
  - case_bool_decide; cbn; [done|]. by intros [= <- <-].
  - by intros [= <- <-].
  - by intros ns n w r' w' [= <- <-].
Qed.

Definition start : world := {| w_cache := []; w_writes := [] |}.

Definition set : RoleInstanceSet := Fixture.rolling.
Definition old_revision : ControllerRevision := revision "decode-old" "old" 1.
Definition new_revision : ControllerRevision := revision "decode-new" "new" 2.
Definition other_revision : ControllerRevision := revision "decode-other" "other" 3.
Definition earlier_revision : ControllerRevision := revision "decode-earlier" "earlier" 4.

(** No revision has the data: one is created, under the second name tried, since
    the first is taken by other data. *)
Example creates : fmap (M := result) (fun p => (cr_Name p.1.2, cr_Revision p.1.2, p.2))
    (getActiveRevisions 5 set [old_revision] start).1 = Ok ("decode-dfdf4d458"%string, 2, 1).
Proof. by vm_compute. Qed.

(** An older revision has it: its number is raised. *)
Example rolls_back : fmap (M := result) (fun p => (cr_Name p.1.2, cr_Revision p.1.2, p.2))
    (getActiveRevisions 5 set [old_revision; new_revision; other_revision] start).1 = Ok ("decode-new"%string, 4, 0).
Proof. by vm_compute. Qed.
End Echo.

(** FNV-1 of "a", as the tests of hash/fnv have it. *)
Example fnv32_a : fnv32 "a" = 84696446.
Proof. by vm_compute. Qed.

Import Echo.

Lemma TruncateControllerRevisions_spec_witness :
  let p := TruncateControllerRevisions [old_revision; new_revision; other_revision] None (Some other_revision) 1 None
             (Some DeleteControllerRevision) start in
  p.1 = Ok tt /\ w_writes p.2 = ["decode-old"%string] /\
  exists victims kept, [old_revision; new_revision] = (victims ++ kept)%list /\ length kept = 1%nat.
Proof.
  intros p. split; [by vm_compute|]. split; [by vm_compute|].
  destruct (TruncateControllerRevisions_spec [old_revision; new_revision; other_revision] None (Some other_revision) 1
    None DeleteControllerRevision start) as (victims & kept & Hf & Hk & _); [lia| |].
  - apply (SortControllerRevisions_sorted [old_revision; new_revision; other_revision]).
  - exists victims, kept. split; [rewrite <-Hf; by vm_compute|]. rewrite <-Hf in Hk.
    match type of Hk with _ = ?m => assert (m = 1) as Hm by by vm_compute end. lia.
Defined.

Lemma SetMatchesRevision_transparent_witness :
  exists w', compare_all [(set, new_revision, earlier_revision); (set, new_revision, earlier_revision)] start
             = (Ok [true; true], w') /\ w_cache w' = [cache_key set earlier_revision].
Proof.
  destruct (SetMatchesRevision_transparent [(set, new_revision, earlier_revision); (set, new_revision, earlier_revision)] start)
    as (w' & Hw & _).
  - intros c c' Hc Hc' _. rewrite !elem_of_cons in Hc, Hc'. by destruct Hc as [->|[->|?%elem_of_nil]],
      Hc' as [->|[->|?%elem_of_nil]].
  - split; [cbn; lia|]. by intros k ?%elem_of_nil.
  - exists w'. split; [exact Hw|]. revert Hw.
    assert (w_cache (compare_all [(set, new_revision, earlier_revision); (set, new_revision, earlier_revision)] start).2
            = [cache_key set earlier_revision]) as Hc by by vm_compute.
    intros Hw. rewrite Hw in Hc. exact Hc.
Defined.

Lemma getActiveRevisions_update_witness :
  exists cur upd c w', getActiveRevisions 5 set [old_revision; new_revision; other_revision] start = (Ok (cur, upd, c), w') /\
    forall r, r ∈ [old_revision; new_revision; other_revision] -> cr_Revision r <= cr_Revision upd.
Proof.
  destruct (getActiveRevisions 5 set [old_revision; new_revision; other_revision] start) as [[[[cur upd] c]|e] w'] eqn:E.
  - exists cur, upd, c, w'. split; [reflexivity|].
    destruct (getActiveRevisions_update data_of 5 set [old_revision; new_revision; other_revision] cur upd c start w')
      as (proposed & _ & _ & _ & [Hn|[_ Hn]] & _); [| |exact E|exact Hn|].
    + apply (SortControllerRevisions_sorted [old_revision; new_revision; other_revision]).
    + assert (forallb (fun r => bool_decide (cr_Data r = data_of (cr_Name r) /\ 0 <= cr_Revision r < int64_max))
        [old_revision; new_revision; other_revision] = true) as Hf by by vm_compute.
      intros r Hr. rewrite forallb_forall in Hf. by apply list_elem_of_In, Hf, bool_decide_eq_true in Hr.
    + exfalso. apply (Hn new_revision); [by vm_compute; set_solver|].
      assert (fmap (M := result) (fun p => cr_Data p.1.2)
        (getActiveRevisions 5 set [old_revision; new_revision; other_revision] start).1 = Ok "new"%string) as Hd by by vm_compute.
      rewrite E in Hd. injection Hd as Hd. cbn in Hd. rewrite Hd. reflexivity.
  - exfalso. vm_compute in E. discriminate E.
Defined.

Lemma getInstanceSetRevisions_stable_witness :
  getInstanceSetRevisions 0 set [new_revision; old_revision] start = (Ok (new_revision, new_revision, 0), start).
Proof.
  rewrite (getInstanceSetRevisions_stable 0 set [new_revision; old_revision] new_revision start); [|done..].
  by vm_compute.
Defined.
