(* ===== verification/StatefulControl.v ===== *)
(** Stateful mode, the reconcile
    (pkg/reconciler/roleinstanceset/statefulmode/stateful_instance_set_control.go,
    stateful_instance_set_helper.go and stateful_instance_control.go).

    A reconcile runs in a state-and-error monad over [world]: the API calls made
    so far (newest first), the clock, the requeue durations, the update
    expectations, the health snapshots, the status being built and the replica
    slots.  [Env] answers every API call as a function of the calls made before
    it, so any behaviour of the API server, failures included, is covered. *)
From Stdlib Require Import ZArith Lia Bool Ascii String.
From stdpp Require Import base tactics list strings gmap sets fin_maps.
From S2P Require Import Prelude GoStrings IntOrString Types Expectations Effects Revisions StatefulUtils.

(** * The outside world *)

Inductive api_call :=
| CallCreate (i : RoleInstance)
| CallDelete (i : RoleInstance)
| CallRefresh (i : RoleInstance)
| CallUpdate (i : RoleInstance) (inplace : result bool)
| CallPersist (s : RolloutReplacementState)
| CallUpdateSetStatus (s : RoleInstanceSet)
| CallGetSet (namespace name : string)
| CallGet (namespace name : string)
| CallPatchOwners (name : string) (refs : list OwnerReference)
(* reads of the informer cache *)
| CallCachedSet (namespace name : string)
| CallCachedInstances (namespace : string)
| CallListRevisions (namespace : string) (selector : option labels)
| CallGetRevision (namespace name : string)
| CallCreateRevision (r : ControllerRevision)
| CallUpdateRevision (r : ControllerRevision)
| CallDeleteRevision (r : ControllerRevision).

(** [client.Create] fills in the object on success. *)
Inductive create_result := Created (i : RoleInstance) | AlreadyExists | CreateError (e : error).

Class Env := {
  env_now : nat -> Z;
  env_create : list api_call -> RoleInstance -> create_result;
  env_delete : list api_call -> RoleInstance -> result unit;
  (* inplaceControl.Refresh: the DelayDuration *)
  env_refresh : list api_call -> RoleInstance -> result Z;
  env_CanUpdateInPlace : ControllerRevision -> ControllerRevision -> option Z -> bool;
  (* inplaceControl.Update: InPlaceUpdate *)
  env_update : list api_call -> RoleInstance -> ControllerRevision -> ControllerRevision -> option Z -> result bool;
  (* the set as the server answers the status patch *)
  env_persist : list api_call -> RoleInstanceSet -> RolloutReplacementState -> result RoleInstanceSet;
  env_ApplyRevision : RoleInstanceSet -> ControllerRevision -> result RoleInstanceSet;
  (* the selector's string, or the error of an invalid one *)
  env_selector : option labels -> result string;
  (* the object as the server answers *)
  env_update_set_status : list api_call -> RoleInstanceSet -> result RoleInstanceSet;
  env_get_set : list api_call -> string -> string -> result RoleInstanceSet;
  env_get : list api_call -> string -> string -> result RoleInstance;
  (* a strategic merge patch of the owner references *)
  env_patch_owners : list api_call -> string -> list OwnerReference -> result unit;
  env_cached_set : list api_call -> string -> string -> result RoleInstanceSet;
  env_cached_instances : list api_call -> string -> result (list RoleInstance);
  env_list_revisions : list api_call -> string -> option labels -> result (list ControllerRevision);
  env_get_revision : list api_call -> string -> string -> result ControllerRevision;
  env_create_revision : list api_call -> ControllerRevision -> result ControllerRevision;
  env_update_revision : list api_call -> ControllerRevision -> result ControllerRevision;
  env_delete_revision : list api_call -> ControllerRevision -> result unit
}.

Record instanceHealthState := {
  hs_setUID : string;
  hs_since : gmap string Z
}.

Record world := {
  w_trace : list api_call;
  w_clock : nat;
  w_durations : gmap string Requeue.Duration;
  w_updates : gmap string Update.controller;
  w_health : gmap string instanceHealthState;
  w_status : RoleInstanceSetStatus;
  w_replicas : list (option RoleInstance);
  (* the copy of the set a reconcile works on: writing its status updates it *)
  w_set : RoleInstanceSet;
  w_rollouts : gmap string ResourceVersion.versions;
  w_cache : list revisionEqualityCacheKey;
  w_lastHealthPrune : gotime
}.

Definition with_trace (t : list api_call) (w : world) : world := {|
  w_trace := t; w_clock := w_clock w; w_durations := w_durations w; w_updates := w_updates w;
  w_health := w_health w; w_status := w_status w; w_replicas := w_replicas w; w_set := w_set w;
  w_rollouts := w_rollouts w; w_cache := w_cache w;
  w_lastHealthPrune := w_lastHealthPrune w |}.
Definition with_clock (c : nat) (w : world) : world := {|
  w_trace := w_trace w; w_clock := c; w_durations := w_durations w; w_updates := w_updates w;
  w_health := w_health w; w_status := w_status w; w_replicas := w_replicas w; w_set := w_set w;
  w_rollouts := w_rollouts w; w_cache := w_cache w;
  w_lastHealthPrune := w_lastHealthPrune w |}.
Definition with_durations (d : gmap string Requeue.Duration) (w : world) : world := {|
  w_trace := w_trace w; w_clock := w_clock w; w_durations := d; w_updates := w_updates w;
  w_health := w_health w; w_status := w_status w; w_replicas := w_replicas w; w_set := w_set w;
  w_rollouts := w_rollouts w; w_cache := w_cache w;
  w_lastHealthPrune := w_lastHealthPrune w |}.
Definition with_updates (u : gmap string Update.controller) (w : world) : world := {|
  w_trace := w_trace w; w_clock := w_clock w; w_durations := w_durations w; w_updates := u;
  w_health := w_health w; w_status := w_status w; w_replicas := w_replicas w; w_set := w_set w;
  w_rollouts := w_rollouts w; w_cache := w_cache w;
  w_lastHealthPrune := w_lastHealthPrune w |}.
Definition with_health (h : gmap string instanceHealthState) (w : world) : world := {|
  w_trace := w_trace w; w_clock := w_clock w; w_durations := w_durations w; w_updates := w_updates w;
  w_health := h; w_status := w_status w; w_replicas := w_replicas w; w_set := w_set w;
  w_rollouts := w_rollouts w; w_cache := w_cache w;
  w_lastHealthPrune := w_lastHealthPrune w |}.
Definition with_status (s : RoleInstanceSetStatus) (w : world) : world := {|
  w_trace := w_trace w; w_clock := w_clock w; w_durations := w_durations w; w_updates := w_updates w;
  w_health := w_health w; w_status := s; w_replicas := w_replicas w; w_set := w_set w;
  w_rollouts := w_rollouts w; w_cache := w_cache w;
  w_lastHealthPrune := w_lastHealthPrune w |}.
Definition with_replicas (r : list (option RoleInstance)) (w : world) : world := {|
  w_trace := w_trace w; w_clock := w_clock w; w_durations := w_durations w; w_updates := w_updates w;
  w_health := w_health w; w_status := w_status w; w_replicas := r; w_set := w_set w;
  w_rollouts := w_rollouts w; w_cache := w_cache w;
  w_lastHealthPrune := w_lastHealthPrune w |}.
Definition with_set (s : RoleInstanceSet) (w : world) : world := {|
  w_trace := w_trace w; w_clock := w_clock w; w_durations := w_durations w; w_updates := w_updates w;
  w_health := w_health w; w_status := w_status w; w_replicas := w_replicas w; w_set := s;
  w_rollouts := w_rollouts w; w_cache := w_cache w;
  w_lastHealthPrune := w_lastHealthPrune w |}.
Definition with_rollouts (v : gmap string ResourceVersion.versions) (w : world) : world := {|
  w_trace := w_trace w; w_clock := w_clock w; w_durations := w_durations w; w_updates := w_updates w;
  w_health := w_health w; w_status := w_status w; w_replicas := w_replicas w; w_set := w_set w;
  w_rollouts := v; w_cache := w_cache w;
  w_lastHealthPrune := w_lastHealthPrune w |}.
Definition with_cache (l : list revisionEqualityCacheKey) (w : world) : world := {|
  w_trace := w_trace w; w_clock := w_clock w; w_durations := w_durations w; w_updates := w_updates w;
  w_health := w_health w; w_status := w_status w; w_replicas := w_replicas w; w_set := w_set w;
  w_rollouts := w_rollouts w; w_cache := l;
  w_lastHealthPrune := w_lastHealthPrune w |}.
Definition with_lastHealthPrune (t : gotime) (w : world) : world := {|
  w_trace := w_trace w; w_clock := w_clock w; w_durations := w_durations w; w_updates := w_updates w;
  w_health := w_health w; w_status := w_status w; w_replicas := w_replicas w; w_set := w_set w;
  w_rollouts := w_rollouts w; w_cache := w_cache w; w_lastHealthPrune := t |}.

Abbreviation M := (ST world).

Section effects.
Context `{Env}.

Definition now : M Z := fun w => (Ok (env_now (w_clock w)), with_clock (S (w_clock w)) w).

Definition call (c : api_call) : M unit := modify (fun w => with_trace (c :: w_trace w) w).

Definition push_duration (set : RoleInstanceSet) (d : Z) : M unit :=
  modify (fun w => with_durations (Requeue.Push (getInstanceSetKey set) d (w_durations w)) w).

(** StatefulInstanceControl: an AlreadyExists error is sunk, and the object in
    memory then stays as it was. *)
Definition CreateStatefulInstance (i : RoleInstance) : M RoleInstance :=
  t ← gets w_trace;
  call (CallCreate i) ≫= fun _ =>
  match env_create t i with
  | Created i' => mret i'
  | AlreadyExists => mret i
  | CreateError e => fail e
  end.

Definition DeleteStatefulInstance (i : RoleInstance) : M unit :=
  t ← gets w_trace;
  call (CallDelete i) ≫= fun _ => lift (env_delete t i).

Definition request {A} (c : api_call) (answer : list api_call -> result A) : M A :=
  t ← gets w_trace; call c ≫= fun _ => lift (answer t).
End effects.

Definition with_replacement (r : option RolloutReplacementState) (s : RoleInstanceSetStatus) : RoleInstanceSetStatus := {|
  st_ObservedGeneration := st_ObservedGeneration s; st_Replicas := st_Replicas s;
  st_ReadyReplicas := st_ReadyReplicas s; st_AvailableReplicas := st_AvailableReplicas s;
  st_CurrentReplicas := st_CurrentReplicas s; st_UpdatedReplicas := st_UpdatedReplicas s;
  st_UpdatedReadyReplicas := st_UpdatedReadyReplicas s;
  st_ExpectedUpdatedReplicas := st_ExpectedUpdatedReplicas s; st_UpdateRevision := st_UpdateRevision s;
  st_CurrentRevision := st_CurrentRevision s; st_RolloutReplacementState := r;
  st_CollisionCount := st_CollisionCount s; st_LabelSelector := st_LabelSelector s;
  st_Conditions := st_Conditions s |}.

(** * Writing the status (stateful_instance_set_status_updater.go) *)

(** [errors.Is(err, errRolloutSpecChanged)]. *)
Definition errRolloutSpecChanged : error := "RoleInstanceSet changed while persisting rollout replacement state".
Definition IsRolloutSpecChanged (e : error) : bool := bool_decide (e = errRolloutSpecChanged).

Definition rs_with (version : string) (st : RoleInstanceSetStatus) (s : RoleInstanceSet) : RoleInstanceSet := {|
  rs_meta := with_version version (rs_meta s); rs_spec := rs_spec s; rs_status := st |}.

Section persist.
Context `{Env}.

(** The patch carries the UID and the resource version of the set. *)
Definition PersistRolloutReplacementState (state : RolloutReplacementState) : M unit :=
  set ← gets w_set;
  if bool_decide (is_Some (om_DeletionTimestamp (rs_meta set))) then fail "the RoleInstanceSet is deleting"
  else
    attempt (request (CallPersist state) (fun t => env_persist t set state)) (fun r =>
      match r with
      | Err e => fail (if IsConflict e then errRolloutSpecChanged else e)
      | Ok updated =>
          if negb (bool_decide (rs_UID updated = rs_UID set))
             || negb (om_Generation (rs_meta updated) =? om_Generation (rs_meta set))
             || bool_decide (is_Some (om_DeletionTimestamp (rs_meta updated)))
          then fail errRolloutSpecChanged
          else if negb (bool_decide (st_RolloutReplacementState (rs_status updated) = Some state))
          then fail "the RoleInstanceSet did not persist rolloutReplacementState"
          else modify (fun w =>
            with_set (rs_with (om_ResourceVersion (rs_meta updated))
                        (with_replacement (st_RolloutReplacementState (rs_status updated)) (rs_status set)) set)
              (with_rollouts (ResourceVersion.Expect (rs_meta updated) (w_rollouts w)) w))
      end).
End persist.

(** * Health snapshots *)

Definition stableUnhealthyDuration : Z := 10 * second.

(** The unhealthy instances, each with the time it was first observed so. *)
Definition observe_since (previous : gmap string Z) (now : Z) (instances : list (option RoleInstance)) : gmap string Z :=
  fold_left (fun since o =>
    match o with
    | Some i =>
        if bool_decide (ri_UID i = ""%string) || isHealthy i then since
        else <[ri_UID i := default now (previous !! ri_UID i)]> since
    | None => since
    end) instances ∅.

(** The snapshot of this set, if it was taken for the same set UID. *)
Definition previous_since (set : RoleInstanceSet) (h : gmap string instanceHealthState) : gmap string Z :=
  match h !! getInstanceSetKey set with
  | Some p => if bool_decide (hs_setUID p = rs_UID set) then hs_since p else ∅
  | None => ∅
  end.

Definition observe_health (set : RoleInstanceSet) (instances : list (option RoleInstance)) (now : Z)
    (h : gmap string instanceHealthState) : gmap string instanceHealthState :=
  let since := observe_since (previous_since set h) now instances in
  if bool_decide (since = ∅) then delete (getInstanceSetKey set) h
  else <[getInstanceSetKey set := {| hs_setUID := rs_UID set; hs_since := since |}]> h.

Definition getUnhealthySince (set : RoleInstanceSet) (inst : RoleInstance)
    (h : gmap string instanceHealthState) : option Z :=
  if bool_decide (ri_UID inst = ""%string) then None else previous_since set h !! ri_UID inst.

(** At a reading of the clock. *)
Definition stably_unhealthy (set : RoleInstanceSet) (inst : RoleInstance) (h : gmap string instanceHealthState)
    (now : Z) : bool :=
  match getUnhealthySince set inst h with
  | None => false
  | Some first => now - first >=? stableUnhealthyDuration
  end.

Section health.
Context `{Env}.

Definition observeInstanceHealth (set : RoleInstanceSet) (instances : list (option RoleInstance)) : M unit :=
  t ← now;
  modify (fun w => with_health (observe_health set instances t (w_health w)) w).

Definition isStablyUnhealthy (set : RoleInstanceSet) (inst : RoleInstance) : M bool :=
  h ← gets w_health; t ← now; mret (stably_unhealthy set inst h t).

(** The time left, when some is. *)
Definition remainingUnhealthyWindow (set : RoleInstanceSet) (inst : RoleInstance) : M (option Z) :=
  h ← gets w_health;
  match getUnhealthySince set inst h with
  | None => mret None
  | Some first =>
      t ← now;
      let wait := first + stableUnhealthyDuration - t in
      mret (if 0 <? wait then Some wait else None)
  end.

Definition pushUnhealthyRetry (set : RoleInstanceSet) (inst : RoleInstance) : M unit :=
  r ← remainingUnhealthyWindow set inst;
  match r with Some wait => push_duration set wait | None => mret tt end.
End health.

(** * Status *)

Definition with_counts (rep ready avail cur upd updready : Z) (s : RoleInstanceSetStatus) : RoleInstanceSetStatus := {|
  st_ObservedGeneration := st_ObservedGeneration s; st_Replicas := rep; st_ReadyReplicas := ready;
  st_AvailableReplicas := avail; st_CurrentReplicas := cur; st_UpdatedReplicas := upd;
  st_UpdatedReadyReplicas := updready; st_ExpectedUpdatedReplicas := st_ExpectedUpdatedReplicas s;
  st_UpdateRevision := st_UpdateRevision s; st_CurrentRevision := st_CurrentRevision s;
  st_RolloutReplacementState := st_RolloutReplacementState s; st_CollisionCount := st_CollisionCount s;
  st_LabelSelector := st_LabelSelector s;
  st_Conditions := st_Conditions s |}.

Definition add_counts (rep cur : Z) (s : RoleInstanceSetStatus) : RoleInstanceSetStatus :=
  with_counts (int32 (st_Replicas s + rep)) (st_ReadyReplicas s) (st_AvailableReplicas s)
    (int32 (st_CurrentReplicas s + cur)) (st_UpdatedReplicas s) (st_UpdatedReadyReplicas s) s.

Definition with_CurrentRevision (r : string) (s : RoleInstanceSetStatus) : RoleInstanceSetStatus := {|
  st_ObservedGeneration := st_ObservedGeneration s; st_Replicas := st_Replicas s;
  st_ReadyReplicas := st_ReadyReplicas s; st_AvailableReplicas := st_AvailableReplicas s;
  st_CurrentReplicas := st_CurrentReplicas s; st_UpdatedReplicas := st_UpdatedReplicas s;
  st_UpdatedReadyReplicas := st_UpdatedReadyReplicas s;
  st_ExpectedUpdatedReplicas := st_ExpectedUpdatedReplicas s; st_UpdateRevision := st_UpdateRevision s;
  st_CurrentRevision := r; st_RolloutReplacementState := st_RolloutReplacementState s;
  st_CollisionCount := st_CollisionCount s; st_LabelSelector := st_LabelSelector s;
  st_Conditions := st_Conditions s |}.

Definition isInstanceAvailable (now : Z) (instance : RoleInstance) (minReadySeconds : Z) : bool :=
  if negb (isHealthy instance) then false
  else if minReadySeconds <=? 0 then true
  else
    match List.find (fun c => bool_decide (cond_Type c = RoleInstanceReady) && bool_decide (cond_Status c = ConditionTrue))
            (rist_Conditions (ri_status instance)) with
    | Some cond => time_sub now (cond_LastTransitionTime cond) >=? minReadySeconds * second
    | None => false
    end.

(** The counts over the non-nil instances, against one reading of the clock for
    each. *)
Fixpoint count_status (nows : nat -> Z) (minReadySeconds : Z) (current update : string)
    (instances : list (option RoleInstance)) (s : RoleInstanceSetStatus) : RoleInstanceSetStatus :=
  match instances with
  | [] => s
  | None :: l => count_status nows minReadySeconds current update l s
  | Some i :: l =>
      let one (b : bool) := if b then 1 else 0 in
      let upd := at_revision update i in
      count_status (fun k => nows (S k)) minReadySeconds current update l
        (with_counts (int32 (st_Replicas s + 1))
           (int32 (st_ReadyReplicas s + one (isHealthy i)))
           (int32 (st_AvailableReplicas s + one (isInstanceAvailable (nows O) i minReadySeconds)))
           (int32 (st_CurrentReplicas s + one (at_revision current i)))
           (int32 (st_UpdatedReplicas s + one upd))
           (int32 (st_UpdatedReadyReplicas s + one (upd && isHealthy i))) s)
  end.

Section status.
Context `{Env}.

(** [updateStatus] over the concatenation of its instance lists. *)
Definition updateStatus (minReadySeconds : Z) (current update : string)
    (instances : list (option RoleInstance)) : M unit :=
  modify (fun w =>
    with_clock (w_clock w + length instances)%nat
      (with_status (count_status (fun k => env_now (w_clock w + k)%nat) minReadySeconds current update instances
                      (with_counts 0 0 0 0 0 0 (w_status w))) w)).
End status.

Definition allowsBurst (set : RoleInstanceSet) : bool :=
  bool_decide (rss_PodManagementPolicy (rs_spec set) = ParallelPodManagement).

Definition getMinReadySeconds (set : RoleInstanceSet) : Z := rss_MinReadySeconds (rs_spec set).

Definition getScaleMaxUnavailable (set : RoleInstanceSet) : result Z :=
  match rss_Replicas (rs_spec set) with
  | None => Ok 1
  | Some n =>
      match ss_MaxUnavailable (rss_ScaleStrategy (rs_spec set)) with
      | None => Ok n
      | Some m =>
          v ← GetValueFromIntOrPercent (Some m) n false;
          Ok (if v <? 1 then 1 else v)
      end
  end.

(** * In-place update state *)

Section refresh.
Context `{Env}.

(** Whether work remains, and the delay. *)
Definition refreshInstanceState (instance : RoleInstance) : M (bool * Z) :=
  if CheckRoleInstanceUpdateCompleted instance then
    t ← gets w_trace;
    call (CallRefresh instance) ≫= fun _ =>
    delay ← lift (env_refresh t instance);
    mret (if 0 <? delay then (true, delay) else (false, 0))
  else mret (false, 0).

Fixpoint refreshAllInstanceStates (set : RoleInstanceSet) (instances : list (option RoleInstance)) (modified : bool) : M bool :=
  match instances with
  | [] => mret modified
  | None :: l => refreshAllInstanceStates set l modified
  | Some i :: l =>
      '(refreshed, d) ← refreshInstanceState i;
      (if 0 <? d then push_duration set d else mret tt) ≫= fun _ =>
      refreshAllInstanceStates set l (if refreshed : bool then true else modified)
  end.
End refresh.

(** * Quiet steps *)

(** An invariant that looks at the health snapshots and the replica slots only:
    every step but those that write them keeps it. *)
Class Framed (I : world -> Prop) : Prop :=
  framed : forall w w', w_health w = w_health w' -> w_replicas w = w_replicas w' -> I w -> I w'.

#[export] Instance framed_is h reps : Framed (fun w => w_health w = h /\ w_replicas w = reps).
Proof. intros w w' <- <-. done. Qed.
#[export] Instance framed_true : Framed (fun _ => True).
Proof. done. Qed.
#[export] Instance framed_health h : Framed (fun w => w_health w = h).
Proof. by intros w w' <- _. Qed.

Abbreviation run := (Effects.run w_trace).
Abbreviation silent := (Effects.silent w_trace).

#[export] Hint Extern 0 (Framed _) => typeclasses eauto : silent.

Section quiet.
Context `{Env} (I : world -> Prop) (P : api_call -> bool).

Lemma silent_now : Framed I -> silent I P now.
Proof. intros HI w r w' Hw [= <- <-]. split; [by eapply HI; [..|exact Hw]|]. by exists []. Qed.

Lemma silent_write f :
  Framed I -> (forall w, w_health (f w) = w_health w) -> (forall w, w_replicas (f w) = w_replicas w) ->
  (forall w, w_trace (f w) = w_trace w) -> silent I P (modify f).
Proof. intros HI Hh Hr Ht. apply silent_modify; [|done]. intros w. by apply HI; rewrite ?Hh, ?Hr. Qed.

Lemma run_call (c : api_call) (Q : result unit -> Z -> Prop) :
  (forall w, I w -> I (with_trace (c :: w_trace w) w)) -> Q (Ok tt) (if P c then 1 else 0) -> run I P (call c) Q.
Proof.
  intros HI HQ w r w' Hw [= <- <-]. split; [auto|]. exists [c]. split; [done|].
  simpl. by rewrite Z.add_0_r.
Qed.

Lemma silent_push_duration set d : Framed I -> silent I P (push_duration set d).
Proof. intros. by apply silent_write. Qed.

Lemma silent_call c : Framed I -> P c = false -> silent I P (call c).
Proof. intros HI Hc. apply run_call; [|by rewrite Hc]. intros w Hw. by eapply HI; [..|exact Hw]. Qed.

Lemma run_call_framed c (Q : result unit -> Z -> Prop) :
  Framed I -> Q (Ok tt) (if P c then 1 else 0) -> run I P (call c) Q.
Proof. intros HI. apply run_call. intros w Hw. by eapply HI; [..|exact Hw]. Qed.

Lemma silent_updateStatus m c u l : Framed I -> silent I P (updateStatus m c u l).
Proof. intros. by apply silent_write. Qed.
End quiet.

#[export] Hint Resolve silent_now silent_push_duration silent_updateStatus : silent.
#[export] Hint Extern 1 (Effects.silent w_trace _ _ (modify _)) => (apply silent_write; [typeclasses eauto|done..]) : silent.

Lemma silent_posed `{Env} I P {A} c (answer : list api_call -> result A) :
  Framed I -> P c = false -> silent I P (request c answer).
Proof. intros. unfold request. silence. by apply silent_call. Qed.

Lemma silent_PersistState `{Env} I P state :
  Framed I -> P (CallPersist state) = false -> silent I P (PersistRolloutReplacementState state).
Proof.
  intros. unfold PersistRolloutReplacementState. apply silent_bind; [silence|]. intros s. destruct (bool_decide _); [silence|].
  apply silent_attempt; [by apply silent_posed|]. intros [updated|e]; silence.
Qed.

Lemma silent_isStablyUnhealthy `{Env} I P set i : Framed I -> silent I P (isStablyUnhealthy set i).
Proof. intros. unfold isStablyUnhealthy. silence. Qed.

Lemma silent_pushUnhealthyRetry `{Env} I P set i : Framed I -> silent I P (pushUnhealthyRetry set i).
Proof. intros. unfold pushUnhealthyRetry, remainingUnhealthyWindow. silence. Qed.

#[export] Hint Resolve silent_isStablyUnhealthy silent_pushUnhealthyRetry : silent.

Lemma silent_refreshInstanceState `{Env} I P i :
  Framed I -> (forall j, P (CallRefresh j) = false) -> silent I P (refreshInstanceState i).
Proof. intros. unfold refreshInstanceState. silence. by apply silent_call. Qed.

Lemma silent_refreshAllInstanceStates `{Env} I P set l b :
  Framed I -> (forall j, P (CallRefresh j) = false) -> silent I P (refreshAllInstanceStates set l b).
Proof.
  intros HI HP. revert b. induction l as [|[i|] l IH]; intros b; cbn [refreshAllInstanceStates];
    [eauto with silent| |apply IH].
  apply silent_bind; [by apply silent_refreshInstanceState|]. intros [refreshed d].
  apply silent_bind; [silence|]. intros _. apply IH.
Qed.

#[export] Hint Resolve silent_refreshInstanceState silent_refreshAllInstanceStates : silent.

(** * A concrete cluster *)

(** Every request succeeds; a created object gets a UID and no status; nothing
    can be updated in place. *)
Module Cluster.
Definition with_UID (uid : string) (m : ObjectMeta) : ObjectMeta := {|
  om_Name := om_Name m; om_GenerateName := om_GenerateName m; om_Namespace := om_Namespace m; om_UID := uid;
  om_ResourceVersion := om_ResourceVersion m; om_Generation := om_Generation m;
  om_CreationTimestamp := om_CreationTimestamp m; om_DeletionTimestamp := om_DeletionTimestamp m;
  om_Labels := om_Labels m; om_Annotations := om_Annotations m; om_OwnerReferences := om_OwnerReferences m;
  om_Finalizers := om_Finalizers m |}.

Definition revision (name : string) : ControllerRevision :=
  {| cr_meta := with_name name "" empty_meta; cr_Revision := 1; cr_Data := name |}.

#[export] Instance env : Env := {|
  env_now := fun k => 1000 * second + Z.of_nat k;
  env_create := fun t i => Created {| ri_meta := with_UID "created" (ri_meta i); ri_spec := ri_spec i;
                                      ri_status := empty_instance_status |};
  env_delete := fun t i => Ok tt;
  env_refresh := fun t i => Ok 0;
  env_CanUpdateInPlace := fun c u g => false;
  env_update := fun t i c u g => Ok false;
  env_persist := fun t set s => Ok (rs_with "2" (with_replacement (Some s) (rs_status set)) set);
  env_ApplyRevision := fun s r => Ok s;
  env_selector := fun s => Ok "app=decode"%string;
  env_update_set_status := fun t s => Ok (rs_with "2" (rs_status s) s);
  env_get := fun t ns n => Err NotFoundError;
  env_get_set := fun t ns n => Err NotFoundError;
  env_patch_owners := fun t n l => Ok tt;
  env_cached_set := fun t ns n => Err NotFoundError;
  env_cached_instances := fun t ns => Ok [];
  env_list_revisions := fun t ns l => Ok [revision "old"; revision "new"];
  env_get_revision := fun t ns n => Err NotFoundError;
  env_create_revision := fun t r => Ok r;
  env_update_revision := fun t r => Ok r;
  env_delete_revision := fun t r => Ok tt |}.

Definition start (replicas : list (option RoleInstance)) : world := {|
  w_trace := []; w_clock := 0; w_durations := ∅; w_updates := ∅; w_health := ∅;
  w_status := empty_set_status; w_replicas := replicas; w_set := Fixture.rolling; w_rollouts := ∅; w_cache := [];
  w_lastHealthPrune := None |}.
End Cluster.
