(* ===== verification/StatefulHealth.v ===== *)
(** Stateful mode, what is observed: the history behind a stably unhealthy
    instance (observeInstanceHealth, isStablyUnhealthy) and the counts of a status
    (updateStatus), both in
    pkg/reconciler/roleinstanceset/statefulmode/stateful_instance_set_control.go.
    The definitions are those of StatefulControl. *)
From Stdlib Require Import ZArith Lia Bool Ascii String.
From stdpp Require Import base tactics list strings gmap sets fin_maps.
From S2P Require Import Prelude GoStrings IntOrString Types Expectations Effects StatefulUtils.
From S2P Require Import StatefulControl.

(** * The health history *)

(** A snapshot and the time it was taken. *)
Definition observation : Type := Z * list (option RoleInstance).

Definition unhealthy_in (uid : string) (o : observation) : bool :=
  existsb (on_instance (fun i => bool_decide (ri_UID i = uid) && negb (isHealthy i))) o.2.

(** The snapshots a fresh controller has taken of one set, oldest first. *)
Definition observe_all (set : RoleInstanceSet) (history : list observation) : gmap string instanceHealthState :=
  fold_left (fun h o => observe_health set o.2 o.1 h) history ∅.

Lemma observe_since_lookup previous now instances uid :
  uid <> ""%string ->
  observe_since previous now instances !! uid
  = if unhealthy_in uid (now, instances) then Some (default now (previous !! uid)) else None.
Proof.
  intros Huid. unfold observe_since, unhealthy_in. cbn [snd].
  induction instances as [|[i|] l IH] using rev_ind; [done| |].
  - rewrite fold_left_app, existsb_app. cbn [fold_left existsb on_instance]. rewrite orb_false_r.
    destruct (decide (ri_UID i = uid)) as [<-|Hne].
    + rewrite !bool_decide_eq_false_2, (bool_decide_eq_true_2 (ri_UID i = ri_UID i)) by done. cbn [orb andb].
      destruct (isHealthy i); cbn [negb]; [by rewrite IH, orb_false_r|].
      by rewrite lookup_insert_eq, orb_true_r.
    + rewrite (bool_decide_eq_false_2 (ri_UID i = uid)) by done. cbn [andb]. rewrite orb_false_r, <-IH.
      destruct (_ || _); [done|]. by rewrite lookup_insert_ne.
  - by rewrite fold_left_app, existsb_app, orb_false_r.
Qed.

Lemma previous_since_observe set instances now h :
  previous_since set (observe_health set instances now h) = observe_since (previous_since set h) now instances.
Proof.
  unfold previous_since at 1. unfold observe_health. case_bool_decide as He.
  - by rewrite lookup_delete_eq.
  - rewrite lookup_insert_eq. cbn [hs_setUID hs_since]. by rewrite bool_decide_eq_true_2.
Qed.

Lemma observe_all_snoc set history o uid :
  uid <> ""%string ->
  previous_since set (observe_all set (history ++ [o])) !! uid
  = if unhealthy_in uid o then Some (default o.1 (previous_since set (observe_all set history) !! uid)) else None.
Proof.
  intros Huid. unfold observe_all. rewrite fold_left_app. cbn [fold_left].
  rewrite previous_since_observe, observe_since_lookup by done. by destruct o.
Qed.

(** The run of unhealthy snapshots that ends a history starts at [t]. *)
Definition unhealthy_run (uid : string) (history : list observation) (t : Z) : Prop :=
  exists before instances rest, history = before ++ (t, instances) :: rest /\
    (forall o, o ∈ (t, instances) :: rest -> unhealthy_in uid o = true) /\
    (forall o, last before = Some o -> unhealthy_in uid o = false).

Lemma since_iff set history uid t :
  uid <> ""%string ->
  previous_since set (observe_all set history) !! uid = Some t <-> unhealthy_run uid history t.
Proof.
  intros Huid. revert t. induction history as [|o history IH] using rev_ind; intros t.
  { split; [done|]. by intros ([|]&?&?&?&_). }
  assert (previous_since set (observe_all set history) !! uid = None ->
          forall o', last history = Some o' -> unhealthy_in uid o' = false) as Hlast.
  { intros Hn o' Ho'. apply last_Some in Ho' as [l ->]. rewrite observe_all_snoc in Hn by done.
    by destruct (unhealthy_in uid o'). }
  rewrite observe_all_snoc by done. split.
  - destruct (unhealthy_in uid o) eqn:Ho; [|done]. intros [= Ht].
    destruct (previous_since set (observe_all set history) !! uid) as [t'|] eqn:Hp; simpl in Ht; subst t.
    + destruct (proj1 (IH t') eq_refl) as (before & insts & rest & -> & Hall & Hb).
      exists before, insts, (rest ++ [o]). split_and!; [by rewrite <-app_assoc| |done].
      intros o'. rewrite app_comm_cons. intros [?|Ho']%elem_of_app; [by apply Hall|]. by apply list_elem_of_singleton in Ho' as ->.
    + exists history, o.2, []. split_and!; [by destruct o| |by apply Hlast].
      intros o' Ho'. apply list_elem_of_singleton in Ho' as ->. by destruct o.
  - intros (before & insts & rest & Heq & Hall & Hb). destruct rest as [|o' rest _] using rev_ind.
    + apply app_inj_tail in Heq as [-> ->]. rewrite Hall by (by left). f_equal. simpl.
      destruct (previous_since set (observe_all set before) !! uid) as [t'|] eqn:Hp; [|done].
      destruct (proj1 (IH t') eq_refl) as (b & i & rest & -> & Hall' & _).
      destruct (last (b ++ (t', i) :: rest)) as [o|] eqn:Hl; [|apply last_None in Hl; by destruct b].
      rewrite last_app_cons in Hl. specialize (Hall' o (last_Some_elem_of _ _ Hl)).
      by rewrite (Hb o eq_refl) in Hall'.
    + rewrite app_comm_cons, app_assoc in Heq. apply app_inj_tail in Heq as [-> ->].
      rewrite Hall by (right; apply elem_of_app; right; by left). f_equal.
      assert (previous_since set (observe_all set (before ++ (t, insts) :: rest)) !! uid = Some t) as ->; [|done].
      apply IH. exists before, insts, rest. split_and!; [done| |done].
      intros o Ho. apply Hall. rewrite app_comm_cons. apply elem_of_app. by left.
Qed.

(** An instance is stably unhealthy exactly when the snapshots of this
    controller end in a run of unhealthy ones that started at least ten seconds
    ago: one healthy snapshot, or a missing one, restarts the clock. *)
Theorem stably_unhealthy_iff (set : RoleInstanceSet) (inst : RoleInstance) (history : list observation) (now : Z) :
  stably_unhealthy set inst (observe_all set history) now = true <->
  ri_UID inst <> ""%string /\
  exists t, unhealthy_run (ri_UID inst) history t /\ t + 10 * second <= now.
Proof.
  unfold stably_unhealthy, getUnhealthySince. case_bool_decide as Huid; [by split; [|intros []]|].
  destruct (previous_since set (observe_all set history) !! ri_UID inst) as [t|] eqn:Hp.
  - rewrite Z.geb_le. unfold stableUnhealthyDuration. split.
    + intros Ht. split; [done|]. exists t. split; [by eapply since_iff|lia].
    + intros (_ & t' & Hrun & Ht). apply (since_iff set) in Hrun; [|done]. rewrite Hp in Hrun. injection Hrun as ->. lia.
  - split; [done|]. intros (_ & t' & Hrun & _). apply (since_iff set) in Hrun; [|done]. congruence.
Qed.

(** * The counts of a status *)

Definition some_instance (o : option RoleInstance) : bool := on_instance (fun _ => true) o.

Lemma count_status_replacement nows m current update instances s :
  st_RolloutReplacementState (count_status nows m current update instances s) = st_RolloutReplacementState s.
Proof.
  revert nows s. induction instances as [|[i|] l IH]; intros nows s; cbn [count_status]; [done| |apply IH]. by rewrite IH.
Qed.

(** The counts relative to those of the status it starts from. *)
Lemma count_status_spec nows m current update instances s :
  0 <= st_Replicas s -> st_Replicas s + Z.of_nat (length instances) <= int32_max ->
  0 <= st_ReadyReplicas s <= st_Replicas s -> 0 <= st_AvailableReplicas s <= st_ReadyReplicas s ->
  0 <= st_CurrentReplicas s <= st_Replicas s -> 0 <= st_UpdatedReplicas s <= st_Replicas s ->
  0 <= st_UpdatedReadyReplicas s <= st_UpdatedReplicas s ->
  let s' := count_status nows m current update instances s in
  st_Replicas s' = st_Replicas s + countb some_instance instances /\
  st_ReadyReplicas s' = st_ReadyReplicas s + countb (on_instance isHealthy) instances /\
  0 <= st_AvailableReplicas s' <= st_ReadyReplicas s' /\
  st_CurrentReplicas s' = st_CurrentReplicas s + countb (on_instance (at_revision current)) instances /\
  st_UpdatedReplicas s' = st_UpdatedReplicas s + countb (on_instance (at_revision update)) instances /\
  st_UpdatedReadyReplicas s'
  = st_UpdatedReadyReplicas s + countb (on_instance (fun i => at_revision update i && isHealthy i)) instances.
Proof.
  revert nows s. induction instances as [|[i|] l IH]; intros nows s Hr Hlen Hready Hav Hcur Hupd Hur; cbv zeta.
  { cbn [count_status countb]. split_and!; lia. }
  2:{ cbn [count_status countb on_instance some_instance]. cbn [length] in Hlen.
      destruct (IH nows s) as (?&?&?&?&?&?); lia. }
  cbn [count_status countb on_instance some_instance]. cbn [length] in Hlen.
  assert (isInstanceAvailable (nows O) i m = true -> isHealthy i = true) as Hai.
  { unfold isInstanceAvailable. by destruct (isHealthy i). }
  set (a := isInstanceAvailable (nows O) i m) in *. clearbody a.
  match goal with |- context [count_status _ _ _ _ l ?x] => set (s1 := x) in * end.
  assert (forall z, 0 <= z <= int32_max -> int32 z = z) as Hint by (intros; apply int32_id; unfold_int; lia).
  assert (st_Replicas s1 = st_Replicas s + 1 /\
    st_ReadyReplicas s1 = st_ReadyReplicas s + (if isHealthy i then 1 else 0) /\
    st_AvailableReplicas s1 = st_AvailableReplicas s + (if a then 1 else 0) /\
    st_CurrentReplicas s1 = st_CurrentReplicas s + (if at_revision current i then 1 else 0) /\
    st_UpdatedReplicas s1 = st_UpdatedReplicas s + (if at_revision update i then 1 else 0) /\
    st_UpdatedReadyReplicas s1 = st_UpdatedReadyReplicas s + (if at_revision update i && isHealthy i then 1 else 0))
    as (E1 & E2 & E3 & E4 & E5 & E6).
  { unfold s1, with_counts. cbn. rewrite !Hint; [done|bcase..]. }
  clearbody s1.
  assert (forall b : bool, 0 <= (if b then 1 else 0) <= 1) as Hb by (intros []; lia).
  pose proof (Hb a). pose proof (Hb (isHealthy i)). pose proof (Hb (at_revision current i)). pose proof (Hb (at_revision update i)).
  assert ((if a then 1 else 0) <= (if isHealthy i then 1 else 0)) by (destruct a; [by rewrite Hai|lia]).
  assert (0 <= (if at_revision update i && isHealthy i then 1 else 0) <= (if at_revision update i then 1 else 0))
    by (destruct (at_revision update i), (isHealthy i); simpl; lia).
  destruct (IH (fun k => nows (S k)) s1) as (K1 & K2 & K3 & K4 & K5 & K6); lia.
Qed.

(** The counts a pass publishes are those of the instances it lists, and they
    are ordered: available <= ready <= replicas, current and updated <= replicas,
    updated and ready <= both. *)
Theorem updateStatus_counts `{Env} (m : Z) (current update : string) (instances : list (option RoleInstance)) (w : world) :
  Z.of_nat (length instances) <= int32_max ->
  exists w', updateStatus m current update instances w = (Ok tt, w') /\ w_trace w' = w_trace w /\
    let s := w_status w' in
    st_Replicas s = countb some_instance instances /\
    st_ReadyReplicas s = countb (on_instance isHealthy) instances /\
    st_CurrentReplicas s = countb (on_instance (at_revision current)) instances /\
    st_UpdatedReplicas s = countb (on_instance (at_revision update)) instances /\
    st_UpdatedReadyReplicas s = countb (on_instance (fun i => at_revision update i && isHealthy i)) instances /\
    0 <= st_AvailableReplicas s <= st_ReadyReplicas s /\ st_ReadyReplicas s <= st_Replicas s /\
    st_UpdatedReadyReplicas s <= Z.min (st_UpdatedReplicas s) (st_ReadyReplicas s) /\
    st_RolloutReplacementState s = st_RolloutReplacementState (w_status w).
Proof.
  intros Hlen. eexists. split; [reflexivity|]. split; [done|]. cbv zeta. cbn [w_status with_clock with_status].
  assert (forall f, countb (on_instance f) instances <= countb some_instance instances) as Hle.
  { intros f. apply countb_le_countb. by intros [i|]. }
  pose proof (Hle isHealthy).
  assert (forall f g : RoleInstance -> bool, (forall i, f i = true -> g i = true) ->
    countb (on_instance f) instances <= countb (on_instance g) instances) as Hmono.
  { intros f g Hfg. apply countb_le_countb. intros [i|] _; [apply Hfg|done]. }
  pose proof (Hmono (fun i => at_revision update i && isHealthy i) (at_revision update) ltac:(by intros i []%andb_prop)).
  pose proof (Hmono (fun i => at_revision update i && isHealthy i) isHealthy ltac:(by intros i []%andb_prop)).
  edestruct (count_status_spec (fun k => env_now (w_clock w + k)%nat) m current update instances
    (with_counts 0 0 0 0 0 0 (w_status w))) as (K1 & K2 & K3 & K4 & K5 & K6); [cbn; lia..|].
  cbn [with_counts st_Replicas st_ReadyReplicas st_CurrentReplicas st_UpdatedReplicas st_UpdatedReadyReplicas] in *.
  split_and!; try lia. by rewrite count_status_replacement.
Qed.

(** * Witnesses *)

Import Cluster.

Lemma updateStatus_counts_witness :
  exists w', updateStatus 0 "old" "new" (Some (Fixture.instance 5 "new" false) :: Fixture.four_old) (Cluster.start [])
             = (Ok tt, w') /\ st_Replicas (w_status w') = 5 /\ st_ReadyReplicas (w_status w') = 4 /\
             st_UpdatedReplicas (w_status w') = 1.
Proof.
  destruct (updateStatus_counts 0 "old" "new" (Some (Fixture.instance 5 "new" false) :: Fixture.four_old) (Cluster.start []))
    as (w' & Hw & _ & H1 & H2 & _ & H4 & _); [by vm_compute|].
  exists w'. rewrite H1, H2, H4. split; [exact Hw|]. by vm_compute.
Defined.

(** Unhealthy in the snapshots at 3 s and 8 s, after a healthy one at 2 s. *)
Example stably_unhealthy_example :
  let down := [Some (Fixture.instance 0 "old" false)] in
  let up := [Some (Fixture.instance 0 "old" true)] in
  let h := observe_all Fixture.rolling [(1 * second, down); (2 * second, up); (3 * second, down); (8 * second, down)] in
  stably_unhealthy Fixture.rolling (Fixture.instance 0 "old" false) h (12 * second) = false /\
  stably_unhealthy Fixture.rolling (Fixture.instance 0 "old" false) h (13 * second) = true.
Proof. by vm_compute. Qed.
