(* ===== verification/StatefulRollout.v ===== *)
(** Stateful mode, the rolling update (Phase C and D of
    stateful_instance_set_control.go): update targets, the availability budget,
    the replacement state of an early rollback, and the guard that advances the
    current revision. *)
From Stdlib Require Import ZArith Lia Bool Ascii String.
From stdpp Require Import base tactics list strings gmap sets fin_maps.
From S2P Require Import Prelude GoStrings IntOrString Types Expectations Effects StatefulUtils.
From S2P Require Import StatefulControl.

(** * Replacement state *)

Definition replacementStateCoversOrdinal (state : option RolloutReplacementState) (ordinal : Z) : bool :=
  match state with
  | Some s => (ordinal >=? rrs_Partition s) && (ordinal <? rrs_Replicas s)
  | None => false
  end.

Definition inheritedRolloutReplacementState (set : RoleInstanceSet) (instances : list (option RoleInstance))
    (topo : topology) (updateRevision : string) : option RolloutReplacementState :=
  if rolloutReplacementStateActive (Some set) instances (tp_partition topo) (tp_replicas topo) updateRevision
  then st_RolloutReplacementState (rs_status set) else None.

(** The scope to persist: only an actual additional replacement widens it. *)
Definition replacement_scope (previous : option RolloutReplacementState) (updateRevision : string)
    (replicas partition : Z) : RolloutReplacementState :=
  match previous with
  | None => {| rrs_UpdateRevision := updateRevision; rrs_Replicas := replicas; rrs_Partition := partition |}
  | Some p => {| rrs_UpdateRevision := updateRevision; rrs_Replicas := Z.max replicas (rrs_Replicas p);
                 rrs_Partition := Z.min partition (rrs_Partition p) |}
  end.

Section rollout.
Context `{Env} `{SortSlice}.

Definition persistRolloutReplacementState (set : RoleInstanceSet) (updateRevision : string) (ordinal : Z) : M unit :=
  maxSurge ← lift (computeMaxSurge set);
  previous ← gets (fun w => st_RolloutReplacementState (w_status w));
  if (maxSurge =? 0) || replacementStateCoversOrdinal previous ordinal then mret tt
  else
    partition ← lift (computePartition set);
    let state := replacement_scope previous updateRevision (default 0 (rss_Replicas (rs_spec set))) (int32 partition) in
    PersistRolloutReplacementState state ≫= fun _ =>
    modify (fun w => with_status (with_replacement (Some state) (w_status w)) w).

Fixpoint persistTerminating_loop (set : RoleInstanceSet) (instances : list (option RoleInstance))
    (topo : topology) (updateRevision : string) : M unit :=
  match instances with
  | [] => mret tt
  | o :: l =>
      previous ← gets (fun w => st_RolloutReplacementState (w_status w));
      match o with
      | Some i =>
          if negb (isCreated o) || negb (isTerminating o) || at_revision updateRevision i
          then persistTerminating_loop set l topo updateRevision
          else
            let ordinal := getOrdinal i in
            if (ordinal <? tp_partition topo) || (ordinal >=? tp_replicas topo)
               || replacementStateCoversOrdinal previous ordinal
            then persistTerminating_loop set l topo updateRevision
            else persistRolloutReplacementState set updateRevision ordinal
      | None => persistTerminating_loop set l topo updateRevision
      end
  end.

Definition persistTerminatingRolloutReplacement (set : RoleInstanceSet) (instances : list (option RoleInstance))
    (topo : topology) (currentRevision updateRevision : string) : M unit :=
  if negb (bool_decide (currentRevision = updateRevision)) || (tp_maxSurge topo =? 0) then mret tt
  else persistTerminating_loop set instances topo updateRevision.

(** * One target *)

Definition inPlaceUpdateInstance (set : RoleInstanceSet) (instance : RoleInstance) (updateRevision : ControllerRevision)
    (revisions : list ControllerRevision) : M bool :=
  let grace := us_InPlaceUpdateStrategy (rs_update set) in
  match List.find (fun r => bool_decide (cr_Name r = getInstanceRevision instance)) revisions with
  | None => mret false
  | Some currentRevision =>
      if negb (env_CanUpdateInPlace currentRevision updateRevision grace) then mret false
      else
        t ← gets w_trace;
        let r := env_update t instance currentRevision updateRevision grace in
        call (CallUpdate instance r) ≫= fun _ =>
        inplace ← lift r;
        (if (inplace : bool) then
           modify (fun w => with_updates
             (Update.ExpectUpdated (getInstanceSetKey set) (cr_Name updateRevision) (ri_meta instance) (w_updates w)) w)
         else mret tt) ≫= fun _ =>
        mret inplace
  end.

(** Whether the instance was actually deleted by this call. *)
Definition deleteInstance (instance : RoleInstance) : M bool :=
  if isTerminating (Some instance) then mret false
  else DeleteStatefulInstance instance ≫= fun _ => mret true.

(** Whether the caller must decrement CurrentReplicas. *)
Definition applyTargetUpdate (set : RoleInstanceSet) (target : RoleInstance)
    (currentRevision updateRevision : ControllerRevision) (revisions : list ControllerRevision)
    (isSurgeSlot : bool) : M bool :=
  (if negb isSurgeSlot && bool_decide (cr_Name currentRevision = cr_Name updateRevision)
   then persistRolloutReplacementState set (cr_Name updateRevision) (getOrdinal target)
   else mret tt) ≫= fun _ =>
  inplacing ← (if negb (bool_decide (us_Type (rs_update set) = RecreatePodUpdateStrategyType))
               then inPlaceUpdateInstance set target updateRevision revisions else mret false);
  transitioned ← (if inplacing : bool then mret true else deleteInstance target);
  mret ((transitioned : bool) && bool_decide (getInstanceRevision target = cr_Name currentRevision)).

(** * Budget *)

(** [replicas[ord - startOrdinal]], nil out of range. *)
Definition slot (replicas : list (option RoleInstance)) (topo : topology) (ord : Z) : option RoleInstance :=
  let idx := ord - tp_startOrdinal topo in
  if idx <? 0 then None else mjoin (replicas !! Z.to_nat idx).

(** The ordinals [lo, hi). *)
Definition ordinals (lo hi : Z) : list Z := seqZ lo (hi - lo).

Definition countAvailableSurge (replicas : list (option RoleInstance)) (topo : topology) (updateRev : string) : Z :=
  countb (fun ord => on_instance (fun i => serving i && at_revision updateRev i) (slot replicas topo ord))
    (ordinals (tp_surgeStart topo) (tp_endOrdinal topo)).

Definition MaxMinReadySeconds : Z := 300.

(** The names of the base instances that do not contribute to availability. *)
Fixpoint collect_loop (set : RoleInstanceSet) (replicas : list (option RoleInstance)) (topo : topology)
    (minReadySeconds : Z) (ords : list Z) (minWaitTime : Z) (out : gset string) : M (gset string) :=
  match ords with
  | [] => mret out
  | ord :: ords' =>
      match slot replicas topo ord with
      | None => collect_loop set replicas topo minReadySeconds ords' minWaitTime out
      | Some inst =>
          if negb (isHealthy inst) || negb (CheckRoleInstanceUpdateCompleted inst) then
            (if negb (isHealthy inst) then pushUnhealthyRetry set inst else mret tt) ≫= fun _ =>
            collect_loop set replicas topo minReadySeconds ords' minWaitTime ({[ri_Name inst]} ∪ out)
          else
            t ← now;
            let '(isAvailable, waitTime) := isInstanceRunningAndAvailable t inst minReadySeconds in
            if isAvailable : bool then collect_loop set replicas topo minReadySeconds ords' minWaitTime out
            else if negb (waitTime =? 0) && (waitTime <=? minWaitTime) then
              push_duration set waitTime ≫= fun _ =>
              collect_loop set replicas topo minReadySeconds ords' waitTime ({[ri_Name inst]} ∪ out)
            else collect_loop set replicas topo minReadySeconds ords' minWaitTime ({[ri_Name inst]} ∪ out)
      end
  end.

Definition collectBaseUnavailable (set : RoleInstanceSet) (replicas : list (option RoleInstance)) (topo : topology)
    (minReadySeconds : Z) : M (gset string) :=
  collect_loop set replicas topo minReadySeconds (ordinals (tp_startOrdinal topo) (tp_replicas topo))
    (MaxMinReadySeconds * second) ∅.

(** The targets themselves, highest ordinal first. *)
Definition buildUpdateTargets (replicas : list (option RoleInstance)) (topo : topology) (updateRev : string)
    : list RoleInstance :=
  sort_slice (fun x y => getOrdinal x >? getOrdinal y)
    (List.filter (fun i => negb (at_revision updateRev i))
       (omap (slot replicas topo) (ordinals (tp_partition topo) (tp_endOrdinal topo)))).

(** The loop over the targets; [newlyUnavail] counts the costly updates so far. *)
Fixpoint progress_loop (set : RoleInstanceSet) (currentRevision updateRevision : ControllerRevision)
    (revisions : list ControllerRevision) (topo : topology) (initialBaseUnavail effectiveBudget : Z)
    (targets : list RoleInstance) (newlyUnavail : Z) : M unit :=
  match targets with
  | [] => mret tt
  | target :: targets' =>
      let continue := progress_loop set currentRevision updateRevision revisions topo
                        initialBaseUnavail effectiveBudget targets' in
      let isSurgeSlot := getOrdinal target >=? tp_replicas topo in
      isFree ← (if isSurgeSlot || isTerminating (Some target) then mret true else isStablyUnhealthy set target);
      if negb (isFree : bool) && (initialBaseUnavail + newlyUnavail >=? effectiveBudget) then
        h ← gets w_health;
        (match getUnhealthySince set target h with
         | Some first =>
             t ← now;
             push_duration set (Z.max (first + stableUnhealthyDuration - t) 1)
         | None => mret tt
         end) ≫= fun _ => continue newlyUnavail
      else if isTerminating (Some target) then continue newlyUnavail
      else
        decrement ← applyTargetUpdate set target currentRevision updateRevision revisions isSurgeSlot;
        (if decrement : bool then modify (fun w => with_status (add_counts 0 (-1) (w_status w)) w) else mret tt)
          ≫= fun _ => continue (if isFree then newlyUnavail else newlyUnavail + 1)
  end.

Definition progressUpdate (set : RoleInstanceSet) (currentRevision updateRevision : ControllerRevision)
    (revisions : list ControllerRevision) (instances : list (option RoleInstance)) (minReadySeconds : Z)
    (topo : topology) : M unit :=
  t1 ← now; t2 ← now;
  u ← gets w_updates;
  let '((satisfied, _, _), u') :=
    Update.SatisfiedExpectations (getInstanceSetKey set) (cr_Name updateRevision) t1 t2 u in
  modify (with_updates u') ≫= fun _ =>
  if negb satisfied then mret tt
  else
    modified ← refreshAllInstanceStates set instances false;
    if modified : bool then mret tt
    else
      replicas ← gets w_replicas;
      let effectiveBudget := tp_maxUnavailable topo + countAvailableSurge replicas topo (cr_Name updateRevision) in
      baseUnavail ← collectBaseUnavailable set replicas topo minReadySeconds;
      progress_loop set currentRevision updateRevision revisions topo
        (Z.of_nat (size (baseUnavail : gset string))) effectiveBudget
        (buildUpdateTargets replicas topo (cr_Name updateRevision)) 0.

(** * OrderedReady cleanup *)

(** The first instance that blocks the monotonic loop, if it may be updated. *)
Fixpoint cleanup_loop (set : RoleInstanceSet) (replicas : list (option RoleInstance)) (topo : topology)
    (updateRev : string) (ords : list Z) : M (option RoleInstance) :=
  match ords with
  | [] => mret None
  | ord :: ords' =>
      match slot replicas topo ord with
      | None => mret None
      | Some inst =>
          if negb (isCreated (Some inst)) then mret None
          else if isHealthy inst then cleanup_loop set replicas topo updateRev ords'
          else if (ord <? tp_partition topo) || at_revision updateRev inst then mret None
          else
            stable ← isStablyUnhealthy set inst;
            mret (if stable : bool then Some inst else None)
      end
  end.

Definition orderedReadyCleanupTarget (set : RoleInstanceSet) (replicas : list (option RoleInstance)) (topo : topology)
    (updateRev : string) : M (option RoleInstance) :=
  cleanup_loop set replicas topo updateRev (ordinals (tp_startOrdinal topo) (tp_endOrdinal topo)).

(** The topology restricted to one ordinal. *)
Definition cleanup_topology (ordinal : Z) (topo : topology) : topology := {|
  tp_startOrdinal := tp_startOrdinal topo; tp_endOrdinal := ordinal + 1;
  tp_reserveOrdinals := tp_reserveOrdinals topo; tp_replicas := tp_replicas topo;
  tp_partition := ordinal; tp_maxUnavailable := tp_maxUnavailable topo; tp_maxSurge := tp_maxSurge topo;
  tp_activeSurge := 0; tp_surgeStart := tp_surgeStart topo; tp_inRollout := tp_inRollout topo |}.

Definition progressOrderedReadyUnhealthyTarget (set : RoleInstanceSet)
    (currentRevision updateRevision : ControllerRevision) (revisions : list ControllerRevision)
    (instances : list (option RoleInstance)) (minReadySeconds : Z) (topo : topology) : M unit :=
  if negb (tp_inRollout topo) then mret tt
  else
    replicas ← gets w_replicas;
    target ← orderedReadyCleanupTarget set replicas topo (cr_Name updateRevision);
    match target with
    | None => mret tt
    | Some target =>
        progressUpdate set currentRevision updateRevision revisions instances minReadySeconds
          (cleanup_topology (getOrdinal target) topo)
    end.

(** * Advancing the current revision *)

Definition base_green (updateRev : string) (o : option RoleInstance) : bool :=
  match o with
  | None => false
  | Some i => isCreated o && negb (isTerminating o) && at_revision updateRev i && isHealthy i
              && negb (rist_ObservedGeneration (ri_status i) <? om_Generation (ri_meta i))
  end.

Definition shouldAdvanceCurrentRevision (set : RoleInstanceSet) (updateRev : string) (topo : topology) : M bool :=
  if negb (tp_inRollout topo) then mret false
  else if 0 <? tp_partition topo then mret false
  else if negb (bool_decide (st_UpdateRevision (rs_status set) = updateRev)) then mret false
  else if st_UpdatedReplicas (rs_status set) <? int32 (tp_replicas topo - tp_partition topo) then mret false
  else
    t1 ← now; t2 ← now;
    u ← gets w_updates;
    let '((satisfied, _, _), u') := Update.SatisfiedExpectations (getInstanceSetKey set) updateRev t1 t2 u in
    modify (with_updates u') ≫= fun _ =>
    if negb satisfied then mret false
    else
      replicas ← gets w_replicas;
      mret (forallb (fun ord => base_green updateRev (slot replicas topo ord))
              (ordinals (tp_partition topo) (tp_replicas topo))).
End rollout.

(** * The update budget *)

(** The instance a call takes out of service: one deleted, or updated in place
    (an in-place update that reports an error may have happened). *)
Definition disrupts (c : api_call) : option RoleInstance :=
  match c with
  | CallDelete i => Some i
  | CallUpdate i (Ok false) => None
  | CallUpdate i _ => Some i
  | _ => None
  end.

(** A base instance the budget protects: not terminating and never observed
    unhealthy in the current snapshot. *)
Definition protected (set : RoleInstanceSet) (h : gmap string instanceHealthState) (replicas : Z) (i : RoleInstance) : bool :=
  (getOrdinal i <? replicas) && negb (isTerminating (Some i)) && bool_decide (getUnhealthySince set i h = None).

Definition disrupts_protected set h replicas (c : api_call) : bool :=
  match disrupts c with Some i => protected set h replicas i | None => false end.

Ltac blia := cbn beta in *; lia.

(** The base instances that are unhealthy or still updating, by name. *)
Definition is_down (i : RoleInstance) : bool := negb (isHealthy i) || negb (CheckRoleInstanceUpdateCompleted i).

Definition known_down (replicas : list (option RoleInstance)) (topo : topology) (ords : list Z) : gset string :=
  list_to_set (ri_Name <$> List.filter is_down (omap (slot replicas topo) ords)).

Lemma known_down_cons replicas topo ord ords :
  known_down replicas topo (ord :: ords)
  = (match slot replicas topo ord with Some i => if is_down i then {[ri_Name i]} else ∅ | None => ∅ end)
    ∪ known_down replicas topo ords.
Proof.
  unfold known_down. cbn [omap list_omap]. destruct (slot replicas topo ord) as [i|]; [|set_solver].
  simpl. destruct (is_down i); set_solver.
Qed.

Section budget.
Context `{Env} `{SortSlice}.
Context (set : RoleInstanceSet) (h : gmap string instanceHealthState) (reps : list (option RoleInstance)) (n : Z).
Abbreviation I := (fun w : world => w_health w = h /\ w_replicas w = reps).
Abbreviation P := (disrupts_protected set h n).

Lemma silent_persist u o : silent I P (persistRolloutReplacementState set u o).
Proof.
  unfold persistRolloutReplacementState. silence. by apply silent_PersistState; [apply _|].
Qed.

Definition at_most (i : RoleInstance) : Z := if protected set h n i then 1 else 0.

Lemma at_most_nonneg i : 0 <= at_most i.
Proof. unfold at_most. destruct (protected _ _ _ _); lia. Qed.
#[local] Hint Resolve at_most_nonneg : core.

Lemma at_most_update i r :
  (if P (CallUpdate i r) then 1 else 0) = match r with Ok false => 0 | _ => at_most i end.
Proof. by destruct r as [[]|]. Qed.

Lemma run_inPlaceUpdate i u revs :
  run I P (inPlaceUpdateInstance set i u revs)
    (fun r k => match r with Ok false => k = 0 | _ => k <= at_most i end).
Proof.
  unfold inPlaceUpdateInstance. destruct (List.find _ _) as [c|]; [|by apply run_ret].
  destruct (negb _); [by apply run_ret|]. apply run_bind_silent; [eauto with silent| |done].
  intros t. set (r := env_update _ _ _ _ _).
  eapply run_bind with (Q1 := fun r' k => r' = Ok tt /\ k = match r with Ok false => 0 | _ => at_most i end).
  - apply run_call_framed; [apply _|]. split; [done|]. apply at_most_update.
  - intros _ n1 _ [_ ->]. eapply run_bind with (Q1 := fun r' k => r' = r /\ k = 0).
    + by apply run_lift.
    + intros inplace n2 _ [<- ->].
      apply run_bind_silent; [silence|intros _; apply run_ret|intros e]; pose proof (at_most_nonneg i); destruct inplace; lia.
    + intros e n2 _ [<- ->]. lia.
  - by intros e n1 _ [? ?].
Qed.

Lemma run_deleteInstance i : run I P (deleteInstance i) (fun _ k => k <= at_most i).
Proof.
  assert (0 <= at_most i) by (unfold at_most; destruct (protected _ _ _ _); blia).
  unfold deleteInstance, DeleteStatefulInstance. destruct (isTerminating _); [by apply run_ret|].
  eapply run_bind with (Q1 := fun _ k => k <= at_most i).
  - apply run_bind_silent; [eauto with silent| |done]. intros t.
    eapply run_bind with (Q1 := fun _ k => k = at_most i).
    + by apply run_call_framed; [apply _|].
    + intros _ n1 _ ->. apply run_lift. blia.
    + intros e n1 _ ->. blia.
  - intros _ n1 _ Hn1. apply run_ret. blia.
  - intros e n1 _ Hn1; blia.
Qed.

(** Updating one target disrupts it at most once, and disrupts nothing else. *)
Lemma run_applyTargetUpdate i c u revs surge :
  run I P (applyTargetUpdate set i c u revs surge) (fun _ k => k <= at_most i).
Proof.
  assert (0 <= at_most i) by (unfold at_most; destruct (protected _ _ _ _); blia).
  unfold applyTargetUpdate. apply run_bind_silent; [|intros _|done].
  { destruct (_ && _); [apply silent_persist|eauto with silent]. }
  eapply run_bind with (Q1 := fun r k => match r with Ok false => k = 0 | _ => k <= at_most i end).
  - destruct (negb _); [apply run_inPlaceUpdate|by apply run_ret].
  - intros [] n1 _ Hn1.
    + apply run_bind_silent; [eauto with silent| |intros e; blia]. intros t. apply run_ret. blia.
    + subst n1. eapply run_bind; [apply run_deleteInstance|..].
      * intros t n1 _ Hn1. apply run_ret. blia.
      * intros e n1 _ Hn1. blia.
  - intros e n1 _ Hn1; blia.
Qed.

Lemma run_isFree i (surge : bool) :
  (surge = true -> n <= getOrdinal i) ->
  run I P (if surge || isTerminating (Some i) then mret true else isStablyUnhealthy set i)
    (fun r k => k = 0 /\ (r = Ok true -> at_most i = 0)).
Proof.
  intros Hs. unfold at_most, protected. destruct (_ || _) eqn:E.
  - apply run_ret. split; [done|]. intros _. apply orb_prop in E as [E|E].
    + specialize (Hs E). replace (getOrdinal i <? n) with false by (symmetry; apply Z.ltb_ge; blia). done.
    + rewrite E. simpl. by rewrite andb_false_r.
  - intros w r w' [Hh Hr] Hw. unfold isStablyUnhealthy, stably_unhealthy in Hw. simpl in Hw.
    injection Hw as <- <-. split; [done|]. exists []. split; [done|]. split; [done|].
    rewrite Hh. intros [= Hb]. destruct (getUnhealthySince set i h) eqn:Hg; [|done].
    rewrite (bool_decide_eq_false_2 (Some _ = None)) by done. by rewrite andb_false_r.
Qed.

Lemma run_progress_loop c u revs topo initial budget targets newly :
  tp_replicas topo = n ->
  run I P (progress_loop set c u revs topo initial budget targets newly)
    (fun _ k => k <= Z.max 0 (budget - initial - newly)).
Proof.
  intros Hn. revert newly. induction targets as [|i targets IH]; intros newly; cbn [progress_loop].
  { apply run_ret. blia. }
  eapply run_bind; [apply run_isFree; intros Hs; breflect; blia|..|].
  2:{ intros e k _ [-> _]. blia. }
  intros isFree n1 _ [-> Hfree]. destruct (negb isFree && _) eqn:E.
  { apply run_bind_silent; [eauto with silent| |intros e; blia]. intros hh.
    apply run_bind_silent; [silence| |intros e; blia]. intros _.
    eapply run_conseq; [apply IH|]. intros r k _ Hk. blia. }
  destruct (isTerminating (Some i)).
  { eapply run_conseq; [apply IH|]. intros r k _ Hk. blia. }
  assert (at_most i <= if isFree then 0 else 1) as Hat.
  { destruct isFree; [rewrite Hfree by done; blia|]. unfold at_most. destruct (protected _ _ _ _); blia. }
  assert (isFree = false -> newly + initial < budget) as Hroom.
  { intros ->. simpl in E. rewrite Z.geb_leb in E. breflect. blia. }
  eapply run_bind; [apply run_applyTargetUpdate|..].
  - intros dec n1 _ Hn1. apply run_bind_silent; [silence| |intros e; destruct isFree; blia]. intros _.
    eapply run_conseq; [apply IH|]. intros r k _ Hk. destruct isFree; [blia|]. specialize (Hroom eq_refl). blia.
  - intros e n1 _ Hn1. destruct isFree; [blia|]. specialize (Hroom eq_refl). blia.
Qed.

Lemma run_collect_loop topo m ords minWait out :
  run I P (collect_loop set reps topo m ords minWait out)
    (fun r k => k = 0 /\ (forall s, r = Ok s -> out ∪ known_down reps topo ords ⊆ s)).
Proof.
  revert minWait out. induction ords as [|ord ords IH]; intros minWait out; cbn [collect_loop].
  { apply run_ret. split; [done|]. intros s [= <-]. unfold known_down. set_solver. }
  pose proof (known_down_cons reps topo ord ords) as HK.
  assert (forall minWait' out',
    out ∪ known_down reps topo (ord :: ords) ⊆ out' ∪ known_down reps topo ords ->
    run I P (collect_loop set reps topo m ords minWait' out')
      (fun r k => k = 0 /\ (forall s, r = Ok s -> out ∪ known_down reps topo (ord :: ords) ⊆ s))) as Hgo.
  { intros mw out' Hsub. eapply run_conseq; [apply IH|]. intros r k _ [-> Hs]. split; [done|].
    intros s' ->. by etrans; [|apply Hs]. }
  destruct (slot reps topo ord) as [i|]; [|apply Hgo; set_solver].
  unfold is_down in HK. destruct (negb (isHealthy i) || _) eqn:Hd.
  - apply run_bind_silent; [destruct (negb (isHealthy i)); silence| |done].
    intros _. apply Hgo. set_solver.
  - apply run_bind_silent; [silence| |done]. intros t.
    destruct (isInstanceRunningAndAvailable t i m) as [[] wait]; [apply Hgo; set_solver|].
    destruct (_ && _); [|apply Hgo; set_solver].
    apply run_bind_silent; [silence| |done]. intros _. apply Hgo. set_solver.
Qed.

(** The budget left when a pass starts its updates. *)
Definition update_budget (replicas : list (option RoleInstance)) (topo : topology) (rev : string) : Z :=
  Z.max 0 (tp_maxUnavailable topo + countAvailableSurge replicas topo rev
           - Z.of_nat (size (known_down replicas topo (ordinals (tp_startOrdinal topo) (tp_replicas topo))))).

Lemma run_progressUpdate c u revs instances m topo :
  tp_replicas topo = n ->
  run I P (progressUpdate set c u revs instances m topo) (fun _ k => k <= update_budget reps topo (cr_Name u)).
Proof.
  intros Hn. assert (0 <= update_budget reps topo (cr_Name u)) by (unfold update_budget; lia).
  unfold progressUpdate. do 2 (apply run_bind_silent; [eauto with silent|intros ?|done]).
  apply run_bind_silent; [silence|intros upd|done].
  destruct (Update.SatisfiedExpectations _ _ _ _ _) as [[[sat ?] ?] upd'].
  apply run_bind_silent; [silence|intros _|done]. destruct (negb sat); [by apply run_ret|].
  apply run_bind_silent; [silence|intros modified|done]. destruct modified; [by apply run_ret|].
  eapply run_bind with (Q1 := fun r k => r = Ok reps /\ k = 0).
  - intros w0 r0 w0' [Hh Hr] [= <- <-]. split; [done|]. exists []. by rewrite Hr.
  - intros l k1 _ [[= ->] ->]. eapply run_bind; [apply run_collect_loop|..].
    + intros s k2 _ [-> Hs]. eapply run_conseq; [by apply run_progress_loop|].
      intros r0 k _ Hk. cbn beta in *. specialize (Hs s eq_refl). unfold update_budget.
      assert (size (known_down reps topo (ordinals (tp_startOrdinal topo) (tp_replicas topo))) <= size s)%nat
        by (apply subseteq_size; set_solver). lia.
    + by intros e k2 _ [-> _].
  - by intros e k1 _ [? ->].
Qed.

(** The cleanup of an OrderedReady blocker is an update within its own topology. *)
Lemma run_orderedReady c u revs instances m topo (B : Z) :
  tp_replicas topo = n -> 0 <= B ->
  (forall ord, update_budget reps (cleanup_topology ord topo) (cr_Name u) <= B) ->
  run I P (progressOrderedReadyUnhealthyTarget set c u revs instances m topo) (fun _ k => k <= B).
Proof.
  intros Hn HB Hb. unfold progressOrderedReadyUnhealthyTarget. destruct (negb _); [by apply run_ret|].
  apply run_bind_silent; [eauto with silent| |done]. intros replicas.
  apply run_bind_silent; [|intros [i|]; [|by apply run_ret]|done].
  - unfold orderedReadyCleanupTarget. induction (ordinals _ _) as [|o l IH]; cbn [cleanup_loop]; [eauto with silent|].
    destruct (slot _ _ _) as [i|]; [|eauto with silent]. destruct (negb _); [eauto with silent|].
    destruct (isHealthy i); [done|]. silence.
  - eapply run_conseq; [by apply run_progressUpdate|]. intros r k _ Hk. cbn beta in Hk. specialize (Hb (getOrdinal i)). lia.
Qed.
End budget.

(** One rolling-update pass takes at most
    maxUnavailable + (available surge instances) - (base instances already down)
    further protected base instances out of service, whatever the API server
    answers and however the pass ends. *)
Theorem progressUpdate_budget `{Env} `{SortSlice} set c u revs instances m topo w r w' :
  progressUpdate set c u revs instances m topo w = (r, w') ->
  w_health w' = w_health w /\ w_replicas w' = w_replicas w /\
  exists new, w_trace w' = new ++ w_trace w /\
    countb (disrupts_protected set (w_health w) (tp_replicas topo)) new
    <= Z.max 0 (tp_maxUnavailable topo + countAvailableSurge (w_replicas w) topo (cr_Name u)
                - Z.of_nat (size (known_down (w_replicas w) topo
                                    (ordinals (tp_startOrdinal topo) (tp_replicas topo))))).
Proof.
  intros Hw. destruct (run_progressUpdate set (w_health w) (w_replicas w) (tp_replicas topo) c u revs instances m
                         topo eq_refl w r w') as ([Hh Hr] & new & Ht & Hq); [done|done|].
  split_and!; [done..|]. by exists new.
Qed.

Lemma elem_of_ordinals lo hi o : o ∈ ordinals lo hi <-> lo <= o < hi.
Proof. unfold ordinals. rewrite elem_of_seqZ. lia. Qed.

Lemma base_green_iff rev o :
  base_green rev o = true <->
  exists i, o = Some i /\ isCreated (Some i) = true /\ isTerminating (Some i) = false /\
    getInstanceRevision i = rev /\ isHealthy i = true /\
    om_Generation (ri_meta i) <= rist_ObservedGeneration (ri_status i).
Proof.
  destruct o as [i|]; [|split; [done|naive_solver]]. unfold base_green, at_revision.
  rewrite !andb_true_iff, !negb_true_iff, bool_decide_eq_true, Z.ltb_ge. split.
  - intros [[[[] ?] ?] ?]. by exists i.
  - by intros (? & [= <-] & ? & ? & ? & ? & ?).
Qed.

(** The current revision is advanced exactly in a rollout without partition
    whose recorded status agrees with the revision, with no in-place update
    awaited, and with every base slot created, live, observed, healthy and at
    the new revision. *)
Theorem shouldAdvanceCurrentRevision_iff `{Env} set rev topo w :
  exists b w', shouldAdvanceCurrentRevision set rev topo w = (Ok b, w') /\
    (b = true <->
       tp_inRollout topo = true /\ tp_partition topo <= 0 /\
       st_UpdateRevision (rs_status set) = rev /\
       int32 (tp_replicas topo - tp_partition topo) <= st_UpdatedReplicas (rs_status set) /\
       Update.awaiting (w_updates w) (getInstanceSetKey set) rev = ∅ /\
       forall ord, tp_partition topo <= ord < tp_replicas topo ->
         exists i, slot (w_replicas w) topo ord = Some i /\ isCreated (Some i) = true /\
           isTerminating (Some i) = false /\ getInstanceRevision i = rev /\ isHealthy i = true /\
           om_Generation (ri_meta i) <= rist_ObservedGeneration (ri_status i)) /\
    w_trace w' = w_trace w.
Proof.
  unfold shouldAdvanceCurrentRevision.
  destruct (tp_inRollout topo); [|eexists false, w; split_and!; [done| |done]; naive_solver].
  cbn [negb]. destruct (0 <? tp_partition topo) eqn:Hp.
  { eexists false, w; split_and!; [done| |done]. breflect. split; [done|]. lia. }
  case_bool_decide as Hr; cbn [negb]; [|eexists false, w; split_and!; [done| |done]; naive_solver].
  destruct (st_UpdatedReplicas _ <? _) eqn:Hu.
  { eexists false, w; split_and!; [done| |done]. breflect. split; [done|]. lia. }
  unfold mbind, ST_bind, now, gets, modify, mret, ST_ret. cbn [with_clock w_clock w_updates].
  pose proof (Update.satisfied_awaiting (fun _ _ _ => true) (getInstanceSetKey set) rev (env_now (w_clock w)) (env_now (S (w_clock w)))
                (w_updates w)) as Hsat.
  destruct (Update.SatisfiedExpectations _ _ _ _ _) as [[[sat d] dirty] u']. cbn in Hsat. subst sat.
  case_bool_decide as Ha; cbn [negb]; eexists _, _; (split; [reflexivity|]);
    (split; [|done]); [|naive_solver].
  rewrite forallb_forall. split.
  - intros Hall. breflect. split_and!; try done. intros ord Hord.
    specialize (Hall ord). rewrite <-list_elem_of_In, elem_of_ordinals in Hall. specialize (Hall Hord).
    by apply base_green_iff.
  - intros (_ & _ & _ & _ & _ & Hall) ord Hord. rewrite <-list_elem_of_In, elem_of_ordinals in Hord.
    by apply base_green_iff, Hall.
Qed.

(** * Witnesses *)

Import Cluster.

(** Four healthy old instances, one of them to be replaced at a time. *)
Definition rolling_start : world := Cluster.start Fixture.four_old.

Lemma progressUpdate_budget_witness :
  let p := progressUpdate Fixture.rolling (Cluster.revision "old") (Cluster.revision "new")
             [Cluster.revision "old"; Cluster.revision "new"] Fixture.four_old 0 Fixture.rolling_topology rolling_start in
  countb (disrupts_protected Fixture.rolling ∅ 4) (w_trace p.2) = 1 /\
  exists new, w_trace p.2 = new ++ [] /\ countb (disrupts_protected Fixture.rolling ∅ 4) new <= 1.
Proof.
  intros p. split; [by vm_compute|].
  destruct (progressUpdate_budget Fixture.rolling (Cluster.revision "old") (Cluster.revision "new")
    [Cluster.revision "old"; Cluster.revision "new"] Fixture.four_old 0 Fixture.rolling_topology rolling_start p.1 p.2)
    as (_ & _ & new & Ht & Hn); [by apply surjective_pairing|].
  exists new. split; [exact Ht|]. etrans; [exact Hn|]. by vm_compute.
Defined.
