(* ===== verification/StatefulReconcile.v ===== *)
(** One reconcile pass over a stateful RoleInstanceSet, after
    pkg/reconciler/roleinstanceset/statefulmode/stateful_instance_set_control.go
    (updateStatefulInstanceSet and the functions of its phase B) and
    stateful_instance_set_helper.go (runForAll, runForAllWithBreak).  The
    topology, the rollout and the calls are those of StatefulUtils,
    StatefulRollout and StatefulControl.

    [instances] are the set's instances as the lister returned them; the slots
    of [w_replicas] are the in-range instances by ordinal, an empty slot holding
    the instance to create.  The status under construction is [w_status]. *)

From Stdlib Require Import ZArith Lia Bool Ascii String.
From stdpp Require Import base tactics list strings gmap sets fin_maps.
From S2P Require Import Prelude GoStrings IntOrString Types Expectations Effects StatefulUtils.
From S2P Require Import StatefulControl StatefulRollout.

(** * Phase A *)

Definition computeTopologyForReconcile (set : RoleInstanceSet) (instances : list (option RoleInstance))
    (currentRevision updateRevision : string) : result topology :=
  partition ← computePartition set;
  let specReplicas := default 0 (rss_Replicas (rs_spec set)) in
  let early := rolloutReplacementStateActive (Some set) instances partition specReplicas updateRevision in
  computeTopology set instances currentRevision updateRevision early.

(** The status before any count is filled in. *)
Definition initial_status (set : RoleInstanceSet) (instances : list (option RoleInstance)) (topo : topology)
    (currentRevision updateRevision : string) (collisionCount : Z) (selector : string) : RoleInstanceSetStatus := {|
  st_ObservedGeneration := om_Generation (rs_meta set);
  st_Replicas := 0; st_ReadyReplicas := 0; st_AvailableReplicas := 0; st_CurrentReplicas := 0;
  st_UpdatedReplicas := 0; st_UpdatedReadyReplicas := 0;
  st_ExpectedUpdatedReplicas := int32 (tp_replicas topo - tp_partition topo);
  st_UpdateRevision := updateRevision; st_CurrentRevision := currentRevision;
  st_RolloutReplacementState := inheritedRolloutReplacementState set instances topo updateRevision;
  st_CollisionCount := Some collisionCount; st_LabelSelector := selector;
  st_Conditions := [] |}.

(** * Phase B *)

(** The in-range slots and the condemned instances. *)
Definition in_range (topo : topology) (i : RoleInstance) : bool :=
  instanceInOrdinalRangeWithParams i (tp_startOrdinal topo) (tp_endOrdinal topo) (tp_reserveOrdinals topo).

Definition place_instances (topo : topology) (instances : list RoleInstance)
    : list (option RoleInstance) * list RoleInstance :=
  fold_left (fun '(replicas, condemned) i =>
    let ord := getOrdinal i in
    if in_range topo i then (<[Z.to_nat (ord - tp_startOrdinal topo) := Some i]> replicas, condemned)
    else if ord >=? 0 then (replicas, condemned ++ [i]) else (replicas, condemned))
  instances (replicate (Z.to_nat (tp_endOrdinal topo - tp_startOrdinal topo)) None, []).

(** The empty slots get the instance to create. *)
Definition fill_slots `{PortAllocation} (currentSet updateSet : RoleInstanceSet) (currentRevision updateRevision : string)
    (topo : topology) (replicas : list (option RoleInstance)) : list (option RoleInstance) :=
  imap (fun idx o =>
    let ord := Z.of_nat idx + tp_startOrdinal topo in
    if bool_decide (ord ∈ tp_reserveOrdinals topo) then o
    else match o with
         | Some i => Some i
         | None => Some (newVersionedInstance currentSet updateSet currentRevision updateRevision ord)
         end) replicas.

(** The position of an instance: pointers are compared, not values. *)
Inductive location := Replica (i : nat) | Condemned (i : nat).

#[export] Instance location_eq_dec : EqDecision location.
Proof. solve_decision. Defined.

Definition unhealthy_step (acc : Z * Z * option location) (l : location) (o : option RoleInstance)
    : Z * Z * option location :=
  let '(unhealthy, firstUnhealthyOrdinal, first) := acc in
  match o with
  | None => acc
  | Some i =>
      if isHealthy i then acc
      else if getOrdinal i <? firstUnhealthyOrdinal then (unhealthy + 1, getOrdinal i, Some l)
      else (unhealthy + 1, firstUnhealthyOrdinal, first)
  end.

Definition countUnhealthy (replicas : list (option RoleInstance)) (condemned : list RoleInstance) : Z * option location :=
  let acc1 := fold_left (fun acc '(k, o) => unhealthy_step acc (Replica k) o)
                (imap pair replicas) (0, int32_max, None) in
  let '(n, _, first) := fold_left (fun acc '(k, i) => unhealthy_step acc (Condemned k) (Some i))
                          (rev (imap pair condemned)) acc1 in
  (n, first).

Section reconcile.
Context `{Env} `{PortAllocation} `{SortSlice}.

(** The in-place readiness of every created instance. *)
Fixpoint refresh_created (set : RoleInstanceSet) (replicas : list (option RoleInstance)) : M unit :=
  match replicas with
  | [] => mret tt
  | None :: l => refresh_created set l
  | Some i :: l =>
      if negb (isCreated (Some i)) then refresh_created set l
      else
        '(_, duration) ← refreshInstanceState i;
        (if 0 <? duration then push_duration set duration else mret tt) ≫= fun _ =>
        refresh_created set l
  end.

(** The two booleans are shouldExit and modified. *)
Definition processReplica (set : RoleInstanceSet) (monotonic : bool) (i : nat) : M (bool * bool) :=
  replicas ← gets w_replicas;
  match mjoin (replicas !! i) with
  | None => fail "nil pointer dereference"
  | Some inst =>
      if negb (isCreated (Some inst)) then
        created ← CreateStatefulInstance inst;
        modify (fun w => with_replicas (<[i := Some created]> (w_replicas w)) w) ≫= fun _ =>
        modify (fun w => with_status (add_counts 1 0 (w_status w)) w) ≫= fun _ =>
        (if bool_decide (getInstanceRevision created = st_CurrentRevision (rs_status set))
         then modify (fun w => with_status (add_counts 0 1 (w_status w)) w) else mret tt) ≫= fun _ =>
        mret (if monotonic then (true, false) else (false, true))
      else if negb (isHealthy inst) then
        (if monotonic then pushUnhealthyRetry set inst else mret tt) ≫= fun _ => mret (monotonic, false)
      else mret (false, false)
  end.

Fixpoint runForAllWithBreak (fn : nat -> M (bool * bool)) (monotonic : bool) (ks : list nat) : M bool :=
  match ks with
  | [] => mret false
  | i :: ks' =>
      '(shouldExit, modified) ← fn i;
      if ((shouldExit : bool) && monotonic) || ((modified : bool) && monotonic) then mret true
      else runForAllWithBreak fn monotonic ks'
  end.

Definition processCondemned (firstUnhealthy : option location) (monotonic : bool) (condemned : list RoleInstance)
    (i : nat) : M bool :=
  match condemned !! i with
  | None => fail "index out of range"
  | Some inst =>
      if negb (isCreated (Some inst)) then mret false
      else if monotonic && negb (bool_decide (firstUnhealthy = Some (Condemned i))) && negb (isHealthy inst)
      then mret true
      else DeleteStatefulInstance inst ≫= fun _ => mret false
  end.

Fixpoint runForAll (fn : nat -> M bool) (monotonic : bool) (ks : list nat) : M bool :=
  match ks with
  | [] => mret false
  | i :: ks' =>
      shouldExit ← fn i;
      if (shouldExit : bool) && monotonic then mret true else runForAll fn monotonic ks'
  end.

(** * The pass *)

(** The counts over the slots and the condemned instances, as they stand. *)
Definition final_status (set : RoleInstanceSet) (currentRevision updateRevision : ControllerRevision)
    (condemned : list RoleInstance) : M unit :=
  replicas ← gets w_replicas;
  updateStatus (getMinReadySeconds set) (cr_Name currentRevision) (cr_Name updateRevision)
    (replicas ++ (Some <$> condemned)).

(** Phases C and D. *)
Definition progress_and_advance (set : RoleInstanceSet) (currentRevision updateRevision : ControllerRevision)
    (revisions : list ControllerRevision) (instances : list RoleInstance) (condemned : list RoleInstance)
    (topo : topology) : M unit :=
  let finish := final_status set currentRevision updateRevision condemned in
  attempt (if tp_inRollout topo
           then progressUpdate set currentRevision updateRevision revisions (Some <$> instances)
                  (getMinReadySeconds set) topo
           else mret tt)
    (fun r =>
       match r with
       | Err e => finish ≫= fun _ => fail e
       | Ok _ =>
           finish ≫= fun _ =>
           advance ← shouldAdvanceCurrentRevision set (cr_Name updateRevision) topo;
           if advance : bool
           then modify (fun w => with_status (with_CurrentRevision (cr_Name updateRevision) (w_status w)) w)
           else mret tt
       end).

(** Phase B over the filled slots, then phases C and D. *)
Definition scale_and_progress (set : RoleInstanceSet) (currentRevision updateRevision : ControllerRevision)
    (revisions : list ControllerRevision) (instances : list RoleInstance) (condemned : list RoleInstance)
    (firstUnhealthy : option location) (topo : topology) : M unit :=
  let monotonic := negb (allowsBurst set) in
  let finish := final_status set currentRevision updateRevision condemned in
  replicas ← gets w_replicas;
  attempt (runForAllWithBreak (processReplica set monotonic) monotonic (seq 0 (length replicas)))
    (fun r =>
       match r with
       | Err e => finish ≫= fun _ => fail e
       | Ok true =>
           (if monotonic then
              progressOrderedReadyUnhealthyTarget set currentRevision updateRevision revisions
                (Some <$> instances) (getMinReadySeconds set) topo
            else mret tt) ≫= fun _ => finish
       | Ok false =>
           attempt (runForAll (processCondemned firstUnhealthy monotonic condemned) monotonic
                      (seq 0 (length condemned)))
             (fun r =>
                match r with
                | Err e => finish ≫= fun _ => fail e
                | Ok true => finish
                | Ok false =>
                    progress_and_advance set currentRevision updateRevision revisions instances condemned topo
                end)
       end).

(** [updateStatefulInstanceSet]: the status returned is the [w_status] it ends
    with, beside its error. *)
Definition updateStatefulInstanceSet (set : RoleInstanceSet) (currentRevision updateRevision : ControllerRevision)
    (collisionCount : Z) (instances : list RoleInstance) (revisions : list ControllerRevision) : M unit :=
  let slots := Some <$> instances in
  modify (fun w => with_set set (with_status (rs_status set) w)) ≫= fun _ =>
  selector ← lift (env_selector (rss_Selector (rs_spec set)));
  currentSet ← lift (env_ApplyRevision set currentRevision);
  updateSet ← lift (env_ApplyRevision set updateRevision);
  topo ← lift (computeTopologyForReconcile set slots (cr_Name currentRevision) (cr_Name updateRevision));
  observeInstanceHealth set slots ≫= fun _ =>
  modify (with_status (initial_status set slots topo (cr_Name currentRevision) (cr_Name updateRevision)
                         collisionCount selector)) ≫= fun _ =>
  updateStatus (getMinReadySeconds set) (cr_Name currentRevision) (cr_Name updateRevision) slots ≫= fun _ =>
  let '(found, condemned) := place_instances topo instances in
  let replicas := fill_slots currentSet updateSet (cr_Name currentRevision) (cr_Name updateRevision) topo found in
  let condemned := sort_slice (fun x y => getOrdinal x >? getOrdinal y) condemned in
  let firstUnhealthy := (countUnhealthy replicas condemned).2 in
  modify (with_replicas replicas) ≫= fun _ =>
  if bool_decide (is_Some (om_DeletionTimestamp (rs_meta set))) then mret tt
  else
    persistTerminatingRolloutReplacement set slots topo (cr_Name currentRevision) (cr_Name updateRevision) ≫= fun _ =>
    refresh_created set replicas ≫= fun _ =>
    lift (getScaleMaxUnavailable set) ≫= fun _ =>
    scale_and_progress set currentRevision updateRevision revisions instances condemned firstUnhealthy topo.
End reconcile.

(** * Placement *)

(** The ordinals of the window that no instance holds. *)
Definition missing (topo : topology) (instances : list RoleInstance) : list Z :=
  List.filter (fun ord => negb (bool_decide (ord ∈ getOrdinal <$> instances)))
    (ordinals (tp_startOrdinal topo) (tp_endOrdinal topo)).

Lemma reconcile_topology set instances cr ur t :
  computeTopologyForReconcile set instances cr ur = Ok t ->
  tp_startOrdinal t = 0 /\ tp_reserveOrdinals t = ∅ /\ tp_surgeStart t = tp_replicas t /\
  tp_replicas t = default 0 (rss_Replicas (rs_spec set)) /\ tp_replicas t <= tp_endOrdinal t.
Proof.
  unfold computeTopologyForReconcile. destruct (computePartition set) as [p|]; [|done]. intros Ht.
  apply computeTopology_spec in Ht as (Hms%computeMaxSurge_nonneg & _ & _ & Hr & Hs & Hss & He & Hres & _ & Hcase).
  split_and!; try done. pose proof (countExistingValidSurge_nonneg instances (tp_replicas t) (tp_maxSurge t) ur).
  destruct Hcase as [? _|_ _ ?|_ _ ?]; cbv zeta in *; [lia..|]. destruct (allBaseAtUpdateRevHealthy _ _ _ _); lia.
Qed.

Lemma in_range_iff topo i :
  tp_reserveOrdinals topo = ∅ ->
  in_range topo i = true <-> tp_startOrdinal topo <= getOrdinal i < tp_endOrdinal topo.
Proof.
  intros Hr. unfold in_range, instanceInOrdinalRangeWithParams. rewrite Hr, Z.geb_leb.
  rewrite !andb_true_iff, Z.leb_le, Z.ltb_lt, negb_true_iff, bool_decide_eq_false. set_solver.
Qed.

Section placement.
Context (topo : topology) (Hstart : tp_startOrdinal topo = 0) (Hreserve : tp_reserveOrdinals topo = ∅).

(** What a prefix of the instances has put in place. *)
Lemma place_spec instances found condemned :
  place_instances topo instances = (found, condemned) ->
  length found = Z.to_nat (tp_endOrdinal topo) /\
  (forall k i, found !! k = Some (Some i) -> i ∈ instances /\ getOrdinal i = Z.of_nat k) /\
  (forall k, found !! k = Some None -> Z.of_nat k ∉ getOrdinal <$> instances) /\
  (forall i, i ∈ condemned -> i ∈ instances /\ tp_endOrdinal topo <= getOrdinal i).
Proof.
  revert found condemned. unfold place_instances. rewrite Hstart.
  induction instances as [|i instances IH] using rev_ind; intros found condemned.
  { simpl. intros [= <- <-]. rewrite length_replicate, Z.sub_0_r. split_and!; [done|..].
    - by intros k i [? _]%lookup_replicate_1.
    - intros k _. simpl. by intros ?%elem_of_nil.
    - by intros i ?%elem_of_nil. }
  rewrite fold_left_app. simpl. destruct (fold_left _ instances _) as [f c] eqn:E.
  destruct (IH f c eq_refl) as (Hlen & Hsome & Hnone & Hcond). clear IH E.
  assert (forall o, o ∈ getOrdinal <$> (instances ++ [i]) -> o ∈ getOrdinal <$> instances \/ o = getOrdinal i) as Hords.
  { intros o. rewrite fmap_app. simpl. by intros [?|Ho%list_elem_of_singleton]%elem_of_app; [left|right]. }
  assert (forall j, j ∈ instances -> j ∈ instances ++ [i]) as Hl by (intros; apply elem_of_app; by left).
  assert (i ∈ instances ++ [i]) as Hi_in by (apply elem_of_app; right; by apply list_elem_of_singleton).
  assert (forall k j, f !! k = Some (Some j) -> j ∈ instances ++ [i] /\ getOrdinal j = Z.of_nat k) as Hsome'.
  { intros k j Hk. destruct (Hsome k j Hk). by split; [apply Hl|]. }
  assert (forall j, j ∈ c -> j ∈ instances ++ [i] /\ tp_endOrdinal topo <= getOrdinal j) as Hcond'.
  { intros j Hj. destruct (Hcond j Hj). by split; [apply Hl|]. }
  destruct (in_range topo i) eqn:Hi.
  - rewrite in_range_iff, Hstart in Hi by done. intros [= <- <-]. rewrite Z.sub_0_r. split_and!.
    + by rewrite length_insert.
    + intros k j. rewrite list_lookup_insert_Some. intros [(<- & [= ->] & _)|[_ Hk]]; [split; [done|lia]|].
      by apply Hsome'.
    + intros k. rewrite list_lookup_insert_Some. intros [(_ & [=] & _)|[Hne Hk]].
      intros [Hin|Hin]%Hords; [by apply (Hnone k)|]. lia.
    + done.
  - assert (~ (0 <= getOrdinal i < tp_endOrdinal topo)) as Hout.
    { intros Hr. rewrite <-Hstart in Hr. apply in_range_iff in Hr; [congruence|done]. }
    assert (forall k, f !! k = Some None -> Z.of_nat k ∉ getOrdinal <$> (instances ++ [i])) as Hn.
    { intros k Hk [Hin|Hin]%Hords; [by apply (Hnone k)|]. apply lookup_lt_Some in Hk. lia. }
    destruct (getOrdinal i >=? 0) eqn:Hge; intros [= <- <-]; split_and!; try done.
    intros j [Hj|Hj]%elem_of_app; [by apply Hcond'|].
    apply list_elem_of_singleton in Hj as ->. rewrite Z.geb_leb in Hge. breflect. split; [done|lia].
Qed.
End placement.

(** * Steps whose calls a predicate does not count *)

Section quiet_pass.
Context `{Env} `{SortSlice} (I : world -> Prop) (P : api_call -> bool).
Context (HI : Framed I).
Context (Hrefresh : forall j, P (CallRefresh j) = false) (Hpersist : forall s, P (CallPersist s) = false).

Lemma silent_persistRollout set u o : silent I P (persistRolloutReplacementState set u o).
Proof.
  unfold persistRolloutReplacementState. silence. by apply silent_PersistState.
Qed.

Lemma silent_persistTerminating set instances topo c u :
  silent I P (persistTerminatingRolloutReplacement set instances topo c u).
Proof.
  unfold persistTerminatingRolloutReplacement. destruct (_ || _); [eauto with silent|].
  induction instances as [|[i|] l IH]; cbn [persistTerminating_loop]; [eauto with silent|..];
    (apply silent_bind; [eauto with silent|intros ?]); [|done].
  do 2 (destruct (_ || _); [done|]). apply silent_persistRollout.
Qed.

Lemma silent_refresh_created set replicas : silent I P (refresh_created set replicas).
Proof.
  induction replicas as [|[i|] l IH]; cbn [refresh_created]; [eauto with silent| |done].
  destruct (negb _); [done|]. apply silent_bind; [eauto with silent|]. intros [? d].
  apply silent_bind; [silence|by intros _].
Qed.

Lemma silent_final_status set c u condemned : silent I P (final_status set c u condemned).
Proof. unfold final_status. silence. Qed.

Lemma silent_shouldAdvance set rev topo : silent I P (shouldAdvanceCurrentRevision set rev topo).
Proof. unfold shouldAdvanceCurrentRevision. silence. Qed.

Lemma silent_runForAll_condemned first monotonic condemned ks :
  (forall i, i ∈ condemned -> P (CallDelete i) = false) ->
  silent I P (runForAll (processCondemned first monotonic condemned) monotonic ks).
Proof.
  intros HD. induction ks as [|k ks IH]; cbn [runForAll]; [eauto with silent|].
  apply silent_bind; [|intros b; destruct (_ && _); [eauto with silent|done]].
  unfold processCondemned. destruct (condemned !! k) as [i|] eqn:Hk; [|eauto with silent].
  destruct (negb _); [eauto with silent|]. destruct (_ && _); [eauto with silent|].
  unfold DeleteStatefulInstance. silence. apply silent_call; [done|]. apply HD. by eapply list_elem_of_lookup_2.
Qed.

(** Without a rollout, what follows the creations deletes condemned instances only. *)
Lemma silent_progress_idle set c u revs instances condemned topo :
  tp_inRollout topo = false ->
  silent I P (progress_and_advance set c u revs instances condemned topo).
Proof.
  intros Hr. unfold progress_and_advance. rewrite Hr. apply silent_attempt; [eauto with silent|].
  intros [[]|e]; (apply silent_bind; [apply silent_final_status|intros _]); [|eauto with silent].
  apply silent_bind; [apply silent_shouldAdvance|]. intros b. silence.
Qed.

Section updates.
Context (Hupdate : forall i r, P (CallUpdate i r) = false) (Hdelete : forall i, P (CallDelete i) = false).

Lemma silent_applyTargetUpdate set i c u revs surge : silent I P (applyTargetUpdate set i c u revs surge).
Proof.
  unfold applyTargetUpdate, inPlaceUpdateInstance, deleteInstance, DeleteStatefulInstance.
  apply silent_bind; [destruct (_ && _); [apply silent_persistRollout|eauto with silent]|intros _].
  silence; by apply silent_call.
Qed.

Lemma silent_collect_loop set replicas topo m ords minWait out :
  silent I P (collect_loop set replicas topo m ords minWait out).
Proof.
  revert minWait out. induction ords as [|ord ords IH]; intros mw out; cbn [collect_loop]; [eauto with silent|].
  destruct (slot _ _ _) as [i|]; [|apply IH]. destruct (_ || _).
  - apply silent_bind; [silence|]. intros _. apply IH.
  - apply silent_bind; [eauto with silent|]. intros t. destruct (isInstanceRunningAndAvailable _ _ _) as [[] ?]; [apply IH|].
    destruct (_ && _); [|apply IH]. apply silent_bind; [eauto with silent|]. intros _. apply IH.
Qed.

Lemma silent_progress_loop set c u revs topo initial budget targets newly :
  silent I P (progress_loop set c u revs topo initial budget targets newly).
Proof.
  revert newly. induction targets as [|i targets IH]; intros newly; cbn [progress_loop]; [eauto with silent|].
  apply silent_bind; [destruct (_ || _); eauto with silent|]. intros isFree. destruct (_ && _).
  - apply silent_bind; [eauto with silent|]. intros hh. apply silent_bind; [silence|]. intros _. apply IH.
  - destruct (isTerminating _); [apply IH|]. apply silent_bind; [apply silent_applyTargetUpdate|].
    intros d. apply silent_bind; [silence|]. intros _. apply IH.
Qed.

Lemma silent_progressUpdate set c u revs instances m topo :
  silent I P (progressUpdate set c u revs instances m topo).
Proof.
  unfold progressUpdate. do 3 (apply silent_bind; [eauto with silent|intros ?]).
  destruct (Update.SatisfiedExpectations _ _ _ _ _) as [[[sat ?] ?] ?].
  apply silent_bind; [eauto with silent|intros _]. destruct (negb sat); [eauto with silent|].
  apply silent_bind; [eauto with silent|intros modified]. destruct modified; [eauto with silent|].
  apply silent_bind; [eauto with silent|intros replicas].
  apply silent_bind; [apply silent_collect_loop|intros s]. apply silent_progress_loop.
Qed.

Lemma silent_cleanupTarget set replicas topo rev : silent I P (orderedReadyCleanupTarget set replicas topo rev).
Proof.
  unfold orderedReadyCleanupTarget. induction (ordinals _ _) as [|o l IH]; cbn [cleanup_loop]; [eauto with silent|].
  destruct (slot _ _ _) as [i|]; [|eauto with silent]. destruct (negb _); [eauto with silent|].
  destruct (isHealthy i); [done|]. silence.
Qed.

Lemma silent_orderedReady set c u revs instances m topo :
  silent I P (progressOrderedReadyUnhealthyTarget set c u revs instances m topo).
Proof.
  unfold progressOrderedReadyUnhealthyTarget. destruct (negb _); [eauto with silent|].
  apply silent_bind; [eauto with silent|]. intros replicas.
  apply silent_bind; [apply silent_cleanupTarget|]. intros [i|]; [apply silent_progressUpdate|eauto with silent].
Qed.

Lemma silent_progress_and_advance set c u revs instances condemned topo :
  silent I P (progress_and_advance set c u revs instances condemned topo).
Proof.
  unfold progress_and_advance. apply silent_attempt; [destruct (tp_inRollout _); [apply silent_progressUpdate|eauto with silent]|].
  intros [[]|e]; (apply silent_bind; [apply silent_final_status|intros _]); [|eauto with silent].
  apply silent_bind; [apply silent_shouldAdvance|]. intros b. silence.
Qed.
End updates.
End quiet_pass.

(** * Taking a pass apart *)

(** A call that only reads, or records, state. *)
Definition quiet_call (c : api_call) : bool :=
  match c with CallRefresh _ | CallPersist _ => true | _ => false end.

Definition loud_call (c : api_call) : bool := negb (quiet_call c).

Section pass.
Context `{Env} `{PortAllocation} `{SortSlice}.
Context (set : RoleInstanceSet) (c u : ControllerRevision) (cc : Z)
  (instances : list RoleInstance) (revs : list ControllerRevision).

(** What phase B starts from. *)
Record ready_for_scale (w w1 : world) (topo : topology) (found : list (option RoleInstance))
    (condemned : list RoleInstance) (cs us : RoleInstanceSet) : Prop := {
  rfs_current : env_ApplyRevision set c = Ok cs;
  rfs_update : env_ApplyRevision set u = Ok us;
  rfs_topo : computeTopologyForReconcile set (Some <$> instances) (cr_Name c) (cr_Name u) = Ok topo;
  rfs_place : place_instances topo instances = (found, condemned);
  rfs_live : om_DeletionTimestamp (rs_meta set) = None;
  rfs_health : w_health w1 = observe_health set (Some <$> instances) (env_now (w_clock w)) (w_health w);
  rfs_replicas : w_replicas w1 = fill_slots cs us (cr_Name c) (cr_Name u) topo found;
  rfs_calls : exists new, w_trace w1 = new ++ w_trace w /\ forall x, x ∈ new -> loud_call x = false
}.

(** A pass ends early, having called nothing but refreshes and the record of a
    replacement, or it reaches phase B. *)
Lemma pass_cases w r w' :
  updateStatefulInstanceSet set c u cc instances revs w = (r, w') ->
  (exists new, w_trace w' = new ++ w_trace w /\ (forall x, x ∈ new -> loud_call x = false) /\
     ((exists e, r = Err e) \/ is_Some (om_DeletionTimestamp (rs_meta set)))) \/
  exists w1 topo found condemned cs us,
    ready_for_scale w w1 topo found condemned cs us /\
    let sorted := sort_slice (fun x y => getOrdinal x >? getOrdinal y) condemned in
    let first := (countUnhealthy (fill_slots cs us (cr_Name c) (cr_Name u) topo found) sorted).2 in
    scale_and_progress set c u revs instances sorted first topo w1 = (r, w').
Proof.
  unfold updateStatefulInstanceSet. intros Hw%modify_inv.
  assert (forall e, w_trace w' = w_trace w -> r = Err e ->
    exists new, w_trace w' = new ++ w_trace w /\ (forall x, x ∈ new -> loud_call x = false) /\
     ((exists e, r = Err e) \/ is_Some (om_DeletionTimestamp (rs_meta set)))) as Hearly.
  { intros e Ht ->. exists []. split_and!; [done|by intros x ?%elem_of_nil|left; eauto]. }
  apply lift_inv in Hw as [(e & _ & -> & ->)|(sel & _ & Hw)]; [left; by eapply Hearly|].
  apply lift_inv in Hw as [(e & _ & -> & ->)|(cs & Hcs & Hw)]; [left; by eapply Hearly|].
  apply lift_inv in Hw as [(e & _ & -> & ->)|(us & Hus & Hw)]; [left; by eapply Hearly|].
  apply lift_inv in Hw as [(e & _ & -> & ->)|(topo & Htopo & Hw)]; [left; by eapply Hearly|].
  apply bind_inv in Hw as [(e & [=] & _)|(? & w1 & Ho & Hw)].
  injection Ho as _ <-. apply modify_inv in Hw. unfold updateStatus in Hw. apply modify_inv in Hw.
  destruct (place_instances topo instances) as [found condemned] eqn:Hplace. apply modify_inv in Hw.
  match type of Hw with _ ?w0 = _ => set (w2 := w0) in Hw end.
  case_bool_decide as Hdel.
  { injection Hw as <- <-. left. exists []. split_and!; [done|by intros ? ?%elem_of_nil|by right]. }
  set (h := observe_health set (Some <$> instances) (env_now (w_clock w)) (w_health w)).
  set (reps := fill_slots cs us (cr_Name c) (cr_Name u) topo found) in *.
  set (I := fun w => w_health w = h /\ w_replicas w = reps).
  assert (I w2) as HI by done. assert (w_trace w2 = w_trace w) as Ht2 by done. clearbody w2.
  set (pre := persistTerminatingRolloutReplacement set (Some <$> instances) topo (cr_Name c) (cr_Name u) ≫= fun _ =>
    refresh_created set reps ≫= fun _ => lift (getScaleMaxUnavailable set)).
  assert (silent I loud_call pre) as Hpre.
  { apply silent_bind; [by apply silent_persistTerminating; [apply _|..]|intros _].
    apply silent_bind; [by apply silent_refresh_created; [apply _|..]|intros _]. apply silent_lift. }
  assert (forall (k : Z -> M unit), (persistTerminatingRolloutReplacement set (Some <$> instances) topo (cr_Name c) (cr_Name u) ≫= fun _ =>
    refresh_created set reps ≫= fun _ => lift (getScaleMaxUnavailable set) ≫= k) w2 = (pre ≫= k) w2) as Hassoc.
  { intros k. unfold pre, mbind, ST_bind. destruct (persistTerminatingRolloutReplacement _ _ _ _ _ _) as [[] ?]; [|done].
    by destruct (refresh_created _ _ _) as [[] ?]. }
  rewrite Hassoc in Hw. apply bind_inv in Hw as [(e & Hp & ->)|(z & w3 & Hp & Hw)];
    destruct (silent_inv _ _ _ _ _ _ _ Hpre HI Hp) as ([Hh Hr] & new & Ht & Hnew); rewrite Ht2 in Ht.
  - left. exists new. split_and!; [done..|left; eauto].
  - right. exists w3, topo, found, condemned, cs, us. split; [|done]. split; try done; [|by exists new].
    destruct (om_DeletionTimestamp _); [|done]. destruct Hdel. eauto.
Qed.
End pass.

(** * The creation loop *)

(** The instances asked to be created, oldest call first, of a trace whose
    newest call comes first. *)
Definition creations (new : list api_call) : list RoleInstance :=
  omap (fun x => match x with CallCreate i => Some i | _ => None end) (rev new).

Definition is_create (x : api_call) : bool := match x with CallCreate _ => true | _ => false end.

Lemma creations_app new2 new1 : creations (new2 ++ new1) = creations new1 ++ creations new2.
Proof. unfold creations. by rewrite rev_app_distr, omap_app. Qed.

Lemma creations_none new : (forall x, x ∈ new -> is_create x = false) -> creations new = [].
Proof.
  unfold creations. intros Hn. apply elem_of_nil_inv. intros i. rewrite list_elem_of_omap.
  intros (x & Hx & Hi). rewrite list_elem_of_In, <-in_rev, <-list_elem_of_In in Hx. specialize (Hn x Hx). by destruct x.
Qed.

(** The slots still to create, in order. *)
Definition pending (slots : list (option RoleInstance)) : list RoleInstance :=
  omap (fun o => if isCreated o then None else o) slots.

Section creation.
Context `{Env} (set : RoleInstanceSet).

Lemma processReplica_created mono k w inst :
  w_replicas w !! k = Some (Some inst) -> isCreated (Some inst) = true ->
  exists w', processReplica set mono k w = (Ok (mono && negb (isHealthy inst), false), w') /\
    w_trace w' = w_trace w /\ w_replicas w' = w_replicas w.
Proof.
  intros Hk Hc. unfold processReplica, gets, mbind at 1, ST_bind at 1. rewrite Hk. cbn [mjoin option_join]. rewrite Hc. cbn [negb].
  destruct (isHealthy inst) eqn:Hh; cbn [negb].
  - exists w. by rewrite andb_false_r.
  - destruct mono; [|by exists w]. rewrite andb_true_r.
    assert (silent (fun v => w_replicas v = w_replicas w) (fun _ => true) (pushUnhealthyRetry set inst)) as Hs.
    { apply silent_pushUnhealthyRetry. by intros v v' _ <-. }
    unfold mbind, ST_bind. destruct (pushUnhealthyRetry set inst w) as [r1 w1] eqn:E.
    destruct (silent_inv _ _ _ _ _ _ _ Hs eq_refl E) as (Hr & new & Ht & Hn).
    assert (r1 = Ok tt) as ->.
    { unfold pushUnhealthyRetry, remainingUnhealthyWindow, mbind, ST_bind, gets, now, push_duration, modify, mret, ST_ret in E.
      repeat case_match; by simplify_eq. }
    exists w1. split_and!; [done| |done]. destruct new as [|x new]; [done|]. by specialize (Hn x ltac:(by left)).
Qed.

Lemma processReplica_pending mono k w inst :
  w_replicas w !! k = Some (Some inst) -> isCreated (Some inst) = false ->
  exists r w', processReplica set mono k w = (r, w') /\ w_trace w' = CallCreate inst :: w_trace w /\
    ((exists e, r = Err e) \/
     (exists j, r = Ok (mono, negb mono) /\ w_replicas w' = <[k := Some j]> (w_replicas w))).
Proof.
  intros Hk Hc. unfold processReplica, gets, mbind at 1, ST_bind at 1. rewrite Hk. cbn [mjoin option_join]. rewrite Hc. cbn [negb].
  unfold CreateStatefulInstance, call, gets, modify, fail, mbind, ST_bind, mret, ST_ret.
  destruct (env_create _ _) as [j| |e]; [..|eexists _, _; split_and!; [done|done|left; eauto]];
    case_bool_decide; destruct mono; eexists _, _; (split; [reflexivity|]); (split; [done|right; eauto]).
Qed.

Lemma take_drop_S {A} (l : list A) k n x :
  l !! k = Some x -> take (S n) (drop k l) = x :: take n (drop (S k) l).
Proof. intros Hk. by rewrite (drop_S _ _ _ Hk). Qed.

Lemma take_drop_insert {A} (l : list A) k n x :
  take n (drop (S k) (<[k := x]> l)) = take n (drop (S k) l).
Proof. by rewrite drop_insert_lt by lia. Qed.

Lemma parallel_loop k n w r w' :
  (forall m, (k <= m < k + n)%nat -> exists inst, w_replicas w !! m = Some (Some inst)) ->
  runForAllWithBreak (processReplica set false) false (seq k n) w = (r, w') ->
  exists new, w_trace w' = new ++ w_trace w /\ (forall x, x ∈ new -> is_create x = true) /\
    creations new `prefix_of` pending (take n (drop k (w_replicas w))) /\
    ((r = Ok false /\ creations new = pending (take n (drop k (w_replicas w)))) \/ exists e, r = Err e).
Proof.
  revert k w. induction n as [|n IH]; intros k w Hslots; cbn [seq runForAllWithBreak].
  { intros [= <- <-]. exists []. split_and!; [done|by intros ? ?%elem_of_nil|by exists []|by left]. }
  destruct (Hslots k) as [inst Hk]; [lia|]. intros Hw. rewrite (take_drop_S _ _ _ _ Hk).
  destruct (isCreated (Some inst)) eqn:Hc.
  - destruct (processReplica_created false k w inst Hk Hc) as (w1 & Hp & Ht & Hr).
    apply bind_inv in Hw as [(e & He & _)|(b & w2 & Hb & Hw)]; rewrite Hp in *; [done|].
    injection Hb as <- <-. cbn in Hw. destruct (IH (S k) w1) as (new & Ht' & Hn & Hpre & Hres); [|done|].
    { intros m Hm. rewrite Hr. apply Hslots. lia. }
    rewrite Hr in Hpre, Hres. unfold pending. cbn [omap list_omap]. rewrite Hc.
    exists new. by rewrite Ht', Ht.
  - destruct (processReplica_pending false k w inst Hk Hc) as (r1 & w1 & Hp & Ht & Hcase).
    assert (pending (Some inst :: take n (drop (S k) (w_replicas w)))
            = inst :: pending (take n (drop (S k) (w_replicas w)))) as ->.
    { unfold pending. cbn [omap list_omap]. by rewrite Hc. }
    apply bind_inv in Hw as [(e & He & ->)|(b & w2 & Hb & Hw)]; rewrite Hp in *.
    + injection He as -> ->. exists [CallCreate inst]. split_and!; [done| | |right; eauto].
      * intros x Hx. by apply list_elem_of_singleton in Hx as ->.
      * by eexists.
    + injection Hb as -> ->. destruct Hcase as [[e [=]]|(j & [= ->] & Hr)]. cbn in Hw.
      destruct (IH (S k) w2) as (new & Ht' & Hn & Hpre & Hres); [|done|].
      { intros m Hm. rewrite Hr. rewrite list_lookup_insert_ne by lia. apply Hslots. lia. }
      rewrite Hr, take_drop_insert in Hpre, Hres.
      exists (new ++ [CallCreate inst]). rewrite Ht', Ht, creations_app. split_and!.
      * by rewrite <-app_assoc.
      * intros x [?|Hx]%elem_of_app; [by apply Hn|]. by apply list_elem_of_singleton in Hx as ->.
      * change (creations [CallCreate inst]) with [inst]. by apply prefix_cons.
      * destruct Hres as [[-> ->]|?]; [by left|by right].
Qed.

Lemma ordered_loop k n w r w' :
  (forall m, (k <= m < k + n)%nat -> exists inst, w_replicas w !! m = Some (Some inst)) ->
  runForAllWithBreak (processReplica set true) true (seq k n) w = (r, w') ->
  exists new, w_trace w' = new ++ w_trace w /\
    (new = [] \/ exists m inst, new = [CallCreate inst] /\ (k <= m < k + n)%nat /\
       w_replicas w !! m = Some (Some inst) /\ isCreated (Some inst) = false /\ r <> Ok false /\
       forall l, (k <= l < m)%nat -> exists i, w_replicas w !! l = Some (Some i) /\
         isCreated (Some i) = true /\ isHealthy i = true) /\
    (r = Ok false -> forall l, (k <= l < k + n)%nat -> exists i, w_replicas w !! l = Some (Some i) /\
         isCreated (Some i) = true /\ isHealthy i = true) /\
    (new = [] -> w_replicas w' = w_replicas w).
Proof.
  revert k w. induction n as [|n IH]; intros k w Hslots; cbn [seq runForAllWithBreak].
  { intros [= <- <-]. exists []. split_and!; [done|by left|intros; lia|done]. }
  destruct (Hslots k) as [inst Hk]; [lia|]. intros Hw.
  destruct (isCreated (Some inst)) eqn:Hc.
  - destruct (processReplica_created true k w inst Hk Hc) as (w1 & Hp & Ht & Hr).
    apply bind_inv in Hw as [(e & He & _)|(b & w2 & Hb & Hw)]; rewrite Hp in *; [done|].
    injection Hb as <- <-. destruct (isHealthy inst) eqn:Hh; cbn in Hw.
    + destruct (IH (S k) w1) as (new & Ht' & Hcase & Hall & Hreps); [|done|].
      { intros m Hm. rewrite Hr. apply Hslots. lia. }
      rewrite Hr in Hcase, Hall, Hreps. exists new. rewrite Ht', Ht. split_and!; [done| | |done].
      * destruct Hcase as [->|(m & i & -> & Hm & Hmk & Hmc & Hne & Hlow)]; [by left|right].
        exists m, i. split_and!; [done|lia|lia|done|done|done|]. intros l Hl.
        destruct (decide (l = k)) as [->|]; [by exists inst|]. apply Hlow. lia.
      * intros Hok l Hl. destruct (decide (l = k)) as [->|]; [by exists inst|]. apply Hall; [done|lia].
    + injection Hw as <- <-. exists []. rewrite Ht. split_and!; [done|by left|done|done].
  - destruct (processReplica_pending true k w inst Hk Hc) as (r1 & w1 & Hp & Ht & Hcase).
    assert (exists r2, runForAllWithBreak (processReplica set true) true (seq k (S n)) w = (r2, w1) /\ r2 <> Ok false)
      as (r2 & Hrun & Hne).
    { cbn [seq runForAllWithBreak]. unfold mbind, ST_bind. rewrite Hp.
      destruct Hcase as [[e ->]|(j & -> & _)]; by eexists. }
    assert ((r2, w1) = (r, w')) as [= -> ->] by (rewrite <-Hrun; exact Hw).
    exists [CallCreate inst]. split_and!; [done| |by intros ->|done]. right. exists k, inst.
    split_and!; try done; lia.
Qed.
End creation.

(** * The slots to create *)

Lemma newVersionedInstance_not_created `{PortAllocation} cs us cr ur n :
  isCreated (Some (newVersionedInstance cs us cr ur n)) = false.
Proof. unfold newVersionedInstance, InjectIdentityLabelsIntoComponents. by destruct (bool_decide _). Qed.

Lemma newVersionedInstance_unhealthy `{PortAllocation} cs us cr ur n :
  isHealthy (newVersionedInstance cs us cr ur n) = false.
Proof. unfold newVersionedInstance, InjectIdentityLabelsIntoComponents. by destruct (bool_decide _). Qed.

Lemma filter_In_ext {A} (f g : A -> bool) l : (forall x, x ∈ l -> f x = g x) -> List.filter f l = List.filter g l.
Proof. intros Hfg. apply filter_ext_in. intros x Hx%list_elem_of_In. by apply Hfg. Qed.

Section slots.
Context `{PortAllocation} (cs us : RoleInstanceSet) (cr ur : string).
Abbreviation make := (newVersionedInstance cs us cr ur).

Definition fill_slot (ord : Z) (o : option RoleInstance) : option RoleInstance :=
  match o with Some i => Some i | None => Some (make ord) end.

Definition empty_at (l : list (option RoleInstance)) (n : nat) : bool :=
  match l !! n with Some None => true | _ => false end.

Lemma pending_imap k (l : list (option RoleInstance)) :
  (forall j i, l !! j = Some (Some i) -> isCreated (Some i) = true) ->
  pending (imap (fun j o => fill_slot (Z.of_nat j + k) o) l)
  = make <$> List.filter (fun ord => empty_at l (Z.to_nat (ord - k))) (seqZ k (Z.of_nat (length l))).
Proof.
  revert k. induction l as [|o l IH]; intros k Hc; [done|].
  rewrite imap_cons. cbn [length]. rewrite seqZ_cons by lia. cbn [List.filter].
  rewrite Z.sub_diag. replace (Z.pred (Z.of_nat (S (length l)))) with (Z.of_nat (length l)) by lia.
  assert (pending (imap ((fun j o => fill_slot (Z.of_nat j + k) o) ∘ S) l)
    = make <$> List.filter (fun ord => empty_at (o :: l) (Z.to_nat (ord - k)))
                 (seqZ (Z.succ k) (Z.of_nat (length l)))) as Htl.
  { rewrite (filter_In_ext _ (fun ord => empty_at l (Z.to_nat (ord - Z.succ k)))).
    - rewrite <-IH by (intros j i Hj; by apply (Hc (S j))). f_equal. apply imap_ext. intros j x _. simpl. f_equal. lia.
    - intros ord Hord%elem_of_seqZ. by replace (Z.to_nat (ord - k)) with (S (Z.to_nat (ord - Z.succ k))) by lia. }
  change (Z.to_nat 0) with 0%nat. unfold empty_at at 1. cbn [lookup list_lookup].
  destruct o as [i|]; unfold pending in *; cbn [omap list_omap fill_slot].
  - by rewrite (Hc 0%nat i eq_refl), Htl.
  - rewrite newVersionedInstance_not_created, Htl. simpl. by replace (0 + k) with k by lia.
Qed.

Lemma pending_fill topo instances found condemned :
  tp_startOrdinal topo = 0 -> tp_reserveOrdinals topo = ∅ ->
  (forall i, i ∈ instances -> isCreated (Some i) = true) ->
  place_instances topo instances = (found, condemned) ->
  pending (fill_slots cs us cr ur topo found) = make <$> missing topo instances.
Proof.
  intros Hs Hr Hc Hp. destruct (place_spec topo Hs Hr _ _ _ Hp) as (Hlen & Hsome & Hnone & _).
  transitivity (pending (imap (fun j o => fill_slot (Z.of_nat j + 0) o) found)).
  { f_equal. unfold fill_slots. apply imap_ext. intros j o _. rewrite Hs, Hr.
    rewrite bool_decide_eq_false_2 by set_solver. done. }
  rewrite pending_imap by (intros j i Hj; apply Hc; by destruct (Hsome j i Hj)). f_equal.
  unfold missing, ordinals. rewrite Hs, Hlen, Z.sub_0_r.
  destruct (decide (0 <= tp_endOrdinal topo)) as [He|He].
  2:{ rewrite !seqZ_nil by lia. done. }
  rewrite Z2Nat.id by done. apply filter_In_ext. intros ord Hord%elem_of_seqZ. rewrite Z.sub_0_r.
  assert (exists o, found !! Z.to_nat ord = Some o) as [o Ho] by (apply lookup_lt_is_Some_2; lia).
  unfold empty_at. rewrite Ho. destruct o as [i|]; symmetry.
  - apply negb_false_iff, bool_decide_eq_true. destruct (Hsome _ _ Ho) as [Hin Hi]. apply list_elem_of_fmap. exists i. split; [lia|done].
  - apply negb_true_iff, bool_decide_eq_false. specialize (Hnone _ Ho). by rewrite Z2Nat.id in Hnone by lia.
Qed.

(** Every slot of the window is filled. *)
Lemma fill_slots_some topo instances found condemned (m : nat) :
  tp_startOrdinal topo = 0 -> tp_reserveOrdinals topo = ∅ ->
  place_instances topo instances = (found, condemned) ->
  length (fill_slots cs us cr ur topo found) = Z.to_nat (tp_endOrdinal topo) /\
  ((m < Z.to_nat (tp_endOrdinal topo))%nat -> exists i, fill_slots cs us cr ur topo found !! m = Some (Some i) /\
     ((i ∈ instances /\ getOrdinal i = Z.of_nat m) \/
      (i = make (Z.of_nat m) /\ Z.of_nat m ∈ missing topo instances))).
Proof.
  intros Hs Hr Hp. destruct (place_spec topo Hs Hr _ _ _ Hp) as (Hlen & Hsome & Hnone & _).
  unfold fill_slots. rewrite length_imap. split; [done|]. intros Hm. rewrite list_lookup_imap, Hs, Hr.
  assert (exists o, found !! m = Some o) as [o Ho] by (apply lookup_lt_is_Some_2; lia).
  rewrite Ho. cbn [fmap option_fmap option_map]. rewrite bool_decide_eq_false_2 by set_solver.
  destruct o as [i|]; eexists; (split; [reflexivity|]).
  - left. by apply Hsome.
  - right. rewrite Z.add_0_r. split; [done|]. unfold missing. apply list_elem_of_In, filter_In.
    rewrite <-list_elem_of_In, elem_of_ordinals, negb_true_iff, bool_decide_eq_false. rewrite Hs. split; [lia|by apply Hnone].
Qed.
End slots.

(** * What a pass creates *)

Section creates.
Context `{Env} `{PortAllocation} `{SortSlice}.
Context (set : RoleInstanceSet) (c u : ControllerRevision) (cc : Z)
  (instances : list RoleInstance) (revs : list ControllerRevision).

Lemma silent_create_rest condemned first topo :
  let monotonic := negb (allowsBurst set) in
  forall r1, silent (fun _ => True) is_create
    (match r1 with
     | Err e => final_status set c u condemned ≫= fun _ => fail e
     | Ok true =>
         (if monotonic then
            progressOrderedReadyUnhealthyTarget set c u revs (Some <$> instances) (getMinReadySeconds set) topo
          else mret tt) ≫= fun _ => final_status set c u condemned
     | Ok false =>
         attempt (runForAll (processCondemned first monotonic condemned) monotonic (seq 0 (length condemned)))
           (fun r => match r with
             | Err e => final_status set c u condemned ≫= fun _ => fail e
             | Ok true => final_status set c u condemned
             | Ok false => progress_and_advance set c u revs instances condemned topo
             end)
     end).
Proof.
  intros mono [[]|e].
  - apply silent_bind; [destruct mono; [by apply silent_orderedReady|eauto with silent]|intros _].
    by apply silent_final_status.
  - apply silent_attempt; [by apply silent_runForAll_condemned|]. intros [[]|e].
    + by apply silent_final_status.
    + by apply silent_progress_and_advance.
    + apply silent_bind; [by apply silent_final_status|intros _]. eauto with silent.
  - apply silent_bind; [by apply silent_final_status|intros _]. eauto with silent.
Qed.

Lemma quiet_not_create new : (forall x, x ∈ new -> loud_call x = false) -> creations new = [].
Proof. intros Hn. apply creations_none. intros x Hx. specialize (Hn x Hx). by destruct x. Qed.

(** The creations of a pass are those of its loop over the slots. *)
Lemma creations_of_scale sorted first topo w1 r w' :
  let monotonic := negb (allowsBurst set) in
  scale_and_progress set c u revs instances sorted first topo w1 = (r, w') ->
  exists r1 w2 new, runForAllWithBreak (processReplica set monotonic) monotonic (seq 0 (length (w_replicas w1))) w1 = (r1, w2) /\
    w_trace w' = new ++ w_trace w2 /\ creations new = [] /\ (forall e, r1 = Err e -> r = Err e).
Proof.
  intros mono Hw. unfold scale_and_progress in Hw. apply bind_inv in Hw as [(e & [=] & _)|(reps & w1' & Hg & Hw)].
  injection Hg as <- <-. unfold attempt at 1 in Hw.
  destruct (runForAllWithBreak _ _ _ _) as [r1 w2] eqn:Hloop.
  destruct (silent_inv _ _ _ _ _ _ _ (silent_create_rest sorted first topo r1) I Hw) as (_ & new & Ht & Hn).
  exists r1, w2, new. split_and!; [done|done|by apply creations_none|].
  intros e ->. by injection Hw as <- _.
Qed.
End creates.

(** C8: With the Parallel policy one pass asks for every missing instance of the
    window, in ordinal order and once each, as newVersionedInstance builds it; a
    pass that ends in an error has asked for a prefix of them. *)
Theorem parallel_creates_missing `{Env} `{PortAllocation} `{SortSlice} set c u cc instances revs w r w' :
  allowsBurst set = true -> om_DeletionTimestamp (rs_meta set) = None ->
  (forall i, i ∈ instances -> isCreated (Some i) = true) ->
  updateStatefulInstanceSet set c u cc instances revs w = (r, w') ->
  exists new, w_trace w' = new ++ w_trace w /\
    ((creations new = [] /\ exists e, r = Err e) \/
     exists cs us topo, env_ApplyRevision set c = Ok cs /\ env_ApplyRevision set u = Ok us /\
       computeTopologyForReconcile set (Some <$> instances) (cr_Name c) (cr_Name u) = Ok topo /\
       let wanted := newVersionedInstance cs us (cr_Name c) (cr_Name u) <$> missing topo instances in
       creations new `prefix_of` wanted /\ (r = Ok tt -> creations new = wanted)).
Proof.
  intros Hburst Hlive Hcreated Hw.
  apply pass_cases in Hw as [(new & Ht & Hn & Hr)|(w1 & topo & found & condemned & cs & us & Hready & Hw)].
  { exists new. split; [done|]. left. split; [by apply quiet_not_create|].
    destruct Hr as [?|[? ?]]; [done|congruence]. }
  destruct Hready as [Hcs Hus Htopo Hplace _ _ Hreps (new0 & Ht0 & Hn0)].
  destruct (reconcile_topology _ _ _ _ _ Htopo) as (Hs & Hres & _).
  apply creations_of_scale in Hw as (r1 & w2 & new2 & Hloop & Ht2 & Hn2 & Herr).
  rewrite Hburst in Hloop. apply parallel_loop in Hloop as (new1 & Ht1 & _ & Hpre & Hres1).
  2:{ intros m Hm. rewrite Hreps in *. destruct (fill_slots_some cs us (cr_Name c) (cr_Name u) topo instances found condemned m)
        as [Hl Hsome]; [done..|]. destruct Hsome as (i & Hi & _); [lia|]. by exists i. }
  rewrite drop_0, take_ge in Hpre, Hres1 by done. rewrite Hreps in Hpre, Hres1.
  erewrite pending_fill in Hpre, Hres1 by done.
  exists (new2 ++ new1 ++ new0). split; [by rewrite Ht2, Ht1, Ht0, !app_assoc|]. right.
  exists cs, us, topo. split_and!; [done..|].
  rewrite !creations_app, Hn2, (quiet_not_create new0) by done. simpl. rewrite app_nil_r. split; [done|].
  intros ->. destruct Hres1 as [[_ ?]|[e ->]]; [done|]. by specialize (Herr e eq_refl).
Qed.

(** C12: With the OrderedReady policy one pass asks for at most one instance, a
    missing one of the window, and only when every lower ordinal holds an instance
    that is created and healthy. *)
Theorem ordered_creates_one `{Env} `{PortAllocation} `{SortSlice} set c u cc instances revs w r w' :
  allowsBurst set = false ->
  (forall i, i ∈ instances -> isCreated (Some i) = true) ->
  updateStatefulInstanceSet set c u cc instances revs w = (r, w') ->
  exists new, w_trace w' = new ++ w_trace w /\
    (creations new = [] \/
     exists cs us topo ord, env_ApplyRevision set c = Ok cs /\ env_ApplyRevision set u = Ok us /\
       computeTopologyForReconcile set (Some <$> instances) (cr_Name c) (cr_Name u) = Ok topo /\
       creations new = [newVersionedInstance cs us (cr_Name c) (cr_Name u) ord] /\
       ord ∈ missing topo instances /\
       forall lower, 0 <= lower < ord -> exists i, i ∈ instances /\ getOrdinal i = lower /\ isHealthy i = true).
Proof.
  intros Hburst Hcreated Hw.
  apply pass_cases in Hw as [(new & Ht & Hn & Hr)|(w1 & topo & found & condemned & cs & us & Hready & Hw)].
  { exists new. split; [done|]. left. by apply quiet_not_create. }
  destruct Hready as [Hcs Hus Htopo Hplace _ _ Hreps (new0 & Ht0 & Hn0)].
  destruct (reconcile_topology _ _ _ _ _ Htopo) as (Hs & Hres & _).
  pose proof (fun m => fill_slots_some cs us (cr_Name c) (cr_Name u) topo instances found condemned m Hs Hres Hplace) as Hfill.
  rewrite <-Hreps in Hfill.
  apply creations_of_scale in Hw as (r1 & w2 & new2 & Hloop & Ht2 & Hn2 & _).
  rewrite Hburst in Hloop. apply ordered_loop in Hloop as (new1 & Ht1 & Hcase & _ & _).
  2:{ intros m Hm. destruct (Hfill m) as [Hl (i & Hi & _)]; [lia|]. by exists i. }
  exists (new2 ++ new1 ++ new0). split; [by rewrite Ht2, Ht1, Ht0, !app_assoc|].
  rewrite !creations_app, Hn2, (quiet_not_create new0) by done. rewrite app_nil_l, app_nil_r.
  destruct Hcase as [->|(m & i & -> & Hm & Hmi & Hic & _ & Hlow)]; [by left|right].
  destruct (Hfill m) as [Hl (i' & Hi' & Hkind)]; [lia|]. rewrite Hmi in Hi'. injection Hi' as <-.
  destruct Hkind as [[Hin _]|[-> Hmiss]]; [rewrite Hcreated in Hic; done|].
  exists cs, us, topo, (Z.of_nat m). split_and!; [done..|].
  intros lower Hlower. destruct (Hlow (Z.to_nat lower)) as (j & Hj & Hjc & Hjh); [lia|].
  destruct (Hfill (Z.to_nat lower)) as [_ (j' & Hj' & Hkind)]; [lia|]. rewrite Hj in Hj'. injection Hj' as <-.
  destruct Hkind as [[Hin Hord]|[-> _]]; [|by rewrite newVersionedInstance_not_created in Hjc].
  exists j. split_and!; [done|lia|done].
Qed.

(** * The availability floor *)

(** What the API server answers to a creation: the object under its own name,
    without a status yet. *)
Definition creates_fresh `{Env} : Prop :=
  forall t i j, env_create t i = Created j -> ri_Name j = ri_Name i /\ isHealthy j = false.

(** A slot list after some of the empty slots were created. *)
Definition slots_after (k : nat) (l1 l2 : list (option RoleInstance)) : Prop :=
  forall m, (l2 !! m = l1 !! m) \/
    ((k <= m)%nat /\ exists i j, l1 !! m = Some (Some i) /\ isCreated (Some i) = false /\
       l2 !! m = Some (Some j) /\ isHealthy j = false /\ ri_Name j = ri_Name i).

Section floor.
Context `{Env} (set : RoleInstanceSet) (Hfresh : creates_fresh).

Lemma processReplica_slots mono k w r w' inst :
  w_replicas w !! k = Some (Some inst) -> (isCreated (Some inst) = false -> isHealthy inst = false) ->
  processReplica set mono k w = (r, w') ->
  w_health w' = w_health w /\ (exists new, w_trace w' = new ++ w_trace w /\ forall x, x ∈ new -> is_create x = true) /\
  (w_replicas w' = w_replicas w \/
   exists j, isCreated (Some inst) = false /\ isHealthy j = false /\ ri_Name j = ri_Name inst /\
     w_replicas w' = <[k := Some j]> (w_replicas w)).
Proof.
  intros Hk Hnew Hw. destruct (isCreated (Some inst)) eqn:Hc.
  - assert (silent (fun v => w_health v = w_health w /\ w_replicas v = w_replicas w) (fun _ => true)
              (if mono then pushUnhealthyRetry set inst else mret tt)) as Hs.
    { destruct mono; [apply silent_pushUnhealthyRetry; apply _|eauto with silent]. }
    unfold processReplica, gets, mbind at 1, ST_bind at 1 in Hw. rewrite Hk in Hw. cbn [mjoin option_join] in Hw.
    rewrite Hc in Hw. cbn [negb] in Hw. destruct (negb (isHealthy inst)).
    + apply bind_inv in Hw as [(e & Hp & ->)|([] & w1 & Hp & [= <- <-])];
        destruct (silent_inv _ _ _ _ _ _ _ Hs ltac:(done) Hp) as ([Hh Hr] & new & Ht & Hn);
        (destruct new as [|x new]; [|by specialize (Hn x ltac:(by left))]);
        (split_and!; [done| |by left]); exists []; split; [done|by intros ? ?%elem_of_nil|done|by intros ? ?%elem_of_nil].
    + injection Hw as <- <-. split_and!; [done| |by left]. exists []. split; [done|by intros ? ?%elem_of_nil].
  - unfold processReplica, gets, mbind at 1, ST_bind at 1 in Hw. rewrite Hk in Hw. cbn [mjoin option_join] in Hw.
    rewrite Hc in Hw. cbn [negb] in Hw.
    assert (forall t, exists new, CallCreate inst :: t = new ++ t /\ forall x, x ∈ new -> is_create x = true) as Hcall.
    { intros t. exists [CallCreate inst]. split; [done|]. intros x Hx. by apply list_elem_of_singleton in Hx as ->. }
    unfold CreateStatefulInstance, call, gets, modify, fail, mbind, ST_bind, mret, ST_ret in Hw.
    destruct (env_create _ _) as [j| |e] eqn:Hj.
    + destruct (Hfresh _ _ _ Hj). case_bool_decide; simplify_eq; (split_and!; [done|apply Hcall|right; by exists j]).
    + case_bool_decide; simplify_eq; (split_and!; [done|apply Hcall|right; exists inst; by eauto]).
    + simplify_eq. split_and!; [done|apply Hcall|by left].
Qed.

Lemma loop_slots mono k n w r w' :
  (forall m, (k <= m < k + n)%nat -> exists inst, w_replicas w !! m = Some (Some inst) /\
     (isCreated (Some inst) = false -> isHealthy inst = false)) ->
  runForAllWithBreak (processReplica set mono) mono (seq k n) w = (r, w') ->
  w_health w' = w_health w /\ (exists new, w_trace w' = new ++ w_trace w /\ forall x, x ∈ new -> is_create x = true) /\
  slots_after k (w_replicas w) (w_replicas w').
Proof.
  revert k w. induction n as [|n IH]; intros k w Hslots; cbn [seq runForAllWithBreak].
  { intros [= <- <-]. split_and!; [done|exists []; split; [done|by intros ? ?%elem_of_nil]|by left]. }
  destruct (Hslots k) as (inst & Hk & Hnew); [lia|]. intros Hw.
  assert (forall r1 w1, processReplica set mono k w = (r1, w1) ->
    w_health w1 = w_health w /\ (exists new, w_trace w1 = new ++ w_trace w /\ forall x, x ∈ new -> is_create x = true) /\
    slots_after k (w_replicas w) (w_replicas w1) /\ forall m, m <> k -> w_replicas w1 !! m = w_replicas w !! m) as Hstep.
  { intros r1 w1 Hp. destruct (processReplica_slots _ _ _ _ _ _ Hk Hnew Hp) as (Hh & Ht & Hr).
    destruct Hr as [->|(j & Hc & Hj & Hname & ->)]; [split_and!; [done..|by left|done]|].
    split_and!; [done..| |intros m Hm; by rewrite list_lookup_insert_ne].
    intros m. destruct (decide (m = k)) as [->|]; [right; split; [done|]|left; by rewrite list_lookup_insert_ne].
    exists inst, j. split_and!; [done..| |done|done]. apply list_lookup_insert_eq. by eapply lookup_lt_Some. }
  apply bind_inv in Hw as [(e & Hp & ->)|([ex md] & w1 & Hp & Hw)]; destruct (Hstep _ _ Hp) as (Hh & Ht & Hr & Hne); [done|].
  destruct (_ || _); [by injection Hw as <- <-|].
  destruct (IH (S k) w1) as (Hh' & (new' & Ht' & Hn') & Hr'); [|done|].
  { intros m Hm. rewrite Hne by lia. apply Hslots. lia. }
  destruct Ht as (new & Ht & Hn). split_and!; [by rewrite Hh'|..].
  - exists (new' ++ new). split; [by rewrite Ht', Ht, app_assoc|]. intros x [?|?]%elem_of_app; eauto.
  - intros m. destruct (Hr' m) as [->|(Hm & i & j & Hi & ? & Hj & ? & ?)]; [apply Hr|].
    right. split; [lia|]. exists i, j. rewrite <-Hne by lia. done.
Qed.
End floor.

Lemma countb_inj `{EqDecision A} {B} (g : A -> bool) (f : B -> bool) (key : B -> A) l k :
  NoDup l -> (forall x, x ∈ l -> g x = true -> exists y, y ∈ k /\ f y = true /\ key y = x) ->
  countb g l <= countb f k.
Proof.
  intros Hl Hinj. rewrite !countb_filter, <-(length_fmap key (List.filter f k)).
  apply inj_le, submseteq_length, NoDup_submseteq; [by apply NoDup_ListNoDup, List.NoDup_filter, NoDup_ListNoDup|].
  intros x Hx. apply list_elem_of_In, filter_In in Hx as [Hx%list_elem_of_In Hg].
  destruct (Hinj x Hx Hg) as (y & Hy & Hf & <-). apply list_elem_of_fmap. exists y. split; [done|].
  apply list_elem_of_In, filter_In. by rewrite <-list_elem_of_In.
Qed.

(** The base instances in service, and the surge instances that stand in. *)
Definition base_available (instances : list RoleInstance) (replicas : Z) : Z :=
  countb (fun i => in_ordinals 0 replicas i && negb (is_down i)) instances.

Definition surge_available (instances : list RoleInstance) (topo : topology) (rev : string) : Z :=
  countb (fun i => in_ordinals (tp_surgeStart topo) (tp_endOrdinal topo) i && (serving i && at_revision rev i)) instances.

Section counts.
Context (instances : list RoleInstance) (reps : list (option RoleInstance)) (topo : topology).
Context (Hstart : tp_startOrdinal topo = 0).
(* every slot is filled; one in service is an instance the pass started from *)
Context (Hslots : forall ord, 0 <= ord < Z.of_nat (length reps) -> exists i, slot reps topo ord = Some i /\
  getOrdinal i = ord /\ (isHealthy i = true -> i ∈ instances)).

Lemma slot_length ord i : slot reps topo ord = Some i -> 0 <= ord < Z.of_nat (length reps).
Proof.
  unfold slot. rewrite Hstart, Z.sub_0_r. destruct (ord <? 0) eqn:E; [done|]. breflect. intros Hs.
  destruct (reps !! Z.to_nat ord) eqn:Hl; [|done]. apply lookup_lt_Some in Hl. lia.
Qed.

(** The down slots, which have distinct names, are counted by ordinal. *)
Definition slot_up (ord : Z) : bool := on_instance (fun i => negb (is_down i)) (slot reps topo ord).

Lemma down_slots l :
  NoDup l -> (forall o, o ∈ l -> 0 <= o < Z.of_nat (length reps)) ->
  let down := List.filter is_down (omap (slot reps topo) l) in
  NoDup (ri_Name <$> down) /\
  (forall x, x ∈ ri_Name <$> down -> (parse_instance_name x).2 ∈ l) /\
  Z.of_nat (length down) = countb (fun o => negb (slot_up o)) l.
Proof.
  cbn zeta. induction l as [|o l IH]; intros Hl Hin.
  { split_and!; [constructor|by intros x ?%elem_of_nil|done]. }
  apply NoDup_cons in Hl as [Ho Hl]. destruct (IH Hl) as (Hnd & Hel & Hc); [intros; apply Hin; by right|].
  destruct (Hslots o) as (i & Hi & Hord & _); [apply Hin; by left|].
  assert (omap (slot reps topo) (o :: l) = i :: omap (slot reps topo) l) as -> by (simpl; by rewrite Hi).
  assert (slot_up o = negb (is_down i)) as Hup by (unfold slot_up; by rewrite Hi).
  cbn [List.filter countb]. rewrite Hup.
  assert ((parse_instance_name (ri_Name i)).2 = o) as Hparse by done.
  destruct (is_down i) eqn:Hd; cbn [negb].
  - rewrite fmap_cons. split_and!.
    + apply NoDup_cons. split; [|done]. intros Hx%Hel. by rewrite Hparse in Hx.
    + intros x [->|Hx]%elem_of_cons; [rewrite Hparse; by left|right; by apply Hel].
    + cbn [length]. rewrite Nat2Z.inj_succ, Hc. lia.
  - split_and!; [done|intros x Hx; right; by apply Hel|]. rewrite Hc. lia.
Qed.

Lemma slots_up_count n :
  n <= Z.of_nat (length reps) -> countb slot_up (ordinals 0 n) <= base_available instances n.
Proof.
  intros Hn. apply (countb_inj _ _ getOrdinal); [apply NoDup_seqZ|]. intros o Ho%elem_of_ordinals Hg.
  destruct (Hslots o) as (i & Hi & Hord & Hin); [lia|]. unfold slot_up in Hg. rewrite Hi in Hg. cbn [on_instance] in Hg.
  exists i. split_and!; [|apply andb_true_intro; split; [apply in_ordinals_true; lia|done]|done].
  apply Hin. unfold is_down in Hg. by destruct (isHealthy i).
Qed.

Lemma known_down_size n :
  0 <= n <= Z.of_nat (length reps) -> n - base_available instances n <= Z.of_nat (size (known_down reps topo (ordinals 0 n))).
Proof.
  intros Hn. destruct (down_slots (ordinals 0 n)) as (Hnames & _ & Hcount);
    [apply NoDup_seqZ|intros o Ho%elem_of_ordinals; lia|].
  unfold known_down. rewrite size_list_to_set, length_fmap, Hcount by done.
  pose proof (countb_split (fun _ => true) slot_up (ordinals 0 n)) as Hsp. cbn [andb] in Hsp.
  pose proof (slots_up_count n). rewrite countb_all in Hsp.
  assert (length (ordinals 0 n) = Z.to_nat (n - 0)) as Hlen by apply length_seqZ. change (fun x => slot_up x) with slot_up in Hsp. lia.
Qed.

Lemma surge_count rev hi :
  Z.of_nat (length reps) <= tp_endOrdinal topo ->
  countb (fun ord => on_instance (fun i => serving i && at_revision rev i) (slot reps topo ord)) (ordinals (tp_surgeStart topo) hi)
  <= surge_available instances topo rev.
Proof.
  intros Hend. apply (countb_inj _ _ getOrdinal); [apply NoDup_seqZ|]. intros o Ho Hg. apply elem_of_ordinals in Ho.
  destruct (slot reps topo o) as [i|] eqn:Hi; [|done]. cbn [on_instance] in Hg. pose proof (slot_length _ _ Hi).
  destruct (Hslots o) as (i' & Hi' & Hord & Hin); [lia|]. rewrite Hi in Hi'. injection Hi' as <-.
  exists i. split_and!; [|apply andb_true_intro; split; [apply in_ordinals_true; lia|done]|done].
  apply Hin. apply andb_prop in Hg as [Hs _]. unfold serving in Hs. by apply andb_prop in Hs as [[]%andb_prop _].
Qed.
End counts.

Lemma slots_after_length k l1 l2 : slots_after k l1 l2 -> length l2 = length l1.
Proof.
  intros Hl. assert (forall m, (m < length l2 <-> m < length l1)%nat) as Hm.
  { intros m. rewrite <-!lookup_lt_is_Some. destruct (Hl m) as [->|(_ & i & j & -> & _ & -> & _)]; [done|].
    split; intros _; eauto. }
  destruct (Nat.lt_trichotomy (length l1) (length l2)) as [Hlt|[He|Hlt]]; [apply Hm in Hlt; lia|done|apply Hm in Hlt; lia].
Qed.

(** After the creation loop every slot holds an instance under its ordinal, and
    a healthy one was there before. *)
Lemma filled_slots `{PortAllocation} cs us cr ur topo instances found condemned reps :
  tp_startOrdinal topo = 0 -> tp_reserveOrdinals topo = ∅ -> tp_endOrdinal topo <= int32_max ->
  place_instances topo instances = (found, condemned) ->
  slots_after 0 (fill_slots cs us cr ur topo found) reps ->
  length reps = Z.to_nat (tp_endOrdinal topo) /\
  forall ord, 0 <= ord < Z.of_nat (length reps) -> exists i, slot reps topo ord = Some i /\
    getOrdinal i = ord /\ (isHealthy i = true -> i ∈ instances).
Proof.
  intros Hs Hr Hmax Hp Hafter. pose proof (slots_after_length _ _ _ Hafter) as Hlen.
  pose proof (fun m => fill_slots_some cs us cr ur topo instances found condemned m Hs Hr Hp) as Hfill.
  destruct (Hfill 0%nat) as [Hl _]. split; [by rewrite Hlen|]. intros ord Hord. rewrite Hlen, Hl in Hord.
  destruct (Hfill (Z.to_nat ord)) as [_ (i & Hi & Hkind)]; [lia|].
  assert (getOrdinal i = ord /\ (isHealthy i = true -> i ∈ instances)) as [Hio Hih].
  { destruct Hkind as [[Hin Ho]|[-> _]]; [split; [lia|done]|]. split.
    - rewrite Z2Nat.id by lia. eapply getOrdinal_name; [apply newVersionedInstance_name|]. lia.
    - by rewrite newVersionedInstance_unhealthy. }
  assert (slot reps topo ord = mjoin (reps !! Z.to_nat ord)) as ->.
  { unfold slot. rewrite Hs, Z.sub_0_r. by replace (ord <? 0) with false by (symmetry; apply Z.ltb_ge; lia). }
  destruct (Hafter (Z.to_nat ord)) as [->|(_ & i' & j & Hi' & _ & -> & Hj & Hname)].
  - rewrite Hi. by exists i.
  - exists j. split; [done|]. rewrite Hi in Hi'. injection Hi' as <-. split; [|by rewrite Hj].
    unfold getOrdinal, getParentNameAndOrdinal in *. by rewrite Hname.
Qed.

(** The budget of a pass, in terms of the instances it started from. *)
Definition pass_budget (instances : list RoleInstance) (topo : topology) (rev : string) : Z :=
  Z.max 0 (tp_maxUnavailable topo + surge_available instances topo rev
           - (tp_replicas topo - base_available instances (tp_replicas topo))).

Section pass_floor.
Context `{Env} `{PortAllocation} `{SortSlice} (set : RoleInstanceSet) (c u : ControllerRevision)
  (instances : list RoleInstance) (revs : list ControllerRevision) (topo : topology).
Context (h : gmap string instanceHealthState) (reps : list (option RoleInstance)) (sorted : list RoleInstance).
Context (Hstart : tp_startOrdinal topo = 0).
Context (Hrep : 0 <= tp_replicas topo <= tp_endOrdinal topo) (Hlen : length reps = Z.to_nat (tp_endOrdinal topo)).
Context (Hslots : forall ord, 0 <= ord < Z.of_nat (length reps) -> exists i, slot reps topo ord = Some i /\
  getOrdinal i = ord /\ (isHealthy i = true -> i ∈ instances)).
Context (Hsorted : forall i, i ∈ sorted -> tp_endOrdinal topo <= getOrdinal i).
Abbreviation I := (fun w : world => w_health w = h /\ w_replicas w = reps).
Abbreviation P := (disrupts_protected set h (tp_replicas topo)).
Abbreviation B := (pass_budget instances topo (cr_Name u)).

Lemma pass_budget_bound topo' :
  tp_startOrdinal topo' = 0 -> tp_surgeStart topo' = tp_surgeStart topo -> tp_replicas topo' = tp_replicas topo ->
  tp_maxUnavailable topo' = tp_maxUnavailable topo ->
  update_budget reps topo' (cr_Name u) <= B.
Proof.
  intros Hs Hss Hr Hm. unfold update_budget, pass_budget. rewrite Hs, Hr, Hm.
  assert (slot reps topo' = slot reps topo) as Hslot by (unfold slot; by rewrite Hs, Hstart).
  unfold known_down. rewrite Hslot. fold (known_down reps topo (ordinals 0 (tp_replicas topo))).
  pose proof (known_down_size instances reps topo Hslots (tp_replicas topo) ltac:(lia)).
  assert (countAvailableSurge reps topo' (cr_Name u) <= surge_available instances topo (cr_Name u)).
  { unfold countAvailableSurge. rewrite Hss, Hslot. apply surge_count; [done..|lia]. }
  lia.
Qed.

Lemma run_after_creation (r1 : result bool) first :
  let monotonic := negb (allowsBurst set) in
  run I P
    (match r1 with
     | Err e => final_status set c u sorted ≫= fun _ => fail e
     | Ok true =>
         (if monotonic then
            progressOrderedReadyUnhealthyTarget set c u revs (Some <$> instances) (getMinReadySeconds set) topo
          else mret tt) ≫= fun _ => final_status set c u sorted
     | Ok false =>
         attempt (runForAll (processCondemned first monotonic sorted) monotonic (seq 0 (length sorted)))
           (fun r => match r with
             | Err e => final_status set c u sorted ≫= fun _ => fail e
             | Ok true => final_status set c u sorted
             | Ok false => progress_and_advance set c u revs instances sorted topo
             end)
     end) (fun _ k => k <= B).
Proof.
  intros mono. assert (0 <= B) as HB by (unfold pass_budget; lia).
  assert (forall e, run I P (final_status set c u sorted ≫= fun _ => fail e) (fun (_ : result unit) k => k <= B)) as Herr.
  { intros e. apply run_silent; [|done]. apply silent_bind; [by apply silent_final_status; [apply _|..]|intros _]. eauto with silent. }
  assert (run I P (final_status set c u sorted) (fun _ k => k <= B)) as Hfin.
  { apply run_silent; [|done]. by apply silent_final_status; [apply _|..]. }
  destruct r1 as [[]|e]; [| |apply Herr].
  - eapply run_bind with (Q1 := fun _ k => k <= B).
    + destruct mono; [|by apply run_ret]. apply run_orderedReady; [done..|]. intros ord. by apply pass_budget_bound.
    + intros [] k _ Hk. apply run_silent; [by apply silent_final_status; [apply _|..]|]. intros _. blia.
    + by intros e k _ Hk.
  - eapply run_attempt with (Q1 := fun _ k => k = 0).
    + apply silent_runForAll_condemned; [apply _|]. intros i Hi%Hsorted.
      unfold disrupts_protected, protected. cbn [disrupts]. replace (getOrdinal i <? _) with false by (symmetry; apply Z.ltb_ge; lia). done.
    + intros [[]|e] k _ ->; [done| |apply Herr]. unfold progress_and_advance.
      eapply run_attempt with (Q1 := fun _ k => k <= B).
      * destruct (tp_inRollout topo); [|by apply run_ret]. eapply run_conseq; [by apply run_progressUpdate|].
        intros r k _ Hk. cbn beta in Hk. pose proof (pass_budget_bound topo). cbn beta. etrans; [exact Hk|]. by apply pass_budget_bound.
      * intros [[]|e] k _ Hk; apply run_silent; [|intros _; blia| |intros _; blia].
        -- apply silent_bind; [by apply silent_final_status; [apply _|..]|intros _].
           apply silent_bind; [by apply silent_shouldAdvance; [apply _|..]|]. intros b. silence.
        -- apply silent_bind; [by apply silent_final_status; [apply _|..]|intros _]. eauto with silent.
Qed.
End pass_floor.

Lemma quiet_disrupts `{Env} set h n new :
  (forall x, x ∈ new -> loud_call x = false) -> countb (disrupts_protected set h n) new = 0.
Proof. intros Hn. apply countb_zero. intros x Hx. specialize (Hn x Hx). by destruct x. Qed.

(** A pass stops before it makes a disruptive call, or keeps to the budget of its
    topology. *)
Lemma pass_disruptions `{Env} `{PortAllocation} `{SortSlice} set c u cc instances revs w r w' :
  creates_fresh -> 0 <= default 0 (rss_Replicas (rs_spec set)) ->
  (forall i, i ∈ instances -> isCreated (Some i) = true) ->
  (forall topo, computeTopologyForReconcile set (Some <$> instances) (cr_Name c) (cr_Name u) = Ok topo ->
     tp_endOrdinal topo <= int32_max) ->
  updateStatefulInstanceSet set c u cc instances revs w = (r, w') ->
  let h := observe_health set (Some <$> instances) (env_now (w_clock w)) (w_health w) in
  exists new, w_trace w' = new ++ w_trace w /\
    ((forall x, x ∈ new -> loud_call x = false) \/
     exists topo, computeTopologyForReconcile set (Some <$> instances) (cr_Name c) (cr_Name u) = Ok topo /\
       countb (disrupts_protected set h (tp_replicas topo)) new <= pass_budget instances topo (cr_Name u)).
Proof.
  intros Hfresh Hrep Hcreated Hmax Hw h.
  apply pass_cases in Hw as [(new & Ht & Hn & _)|(w1 & topo & found & condemned & cs & us & Hready & Hw)].
  { exists new. split; [done|]. by left. }
  destruct Hready as [Hcs Hus Htopo Hplace _ Hh Hreps (new0 & Ht0 & Hn0)]. specialize (Hmax _ Htopo).
  destruct (reconcile_topology _ _ _ _ _ Htopo) as (Hs & Hres & Hss & Hr & Hend).
  pose proof (fun m => fill_slots_some cs us (cr_Name c) (cr_Name u) topo instances found condemned m Hs Hres Hplace) as Hfill.
  rewrite <-Hreps in Hfill. unfold scale_and_progress in Hw.
  apply bind_inv in Hw as [(e & [=] & _)|(reps & w1' & Hg & Hw)]. injection Hg as <- <-. unfold attempt at 1 in Hw.
  destruct (runForAllWithBreak _ _ _ _) as [r1 w2] eqn:Hloop.
  apply loop_slots in Hloop as (Hh2 & (new1 & Ht1 & Hn1) & Hafter); [|done|].
  2:{ intros m Hm. destruct (Hfill m) as [Hl (i & Hi & Hkind)]; [lia|]. exists i. split; [done|].
      destruct Hkind as [[Hin _]|[-> _]]; [by rewrite Hcreated|]. by rewrite newVersionedInstance_unhealthy. }
  rewrite Hreps in Hafter. destruct (filled_slots _ _ _ _ _ _ _ _ _ Hs Hres Hmax Hplace Hafter) as [Hlen Hslots].
  destruct (place_spec topo Hs Hres _ _ _ Hplace) as (_ & _ & _ & Hcond).
  set (sorted := sort_slice _ condemned) in *.
  destruct (run_after_creation set c u instances revs topo h (w_replicas w2) sorted Hs ltac:(lia) Hlen Hslots)
    with (r1 := r1) (w := w2) (r := r) (w' := w')
      (first := (countUnhealthy (fill_slots cs us (cr_Name c) (cr_Name u) topo found) sorted).2)
    as (_ & new2 & Ht2 & Hn2); [|by rewrite Hh2, Hh|exact Hw|].
  { intros i Hi. apply Hcond. by rewrite <-(sort_slice_perm (fun x y => getOrdinal x >? getOrdinal y) condemned). }
  exists (new2 ++ new1 ++ new0). split; [by rewrite Ht2, Ht1, Ht0, !app_assoc|].
  right. exists topo. split; [done|]. rewrite !countb_app, (quiet_disrupts _ _ _ new0) by done.
  assert (countb (disrupts_protected set h (tp_replicas topo)) new1 = 0) as ->.
  { apply countb_zero. intros x Hx. specialize (Hn1 x Hx). by destruct x. }
  cbn beta in Hn2. lia.
Qed.

(** The availability floor: a whole reconcile pass takes at most
    maxUnavailable + (serving surge instances) - (replicas - base instances in
    service) protected base instances out of service, deletions, in-place updates
    and failed in-place updates alike, when the API server returns a created
    object as it was sent, without a status. *)
Theorem pass_availability_floor `{Env} `{PortAllocation} `{SortSlice} set c u cc instances revs topo w r w' :
  creates_fresh -> 0 <= default 0 (rss_Replicas (rs_spec set)) ->
  (forall i, i ∈ instances -> isCreated (Some i) = true) ->
  computeTopologyForReconcile set (Some <$> instances) (cr_Name c) (cr_Name u) = Ok topo ->
  tp_endOrdinal topo <= int32_max ->
  updateStatefulInstanceSet set c u cc instances revs w = (r, w') ->
  let h := observe_health set (Some <$> instances) (env_now (w_clock w)) (w_health w) in
  exists new, w_trace w' = new ++ w_trace w /\
    countb (disrupts_protected set h (tp_replicas topo)) new <= pass_budget instances topo (cr_Name u).
Proof.
  intros Hfresh Hrep Hcreated Htopo Hmax Hw h.
  destruct (pass_disruptions set c u cc instances revs w r w') as (new & Ht & Hn); [done..| |done|].
  { intros topo'. rewrite Htopo. by intros [= <-]. }
  exists new. split; [done|]. destruct Hn as [Hn|(topo' & Htopo' & Hn)].
  - rewrite quiet_disrupts by done. unfold pass_budget. lia.
  - rewrite Htopo in Htopo'. by injection Htopo' as <-.
Qed.

(** The calls of the creation loop. *)
Lemma silent_replicas `{Env} P set mono ks :
  (forall i, P (CallCreate i) = false) ->
  silent (fun _ => True) P (runForAllWithBreak (processReplica set mono) mono ks).
Proof.
  intros HP. induction ks as [|k ks IH]; cbn [runForAllWithBreak]; [eauto with silent|].
  apply silent_bind; [|intros [ex md]; destruct (_ || _); [eauto with silent|done]].
  unfold processReplica, CreateStatefulInstance. silence; try (by apply silent_modify); by apply silent_call.
Qed.

(** Touches an instance of the window. *)
Definition touches_window (topo : topology) (x : api_call) : bool :=
  match x with
  | CallDelete i => getOrdinal i <? tp_endOrdinal topo
  | CallUpdate _ _ => true
  | _ => false
  end.

(** Outside a rollout (or with the update paused) a pass updates no instance
    and deletes only instances beyond the window: scaling alone never touches an
    instance that the set still wants. *)
Theorem idle_pass_keeps_window `{Env} `{PortAllocation} `{SortSlice} set c u cc instances revs topo w r w' :
  computeTopologyForReconcile set (Some <$> instances) (cr_Name c) (cr_Name u) = Ok topo ->
  tp_inRollout topo = false ->
  updateStatefulInstanceSet set c u cc instances revs w = (r, w') ->
  exists new, w_trace w' = new ++ w_trace w /\ forall x, x ∈ new -> touches_window topo x = false.
Proof.
  intros Htopo Hidle Hw.
  apply pass_cases in Hw as [(new & Ht & Hn & _)|(w1 & topo' & found & condemned & cs & us & Hready & Hw)].
  { exists new. split; [done|]. intros x Hx. specialize (Hn x Hx). by destruct x. }
  destruct Hready as [_ _ Htopo' Hplace _ _ _ (new0 & Ht0 & Hn0)]. rewrite Htopo in Htopo'. injection Htopo' as <-.
  destruct (reconcile_topology _ _ _ _ _ Htopo) as (Hs & Hres & _).
  destruct (place_spec topo Hs Hres _ _ _ Hplace) as (_ & _ & _ & Hcond).
  set (sorted := sort_slice _ condemned) in *.
  assert (forall i, i ∈ sorted -> touches_window topo (CallDelete i) = false) as Hsorted.
  { intros i Hi. cbn [touches_window]. apply Z.ltb_ge, Hcond.
    by rewrite <-(sort_slice_perm (fun x y => getOrdinal x >? getOrdinal y) condemned). }
  assert (silent (fun _ => True) (touches_window topo)
    (scale_and_progress set c u revs instances sorted
       (countUnhealthy (fill_slots cs us (cr_Name c) (cr_Name u) topo found) sorted).2 topo)) as Hscale.
  { unfold scale_and_progress. apply silent_bind; [eauto with silent|intros reps].
    apply silent_attempt; [by apply silent_replicas|]. intros [[]|e].
    - apply silent_bind; [|intros _; by apply silent_final_status]. destruct (negb _); [|eauto with silent].
      unfold progressOrderedReadyUnhealthyTarget. rewrite Hidle. cbn [negb]. eauto with silent.
    - apply silent_attempt; [by apply silent_runForAll_condemned|]. intros [[]|e].
      + by apply silent_final_status.
      + by apply silent_progress_idle.
      + apply silent_bind; [by apply silent_final_status|intros _]. eauto with silent.
    - apply silent_bind; [by apply silent_final_status|intros _]. eauto with silent. }
  destruct (silent_inv _ _ _ _ _ _ _ Hscale I Hw) as (_ & new & Ht & Hn).
  exists (new ++ new0). split; [by rewrite Ht, Ht0, app_assoc|]. intros x [Hx|Hx]%elem_of_app; [by apply Hn|].
  specialize (Hn0 x Hx). by destruct x.
Qed.

(** A loop over slots that are all created creates nothing. *)
Lemma created_loop `{Env} set mono w r w' :
  (forall m, (m < length (w_replicas w))%nat -> exists i, w_replicas w !! m = Some (Some i) /\ isCreated (Some i) = true) ->
  runForAllWithBreak (processReplica set mono) mono (seq 0 (length (w_replicas w))) w = (r, w') ->
  w_trace w' = w_trace w.
Proof.
  intros Hslots Hloop.
  assert (forall m, (0 <= m < 0 + length (w_replicas w))%nat -> exists i, w_replicas w !! m = Some (Some i)) as Hs.
  { intros m Hm. destruct (Hslots m) as (i & Hi & _); [lia|]. by exists i. }
  destruct mono.
  - destruct (ordered_loop set _ _ _ _ _ Hs Hloop) as (new & Ht & Hcase & _ & _).
    destruct Hcase as [->|(m & i & -> & Hm & Hi & Hc & _)]; [done|].
    destruct (Hslots m) as (j & Hj & Hjc); [lia|]. congruence.
  - destruct (parallel_loop set _ _ _ _ _ Hs Hloop) as (new & Ht & Hn & [l Hpre] & _).
    assert (pending (take (length (w_replicas w)) (drop 0 (w_replicas w))) = []) as Hp.
    { rewrite drop_0, take_ge by done. apply elem_of_nil_inv. intros i. unfold pending. rewrite list_elem_of_omap.
      intros (o & [m Hm]%list_elem_of_lookup_1 & Ho). destruct (Hslots m) as (j & Hj & Hjc); [by eapply lookup_lt_Some|].
      rewrite Hm in Hj. injection Hj as ->. by rewrite Hjc in Ho. }
    rewrite Hp in Hpre. symmetry in Hpre. apply app_eq_nil in Hpre as [Hnil _].
    destruct new as [|x new _] using rev_ind; [done|]. specialize (Hn x ltac:(apply elem_of_app; right; by left)).
    rewrite creations_app in Hnil. by destruct x.
Qed.

(** The steady state: a set out of rollout that has every instance of its
    window and none beyond creates, updates and deletes nothing, whatever the
    health of its instances and whatever the policy. *)
Theorem steady_state_quiet `{Env} `{PortAllocation} `{SortSlice} set c u cc instances revs topo w r w' :
  computeTopologyForReconcile set (Some <$> instances) (cr_Name c) (cr_Name u) = Ok topo ->
  tp_inRollout topo = false -> missing topo instances = [] ->
  (forall i, i ∈ instances -> isCreated (Some i) = true /\ getOrdinal i < tp_endOrdinal topo) ->
  updateStatefulInstanceSet set c u cc instances revs w = (r, w') ->
  exists new, w_trace w' = new ++ w_trace w /\ forall x, x ∈ new -> loud_call x = false.
Proof.
  intros Htopo Hidle Hfull Hin Hw.
  apply pass_cases in Hw as [(new & Ht & Hn & _)|(w1 & topo' & found & condemned & cs & us & Hready & Hw)]; [by exists new|].
  destruct Hready as [_ _ Htopo' Hplace _ _ Hreps (new0 & Ht0 & Hn0)]. rewrite Htopo in Htopo'. injection Htopo' as <-.
  destruct (reconcile_topology _ _ _ _ _ Htopo) as (Hs & Hres & _).
  destruct (place_spec topo Hs Hres _ _ _ Hplace) as (_ & _ & _ & Hcond).
  assert (condemned = []) as ->.
  { apply elem_of_nil_inv. intros i Hi. destruct (Hcond i Hi) as [Hi' ?]. destruct (Hin i Hi'). lia. }
  assert (sort_slice (fun x y => getOrdinal x >? getOrdinal y) (@nil RoleInstance) = []) as Hnil
    by (apply Permutation_nil_r, sort_slice_perm).
  rewrite Hnil in Hw. unfold scale_and_progress in Hw.
  apply bind_inv in Hw as [(e & [=] & _)|(reps & w1' & Hg & Hw)]. injection Hg as <- <-. unfold attempt at 1 in Hw.
  destruct (runForAllWithBreak _ _ _ _) as [r1 w2] eqn:Hloop. apply created_loop in Hloop.
  2:{ intros m Hm. rewrite Hreps in *.
      destruct (fill_slots_some cs us (cr_Name c) (cr_Name u) topo instances found [] m) as [Hl Hf]; [done..|].
      destruct Hf as (i & Hi & [[Hi' _]|[_ Hmiss]]); [lia| |by rewrite Hfull in Hmiss; apply elem_of_nil in Hmiss].
      exists i. split; [done|]. by apply Hin. }
  match type of Hw with ?m w2 = _ => assert (silent (fun _ => True) loud_call m) as Hrest end.
  { destruct r1 as [[]|e].
    - apply silent_bind; [|intros _; by apply silent_final_status]. destruct (negb (allowsBurst set)); [|eauto with silent].
      unfold progressOrderedReadyUnhealthyTarget. rewrite Hidle. cbn [negb]. eauto with silent.
    - apply silent_attempt; [apply silent_runForAll_condemned; [done|by intros i ?%elem_of_nil]|]. intros [[]|e].
      + by apply silent_final_status.
      + by apply silent_progress_idle.
      + apply silent_bind; [by apply silent_final_status|intros _]. eauto with silent.
    - apply silent_bind; [by apply silent_final_status|intros _]. eauto with silent. }
  destruct (silent_inv _ _ _ _ _ _ _ Hrest I Hw) as (_ & new & Ht & Hn).
  exists (new ++ new0). rewrite Ht, Hloop, Ht0, app_assoc. split; [done|].
  intros x [Hx|Hx]%elem_of_app; [by apply Hn|by apply Hn0].
Qed.

(** * Witnesses *)

Import Cluster.

Module Pass.
Import Cluster.
#[export] Instance ports : PortAllocation := Fixture.no_ports.

Definition four : list RoleInstance := map (fun n => Fixture.instance n "old" true) [0; 1; 2; 3].

(** A rolling update of four instances, with a surge of two. *)
Definition rolling (instances : list RoleInstance) : result unit * world :=
  updateStatefulInstanceSet Fixture.rolling (Cluster.revision "old") (Cluster.revision "new") 0 instances
    [Cluster.revision "old"; Cluster.revision "new"] (Cluster.start []).

(** No update: the set of four with an OrderedReady policy and two instances gone. *)
Definition ordered_set : RoleInstanceSet := {|
  rs_meta := rs_meta Fixture.rolling;
  rs_spec := {| rss_Replicas := Some 4; rss_Selector := rss_Selector (rs_spec Fixture.rolling);
    rss_RoleInstanceTemplate := Fixture.spec; rss_PodManagementPolicy := OrderedReadyPodManagement;
    rss_ScaleStrategy := rss_ScaleStrategy (rs_spec Fixture.rolling);
    rss_UpdateStrategy := rss_UpdateStrategy (rs_spec Fixture.rolling);
    rss_RevisionHistoryLimit := None; rss_MinReadySeconds := 0; rss_Lifecycle := None |};
  rs_status := empty_set_status |}.

Definition ordered (instances : list RoleInstance) : result unit * world :=
  updateStatefulInstanceSet ordered_set (Cluster.revision "old") (Cluster.revision "old") 0 instances
    [Cluster.revision "old"] (Cluster.start []).

Definition window (end_ partition : Z) (rollout : bool) : topology := {|
  tp_startOrdinal := 0; tp_endOrdinal := end_; tp_reserveOrdinals := ∅; tp_replicas := 4; tp_partition := partition;
  tp_maxUnavailable := 1; tp_maxSurge := 2; tp_activeSurge := end_ - 4; tp_surgeStart := 4; tp_inRollout := rollout |}.

(** What a pass did, by instance name. *)
Definition call_name (x : api_call) : string :=
  match x with
  | CallCreate i => "create " +:+ ri_Name i
  | CallDelete i => "delete " +:+ ri_Name i
  | CallUpdate i _ => "update " +:+ ri_Name i
  | CallRefresh i => "refresh " +:+ ri_Name i
  | CallPersist _ => "persist"
  | _ => ""
  end.

Definition calls (p : result unit * world) : list string :=
  map call_name (List.filter loud_call (rev (w_trace p.2))).
End Pass.

Example rolling_pass :
  Pass.calls (Pass.rolling Pass.four) = ["create decode-4"; "create decode-5"; "delete decode-3"]%string.
Proof. by vm_compute. Qed.

Example ordered_pass :
  Pass.calls (Pass.ordered [Fixture.instance 0 "old" true; Fixture.instance 3 "old" true; Fixture.instance 7 "old" true])
  = ["create decode-1"]%string.
Proof. by vm_compute. Qed.

Import Pass.

Lemma forallb_elem {A} (f : A -> bool) l : forallb f l = true -> forall x, x ∈ l -> f x = true.
Proof. rewrite forallb_forall. intros Hf x Hx%list_elem_of_In. by apply Hf. Qed.

Lemma cluster_creates_fresh : creates_fresh.
Proof. by intros t i j [= <-]. Qed.

Lemma parallel_creates_missing_witness :
  let p := Pass.rolling Pass.four in
  exists new, w_trace p.2 = new ++ [] /\
    (creations new = newVersionedInstance Fixture.rolling Fixture.rolling "old" "new" <$> [4; 5]) /\ p.1 = Ok tt.
Proof.
  intros p. assert (p.1 = Ok tt) as Hp by by vm_compute.
  destruct (parallel_creates_missing Fixture.rolling (Cluster.revision "old") (Cluster.revision "new") 0 Pass.four
    [Cluster.revision "old"; Cluster.revision "new"] (Cluster.start []) p.1 p.2) as (new & Ht & Hcase);
    [by vm_compute|done| |by apply surjective_pairing|].
  { apply (forallb_elem (fun i => isCreated (Some i))). by vm_compute. }
  exists new. split; [exact Ht|]. split; [|exact Hp].
  destruct Hcase as [(_ & e & He)|(cs & us & topo & Hcs & Hus & Htopo & _ & Hall)]; [congruence|].
  injection Hcs as <-. injection Hus as <-. rewrite (Hall Hp). f_equal.
  assert (computeTopologyForReconcile Fixture.rolling (Some <$> Pass.four) "old" "new" = Ok (Pass.window 6 1 true)) as Hw
    by by vm_compute.
  change (cr_Name (Cluster.revision "old")) with "old"%string in Htopo.
  change (cr_Name (Cluster.revision "new")) with "new"%string in Htopo. rewrite Hw in Htopo. injection Htopo as <-. by vm_compute.
Defined.

Definition ordered_instances : list RoleInstance := [Fixture.instance 0 "old" true; Fixture.instance 3 "old" true].

Lemma ordered_creates_one_witness :
  let p := Pass.ordered ordered_instances in
  Pass.calls p = ["create decode-1"%string] /\ exists new, w_trace p.2 = new ++ [] /\ (length (creations new) <= 1)%nat.
Proof.
  intros p. split; [by vm_compute|].
  destruct (ordered_creates_one Pass.ordered_set (Cluster.revision "old") (Cluster.revision "old") 0 ordered_instances
    [Cluster.revision "old"] (Cluster.start []) p.1 p.2) as (new & Ht & Hcase); [by vm_compute| |by apply surjective_pairing|].
  { apply (forallb_elem (fun i => isCreated (Some i))). by vm_compute. }
  exists new. split; [exact Ht|]. destruct Hcase as [->|(cs & us & topo & ord & _ & _ & _ & -> & _)]; simpl; lia.
Defined.

Lemma pass_availability_floor_witness :
  let p := Pass.rolling Pass.four in
  let P := disrupts_protected Fixture.rolling ∅ 4 in
  countb P (w_trace p.2) = 1 /\ exists new, w_trace p.2 = new ++ [] /\ countb P new <= 1.
Proof.
  intros p P. split; [by vm_compute|].
  destruct (pass_availability_floor Fixture.rolling (Cluster.revision "old") (Cluster.revision "new") 0 Pass.four
    [Cluster.revision "old"; Cluster.revision "new"] (Pass.window 6 1 true) (Cluster.start []) p.1 p.2)
    as (new & Ht & Hn); [exact cluster_creates_fresh|by vm_compute| |by vm_compute|by vm_compute|by apply surjective_pairing|].
  { apply (forallb_elem (fun i => isCreated (Some i))). by vm_compute. }
  exists new. split; [exact Ht|]. assert (pass_budget Pass.four (Pass.window 6 1 true) "new" = 1) as Hb by by vm_compute.
  change (cr_Name (Cluster.revision "new")) with "new"%string in Hn. rewrite Hb in Hn.
  assert (observe_health Fixture.rolling (Some <$> Pass.four) (env_now (w_clock (Cluster.start []))) (w_health (Cluster.start [])) = ∅)
    as Hh by by vm_compute.
  rewrite Hh in Hn. exact Hn.
Defined.

Lemma idle_pass_keeps_window_witness :
  let p := Pass.ordered ordered_instances in
  exists new, w_trace p.2 = new ++ [] /\ forall x, x ∈ new -> touches_window (Pass.window 4 1 false) x = false.
Proof.
  intros p. apply (idle_pass_keeps_window Pass.ordered_set (Cluster.revision "old") (Cluster.revision "old") 0
    ordered_instances [Cluster.revision "old"] (Pass.window 4 1 false) (Cluster.start []) p.1 p.2);
    [by vm_compute|done|by apply surjective_pairing].
Defined.

Lemma steady_state_quiet_witness :
  let p := Pass.ordered Pass.four in
  Pass.calls p = [] /\ exists new, w_trace p.2 = new ++ [] /\ forall x, x ∈ new -> loud_call x = false.
Proof.
  intros p. split; [by vm_compute|].
  apply (steady_state_quiet Pass.ordered_set (Cluster.revision "old") (Cluster.revision "old") 0
    Pass.four [Cluster.revision "old"] (Pass.window 4 1 false) (Cluster.start []) p.1 p.2);
    [by vm_compute|done|by vm_compute| |by apply surjective_pairing].
  intros i Hi. apply (forallb_elem (fun i => isCreated (Some i) && (getOrdinal i <? 4)) Pass.four) in Hi as [? ?%Z.ltb_lt]%andb_prop;
    [done|by vm_compute].
Defined.
