(* ===== verification/StatefulController.v ===== *)
(** Stateful mode, the controller around the pass
    (pkg/reconciler/roleinstanceset/statefulmode:
    stateful_instance_set_controller.go, stateful_instance_set_status_updater.go,
    instance_ref_manager.go and the outer functions of
    stateful_instance_set_control.go).

    [Reconcile] waits for the replacement state it has written, adopts orphan
    revisions, claims instances and runs [UpdateStatefulInstanceSet]: the choice
    of the revisions, the pass of StatefulReconcile, the write of the status and
    the truncation of the history.  The set a reconcile works on is [w_set]. *)
From Stdlib Require Import ZArith Lia Bool Ascii String.
From stdpp Require Import base tactics list strings gmap sets fin_maps.
From S2P Require Import Prelude GoStrings IntOrString Types Expectations Effects Revisions StatefulUtils.
From S2P Require Import StatefulControl StatefulRollout StatefulReconcile.

#[export] Instance revision_client `{Env} : RevisionClient world := {|
  rev_list := fun ns selector => request (CallListRevisions ns selector) (fun t => env_list_revisions t ns selector);
  rev_get := fun ns name => request (CallGetRevision ns name) (fun t => env_get_revision t ns name);
  rev_create := fun r => request (CallCreateRevision r) (fun t => env_create_revision t r);
  rev_update := fun r => request (CallUpdateRevision r) (fun t => env_update_revision t r);
  rev_delete := fun r => request (CallDeleteRevision r) (fun t => env_delete_revision t r) |}.

#[export] Program Instance revision_cache : RevisionCache world := {|
  cache_get := w_cache;
  cache_put := with_cache |}.
Next Obligation. done. Qed.

(** The result of a step as a value. *)
Definition error_of {A} (r : result A) : option error := match r with Ok _ => None | Err e => Some e end.

Section controller.
Context `{Env, PortAllocation, SortSlice, RevisionCodec}.

Definition CachedSet (ns name : string) : M RoleInstanceSet :=
  request (CallCachedSet ns name) (fun t => env_cached_set t ns name).
Definition GetSet (ns name : string) : M RoleInstanceSet :=
  request (CallGetSet ns name) (fun t => env_get_set t ns name).

(** * The status (stateful_instance_set_status_updater.go) *)

Definition rs_with_status (st : RoleInstanceSetStatus) (s : RoleInstanceSet) : RoleInstanceSet :=
  {| rs_meta := rs_meta s; rs_spec := rs_spec s; rs_status := st |}.

(** An attempt on [working], and the object the next one works on.  [set] is the
    snapshot the expected UID, generation and replacement state are taken from. *)
Definition status_attempt (set : RoleInstanceSet) (status : RoleInstanceSetStatus) (working : RoleInstanceSet)
    : M (result unit * RoleInstanceSet) :=
  let expected := st_RolloutReplacementState (rs_status set) in
  let working := rs_with_status status working in
  attempt (request (CallUpdateSetStatus working) (fun t => env_update_set_status t working)) (fun r =>
    match r with
    | Ok written =>
        (if bool_decide (expected = st_RolloutReplacementState (rs_status written)) then mret tt
         else modify (fun w => with_rollouts (ResourceVersion.Expect (rs_meta written) (w_rollouts w)) w)) ≫= fun _ =>
        modify (fun w => with_set (rs_with (om_ResourceVersion (rs_meta written)) status (w_set w)) w) ≫= fun _ =>
        mret (Ok tt, written)
    | Err e =>
        if negb (IsConflict e) then mret (Err e, working)
        else
          attempt (CachedSet (rs_Namespace set) (rs_Name set)) (fun r => mret (
            match r with
            | Ok updated =>
                if negb (bool_decide (rs_UID updated = rs_UID set))
                   || negb (om_Generation (rs_meta updated) =? om_Generation (rs_meta set))
                   || negb (bool_decide (st_RolloutReplacementState (rs_status updated) = expected))
                then (Ok tt, working)
                else if bool_decide (is_Some (om_DeletionTimestamp (rs_meta updated))) then (Ok tt, updated)
                else (Err e, updated)
            | Err _ => (Err e, working)
            end))
    end).

Definition UpdateInstanceSetStatus (status : RoleInstanceSetStatus) : M unit :=
  set ← gets w_set;
  if bool_decide (is_Some (om_DeletionTimestamp (rs_meta set))) then mret tt
  else retry_with DefaultRetry (status_attempt set status) set.

(** * Revisions *)

Definition ListRevisions (set : RoleInstanceSet) : M (list ControllerRevision) :=
  lift (env_selector (rss_Selector (rs_spec set))) ≫= fun _ =>
  ListControllerRevisions (rs_meta set) (rss_Selector (rs_spec set)).

Fixpoint AdoptOrphanRevisions (set : RoleInstanceSet) (revisions : list ControllerRevision) : M unit :=
  match revisions with
  | [] => mret tt
  | r :: l =>
      AdoptControllerRevision "workloads.x-k8s.io/v1alpha2" "RoleInstanceSet" (rs_meta set) r ≫= fun _ =>
      AdoptOrphanRevisions set l
  end.

Definition adoptOrphanRevisions (set : RoleInstanceSet) : M unit :=
  revisions ← ListRevisions set;
  let orphanRevisions := List.filter (fun r => bool_decide (GetControllerOf (cr_meta r) = None)) revisions in
  if (0 <? length orphanRevisions)%nat then
    fresh ← GetSet (rs_Namespace set) (rs_Name set);
    if negb (bool_decide (rs_UID fresh = rs_UID set)) then fail "the original InstanceSet is gone"
    else AdoptOrphanRevisions set orphanRevisions
  else mret tt.

Definition DefaultRevisionHistoryLimit : Z := 10.

(** An absent revision is a nil pointer. *)
Definition truncateHistory (set : RoleInstanceSet) (instances : list RoleInstance) (revisions : list ControllerRevision)
    (current update : option ControllerRevision) : M unit :=
  let live : gset string := list_to_set (map getInstanceRevision instances) in
  TruncateControllerRevisions revisions current update
    (default DefaultRevisionHistoryLimit (rss_RevisionHistoryLimit (rs_spec set)))
    (Some (fun revisionName => bool_decide (revisionName ∈ live))) (Some DeleteControllerRevision).

(** * UpdateStatefulInstanceSet *)

(** pkg/reconciler/utils/revisionadapter. *)
Definition EqualToRevisionHash (controllerKey : string) (obj : ObjectMeta) (hash : string) : bool :=
  bool_decide (label_of (om_Labels obj) ControllerRevisionHashLabelKey = hash).

Definition observe_updated (set : RoleInstanceSet) (updateRevision : string) (instances : list RoleInstance) : M unit :=
  for_each (fun i => modify (fun w => with_updates
    (Update.ObserveUpdated EqualToRevisionHash (getInstanceSetKey set) updateRevision (ri_meta i) (w_updates w)) w)) instances.

(** The revisions are nil when choosing them failed; an error is returned with
    them. *)
Definition performUpdate (fuel : nat) (set : RoleInstanceSet) (instances : list RoleInstance)
    (revisions : list ControllerRevision) : M (option ControllerRevision * option ControllerRevision * option error) :=
  attempt (getInstanceSetRevisions fuel set revisions) (fun r =>
    match r with
    | Err e => mret (None, None, Some e)
    | Ok (currentRevision, updateRevision, collisionCount) =>
        observe_updated set (cr_Name updateRevision) instances ≫= fun _ =>
        attempt (updateStatefulInstanceSet set currentRevision updateRevision collisionCount instances revisions) (fun r =>
          let getStatusErr := error_of r in
          if match getStatusErr with Some e => IsRolloutSpecChanged e | None => false end
          then mret (Some currentRevision, Some updateRevision, getStatusErr)
          else
            currentStatus ← gets w_status;
            attempt (UpdateInstanceSetStatus currentStatus) (fun r => mret (Some currentRevision, Some updateRevision,
              match getStatusErr with Some e => Some e | None => error_of r end)))
    end).

Definition UpdateStatefulInstanceSet (fuel : nat) (set : RoleInstanceSet) (instances : list RoleInstance) : M unit :=
  listed ← ListRevisions set;
  let revisions := SortControllerRevisions listed in
  '(currentRevision, updateRevision, err) ← performUpdate fuel set instances revisions;
  match err with
  | None => truncateHistory set instances revisions currentRevision updateRevision
  | Some e =>
      if IsRolloutSpecChanged e then push_duration set second
      else attempt (truncateHistory set instances revisions currentRevision updateRevision) (fun r =>
        fail (match error_of r with Some e' => Join [e; e'] ", " | None => e end))
  end.

(** * Claiming instances (instance_ref_manager.go) *)

Definition matches (set : RoleInstanceSet) (i : RoleInstance) : bool :=
  match rss_Selector (rs_spec set) with Some s => selector_matches s (ri_Labels i) | None => false end
  && isMemberOf set i.

(** [RecheckDeletionTimestamp] around the uncached read; [None]: adoption may go on. *)
Definition canAdopt (set : RoleInstanceSet) : M (option error) :=
  attempt (GetSet (rs_Namespace set) (rs_Name set)) (fun r => mret (
    match r with
    | Err e => Some ("can't recheck DeletionTimestamp: " +:+ e)
    | Ok fresh =>
        if negb (bool_decide (rs_UID fresh = rs_UID set)) then Some "the original InstanceSet is gone"%string
        else if bool_decide (is_Some (om_DeletionTimestamp (rs_meta fresh))) then Some "the InstanceSet has just been deleted"%string
        else None
    end)).

Definition PatchInstance (i : RoleInstance) (refs : list OwnerReference) : M unit :=
  request (CallGet (om_Namespace (ri_meta i)) (ri_Name i)) (fun t => env_get t (om_Namespace (ri_meta i)) (ri_Name i)) ≫= fun _ =>
  request (CallPatchOwners (ri_Name i) refs) (fun t => env_patch_owners t (ri_Name i) refs).

Definition with_owner_refs (l : list OwnerReference) (i : RoleInstance) : RoleInstance := ri_with_meta (with_owners l (ri_meta i)) i.

(** The instance now owned, if it is; and the errors met. *)
Definition adopt (set : RoleInstanceSet) (i : RoleInstance) : M (option RoleInstance * list error) :=
  if bool_decide (is_Some (om_DeletionTimestamp (ri_meta i))) then mret (None, [])
  else
    match GetControllerOf (ri_meta i) with
    | Some ref => mret (if bool_decide (or_UID ref = rs_UID set) then Some i else None, [])
    | None =>
        if negb (matches set i) then mret (None, [])
        else
          err ← canAdopt set;
          match err with
          | Some e => mret (None, ["can't adopt instance: " +:+ e])
          | None =>
              let refs := (om_OwnerReferences (ri_meta i) ++ [controllerRef set])%list in
              attempt (PatchInstance i refs) (fun r => mret (
                match r with Ok _ => (Some (with_owner_refs refs i), []) | Err e => (None, [e]) end))
          end
    end.

Definition release (set : RoleInstanceSet) (i : RoleInstance) : M (list error) :=
  match GetControllerOf (ri_meta i) with
  | None => mret []
  | Some ref =>
      if negb (bool_decide (or_UID ref = rs_UID set)) then mret []
      else if matches set i then mret []
      else
        let newRefs := List.filter (fun r => negb (bool_decide (or_UID r = rs_UID set))) (om_OwnerReferences (ri_meta i)) in
        attempt (PatchInstance i newRefs) (fun r => mret (match error_of r with Some e => [e] | None => [] end))
  end.

Definition owned (set : RoleInstanceSet) (i : RoleInstance) : bool :=
  match GetControllerOf (ri_meta i) with Some ref => bool_decide (or_UID ref = rs_UID set) | None => false end.

Fixpoint claim_loop (set : RoleInstanceSet) (instances : list RoleInstance) : M (list RoleInstance * list error) :=
  match instances with
  | [] => mret ([], [])
  | i :: l =>
      '(got, errs) ←
        (if owned set i then
           if negb (matches set i) then errs ← release set i; mret (None, errs) else mret (Some i, [])
         else adopt set i);
      '(claimed, errlist) ← claim_loop set l;
      mret (option_list got ++ claimed, errs ++ errlist)%list
  end.

Definition ClaimInstances (set : RoleInstanceSet) (instances : list RoleInstance) : M (list RoleInstance) :=
  '(claimed, errlist) ← claim_loop set instances;
  match errlist with [] => mret claimed | _ => fail (Join errlist ", ") end.

Definition getInstancesForInstanceSet (set : RoleInstanceSet) : M (list RoleInstance) :=
  instances ← request (CallCachedInstances (rs_Namespace set)) (fun t => env_cached_instances t (rs_Namespace set));
  ClaimInstances set instances.

(** * The controller *)

Definition instanceHealthPruneInterval : Z := 60 * second.

(** One entry of the sweep. *)
Definition prune_entry (kv : string * instanceHealthState) : M unit :=
  match cut_slash (chars kv.1) with
  | None => mret tt
  | Some (ns, name) =>
      attempt (CachedSet (of_chars ns) (of_chars name)) (fun r =>
        if match r with
           | Err e => IsNotFound e
           | Ok set => negb (bool_decide (rs_UID set = hs_setUID kv.2))
           end
        then modify (fun w => with_health (delete kv.1 (w_health w)) w)
        else mret tt)
  end.

(** [locked]: another worker is sweeping.  The map is iterated in some order. *)
Definition pruneInstanceHealth (locked : bool) (startTime : Z) (range : list (string * instanceHealthState)) : M unit :=
  last ← gets w_lastHealthPrune;
  if locked || match last with Some t => startTime - t <? instanceHealthPruneInterval | None => false end then mret tt
  else
    modify (with_lastHealthPrune (Some startTime)) ≫= fun _ =>
    for_each prune_entry range.

(** [RequeueAfter] and the error. *)
Definition Result : Type := Z * option error.

Definition rollout_visible (set : RoleInstanceSet) : M bool :=
  t1 ← now; t2 ← now;
  state (fun w => let '((satisfied, _), v) := ResourceVersion.IsSatisfied (rs_meta set) t1 t2 (w_rollouts w) in
                  (satisfied, with_rollouts v w)).

Definition reconcile_set (fuel : nat) (set : RoleInstanceSet) : M Result :=
  visible ← rollout_visible set;
  if negb (visible : bool) then mret (second, None)
  else
    match env_selector (rss_Selector (rs_spec set)) with
    | Err _ => mret (0, None)
    | Ok _ =>
        adoptOrphanRevisions set ≫= fun _ =>
        instances ← getInstancesForInstanceSet set;
        attempt (UpdateStatefulInstanceSet fuel set instances) (fun r =>
          d ← state (fun w => let '(d, s) := Requeue.Pop (getInstanceSetKey set) (w_durations w) in (d, with_durations s w));
          mret (d, error_of r))
    end.

Definition Reconcile (fuel : nat) (locked : bool) (range : gmap string instanceHealthState -> list (string * instanceHealthState))
    (namespace name : string) : M Result :=
  startTime ← now;
  health ← gets w_health;
  pruneInstanceHealth locked startTime (range health) ≫= fun _ =>
  attempt (CachedSet namespace name) (fun r =>
    match r with
    | Err e =>
        if IsNotFound e then
          modify (fun w => with_updates (Update.DeleteExpectations (namespace +:+ "/" +:+ name) (w_updates w)) w) ≫= fun _ =>
          mret (0, None)
        else mret (0, Some e)
    | Ok set => attempt (reconcile_set fuel set) (fun r => mret (match r with Ok res => res | Err e => (0, Some e) end))
    end).
End controller.
