(* ===== verification/StatefulWhole.v ===== *)
(** Stateful mode, what the controller around the pass guarantees: which status
    it writes, availability through a whole update, and the instances it claims. *)
From Stdlib Require Import ZArith Lia Bool Ascii String.
From stdpp Require Import base tactics list strings gmap sets fin_maps.
From S2P Require Import Prelude GoStrings IntOrString Types Expectations Effects Revisions StatefulUtils.
From S2P Require Import RevisionHistory StatefulControl StatefulRollout StatefulReconcile StatefulController.

(** * The status *)

Section status.
Context `{Env}.

(** An object a status may be written on: the snapshot, or a later reading of the
    same set, of the same generation and replacement state, and not being
    deleted. *)
Definition writable (set o : RoleInstanceSet) : Prop :=
  o = set \/
  (exists t, env_cached_set t (rs_Namespace set) (rs_Name set) = Ok o) /\ rs_UID o = rs_UID set /\
  om_Generation (rs_meta o) = om_Generation (rs_meta set) /\
  st_RolloutReplacementState (rs_status o) = st_RolloutReplacementState (rs_status set) /\
  om_DeletionTimestamp (rs_meta o) = None.

Definition is_status_update (c : api_call) : bool := match c with CallUpdateSetStatus _ => true | _ => false end.

(** The calls of an attempt: one write, on a writable object. *)
Definition guarded (set : RoleInstanceSet) (status : RoleInstanceSetStatus) (new : list api_call) : Prop :=
  forall s, CallUpdateSetStatus s ∈ new -> exists o, writable set o /\ s = rs_with_status status o.

(** What an attempt works on next, but for the status it is about to replace. *)
Definition works_on (set : RoleInstanceSet) (status : RoleInstanceSetStatus) (working : RoleInstanceSet) : Prop :=
  exists o, writable set o /\ rs_with_status status working = rs_with_status status o.

Lemma status_attempt_spec set status working w r w' :
  works_on set status working -> status_attempt set status working w = (r, w') ->
  exists res working' new, r = Ok (res, working') /\ w_trace w' = new ++ w_trace w /\ guarded set status new /\
    countb is_status_update new = 1 /\ (forall e, res = Err e -> IsConflict e = true -> works_on set status working').
Proof.
  intros (o & Ho & Hw) (r1 & w1 & Hu & Hr)%attempt_inv. injection Hu as <- <-.
  assert (guarded set status [CallUpdateSetStatus (rs_with_status status working)]) as Hg.
  { intros s Hs%list_elem_of_singleton. injection Hs as ->. eauto. }
  destruct (env_update_set_status _ _) as [written|e].
  - case_bool_decide; injection Hr as <- <-; (do 2 eexists; exists [CallUpdateSetStatus (rs_with_status status working)]); done.
  - destruct (IsConflict e) eqn:Hc; cbn [negb] in Hr.
    2:{ injection Hr as <- <-. do 2 eexists. exists [CallUpdateSetStatus (rs_with_status status working)].
        split_and!; try done. intros e' [= <-]. by rewrite Hc. }
    apply attempt_inv in Hr as (r2 & w2 & Hg2 & Hr). injection Hg2 as <- <-. apply ret_inv in Hr as [-> ->].
    set (calls := [CallCachedSet (rs_Namespace set) (rs_Name set); CallUpdateSetStatus (rs_with_status status working)]).
    assert (guarded set status calls) as Hg2 by (intros s [Hs|Hs]%elem_of_cons; [done|by apply Hg]).
    destruct (env_cached_set _ _ _) as [updated|] eqn:Hread.
    2:{ do 2 eexists. exists calls. split_and!; [done..|]. intros _ _ _. by exists o. }
    destruct (_ || _) eqn:Hsame; [do 2 eexists; by exists calls|].
    destruct (bool_decide (is_Some _)) eqn:Hdel; [do 2 eexists; by exists calls|].
    do 2 eexists. exists calls. split_and!; [done..|]. intros _ _ _. exists updated. split; [|done]. right.
    apply orb_false_iff in Hsame as [[Hu Hgen]%orb_false_iff Hrep]. breflect. split_and!; [eauto|done..|].
    destruct (om_DeletionTimestamp _); [|done]. destruct Hdel. eauto.
Qed.

Lemma retry_status set status n working w r w' :
  works_on set status working -> retry_with n (status_attempt set status) working w = (r, w') ->
  exists new, w_trace w' = new ++ w_trace w /\ guarded set status new /\ countb is_status_update new <= Z.of_nat n + 1.
Proof.
  revert working w. induction n as [|n IH]; intros working w Hwork; cbn [retry_with];
    intros [(e & He & _)|([res working'] & w1 & He & Hr)]%bind_inv;
    eapply status_attempt_spec in He as (res' & wk & new & Heq & Ht & Hg & Hn & Hnext); try done; injection Heq as <- <-.
  - exists new. destruct res; injection Hr as _ <-; (split; [done|split; [done|lia]]).
  - destruct res as [a|e]; [injection Hr as _ <-; exists new; split; [done|split; [done|lia]]|].
    destruct (IsConflict e) eqn:Hc; [|injection Hr as _ <-; exists new; split; [done|split; [done|lia]]].
    apply IH in Hr as (new2 & Ht2 & Hg2 & Hn2); [|by apply (Hnext e)]. exists (new2 ++ new).
    split; [by rewrite Ht2, Ht, app_assoc|]. split; [|rewrite countb_app; lia].
    intros s [Hs|Hs]%elem_of_app; [by apply Hg2|by apply Hg].
Qed.

(** C26: A stale status overwrites nothing: at most five writes are asked for, each of
    the computed status, on the snapshot of the reconcile or on a later reading
    that has the same UID, generation and replacement state and is not being
    deleted; a set being deleted is not written. *)
Theorem status_write_guarded (status : RoleInstanceSetStatus) (w : world) :
  let set := w_set w in
  exists new, w_trace (UpdateInstanceSetStatus status w).2 = new ++ w_trace w /\
    (om_DeletionTimestamp (rs_meta set) <> None -> new = []) /\
    countb is_status_update new <= 5 /\
    forall s, CallUpdateSetStatus s ∈ new -> exists o, writable set o /\ s = rs_with_status status o.
Proof.
  intros set. destruct (UpdateInstanceSetStatus status w) as [r w'] eqn:E. cbn [snd]. revert E.
  unfold UpdateInstanceSetStatus, mbind, ST_bind. cbn [gets]. fold set. case_bool_decide as Hdel.
  - intros [= _ <-]. exists []. split_and!; [done..|]. by intros s ?%elem_of_nil.
  - intros (new & Ht & Hg & Hn)%retry_status; [|by exists set; split; [left|]]. exists new.
    split_and!; [done| |exact Hn|exact Hg]. intros Hd. destruct (om_DeletionTimestamp _); [|done]. destruct Hdel. eauto.
Qed.
End status.

(** * Availability *)

Section whole.
Context `{Env, PortAllocation, SortSlice, RevisionCodec} (I : world -> Prop) (P : api_call -> bool).
Hypothesis HI : Framed I.
Hypothesis HP : forall c, disrupts c = None -> P c = false.

Lemma silent_revisions_choice fuel set revisions : silent I P (getInstanceSetRevisions fuel set revisions).
Proof.
  apply silent_getInstanceSetRevisions; intros; first [by apply silent_posed; [|apply HP]|by apply silent_write].
Qed.

Lemma silent_list set : silent I P (ListRevisions set).
Proof.
  unfold ListRevisions. apply silent_bind; [silence|]. intros _. apply silent_ListRevisions. intros.
  by apply silent_posed; [|apply HP].
Qed.

Lemma silent_observe_updated set u instances : silent I P (observe_updated set u instances).
Proof.
  unfold observe_updated. induction instances as [|i l IH]; cbn [for_each]; [silence|].
  apply silent_bind; [by apply silent_write|]. by intros _.
Qed.

Lemma silent_status_attempt set status working : silent I P (status_attempt set status working).
Proof.
  apply silent_attempt; [by apply silent_posed; [|apply HP]|]. intros [written|e].
  - apply silent_bind; [destruct (bool_decide _); [silence|by apply silent_write]|]. intros _.
    apply silent_bind; [by apply silent_write|]. silence.
  - destruct (negb _); [silence|]. apply silent_attempt; [by apply silent_posed; [|apply HP]|]. silence.
Qed.

Lemma silent_UpdateStatus status : silent I P (UpdateInstanceSetStatus status).
Proof.
  unfold UpdateInstanceSetStatus. apply silent_bind; [silence|]. intros set. destruct (bool_decide _); [silence|].
  apply silent_retry_with. intros s. apply silent_status_attempt.
Qed.

Lemma silent_truncate set instances revisions c u : silent I P (truncateHistory set instances revisions c u).
Proof. apply silent_Truncate. intros. by apply silent_posed; [|apply HP]. Qed.
End whole.

(** What follows the pass. *)
Definition report `{Env} (c u : option ControllerRevision) (r : result unit)
    : M (option ControllerRevision * option ControllerRevision * option error) :=
  if match error_of r with Some e => IsRolloutSpecChanged e | None => false end
  then mret (c, u, error_of r)
  else
    currentStatus ← gets w_status;
    attempt (UpdateInstanceSetStatus currentStatus) (fun r' => mret (c, u,
      match error_of r with Some e => Some e | None => error_of r' end)).

Definition conclude `{Env, PortAllocation, SortSlice, RevisionCodec} set instances revisions
    (p : option ControllerRevision * option ControllerRevision * option error) : M unit :=
  let '(c, u, err) := p in
  match err with
  | None => truncateHistory set instances revisions c u
  | Some e =>
      if IsRolloutSpecChanged e then push_duration set second
      else attempt (truncateHistory set instances revisions c u) (fun r =>
        fail (match error_of r with Some e' => Join [e; e'] ", " | None => e end))
  end.

Lemma silent_conclude `{Env, PortAllocation, SortSlice, RevisionCodec} I P set instances revisions p :
  Framed I -> (forall c, disrupts c = None -> P c = false) -> silent I P (conclude set instances revisions p).
Proof.
  intros HI HP. destruct p as [[c u] [e|]]; cbn [conclude]; [|by apply silent_truncate].
  destruct (IsRolloutSpecChanged e); [silence|]. apply silent_attempt; [by apply silent_truncate|]. intros r. silence.
Qed.

Lemma silent_report `{Env, PortAllocation, SortSlice, RevisionCodec} I P c u r :
  Framed I -> (forall c, disrupts c = None -> P c = false) -> silent I P (report c u r).
Proof.
  intros HI HP. unfold report.
  assert (silent I P (currentStatus ← gets w_status; attempt (UpdateInstanceSetStatus currentStatus) (fun r' =>
    mret (c, u, match error_of r with Some e => Some e | None => error_of r' end)))) as Hw.
  { apply silent_bind; [silence|]. intros st. apply silent_attempt; [by apply silent_UpdateStatus|]. intros r'. silence. }
  destruct (error_of r) as [e|]; [destruct (IsRolloutSpecChanged e); [silence|]|]; exact Hw.
Qed.

Definition disrupting (c : api_call) : bool := bool_decide (is_Some (disrupts c)).

Lemma quiet_no_disruption c : disrupts c = None -> disrupting c = false.
Proof. unfold disrupting. intros ->. by apply bool_decide_eq_false_2; intros [? ?]. Qed.

Definition quiet (new : list api_call) : Prop := forall c, c ∈ new -> disrupts c = None.

Lemma quiet_count new : countb disrupting new = 0 -> quiet new.
Proof.
  intros Hn c Hc. apply (proj1 (countb_zero_iff _ _)) with (x := c) in Hn; [|done]. unfold disrupting in Hn. breflect.
  destruct (disrupts c); [|done]. destruct Hn. eauto.
Qed.

(** The calls of a whole update: none that disrupts, or no more than the budget of
    the topology it worked with. *)
Definition budgeted (set : RoleInstanceSet) (instances : list RoleInstance) (health : gmap string instanceHealthState)
    (new : list api_call) : Prop :=
  quiet new \/
  exists current update topo t,
    computeTopologyForReconcile set (Some <$> instances) current update = Ok topo /\
    countb (disrupts_protected set (observe_health set (Some <$> instances) t health) (tp_replicas topo)) new
      <= pass_budget instances topo update.

Lemma budgeted_app set instances health after new before :
  quiet after -> quiet before -> budgeted set instances health new -> budgeted set instances health (after ++ new ++ before).
Proof.
  intros Ha Hb [Hn|(c & u & topo & t & Ht & Hn)].
  - left. intros x [Hx|[Hx|Hx]%elem_of_app]%elem_of_app; auto.
  - right. exists c, u, topo, t. split; [done|]. rewrite !countb_app.
    rewrite (countb_zero _ after), (countb_zero _ before); [lia|..]; intros x Hx; unfold disrupts_protected;
      by rewrite ?(Ha x Hx), ?(Hb x Hx).
Qed.

Section update.
Context `{Env, PortAllocation, SortSlice, RevisionCodec} (set : RoleInstanceSet) (instances : list RoleInstance).
Hypothesis Hfresh : creates_fresh.
Hypothesis Hreplicas : 0 <= default 0 (rss_Replicas (rs_spec set)).
Hypothesis Hcreated : forall i, i ∈ instances -> isCreated (Some i) = true.
Hypothesis Hsurge : forall s, computeMaxSurge set = Ok s -> default 0 (rss_Replicas (rs_spec set)) + s <= int32_max.

Lemma window_bound c u topo :
  computeTopologyForReconcile set (Some <$> instances) c u = Ok topo -> tp_endOrdinal topo <= int32_max.
Proof.
  unfold computeTopologyForReconcile. destruct (computePartition set) as [p|]; [|done]. intros Ht.
  apply computeTopology_spec in Ht as (Hms & _ & _ & Hr & _ & _ & He & _ & _ & Hcase).
  pose proof (computeMaxSurge_nonneg _ _ Hms). apply Hsurge in Hms. destruct Hcase as [? _|_ _ ?|_ _ ?]; cbv zeta in *; lia.
Qed.

(** A step that disrupts nothing and leaves the health snapshots. *)
Lemma quiet_step {A} (m : M A) h w r w' :
  silent (fun w => w_health w = h) disrupting m -> w_health w = h -> m w = (r, w') ->
  w_health w' = h /\ exists new, w_trace w' = new ++ w_trace w /\ quiet new.
Proof.
  intros Hm Hw Hr. destruct (Hm w r w' Hw Hr) as (Hh & new & Ht & Hn). split; [done|]. exists new.
  split; [done|]. by apply quiet_count.
Qed.

Lemma performUpdate_budgeted fuel revisions w r w' :
  performUpdate fuel set instances revisions w = (r, w') ->
  exists new, w_trace w' = new ++ w_trace w /\ budgeted set instances (w_health w) new.
Proof.
  intros (x & w1 & Hc & Hr)%attempt_inv.
  eapply quiet_step in Hc as (Hh1 & new1 & Ht1 & Hn1);
    [|apply silent_revisions_choice; [apply _|exact quiet_no_disruption]|done].
  destruct x as [[[c u] cc]|e].
  2:{ apply ret_inv in Hr as [_ ->]. exists new1. split; [done|]. by left. }
  apply bind_inv in Hr as [(e & Ho & _)|([] & w2 & Ho & Hr)].
  { eapply quiet_step in Ho as (_ & new2 & Ht2 & Hn2); [|apply silent_observe_updated, _|exact Hh1].
    exists (new2 ++ new1). split; [by rewrite Ht2, Ht1, app_assoc|]. left. intros y [Hy|Hy]%elem_of_app; auto. }
  eapply quiet_step in Ho as (Hh2 & new2 & Ht2 & Hn2); [|apply silent_observe_updated, _|exact Hh1].
  apply attempt_inv in Hr as (r3 & w3 & Hp & Hr).
  apply pass_disruptions in Hp as (new3 & Ht3 & Hn3); [|done..|apply window_bound].
  destruct (silent_report (fun _ => True) disrupting (Some c) (Some u) r3 _ quiet_no_disruption w3 r w' I Hr)
    as (_ & new4 & Ht4 & Hn4).
  exists (new4 ++ new3 ++ (new2 ++ new1)). split; [by rewrite Ht4, Ht3, Ht2, Ht1, !app_assoc|].
  apply budgeted_app; [by apply quiet_count| |].
  { intros y [Hy|Hy]%elem_of_app; auto. }
  destruct Hn3 as [Hn3|(topo & Htopo & Hn3)].
  - left. intros y Hy. specialize (Hn3 y Hy). by destruct y.
  - right. exists (cr_Name c), (cr_Name u), topo, (env_now (w_clock w2)). split; [done|]. by rewrite <-Hh2.
Qed.

(** C1: An update of a set as the controller runs it, with the choice of its revisions,
    the write of its status and the truncation of its history: unless it takes no
    instance out of service at all, it takes no more protected base instances out
    than the budget of the topology it worked with, whatever the API server, the
    caches and the clock answer. *)
Theorem update_disruption_budget (fuel : nat) (w : world) :
  exists new, w_trace (UpdateStatefulInstanceSet fuel set instances w).2 = new ++ w_trace w /\
    budgeted set instances (w_health w) new.
Proof.
  destruct (UpdateStatefulInstanceSet fuel set instances w) as [r w'] eqn:E. cbn [snd]. revert E.
  intros [(e & He & _)|(listed & w1 & Hl & Hr)]%bind_inv.
  { eapply quiet_step in He as (_ & new & Ht & Hn); [|apply silent_list; [apply _|exact quiet_no_disruption]|done].
    exists new. split; [done|]. by left. }
  eapply quiet_step in Hl as (Hh1 & new1 & Ht1 & Hn1); [|apply silent_list; [apply _|exact quiet_no_disruption]|done].
  change ((performUpdate fuel set instances (SortControllerRevisions listed)
           ≫= conclude set instances (SortControllerRevisions listed)) w1 = (r, w')) in Hr.
  apply bind_inv in Hr as [(e & Hp & ->)|(p & w2 & Hp & Hr)];
    apply performUpdate_budgeted in Hp as (new2 & Ht2 & Hn2); rewrite Hh1 in Hn2.
  - exists ([] ++ new2 ++ new1). split; [by rewrite Ht2, Ht1, app_assoc|]. by apply budgeted_app; [intros y ?%elem_of_nil|..].
  - destruct (silent_conclude (fun _ => True) disrupting set instances (SortControllerRevisions listed) p _ quiet_no_disruption
      w2 r w' I Hr) as (_ & new3 & Ht3 & Hn3).
    exists (new3 ++ new2 ++ new1). split; [by rewrite Ht3, Ht2, Ht1, !app_assoc|].
    apply budgeted_app; [by apply quiet_count|done..].
Qed.
End update.

(** * Claims and waiting *)

Abbreviation only := (Effects.only w_trace).

Lemma only_posed {A} (ok : api_call -> Prop) c (answer : list api_call -> result A) w r w' :
  ok c -> request c answer w = (r, w') -> only ok w w'.
Proof. intros Hc [= <- <-]. exists [c]. split; [done|]. by intros c' ->%list_elem_of_singleton. Qed.

Section claims.
Context `{Env} (set : RoleInstanceSet) (instances : list RoleInstance).

(** What a claim may ask for: to read, to add the owner reference to an orphan that
    matches, and to take it from an own instance that does not. *)
Definition claim_call (c : api_call) : Prop :=
  match c with
  | CallGet _ _ | CallGetSet _ _ => True
  | CallPatchOwners name refs => exists i, i ∈ instances /\ ri_Name i = name /\
      (GetControllerOf (ri_meta i) = None /\ matches set i = true /\ om_DeletionTimestamp (ri_meta i) = None /\
         refs = (om_OwnerReferences (ri_meta i) ++ [controllerRef set])%list \/
       owned set i = true /\ matches set i = false /\
         refs = List.filter (fun r => negb (bool_decide (or_UID r = rs_UID set))) (om_OwnerReferences (ri_meta i)))
  | _ => False
  end.

(** An instance a claim returns: its own that matches, or one just adopted. *)
Definition claimed_of (i i' : RoleInstance) : Prop :=
  matches set i = true /\ om_Labels (ri_meta i') = om_Labels (ri_meta i) /\
  (owned set i = true /\ i' = i \/
   GetControllerOf (ri_meta i) = None /\ om_OwnerReferences (ri_meta i') = (om_OwnerReferences (ri_meta i) ++ [controllerRef set])%list).

Lemma PatchInstance_only i refs w r w' :
  claim_call (CallPatchOwners (ri_Name i) refs) -> PatchInstance i refs w = (r, w') -> only claim_call w w'.
Proof.
  intros Hc [(e & He & _)|(j & w1 & Hg & Hp)]%bind_inv; [by eapply only_posed in He|].
  eapply (only_posed claim_call) in Hg; [|done]. eapply only_trans; [exact Hg|]. by eapply only_posed in Hp.
Qed.

Lemma adopt_only i w r w' :
  i ∈ instances -> owned set i = false -> adopt set i w = (r, w') ->
  only claim_call w w' /\ exists got errs, r = Ok (got, errs) /\ forall i', got = Some i' -> claimed_of i i'.
Proof.
  intros Hi Hown. unfold adopt.
  assert (forall errs w0, only claim_call w w0 -> (mret (None, errs) : M (option RoleInstance * list error)) w0 = (r, w') ->
    only claim_call w w' /\ exists got errs, r = Ok (got, errs) /\ forall i', got = Some i' -> claimed_of i i') as Hret.
  { intros errs w0 Ho [-> ->]%ret_inv. split; [done|]. by exists None, errs. }
  case_bool_decide as Hdel; [apply Hret, only_refl|]. unfold owned in Hown.
  destruct (GetControllerOf (ri_meta i)) as [ref|] eqn:Eref; [rewrite Hown; apply Hret, only_refl|].
  destruct (matches set i) eqn:Em; cbn [negb]; [|apply Hret, only_refl].
  intros [(e & He & ->)|(err & w1 & He & Hr)]%bind_inv;
    apply attempt_inv in He as (x & w2 & Hg & [He ->]%ret_inv); [done|].
  eapply (only_posed claim_call) in Hg; [|done]. destruct err as [e|]; [by eapply Hret|].
  apply attempt_inv in Hr as (y & w3 & Hp & [-> ->]%ret_inv). apply PatchInstance_only in Hp.
  2:{ exists i. split_and!; [done..|]. left. split_and!; [done..| |done]. destruct (om_DeletionTimestamp _); [|done].
      destruct Hdel. eauto. }
  split; [by eapply only_trans|]. destruct y; (do 2 eexists; split; [done|]); [|done]. intros i' [= <-].
  split_and!; [done..|]. by right.
Qed.

Lemma release_only i w r w' :
  i ∈ instances -> owned set i = true -> matches set i = false -> release set i w = (r, w') ->
  only claim_call w w' /\ exists errs, r = Ok errs.
Proof.
  intros Hi Hown Hm. unfold release. unfold owned in Hown. destruct (GetControllerOf (ri_meta i)) as [ref|] eqn:Eref; [|done].
  rewrite Hown, Hm. cbn [negb]. intros (y & w3 & Hp & [-> ->]%ret_inv)%attempt_inv. split; [|eauto].
  apply PatchInstance_only in Hp; [exact Hp|]. exists i. split_and!; [done..|]. right. unfold owned. by rewrite Eref.
Qed.

(** Stateful claims touch owner references only, of orphans that match and of own
    instances that do not; what is claimed matches, and was owned or is adopted. *)
Theorem stateful_claims (w : world) :
  let p := ClaimInstances set instances w in
  only claim_call w p.2 /\
  match p.1 with Ok claimed => Forall (fun i' => exists i, i ∈ instances /\ claimed_of i i') claimed | Err _ => True end.
Proof.
  assert (forall l w r w', (forall i, i ∈ l -> i ∈ instances) -> claim_loop set l w = (r, w') ->
    only claim_call w w' /\ exists claimed errs, r = Ok (claimed, errs) /\
      Forall (fun i' => exists i, i ∈ instances /\ claimed_of i i') claimed) as Hloop.
  { induction l as [|i l IH]; intros w1 r w' Hl; cbn [claim_loop].
    { intros [-> ->]%ret_inv. split; [apply only_refl|]. exists [], []. by split. }
    assert (i ∈ instances) as Hi by (apply Hl; by left).
    intros Hr. assert (exists got errs w2, only claim_call w1 w2 /\ (forall i', got = Some i' -> claimed_of i i') /\
      ('(claimed, errlist) ← claim_loop set l; mret (option_list got ++ claimed, errs ++ errlist)%list) w2 = (r, w'))
      as (got & errs & w2 & Ho & Hgot & Hr').
    { revert Hr. destruct (owned set i) eqn:Eo; [destruct (matches set i) eqn:Em|]; cbn [negb].
      - intros Hr. exists (Some i), [], w1. split; [apply only_refl|]. split; [|exact Hr]. intros i' [= <-].
        split_and!; [done..|]. by left.
      - intros [(e & He & _)|([got errs] & w2 & He & Hr)]%bind_inv.
        + apply bind_inv in He as [(e' & He & _)|(errs' & w3 & He & He2)]; [|by apply ret_inv in He2 as [? _]].
          by apply release_only in He as (_ & ? & ?).
        + apply bind_inv in He as [(e' & He & ?)|(errs' & w3 & He & He2)]; [done|].
          apply release_only in He as (Ho & _); [|done..]. apply ret_inv in He2 as [[= -> ->] ->]. by exists None, errs', w3.
      - intros [(e & He & _)|([got errs] & w2 & He & Hr)]%bind_inv;
          apply adopt_only in He as (Ho & got' & errs' & Heq & Hgot); try done. injection Heq as -> ->. by exists got', errs', w2. }
    assert (forall j, j ∈ l -> j ∈ instances) as Hl' by (intros j Hj; apply Hl; by right).
    apply bind_inv in Hr' as [(e & He & _)|([claimed errlist] & w3 & He & Hr')];
      apply IH in He as (Ho2 & c2 & e2 & Heq & Hc); try done. injection Heq as -> ->.
    apply ret_inv in Hr' as [-> ->]. split; [by eapply only_trans|]. do 2 eexists. split; [done|].
    apply Forall_app. split; [|done]. destruct got as [i'|]; [|done]. repeat constructor. eauto. }
  cbv zeta. destruct (ClaimInstances set instances w) as [r w'] eqn:E. cbn [fst snd]. revert E. unfold ClaimInstances.
  intros [(e & He & ->)|([claimed errs] & w1 & He & Hr)]%bind_inv; apply Hloop in He as (Ho & c2 & e2 & Heq & Hc); try done.
  injection Heq as -> ->. destruct e2; [by apply ret_inv in Hr as [-> ->]|]. by injection Hr as <- <-.
Qed.
End claims.

(** * A concrete update *)

Module Store.
Import Cluster Pass.

(** The template is the newer of the two stored revisions; the status still names
    the older. *)
#[export] Instance codec : RevisionCodec := {|
  getPatch := fun _ => Ok "new"%string;
  apply_patch := fun set _ => Ok set |}.

Definition behind (history : option Z) : RoleInstanceSet :=
  let s := Fixture.rolling in
  {| rs_meta := rs_meta s;
     rs_spec := {| rss_Replicas := rss_Replicas (rs_spec s); rss_Selector := rss_Selector (rs_spec s);
       rss_RoleInstanceTemplate := rss_RoleInstanceTemplate (rs_spec s);
       rss_PodManagementPolicy := rss_PodManagementPolicy (rs_spec s);
       rss_ScaleStrategy := rss_ScaleStrategy (rs_spec s); rss_UpdateStrategy := rss_UpdateStrategy (rs_spec s);
       rss_RevisionHistoryLimit := history; rss_MinReadySeconds := 0; rss_Lifecycle := None |};
     rs_status := with_CurrentRevision "old" empty_set_status |}.

Definition update : result unit * world := UpdateStatefulInstanceSet 5 (behind None) four (start []).

Definition written (p : result unit * world) : list string :=
  omap (fun c => match c with
    | CallCreate i => Some ("create " +:+ ri_Name i)
    | CallDelete i => Some ("delete " +:+ ri_Name i)
    | CallUpdateRevision r => Some ("update revision " +:+ cr_Name r)
    | CallDeleteRevision r => Some ("delete revision " +:+ cr_Name r)
    | CallUpdateSetStatus s => Some ("status at " +:+ st_UpdateRevision (rs_status s))
    | _ => None
    end) (rev (w_trace p.2)).

Example rolls_out : written update
  = ["update revision new"; "create decode-4"; "create decode-5"; "delete decode-3"; "status at new"]%string.
Proof. by vm_compute. Qed.

(** When the choice of the revisions fails, the history is truncated without them:
    with a limit of 0 every revision that no instance carries goes, the current
    and the update revision included. *)
Definition broken_codec : RevisionCodec := {| getPatch := fun _ => Err "invalid"%string; apply_patch := fun set _ => Ok set |}.

Example failed_choice_truncates :
  written (@UpdateStatefulInstanceSet env ports _ broken_codec 5 (behind (Some 0)) [] (start []))
  = ["delete revision new"; "delete revision old"]%string.
Proof. by vm_compute. Qed.

Lemma behind_surge s : computeMaxSurge (behind None) = Ok s -> s = 2.
Proof. assert (computeMaxSurge (behind None) = Ok 2) as -> by by vm_compute. by intros [= <-]. Qed.
End Store.

Import Cluster Pass Store.

Lemma update_disruption_budget_witness :
  let p := UpdateStatefulInstanceSet 5 (behind None) four (start []) in
  countb disrupting (w_trace p.2) = 1 /\
  exists new, w_trace p.2 = new ++ [] /\ budgeted (behind None) four ∅ new.
Proof.
  split; [by vm_compute|].
  apply (update_disruption_budget (behind None) four) with (w := start []).
  - exact cluster_creates_fresh.
  - vm_compute. discriminate.
  - apply (forallb_elem (fun i => isCreated (Some i))). by vm_compute.
  - intros s Hs. rewrite (behind_surge s Hs). vm_compute. discriminate.
Defined.
