(* ===== verification/StatelessUtils.v ===== *)
(** Stateless mode, revisions, readiness and the construction of an instance
    (pkg/reconciler/roleinstanceset/statelessmode: utils/utils.go,
    utils/sorter.go, core/implement.go and the predicates of sync/helper.go).

    A function that reads the clock takes the reading as an argument. *)
From Stdlib Require Import ZArith Lia Bool Ascii String.
From stdpp Require Import base tactics list strings gmap sets fin_maps.
From S2P Require Import Prelude GoStrings Float64 IntOrString Types StatefulUtils.

(** * Revision hashes (utils/utils.go) *)

(** The last field of [strings.Split(hash, "-")]. *)
Definition GetShortHash (hash : string) : string := LastField hash "-".

Definition EqualToRevisionHash (m : ObjectMeta) (hash : string) : bool :=
  let objHash := label_of (om_Labels m) ControllerRevisionHashLabelKey in
  if bool_decide (objHash = hash) then true
  else bool_decide (GetShortHash hash = GetShortHash objHash).

Definition WriteRevisionHash (hash : string) (m : ObjectMeta) : ObjectMeta :=
  with_labels (<[ControllerRevisionHashLabelKey := GetShortHash hash]> (om_Labels m)) m.

Definition at_hash (revision : string) (i : RoleInstance) : bool := EqualToRevisionHash (ri_meta i) revision.

Definition GetControllerKey (set : RoleInstanceSet) : string := rs_Namespace set +:+ "/" +:+ rs_Name set.

Definition SplitInstancesByRevision (instances : list RoleInstance) (rev : string)
    : list RoleInstance * list RoleInstance :=
  (List.filter (at_hash rev) instances, List.filter (fun i => negb (at_hash rev i)) instances).

(** The instances of a listing that are owned by the set and not being deleted. *)
Definition GetActiveInstance (set : RoleInstanceSet) (items : list RoleInstance) : list RoleInstance :=
  List.filter (fun i =>
    bool_decide (om_DeletionTimestamp (ri_meta i) = None)
    && match GetControllerOf (ri_meta i) with
       | None => false
       | Some owner => bool_decide (or_UID owner = rs_UID set)
       end) items.

(** * Readiness (utils/utils.go) *)

Definition isInstanceAllComponentReady (i : RoleInstance) : bool :=
  if negb (length (ris_Components (ri_spec i)) =? length (rist_ComponentStatuses (ri_status i)))%nat then false
  else
    let componentSize := componentSizes (ris_Components (ri_spec i)) in
    forallb (fun s => bool_decide (componentSize !! cs_Name s = Some (cs_ReadyReplicas s)))
      (rist_ComponentStatuses (ri_status i)).

Definition IsRunningAndReady (i : RoleInstance) : bool :=
  if negb (condition_true (GetRoleInstanceCondition i RoleInstanceReady)) then false
  else if negb (forallb (fun g => condition_true (GetRoleInstanceCondition i g)) (ris_ReadinessGates (ri_spec i)))
  then false
  else isInstanceAllComponentReady i.

Definition ready_since (i : RoleInstance) : gotime :=
  match GetRoleInstanceCondition i RoleInstanceReady with Some c => cond_LastTransitionTime c | None => None end.

Definition IsRunningAndAvailable (now : Z) (i : RoleInstance) (minReadySeconds : Z) : bool :=
  if negb (IsRunningAndReady i) then false
  else time_sub now (ready_since i) >? minReadySeconds * second.

(** core/implement.go *)
Definition IsInstanceUpdateReady (now : Z) (i : RoleInstance) (minReadySeconds : Z) : bool :=
  if negb (IsRunningAndAvailable now i minReadySeconds) then false
  else match GetRoleInstanceCondition i RoleInstanceReady with
       | Some c => bool_decide (cond_Status c = ConditionTrue)
       | None => true
       end.

Definition IsInstanceUpdatePaused (i : RoleInstance) : bool := false.
Definition IsReadyToScale (set : RoleInstanceSet) : bool := true.

(** sync/helper.go *)
Definition in_normal_state (i : RoleInstance) : bool :=
  let state := GetRoleInstanceLifecycleState i in
  bool_decide (state = ""%string) || bool_decide (state = StateNormal).

Definition IsInstanceAvailable (now : Z) (i : RoleInstance) (minReadySeconds : Z) : bool :=
  if negb (in_normal_state i) then false else IsInstanceUpdateReady now i minReadySeconds.

Definition IsInstanceReady (now : Z) (i : RoleInstance) : bool := IsInstanceAvailable now i 0.

Definition isSpecifiedDelete (set : RoleInstanceSet) (i : RoleInstance) : bool :=
  if IsSpecifiedDelete (ri_meta i) then true
  else existsb (fun name => bool_decide (name = ri_Name i)) (ss_RoleInstanceToDelete (rss_ScaleStrategy (rs_spec set))).

(** The instances of [group1] whose name is not used in [group2]. *)
Definition DiffInstanceGroups (group1 group2 : list RoleInstance) : list RoleInstance :=
  let names2 : gset string := list_to_set (map ri_Name group2) in
  List.filter (fun i => negb (bool_decide (ri_Name i ∈ names2))) group1.

Definition getInstanceSetReplicas (set : RoleInstanceSet) : Z := default 1 (rss_Replicas (rs_spec set)).

(** [int(math.Abs(float64(i)))]. *)
Definition IntAbs (i : Z) : Z := f_abs_int i.

Definition IsIntPlusAndMinus (i j : Z) : bool := (i <? 0) && (j >? 0) || (i >? 0) && (j <? 0).

(** * The deletion order (utils/sorter.go) *)

Definition InstanceDeletionCost : string := "controller.kubernetes.io/instance-deletion-cost".

Definition validFirstDigit (str : string) : bool :=
  match chars str with
  | [] => false
  | c :: _ =>
      bool_decide (c = "-"%char) || (bool_decide (c = "0"%char) && bool_decide (str = "0"%string))
      || (("1" <=? c) && (c <=? "9"))%char
  end.

(** The value; the callers drop the error. *)
Definition getDeletionCostFromAnnotations (annotations : labels) : Z :=
  match annotations !! InstanceDeletionCost with
  | None => 0
  | Some value =>
      if negb (validFirstDigit value) then 0
      else match ParseInt value 32 with Ok i => int32 i | Err _ => 0 end
  end.

Definition afterOrZero (t1 t2 : gotime) : bool :=
  match t1, t2 with
  | None, _ => true
  | _, None => false
  | Some x, Some y => x >? y
  end.

(** [ActiveInstancesAvailableRank.Less], on the two instances compared. *)
Definition Less (AvailableFunc : RoleInstance -> bool) (x y : RoleInstance) : bool :=
  let nx := length (rist_ComponentStatuses (ri_status x)) in
  let ny := length (rist_ComponentStatuses (ri_status y)) in
  if negb (nx =? ny)%nat then (nx <? ny)%nat
  else if negb (Bool.eqb (IsRunningAndReady x) (IsRunningAndReady y)) then negb (IsRunningAndReady x)
  else if negb (Bool.eqb (AvailableFunc x) (AvailableFunc y)) then negb (AvailableFunc x)
  else
    let px := getDeletionCostFromAnnotations (om_Annotations (ri_meta x)) in
    let py := getDeletionCostFromAnnotations (om_Annotations (ri_meta y)) in
    if negb (px =? py) then px <? py
    else
      let cx := om_CreationTimestamp (ri_meta x) in
      let cy := om_CreationTimestamp (ri_meta y) in
      if negb (bool_decide (cx = cy)) then afterOrZero cx cy else false.

(** * Building instances (core/implement.go) *)

Definition shortNameLimitation : Z := 63.

Definition generateInstanceName (prefix id : string) : string :=
  let maxPrefixLen :=
    Z.max (Z.min (Z.of_nat (String.length prefix)) (shortNameLimitation - Z.of_nat (String.length id) - 1)) 0 in
  String.substring 0 (Z.to_nat maxPrefixLen) prefix +:+ "-" +:+ id.

Definition genInstanceNamePrefix `{PodNames} (controllerName : string) : string :=
  let prefix := controllerName +:+ "-" in
  if negb (ValidPodNamePrefix prefix) then controllerName else prefix.

Definition GenInstanceFromTemplate `{PodNames} (template : RoleInstanceSpec) (set : RoleInstanceSet)
    (ref : OwnerReference) : RoleInstance := {|
  ri_meta := {|
    om_Name := ""; om_GenerateName := genInstanceNamePrefix (rs_Name set); om_Namespace := ""; om_UID := "";
    om_ResourceVersion := ""; om_Generation := 0; om_CreationTimestamp := None; om_DeletionTimestamp := None;
    om_Labels := om_Labels (rs_meta set);
    om_Annotations :=
      filter (fun kv : string * string => kv.1 ∈ propagatedAnnotations) (om_Annotations (rs_meta set));
    om_OwnerReferences := [ref]; om_Finalizers := om_Finalizers (rs_meta set) |};
  ri_spec := template;
  ri_status := empty_instance_status |}.

(** pkg/inplace/instance/inplaceupdate/inplace_update.go *)
Definition containsReadinessGate (i : RoleInstance) : bool :=
  existsb (fun g => bool_decide (g = RoleInstanceInPlaceUpdateReady)) (ris_ReadinessGates (ri_spec i)).

Definition InjectRoleInstanceReadinessGate (i : RoleInstance) : RoleInstance :=
  if containsReadinessGate i then i
  else {| ri_meta := ri_meta i;
          ri_spec := {| ris_Components := ris_Components (ri_spec i);
                        ris_ReadyPolicy := ris_ReadyPolicy (ri_spec i);
                        ris_RestartPolicy := ris_RestartPolicy (ri_spec i);
                        ris_RestartPolicyConfig := ris_RestartPolicyConfig (ri_spec i);
                        ris_ReadinessGates := (ris_ReadinessGates (ri_spec i) ++ [RoleInstanceInPlaceUpdateReady])%list |};
          ri_status := ri_status i |}.

Definition InjectVersionedRoleInstanceSpec (i : RoleInstance) : RoleInstance :=
  InjectIdentityLabelsIntoComponents (InjectRoleInstanceReadinessGate i).

Definition injectNewVersionedInstances `{PortAllocation} (set : RoleInstanceSet) (revision id : string)
    (i : RoleInstance) : RoleInstance :=
  let m := with_name (generateInstanceName (rs_Name set) id) (rs_Namespace set) (ri_meta i) in
  let m := with_labels (<[RoleInstanceOwnerLabelKey := rs_UID set]> (<[RoleInstanceIDLabelKey := id]> (om_Labels m))) m in
  let i := InjectVersionedRoleInstanceSpec (ri_with_meta (WriteRevisionHash revision m) i) in
  ri_with_meta (with_annotations (AllocatePortsForInstance set i) (ri_meta i)) i.

(** At most [replicas] instances, one for each id in turn; the ids left over. *)
Fixpoint newVersionedInstances `{PodNames, PortAllocation} (set : RoleInstanceSet) (revision : string)
    (replicas : nat) (availableIDs : list string) : list RoleInstance * list string :=
  match replicas with
  | O => ([], availableIDs)
  | S replicas' =>
      match availableIDs with
      | [] => ([], [])
      | id :: ids =>
          let instance :=
            GenInstanceFromTemplate (rss_RoleInstanceTemplate (rs_spec set)) set (controllerRef set) in
          let '(rest, ids') := newVersionedInstances set revision replicas' ids in
          (injectNewVersionedInstances set revision id instance :: rest, ids')
      end
  end.

Definition NewVersionedInstances `{PodNames, PortAllocation} (currentSet updateSet : RoleInstanceSet)
    (currentRevision updateRevision : string) (expectedCreations expectedCurrentCreations : Z)
    (availableIDs : list string) : list RoleInstance :=
  if expectedCreations <=? expectedCurrentCreations then
    (newVersionedInstances currentSet currentRevision (Z.to_nat expectedCreations) availableIDs).1
  else
    let '(current, ids) :=
      newVersionedInstances currentSet currentRevision (Z.to_nat expectedCurrentCreations) availableIDs in
    (current ++ (newVersionedInstances updateSet updateRevision
                   (Z.to_nat (expectedCreations - expectedCurrentCreations)) ids).1)%list.

(** * The deletion order is a strict weak order *)

Definition rank_bool (b : bool) : Z := if b then 1 else 0.

(** The keys of [Less], most significant first. *)
Definition rank_created (t : gotime) : Z := match t with None => 0 | Some _ => 1 end.
Definition rank_newer (t : gotime) : Z := match t with None => 0 | Some t => - t end.

Definition less_keys (avail : RoleInstance -> bool) : RoleInstance -> RoleInstance -> bool :=
  lex (fun i => Z.of_nat (length (rist_ComponentStatuses (ri_status i))))
    (lex (fun i => rank_bool (IsRunningAndReady i))
       (lex (fun i => rank_bool (avail i))
          (lex (fun i => getDeletionCostFromAnnotations (om_Annotations (ri_meta i)))
             (lex (fun i => rank_created (om_CreationTimestamp (ri_meta i)))
                (lex (fun i => rank_newer (om_CreationTimestamp (ri_meta i))) (fun _ _ => false)))))).

Lemma Less_keys avail x y : Less avail x y = less_keys avail x y.
Proof.
  unfold Less, less_keys, lex.
  generalize (length (rist_ComponentStatuses (ri_status x))) (length (rist_ComponentStatuses (ri_status y))).
  intros m n. destruct (Nat.eqb_spec m n) as [->|Hmn]; cbn [negb].
  2:{ destruct (Z.eqb_spec (Z.of_nat m) (Z.of_nat n)); [lia|].
      destruct (Nat.ltb_spec m n), (Z.ltb_spec (Z.of_nat m) (Z.of_nat n)); done || lia. }
  rewrite Z.eqb_refl.
  destruct (IsRunningAndReady x), (IsRunningAndReady y); try reflexivity; cbn;
  destruct (avail x), (avail y); try reflexivity; cbn;
  (destruct (_ =? _); [|reflexivity]); cbn;
  destruct (om_CreationTimestamp (ri_meta x)) as [a|], (om_CreationTimestamp (ri_meta y)) as [b|]; cbn;
    try reflexivity;
  (destruct (decide (a = b)) as [->|Hab];
     [by rewrite bool_decide_eq_true_2, Z.eqb_refl by done|]);
  rewrite bool_decide_eq_false_2 by congruence; cbn;
  (destruct (Z.eqb_spec (- a) (- b)); [lia|]);
  rewrite Z.gtb_ltb; destruct (Z.ltb_spec b a), (Z.ltb_spec (- a) (- b)); done || lia.
Qed.

Lemma Less_strict_weak avail : strict_weak (Less avail).
Proof.
  eapply strict_weak_ext; [apply Less_keys|]. unfold less_keys. auto 10 with rbg.
Qed.

Lemma Inject_gate_meta i : ri_meta (InjectRoleInstanceReadinessGate i) = ri_meta i.
Proof. unfold InjectRoleInstanceReadinessGate. by destruct (containsReadinessGate i). Qed.
