(* ===== verification/StatelessDiffs.v ===== *)
(** Stateless mode, how many instances to create, delete and update
    (calculateDiffsWithExpectation of
    pkg/reconciler/roleinstanceset/statelessmode/sync/helper.go).

    The availability of an instance is read against the clock once for each
    instance; [nows k] is the reading made for the [k]-th instance of the list. *)
From Stdlib Require Import ZArith Lia Bool String.
From stdpp Require Import base tactics list strings gmap.
From S2P Require Import Prelude Float64 IntOrString Types StatefulUtils StatelessUtils.

Record expectationDiffs := {
  scaleNum : Z;
  scaleNumOldRevision : Z;
  scaleUpLimit : Z;
  deleteReadyLimit : Z;
  useSurge : Z;
  useSurgeOldRevision : Z;
  updateNum : Z;
  updateMaxUnavailable : Z
}.

(** * The limits of the strategy *)

Record limits := {
  lm_replicas : Z;
  lm_partition : Z;
  lm_maxSurge : Z;
  lm_maxUnavailable : Z;
  lm_scaleMaxUnavailable : Z
}.

Definition limits_of (set : RoleInstanceSet) : limits :=
  let replicas := getInstanceSetReplicas set in
  let us := rs_update set in
  let maxSurge :=
    match us_MaxSurge us with None => 0 | Some _ => scaled_or_zero (us_MaxSurge us) replicas true end in {|
  lm_replicas := replicas;
  lm_partition :=
    match CalculatePartitionReplicas (us_Partition us) (rss_Replicas (rs_spec set)) with Ok p => p | Err _ => 0 end;
  lm_maxSurge := maxSurge;
  lm_maxUnavailable :=
    scaled_or_zero (ValueOrDefault (us_MaxUnavailable us) (FromString DefaultRoleInstanceSetMaxUnavailable))
      replicas (maxSurge =? 0);
  lm_scaleMaxUnavailable :=
    scaled_or_zero (ValueOrDefault (ss_MaxUnavailable (rss_ScaleStrategy (rs_spec set))) (FromInt32 int32_max))
      replicas true |}.

(** * The census of the instances *)

Record counts := {
  newRevisionCount : Z;
  newRevisionActiveCount : Z;
  oldRevisionCount : Z;
  oldRevisionActiveCount : Z;
  unavailableNewRevisionCount : Z;
  unavailableOldRevisionCount : Z;
  toDeleteNewRevisionCount : Z;
  toDeleteOldRevisionCount : Z;
  preDeletingCount : Z
}.

Definition no_counts : counts := {|
  newRevisionCount := 0; newRevisionActiveCount := 0; oldRevisionCount := 0; oldRevisionActiveCount := 0;
  unavailableNewRevisionCount := 0; unavailableOldRevisionCount := 0; toDeleteNewRevisionCount := 0;
  toDeleteOldRevisionCount := 0; preDeletingCount := 0 |}.

Definition preparing_delete (i : RoleInstance) : bool :=
  bool_decide (GetRoleInstanceLifecycleState i = StatePreparingDelete).

Definition one (b : bool) : Z := if b then 1 else 0.

Definition count_instance (set : RoleInstanceSet) (updateRevision : string) (now : Z) (i : RoleInstance)
    (c : counts) : counts :=
  let active := negb (preparing_delete i) in
  let toDelete := isSpecifiedDelete set i in
  let unavailable := negb toDelete && negb (IsInstanceAvailable now i (rss_MinReadySeconds (rs_spec set))) in
  if at_hash updateRevision i then {|
    newRevisionCount := newRevisionCount c + 1;
    newRevisionActiveCount := newRevisionActiveCount c + one active;
    oldRevisionCount := oldRevisionCount c;
    oldRevisionActiveCount := oldRevisionActiveCount c;
    unavailableNewRevisionCount := unavailableNewRevisionCount c + one (active && unavailable);
    unavailableOldRevisionCount := unavailableOldRevisionCount c;
    toDeleteNewRevisionCount := toDeleteNewRevisionCount c + one (active && toDelete);
    toDeleteOldRevisionCount := toDeleteOldRevisionCount c;
    preDeletingCount := preDeletingCount c + one (negb active) |}
  else {|
    newRevisionCount := newRevisionCount c;
    newRevisionActiveCount := newRevisionActiveCount c;
    oldRevisionCount := oldRevisionCount c + 1;
    oldRevisionActiveCount := oldRevisionActiveCount c + one active;
    unavailableNewRevisionCount := unavailableNewRevisionCount c;
    unavailableOldRevisionCount := unavailableOldRevisionCount c + one (active && unavailable);
    toDeleteNewRevisionCount := toDeleteNewRevisionCount c;
    toDeleteOldRevisionCount := toDeleteOldRevisionCount c + one (active && toDelete);
    preDeletingCount := preDeletingCount c + one (negb active) |}.

Fixpoint count_instances (set : RoleInstanceSet) (updateRevision : string) (nows : nat -> Z)
    (instances : list RoleInstance) (c : counts) : counts :=
  match instances with
  | [] => c
  | i :: l =>
      count_instances set updateRevision (fun k => nows (S k)) l (count_instance set updateRevision (nows O) i c)
  end.

(** * The calculation *)

(** [updateOldDiff] and [updateNewDiff]. *)
Definition update_diffs (lm : limits) (c : counts) (currentRevision updateRevision : string) : Z * Z :=
  let updateOldDiff := oldRevisionActiveCount c - lm_partition lm in
  let updateNewDiff := newRevisionActiveCount c - (lm_replicas lm - lm_partition lm) in
  if bool_decide (updateRevision = currentRevision) then (Z.max updateOldDiff 0, Z.min updateNewDiff 0)
  else (updateOldDiff, updateNewDiff).

(** [useSurge] and [useSurgeOldRevision]. *)
Definition surge (lm : limits) (c : counts) (paused : bool) (updateOldDiff updateNewDiff : Z) : Z * Z :=
  if (lm_maxSurge lm >? 0) && negb paused then
    let toDeleteCount := toDeleteNewRevisionCount c + toDeleteOldRevisionCount c in
    let '(scaleSurge, scaleOldRevisionSurge) :=
      if toDeleteCount >? 0 then
        let s := Z.min (Z.max ((unavailableNewRevisionCount c + unavailableOldRevisionCount c
                                + toDeleteCount + preDeletingCount c) - lm_maxUnavailable lm) 0) toDeleteCount in
        (s, if s >? toDeleteNewRevisionCount c then s - toDeleteNewRevisionCount c else 0)
      else (0, 0) in
    let '(updateSurge, updateOldRevisionSurge) :=
      if IsIntPlusAndMinus updateOldDiff updateNewDiff then
        if IntAbs updateOldDiff <=? IntAbs updateNewDiff then
          let s := IntAbs updateOldDiff in (s, if updateOldDiff <? 0 then s else 0)
        else
          let s := IntAbs updateNewDiff in (s, if updateNewDiff >? 0 then s else 0)
      else (0, 0) in
    if scaleSurge >=? updateSurge then
      let s := Z.min (lm_maxSurge lm) scaleSurge in (s, Z.min s scaleOldRevisionSurge)
    else
      let s := Z.min (lm_maxSurge lm) updateSurge in (s, Z.min s updateOldRevisionSurge)
  else (0, 0).

Definition total_unavailable (c : counts) : Z :=
  preDeletingCount c + unavailableNewRevisionCount c + unavailableOldRevisionCount c.

Definition diffs_of (lm : limits) (c : counts) (paused : bool) (len : Z) (currentRevision updateRevision : string)
    : expectationDiffs :=
  let '(updateOldDiff, updateNewDiff) := update_diffs lm c currentRevision updateRevision in
  let totalUnavailable := total_unavailable c in
  let '(surge, surgeOld) := surge lm c paused updateOldDiff updateNewDiff in
  let scale := lm_replicas lm + surge - len in
  let update := if IntAbs updateOldDiff <=? IntAbs updateNewDiff then updateOldDiff else 0 - updateNewDiff in {|
  useSurge := surge;
  useSurgeOldRevision := surgeOld;
  scaleNum := scale;
  scaleNumOldRevision :=
    if scale >? 0 then Z.max (lm_partition lm + surgeOld - oldRevisionCount c) 0
    else if scale <? 0 then Z.min (lm_partition lm + surgeOld - oldRevisionCount c) 0
    else 0;
  scaleUpLimit :=
    if scale >? 0 then Z.min scale (Z.max (lm_scaleMaxUnavailable lm - totalUnavailable) 0) else 0;
  deleteReadyLimit :=
    if (toDeleteNewRevisionCount c >? 0) || (toDeleteOldRevisionCount c >? 0) || (scale <? 0) then
      Z.max (lm_maxUnavailable lm + (len - lm_replicas lm) - totalUnavailable) 0
    else 0;
  updateNum := update;
  updateMaxUnavailable := if negb (update =? 0) then lm_maxUnavailable lm + len - lm_replicas lm else 0 |}.

Definition calculateDiffsWithExpectation (nows : nat -> Z) (set : RoleInstanceSet) (instances : list RoleInstance)
    (currentRevision updateRevision : string) : expectationDiffs :=
  diffs_of (limits_of set) (count_instances set updateRevision nows instances no_counts)
    (us_Paused (rs_update set)) (Z.of_nat (length instances)) currentRevision updateRevision.

(** * Lemmas *)

(** An instance that stays but is not available, as the census counts it. *)
Definition lacking (set : RoleInstanceSet) (now : Z) (i : RoleInstance) : bool :=
  negb (preparing_delete i)
  && (negb (isSpecifiedDelete set i) && negb (IsInstanceAvailable now i (rss_MinReadySeconds (rs_spec set)))).

Definition leaving (set : RoleInstanceSet) (i : RoleInstance) : bool :=
  negb (preparing_delete i) && isSpecifiedDelete set i.

Definition active_new (rev : string) (i : RoleInstance) : bool := at_hash rev i && negb (preparing_delete i).
Definition active_old (rev : string) (i : RoleInstance) : bool := negb (at_hash rev i) && negb (preparing_delete i).

Lemma count_instances_spec set rev nows l c :
  count_instances set rev nows l c = {|
    newRevisionCount := newRevisionCount c + countb (at_hash rev) l;
    newRevisionActiveCount := newRevisionActiveCount c + countb (active_new rev) l;
    oldRevisionCount := oldRevisionCount c + countb (fun i => negb (at_hash rev i)) l;
    oldRevisionActiveCount := oldRevisionActiveCount c + countb (active_old rev) l;
    unavailableNewRevisionCount := unavailableNewRevisionCount c
      + countb_at (fun t i => at_hash rev i && lacking set t i) nows l;
    unavailableOldRevisionCount := unavailableOldRevisionCount c
      + countb_at (fun t i => negb (at_hash rev i) && lacking set t i) nows l;
    toDeleteNewRevisionCount := toDeleteNewRevisionCount c + countb (fun i => at_hash rev i && leaving set i) l;
    toDeleteOldRevisionCount := toDeleteOldRevisionCount c + countb (fun i => negb (at_hash rev i) && leaving set i) l;
    preDeletingCount := preDeletingCount c + countb preparing_delete l |}.
Proof.
  revert nows c. induction l as [|i l IH]; intros nows c; cbn [count_instances countb countb_at].
  - destruct c. cbn. f_equal; lia.
  - rewrite IH. clear IH. unfold count_instance, active_new, active_old, leaving, lacking.
    destruct (at_hash rev i), (preparing_delete i); cbn; f_equal; rewrite ?negb_involutive; unfold one; lia.
Qed.

(** Every instance is of one revision, and active or on its way out. *)
Lemma census_total rev l :
  countb (active_new rev) l + countb (active_old rev) l + countb preparing_delete l = Z.of_nat (length l).
Proof.
  induction l as [|i l IH]; cbn [countb length]; [done|]. rewrite Nat2Z.inj_succ, <-IH.
  unfold active_new, active_old. destruct (at_hash rev i), (preparing_delete i); cbn; lia.
Qed.

Definition census (set : RoleInstanceSet) (rev : string) (nows : nat -> Z) (l : list RoleInstance) : counts :=
  count_instances set rev nows l no_counts.

(** The size of a set and of its listing, as the API server bounds them. *)
Definition sized (set : RoleInstanceSet) (l : list RoleInstance) : Prop :=
  0 <= getInstanceSetReplicas set <= int32_max /\ Z.of_nat (length l) <= int32_max.

Lemma partition_range set :
  0 <= getInstanceSetReplicas set -> 0 <= lm_partition (limits_of set) <= getInstanceSetReplicas set.
Proof.
  unfold limits_of, getInstanceSetReplicas. cbn [lm_partition].
  destruct (CalculatePartitionReplicas _ _) as [p|] eqn:Hp; [|lia]. intros Hr.
  destruct (rss_Replicas (rs_spec set)) as [n|]; cbn [default] in *.
  - by eapply CalculatePartitionReplicas_range.
  - revert Hp. unfold CalculatePartitionReplicas. destruct (us_Partition _) as [i|]; [|intros [= <-]; cbn; lia].
    destruct (GetScaledValueFromIntOrPercent _ _ _) as [v|]; [|done]. cbn. intros [= <-]. destruct i; lia.
Qed.

(** The two update differences are small enough for their float64 absolute value
    to be exact. *)
Lemma update_diffs_abs set rev cur nows l :
  sized set l ->
  let d := update_diffs (limits_of set) (census set rev nows l) cur rev in
  IntAbs d.1 = Z.abs d.1 /\ IntAbs d.2 = Z.abs d.2.
Proof.
  intros [Hr Hl]. unfold census, update_diffs. rewrite count_instances_spec. cbn -[limits_of].
  pose proof (partition_range set ltac:(lia)) as Hp. cbn [limits_of lm_partition lm_replicas] in *.
  pose proof (countb_le_length (active_new rev) l). pose proof (countb_le_length (active_old rev) l).
  pose proof (countb_nonneg (active_new rev) l). pose proof (countb_nonneg (active_old rev) l).
  unfold_int. unfold IntAbs. change (2 ^ 52) with 4503599627370496 in *.
  case_bool_decide; cbn; rewrite !f_abs_int_abs by (change (2 ^ 52) with 4503599627370496; lia); done.
Qed.

Lemma surge_bounds lm c paused old new :
  IntAbs old = Z.abs old -> IntAbs new = Z.abs new ->
  0 <= toDeleteNewRevisionCount c -> 0 <= toDeleteOldRevisionCount c ->
  let s := surge lm c paused old new in
  0 <= s.2 <= s.1 /\ s.1 <= Z.max 0 (lm_maxSurge lm) /\ (paused = true -> s.1 = 0).
Proof.
  intros Ho Hn H1 H2. unfold surge, IsIntPlusAndMinus. rewrite Ho, Hn.
  destruct paused; [rewrite andb_false_r; cbn; lia|]. rewrite andb_true_r.
  bool_cases; breflect; cbn [fst snd]; breflect; try discriminate; split_and?; try done; lia.
Qed.

Lemma total_unavailable_census set rev nows l :
  total_unavailable (census set rev nows l) = countb preparing_delete l + countb_at (lacking set) nows l.
Proof.
  unfold census, total_unavailable. rewrite count_instances_spec. cbn.
  assert (countb_at (fun t i => at_hash rev i && lacking set t i) nows l
          + countb_at (fun t i => negb (at_hash rev i) && lacking set t i) nows l
          = countb_at (lacking set) nows l) as <-; [|lia].
  revert nows. induction l as [|i l IH]; intros nows; cbn [countb_at]; [done|]. rewrite <-IH.
  destruct (at_hash rev i), (lacking set (nows O) i); cbn; lia.
Qed.

(** The calculation, with everything the strategy and the census put in. *)
Lemma calculateDiffs_eq nows set l cur rev :
  calculateDiffsWithExpectation nows set l cur rev
  = diffs_of (limits_of set) (census set rev nows l) (us_Paused (rs_update set)) (Z.of_nat (length l)) cur rev.
Proof. done. Qed.

Lemma leaving_nonneg set rev nows l :
  0 <= toDeleteNewRevisionCount (census set rev nows l) /\ 0 <= toDeleteOldRevisionCount (census set rev nows l).
Proof. unfold census. rewrite count_instances_spec. cbn. split; apply countb_nonneg. Qed.

(** The fields of the result over opaque differences and surge. *)
Lemma diffs_of_scale lm c paused n cur rev :
  let d := diffs_of lm c paused n cur rev in
  let u := update_diffs lm c cur rev in
  let s := surge lm c paused u.1 u.2 in
  useSurge d = s.1 /\ useSurgeOldRevision d = s.2 /\ scaleNum d = lm_replicas lm + s.1 - n /\
  scaleUpLimit d = (if scaleNum d >? 0
                    then Z.min (scaleNum d) (Z.max (lm_scaleMaxUnavailable lm - total_unavailable c) 0) else 0) /\
  deleteReadyLimit d = (if (toDeleteNewRevisionCount c >? 0) || (toDeleteOldRevisionCount c >? 0) || (scaleNum d <? 0)
                        then Z.max (lm_maxUnavailable lm + (n - lm_replicas lm) - total_unavailable c) 0 else 0) /\
  updateNum d = (if IntAbs u.1 <=? IntAbs u.2 then u.1 else - u.2) /\
  updateMaxUnavailable d = (if negb (updateNum d =? 0) then lm_maxUnavailable lm + n - lm_replicas lm else 0).
Proof.
  unfold diffs_of. destruct (update_diffs lm c cur rev) as [old new]. cbn [fst snd].
  destruct (surge lm c paused old new) as [s so]. cbn. rewrite Z.sub_0_l. done.
Qed.

(** * Properties *)

(** The number of instances a pass counts as unavailable. *)
Definition unavailable_count (set : RoleInstanceSet) (nows : nat -> Z) (l : list RoleInstance) : Z :=
  countb preparing_delete l + countb_at (lacking set) nows l.

Section scaling.
Context (nows : nat -> Z) (set : RoleInstanceSet) (l : list RoleInstance) (cur rev : string) (Hs : sized set l).
Let lm := limits_of set.
Let n := Z.of_nat (length l).
Let d := calculateDiffsWithExpectation nows set l cur rev.

Lemma surge_range :
  0 <= useSurgeOldRevision d <= useSurge d /\ useSurge d <= Z.max 0 (lm_maxSurge lm) /\
  (us_Paused (rs_update set) = true -> useSurge d = 0) /\ scaleNum d = lm_replicas lm + useSurge d - n.
Proof.
  pose proof (update_diffs_abs set rev cur nows l Hs) as [Ho Hn].
  pose proof (leaving_nonneg set rev nows l) as [Hl1 Hl2].
  pose proof (surge_bounds lm (census set rev nows l) (us_Paused (rs_update set)) _ _ Ho Hn Hl1 Hl2)
    as (Hs1 & Hs2 & Hs3).
  pose proof (diffs_of_scale lm (census set rev nows l) (us_Paused (rs_update set)) n cur rev)
    as (Hd1 & Hd2 & Hd3 & _).
  unfold d. rewrite calculateDiffs_eq. fold lm n. rewrite Hd3, Hd1, Hd2. done.
Qed.

Lemma scale_up_range :
  0 <= scaleUpLimit d <= Z.max 0 (scaleNum d) /\
  scaleUpLimit d <= Z.max 0 (lm_scaleMaxUnavailable lm - unavailable_count set nows l).
Proof.
  pose proof (diffs_of_scale lm (census set rev nows l) (us_Paused (rs_update set)) n cur rev)
    as (_ & _ & _ & Hd & _).
  unfold d, unavailable_count. rewrite calculateDiffs_eq, <-(total_unavailable_census set rev). fold lm n.
  rewrite Hd. bool_cases; breflect; lia.
Qed.

Lemma delete_ready_range :
  0 <= deleteReadyLimit d <= Z.max 0 (lm_maxUnavailable lm + (n - lm_replicas lm) - unavailable_count set nows l).
Proof.
  pose proof (diffs_of_scale lm (census set rev nows l) (us_Paused (rs_update set)) n cur rev)
    as (_ & _ & _ & _ & Hd & _).
  unfold d, unavailable_count. rewrite calculateDiffs_eq, <-(total_unavailable_census set rev). fold lm n.
  rewrite Hd. bool_cases; breflect; lia.
Qed.
End scaling.

(** The numbers to scale by: the surge stays between zero and maxSurge, its
    share for the old revision within it, and there is none while the set is
    paused; the difference is what separates the instances from the replicas and
    the surge; no more instances are created than the difference nor than
    scaleStrategy.maxUnavailable leaves next to the unavailable ones; and no more
    ready instances may be deleted than maxUnavailable leaves next to them. *)
Theorem scale_limits (nows : nat -> Z) (set : RoleInstanceSet) (instances : list RoleInstance)
    (currentRevision updateRevision : string) :
  sized set instances ->
  let lm := limits_of set in
  let n := Z.of_nat (length instances) in
  let d := calculateDiffsWithExpectation nows set instances currentRevision updateRevision in
  0 <= useSurgeOldRevision d <= useSurge d /\ useSurge d <= Z.max 0 (lm_maxSurge lm) /\
  (us_Paused (rs_update set) = true -> useSurge d = 0) /\
  scaleNum d = lm_replicas lm + useSurge d - n /\
  0 <= scaleUpLimit d <= Z.max 0 (scaleNum d) /\
  scaleUpLimit d <= Z.max 0 (lm_scaleMaxUnavailable lm - unavailable_count set nows instances) /\
  0 <= deleteReadyLimit d
    <= Z.max 0 (lm_maxUnavailable lm + (n - lm_replicas lm) - unavailable_count set nows instances).
Proof.
  intros Hs. cbv zeta.
  pose proof (surge_range nows set instances currentRevision updateRevision Hs) as (? & ? & ? & ?).
  pose proof (scale_up_range nows set instances currentRevision updateRevision) as [? ?].
  pose proof (delete_ready_range nows set instances currentRevision updateRevision).
  done.
Qed.

(** An update never crosses the partition.  When the active instances are at
    least the replicas, or the two revisions are one, the number of old instances
    to update is at most what the old revision has beyond the partition, and the
    number of new instances to roll back at most what the new revision has beyond
    its share; an update back to the current revision needs two revisions. *)
Theorem update_respects_partition (nows : nat -> Z) (set : RoleInstanceSet) (instances : list RoleInstance)
    (currentRevision updateRevision : string) :
  sized set instances ->
  let lm := limits_of set in
  let old := countb (active_old updateRevision) instances in
  let new := countb (active_new updateRevision) instances in
  let d := calculateDiffsWithExpectation nows set instances currentRevision updateRevision in
  lm_replicas lm <= old + new \/ updateRevision = currentRevision ->
  (0 < updateNum d -> updateNum d <= old - lm_partition lm) /\
  (updateNum d < 0 ->
     - updateNum d <= new - (lm_replicas lm - lm_partition lm) /\ updateRevision <> currentRevision).
Proof.
  intros Hs. cbv zeta. rewrite calculateDiffs_eq.
  pose proof (diffs_of_scale (limits_of set) (census set updateRevision nows instances) (us_Paused (rs_update set))
    (Z.of_nat (length instances)) currentRevision updateRevision) as (_ & _ & _ & _ & _ & Hu & _).
  pose proof (update_diffs_abs set updateRevision currentRevision nows instances Hs) as [Ho Hn].
  rewrite Hu, Ho, Hn. clear Hu Ho Hn. unfold census, update_diffs. rewrite count_instances_spec.
  cbn -[limits_of]. intros Hge.
  destruct (decide (updateRevision = currentRevision)) as [He|He];
    [rewrite (bool_decide_eq_true_2 _ He)|rewrite (bool_decide_eq_false_2 _ He); destruct Hge; [|done]];
    cbn [fst snd]; bool_cases; breflect; split; try lia; intros; (split; [lia|done]) || lia.
Qed.

(** When no instance is leaving, a pass has nothing to scale and nothing to
    update exactly when there are as many instances as replicas and the old
    revision holds the partition: exactly, or at most when there is only one
    revision to go to. *)
Lemma nothing_to_do_iff (nows : nat -> Z) (set : RoleInstanceSet) (instances : list RoleInstance)
    (currentRevision updateRevision : string) :
  sized set instances ->
  (forall i, i ∈ instances -> preparing_delete i = false /\ isSpecifiedDelete set i = false) ->
  let lm := limits_of set in
  let d := calculateDiffsWithExpectation nows set instances currentRevision updateRevision in
  let old := countb (fun i => negb (at_hash updateRevision i)) instances in
  scaleNum d = 0 /\ updateNum d = 0 <->
  Z.of_nat (length instances) = lm_replicas lm /\
  (if bool_decide (updateRevision = currentRevision) then old <= lm_partition lm else old = lm_partition lm).
Proof.
  intros Hs Hi. cbv zeta. rewrite calculateDiffs_eq.
  pose proof (diffs_of_scale (limits_of set) (census set updateRevision nows instances) (us_Paused (rs_update set))
    (Z.of_nat (length instances)) currentRevision updateRevision) as (_ & _ & Hsn & _ & _ & Hu & _).
  pose proof (update_diffs_abs set updateRevision currentRevision nows instances Hs) as [Ho Hn].
  pose proof (census_total updateRevision instances) as Htot.
  rewrite (countb_zero preparing_delete) in Htot by (intros i Hin; apply (Hi i Hin)).
  assert (countb (active_old updateRevision) instances = countb (fun i => negb (at_hash updateRevision i)) instances) as Hold.
  { apply countb_ext. intros i Hin. unfold active_old. destruct (Hi i Hin) as [-> _]. by rewrite andb_true_r. }
  pose proof (partition_range set) as Hp. destruct Hs as [Hr Hlen]. specialize (Hp ltac:(lia)).
  rewrite Hsn, Hu, Ho, Hn. clear Hsn Hu. revert Ho Hn. unfold census, update_diffs, surge. rewrite count_instances_spec.
  cbn -[limits_of IntAbs]. rewrite <-Hold in *.
  assert (forall f, countb (fun i => f i && leaving set i) instances = 0) as Hl.
  { intros f. apply countb_zero. intros i Hin. unfold leaving. destruct (Hi i Hin) as [_ ->]. by rewrite !andb_false_r. }
  rewrite (Hl (at_hash updateRevision)), (Hl (fun i => negb (at_hash updateRevision i))).
  change (0 + 0 >? 0) with false. cbn -[limits_of IntAbs]. unfold IsIntPlusAndMinus.
  change (lm_replicas (limits_of set)) with (getInstanceSetReplicas set) in *.
  set (A := countb (active_old updateRevision) instances) in *. set (B := countb (active_new updateRevision) instances) in *.
  case_bool_decide; cbn [fst snd]; intros -> ->; bool_cases; breflect; cbn [fst snd]; split;
    intros [? ?]; try lia.
Qed.

(** * A concrete set *)
Module Rolling.
Import StatefulUtils.Fixture.

(** [n] instances at a revision, numbered from [from]. *)
Definition at_rev (from n : Z) (revision : string) (ready : bool) : list RoleInstance :=
  map (fun k => instance k revision ready) (seqZ from n).

Definition four_old : list RoleInstance := at_rev 0 4 "old" true.
Definition nows : nat -> Z := fun k => 1000 * second + Z.of_nat k.

(** Two of four instances may stay old; one surge instance comes first. *)
Example rolling_diffs :
  calculateDiffsWithExpectation nows rolling four_old "old" "new"
  = {| scaleNum := 2; scaleNumOldRevision := 0; scaleUpLimit := 2; deleteReadyLimit := 0; useSurge := 2;
       useSurgeOldRevision := 0; updateNum := 2; updateMaxUnavailable := 1 |}.
Proof. by vm_compute. Qed.

(** With fewer active instances than replicas an old instance is to be updated
    although the old revision is three short of its partition. *)
Example shortage_update :
  let set := set 10 (Some (FromInt32 5)) None (Some (FromInt32 1)) in
  let l := (at_rev 0 2 "old" true ++ at_rev 2 4 "new" true)%list in
  lm_partition (limits_of set) = 5 /\ countb (active_old "new") l = 2 /\
  updateNum (calculateDiffsWithExpectation nows set l "old" "new") = 1.
Proof. by vm_compute. Qed.
End Rolling.

Lemma scale_limits_witness :
  let d := calculateDiffsWithExpectation Rolling.nows Fixture.rolling Rolling.four_old "old" "new" in
  0 <= useSurgeOldRevision d <= useSurge d /\ 
  scaleNum d = lm_replicas (limits_of Fixture.rolling) + useSurge d - Z.of_nat (length Rolling.four_old).
Proof.
  assert (sized Fixture.rolling Rolling.four_old) as Hs by (unfold sized; vm_compute; repeat split; discriminate).
  cbv zeta.
  destruct (scale_limits Rolling.nows Fixture.rolling Rolling.four_old "old" "new" Hs) as (H1 & _ & _ & H2 & _).
  split; [exact H1|exact H2].
Defined.

Lemma update_respects_partition_witness :
  let d := calculateDiffsWithExpectation Rolling.nows Fixture.rolling Rolling.four_old "old" "new" in
  0 < updateNum d /\ updateNum d <= 4 - lm_partition (limits_of Fixture.rolling).
Proof.
  assert (sized Fixture.rolling Rolling.four_old) as Hs by (unfold sized; vm_compute; repeat split; discriminate).
  assert (0 < updateNum (calculateDiffsWithExpectation Rolling.nows Fixture.rolling Rolling.four_old "old" "new")) as Hu
    by by vm_compute.
  split; [exact Hu|].
  destruct (update_respects_partition Rolling.nows Fixture.rolling Rolling.four_old "old" "new" Hs) as [H _];
    [left; vm_compute; discriminate|exact (H Hu)].
Defined.
