(* ===== verification/StatelessWorld.v ===== *)
(** Stateless mode, the outside world: the requests to the API server, the clock,
    the random source, the expectation stores and the instances in memory.

    [Env] answers every request as a function of the requests made before it, so
    any behaviour of the API server, of the clock and of the scheduler of
    goroutines is covered.  The list [w_instances] is the slice of instance
    pointers one reconcile shares between scaling, updating and the status. *)
From Stdlib Require Import ZArith Lia Bool Ascii String.
From stdpp Require Import base tactics list strings gmap sets.
From S2P Require Import Prelude Types Expectations Effects Revisions StatefulUtils StatelessUtils.

(** A merge patch of an instance's metadata; [None] leaves the finalizers alone. *)
Record MergePatch := {
  mp_Labels : labels;
  mp_Annotations : labels;
  mp_Finalizers : option (list string)
}.

(** A status update is recorded with the object it was computed from. *)
Inductive api_call :=
| CallGet (namespace name : string)
| CallCreate (i : RoleInstance)
| CallDelete (i : RoleInstance)
| CallPatch (i : RoleInstance) (p : MergePatch)
| CallUpdate (i : RoleInstance)
| CallUpdateStatus (old new : RoleInstance)
| CallListInstances (namespace : string) (selector : labels)
| CallGetSet (namespace name : string)
| CallUpdateSet (s : RoleInstanceSet)
| CallUpdateSetStatus (s : RoleInstanceSet)
| CallListRevisions (namespace : string) (selector : option labels)
| CallGetRevision (namespace name : string)
| CallCreateRevision (r : ControllerRevision)
| CallUpdateRevision (r : ControllerRevision)
| CallDeleteRevision (r : ControllerRevision).

(** pkg/inplace/instance/readiness: an entry of the custom readiness message. *)
Record Message := { msg_UserAgent : string; msg_Key : string }.

#[export] Instance Message_eq_dec : EqDecision Message.
Proof. solve_decision. Defined.

Class Env := {
  env_now : nat -> Z;
  (* time.Format(time.RFC3339), in the local time zone *)
  env_timestamp : Z -> string;
  (* rand.String(5) *)
  env_random : nat -> string;
  env_get : list api_call -> string -> string -> result RoleInstance;
  env_create : list api_call -> RoleInstance -> result unit;
  env_delete : list api_call -> RoleInstance -> result unit;
  env_patch : list api_call -> RoleInstance -> MergePatch -> result RoleInstance;
  env_update : list api_call -> RoleInstance -> result RoleInstance;
  env_update_status : list api_call -> RoleInstance -> result unit;
  env_list_instances : list api_call -> string -> labels -> result (list RoleInstance);
  env_get_set : list api_call -> string -> string -> result RoleInstanceSet;
  env_update_set : list api_call -> RoleInstanceSet -> result unit;
  env_update_set_status : list api_call -> RoleInstanceSet -> result unit;
  env_list_revisions : list api_call -> string -> option labels -> result (list ControllerRevision);
  env_get_revision : list api_call -> string -> string -> result ControllerRevision;
  env_create_revision : list api_call -> ControllerRevision -> result ControllerRevision;
  env_update_revision : list api_call -> ControllerRevision -> result ControllerRevision;
  env_delete_revision : list api_call -> ControllerRevision -> result unit;
  (* the order in which the goroutines of a batch reach the server *)
  env_schedule : list api_call -> list RoleInstance -> list RoleInstance;
  (* the order in which a Go map is iterated *)
  env_unsorted : gset string -> list string;
  (* encoding/json on the three values the code stores as text *)
  env_template : ControllerRevision -> result RoleInstanceSpec;
  env_update_state : string -> Z -> string;
  env_messages : string -> list Message;
  env_dump : list Message -> string;
  (* an object is read under the name asked for *)
  env_get_name : forall t ns n i, env_get t ns n = Ok i -> ri_Name i = n;
  env_schedule_perm : forall t l, env_schedule t l ≡ₚ l;
  env_unsorted_perm : forall X, env_unsorted X ≡ₚ elements X
}.

Record world := {
  w_trace : list api_call;
  w_clock : nat;
  w_rand : nat;
  w_durations : gmap string Requeue.Duration;
  w_scale : gmap string Scale.controller;
  w_versions : gmap string ResourceVersion.versions;
  w_instances : list RoleInstance;
  w_cache : list revisionEqualityCacheKey
}.

Definition with_trace (t : list api_call) (w : world) : world := {|
  w_trace := t; w_clock := w_clock w; w_rand := w_rand w; w_durations := w_durations w;
  w_scale := w_scale w; w_versions := w_versions w; w_instances := w_instances w; w_cache := w_cache w |}.
Definition with_clock (c : nat) (w : world) : world := {|
  w_trace := w_trace w; w_clock := c; w_rand := w_rand w; w_durations := w_durations w;
  w_scale := w_scale w; w_versions := w_versions w; w_instances := w_instances w; w_cache := w_cache w |}.
Definition with_rand (r : nat) (w : world) : world := {|
  w_trace := w_trace w; w_clock := w_clock w; w_rand := r; w_durations := w_durations w;
  w_scale := w_scale w; w_versions := w_versions w; w_instances := w_instances w; w_cache := w_cache w |}.
Definition with_durations (d : gmap string Requeue.Duration) (w : world) : world := {|
  w_trace := w_trace w; w_clock := w_clock w; w_rand := w_rand w; w_durations := d;
  w_scale := w_scale w; w_versions := w_versions w; w_instances := w_instances w; w_cache := w_cache w |}.
Definition with_scale (s : gmap string Scale.controller) (w : world) : world := {|
  w_trace := w_trace w; w_clock := w_clock w; w_rand := w_rand w; w_durations := w_durations w;
  w_scale := s; w_versions := w_versions w; w_instances := w_instances w; w_cache := w_cache w |}.
Definition with_versions (v : gmap string ResourceVersion.versions) (w : world) : world := {|
  w_trace := w_trace w; w_clock := w_clock w; w_rand := w_rand w; w_durations := w_durations w;
  w_scale := w_scale w; w_versions := v; w_instances := w_instances w; w_cache := w_cache w |}.
Definition with_instances (l : list RoleInstance) (w : world) : world := {|
  w_trace := w_trace w; w_clock := w_clock w; w_rand := w_rand w; w_durations := w_durations w;
  w_scale := w_scale w; w_versions := w_versions w; w_instances := l; w_cache := w_cache w |}.

Definition with_cache (c : list revisionEqualityCacheKey) (w : world) : world := {|
  w_trace := w_trace w; w_clock := w_clock w; w_rand := w_rand w; w_durations := w_durations w;
  w_scale := w_scale w; w_versions := w_versions w; w_instances := w_instances w; w_cache := c |}.

Abbreviation M := (ST world).

Section effects.
Context `{Env}.

Definition now : M Z := fun w => (Ok (env_now (w_clock w)), with_clock (S (w_clock w)) w).

(** [n] readings of the clock, one for each instance of a list. *)
Definition readings (n : nat) : M (nat -> Z) :=
  fun w => (Ok (fun k => env_now (w_clock w + k)%nat), with_clock (w_clock w + n)%nat w).

Definition random : M string := fun w => (Ok (env_random (w_rand w)), with_rand (S (w_rand w)) w).

Definition call (c : api_call) : M unit := modify (fun w => with_trace (c :: w_trace w) w).

(** A request: recorded, then answered from the requests before it. *)
Definition request {A} (c : api_call) (answer : list api_call -> result A) : M A :=
  t ← gets w_trace; call c ≫= fun _ => lift (answer t).

Definition Get (ns name : string) : M RoleInstance :=
  request (CallGet ns name) (fun t => env_get t ns name).
Definition Create (i : RoleInstance) : M unit := request (CallCreate i) (fun t => env_create t i).
Definition Delete (i : RoleInstance) : M unit := request (CallDelete i) (fun t => env_delete t i).
Definition Patch (i : RoleInstance) (p : MergePatch) : M RoleInstance :=
  request (CallPatch i p) (fun t => env_patch t i p).
Definition Update (i : RoleInstance) : M RoleInstance := request (CallUpdate i) (fun t => env_update t i).
Definition UpdateStatus (old new : RoleInstance) : M unit :=
  request (CallUpdateStatus old new) (fun t => env_update_status t new).

Definition ListInstances (ns : string) (selector : labels) : M (list RoleInstance) :=
  request (CallListInstances ns selector) (fun t => env_list_instances t ns selector).
Definition GetSet (ns name : string) : M RoleInstanceSet :=
  request (CallGetSet ns name) (fun t => env_get_set t ns name).
Definition UpdateSet (s : RoleInstanceSet) : M unit := request (CallUpdateSet s) (fun t => env_update_set t s).
Definition UpdateSetStatus (s : RoleInstanceSet) : M unit :=
  request (CallUpdateSetStatus s) (fun t => env_update_set_status t s).

#[export] Instance revision_client : RevisionClient world := {|
  rev_list := fun ns selector => request (CallListRevisions ns selector) (fun t => env_list_revisions t ns selector);
  rev_get := fun ns name => request (CallGetRevision ns name) (fun t => env_get_revision t ns name);
  rev_create := fun r => request (CallCreateRevision r) (fun t => env_create_revision t r);
  rev_update := fun r => request (CallUpdateRevision r) (fun t => env_update_revision t r);
  rev_delete := fun r => request (CallDeleteRevision r) (fun t => env_delete_revision t r) |}.

(** The stores of utils/utils.go. *)
Definition ExpectScale (set : RoleInstanceSet) (a : Scale.ScaleAction) (name : string) : M unit :=
  modify (fun w => with_scale (Scale.ExpectScale (GetControllerKey set) a name (w_scale w)) w).
Definition ObserveScale (set : RoleInstanceSet) (a : Scale.ScaleAction) (name : string) : M unit :=
  modify (fun w => with_scale (Scale.ObserveScale (GetControllerKey set) a name (w_scale w)) w).
Definition ExpectVersion (m : ObjectMeta) : M unit :=
  modify (fun w => with_versions (ResourceVersion.Expect m (w_versions w)) w).
Definition push_duration (set : RoleInstanceSet) (d : Z) : M unit :=
  modify (fun w => with_durations (Requeue.Push (GetControllerKey set) d (w_durations w)) w).
End effects.

#[export] Program Instance revision_cache : RevisionCache world := {|
  cache_get := w_cache;
  cache_put := with_cache |}.
Next Obligation. done. Qed.

Lemma readings_inv `{Env} {A} n (f : (nat -> Z) -> M A) w r w' :
  (readings n ≫= f) w = (r, w') ->
  f (fun k => env_now (w_clock w + k)%nat) (with_clock (w_clock w + n)%nat w) = (r, w').
Proof. done. Qed.

Lemma now_inv `{Env} {A} (f : Z -> M A) w r w' :
  (now ≫= f) w = (r, w') -> f (env_now (w_clock w)) (with_clock (S (w_clock w)) w) = (r, w').
Proof. done. Qed.

(** * Quiet steps *)

(** An invariant that looks at the instances in memory only. *)
Class Framed (I : world -> Prop) : Prop :=
  framed : forall w w', w_instances w = w_instances w' -> I w -> I w'.

#[export] Instance framed_is l : Framed (fun w => w_instances w = l).
Proof. by intros w w' <-. Qed.
#[export] Instance framed_true : Framed (fun _ => True).
Proof. done. Qed.

Abbreviation run := (Effects.run w_trace).
Abbreviation silent := (Effects.silent w_trace).

#[export] Hint Extern 0 (Framed _) => typeclasses eauto : silent.

Section quiet.
Context `{Env} (I : world -> Prop) (P : api_call -> bool).

Lemma silent_store f :
  Framed I -> (forall w, w_instances (f w) = w_instances w) ->
  (forall w, w_trace (f w) = w_trace w) -> silent I P (modify f).
Proof. intros HI Hi Ht. apply silent_modify; [|done]. intros w. by apply HI. Qed.

Lemma run_asked c (Q : result unit -> Z -> Prop) :
  Framed I -> Q (Ok tt) (if P c then 1 else 0) -> run I P (call c) Q.
Proof.
  intros HI HQ w r w' Hw [= <- <-]. split; [by eapply HI; [..|exact Hw]|]. exists [c]. split; [done|].
  simpl. by rewrite Z.add_0_r.
Qed.

Lemma silent_asked c : Framed I -> P c = false -> silent I P (call c).
Proof. intros HI Hc. apply run_asked; [done|]. by rewrite Hc. Qed.

Lemma silent_clock : Framed I -> silent I P now.
Proof. intros HI w r w' Hw [= <- <-]. split; [by eapply HI; [..|exact Hw]|]. by exists []. Qed.

Lemma silent_readings n : Framed I -> silent I P (readings n).
Proof. intros HI w r w' Hw [= <- <-]. split; [by eapply HI; [..|exact Hw]|]. by exists []. Qed.

Lemma silent_random : Framed I -> silent I P random.
Proof. intros HI w r w' Hw [= <- <-]. split; [by eapply HI; [..|exact Hw]|]. by exists []. Qed.

Lemma silent_request {A} c (answer : list api_call -> result A) :
  Framed I -> P c = false -> silent I P (request c answer).
Proof. intros. unfold request. silence. by apply silent_asked. Qed.
End quiet.

#[export] Hint Resolve silent_clock silent_readings silent_random : silent.
#[export] Hint Extern 1 (Effects.silent w_trace _ _ (modify _)) =>
  (apply silent_store; [typeclasses eauto|done..]) : silent.
#[export] Hint Extern 1 (Effects.silent w_trace _ _ (request _ _)) =>
  (apply silent_request; [typeclasses eauto|by auto]) : silent.
#[export] Hint Unfold Get Create Delete Patch Update UpdateStatus ExpectScale ObserveScale ExpectVersion
  push_duration : silent.

(** * A concrete server *)

(** Every write succeeds, nothing is found by name, nothing is updated in place,
    and the clock stands still. *)
Module Server.
#[export] Program Instance env : Env := {|
  env_now := fun _ => 1000 * second;
  env_timestamp := fun _ => "1970-01-01T00:16:40Z"%string;
  env_random := fun k => "id" +:+ GoStrings.Itoa (Z.of_nat k);
  env_get := fun _ _ _ => Err "NotFound"%string;
  env_create := fun _ _ => Ok tt;
  env_delete := fun _ _ => Ok tt;
  env_patch := fun _ i p => Ok (ri_with_meta (with_labels (mp_Labels p ∪ om_Labels (ri_meta i)) (ri_meta i)) i);
  env_update := fun _ i => Ok i;
  env_update_status := fun _ _ => Ok tt;
  env_list_instances := fun _ _ _ => Ok [];
  env_get_set := fun _ _ _ => Err "NotFound"%string;
  env_update_set := fun _ _ => Ok tt;
  env_update_set_status := fun _ _ => Ok tt;
  env_list_revisions := fun _ _ _ => Ok [];
  env_get_revision := fun _ _ _ => Err "NotFound"%string;
  env_create_revision := fun _ r => Ok r;
  env_update_revision := fun _ r => Ok r;
  env_delete_revision := fun _ _ => Ok tt;
  env_schedule := fun _ l => rev l;
  env_unsorted := elements;
  env_template := fun _ => Err "invalid"%string;
  env_update_state := fun rev _ => rev;
  env_messages := fun _ => [];
  env_dump := fun _ => ""%string |}.
Next Obligation. done. Qed.
Next Obligation. intros. symmetry. apply Permutation_rev. Qed.
Next Obligation. done. Qed.

#[export] Instance pod_names : PodNames := fun _ => true.
#[export] Instance no_ports : PortAllocation := StatefulUtils.Fixture.no_ports.

Definition start (instances : list RoleInstance) : world := {|
  w_trace := []; w_clock := 0; w_rand := 0; w_durations := ∅; w_scale := ∅; w_versions := ∅;
  w_instances := instances; w_cache := [] |}.
End Server.
