(* ===== verification/InstanceControls.v ===== *)
(** pkg/inplace/instance: the controls that write one instance.

    [Readiness] (readiness/) keeps the list of reasons an instance is not ready;
    [Lifecycle] (lifecycle/) moves an instance through its lifecycle states;
    [InPlace] (inplaceupdate/) replaces the spec of a running instance;
    [PatchRoleInstanceSpecifiedDelete] (specifieddelete/) marks it for deletion.
    Each reads the instance again before it writes and retries on a conflict. *)
From Stdlib Require Import ZArith Lia Bool Ascii String.
From stdpp Require Import base tactics list strings gmap.
From S2P Require Import Prelude GoStrings Types Effects StatefulUtils StatelessUtils StatelessWorld.

(** * Conditions (instance_util.go) *)

Definition RoleInstanceCustomReady : string := "RoleInstanceCustomReady".
Definition InPlaceUpdateStateKey : string := RBGPrefix +:+ "inplace-update-state".

Definition with_conditions (cs : list RoleInstanceCondition) (i : RoleInstance) : RoleInstance := {|
  ri_meta := ri_meta i; ri_spec := ri_spec i;
  ri_status := {| rist_ObservedGeneration := rist_ObservedGeneration (ri_status i); rist_Conditions := cs;
                  rist_ComponentStatuses := rist_ComponentStatuses (ri_status i);
                  rist_LabelSelector := rist_LabelSelector (ri_status i);
                  rist_CurrentRevision := rist_CurrentRevision (ri_status i);
                  rist_UpdateRevision := rist_UpdateRevision (ri_status i);
                  rist_CollisionCount := rist_CollisionCount (ri_status i);
                  rist_Baselines := rist_Baselines (ri_status i);
                  rist_RestartCount := rist_RestartCount (ri_status i);
                  rist_LastRestartTime := rist_LastRestartTime (ri_status i) |} |}.

(** The first condition of the type is replaced when its status differs. *)
Fixpoint set_condition (c : RoleInstanceCondition) (cs : list RoleInstanceCondition) : list RoleInstanceCondition :=
  match cs with
  | [] => [c]
  | c' :: cs' =>
      if bool_decide (cond_Type c' = cond_Type c) then
        (if bool_decide (cond_Status c' <> cond_Status c) then c else c') :: cs'
      else c' :: set_condition c cs'
  end.

Definition SetRoleInstanceCondition (c : RoleInstanceCondition) (i : RoleInstance) : RoleInstance :=
  with_conditions (set_condition c (rist_Conditions (ri_status i))) i.

Definition unready_message (i : RoleInstance) (gate : string) : option string :=
  match GetRoleInstanceCondition i gate with
  | None => Some ("corresponding condition of role instance readiness gate " +:+ quoted gate +:+ " does not exist.")
  | Some c =>
      if bool_decide (cond_Status c <> ConditionTrue) then
        Some ("the status of role instance readiness gate " +:+ quoted gate +:+ " is not "
              +:+ quoted "True" +:+ ", but " +:+ cond_Status c)
      else None
  end.

Definition SetRoleInstanceNotReadyCondition (i : RoleInstance) : RoleInstance :=
  match GetRoleInstanceCondition i RoleInstanceReady with
  | None => i
  | Some ready =>
      if bool_decide (cond_Status ready = ConditionFalse) then i
      else
        match omap (unready_message i) (ris_ReadinessGates (ri_spec i)) with
        | [] => i
        | unreadyMessages =>
            SetRoleInstanceCondition {|
              cond_Type := RoleInstanceReady; cond_Status := ConditionFalse; cond_LastTransitionTime := None;
              cond_Reason := "ReadinessGatesNotReady"; cond_Message := Join unreadyMessages ", " |} i
        end
  end.

(** * The readiness messages (readiness/) *)
Module Readiness.

Definition Less (x y : Message) : bool :=
  if bool_decide (msg_UserAgent x = msg_UserAgent y) then String.ltb (msg_Key x) (msg_Key y)
  else String.ltb (msg_UserAgent x) (msg_UserAgent y).

Definition has_key (messages : list Message) (msg : Message) : bool :=
  existsb (fun m => bool_decide (m = msg)) messages.

Section readiness.
Context `{Env, SortSlice}.

Definition dump (messages : list Message) : string := env_dump (sort_slice Less messages).

(** The messages an earlier [dump] left; none in an empty text. *)
Definition messages_of (base : string) : list Message :=
  if bool_decide (base = ""%string) then [] else env_messages base.

Definition addMessage (base : string) (msg : Message) : bool * list Message :=
  let messages := messages_of base in
  if has_key messages msg then (false, messages) else (true, (messages ++ [msg])%list).

Definition removeMessage (base : string) (msg : Message) : bool * list Message :=
  let messages := messages_of base in
  (has_key messages msg, List.filter (fun m => negb (bool_decide (m = msg))) messages).

Definition contains_gate (i : RoleInstance) (condType : string) : bool :=
  existsb (fun g => bool_decide (g = condType)) (ris_ReadinessGates (ri_spec i)).

Definition alreadyHasKey (i : RoleInstance) (msg : Message) : bool :=
  match GetRoleInstanceCondition i RoleInstanceCustomReady with
  | None => false
  | Some c =>
      if bool_decide (cond_Status c = ConditionTrue) || bool_decide (cond_Message c = ""%string) then false
      else has_key (env_messages (cond_Message c)) msg
  end.

(** [*condition = ...] through the pointer into the conditions. *)
Fixpoint write_condition (t : string) (f : RoleInstanceCondition -> RoleInstanceCondition)
    (cs : list RoleInstanceCondition) : list RoleInstanceCondition :=
  match cs with
  | [] => []
  | c :: cs' => if bool_decide (cond_Type c = t) then f c :: cs' else c :: write_condition t f cs'
  end.

Definition custom (status message : string) (t : Z) (c : RoleInstanceCondition) : RoleInstanceCondition := {|
  cond_Type := cond_Type c; cond_Status := status; cond_LastTransitionTime := Some t;
  cond_Reason := cond_Reason c; cond_Message := message |}.

(** What [addNotReadyKey] writes over the instance it read; [None]: nothing. *)
Definition add_key (msg : Message) (t : Z) (i : RoleInstance) : option RoleInstance :=
  match GetRoleInstanceCondition i RoleInstanceCustomReady with
  | None =>
      Some (SetRoleInstanceNotReadyCondition (with_conditions
        (rist_Conditions (ri_status i) ++ [{|
           cond_Type := RoleInstanceCustomReady; cond_Status := ""; cond_LastTransitionTime := Some t;
           cond_Reason := ""; cond_Message := dump (addMessage "" msg).2 |}])%list i))
  | Some c =>
      let '(changed, messages) := addMessage (cond_Message c) msg in
      if negb changed then None
      else Some (SetRoleInstanceNotReadyCondition (with_conditions
             (write_condition RoleInstanceCustomReady (custom ConditionFalse (dump messages) t)
                (rist_Conditions (ri_status i))) i))
  end.

Definition remove_key (msg : Message) (t : Z) (i : RoleInstance) : option RoleInstance :=
  match GetRoleInstanceCondition i RoleInstanceCustomReady with
  | None => None
  | Some c =>
      let '(changed, messages) := removeMessage (cond_Message c) msg in
      if negb changed then None
      else
        let status := if bool_decide (messages = []) then ConditionTrue else cond_Status c in
        Some (with_conditions
          (write_condition RoleInstanceCustomReady (custom status (dump messages) t)
             (rist_Conditions (ri_status i))) i)
  end.

(** Read, compute, write the status; [None] writes nothing. *)
Definition update_status_by (i : RoleInstance) (f : Z -> RoleInstance -> option RoleInstance) : M unit :=
  RetryOnConflict DefaultBackoff (
    clone ← Get (om_Namespace (ri_meta i)) (ri_Name i);
    t ← now;
    match f t clone with
    | None => mret tt
    | Some new => UpdateStatus clone new
    end).

Definition AddNotReadyKey (i : RoleInstance) (msg : Message) : M unit :=
  if alreadyHasKey i msg then mret tt
  else if negb (contains_gate i RoleInstanceCustomReady) then mret tt
  else update_status_by i (add_key msg).

Definition RemoveNotReadyKey (i : RoleInstance) (msg : Message) : M unit :=
  if negb (contains_gate i RoleInstanceCustomReady) then mret tt
  else update_status_by i (remove_key msg).
End readiness.
End Readiness.

(** * Lifecycle states (lifecycle/lifecycle_utils.go) *)
Module Lifecycle.

Definition preparingDeleteHookKey : string := "preDeleteHook".
Definition preparingUpdateHookKey : string := "preUpdateHook".

Definition getReadinessMessage (key : string) : Message := {| msg_UserAgent := "Lifecycle"; msg_Key := key |}.

Section lifecycle.
Context `{Env, SortSlice}.

Definition executeRoleInstanceNotReadyPolicy (i : RoleInstance) (state : string) : M unit :=
  if bool_decide (state = StatePreparingDelete) then
    Readiness.AddNotReadyKey i (getReadinessMessage preparingDeleteHookKey)
  else if bool_decide (state = StatePreparingUpdate) then
    Readiness.AddNotReadyKey i (getReadinessMessage preparingUpdateHookKey)
  else if bool_decide (state = StateNormal) then
    Readiness.RemoveNotReadyKey i (getReadinessMessage preparingUpdateHookKey)
  else mret tt.

Definition state_patch (state : string) (t : Z) : MergePatch := {|
  mp_Labels := {[RoleInstanceSetLifecycleStateKey := state]};
  mp_Annotations := {[RoleInstanceSetLifecycleTimestampKey := env_timestamp t]};
  mp_Finalizers := None |}.

(** Whether the state was written, and the instance the server returned. *)
Definition UpdateRoleInstanceLifecycle (i : RoleInstance) (state : string) (markPodNotReady : bool)
    : M (bool * RoleInstance) :=
  (if markPodNotReady then executeRoleInstanceNotReadyPolicy i state else mret tt) ≫= fun _ =>
  if bool_decide (GetRoleInstanceLifecycleState i = state) then mret (false, i)
  else
    t ← now;
    got ← Patch i (state_patch state t);
    mret (true, got).

(** The labels of the handler follow the state in the patch, so they win. *)
Definition handler_patch (state : string) (h : LifecycleHook) (t : Z) : MergePatch := {|
  mp_Labels := lh_LabelsHandler h ∪ {[RoleInstanceSetLifecycleStateKey := state]};
  mp_Annotations := {[RoleInstanceSetLifecycleTimestampKey := env_timestamp t]};
  mp_Finalizers := Some (lh_FinalizersHandler h) |}.

Definition UpdateRoleInstanceLifecycleWithHandler (i : RoleInstance) (state : string)
    (inPlaceUpdateHandler : option LifecycleHook) : M (bool * RoleInstance) :=
  match inPlaceUpdateHandler with
  | None => mret (false, i)
  | Some h =>
      (if lh_MarkNotReady h then executeRoleInstanceNotReadyPolicy i state else mret tt) ≫= fun _ =>
      if bool_decide (GetRoleInstanceLifecycleState i = state) then mret (false, i)
      else
        t ← now;
        got ← Patch i (handler_patch state h t);
        mret (true, got)
  end.
End lifecycle.
End Lifecycle.

(** specifieddelete/specified_delete.go: whether it was patched, and the
    instance, which the client overwrites with the server's answer. *)
Definition delete_patch (value : string) : MergePatch :=
  {| mp_Labels := {[RoleInstanceDeleteLabelKey := value]}; mp_Annotations := ∅; mp_Finalizers := None |}.

Definition PatchRoleInstanceSpecifiedDelete `{Env} (i : RoleInstance) (value : string) : M (bool * RoleInstance) :=
  if IsSpecifiedDelete (ri_meta i) then mret (false, i)
  else got ← Patch i (delete_patch value); mret (true, got).

(** * In-place update (inplaceupdate/) *)
Module InPlace.

(** [componentSizeChanges(newTemplate, oldTemplate)], in the order it is called. *)
Definition componentSizeChanges (oldComponents newComponents : list RoleInstanceComponent) : bool :=
  if negb (length oldComponents =? length newComponents)%nat then true
  else
    let sizes := componentSizes oldComponents in
    negb (forallb (fun c => bool_decide (sizes !! ric_Name c = Some (GetComponentSize (Some c)))) newComponents).

Definition canNotInPlaceUpdate (newTemplate oldTemplate : RoleInstanceSpec) : bool :=
  componentSizeChanges (ris_Components newTemplate) (ris_Components oldTemplate).

Record UpdateSpec := { up_Revision : string; up_NewTemplate : RoleInstanceSpec }.

Record UpdateResult := {
  ur_InPlaceUpdate : bool;
  ur_UpdateErr : option error;
  ur_DelayDuration : Z;
  ur_NewResourceVersion : string
}.

Definition hasEqualCondition (i : RoleInstance) (new : RoleInstanceCondition) : bool :=
  match GetRoleInstanceCondition i (cond_Type new) with
  | None => false
  | Some old =>
      bool_decide (cond_Status old = cond_Status new) && bool_decide (cond_Reason old = cond_Reason new)
      && bool_decide (cond_Message old = cond_Message new)
  end.

(** What [updateCondition] writes over the instance it read. *)
Definition put_condition (c : RoleInstanceCondition) (i : RoleInstance) : option RoleInstance :=
  if hasEqualCondition i c then None
  else
    let i' := SetRoleInstanceCondition c i in
    Some (if bool_decide (cond_Status c = ConditionFalse) then SetRoleInstanceNotReadyCondition i' else i').

Definition ready_condition (status reason : string) (t : Z) : RoleInstanceCondition := {|
  cond_Type := RoleInstanceInPlaceUpdateReady; cond_Status := status; cond_LastTransitionTime := Some t;
  cond_Reason := reason; cond_Message := "" |}.

Section inplace.
Context `{Env, SortSlice}.

Definition updateCondition (i : RoleInstance) (c : RoleInstanceCondition) : M unit :=
  RetryOnConflict DefaultBackoff (
    clone ← Get (om_Namespace (ri_meta i)) (ri_Name i);
    match put_condition c clone with
    | None => mret tt
    | Some new => UpdateStatus clone new
    end).

(** The [DelayDuration] of the result. *)
Definition Refresh (i : RoleInstance) : M Z :=
  if negb (CheckRoleInstanceUpdateCompleted i) then mret 0
  else if negb (containsReadinessGate i) then mret 0
  else
    t ← now;
    updateCondition i (ready_condition ConditionTrue "" t) ≫= fun _ => mret 0.

Definition CalculateSpec (oldRevision : option ControllerRevision) (newRevision : ControllerRevision)
    : option UpdateSpec :=
  match oldRevision with
  | None => None
  | Some old =>
      match env_template old, env_template newRevision with
      | Ok oldTemp, Ok newTemp =>
          if canNotInPlaceUpdate newTemp oldTemp then None
          else Some {| up_Revision := cr_Name newRevision; up_NewTemplate := newTemp |}
      | _, _ => None
      end
  end.

Definition CanUpdateInPlace (oldRevision : option ControllerRevision) (newRevision : ControllerRevision) : bool :=
  bool_decide (is_Some (CalculateSpec oldRevision newRevision)).

(** The instance as it is written back: the new revision, the [Updating] state
    of [AdditionalFuncs], the in-place state and the new spec. *)
Definition patched (spec : UpdateSpec) (t1 t2 : Z) (i : RoleInstance) : RoleInstance :=
  let i := SetRoleInstanceLifecycle StateUpdating (env_timestamp t1)
             (ri_with_meta (WriteRevisionHash (up_Revision spec) (ri_meta i)) i) in
  let m := with_annotations
             (<[InPlaceUpdateStateKey := env_update_state (up_Revision spec) t2]> (om_Annotations (ri_meta i)))
             (ri_meta i) in
  InjectVersionedRoleInstanceSpec
    {| ri_meta := m; ri_spec := up_NewTemplate spec; ri_status := ri_status i |}.

Definition updateRoleInstanceInPlace (i : RoleInstance) (spec : UpdateSpec) : M string :=
  RetryOnConflict DefaultBackoff (
    clone ← Get (om_Namespace (ri_meta i)) (ri_Name i);
    t1 ← now; t2 ← now;
    new ← StatelessWorld.Update (patched spec t1 t2 clone);
    mret (om_ResourceVersion (ri_meta new))).

Definition done_in_place (e : option error) (version : string) : UpdateResult :=
  {| ur_InPlaceUpdate := true; ur_UpdateErr := e; ur_DelayDuration := 0; ur_NewResourceVersion := version |}.

Definition Update (i : RoleInstance) (oldRevision : option ControllerRevision) (newRevision : ControllerRevision)
    : M UpdateResult :=
  match CalculateSpec oldRevision newRevision with
  | None => mret {| ur_InPlaceUpdate := false; ur_UpdateErr := None; ur_DelayDuration := 0;
                  ur_NewResourceVersion := "" |}
  | Some spec =>
      attempt
        (if containsReadinessGate i then
           t ← now; updateCondition i (ready_condition ConditionFalse "StartInPlaceUpdate" t)
         else mret tt)
        (fun r =>
           match r with
           | Err e => mret (done_in_place (Some e) "")
           | Ok _ =>
               attempt (updateRoleInstanceInPlace i spec) (fun r =>
                 match r with
                 | Err e => mret (done_in_place (Some e) "")
                 | Ok version => mret (done_in_place None version)
                 end)
           end)
  end.
End inplace.
End InPlace.

(** * Which requests take an instance out of service

    Deleting it, moving it to a preparing state, marking it for deletion,
    replacing its spec, or turning its Ready condition. *)

Definition takes_out_patch (p : MergePatch) : bool :=
  bool_decide (mp_Labels p !! RoleInstanceSetLifecycleStateKey = Some StatePreparingDelete)
  || bool_decide (mp_Labels p !! RoleInstanceSetLifecycleStateKey = Some StatePreparingUpdate)
  || bool_decide (is_Some (mp_Labels p !! RoleInstanceDeleteLabelKey)).

Definition is_ready (i : RoleInstance) : bool := condition_true (GetRoleInstanceCondition i RoleInstanceReady).

(** The name of the instance, if the request takes one out. *)
Definition takes_out (c : api_call) : option string :=
  match c with
  | CallDelete i => Some (ri_Name i)
  | CallPatch i p => if takes_out_patch p then Some (ri_Name i) else None
  | CallUpdate i => Some (ri_Name i)
  | CallUpdateStatus old new => if is_ready old && negb (is_ready new) then Some (ri_Name old) else None
  | _ => None
  end.

(** The request takes out an instance whose name is not in [X]. *)
Definition outside (X : gset string) (c : api_call) : bool :=
  match takes_out c with Some n => negb (bool_decide (n ∈ X)) | None => false end.

(** The instance is named by one of the requests. *)
Definition taken (calls : list api_call) (i : RoleInstance) : bool :=
  existsb (fun c => bool_decide (takes_out c = Some (ri_Name i))) calls.

Lemma outside_in X c n : takes_out c = Some n -> n ∈ X -> outside X c = false.
Proof. intros Hc Hn. unfold outside. rewrite Hc. by rewrite bool_decide_eq_true_2. Qed.

Lemma outside_none X c : takes_out c = None -> outside X c = false.
Proof. intros Hc. unfold outside. by rewrite Hc. Qed.

Lemma outside_delete X i : ri_Name i ∈ X -> outside X (CallDelete i) = false.
Proof. by apply outside_in. Qed.

Lemma outside_patch X i p : ri_Name i ∈ X -> outside X (CallPatch i p) = false.
Proof.
  intros Hi. unfold outside. cbn [takes_out]. destruct (takes_out_patch p); [|done].
  by rewrite bool_decide_eq_true_2.
Qed.

Lemma outside_status X old new : ri_Name old ∈ X -> outside X (CallUpdateStatus old new) = false.
Proof.
  intros Hi. unfold outside. cbn [takes_out]. destruct (_ && _); [|done]. by rewrite bool_decide_eq_true_2.
Qed.

Lemma outside_same_ready X old new : is_ready new = is_ready old -> outside X (CallUpdateStatus old new) = false.
Proof. intros Hr. apply outside_none. cbn. rewrite Hr. by destruct (is_ready old). Qed.

Lemma outside_get X ns n : outside X (CallGet ns n) = false.
Proof. done. Qed.
Lemma outside_create X i : outside X (CallCreate i) = false.
Proof. done. Qed.

#[export] Hint Resolve outside_get outside_create outside_delete outside_patch outside_status : silent.

(** * Conditions of another type stay *)

Lemma find_set_condition_ne c t cs :
  cond_Type c <> t ->
  List.find (fun c => bool_decide (cond_Type c = t)) (set_condition c cs)
  = List.find (fun c => bool_decide (cond_Type c = t)) cs.
Proof.
  intros Hne. induction cs as [|c' cs IH]; cbn [set_condition List.find].
  - by rewrite bool_decide_eq_false_2.
  - destruct (decide (cond_Type c' = cond_Type c)) as [He|He].
    + rewrite (bool_decide_eq_true_2 _ He). cbn [List.find].
      rewrite (bool_decide_eq_false_2 (cond_Type c' = t)) by congruence.
      destruct (bool_decide (_ <> _)); by rewrite bool_decide_eq_false_2 by congruence.
    + rewrite (bool_decide_eq_false_2 _ He). cbn [List.find]. by rewrite IH.
Qed.

Lemma set_condition_ready c i :
  cond_Type c <> RoleInstanceReady -> is_ready (SetRoleInstanceCondition c i) = is_ready i.
Proof. intros Hne. unfold is_ready, GetRoleInstanceCondition. cbn. by rewrite find_set_condition_ne. Qed.

Lemma write_condition_ready f i :
  (forall c, cond_Type (f c) = cond_Type c) ->
  is_ready (with_conditions (Readiness.write_condition RoleInstanceCustomReady f (rist_Conditions (ri_status i))) i)
  = is_ready i.
Proof.
  intros Hf. unfold is_ready, GetRoleInstanceCondition. cbn. f_equal.
  induction (rist_Conditions (ri_status i)) as [|c cs IH]; cbn [Readiness.write_condition List.find]; [done|].
  destruct (decide (cond_Type c = RoleInstanceCustomReady)) as [He|He].
  - rewrite (bool_decide_eq_true_2 _ He). cbn [List.find]. by rewrite Hf, He.
  - rewrite (bool_decide_eq_false_2 _ He). cbn [List.find]. by rewrite IH.
Qed.

Lemma remove_key_ready `{Env, SortSlice} msg t i new :
  Readiness.remove_key msg t i = Some new -> is_ready new = is_ready i.
Proof.
  unfold Readiness.remove_key. destruct (GetRoleInstanceCondition _ _); [|done].
  destruct (Readiness.removeMessage _ _) as [[] ms]; [|done]. cbn [negb]. intros [= <-].
  by apply write_condition_ready.
Qed.

Lemma put_condition_ready status reason t i new :
  status <> ConditionFalse -> InPlace.put_condition (InPlace.ready_condition status reason t) i = Some new ->
  is_ready new = is_ready i.
Proof.
  intros Hs. unfold InPlace.put_condition. destruct (InPlace.hasEqualCondition _ _); [done|].
  cbn [InPlace.ready_condition cond_Status]. rewrite bool_decide_eq_false_2 by done. intros [= <-].
  by apply set_condition_ready.
Qed.

(** * Quiet controls *)

Section quiet.
Context `{Env, SortSlice} (I : world -> Prop) (X : gset string).

(** A read answers with an object of the name asked for. *)
Lemma run_Get ns n : Framed I -> run I (outside X) (Get ns n) (fun r k => k = 0 /\ forall i, r = Ok i -> ri_Name i = n).
Proof.
  intros HI w r w' Hw [= <- <-]. split; [by eapply HI; [..|exact Hw]|].
  exists [CallGet ns n]. split; [done|]. split; [done|]. intros i Hi. by eapply env_get_name.
Qed.

(** Read, then write the status of what was read. *)
Lemma silent_read_write {A} ns n (k : RoleInstance -> M A) :
  Framed I -> (forall clone, ri_Name clone = n -> silent I (outside X) (k clone)) ->
  silent I (outside X) (clone ← Get ns n; k clone).
Proof.
  intros HI Hk. eapply run_bind; [by apply run_Get|..].
  - intros clone n1 _ [-> Hn]. eapply run_conseq; [by apply Hk, Hn|]. by intros r k2 _ ->.
  - by intros e k1 _ [-> _].
Qed.

Lemma silent_update_status_by i f :
  Framed I ->
  (ri_Name i ∈ X \/ forall t j new, f t j = Some new -> is_ready new = is_ready j) ->
  silent I (outside X) (Readiness.update_status_by i f).
Proof.
  intros HI Hf. unfold Readiness.update_status_by. apply silent_RetryOnConflict.
  apply silent_read_write; [done|]. intros clone Hn. apply silent_bind; [by apply silent_clock|]. intros t.
  destruct (f t clone) as [new|] eqn:E; [|silence]. apply silent_request; [done|].
  destruct Hf as [Hi|Hf]; [apply outside_status; by rewrite Hn|by apply outside_same_ready, (Hf t)].
Qed.

Lemma silent_AddNotReadyKey i msg : Framed I -> ri_Name i ∈ X -> silent I (outside X) (Readiness.AddNotReadyKey i msg).
Proof.
  intros. unfold Readiness.AddNotReadyKey. silence. apply silent_update_status_by; auto.
Qed.

Lemma silent_RemoveNotReadyKey i msg : Framed I -> silent I (outside X) (Readiness.RemoveNotReadyKey i msg).
Proof.
  intros. unfold Readiness.RemoveNotReadyKey. silence. apply silent_update_status_by; [done|].
  right. intros t j new. apply remove_key_ready.
Qed.

Lemma silent_updateCondition i c :
  Framed I ->
  (ri_Name i ∈ X \/ forall j new, InPlace.put_condition c j = Some new -> is_ready new = is_ready j) ->
  silent I (outside X) (InPlace.updateCondition i c).
Proof.
  intros HI Hf. unfold InPlace.updateCondition. apply silent_RetryOnConflict.
  apply silent_read_write; [done|]. intros clone Hn.
  destruct (InPlace.put_condition c clone) as [new|] eqn:E; [|silence]. apply silent_request; [done|].
  destruct Hf as [Hi|Hf]; [apply outside_status; by rewrite Hn|by apply outside_same_ready, Hf].
Qed.

(** A state in which the instance serves. *)
Definition serving_state (state : string) : Prop := state <> StatePreparingDelete /\ state <> StatePreparingUpdate.

Lemma silent_executePolicy i state :
  Framed I -> ri_Name i ∈ X \/ serving_state state ->
  silent I (outside X) (Lifecycle.executeRoleInstanceNotReadyPolicy i state).
Proof.
  intros HI Hs. unfold Lifecycle.executeRoleInstanceNotReadyPolicy.
  case_bool_decide; [|case_bool_decide; [|case_bool_decide]].
  - destruct Hs as [?|[]]; [by apply silent_AddNotReadyKey|done].
  - destruct Hs as [?|[]]; [by apply silent_AddNotReadyKey|done].
  - by apply silent_RemoveNotReadyKey.
  - silence.
Qed.

Lemma state_patch_serves state t : serving_state state -> takes_out_patch (Lifecycle.state_patch state t) = false.
Proof.
  intros [H1 H2]. unfold takes_out_patch. cbn -[lookup singletonM]. rewrite lookup_singleton_eq.
  rewrite (bool_decide_eq_false_2 (Some state = Some StatePreparingDelete)) by congruence.
  rewrite (bool_decide_eq_false_2 (Some state = Some StatePreparingUpdate)) by congruence.
  rewrite lookup_singleton_ne by done. done.
Qed.

Lemma silent_UpdateRoleInstanceLifecycle i state mark :
  Framed I -> ri_Name i ∈ X \/ serving_state state ->
  silent I (outside X) (Lifecycle.UpdateRoleInstanceLifecycle i state mark).
Proof.
  intros HI Hs. unfold Lifecycle.UpdateRoleInstanceLifecycle. silence; [by apply silent_executePolicy|].
  apply silent_request; [done|]. destruct Hs as [Hi|Hs]; [by apply outside_patch|].
  apply outside_none. cbn [takes_out]. by rewrite state_patch_serves.
Qed.

Lemma silent_UpdateRoleInstanceLifecycleWithHandler i state h :
  Framed I -> ri_Name i ∈ X ->
  silent I (outside X) (Lifecycle.UpdateRoleInstanceLifecycleWithHandler i state h).
Proof.
  intros HI Hi. unfold Lifecycle.UpdateRoleInstanceLifecycleWithHandler. silence.
  - by apply silent_executePolicy; [|left].
  - apply silent_request; [done|]. by apply outside_patch.
Qed.

Lemma silent_PatchSpecifiedDelete i v :
  Framed I -> ri_Name i ∈ X -> silent I (outside X) (PatchRoleInstanceSpecifiedDelete i v).
Proof.
  intros. unfold PatchRoleInstanceSpecifiedDelete. silence. apply silent_request; [done|]. by apply outside_patch.
Qed.

Lemma silent_Refresh i : Framed I -> silent I (outside X) (InPlace.Refresh i).
Proof.
  intros. unfold InPlace.Refresh. silence. apply silent_updateCondition; [done|].
  right. intros j new. by apply put_condition_ready.
Qed.

Lemma silent_InPlaceUpdate i old new :
  Framed I -> ri_Name i ∈ X -> silent I (outside X) (InPlace.Update i old new).
Proof.
  intros HI Hi. unfold InPlace.Update. destruct (InPlace.CalculateSpec old new) as [spec|]; [|silence].
  apply silent_attempt; [silence; apply silent_updateCondition; auto|]. intros [[]|e]; [|silence].
  apply silent_attempt; [|intros [v|e]; silence].
  unfold InPlace.updateRoleInstanceInPlace. apply silent_RetryOnConflict, silent_read_write; [done|].
  intros clone Hn. silence. apply silent_request; [done|]. eapply outside_in; [done|].
  rewrite <-Hn in Hi. unfold InPlace.patched, InjectVersionedRoleInstanceSpec, ri_Name in *.
  by rewrite Inject_meta, Inject_gate_meta.
Qed.
End quiet.
