(* ===== verification/SlowStart.v ===== *)
(** Slow start: [DoItSlowly], which makes requests in batches of growing size and
    stops at the first batch with a failure.  The stateless controller
    (statelessmode/utils/utils.go) and the RoleInstance controller
    (roleinstance/utils/instance_utils.go) have the same function. *)
From Stdlib Require Import ZArith Lia Bool.
From stdpp Require Import base tactics list strings sets.
From S2P Require Import Prelude Effects.

Section slowly.
Context {W : Type} {A : Type}.

(** The calls of one batch, in the order they complete: the inputs that succeeded
    and the errors of the others. *)
Fixpoint run_batch (fn : A -> ST W unit) (batch : list A) : ST W (list A * list error) :=
  match batch with
  | [] => mret ([], [])
  | x :: batch' =>
      attempt (fn x) (fun r =>
        '(ok, errs) ← run_batch fn batch';
        mret (match r with Ok _ => (x :: ok, errs) | Err e => (ok, e :: errs) end))
  end.

(** The inputs are what the calls receive from the channel, in its order;
    [schedule] permutes the calls of a batch.  Every round takes an input, so the
    length of the list is enough fuel. *)
Fixpoint slowly_loop (fuel : nat) (schedule : W -> list A -> list A) (fn : A -> ST W unit)
    (batchSize : nat) (remaining : list A) : ST W (list A * option error) :=
  match fuel with
  | O => mret ([], None)
  | S fuel' =>
      if (batchSize =? 0)%nat then mret ([], None)
      else
        sched ← gets schedule;
        '(ok, errs) ← run_batch fn (sched (take batchSize remaining));
        match errs with
        | e :: _ => mret (ok, Some e)
        | [] =>
            let rest := drop batchSize remaining in
            '(ok', err) ← slowly_loop fuel' schedule fn (Nat.min (2 * batchSize) (length rest)) rest;
            mret ((ok ++ ok')%list, err)
        end
  end.

(** The inputs whose call succeeded stand for their number. *)
Definition DoItSlowly (schedule : W -> list A -> list A) (inputs : list A) (initialBatchSize : nat)
    (fn : A -> ST W unit) : ST W (list A * option error) :=
  slowly_loop (length inputs) schedule fn (Nat.min (length inputs) initialBatchSize) inputs.
End slowly.

(** * Quiet steps *)

Lemma elem_of_take_in {A} (x : A) n l : x ∈ take n l -> x ∈ l.
Proof. intros Hx. rewrite <-(take_drop n l). set_solver. Qed.

Section quiet_slowly.
Context {W C A : Type} (trace : W -> list C) (I : W -> Prop) (P : C -> bool) (fn : A -> ST W unit).

(** Calls that make at most one request [P] each, and none unless they are made. *)
Lemma run_run_batch l :
  (forall x, x ∈ l -> Effects.run trace I P (fn x) (fun _ n => n <= 1)) ->
  Effects.run trace I P (run_batch fn l) (fun _ n => n <= Z.of_nat (length l)).
Proof.
  induction l as [|x l IH]; intros Hf; cbn [run_batch]; [by apply run_ret|].
  eapply run_attempt; [apply Hf; set_solver|]. intros r n1 _ Hn1.
  eapply run_bind; [apply IH; intros; apply Hf; set_solver|..].
  - intros [ok errs] n2 _ Hn2. apply run_ret. rewrite length_cons. cbn beta in *. lia.
  - intros e n2 _ Hn2. rewrite length_cons. cbn beta in *. lia.
Qed.

Lemma run_slowly_loop fuel sched b l :
  (forall w l, sched w l ≡ₚ l) ->
  (forall x, x ∈ l -> Effects.run trace I P (fn x) (fun _ n => n <= 1)) ->
  Effects.run trace I P (slowly_loop fuel sched fn b l) (fun _ n => n <= Z.of_nat (length l)).
Proof.
  intros Hs. revert b l. induction fuel as [|fuel IH]; intros b l Hf; cbn [slowly_loop];
    [apply run_ret; lia|]. destruct (b =? 0)%nat; [apply run_ret; lia|].
  assert (length (take b l) + length (drop b l) = length l)%nat as Hlen.
  { rewrite <-length_app. by rewrite take_drop. }
  apply run_bind_gets. intros w _. pose proof (Hs w (take b l)) as Hb.
  eapply run_bind.
  - apply run_run_batch. intros x Hx. apply Hf. rewrite Hb in Hx. by eapply elem_of_take_in.
  - intros [ok errs] n1 _ Hn1. rewrite (Permutation_length Hb) in Hn1. destruct errs; [|apply run_ret; cbn beta in *; lia].
    eapply run_bind.
    + apply IH. intros x Hx. apply Hf. rewrite <-(take_drop b l). set_solver.
    + intros [ok' err] n2 _ Hn2. apply run_ret. cbn beta in *. lia.
    + intros e n2 _ Hn2. cbn beta in *. lia.
  - intros e n1 _ Hn1. rewrite (Permutation_length Hb) in Hn1. cbn beta in *. lia.
Qed.

Lemma silent_run_batch l : (forall x, Effects.silent trace I P (fn x)) -> Effects.silent trace I P (run_batch fn l).
Proof.
  intros Hf. induction l as [|x l IH]; cbn [run_batch]; [apply silent_ret|].
  apply silent_attempt; [done|]. intros r. apply silent_bind; [done|]. intros [ok errs]. apply silent_ret.
Qed.

Lemma silent_slowly_loop fuel sched b l :
  (forall x, Effects.silent trace I P (fn x)) -> Effects.silent trace I P (slowly_loop fuel sched fn b l).
Proof.
  intros Hf. revert b l. induction fuel as [|fuel IH]; intros b l; cbn [slowly_loop]; [apply silent_ret|].
  destruct (b =? 0)%nat; [apply silent_ret|]. apply silent_bind; [apply silent_gets|]. intros s.
  apply silent_bind; [by apply silent_run_batch|]. intros [ok [|e errs]]; [|apply silent_ret].
  apply silent_bind; [apply IH|]. intros [ok' err]. apply silent_ret.
Qed.
End quiet_slowly.

(** Which calls a slow start makes: those of the inputs. *)
Section only_slowly.
Context {W C A : Type} (trace : W -> list C) (ok : C -> Prop) (fn : A -> ST W unit).

Lemma only_run_batch l w r w' :
  (forall x w r w', x ∈ l -> fn x w = (r, w') -> only trace ok w w') ->
  run_batch fn l w = (r, w') -> only trace ok w w'.
Proof.
  revert w r. induction l as [|x l IH]; intros w r Hf; cbn [run_batch]; [intros [-> ->]%ret_inv; apply only_refl|].
  intros (y & w1 & Hy & Hr)%attempt_inv. eapply only_trans; [eapply Hf, Hy; by left|].
  apply bind_inv in Hr as [(e & He & ->)|([oks errs] & w2 & He & Hr)].
  - eapply IH, He. intros z w2 r2 w3 Hz. apply Hf. by right.
  - apply ret_inv in Hr as [-> ->]. eapply IH, He. intros z w3 r2 w4 Hz. apply Hf. by right.
Qed.

Lemma only_slowly_loop fuel sched b l w r w' :
  (forall w l, sched w l ≡ₚ l) ->
  (forall x w r w', x ∈ l -> fn x w = (r, w') -> only trace ok w w') ->
  slowly_loop fuel sched fn b l w = (r, w') -> only trace ok w w'.
Proof.
  intros Hs. revert b l w r w'. induction fuel as [|fuel IH]; intros b l w r w' Hf; cbn [slowly_loop];
    [intros [-> ->]%ret_inv; apply only_refl|].
  destruct (b =? 0)%nat; [intros [-> ->]%ret_inv; apply only_refl|].
  intros Hr. apply bind_inv in Hr as [(e & [=] & _)|(s & w1 & [= <- <-] & Hr)].
  assert (forall r w', run_batch fn (sched w (take b l)) w = (r, w') -> only trace ok w w') as Hb.
  { intros r' w'' H. eapply only_run_batch, H. intros x w2 r2 w3 Hx. apply Hf. rewrite Hs in Hx.
    by eapply elem_of_take_in. }
  apply bind_inv in Hr as [(e & He & ->)|([oks errs] & w2 & He & Hr)]; [by eapply Hb|].
  eapply only_trans; [by eapply Hb|]. destruct errs; [|apply ret_inv in Hr as [-> ->]; apply only_refl].
  assert (forall r w', slowly_loop fuel sched fn (Nat.min (2 * b) (length (drop b l))) (drop b l) w2 = (r, w') ->
    only trace ok w2 w') as Hl.
  { intros r' w'' H. eapply IH, H. intros x w3 r3 w4 Hx. apply Hf. rewrite <-(take_drop b l). set_solver. }
  apply bind_inv in Hr as [(e & He' & ->)|([oks' err'] & w3 & He' & Hr)]; [by eapply Hl|].
  apply ret_inv in Hr as [-> ->]. by eapply Hl.
Qed.
End only_slowly.
