(* ===== verification/StatelessScale.v ===== *)
(** Stateless mode, scaling
    (pkg/reconciler/roleinstanceset/statelessmode/sync/scale.go).

    The functions that return [(bool, error)] return both here too: the caller
    reads the flag next to an error.  The monad's own error is left to the draw of
    a fresh id, which the code repeats without a bound: it fails when [fuel]
    draws in a row are all in use. *)
From Stdlib Require Import ZArith Lia Bool Ascii String.
From stdpp Require Import base tactics list strings gmap sets.
From S2P Require Import Prelude GoStrings IntOrString Types Expectations Effects StatefulUtils.
From S2P Require Import StatelessUtils StatelessDiffs StatelessWorld InstanceControls SlowStart.

Definition outcome : Type := bool * option error.

(** [if modified, err := m; err != nil || modified { return modified, err }]. *)
Definition or_return (m : M outcome) (k : M outcome) : M outcome :=
  '(modified, err) ← m;
  if (modified : bool) || bool_decide (is_Some err) then mret (modified, err) else k.

(** * Which instances *)

Definition in_pre_delete (i : RoleInstance) : bool := preparing_delete i.

(** The instances specified for deletion, those in the PreparingDelete state and
    the number of names among them. *)
Definition getPlannedDeletedInstances (set : RoleInstanceSet) (instances : list RoleInstance)
    : list RoleInstance * list RoleInstance * Z :=
  let specifiedToDelete := List.filter (isSpecifiedDelete set) instances in
  let inPreDelete := List.filter in_pre_delete instances in
  let names : gset string := list_to_set (map ri_Name (specifiedToDelete ++ inPreDelete)%list) in
  (specifiedToDelete, inPreDelete, Z.of_nat (size names)).

(** [sort.Sort(ActiveInstancesAvailableRank)] against one reading of the clock. *)
Definition choose `{SortSlice} (now minReadySeconds : Z) (instances : list RoleInstance) (diff : Z)
    : list RoleInstance :=
  let len := Z.of_nat (length instances) in
  if diff >? len then instances
  else
    let instances :=
      if diff <? len
      then sort_slice (Less (fun i => IsInstanceAvailable now i minReadySeconds)) instances
      else instances in
    take (Z.to_nat diff) instances.

Definition chooseInstancesToDelete `{SortSlice} (now : Z) (set : RoleInstanceSet) (totalDiff currentRevDiff : Z)
    (notUpdatedInstances updatedInstances : list RoleInstance) : list RoleInstance :=
  let choose := choose now (rss_MinReadySeconds (rs_spec set)) in
  if currentRevDiff >=? totalDiff then choose notUpdatedInstances totalDiff
  else if currentRevDiff >? 0 then
    (choose notUpdatedInstances currentRevDiff ++ choose updatedInstances (totalDiff - currentRevDiff))%list
  else choose updatedInstances totalDiff.

(** The loops over [IsInstanceReady] and [deleteReadyLimit]: what they let
    through and the limit they leave. *)
Fixpoint within_limit (nows : nat -> Z) (limit : Z) (l : list RoleInstance) : list RoleInstance * Z :=
  match l with
  | [] => ([], limit)
  | i :: l' =>
      let nows' := fun k => nows (S k) in
      if negb (IsInstanceReady (nows O) i) then
        let '(r, limit') := within_limit nows' limit l' in (i :: r, limit')
      else if limit >? 0 then
        let '(r, limit') := within_limit nows' (limit - 1) l' in (i :: r, limit')
      else within_limit nows' limit l'
  end.

(** * The operations *)

Definition initialBatchSize : nat := 1.

Section scale.
Context `{Env, SortSlice, PodNames, PortAllocation}.

(** ** Ids *)

Fixpoint draw (fuel : nat) (existingIDs : gset string) : M string :=
  match fuel with
  | O => fail "no fresh id"
  | S fuel' =>
      id ← random;
      if negb (bool_decide (id ∈ existingIDs)) then mret id else draw fuel' existingIDs
  end.

(** [PopAny] of the available ids, none of which is the empty string when there
    is none; otherwise a fresh draw. *)
Definition getOrGenInstanceID (fuel : nat) (existingIDs availableIDs : gset string) : M (string * gset string) :=
  let '(id, availableIDs) :=
    match env_unsorted availableIDs with
    | [] => (""%string, availableIDs)
    | id :: _ => (id, availableIDs ∖ {[id]})
    end in
  if bool_decide (id = ""%string) then id' ← draw fuel existingIDs; mret (id', availableIDs)
  else mret (id, availableIDs).

Fixpoint gen_ids (fuel : nat) (num : nat) (existingIDs availableIDs retIDs : gset string) : M (gset string) :=
  match num with
  | O => mret retIDs
  | S num' =>
      '(id, availableIDs) ← getOrGenInstanceID fuel existingIDs availableIDs;
      gen_ids fuel num' existingIDs availableIDs ({[id]} ∪ retIDs)
  end.

Definition instance_id (i : RoleInstance) : string := label_of (ri_Labels i) RoleInstanceIDLabelKey.

Definition getOrGenAvailableIDs (fuel : nat) (num : Z) (instances : list RoleInstance) : M (gset string) :=
  let existingIDs : gset string :=
    list_to_set (List.filter (fun id => negb (bool_decide (id = ""%string))) (map instance_id instances)) in
  gen_ids fuel (Z.to_nat num) existingIDs ∅ ∅.

(** ** Instances on their way out *)

Fixpoint prepare_loop (set : RoleInstanceSet) (diff : Z) (modified : bool) (l : list RoleInstance) : M outcome :=
  match l with
  | [] => mret (modified, None)
  | i :: l' =>
      if diff <=? 0 then mret (modified, None)
      else if isSpecifiedDelete set i then prepare_loop set diff modified l'
      else
        attempt (Lifecycle.UpdateRoleInstanceLifecycle i StateNormal false) (fun r =>
          match r with
          | Err e => mret (modified, Some e)
          | Ok (updated, got) =>
              (if updated : bool then ExpectVersion (ri_meta got) else mret tt) ≫= fun _ =>
              prepare_loop set (diff - 1) (if updated then true else modified) l'
          end)
  end.

(** [replicas] is [*set.Spec.Replicas], which [Scale] has checked. *)
Definition managePreparingDelete (set : RoleInstanceSet) (replicas : Z)
    (instances instancesInPreDelete : list RoleInstance) (numToDelete : Z) : M outcome :=
  if IsLifecycleMarkRoleInstanceNotReady (rss_Lifecycle (rs_spec set)) then mret (false, None)
  else prepare_loop set (replicas - Z.of_nat (length instances) + numToDelete) false instancesInPreDelete.

(** ** Creation *)

(** Creating one of them, in its initial state. *)
Definition create_one (i : RoleInstance) : M unit :=
  t ← now; Create (SetRoleInstanceLifecycle StateNormal (env_timestamp t) i).

Definition createInstances (expectedCreations expectedCurrentCreations : Z)
    (currentSet updateSet : RoleInstanceSet) (currentRevision updateRevision : string)
    (availableIDs : list string) : M outcome :=
  let newInstances := NewVersionedInstances currentSet updateSet currentRevision updateRevision
                        expectedCreations expectedCurrentCreations availableIDs in
  for_each (fun p => ExpectScale updateSet Scale.Create (ri_Name p)) newInstances ≫= fun _ =>
  '(created, err) ← DoItSlowly (fun w => env_schedule (w_trace w)) newInstances initialBatchSize create_one;
  let successInstanceNames : gset string := list_to_set (map ri_Name created) in
  for_each (fun p =>
    if bool_decide (ri_Name p ∈ successInstanceNames) then mret tt
    else ObserveScale updateSet Scale.Create (ri_Name p)) newInstances ≫= fun _ =>
  mret (match created with [] => (false, err) | _ => (true, err) end).

(** ** Deletion *)

Definition pre_delete_hook (set : RoleInstanceSet) : option LifecycleHook :=
  l ← rss_Lifecycle (rs_spec set); lc_PreDelete l.

Fixpoint deleteInstances (set : RoleInstanceSet) (modified : bool) (instancesToDelete : list RoleInstance) : M outcome :=
  match instancesToDelete with
  | [] => mret (modified, None)
  | i :: l =>
      if IsRoleInstanceHooked (pre_delete_hook set) i then
        attempt (Lifecycle.UpdateRoleInstanceLifecycle i StatePreparingDelete
                   (IsHookMarkGroupNotReady (pre_delete_hook set))) (fun r =>
          match r with
          | Err e => mret (false, Some e)
          | Ok (updated, got) =>
              (if updated : bool then ExpectVersion (ri_meta got) else mret tt) ≫= fun _ =>
              deleteInstances set (if updated then true else modified) l
          end)
      else
        ExpectScale set Scale.Delete (ri_Name i) ≫= fun _ =>
        attempt (Delete i) (fun r =>
          match r with
          | Err e => ObserveScale set Scale.Delete (ri_Name i) ≫= fun _ => mret (modified, Some e)
          | Ok _ => deleteInstances set true l
          end)
  end.

(** ** The whole *)

(** Step 5: the specified deletions within the limit, updated instances first. *)
Definition delete_specified (set : RoleInstanceSet) (updateRevision : string) (limit : Z)
    (instancesToDelete : list RoleInstance) (k : Z -> M outcome) : M outcome :=
  match instancesToDelete with
  | [] => k limit
  | _ =>
      let '(newInstances, oldInstances) := SplitInstancesByRevision instancesToDelete updateRevision in
      nows ← readings (length (newInstances ++ oldInstances)%list);
      let '(chosen, limit) := within_limit nows limit (newInstances ++ oldInstances)%list in
      or_return (deleteInstances set false chosen) (k limit)
  end.

(** Step 6: the surplus, when nothing is being deleted already. *)
Definition scale_in (set : RoleInstanceSet) (diffRes : expectationDiffs) (numToDelete limit : Z)
    (notUpdatedInstance updatedInstance : list RoleInstance) : M outcome :=
  if scaleNum diffRes <? 0 then
    if numToDelete >? 0 then mret (false, None)
    else
      t ← now;
      let chosen := chooseInstancesToDelete t set (- scaleNum diffRes) (- scaleNumOldRevision diffRes)
                      notUpdatedInstance updatedInstance in
      nows ← readings (length chosen);
      deleteInstances set false (within_limit nows limit chosen).1
  else mret (false, None).

Definition Scale (fuel : nat) (currentSet updateSet : RoleInstanceSet) (currentRevision updateRevision : string)
    (instances : list RoleInstance) : M outcome :=
  match rss_Replicas (rs_spec updateSet) with
  | None => mret (false, Some "spec.Replicas is nil"%string)
  | Some replicas =>
      if negb (IsReadyToScale updateSet) then mret (false, None)
      else
        let '(instanceSpecifiedToDelete, instanceInPreDelete, numToDelete) :=
          getPlannedDeletedInstances updateSet instances in
        or_return (managePreparingDelete updateSet replicas instances instanceInPreDelete numToDelete) (
        nows ← readings (length instances);
        let diffRes := calculateDiffsWithExpectation nows updateSet instances currentRevision updateRevision in
        let '(updatedInstance, notUpdatedInstance) := SplitInstancesByRevision instances updateRevision in
        if (scaleNum diffRes >? 0) && (scaleUpLimit diffRes >? 0) then
          let expectedCreations := scaleUpLimit diffRes in
          let expectedCurrentCreations :=
            if scaleNumOldRevision diffRes >? 0 then scaleNumOldRevision diffRes else 0 in
          availableIDs ← getOrGenAvailableIDs fuel expectedCreations instances;
          createInstances expectedCreations expectedCurrentCreations currentSet updateSet
            currentRevision updateRevision (env_unsorted availableIDs)
        else
          or_return (match instanceInPreDelete with
                     | [] => mret (false, None)
                     | _ => deleteInstances updateSet false instanceInPreDelete
                     end) (
          delete_specified updateSet updateRevision (deleteReadyLimit diffRes)
            (DiffInstanceGroups instanceSpecifiedToDelete instanceInPreDelete) (fun limit =>
          scale_in updateSet diffRes numToDelete limit notUpdatedInstance updatedInstance)))
  end.
End scale.
