(* ===== verification/StatelessUpdate.v ===== *)
(** Stateless mode, updating
    (pkg/reconciler/roleinstanceset/statelessmode/sync/update.go).

    Instances are named by their index in [w_instances], as in the code: an
    instance patched for deletion is overwritten there with the server's answer,
    and the status of the same reconcile is computed from it. *)
From Stdlib Require Import ZArith Lia Bool Ascii String.
From stdpp Require Import base tactics list strings gmap sets.
From S2P Require Import Prelude GoStrings IntOrString Types Expectations Effects StatefulUtils.
From S2P Require Import StatelessUtils StatelessDiffs StatelessWorld InstanceControls.

(** * Which instances *)

(** The instance at an index waits for the update and may be updated now. *)
Definition can_update (updateNum : Z) (updateRevision : string) (i : RoleInstance) : bool :=
  if IsInstanceUpdatePaused i then false
  else
    let waitUpdate := if updateNum >? 0 then negb (at_hash updateRevision i) else at_hash updateRevision i in
    waitUpdate && negb (bool_decide (GetRoleInstanceLifecycleState i = StatePreparingDelete)).

Fixpoint indexes_from (f : RoleInstance -> bool) (k : nat) (instances : list RoleInstance) : list nat :=
  match instances with
  | [] => []
  | i :: l => if f i then k :: indexes_from f (S k) l else indexes_from f (S k) l
  end.

Definition preparing_update (i : RoleInstance) : bool :=
  bool_decide (GetRoleInstanceLifecycleState i = StatePreparingUpdate).

Definition on_index (instances : list RoleInstance) (f : RoleInstance -> bool) (k : nat) : bool :=
  match instances !! k with Some i => f i | None => false end.

(** [Less] on the instances of two indexes. *)
Definition less_index (now : Z) (instances : list RoleInstance) (x y : nat) : bool :=
  match instances !! x, instances !! y with
  | Some i, Some j => Less (fun i => IsInstanceUpdateReady now i 0) i j
  | _, _ => false
  end.

(** The second sort is stable and its order has two classes: those preparing an
    update come first, each class in the order of the first sort. *)
Definition SortUpdateIndexes `{SortSlice} (now : Z) (instances : list RoleInstance) (waitUpdateIndexes : list nat)
    : list nat :=
  let sorted := sort_slice (less_index now instances) waitUpdateIndexes in
  (List.filter (on_index instances preparing_update) sorted
   ++ List.filter (fun k => negb (on_index instances preparing_update k)) sorted)%list.

(** The instances unavailable at their readings, and those of them that carry the
    target revision. *)
Fixpoint count_unavailable (nows : nat -> Z) (minReadySeconds : Z) (target : string) (instances : list RoleInstance)
    : Z * Z :=
  match instances with
  | [] => (0, 0)
  | i :: l =>
      let '(unavailable, inTarget) := count_unavailable (fun k => nows (S k)) minReadySeconds target l in
      if negb (IsInstanceAvailable (nows O) i minReadySeconds)
      then (unavailable + 1, inTarget + one (at_hash target i)) else (unavailable, inTarget)
  end.

(** The loop of [limitUpdateIndexes]: [canUpdateCount] when it breaks or ends. *)
Fixpoint can_update_count (nows : nat -> Z) (minReadySeconds updateMaxUnavailable : Z) (instances : list RoleInstance)
    (targetUnavailable : Z) (unavailable count : Z) (indexes : list nat) : Z :=
  match indexes with
  | [] => count
  | k :: ks =>
      if targetUnavailable + count >=? updateMaxUnavailable then count
      else
        let nows' := fun k => nows (S k) in
        if on_index instances (fun i => IsInstanceAvailable (nows O) i minReadySeconds) k then
          if unavailable >=? updateMaxUnavailable then count
          else can_update_count nows' minReadySeconds updateMaxUnavailable instances targetUnavailable
                 (unavailable + 1) (count + 1) ks
        else can_update_count nows' minReadySeconds updateMaxUnavailable instances targetUnavailable
               unavailable (count + 1) ks
  end.

Definition limitUpdateIndexes (nows nows' : nat -> Z) (minReadySeconds : Z) (diffRes : expectationDiffs)
    (waitUpdateIndexes : list nat) (instances : list RoleInstance) (targetRevisionHash : string) : list nat :=
  let waiting := take (Z.to_nat (IntAbs (updateNum diffRes))) waitUpdateIndexes in
  let '(unavailable, inTarget) := count_unavailable nows minReadySeconds targetRevisionHash instances in
  take (Z.to_nat (can_update_count nows' minReadySeconds (updateMaxUnavailable diffRes) instances
                    inTarget unavailable 0 waiting)) waiting.

Definition in_place_hook (set : RoleInstanceSet) : option LifecycleHook :=
  l ← rss_Lifecycle (rs_spec set); lc_InPlaceUpdate l.

(** The revision the instance was made from. *)
Definition revision_of (revisions : list ControllerRevision) (i : RoleInstance) : option ControllerRevision :=
  List.find (fun r => at_hash (cr_Name r) i) revisions.

Section update.
Context `{Env, SortSlice}.

(** * Refreshing the state of an instance *)

(** The state a refresh moves to; empty: none. *)
Definition refreshed_state (set : RoleInstanceSet) (i : RoleInstance) : string :=
  let state := GetRoleInstanceLifecycleState i in
  let lifecycle := bool_decide (is_Some (rss_Lifecycle (rs_spec set))) in
  if bool_decide (state = StateUpdating) then
    if CheckRoleInstanceUpdateCompleted i then
      if lifecycle && negb (IsRoleInstanceHooked (in_place_hook set) i) then StateUpdated else StateNormal
    else ""
  else if bool_decide (state = StateUpdated) then
    if bool_decide (in_place_hook set = None) || IsRoleInstanceAllHooked (in_place_hook set) i
    then StateNormal else ""
  else "".

Definition refreshInstanceState (set : RoleInstanceSet) (i : RoleInstance) : M (bool * Z) :=
  delay ← InPlace.Refresh i;
  let state := refreshed_state set i in
  if bool_decide (state = ""%string) then mret (false, delay)
  else
    '(updated, got) ← Lifecycle.UpdateRoleInstanceLifecycle i state (IsHookMarkGroupNotReady (in_place_hook set));
    if (updated : bool) then ExpectVersion (ri_meta got) ≫= fun _ => mret (true, delay) else mret (false, delay).

Fixpoint refresh_all (set : RoleInstanceSet) (modified : bool) (instances : list RoleInstance) : M bool :=
  match instances with
  | [] => mret modified
  | i :: l =>
      '(patchedState, duration) ← refreshInstanceState set i;
      (if duration >? 0 then push_duration set duration else mret tt) ≫= fun _ =>
      refresh_all set (if patchedState : bool then true else modified) l
  end.

(** * Updating an instance *)

(** The last resort: mark the instance at [k] for deletion. *)
Definition update_by_recreate (k : nat) (i : RoleInstance) : M Z :=
  '(patched, got) ← PatchRoleInstanceSpecifiedDelete i "true";
  modify (fun w => with_instances (<[k := got]> (w_instances w)) w) ≫= fun _ =>
  (if (patched : bool) then ExpectVersion (ri_meta got) else mret tt) ≫= fun _ => mret 0.

Definition expect_if (r : bool * RoleInstance) : M unit :=
  if r.1 then ExpectVersion (ri_meta r.2) else mret tt.

(** The in-place update itself, falling back to recreation. *)
Definition update_in_place (set : RoleInstanceSet) (k : nat) (i : RoleInstance)
    (oldRevision : option ControllerRevision) (updateRevision : ControllerRevision) : M (Z * option error) :=
  res ← InPlace.Update i oldRevision updateRevision;
  if InPlace.ur_InPlaceUpdate res then
    match InPlace.ur_UpdateErr res with
    | None =>
        ExpectVersion {| om_Name := ""; om_GenerateName := ""; om_Namespace := ""; om_UID := ri_UID i;
                         om_ResourceVersion := InPlace.ur_NewResourceVersion res; om_Generation := 0;
                         om_CreationTimestamp := None; om_DeletionTimestamp := None; om_Labels := ∅;
                         om_Annotations := ∅; om_OwnerReferences := []; om_Finalizers := [] |} ≫= fun _ =>
        mret (InPlace.ur_DelayDuration res, None)
    | Some e => mret (InPlace.ur_DelayDuration res, Some e)
    end
  else d ← update_by_recreate k i; mret (d, None).

(** The delay and the error, which the caller reads together. *)
Definition updateInstance (set : RoleInstanceSet) (updateRevision : ControllerRevision)
    (revisions : list ControllerRevision) (k : nat) (i : RoleInstance) : M (Z * option error) :=
  let recreate := d ← update_by_recreate k i; mret (d, None) in
  if bool_decide (us_Type (rs_update set) = RecreatePodUpdateStrategyType) then recreate
  else
    let oldRevision := revision_of revisions i in
    if negb (InPlace.CanUpdateInPlace oldRevision updateRevision) then recreate
    else
      let state := GetRoleInstanceLifecycleState i in
      let go := update_in_place set k i oldRevision updateRevision in
      if bool_decide (state = ""%string) || bool_decide (state = StateNormal) then
        if IsRoleInstanceHooked (in_place_hook set) i then
          r ← Lifecycle.UpdateRoleInstanceLifecycle i StatePreparingUpdate
                (IsHookMarkGroupNotReady (in_place_hook set));
          expect_if r ≫= fun _ => mret (0, None)
        else go
      else if bool_decide (state = StateUpdated) then
        r ← Lifecycle.UpdateRoleInstanceLifecycleWithHandler i StatePreparingUpdate (in_place_hook set);
        expect_if r ≫= fun _ => mret (0, None)
      else if bool_decide (state = StatePreparingUpdate) then
        if IsRoleInstanceHooked (in_place_hook set) i then mret (0, None) else go
      else if bool_decide (state = StateUpdating) then go
      else mret (0, Some ("not allowed to in-place update instance " +:+ ri_Name i +:+ " in state " +:+ state)).

(** The instances of [indexes] in turn; the first error ends the loop. *)
Fixpoint update_loop (set : RoleInstanceSet) (updateRevision : ControllerRevision)
    (revisions : list ControllerRevision) (indexes : list nat) : M unit :=
  match indexes with
  | [] => mret tt
  | k :: ks =>
      instances ← gets w_instances;
      match instances !! k with
      | None => mret tt
      | Some i =>
          '(duration, err) ← updateInstance set updateRevision revisions k i;
          (if duration >? 0 then push_duration set duration else mret tt) ≫= fun _ =>
          match err with
          | Some e => fail e
          | None => update_loop set updateRevision revisions ks
          end
      end
  end.

(** * The whole *)

Definition Update (set : RoleInstanceSet) (currentRevision updateRevision : ControllerRevision)
    (revisions : list ControllerRevision) : M unit :=
  instances ← gets w_instances;
  modified ← refresh_all set false instances;
  if (modified : bool) then mret tt
  else if us_Paused (rs_update set) then mret tt
  else
    nows ← readings (length instances);
    let diffRes := calculateDiffsWithExpectation nows set instances (cr_Name currentRevision) (cr_Name updateRevision) in
    if updateNum diffRes =? 0 then mret tt
    else
      let targetRevision := if updateNum diffRes <? 0 then currentRevision else updateRevision in
      let waitUpdateIndexes :=
        indexes_from (can_update (updateNum diffRes) (cr_Name updateRevision)) 0 instances in
      t ← now;
      let waitUpdateIndexes := SortUpdateIndexes t instances waitUpdateIndexes in
      nows1 ← readings (length instances);
      nows2 ← readings (length waitUpdateIndexes);
      update_loop set targetRevision revisions
        (limitUpdateIndexes nows1 nows2 (rss_MinReadySeconds (rs_spec set)) diffRes waitUpdateIndexes instances
           (cr_Name targetRevision)).
End update.
