(* ===== verification/StatelessScaling.v ===== *)
(** Stateless mode, what a scaling pass guarantees: how many serving instances
    it takes out, how many it creates, and which creations it goes on awaiting. *)
From Stdlib Require Import ZArith Lia Bool Ascii String Permutation.
From stdpp Require Import base tactics list strings gmap sets fin_maps.
From S2P Require Import Prelude GoStrings IntOrString Types Expectations Effects StatefulUtils.
From S2P Require Import StatelessUtils StatelessDiffs StatelessWorld InstanceControls StatelessScale SlowStart.

(** * Lists of instances *)

Lemma within_limit_spec nows limit l (ready : RoleInstance -> bool) :
  0 <= limit -> (forall k i, i ∈ l -> IsInstanceReady (nows k) i = ready i) ->
  let w := within_limit nows limit l in
  (forall i, i ∈ w.1 -> i ∈ l) /\ 0 <= w.2 /\ countb ready w.1 = limit - w.2.
Proof.
  revert nows limit. induction l as [|i l IH]; intros nows limit Hl Hr; cbn [within_limit].
  - cbn. split; [done|lia].
  - assert (forall k j, j ∈ l -> IsInstanceReady (nows (S k)) j = ready j) as Hr' by (intros; apply Hr; set_solver).
    rewrite (Hr O i) by set_solver. destruct (ready i) eqn:Ei; cbn [negb].
    + destruct (limit >? 0) eqn:E; breflect.
      * specialize (IH (fun k => nows (S k)) (limit - 1) ltac:(lia) Hr').
        destruct (within_limit _ _ l) as [r lim]. cbn [fst snd countb] in *. rewrite Ei. destruct IH as (Hsub & ? & ?).
        split; [|lia]. intros j [->|Hj]%elem_of_cons; set_solver.
      * specialize (IH (fun k => nows (S k)) limit Hl Hr').
        destruct (within_limit _ _ l) as [r lim]. cbn [fst snd] in *. set_solver.
    + specialize (IH (fun k => nows (S k)) limit Hl Hr').
      destruct (within_limit _ _ l) as [r lim]. cbn [fst snd countb] in *. rewrite Ei. destruct IH as (Hsub & ? & ?).
      split; [|lia]. intros j [->|Hj]%elem_of_cons; set_solver.
Qed.

Lemma choose_in `{SortSlice} now m l diff i : i ∈ choose now m l diff -> i ∈ l.
Proof.
  unfold choose. destruct (diff >? _); [done|]. intros Hi%elem_of_take_in.
  destruct (diff <? _); [|done]. by rewrite sort_slice_perm in Hi.
Qed.

Lemma chooseInstancesToDelete_in `{SortSlice} now set total cur old new i :
  i ∈ chooseInstancesToDelete now set total cur old new -> i ∈ old \/ i ∈ new.
Proof.
  unfold chooseInstancesToDelete. destruct (cur >=? total); [by left; eapply choose_in|].
  destruct (cur >? 0); [|by right; eapply choose_in].
  rewrite elem_of_app. intros [Hi|Hi]; [left|right]; by eapply choose_in.
Qed.

Lemma elem_of_list_filter {A} (f : A -> bool) l x : x ∈ List.filter f l <-> x ∈ l /\ f x = true.
Proof. by rewrite !list_elem_of_In, List.filter_In. Qed.

Lemma Split_in l rev i :
  i ∈ (SplitInstancesByRevision l rev).1 \/ i ∈ (SplitInstancesByRevision l rev).2 -> i ∈ l.
Proof. cbn. rewrite !elem_of_list_filter. tauto. Qed.

(** * Quiet steps *)

Section quiet.
Context `{Env, SortSlice, PodNames, PortAllocation} (I : world -> Prop).

Lemma silent_for_each P {A} (f : A -> M unit) l : (forall x, silent I P (f x)) -> silent I P (for_each f l).
Proof. intros Hf. induction l as [|x l IH]; cbn [for_each]; silence; auto. Qed.

Lemma silent_getOrGenAvailableIDs P fuel num l : Framed I -> silent I P (getOrGenAvailableIDs fuel num l).
Proof.
  intros HI. unfold getOrGenAvailableIDs.
  assert (forall fuel X, silent I P (draw fuel X)) as Hd.
  { induction fuel0 as [|f IH]; intros X; cbn [draw]; silence; auto. }
  generalize (list_to_set (List.filter (fun id => negb (bool_decide (id = ""%string))) (map instance_id l)) : gset string).
  intros X. generalize (∅ : gset string) at 1. generalize (∅ : gset string).
  induction (Z.to_nat num) as [|n IH]; intros Y Z; cbn [gen_ids]; [silence|].
  apply silent_bind; [|intros [id av]; apply IH]. unfold getOrGenInstanceID.
  destruct (match env_unsorted Z with [] => _ | _ => _ end) as [id av].
  case_bool_decide; [|silence]. apply silent_bind; [apply Hd|intros x; silence].
Qed.

Lemma silent_prepare_loop X set diff m l : Framed I -> silent I (outside X) (prepare_loop set diff m l).
Proof.
  intros HI. revert diff m. induction l as [|i l IH]; intros diff m; cbn [prepare_loop]; [silence|].
  destruct (diff <=? 0); [silence|]. destruct (isSpecifiedDelete set i); [apply IH|].
  apply silent_attempt; [by apply silent_UpdateRoleInstanceLifecycle; [|right]|].
  intros [[u got]|e]; [|silence]. apply silent_bind; [|intros _; apply IH].
  destruct u; [unfold ExpectVersion|]; silence.
Qed.

Lemma silent_createInstances X n c cs us cr ur ids :
  Framed I -> silent I (outside X) (createInstances n c cs us cr ur ids).
Proof.
  intros HI. unfold createInstances. apply silent_bind.
  { apply silent_for_each. intros x. unfold ExpectScale. silence. }
  intros _. apply silent_bind.
  { apply silent_slowly_loop. intros x. unfold create_one. apply silent_bind; [silence|]. intros t.
    by apply silent_request. }
  intros [created err]. apply silent_bind; [|intros []; silence]. apply silent_for_each. intros x.
  case_bool_decide; [|unfold ObserveScale]; silence.
Qed.

Lemma silent_deleteInstances X set m l :
  Framed I -> (forall i, i ∈ l -> ri_Name i ∈ X) -> silent I (outside X) (deleteInstances set m l).
Proof.
  intros HI. revert m. induction l as [|i l IH]; intros m Hl; cbn [deleteInstances]; [silence|].
  assert (forall i, i ∈ l -> ri_Name i ∈ X) as Hl' by set_solver.
  assert (ri_Name i ∈ X) as Hi by set_solver.
  destruct (IsRoleInstanceHooked _ i).
  - apply silent_attempt; [by apply silent_UpdateRoleInstanceLifecycle; [|left]|].
    intros [[u got]|e]; [|silence]. apply silent_bind; [|by intros _; apply IH].
    destruct u; [unfold ExpectVersion|]; silence.
  - apply silent_bind; [unfold ExpectScale; silence|]. intros _. apply silent_attempt.
    + apply silent_request; [done|]. by apply outside_delete.
    + intros [[]|e]; [by apply IH|]. unfold ObserveScale. silence.
Qed.
End quiet.

(** * Taking a pass apart *)

Lemma or_return_inv (m k : M outcome) w r w' :
  or_return m k w = (r, w') ->
  (exists e, m w = (Err e, w') /\ r = Err e) \/
  (exists o, m w = (Ok o, w') /\ r = Ok o /\ o <> (false, None)) \/
  (exists w1, m w = (Ok (false, None), w1) /\ k w1 = (r, w')).
Proof.
  unfold or_return. intros [(e & ? & ?)|([md err] & w1 & Hm & Hk)]%bind_inv; [by left; exists e|].
  destruct md; cbn [orb] in Hk.
  - injection Hk as <- <-. right; left. by exists (true, err).
  - case_bool_decide as He.
    + injection Hk as <- <-. right; left. exists (false, err). split_and!; [done..|]. intros [= ->]. by destruct He.
    + destruct err; [by destruct He|]. right; right. eauto.
Qed.

Lemma or_return_silent I P (m k : M outcome) : silent I P m -> silent I P k -> silent I P (or_return m k).
Proof.
  intros Hm Hk. unfold or_return. apply silent_bind; [done|]. intros [md err].
  destruct (md || _); [silence|done].
Qed.

(** Every request of a computation that takes an instance out names one of [X]. *)
Definition takes_only (X : gset string) (w w' : world) : Prop :=
  exists new, w_trace w' = new ++ w_trace w /\ forall c, c ∈ new -> outside X c = false.

Lemma silent_takes_only {A} X (m : M A) w r w' :
  silent (fun _ => True) (outside X) m -> m w = (r, w') -> takes_only X w w'.
Proof. intros Hm Hr. by apply (silent_inv w_trace _ _ m w r w' Hm) in Hr as [_ ?]. Qed.

Lemma takes_only_trans X Y w w1 w2 : takes_only X w w1 -> takes_only Y w1 w2 -> takes_only (X ∪ Y) w w2.
Proof.
  intros (n1 & H1 & Hn1) (n2 & H2 & Hn2). exists (n2 ++ n1). split; [by rewrite H2, H1, app_assoc|].
  intros c Hc. assert (outside X c = false \/ outside Y c = false) as Ho.
  { apply elem_of_app in Hc as [Hc|Hc]; [right|left]; auto. }
  unfold outside in *. destruct (takes_out c) as [n|]; [|done].
  rewrite !negb_false_iff, !bool_decide_eq_true in *. set_solver.
Qed.

Lemma takes_only_refl X w : takes_only X w w.
Proof. exists []. split; [done|]. by intros c ?%elem_of_nil. Qed.

Definition names (l : list RoleInstance) : gset string := list_to_set (map ri_Name l).

Lemma elem_of_names l i : i ∈ l -> ri_Name i ∈ names l.
Proof. intros Hi. apply elem_of_list_to_set, list_elem_of_fmap. eauto. Qed.

Lemma names_app l1 l2 : names (l1 ++ l2) = names l1 ∪ names l2.
Proof. unfold names. by rewrite map_app, list_to_set_app_L. Qed.

Lemma NoDup_names_inj l i j :
  NoDup (map ri_Name l) -> i ∈ l -> j ∈ l -> ri_Name i = ri_Name j -> i = j.
Proof.
  induction l as [|x l IH]; [by intros _ ?%elem_of_nil|]. cbn [map]. rewrite NoDup_cons.
  intros [Hx Hnd] [->|Hi]%elem_of_cons [->|Hj]%elem_of_cons Heq; [done|..].
  - destruct Hx. rewrite Heq. apply list_elem_of_fmap. eauto.
  - destruct Hx. rewrite <-Heq. apply list_elem_of_fmap. eauto.
  - auto.
Qed.

(** Of a listing without duplicate names, no more is taken out than the instances
    the requests may take. *)
Lemma taken_countb instances victims new (P : RoleInstance -> bool) :
  NoDup (map ri_Name instances) -> (forall i, i ∈ victims -> i ∈ instances) ->
  (forall c, c ∈ new -> outside (names victims) c = false) ->
  countb (fun i => P i && taken new i) instances <= countb P victims.
Proof.
  intros Hnd Hv Hn. rewrite !countb_filter. apply inj_le, submseteq_length, NoDup_submseteq.
  { apply NoDup_ListNoDup, List.NoDup_filter, NoDup_ListNoDup. by apply NoDup_fmap_1 in Hnd. }
  intros i. rewrite !elem_of_list_filter. intros [Hi [Hp Htk]%andb_prop]. split; [|done].
  apply existsb_exists in Htk as (c & Hc%list_elem_of_In & Htk). breflect.
  specialize (Hn c Hc). unfold outside in Hn. rewrite Htk in Hn. breflect.
  apply elem_of_list_to_set, list_elem_of_fmap in Hn as (j & Hj & Hin).
  assert (i = j) as -> by (apply (NoDup_names_inj instances); auto). done.
Qed.

Section scale.
Context `{Env, SortSlice, PodNames, PortAllocation}.

(** The readings of the clock agree on which of the instances are ready and which
    are available: no availability changes while the pass runs. *)
Definition steady (set : RoleInstanceSet) (instances : list RoleInstance) (ready avail : RoleInstance -> bool) : Prop :=
  forall k i, i ∈ instances ->
    IsInstanceReady (env_now k) i = ready i /\
    IsInstanceAvailable (env_now k) i (rss_MinReadySeconds (rs_spec set)) = avail i.

(** A deletion that reports no change and no error only met instances already
    prepared for it. *)
Lemma deleteInstances_unchanged set m l w w' :
  deleteInstances set m l w = (Ok (false, None), w') -> m = false /\ forall i, i ∈ l -> preparing_delete i = true.
Proof.
  revert m w. induction l as [|i l IH]; intros m w; cbn [deleteInstances].
  { intros [= -> _]. split; [done|]. by intros i ?%elem_of_nil. }
  destruct (IsRoleInstanceHooked _ i).
  - intros (x & w1 & Hu & Hr)%attempt_inv. destruct x as [[u got]|e]; [|done].
    apply bind_inv in Hr as [(e & _ & [=])|(t & w2 & _ & Hr)]. apply IH in Hr as [Hm Hl].
    destruct u; [done|]. split; [done|]. intros j [->|Hj]%elem_of_cons; [|by apply Hl].
    revert Hu. unfold Lifecycle.UpdateRoleInstanceLifecycle.
    intros [(e & _ & [=])|([] & w3 & _ & Hr)]%bind_inv. unfold preparing_delete. case_bool_decide as Hs; [done|].
    apply now_inv in Hr. by apply bind_inv in Hr as [(e & _ & [=])|(g & w4 & _ & [=])].
  - intros [(e & _ & [=])|(t & w1 & _ & Hr)]%bind_inv. apply attempt_inv in Hr as (x & w2 & _ & Hr).
    destruct x as [u|e]; [by apply IH in Hr as [? _]|].
    by apply bind_inv in Hr as [(e' & _ & [=])|(t' & w3 & _ & [=])].
Qed.

Lemma deleteInstances_empty set m l w w' :
  (forall i, i ∈ l -> preparing_delete i = false) -> deleteInstances set m l w = (Ok (false, None), w') -> l = [].
Proof.
  intros Hl [_ Hp]%deleteInstances_unchanged. destruct l as [|i l]; [done|].
  specialize (Hl i ltac:(by left)). rewrite Hp in Hl; [done|by left].
Qed.

Lemma preparing_not_ready set instances ready avail : steady set instances ready avail ->
  forall i, i ∈ instances -> preparing_delete i = true -> ready i = false /\ avail i = false.
Proof.
  intros Hst i Hi Hpd. destruct (Hst O i Hi) as [<- <-].
  unfold IsInstanceReady, IsInstanceAvailable, in_normal_state. unfold preparing_delete in Hpd. breflect.
  by rewrite Hpd.
Qed.

(** The victims of the specified deletion; it goes on only when there are none. *)
Lemma delete_specified_inv set rev limit l k w r w' (ready : RoleInstance -> bool) :
  0 <= limit -> (forall n i, i ∈ l -> IsInstanceReady (env_now n) i = ready i) ->
  (forall i, i ∈ l -> preparing_delete i = false) ->
  delete_specified set rev limit l k w = (r, w') ->
  exists victims, (forall i, i ∈ victims -> i ∈ l) /\
    ((takes_only (names victims) w w' /\ countb ready victims <= limit /\ r <> Ok (false, None)) \/
     (victims = [] /\ exists limit' w1, takes_only ∅ w w1 /\ k limit' w1 = (r, w') /\ limit' = limit)).
Proof.
  intros Hl Hr Hpd. unfold delete_specified. destruct l as [|i0 l0] eqn:El.
  { intros Hk. exists []. split; [done|]. right. split; [done|]. exists limit, w. split; [apply takes_only_refl|done]. }
  rewrite <-El in *. clear El i0 l0. destruct (SplitInstancesByRevision l rev) as [new old] eqn:Hsplit.
  assert (forall i, i ∈ (new ++ old)%list -> i ∈ l) as Hin.
  { intros i Hi%elem_of_app. apply (Split_in l rev). by rewrite Hsplit. }
  intros Hk%readings_inv. set (w0 := with_clock _ w) in Hk.
  destruct (within_limit _ limit (new ++ old)%list) as [chosen limit'] eqn:Hw.
  pose proof (within_limit_spec (fun k => env_now (w_clock w + k)) limit (new ++ old)%list ready Hl
    ltac:(intros; by apply Hr, Hin)) as (Hsub & Hlim & Hcount). rewrite Hw in Hsub, Hlim, Hcount. cbn [fst snd] in *.
  assert (forall w3 m r2, deleteInstances set m chosen w0 = (r2, w3) -> takes_only (names chosen) w w3) as Hdel.
  { intros w3 m r2 Hd. change (takes_only (names chosen) w0 w3). revert Hd.
    apply silent_takes_only, silent_deleteInstances; [done|]. apply elem_of_names. }
  exists chosen. split; [intros i Hi; by apply Hin, Hsub|].
  apply or_return_inv in Hk as [(e & Hm & ->)|[(o & Hm & -> & Ho)|(w1 & Hm & Hk)]].
  - left. split_and!; [by eapply Hdel|lia|done].
  - left. split_and!; [by eapply Hdel|lia|congruence].
  - right. pose proof Hm as ->%deleteInstances_empty; [|intros i Hi; by apply Hpd, Hin, Hsub].
    split; [done|]. exists limit', w1. split_and!; [by eapply Hdel|done|]. cbn in Hcount. lia.
Qed.

Lemma scale_in_inv set d num limit old new w r w' (ready : RoleInstance -> bool) :
  0 <= limit -> (forall n i, i ∈ old \/ i ∈ new -> IsInstanceReady (env_now n) i = ready i) ->
  (num = 0 -> forall i, i ∈ old \/ i ∈ new -> preparing_delete i = false) ->
  scale_in set d num limit old new w = (r, w') ->
  exists victims, (forall i, i ∈ victims -> i ∈ old \/ i ∈ new) /\
    takes_only (names victims) w w' /\ countb ready victims <= limit /\ (0 <= num -> r = Ok (false, None) -> victims = []).
Proof.
  intros Hl Hr Hpd. unfold scale_in.
  assert (forall o, mret (M := M) o w = (r, w') -> exists victims, (forall i, i ∈ victims -> i ∈ old \/ i ∈ new) /\
    takes_only (names victims) w w' /\ countb ready victims <= limit /\
    (0 <= num -> r = Ok (false, None) -> victims = [])) as Hret.
  { intros o [= <- <-]. exists []. split; [by intros i ?%elem_of_nil|]. split_and!; [apply takes_only_refl|cbn; lia|done]. }
  destruct (scaleNum d <? 0); [|apply Hret]. destruct (num >? 0) eqn:Enum; [apply Hret|]. clear Hret.
  unfold now, readings, mbind, ST_bind. cbn -[deleteInstances within_limit chooseInstancesToDelete].
  set (chosen := chooseInstancesToDelete _ _ _ _ _ _).
  assert (forall i, i ∈ chosen -> i ∈ old \/ i ∈ new) as Hin by (intros i; apply chooseInstancesToDelete_in).
  pose proof (within_limit_spec (fun k => env_now (S (w_clock w) + k)) limit chosen ready Hl
    ltac:(intros; by apply Hr, Hin)) as (Hsub & Hlim & Hcount).
  cbn -[within_limit] in Hsub, Hlim, Hcount.
  intros Hd. eexists. split; [intros i Hi; by apply Hin, Hsub|]. split_and!; [|rewrite Hcount; lia|].
  - eapply (silent_takes_only (names _)) in Hd; [exact Hd|]. apply silent_deleteInstances; [done|]. apply elem_of_names.
  - intros Hnum ->. eapply deleteInstances_empty, Hd. intros i Hi. apply Hpd; [breflect; lia|by apply Hin, Hsub].
Qed.

Lemma DiffInstanceGroups_in l1 l2 i : i ∈ DiffInstanceGroups l1 l2 -> i ∈ l1.
Proof. unfold DiffInstanceGroups. rewrite elem_of_list_filter. tauto. Qed.

Lemma silent_managePreparingDelete I X set n l pre num :
  Framed I -> silent I (outside X) (managePreparingDelete set n l pre num).
Proof.
  intros. unfold managePreparingDelete. destruct (IsLifecycleMarkRoleInstanceNotReady _); [silence|].
  by apply silent_prepare_loop.
Qed.

(** No name planned for deletion: no instance is prepared for it. *)
Lemma nothing_planned set instances :
  Z.of_nat (size (list_to_set (map ri_Name (List.filter (isSpecifiedDelete set) instances
                                            ++ List.filter in_pre_delete instances)%list) : gset string)) = 0 ->
  forall i, i ∈ instances -> preparing_delete i = true -> False.
Proof.
  intros Hz i Hi Hp. apply (Nat2Z.inj _ 0), size_empty_inv in Hz.
  assert (ri_Name i ∈ (∅ : gset string)) as Hf; [apply Hz|by apply not_elem_of_empty in Hf].
  apply elem_of_list_to_set, list_elem_of_fmap. exists i. split; [done|]. apply elem_of_app. right.
  by apply elem_of_list_filter.
Qed.

(** The instances a pass may take out: those in PreparingDelete, and victims of
    which no more than the limit are ready. *)
Lemma Scale_victims fuel cs us cr ur instances w r w' (ready avail : RoleInstance -> bool) :
  sized us instances -> steady us instances ready avail ->
  Scale fuel cs us cr ur instances w = (r, w') ->
  exists victims, (forall i, i ∈ victims -> i ∈ instances) /\
    takes_only (names (List.filter preparing_delete instances) ∪ names victims) w w' /\
    countb ready victims <= Z.max 0 (lm_maxUnavailable (limits_of us)
      + (Z.of_nat (length instances) - lm_replicas (limits_of us))
      - (countb preparing_delete instances
         + countb (fun i => negb (preparing_delete i) && (negb (isSpecifiedDelete us i) && negb (avail i))) instances)) /\
    (r = Ok (false, None) -> victims = []).
Proof.
  intros Hsz Hst. unfold Scale. set (bound := Z.max 0 _). set (pre := names _).
  assert (forall w1, takes_only pre w w1 -> exists victims, (forall i, i ∈ victims -> i ∈ instances) /\
    takes_only (pre ∪ names victims) w w1 /\ countb ready victims <= bound /\
    (r = Ok (false, None) -> victims = [])) as Hnone.
  { intros w1 Hw1. exists []. split; [by intros i ?%elem_of_nil|]. split; [|split; [cbn; lia|done]].
    destruct Hw1 as (n & Ht & Hn). exists n. split; [done|]. intros c Hc. specialize (Hn c Hc).
    unfold outside in *. destruct (takes_out c); [|done]. rewrite negb_false_iff, bool_decide_eq_true in *. set_solver. }
  destruct (rss_Replicas _) as [reps|] eqn:Hreps; [|intros [= <- <-]; apply Hnone, takes_only_refl].
  cbn [IsReadyToScale negb getPlannedDeletedInstances].
  intros Hr. apply or_return_inv in Hr as [(e & Hm & ->)|[(o & Hm & -> & _)|(w1 & Hm & Hr)]].
  1-2: by apply Hnone; eapply silent_takes_only, Hm; apply silent_managePreparingDelete.
  apply (silent_takes_only pre) in Hm; [|by apply silent_managePreparingDelete].
  unfold readings, mbind at 1, ST_bind at 1 in Hr.
  set (w2 := with_clock _ w1) in Hr. assert (takes_only pre w w2) as Hw2 by exact Hm.
  set (nows := fun k => env_now (w_clock w1 + k)) in Hr.
  set (d := calculateDiffsWithExpectation nows us instances cr ur) in *.
  pose proof (delete_ready_range nows us instances cr ur) as Hlim. fold d in Hlim.
  assert (unavailable_count us nows instances = countb preparing_delete instances
    + countb (fun i => negb (preparing_delete i) && (negb (isSpecifiedDelete us i) && negb (avail i))) instances) as Hu.
  { unfold unavailable_count. f_equal. apply countb_at_static. intros k i Hi. unfold lacking, nows.
    destruct (Hst (w_clock w1 + k)%nat i Hi) as [_ ->]. done. }
  rewrite Hu in Hlim. fold bound in Hlim.
  clearbody d bound. clear Hu Hm. cbn [SplitInstancesByRevision] in Hr.
  destruct ((scaleNum d >? 0) && (scaleUpLimit d >? 0)).
  { apply bind_inv in Hr as [(e & Hg & ->)|(ids & w3 & Hg & Hr)].
    - apply (silent_takes_only ∅) in Hg; [|by apply silent_getOrGenAvailableIDs].
      apply Hnone. rewrite <-(union_empty_r_L pre). by eapply takes_only_trans.
    - apply (silent_takes_only ∅) in Hg; [|by apply silent_getOrGenAvailableIDs].
      apply (silent_takes_only ∅) in Hr; [|by apply silent_createInstances].
      apply Hnone. replace pre with (pre ∪ ∅ ∪ ∅) by set_solver. by eapply takes_only_trans, Hr; eapply takes_only_trans. }
  assert (forall w3 r3, match List.filter in_pre_delete instances with
      | [] => mret (false, None) | _ => deleteInstances us false (List.filter in_pre_delete instances) end w2 = (r3, w3) ->
      takes_only pre w w3) as Hpre.
  { intros w3 r3 H3. replace pre with (pre ∪ pre) by set_solver. eapply takes_only_trans; [exact Hw2|].
    eapply silent_takes_only, H3. destruct (List.filter in_pre_delete instances) as [|i l] eqn:E; [silence|].
    rewrite <-E. apply silent_deleteInstances; [done|]. apply elem_of_names. }
  apply or_return_inv in Hr as [(e & Hd & ->)|[(o & Hd & -> & _)|(w3 & Hd & Hr)]]; apply Hpre in Hd; auto.
  clear Hpre Hw2.
  eapply (delete_specified_inv _ _ _ _ _ _ _ _ ready) in Hr as (v1 & Hv1 & Hr); [|lia|..].
  2:{ intros n i Hi%DiffInstanceGroups_in. apply elem_of_list_filter in Hi as [Hi _]. by apply Hst. }
  2:{ intros i Hi. apply not_true_iff_false. intros Hp. unfold DiffInstanceGroups in Hi.
      rewrite !elem_of_list_filter in Hi. destruct Hi as [[Hi _] Hn]. breflect. destruct Hn.
      apply elem_of_list_to_set, list_elem_of_fmap. exists i. split; [done|]. by apply elem_of_list_filter. }
  assert (forall i, i ∈ v1 -> i ∈ instances) as Hv1'.
  { intros i Hi. apply Hv1, DiffInstanceGroups_in, elem_of_list_filter in Hi. tauto. }
  destruct Hr as [(Ht & Hc & Hne)|(-> & limit' & w4 & Ht & Hr & ->)].
  { exists v1. split; [done|]. split; [by eapply takes_only_trans|]. split; [lia|done]. }
  eapply (scale_in_inv _ _ _ _ _ _ _ _ _ ready) in Hr as (v2 & Hv2 & Ht2 & Hc2 & He2); [|lia|..].
  2:{ intros n i Hi. apply Hst. rewrite !elem_of_list_filter in Hi. tauto. }
  2:{ intros Hz i Hi. rewrite !elem_of_list_filter in Hi. apply not_true_iff_false. intros Hp.
      apply (nothing_planned us instances Hz i); tauto. }
  exists v2. split; [|split_and!; [|lia|]].
  - intros i Hi. apply Hv2 in Hi. rewrite !elem_of_list_filter in Hi. tauto.
  - eapply takes_only_trans; [|exact Ht2]. rewrite <-(union_empty_r_L pre). by eapply takes_only_trans.
  - apply He2. lia.
Qed.

(** ** Creation *)

Definition is_create (c : api_call) : bool := match c with CallCreate _ => true | _ => false end.

Lemma newVersionedInstances_length set rev n ids :
  (length (newVersionedInstances set rev n ids).1 <= n)%nat.
Proof.
  revert ids. induction n as [|n IH]; intros ids; cbn [newVersionedInstances]; [done|].
  destruct ids as [|id ids]; cbn; [lia|]. specialize (IH ids).
  destruct (newVersionedInstances set rev n ids). cbn in *. lia.
Qed.

Lemma NewVersionedInstances_length cs us cr ur n c ids :
  0 <= n -> 0 <= c -> Z.of_nat (length (NewVersionedInstances cs us cr ur n c ids)) <= n.
Proof.
  intros Hn Hc. unfold NewVersionedInstances. destruct (n <=? c) eqn:E; breflect.
  - pose proof (newVersionedInstances_length cs cr (Z.to_nat n) ids). lia.
  - destruct (newVersionedInstances cs cr _ ids) as [cur ids'] eqn:E1. rewrite length_app.
    pose proof (newVersionedInstances_length cs cr (Z.to_nat c) ids) as H3. rewrite E1 in H3.
    pose proof (newVersionedInstances_length us ur (Z.to_nat (n - c)) ids'). cbn in *. lia.
Qed.

Lemma run_createInstances I n c cs us cr ur ids :
  Framed I -> 0 <= n -> 0 <= c ->
  run I is_create (createInstances n c cs us cr ur ids) (fun _ k => k <= n).
Proof.
  intros HI Hn Hc. unfold createInstances.
  pose proof (NewVersionedInstances_length cs us cr ur n c ids Hn Hc) as Hlen.
  set (new := NewVersionedInstances _ _ _ _ _ _ _) in *.
  apply run_bind_silent; [|intros _|intros; lia].
  { apply silent_for_each. intros x. unfold ExpectScale. silence. }
  eapply run_bind.
  - apply (run_slowly_loop w_trace I is_create create_one); [intros; apply env_schedule_perm|].
    intros x _. unfold create_one. apply run_bind_silent; [silence|intros t|intros; lia].
    unfold Create, request. apply run_bind_gets. intros w _. eapply run_bind; [by apply (run_asked I is_create _ (fun _ n => n = 1))|..].
    + intros [] n1 _ ->. apply run_lift. cbn. lia.
    + intros e n1 _ ->. lia.
  - intros [created err] n1 _ Hn1. apply run_bind_silent; [|intros _; apply run_ret|]; [|cbn beta in *; lia..].
    apply silent_for_each. intros x. case_bool_decide; [|unfold ObserveScale]; silence.
  - intros e n1 _ Hn1. cbn beta in *. lia.
Qed.

Lemma silent_lifecycle_create I i state mark :
  Framed I -> silent I is_create (Lifecycle.UpdateRoleInstanceLifecycle i state mark).
Proof.
  intros HI. unfold Lifecycle.UpdateRoleInstanceLifecycle, Lifecycle.executeRoleInstanceNotReadyPolicy,
    Readiness.AddNotReadyKey, Readiness.RemoveNotReadyKey, Readiness.update_status_by, Get, UpdateStatus, Patch.
  silence; apply silent_RetryOnConflict; silence.
Qed.

Lemma silent_deleteInstances_create I set m l : Framed I -> silent I is_create (deleteInstances set m l).
Proof.
  intros HI. revert m. induction l as [|i l IH]; intros m; cbn [deleteInstances]; [silence|].
  destruct (IsRoleInstanceHooked _ i).
  - apply silent_attempt; [by apply silent_lifecycle_create|].
    intros [[u got]|e]; [|silence]. apply silent_bind; [|by intros _; apply IH].
    destruct u; [unfold ExpectVersion|]; silence.
  - apply silent_bind; [unfold ExpectScale; silence|]. intros _. apply silent_attempt.
    + apply silent_request; done.
    + intros [[]|e]; [by apply IH|]. unfold ObserveScale. silence.
Qed.

Lemma silent_managePreparingDelete_create I set n l pre num :
  Framed I -> silent I is_create (managePreparingDelete set n l pre num).
Proof.
  intros HI. unfold managePreparingDelete. destruct (IsLifecycleMarkRoleInstanceNotReady _); [silence|].
  generalize (n - Z.of_nat (length l) + num) false.
  induction pre as [|i pre IH]; intros z m; cbn [prepare_loop]; [silence|].
  destruct (z <=? 0); [silence|]. destruct (isSpecifiedDelete set i); [apply IH|].
  apply silent_attempt; [by apply silent_lifecycle_create|].
  intros [[u got]|e]; [|silence]. apply silent_bind; [|intros _; apply IH].
  destruct u; [unfold ExpectVersion|]; silence.
Qed.

(** * Properties *)

(** A scaling pass takes ready instances out of service only within the
    budget: whatever the API server answers, the ready instances it deletes or
    moves to PreparingDelete are no more than maxUnavailable and the surplus over
    the replicas leave next to the instances that are already leaving or are
    unavailable and not themselves specified for deletion. *)
Theorem scale_availability_floor fuel (currentSet updateSet : RoleInstanceSet) (currentRevision updateRevision : string)
    (instances : list RoleInstance) (ready avail : RoleInstance -> bool) (w : world) :
  sized updateSet instances -> NoDup (map ri_Name instances) -> steady updateSet instances ready avail ->
  let p := Scale fuel currentSet updateSet currentRevision updateRevision instances w in
  let lm := limits_of updateSet in
  let down i := negb (preparing_delete i) && (negb (isSpecifiedDelete updateSet i) && negb (avail i)) in
  exists new, w_trace p.2 = new ++ w_trace w /\
  countb (fun i => ready i && taken new i) instances
    <= Z.max 0 (lm_maxUnavailable lm + (Z.of_nat (length instances) - lm_replicas lm)
                - (countb preparing_delete instances + countb down instances)).
Proof.
  intros Hs Hnd Hst. cbv zeta.
  destruct (Scale_victims fuel currentSet updateSet currentRevision updateRevision instances w _ _ ready avail Hs Hst
    (surjective_pairing _)) as (victims & Hv & (new & Ht & Hn) & Hc & _).
  exists new. split; [done|]. etransitivity; [|exact Hc]. clear Hc. rewrite <-names_app in Hn.
  etransitivity; [apply (taken_countb instances (List.filter preparing_delete instances ++ victims) new ready Hnd); [|exact Hn]|].
  - intros i [Hi|Hi]%elem_of_app; [by apply elem_of_list_filter in Hi as [? _]|by apply Hv].
  - rewrite countb_app, (countb_zero ready); [lia|]. intros i [Hi Hpd]%elem_of_list_filter.
    by destruct (preparing_not_ready _ _ _ _ Hst i Hi Hpd).
Qed.

(** A scaling pass never takes the set beyond its replicas and its surge:
    whatever the API server answers, it asks for no more new instances than the
    replicas and maxSurge leave room for. *)
Theorem scale_creates_within_surge fuel (currentSet updateSet : RoleInstanceSet)
    (currentRevision updateRevision : string) (instances : list RoleInstance) (w : world) :
  sized updateSet instances ->
  let p := Scale fuel currentSet updateSet currentRevision updateRevision instances w in
  let lm := limits_of updateSet in
  exists new, w_trace p.2 = new ++ w_trace w /\
  countb is_create new <= Z.max 0 (lm_replicas lm + Z.max 0 (lm_maxSurge lm) - Z.of_nat (length instances)).
Proof.
  intros Hs. cbv zeta. set (bound := Z.max 0 _).
  assert (0 <= bound) as Hb by (unfold bound; lia).
  enough (run (fun _ => True) is_create (Scale fuel currentSet updateSet currentRevision updateRevision instances)
    (fun _ n => n <= bound)) as Hrun.
  { exact (proj2 (Hrun w _ _ I (surjective_pairing _))). }
  unfold Scale. destruct (rss_Replicas _) as [reps|]; [|by apply run_ret].
  cbn [IsReadyToScale negb getPlannedDeletedInstances]. unfold or_return at 1.
  apply run_bind_silent; [by apply silent_managePreparingDelete_create| |done]. intros [md err].
  destruct (md || _); [by apply run_ret|].
  intros w1 r w' _. unfold readings, mbind at 1, ST_bind at 1.
  set (nows := fun k => env_now (w_clock w1 + k)%nat).
  pose proof (surge_range nows updateSet instances currentRevision updateRevision Hs) as (_ & Hsurge & _ & Hnum).
  pose proof (scale_up_range nows updateSet instances currentRevision updateRevision) as [Hup _].
  set (d := calculateDiffsWithExpectation nows updateSet instances currentRevision updateRevision) in *.
  cbn [SplitInstancesByRevision]. intros Hr.
  match type of Hr with ?m _ = _ => assert (run (fun _ => True) is_create m (fun _ n => n <= bound)) as Hm end.
  2:{ by destruct (Hm _ _ _ I Hr) as (_ & new & Ht & Hn); split; [|exists new]. }
  clear Hr. destruct ((scaleNum d >? 0) && (scaleUpLimit d >? 0)).
  - apply run_bind_silent; [by apply silent_getOrGenAvailableIDs| |done]. intros ids.
    eapply run_conseq; [apply run_createInstances; [done|lia|bool_cases; breflect; lia]|].
    intros ? n _ Hn. cbn beta in *. unfold bound. lia.
  - apply run_silent; [|done]. unfold delete_specified, scale_in. repeat apply or_return_silent.
    + destruct (List.filter _ _); [silence|by apply silent_deleteInstances_create].
    + destruct (DiffInstanceGroups _ _); silence; try by apply silent_deleteInstances_create.
      apply or_return_silent; [by apply silent_deleteInstances_create|].
      silence; by apply silent_deleteInstances_create.
Qed.
End scale.

(** * A concrete pass *)
Module ScalePass.
Import StatefulUtils.Fixture Server.

(** Six ready instances for four replicas, one of which may be unavailable. *)
Definition six : list RoleInstance := Rolling.at_rev 0 6 "old" true.
Definition surplus : RoleInstanceSet := set 4 None None (Some (FromInt32 1)).
Definition deleted (calls : list api_call) : list string :=
  omap (fun c => match c with CallDelete i => Some (ri_Name i) | _ => None end) (rev calls).

Example scale_in_two :
  deleted (w_trace (Scale 1 surplus surplus "old" "old" six (start six)).2) = ["decode-0"; "decode-1"]%string.
Proof. by vm_compute. Qed.

(** Two missing: both are created, with fresh ids. *)
Definition missing : list RoleInstance := Rolling.at_rev 0 2 "old" true.

Example scale_out_two :
  map (fun c => match c with CallCreate i => ri_Name i | _ => ""%string end)
    (w_trace (Scale 1 surplus surplus "old" "old" missing (start missing)).2) = ["decode-id0"; "decode-id1"]%string.
Proof. by vm_compute. Qed.

(** An instance named for deletion that is already unavailable is not counted as
    unavailable: with maxUnavailable 1 two of four replicas go down together. *)
Definition ready_at : RoleInstance -> bool := IsInstanceReady (1000 * second).
Definition four_one_down : list RoleInstance :=
  (Rolling.at_rev 0 1 "old" false ++ Rolling.at_rev 1 3 "old" true)%list.
Definition two_named : RoleInstanceSet := {|
  rs_meta := rs_meta surplus; rs_status := rs_status surplus;
  rs_spec := {| rss_Replicas := Some 4; rss_Selector := None; rss_RoleInstanceTemplate := spec;
    rss_PodManagementPolicy := ParallelPodManagement;
    rss_ScaleStrategy := {| ss_RoleInstanceToDelete := ["decode-0"; "decode-1"]%string; ss_MaxUnavailable := None |};
    rss_UpdateStrategy := rs_update surplus; rss_RevisionHistoryLimit := None; rss_MinReadySeconds := 0;
    rss_Lifecycle := None |} |}.

Example named_and_down_not_counted :
  let new := w_trace (Scale 1 two_named two_named "old" "old" four_one_down (start four_one_down)).2 in
  deleted new = ["decode-0"; "decode-1"]%string /\
  countb (fun i => ready_at i && negb (taken new i)) four_one_down = 2 /\
  lm_maxUnavailable (limits_of two_named) = 1.
Proof. by vm_compute. Qed.

Lemma six_sized : sized surplus six.
Proof. unfold sized. vm_compute. repeat split; discriminate. Qed.
End ScalePass.

Import Server.

Lemma scale_availability_floor_witness :
  let p := Scale 1 ScalePass.surplus ScalePass.surplus "old" "old" ScalePass.six (Server.start ScalePass.six) in
  exists new, w_trace p.2 = (new ++ w_trace (Server.start ScalePass.six))%list /\
  countb (fun i => ScalePass.ready_at i && taken new i) ScalePass.six
    <= Z.max 0 (lm_maxUnavailable (limits_of ScalePass.surplus)
                + (Z.of_nat (length ScalePass.six) - lm_replicas (limits_of ScalePass.surplus))
                - (countb preparing_delete ScalePass.six
                   + countb (fun i => negb (preparing_delete i)
                       && (negb (isSpecifiedDelete ScalePass.surplus i) && negb (ScalePass.ready_at i))) ScalePass.six)).
Proof.
  apply (scale_availability_floor 1 ScalePass.surplus ScalePass.surplus "old" "old" ScalePass.six
           ScalePass.ready_at ScalePass.ready_at (Server.start ScalePass.six)).
  - exact ScalePass.six_sized.
  - apply (bool_decide_eq_true_1 (NoDup (map ri_Name ScalePass.six))). by vm_compute.
  - intros k i _. split; reflexivity.
Defined.

Lemma scale_creates_within_surge_witness :
  let p := Scale 1 ScalePass.surplus ScalePass.surplus "old" "old" ScalePass.six (Server.start ScalePass.six) in
  exists new, w_trace p.2 = (new ++ w_trace (Server.start ScalePass.six))%list /\
  countb is_create new
    <= Z.max 0 (lm_replicas (limits_of ScalePass.surplus) + Z.max 0 (lm_maxSurge (limits_of ScalePass.surplus))
                - Z.of_nat (length ScalePass.six)).
Proof.
  apply (scale_creates_within_surge 1 ScalePass.surplus ScalePass.surplus "old" "old" ScalePass.six
           (Server.start ScalePass.six)). exact ScalePass.six_sized.
Defined.
