(* ===== verification/StatelessCreation.v ===== *)
(** Stateless mode, the creation of instances: the slow start of the requests and
    the creations that stay awaited after it (createInstances of sync/scale.go
    and DoItSlowly of utils/utils.go). *)
From Stdlib Require Import ZArith Lia Bool Ascii String Permutation.
From stdpp Require Import base tactics list strings gmap sets fin_maps.
From S2P Require Import Prelude Types Expectations Effects StatefulUtils StatelessUtils StatelessDiffs.
From S2P Require Import StatelessWorld InstanceControls StatelessScale SlowStart StatelessScaling.

Section creation.
Context `{Env, SortSlice, PodNames, PortAllocation}.

(** The names whose creation the server accepted, newest first. *)
Fixpoint accepted (calls : list api_call) : list string :=
  match calls with
  | [] => []
  | CallCreate i :: t => if is_ok (env_create t i) then ri_Name i :: accepted t else accepted t
  | _ :: t => accepted t
  end.

(** From [w] to [w'], [n] creations were asked for, those of [ok] were accepted,
    and nothing else changed that a scaling pass reads. *)
Definition created (n : nat) (ok : list RoleInstance) (w w' : world) : Prop :=
  w_scale w' = w_scale w /\
  accepted (w_trace w') = (rev (map ri_Name ok) ++ accepted (w_trace w))%list /\
  exists new, w_trace w' = (new ++ w_trace w)%list /\ countb is_create new = Z.of_nat n.

Lemma created_refl w : created 0 [] w w.
Proof. split; [done|]. split; [done|]. by exists []. Qed.

Lemma created_trans n1 n2 ok1 ok2 w w1 w2 :
  created n1 ok1 w w1 -> created n2 ok2 w1 w2 -> created (n1 + n2) (ok1 ++ ok2) w w2.
Proof.
  intros (Hs1 & Ha1 & new1 & Ht1 & Hn1) (Hs2 & Ha2 & new2 & Ht2 & Hn2).
  split; [congruence|]. split; [rewrite Ha2, Ha1, map_app, rev_app_distr; by rewrite app_assoc|].
  exists (new2 ++ new1)%list. split; [by rewrite Ht2, Ht1, app_assoc|]. rewrite countb_app. lia.
Qed.

Lemma create_one_spec i w r w' :
  create_one i w = (r, w') -> created 1 (match r with Ok _ => [i] | Err _ => [] end) w w'.
Proof.
  unfold create_one, Create, request, now, call, gets, modify, lift, mbind, ST_bind. cbn.
  intros [= <- <-]. split; [done|]. split.
  - cbn. by destruct (env_create _ _).
  - eexists [_]. split; [done|]. done.
Qed.

Lemma run_batch_spec l w :
  exists ok errs w', run_batch create_one l w = (Ok (ok, errs), w') /\ created (length l) ok w w' /\
    (forall i, i ∈ ok -> i ∈ l) /\ (length ok + length errs = length l)%nat /\ (errs = [] -> ok = l).
Proof.
  revert w. induction l as [|i l IH]; intros w; cbn [run_batch].
  - exists [], [], w. split; [done|]. split; [apply created_refl|]. done.
  - unfold attempt. destruct (create_one i w) as [r w1] eqn:E. apply create_one_spec in E.
    destruct (IH w1) as (ok & errs & w2 & Hr & Hc & Hin & Hlen & Hall).
    unfold mbind, ST_bind. rewrite Hr.
    pose proof (created_trans _ _ _ _ _ _ _ E Hc) as Ht.
    destruct r as [[]|e]; cbn [app] in Ht.
    + exists (i :: ok), errs, w2. split; [done|]. split; [done|].
      split; [set_solver|]. split; [cbn; lia|]. intros He. by rewrite Hall.
    + exists ok, (e :: errs), w2. split; [done|]. split; [done|]. split; [set_solver|]. split; [cbn; lia|done].
Qed.

(** The slow start: every input is tried while none fails, and at most [b] calls
    more than twice those that succeed are made. *)
Lemma slowly_loop_spec fuel sched b l w :
  (forall w l, sched w l ≡ₚ l) -> (length l <= fuel)%nat -> (b <= length l)%nat -> (l <> [] -> 0 < b)%nat ->
  exists ok err w' n, slowly_loop fuel sched create_one b l w = (Ok (ok, err), w') /\ created n ok w w' /\
    (forall i, i ∈ ok -> i ∈ l) /\ (n <= 2 * length ok + b)%nat /\
    match err with None => ok ≡ₚ l | Some _ => (length ok < length l)%nat end.
Proof.
  intros Hs. revert b l w. induction fuel as [|fuel IH]; intros b l w Hf Hb Hpos.
  { destruct l; [|cbn in Hf; lia]. exists [], None, w, 0%nat. split; [done|]. split; [apply created_refl|]. cbn. auto with lia. }
  cbn [slowly_loop]. destruct (Nat.eqb_spec b 0) as [->|Hb0].
  { destruct l; [|specialize (Hpos ltac:(done)); lia].
    exists [], None, w, 0%nat. split; [done|]. split; [apply created_refl|]. cbn. auto with lia. }
  unfold gets. unfold mbind at 1, ST_bind at 1. pose proof (Hs w (take b l)) as Hperm.
  destruct (run_batch_spec (sched w (take b l)) w) as (ok & errs & w1 & Hr & Hc & Hin & Hlen & Hall).
  assert (length (sched w (take b l)) = b) as Hbl by (rewrite Hperm, length_take; lia).
  rewrite Hbl in Hc, Hlen.
  assert (forall i, i ∈ ok -> i ∈ take b l) as Hin' by (intros i Hi; apply Hin in Hi; by rewrite Hperm in Hi).
  unfold mbind at 1, ST_bind at 1. rewrite Hr. destruct errs as [|e errs].
  - specialize (Hall eq_refl). subst ok.
    destruct (IH (Nat.min (2 * b) (length (drop b l))) (drop b l) w1) as (ok' & err & w2 & n & Hr2 & Hc2 & Hin2 & Hn2 & He).
    { rewrite length_drop. lia. } { lia. }
    { destruct (drop b l) eqn:E; [done|]. cbn. lia. }
    eexists _, err, w2, _. unfold mbind, ST_bind. rewrite Hr2. split; [done|].
    split; [by eapply created_trans|]. rewrite length_app, Hbl.
    split; [|split; [lia|]].
    + intros i. rewrite elem_of_app. intros [Hi%Hin'%elem_of_take_in|Hi%Hin2]; [done|].
      rewrite <-(take_drop b l). set_solver.
    + destruct err; [rewrite length_drop in He; lia|]. rewrite Hperm, He. by rewrite take_drop.
  - exists ok, (Some e), w1, b. split; [done|]. split; [done|]. split; [|split; [lia|cbn in Hlen; lia]].
    intros i Hi%Hin'%elem_of_take_in. done.
Qed.

Lemma DoItSlowly_spec l w :
  exists ok err w' n, DoItSlowly (fun w => env_schedule (w_trace w)) l initialBatchSize create_one w
      = (Ok (ok, err), w') /\ created n ok w w' /\ (forall i, i ∈ ok -> i ∈ l) /\ (n <= 2 * length ok + 1)%nat /\
    match err with None => ok ≡ₚ l | Some _ => (length ok < length l)%nat end.
Proof.
  unfold DoItSlowly, initialBatchSize.
  destruct (slowly_loop_spec (length l) (fun w => env_schedule (w_trace w)) (length l `min` 1) l w)
    as (ok & err & w' & n & Hr & Hc & Hin & Hn & He).
  - intros. apply env_schedule_perm.
  - done.
  - lia.
  - destruct l; [done|]. cbn. lia.
  - exists ok, err, w', n. split; [done|]. split; [done|]. split; [done|]. split; [lia|done].
Qed.

Lemma expect_all set l w :
  exists w', for_each (fun p => ExpectScale set Scale.Create (ri_Name p)) l w = (Ok tt, w') /\
    w_trace w' = w_trace w /\
    Scale.pending (w_scale w') (GetControllerKey set)
    = list_to_set (map (fun p => (Scale.Create, ri_Name p)) l) ∪ Scale.pending (w_scale w) (GetControllerKey set).
Proof.
  revert w. induction l as [|i l IH]; intros w; cbn [for_each map list_to_set].
  - exists w. split; [done|]. split; [done|]. set_solver.
  - destruct (IH (with_scale (Scale.ExpectScale (GetControllerKey set) Scale.Create (ri_Name i) (w_scale w)) w))
      as (w' & Hr & Ht & Hp).
    exists w'. split; [exact Hr|]. split; [done|]. rewrite Hp. cbn [with_scale w_scale]. rewrite Scale.pending_Expect. set_solver.
Qed.

Lemma observe_failed set (X : gset string) l w :
  exists w', for_each (fun p =>
      if bool_decide (ri_Name p ∈ X) then mret tt else ObserveScale set Scale.Create (ri_Name p)) l w = (Ok tt, w') /\
    w_trace w' = w_trace w /\
    forall a n, (a, n) ∈ Scale.pending (w_scale w') (GetControllerKey set) <->
      (a, n) ∈ Scale.pending (w_scale w) (GetControllerKey set) /\
      ~ (a = Scale.Create /\ n ∉ X /\ exists p, p ∈ l /\ ri_Name p = n).
Proof.
  revert w. induction l as [|i l IH]; intros w; cbn [for_each].
  - exists w. split; [done|]. split; [done|]. intros a n. set_solver.
  - case_bool_decide as Hi.
    + destruct (IH w) as (w' & Hr & Ht & Hp). exists w'. split; [exact Hr|]. split; [done|].
      intros a n. rewrite Hp. set_solver.
    + destruct (IH (with_scale (Scale.ObserveScale (GetControllerKey set) Scale.Create (ri_Name i) (w_scale w)) w))
        as (w' & Hr & Ht & Hp).
      exists w'. split; [exact Hr|]. split; [done|]. intros a n. rewrite Hp. cbn [with_scale w_scale].
      rewrite Scale.pending_Observe, elem_of_difference, not_elem_of_singleton. split.
      * intros [[Hpe Hne] Hn]. split; [done|]. intros (-> & Hx & p & [->|Hpl]%elem_of_cons & <-); [done|].
        apply Hn. eauto.
      * intros [Hpe Hn]. split; [split; [done|]|].
        -- intros [= -> ->]. apply Hn. split; [done|]. split; [done|]. exists i. set_solver.
        -- intros (-> & Hx & p & Hpl & <-). apply Hn. split; [done|]. split; [done|]. exists p. set_solver.
Qed.

(** * Properties *)

(** Creating instances leaves exactly the accepted creations awaited.  From a
    store that awaits nothing for the set, whatever the API server answers and in
    whatever order the requests of a batch reach it: the awaited creations are
    those it accepted, all of them when no error is returned; the pass reports a
    change exactly when one was accepted; and at most one request more than twice
    the accepted ones is made. *)
Theorem createInstances_expectations (expectedCreations expectedCurrentCreations : Z)
    (currentSet updateSet : RoleInstanceSet) (currentRevision updateRevision : string) (ids : list string) (w : world) :
  Scale.pending (w_scale w) (GetControllerKey updateSet) = ∅ ->
  let p := createInstances expectedCreations expectedCurrentCreations currentSet updateSet
             currentRevision updateRevision ids w in
  let new := NewVersionedInstances currentSet updateSet currentRevision updateRevision
               expectedCreations expectedCurrentCreations ids in
  exists ok err calls,
    p.1 = Ok (negb (bool_decide (ok = [])), err) /\
    w_trace p.2 = (calls ++ w_trace w)%list /\ countb is_create calls <= 2 * Z.of_nat (length ok) + 1 /\
    accepted (w_trace p.2) = (rev ok ++ accepted (w_trace w))%list /\
    (forall a n, (a, n) ∈ Scale.pending (w_scale p.2) (GetControllerKey updateSet) <-> a = Scale.Create /\ n ∈ ok) /\
    match err with None => ok ≡ₚ map ri_Name new | Some _ => (length ok < length new)%nat end.
Proof.
  intros Hp0. cbv zeta. unfold createInstances. set (new := NewVersionedInstances _ _ _ _ _ _ _).
  destruct (expect_all updateSet new w) as (w1 & Hr1 & Ht1 & Hp1).
  destruct (DoItSlowly_spec new w1) as (ok & err & w2 & n & Hr2 & (Hs2 & Ha2 & calls & Ht2 & Hn2) & Hin & Hn & He).
  destruct (observe_failed updateSet (list_to_set (map ri_Name ok)) new w2) as (w3 & Hr3 & Ht3 & Hp3).
  unfold mbind, ST_bind in *. rewrite Hr1, Hr2, Hr3.
  assert ((match ok with [] => mret (false, err) | _ => mret (true, err) end : M outcome) w3
    = (Ok (negb (bool_decide (map ri_Name ok = [])), err), w3)) as Hret by (by destruct ok).
  exists (map ri_Name ok), err, calls. rewrite length_map.
  split; [by destruct ok|]. assert (forall o : outcome, (mret (M := M) o w3).2 = w3) as Hw3 by done.
  split; [by rewrite Hw3, Ht3, Ht2, Ht1|]. split; [lia|].
  split; [by rewrite Hw3, Ht3, Ha2, Ht1|].
  split; [|destruct err; [done|by rewrite He]].
  intros a m. rewrite Hw3, Hp3, Hs2, Hp1, Hp0, union_empty_r_L, !elem_of_list_to_set, list_elem_of_fmap. split.
  - intros [(q & [= -> ->] & Hq) Hnot]. split; [done|]. destruct (decide (ri_Name q ∈ map ri_Name ok)); [done|].
    destruct Hnot. eauto.
  - intros [-> Hm]. split; [|by intros (_ & ? & _)]. apply list_elem_of_fmap in Hm as (q & -> & Hq). eauto.
Qed.
End creation.

Import Server.

(** Two ids for three instances: two are created. *)
Lemma createInstances_expectations_witness :
  let p := createInstances 3 1 ScalePass.surplus ScalePass.surplus "old" "new" ["a"; "b"]%string (Server.start []) in
  exists ok err calls,
    p.1 = Ok (negb (bool_decide (ok = [])), err) /\
    w_trace p.2 = (calls ++ w_trace (Server.start []))%list /\
    countb is_create calls <= 2 * Z.of_nat (length ok) + 1 /\
    accepted (w_trace p.2) = (rev ok ++ accepted (w_trace (Server.start [])))%list /\
    (forall a n, (a, n) ∈ Scale.pending (w_scale p.2) (GetControllerKey ScalePass.surplus)
                 <-> a = Scale.Create /\ n ∈ ok) /\
    match err with
    | None => ok ≡ₚ map ri_Name (NewVersionedInstances ScalePass.surplus ScalePass.surplus "old" "new" 3 1 ["a"; "b"]%string)
    | Some _ => (length ok < length (NewVersionedInstances ScalePass.surplus ScalePass.surplus "old" "new" 3 1 ["a"; "b"]%string))%nat
    end.
Proof.
  apply (createInstances_expectations 3 1 ScalePass.surplus ScalePass.surplus "old" "new" ["a"; "b"]%string
           (Server.start [])). reflexivity.
Defined.
