(* ===== verification/StatelessUpdating.v ===== *)
(** Stateless mode, what an update pass guarantees: the instances it takes out of
    service stay within maxUnavailable. *)
From Stdlib Require Import ZArith Lia Bool Ascii String Permutation.
From stdpp Require Import base tactics list strings gmap sets fin_maps.
From S2P Require Import Prelude IntOrString Types Expectations Effects StatefulUtils StatelessUtils.
From S2P Require Import StatelessDiffs StatelessWorld InstanceControls StatelessScale SlowStart StatelessScaling.
From S2P Require Import StatelessUpdate.

(** * Indexes *)

Lemma elem_of_indexes_from f k0 l k :
  k ∈ indexes_from f k0 l <-> (k0 <= k)%nat /\ exists i, l !! (k - k0)%nat = Some i /\ f i = true.
Proof.
  revert k0. induction l as [|x l IH]; intros k0; cbn [indexes_from].
  - split; [by intros ?%elem_of_nil|]. by intros (_ & i & Hi & _).
  - assert (k ∈ indexes_from f (S k0) l <-> (k0 < k)%nat /\ exists i, (x :: l) !! (k - k0)%nat = Some i /\ f i = true) as IH'.
    { rewrite IH. split; intros [Hk (i & Hi & Hf)]; (split; [lia|]); exists i; (split; [|done]).
      - by replace (k - k0)%nat with (S (k - S k0)) by lia.
      - by replace (k - k0)%nat with (S (k - S k0)) in Hi by lia. }
    destruct (f x) eqn:Hx; rewrite ?elem_of_cons, IH'.
    + split.
      * intros [->|[? ?]]; [|split; [lia|done]]. split; [lia|]. exists x. by rewrite Nat.sub_diag.
      * intros [Hk Hi]. destruct (decide (k = k0)); [by left|]. right. split; [lia|done].
    + split; intros [Hk (i & Hi & Hf)]; (split; [|eauto]); [lia|].
      destruct (decide (k = k0)) as [->|]; [|lia]. rewrite Nat.sub_diag in Hi. cbn in Hi. congruence.
Qed.

Lemma NoDup_indexes_from f k0 l : NoDup (indexes_from f k0 l).
Proof.
  revert k0. induction l as [|x l IH]; intros k0; cbn [indexes_from]; [constructor|].
  destruct (f x); [|done]. constructor; [|done]. rewrite elem_of_indexes_from. lia.
Qed.

Lemma partition_perm {A} (f : A -> bool) l : (List.filter f l ++ List.filter (fun x => negb (f x)) l)%list ≡ₚ l.
Proof.
  induction l as [|x l IH]; cbn; [done|]. destruct (f x); cbn; [by rewrite IH|].
  rewrite <-Permutation_middle. by rewrite IH.
Qed.

Lemma SortUpdateIndexes_perm `{SortSlice} t l ks : SortUpdateIndexes t l ks ≡ₚ ks.
Proof. unfold SortUpdateIndexes. rewrite partition_perm. apply sort_slice_perm. Qed.

(** * The limit *)

Lemma count_unavailable_static nows m target l (avail : RoleInstance -> bool) :
  (forall k i, i ∈ l -> IsInstanceAvailable (nows k) i m = avail i) ->
  count_unavailable nows m target l
  = (countb (fun i => negb (avail i)) l, countb (fun i => negb (avail i) && at_hash target i) l).
Proof.
  revert nows. induction l as [|i l IH]; intros nows Ha; cbn [count_unavailable countb]; [done|].
  rewrite IH by (intros; apply (Ha (S k)); set_solver). rewrite Ha by set_solver.
  destruct (avail i); cbn [negb andb]; [by rewrite !Z.add_0_l|]. unfold one. f_equal; lia.
Qed.

Lemma can_update_count_spec nows m umax l target unav count ks (avail : RoleInstance -> bool) :
  (forall k i, i ∈ l -> IsInstanceAvailable (nows k) i m = avail i) ->
  let c := can_update_count nows m umax l target unav count ks in
  count <= c <= count + Z.of_nat (length ks) /\
  countb (on_index l avail) (take (Z.to_nat (c - count)) ks) <= Z.max 0 (umax - unav) /\
  (count < c -> target + (c - 1) < umax).
Proof.
  intros Ha. assert (forall n k, on_index l (fun i => IsInstanceAvailable (nows n) i m) k = on_index l avail k) as Hon.
  { intros n k. unfold on_index. destruct (l !! k) eqn:E; [|done]. apply Ha. by eapply list_elem_of_lookup_2. }
  revert nows unav count Ha Hon. induction ks as [|k ks IH]; intros nows unav count Ha Hon; cbn [can_update_count length].
  { rewrite Z.sub_diag. change (Z.to_nat 0) with 0%nat; rewrite take_0; cbn [countb]. lia. }
  assert (forall u, let c := can_update_count (fun k => nows (S k)) m umax l target u (count + 1) ks in
    count + 1 <= c <= count + 1 + Z.of_nat (length ks) /\
    countb (on_index l avail) (take (Z.to_nat (c - count)) (k :: ks))
      <= (if on_index l avail k then 1 else 0) + Z.max 0 (umax - u) /\
    (count + 1 < c -> target + (c - 1) < umax)) as Hstep.
  { intros u. destruct (IH (fun k => nows (S k)) u (count + 1)) as (H1 & H2 & H3);
      [intros; by apply Ha|intros; by apply Hon|].
    cbv zeta. set (c := can_update_count _ _ _ _ _ _ _ _) in *. split; [done|]. split; [|done].
    replace (Z.to_nat (c - count)) with (S (Z.to_nat (c - (count + 1)))) by lia. cbn [take countb]. lia. }
  destruct (target + count >=? umax) eqn:Et; breflect; [rewrite Z.sub_diag; change (Z.to_nat 0) with 0%nat; rewrite take_0; cbn [countb]; lia|].
  rewrite Hon. destruct (on_index l avail k) eqn:Ek.
  - destruct (unav >=? umax) eqn:Eu; breflect; [rewrite Z.sub_diag; change (Z.to_nat 0) with 0%nat; rewrite take_0; cbn [countb]; lia|].
    destruct (Hstep (unav + 1)) as (H1 & H2 & H3). split; [lia|]. split; [lia|].
    intros _. destruct (decide (count + 1 < can_update_count (fun k => nows (S k)) m umax l target (unav + 1) (count + 1) ks));
      [by apply H3|lia].
  - destruct (Hstep unav) as (H1 & H2 & H3). split; [lia|]. split; [lia|].
    intros _. destruct (decide (count + 1 < can_update_count (fun k => nows (S k)) m umax l target unav (count + 1) ks));
      [by apply H3|lia].
Qed.

Lemma limitUpdateIndexes_prefix nows1 nows2 m d ks l target :
  exists c, limitUpdateIndexes nows1 nows2 m d ks l target = take c ks.
Proof.
  unfold limitUpdateIndexes. destruct (count_unavailable _ _ _ _) as [u t]. rewrite take_take. eauto.
Qed.

(** The indexes an update pass goes on with are a prefix of those in the
    update order, no longer than the difference to update; among them the available
    instances fit what maxUnavailable leaves next to all unavailable ones, and all
    of them together fit what it leaves next to the unavailable instances already
    at the target revision. *)
Theorem limitUpdateIndexes_budget (nows1 nows2 : nat -> Z) (minReadySeconds : Z) (d : expectationDiffs)
    (indexes : list nat) (instances : list RoleInstance) (target : string) (avail : RoleInstance -> bool) :
  IntAbs (updateNum d) = Z.abs (updateNum d) ->
  (forall k i, i ∈ instances ->
     IsInstanceAvailable (nows1 k) i minReadySeconds = avail i /\
     IsInstanceAvailable (nows2 k) i minReadySeconds = avail i) ->
  let ks := limitUpdateIndexes nows1 nows2 minReadySeconds d indexes instances target in
  (exists c, ks = take c indexes) /\
  Z.of_nat (length ks) <= Z.abs (updateNum d) /\
  countb (on_index instances avail) ks
    <= Z.max 0 (updateMaxUnavailable d - countb (fun i => negb (avail i)) instances) /\
  Z.of_nat (length ks)
    <= Z.max 0 (updateMaxUnavailable d - countb (fun i => negb (avail i) && at_hash target i) instances).
Proof.
  intros Habs Ha. cbv zeta. split; [apply limitUpdateIndexes_prefix|]. unfold limitUpdateIndexes.
  rewrite (count_unavailable_static _ _ _ _ avail) by (intros; by apply Ha). rewrite Habs.
  set (waiting := take _ indexes).
  pose proof (can_update_count_spec nows2 minReadySeconds (updateMaxUnavailable d) instances
    (countb (fun i => negb (avail i) && at_hash target i) instances)
    (countb (fun i => negb (avail i)) instances) 0 waiting avail ltac:(intros; by apply Ha)) as (H1 & H2 & H3).
  cbv zeta in H1, H2, H3. set (c := can_update_count _ _ _ _ _ _ _ _) in *. rewrite Z.sub_0_r in H2.
  assert (Z.of_nat (length waiting) <= Z.abs (updateNum d)) as Hw by (unfold waiting; rewrite length_take; lia).
  rewrite length_take. split; [lia|]. split; [done|]. destruct (decide (0 < c)) as [Hc|Hc]; [specialize (H3 Hc)|]; lia.
Qed.

(** * Quiet steps *)

(** All entries but one are as they were. *)
Definition others (l : list RoleInstance) (k : nat) (w : world) : Prop :=
  forall k', k' <> k -> w_instances w !! k' = l !! k'.

#[export] Instance framed_others l k : Framed (others l k).
Proof. intros w w' He Hw k' Hk. by rewrite <-He, Hw. Qed.

Section update.
Context `{Env, SortSlice}.

Lemma silent_update_by_recreate l k i X :
  ri_Name i ∈ X -> silent (others l k) (outside X) (update_by_recreate k i).
Proof.
  intros Hi. unfold update_by_recreate. apply silent_bind; [by apply silent_PatchSpecifiedDelete; [apply _|]|].
  intros [patched got]. apply silent_bind.
  - apply silent_modify; [|done]. intros w Hw k' Hk. cbn. by rewrite list_lookup_insert_ne, Hw.
  - intros _. apply silent_bind; [destruct patched; [unfold ExpectVersion|]; silence|]. silence.
Qed.

Lemma silent_updateInstance l set rev revs k i X :
  ri_Name i ∈ X -> silent (others l k) (outside X) (updateInstance set rev revs k i).
Proof.
  intros Hi. unfold updateInstance.
  assert (silent (others l k) (outside X) (d ← update_by_recreate k i; mret (d, @None error))) as Hre.
  { apply silent_bind; [by apply silent_update_by_recreate|]. silence. }
  assert (forall r, silent (others l k) (outside X) (expect_if r ≫= fun _ => mret (0, @None error))) as Hex.
  { intros [[] got]; unfold expect_if, ExpectVersion; cbn; silence. }
  assert (silent (others l k) (outside X) (update_in_place set k i (revision_of revs i) rev)) as Hgo.
  { unfold update_in_place. apply silent_bind; [by apply silent_InPlaceUpdate; [apply _|]|]. intros res.
    destruct (InPlace.ur_InPlaceUpdate res); [|done]. destruct (InPlace.ur_UpdateErr res); [|unfold ExpectVersion]; silence. }
  repeat case_match; try done; try apply silent_ret.
  - apply silent_bind; [|done]. by apply silent_UpdateRoleInstanceLifecycle; [apply _|left].
  - apply silent_bind; [|done]. by apply silent_UpdateRoleInstanceLifecycleWithHandler; [apply _|].
Qed.

Lemma silent_refresh_all I X set m l : Framed I -> silent I (outside X) (refresh_all set m l).
Proof.
  intros HI. revert m. induction l as [|i l IH]; intros m; cbn [refresh_all]; [silence|].
  apply silent_bind.
  - unfold refreshInstanceState. apply silent_bind; [by apply silent_Refresh|]. intros d.
    case_bool_decide as Hstate; [silence|]. apply silent_bind.
    + apply silent_UpdateRoleInstanceLifecycle; [done|]. right. revert Hstate. unfold refreshed_state, serving_state.
      repeat case_match; done.
    + intros [[] got]; [unfold ExpectVersion|]; silence.
  - intros [p d]. apply silent_bind; [destruct (d >? 0); [unfold push_duration|]; silence|]. intros _. apply IH.
Qed.

Definition instances_at (l : list RoleInstance) (ks : list nat) : list RoleInstance := omap (fun k => l !! k) ks.

Lemma countb_instances_at f l ks : countb f (instances_at l ks) = countb (on_index l f) ks.
Proof.
  unfold instances_at, on_index. induction ks as [|k ks IH]; [done|]. cbn [omap list_omap countb].
  destruct (l !! k) as [i|]; cbn [countb]; lia.
Qed.

Lemma update_loop_takes set rev revs l ks w r w' :
  NoDup ks -> (forall k, k ∈ ks -> w_instances w !! k = l !! k) ->
  update_loop set rev revs ks w = (r, w') -> takes_only (names (instances_at l ks)) w w'.
Proof.
  revert w. induction ks as [|k ks IH]; intros w Hnd Hl; cbn [update_loop].
  { intros [= <- <-]. apply takes_only_refl. }
  apply NoDup_cons in Hnd as [Hk Hnd]. unfold gets, mbind at 1, ST_bind at 1.
  unfold instances_at. cbn [omap list_omap]. rewrite (Hl k) by set_solver.
  destruct (l !! k) as [i|] eqn:Ei; [|intros [= <- <-]; apply takes_only_refl].
  fold (instances_at l ks).
  assert (others (w_instances w) k w) as Hw by done.
  pose proof (silent_updateInstance (w_instances w) set rev revs k i {[ri_Name i]} ltac:(set_solver)) as Hs.
  assert (names (i :: instances_at l ks) = {[ri_Name i]} ∪ names (instances_at l ks)) as -> by done.
  assert (forall r1 w1, updateInstance set rev revs k i w = (r1, w1) ->
    others (w_instances w) k w1 /\ takes_only {[ri_Name i]} w w1) as Hone.
  { intros r1 w1 H1. by destruct (silent_inv w_trace _ _ _ w r1 w1 Hs Hw H1). }
  assert (forall w1, takes_only {[ri_Name i]} w w1 -> takes_only ({[ri_Name i]} ∪ names (instances_at l ks)) w w1) as Hmono.
  { intros w1 Hw1. eapply takes_only_trans; [done|apply takes_only_refl]. }
  intros [(e & Hm & ->)|([d err] & w1 & Hm & Hr)]%bind_inv; [by apply Hone in Hm as [_ ?]; apply Hmono|].
  apply Hone in Hm as [Ho Ht].
  apply bind_inv in Hr as [(e & Hp & ->)|([] & w2 & Hp & Hr)].
  { destruct (d >? 0); discriminate. }
  assert (takes_only {[ri_Name i]} w w2 /\ w_instances w2 = w_instances w1) as [Ht2 Hi2].
  { destruct (d >? 0); injection Hp as <-; done. }
  destruct err as [e|]; [by injection Hr as <- <-; apply Hmono|].
  eapply takes_only_trans; [exact Ht2|]. eapply IH; [done| |exact Hr].
  intros k' Hk'. rewrite Hi2, Ho by (intros ->; done). apply Hl. set_solver.
Qed.

(** The readings of the clock agree on which instances are available. *)
Definition settled (set : RoleInstanceSet) (instances : list RoleInstance) (avail : RoleInstance -> bool) : Prop :=
  forall k i, i ∈ instances -> IsInstanceAvailable (env_now k) i (rss_MinReadySeconds (rs_spec set)) = avail i.

Lemma take_NoDup {A} n (l : list A) : NoDup l -> NoDup (take n l).
Proof. intros Hl. rewrite <-(take_drop n l) in Hl. by apply NoDup_app in Hl as [? _]. Qed.

(** The instances an update pass takes out are at distinct indexes within the
    limit. *)
Lemma Update_takes set cur upd revs w r w' (avail : RoleInstance -> bool) :
  sized set (w_instances w) -> settled set (w_instances w) avail ->
  Update set cur upd revs w = (r, w') ->
  exists ks, takes_only (names (instances_at (w_instances w) ks)) w w' /\
    countb (on_index (w_instances w) avail) ks
      <= Z.max 0 (lm_maxUnavailable (limits_of set) + Z.of_nat (length (w_instances w)) - lm_replicas (limits_of set)
                  - countb (fun i => negb (avail i)) (w_instances w)).
Proof.
  intros Hs Hset. unfold Update. unfold gets. unfold mbind at 1, ST_bind at 1. set (l := w_instances w) in *.
  set (bound := Z.max 0 _).
  assert (forall w1, takes_only ∅ w w1 -> exists ks, takes_only (names (instances_at l ks)) w w1 /\
    countb (on_index l avail) ks <= bound) as Hnone.
  { intros w1 Hw1. exists []. split; [done|cbn; lia]. }
  assert (silent (fun w => w_instances w = l) (outside ∅) (refresh_all set false l)) as Hq by (apply silent_refresh_all; apply _).
  intros [(e & Hm & ->)|(md & w1 & Hm & Hr)]%bind_inv;
    (destruct (silent_inv w_trace _ _ _ w _ _ Hq eq_refl Hm) as [Hw1 Ht1]); [by apply Hnone|].
  change (takes_only ∅ w w1) in Ht1.
  assert (forall w2, (mret tt : M unit) w2 = (r, w') -> w' = w2) as Hret by (by intros w2 [= _ <-]).
  destruct md; [apply Hret in Hr as ->; by apply Hnone|].
  destruct (us_Paused _) eqn:Hpaused; [apply Hret in Hr as ->; by apply Hnone|].
  apply readings_inv in Hr. cbv beta in Hr.
  set (nows := fun k => env_now (w_clock w1 + k)%nat) in Hr.
  pose proof (diffs_of_scale (limits_of set) (census set (cr_Name upd) nows l) (us_Paused (rs_update set))
    (Z.of_nat (length l)) (cr_Name cur) (cr_Name upd)) as (_ & _ & _ & _ & _ & Hnum & Hmax).
  rewrite <-calculateDiffs_eq in Hnum, Hmax.
  pose proof (update_diffs_abs set (cr_Name upd) (cr_Name cur) nows l Hs) as [Ho Hn].
  set (d := calculateDiffsWithExpectation nows set l (cr_Name cur) (cr_Name upd)) in *.
  destruct (updateNum d =? 0) eqn:E0; [apply Hret in Hr as ->; by apply Hnone|].
  cbn [negb] in Hmax.
  apply now_inv, readings_inv, readings_inv in Hr.
  set (target := if updateNum d <? 0 then cur else upd) in Hr.
  set (waiting := SortUpdateIndexes _ l _) in Hr.
  match type of Hr with update_loop _ _ _ (limitUpdateIndexes ?n1 ?n2 ?m _ _ _ _) _ = _ =>
    destruct (limitUpdateIndexes_prefix n1 n2 m d waiting l (cr_Name target)) as (c & Hc);
    assert (countb (on_index l avail) (limitUpdateIndexes n1 n2 m d waiting l (cr_Name target)) <= bound) as Hb
  end.
  - unfold limitUpdateIndexes.
    rewrite (count_unavailable_static _ _ _ _ avail) by (intros; by apply Hset).
    match goal with |- context [can_update_count ?n2 ?m ?u l ?t ?un 0 ?ws] =>
      pose proof (can_update_count_spec n2 m u l t un 0 ws avail ltac:(intros; by apply Hset)) as (_ & H2 & _) end.
    rewrite Z.sub_0_r in H2. etransitivity; [exact H2|]. unfold bound. lia.
  - eexists. split; [|exact Hb].
    match goal with |- takes_only ?X _ _ => rewrite <-(union_empty_l_L X) end.
    eapply takes_only_trans; [exact Ht1|]. eapply update_loop_takes in Hr; [exact Hr|..].
    + rewrite Hc. apply take_NoDup. unfold waiting. rewrite SortUpdateIndexes_perm. apply NoDup_indexes_from.
    + intros k _. cbn. by rewrite Hw1.
Qed.

(** An update pass takes available instances out of service only within
    maxUnavailable: whatever the API server answers, the available instances it
    prepares, updates in place or marks for deletion are no more than
    maxUnavailable and the surplus over the replicas leave next to all the
    unavailable ones. *)
Theorem update_availability_floor (set : RoleInstanceSet) (currentRevision updateRevision : ControllerRevision)
    (revisions : list ControllerRevision) (avail : RoleInstance -> bool) (w : world) :
  let instances := w_instances w in
  sized set instances -> NoDup (map ri_Name instances) -> settled set instances avail ->
  let p := Update set currentRevision updateRevision revisions w in
  let lm := limits_of set in
  exists new, w_trace p.2 = (new ++ w_trace w)%list /\
  countb (fun i => avail i && taken new i) instances
    <= Z.max 0 (lm_maxUnavailable lm + Z.of_nat (length instances) - lm_replicas lm
                - countb (fun i => negb (avail i)) instances).
Proof.
  cbv zeta. intros Hs Hnd Hset.
  destruct (Update_takes set currentRevision updateRevision revisions w _ _ avail Hs Hset (surjective_pairing _))
    as (ks & (new & Ht & Hn) & Hc).
  exists new. split; [done|]. etransitivity; [|exact Hc]. clear Hc. rewrite <-countb_instances_at.
  apply taken_countb; [done| |done]. intros i (k & _ & Hk)%list_elem_of_omap. by eapply list_elem_of_lookup_2.
Qed.
End update.

(** * A concrete pass *)
Module UpdatePass.
Import StatefulUtils.Fixture Server.

(** Five ready instances for four replicas, one of which may be unavailable: two
    are marked for deletion. *)
Definition five : list RoleInstance := Rolling.at_rev 0 5 "old" true.
Definition rolling : RoleInstanceSet := set 4 None None (Some (FromInt32 1)).
Definition revision (name : string) : ControllerRevision :=
  {| cr_meta := with_name name "" empty_meta; cr_Revision := 1; cr_Data := "" |}.
Definition avail : RoleInstance -> bool := fun i => IsInstanceAvailable (1000 * second) i 0.

Example update_two :
  let p := Update rolling (revision "old") (revision "new") [] (start five) in
  map (taken (w_trace p.2)) five = [true; true; false; false; false].
Proof. by vm_compute. Qed.

Lemma five_sized : sized rolling five.
Proof. unfold sized. vm_compute. repeat split; discriminate. Qed.
End UpdatePass.

Import Server.

Lemma update_availability_floor_witness :
  let w := Server.start UpdatePass.five in
  let p := Update UpdatePass.rolling (UpdatePass.revision "old") (UpdatePass.revision "new") [] w in
  exists new, w_trace p.2 = (new ++ w_trace w)%list /\
  countb (fun i => UpdatePass.avail i && taken new i) UpdatePass.five
    <= Z.max 0 (lm_maxUnavailable (limits_of UpdatePass.rolling) + Z.of_nat (length UpdatePass.five)
                - lm_replicas (limits_of UpdatePass.rolling)
                - countb (fun i => negb (UpdatePass.avail i)) UpdatePass.five).
Proof.
  apply (update_availability_floor UpdatePass.rolling (UpdatePass.revision "old") (UpdatePass.revision "new") []
           UpdatePass.avail (Server.start UpdatePass.five)).
  - exact UpdatePass.five_sized.
  - apply (bool_decide_eq_true_1 (NoDup (map ri_Name UpdatePass.five))). by vm_compute.
  - intros k i _. reflexivity.
Defined.

Lemma limitUpdateIndexes_budget_witness :
  let d := calculateDiffsWithExpectation Rolling.nows UpdatePass.rolling UpdatePass.five "old" "new" in
  let ks := limitUpdateIndexes (fun _ => 1000 * second) (fun _ => 1000 * second) 0 d [0; 1; 2; 3; 4]%nat
              UpdatePass.five "new" in
  countb (on_index UpdatePass.five UpdatePass.avail) ks
    <= Z.max 0 (updateMaxUnavailable d - countb (fun i => negb (UpdatePass.avail i)) UpdatePass.five).
Proof.
  apply (limitUpdateIndexes_budget (fun _ => 1000 * second) (fun _ => 1000 * second) 0
           (calculateDiffsWithExpectation Rolling.nows UpdatePass.rolling UpdatePass.five "old" "new")
           [0; 1; 2; 3; 4]%nat UpdatePass.five "new" UpdatePass.avail).
  - vm_compute. reflexivity.
  - intros k i _. split; reflexivity.
Defined.
