(* ===== verification/StatelessReconcile.v ===== *)
(** Stateless mode, the reconcile
    (pkg/reconciler/roleinstanceset/statelessmode: reconciler.go, status.go and
    utils/ref_manager.go).

    [RefManager] claims the listed instances, [Status] computes and writes the
    status, [syncInstanceSet] composes scaling and updating, [doReconcile] is the
    whole pass.  Two loops of the code have no bound of their own, the draw of an
    id and the search for a free revision name; both take their fuel from here. *)
From Stdlib Require Import ZArith Lia Bool Ascii String.
From stdpp Require Import base tactics list strings gmap sets.
From S2P Require Import Prelude GoStrings IntOrString Types Expectations Effects Revisions Owners StatefulUtils.
From S2P Require Import StatelessUtils StatelessDiffs StatelessWorld InstanceControls StatelessScale SlowStart.
From S2P Require Import StatelessUpdate.

Definition Selector (set : RoleInstanceSet) : labels := {[RoleInstanceOwnerLabelKey := rs_UID set]}.

Definition selector_string (set : RoleInstanceSet) : string := RoleInstanceOwnerLabelKey +:+ "=" +:+ rs_UID set.

(** * Claiming instances (utils/ref_manager.go) *)
Module RefManager.

Definition with_owner_refs (l : list OwnerReference) (i : RoleInstance) : RoleInstance :=
  ri_with_meta (with_owners l (ri_meta i)) i.

(** The references without the first of the owner; [None] when it has none. *)
Fixpoint remove_first (uid : string) (owners : list OwnerReference) : option (list OwnerReference) :=
  match owners with
  | [] => None
  | o :: owners' =>
      if bool_decide (or_UID o = uid) then Some owners' else cons o <$> remove_first uid owners'
  end.

(** [fmt.Errorf("...: %v", err)]: the error becomes text, so no test finds the
    original kind in it. *)
Definition wrapped (context : string) (e : error) : error := context +:+ ": " +:+ e.

Section manager.
Context `{Env}.

Definition canAdopt (owner : RoleInstanceSet) : M (option error) :=
  attempt (GetSet (rs_Namespace owner) (rs_Name owner)) (fun r => mret (
    match r with
    | Err e => Some e
    | Ok fresh =>
        if negb (bool_decide (rs_UID fresh = rs_UID owner)) then Some "original owner is gone"%string
        else if bool_decide (is_Some (om_DeletionTimestamp (rs_meta fresh))) then Some "owner has just been deleted"%string
        else None
    end)).

(** [canAdoptErr], computed [once]. *)
Definition canAdoptOnce (owner : RoleInstanceSet) (canAdoptErr : option (option error)) : M (option error) :=
  match canAdoptErr with Some e => mret e | None => canAdopt owner end.

Definition adopt_ref (owner : RoleInstanceSet) (i : RoleInstance) : result RoleInstance :=
  if negb (bool_decide (rs_Namespace owner = ""%string)) && negb (bool_decide (rs_Namespace owner = om_Namespace (ri_meta i)))
  then Err "cross-namespace owner references are disallowed"%string
  else Ok (with_owner_refs (upsertOwnerRef (controllerRef owner) (om_OwnerReferences (ri_meta i))) i).

(** The adopted instance, or the error; and what [canAdoptOnce] found. *)
Definition adopt (owner : RoleInstanceSet) (canAdoptErr : option (option error)) (i : RoleInstance)
    : M (result RoleInstance * option (option error)) :=
  err ← canAdoptOnce owner canAdoptErr;
  match err with
  | Some e => mret (Err (wrapped "can't adopt Object" e), Some err)
  | None =>
      match adopt_ref owner i with
      | Err e => mret (Err (wrapped "can't set Object owner reference" e), Some err)
      | Ok i' => attempt (StatelessWorld.Update i') (fun r => mret (
          match r with Ok got => Ok got | Err e => Err (wrapped "can't update Object owner reference" e) end, Some err))
      end
  end.

Definition release (owner : RoleInstanceSet) (i : RoleInstance) : M (option error) :=
  match remove_first (rs_UID owner) (om_OwnerReferences (ri_meta i)) with
  | None => mret None
  | Some owners => attempt (StatelessWorld.Update (with_owner_refs owners i)) (fun r => mret (
      match r with Ok _ => None | Err e => Some (wrapped "can't remove Instance owner reference" e) end))
  end.

(** The claimed instance, if any, or the error. *)
Definition claimObject (owner : RoleInstanceSet) (selector : labels) (canAdoptErr : option (option error))
    (i : RoleInstance) : M (result (option RoleInstance) * option (option error)) :=
  let match_ := selector_matches selector (ri_Labels i) in
  let deleting := bool_decide (is_Some (om_DeletionTimestamp (rs_meta owner))) in
  match GetControllerOf (ri_meta i) with
  | Some ref =>
      if negb (bool_decide (or_UID ref = rs_UID owner)) then mret (Ok None, canAdoptErr)
      else if match_ then mret (Ok (Some i), canAdoptErr)
      else if deleting then mret (Ok None, canAdoptErr)
      else
        err ← release owner i;
        mret (match err with
              | Some e => if IsNotFound e then Ok None else Err e
              | None => Ok None
              end, canAdoptErr)
  | None =>
      if deleting || negb match_ then mret (Ok None, canAdoptErr)
      else if bool_decide (is_Some (om_DeletionTimestamp (ri_meta i))) then mret (Ok None, canAdoptErr)
      else
        '(r, canAdoptErr) ← adopt owner canAdoptErr i;
        mret (match r with
              | Err e => if IsNotFound e then Ok None else Err e
              | Ok got => Ok (Some got)
              end, canAdoptErr)
  end.

Fixpoint claim_loop (owner : RoleInstanceSet) (selector : labels) (canAdoptErr : option (option error))
    (objs : list RoleInstance) : M (list RoleInstance * list error) :=
  match objs with
  | [] => mret ([], [])
  | i :: l =>
      '(r, canAdoptErr) ← claimObject owner selector canAdoptErr i;
      '(claimed, errs) ← claim_loop owner selector canAdoptErr l;
      mret (match r with
            | Err e => (claimed, e :: errs)
            | Ok (Some i') => (i' :: claimed, errs)
            | Ok None => (claimed, errs)
            end)
  end.

(** Any error fails the whole: the caller drops what was claimed. *)
Definition ClaimOwnedObjects (owner : RoleInstanceSet) (selector : labels) (objs : list RoleInstance)
    : M (list RoleInstance) :=
  '(claimed, errs) ← claim_loop owner selector None objs;
  match errs with [] => mret claimed | _ => fail (Join errs ", ") end.
End manager.
End RefManager.

(** * The status (status.go) *)
Module Status.

Record counts := {
  c_Replicas : Z;
  c_ReadyReplicas : Z;
  c_AvailableReplicas : Z;
  c_UpdatedReplicas : Z;
  c_UpdatedReadyReplicas : Z
}.

Definition no_counts : counts := {|
  c_Replicas := 0; c_ReadyReplicas := 0; c_AvailableReplicas := 0; c_UpdatedReplicas := 0; c_UpdatedReadyReplicas := 0 |}.

(** Three readings of the clock for each instance, in the order of the tests. *)
Fixpoint count_replicas (nows : nat -> Z) (minReadySeconds : Z) (updateRevision : string)
    (instances : list RoleInstance) (c : counts) : counts :=
  match instances with
  | [] => c
  | i :: l =>
      let updated := at_hash updateRevision i in
      count_replicas (fun k => nows (k + 3)%nat) minReadySeconds updateRevision l {|
        c_Replicas := int32 (c_Replicas c + 1);
        c_ReadyReplicas := int32 (c_ReadyReplicas c + one (IsInstanceUpdateReady (nows 0%nat) i 0));
        c_AvailableReplicas := int32 (c_AvailableReplicas c + one (IsInstanceAvailable (nows 1%nat) i minReadySeconds));
        c_UpdatedReplicas := int32 (c_UpdatedReplicas c + one updated);
        c_UpdatedReadyReplicas :=
          int32 (c_UpdatedReadyReplicas c + one (updated && IsInstanceUpdateReady (nows 2%nat) i 0)) |}
  end.

(** [newStatus] as [doReconcile] makes it. *)
Definition initial (set : RoleInstanceSet) (currentRevision updateRevision : string) (collisionCount : Z)
    : RoleInstanceSetStatus := {|
  st_ObservedGeneration := om_Generation (rs_meta set); st_Replicas := 0; st_ReadyReplicas := 0;
  st_AvailableReplicas := 0; st_CurrentReplicas := 0; st_UpdatedReplicas := 0; st_UpdatedReadyReplicas := 0;
  st_ExpectedUpdatedReplicas := 0; st_UpdateRevision := updateRevision; st_CurrentRevision := currentRevision;
  st_RolloutReplacementState := None; st_CollisionCount := Some collisionCount;
  st_LabelSelector := selector_string set; st_Conditions := [] |}.

Definition with_st_conditions (l : list RoleInstanceSetCondition) (s : RoleInstanceSetStatus) : RoleInstanceSetStatus := {|
  st_ObservedGeneration := st_ObservedGeneration s; st_Replicas := st_Replicas s; st_ReadyReplicas := st_ReadyReplicas s;
  st_AvailableReplicas := st_AvailableReplicas s; st_CurrentReplicas := st_CurrentReplicas s;
  st_UpdatedReplicas := st_UpdatedReplicas s; st_UpdatedReadyReplicas := st_UpdatedReadyReplicas s;
  st_ExpectedUpdatedReplicas := st_ExpectedUpdatedReplicas s; st_UpdateRevision := st_UpdateRevision s;
  st_CurrentRevision := st_CurrentRevision s; st_RolloutReplacementState := st_RolloutReplacementState s;
  st_CollisionCount := st_CollisionCount s; st_LabelSelector := st_LabelSelector s; st_Conditions := l |}.

(** The counts start from a status that has none.  [replicas] is
    [*set.Spec.Replicas]. *)
Definition calculateStatus (nows : nat -> Z) (set : RoleInstanceSet) (replicas : Z) (newStatus : RoleInstanceSetStatus)
    (instances : list RoleInstance) : RoleInstanceSetStatus :=
  let c := count_replicas nows (rss_MinReadySeconds (rs_spec set)) (st_UpdateRevision newStatus) instances {|
             c_Replicas := st_Replicas newStatus; c_ReadyReplicas := st_ReadyReplicas newStatus;
             c_AvailableReplicas := st_AvailableReplicas newStatus; c_UpdatedReplicas := st_UpdatedReplicas newStatus;
             c_UpdatedReadyReplicas := st_UpdatedReadyReplicas newStatus |} in
  let currentRevision :=
    if c_UpdatedReplicas c =? c_Replicas c then st_UpdateRevision newStatus else st_CurrentRevision newStatus in
  {| st_ObservedGeneration := st_ObservedGeneration newStatus;
     st_Replicas := c_Replicas c; st_ReadyReplicas := c_ReadyReplicas c; st_AvailableReplicas := c_AvailableReplicas c;
     st_CurrentReplicas := st_CurrentReplicas newStatus;
     st_UpdatedReplicas := c_UpdatedReplicas c; st_UpdatedReadyReplicas := c_UpdatedReadyReplicas c;
     st_ExpectedUpdatedReplicas :=
       if bool_decide (st_UpdateRevision newStatus = currentRevision) then replicas
       else match CalculatePartitionReplicas (us_Partition (rs_update set)) (rss_Replicas (rs_spec set)) with
            | Ok partition => int32 (replicas - int32 partition)
            | Err _ => st_ExpectedUpdatedReplicas newStatus
            end;
     st_UpdateRevision := st_UpdateRevision newStatus; st_CurrentRevision := currentRevision;
     st_RolloutReplacementState := st_RolloutReplacementState newStatus;
     st_CollisionCount := st_CollisionCount newStatus; st_LabelSelector := st_LabelSelector newStatus;
     st_Conditions := st_Conditions newStatus |}.

Definition inconsistentStatus (oldStatus newStatus : RoleInstanceSetStatus) : bool :=
  (st_ObservedGeneration newStatus >? st_ObservedGeneration oldStatus)
  || negb (st_Replicas newStatus =? st_Replicas oldStatus)
  || negb (st_ReadyReplicas newStatus =? st_ReadyReplicas oldStatus)
  || negb (st_AvailableReplicas newStatus =? st_AvailableReplicas oldStatus)
  || negb (st_UpdatedReadyReplicas newStatus =? st_UpdatedReadyReplicas oldStatus)
  || negb (st_UpdatedReplicas newStatus =? st_UpdatedReplicas oldStatus)
  || negb (st_ExpectedUpdatedReplicas newStatus =? st_ExpectedUpdatedReplicas oldStatus)
  || negb (bool_decide (st_UpdateRevision newStatus = st_UpdateRevision oldStatus))
  || negb (bool_decide (st_CurrentRevision newStatus = st_CurrentRevision oldStatus))
  || negb (bool_decide (st_LabelSelector newStatus = st_LabelSelector oldStatus)).

Section write.
Context `{Env}.

Definition rs_with_status (st : RoleInstanceSetStatus) (s : RoleInstanceSet) : RoleInstanceSet :=
  {| rs_meta := rs_meta s; rs_spec := rs_spec s; rs_status := st |}.

Definition updateStatus (set : RoleInstanceSet) (newStatus : RoleInstanceSetStatus) : M unit :=
  if bool_decide (is_Some (om_DeletionTimestamp (rs_meta set))) then mret tt
  else
    RetryOnConflict DefaultBackoff (
      attempt (GetSet (rs_Namespace set) (rs_Name set)) (fun r =>
        match r with
        | Err e => if IsNotFound e then mret tt else fail e
        | Ok clone =>
            if bool_decide (is_Some (om_DeletionTimestamp (rs_meta clone))) then mret tt
            else UpdateSetStatus (rs_with_status newStatus clone)
        end)).

(** The status computed, written or not.  A nil [Replicas] is dereferenced. *)
Definition UpdateInstanceSetStatus (set : RoleInstanceSet) (newStatus : RoleInstanceSetStatus)
    (instances : list RoleInstance) : M RoleInstanceSetStatus :=
  match rss_Replicas (rs_spec set) with
  | None => fail "invalid memory address or nil pointer dereference"
  | Some replicas =>
      nows ← readings (3 * length instances);
      let newStatus := calculateStatus nows set replicas newStatus instances in
      (if inconsistentStatus (rs_status set) newStatus then updateStatus set newStatus else mret tt) ≫= fun _ =>
      mret newStatus
  end.
End write.
End Status.

(** * The pass (reconciler.go) *)

Definition FailedScale : string := "FailedScale".
Definition FailedUpdate : string := "FailedUpdate".

Definition failed (type : string) (t : Z) (e : error) : RoleInstanceSetCondition := {|
  sc_Type := type; sc_Status := ConditionTrue; sc_LastTransitionTime := Some t; sc_Reason := ""; sc_Message := e |}.

Definition DefaultRoleInstanceSetRevisionHistoryLimit : Z := 10.
Definition ExpectationTimeout : Z := 300 * second.

Section pass.
Context `{Env, SortSlice, PodNames, PortAllocation, RevisionCodec}.

(** The condition of a failure, if any. *)
Definition condition_of (type : string) (err : option error) : M (list RoleInstanceSetCondition) :=
  match err with
  | None => mret []
  | Some e => t ← now; mret [failed type t e]
  end.

(** The instances are those in memory.  The conditions to add to the status, and
    the error. *)
Definition syncInstanceSet (fuel : nat) (set : RoleInstanceSet) (currentRevision updateRevision : ControllerRevision)
    (revisions : list ControllerRevision) : M (list RoleInstanceSetCondition * option error) :=
  if bool_decide (is_Some (om_DeletionTimestamp (rs_meta set))) then mret ([], None)
  else
    match ApplyRevision set currentRevision, ApplyRevision set updateRevision with
    | Err e, _ => mret ([], Some e)
    | _, Err e => mret ([], Some e)
    | Ok currentSet, Ok updateSet =>
        instances ← gets w_instances;
        '(scaling, scaleErr) ← Scale fuel currentSet updateSet (cr_Name currentRevision) (cr_Name updateRevision) instances;
        conditions ← condition_of FailedScale scaleErr;
        if (scaling : bool) then mret (conditions, scaleErr)
        else
          updateErr ← attempt (Update updateSet currentRevision updateRevision revisions) (fun r => mret (
            match r with Ok _ => None | Err e => Some e end));
          conditions' ← condition_of FailedUpdate updateErr;
          mret ((conditions ++ conditions')%list,
                match scaleErr with Some e => Some e | None => updateErr end)
    end.

Definition getOwnedResource (set : RoleInstanceSet) (selector : labels) : M (list RoleInstance) :=
  items ← ListInstances (rs_Namespace set) selector;
  mret (GetActiveInstance set items).

Definition with_instances_to_delete (l : list string) (set : RoleInstanceSet) : RoleInstanceSet := {|
  rs_meta := rs_meta set;
  rs_spec := {| rss_Replicas := rss_Replicas (rs_spec set); rss_Selector := rss_Selector (rs_spec set);
                rss_RoleInstanceTemplate := rss_RoleInstanceTemplate (rs_spec set);
                rss_PodManagementPolicy := rss_PodManagementPolicy (rs_spec set);
                rss_ScaleStrategy := {| ss_RoleInstanceToDelete := l;
                                        ss_MaxUnavailable := ss_MaxUnavailable (rss_ScaleStrategy (rs_spec set)) |};
                rss_UpdateStrategy := rss_UpdateStrategy (rs_spec set);
                rss_RevisionHistoryLimit := rss_RevisionHistoryLimit (rs_spec set);
                rss_MinReadySeconds := rss_MinReadySeconds (rs_spec set);
                rss_Lifecycle := rss_Lifecycle (rs_spec set) |};
  rs_status := rs_status set |}.

Definition truncateInstancesToDelete (set : RoleInstanceSet) (instances : list RoleInstance) : M unit :=
  let named := ss_RoleInstanceToDelete (rss_ScaleStrategy (rs_spec set)) in
  if (length named =? 0)%nat then mret tt
  else
    let existingInstances : gset string := list_to_set (map ri_Name instances) in
    let newInstancesToDelete := List.filter (fun name => bool_decide (name ∈ existingInstances)) named in
    if (length newInstancesToDelete =? length named)%nat then mret tt
    else UpdateSet (with_instances_to_delete newInstancesToDelete set).

(** The revisions some instance carries, by their short hash. *)
Definition live_hashes (instances : list RoleInstance) : gset string :=
  list_to_set (map (fun i => GetShortHash (label_of (ri_Labels i) ControllerRevisionHashLabelKey)) instances).

Definition truncateHistory (set : RoleInstanceSet) (instances : list RoleInstance)
    (revisions : list ControllerRevision) (current update : ControllerRevision) : M unit :=
  let live := live_hashes instances in
  TruncateControllerRevisions revisions (Some current) (Some update)
    (default DefaultRoleInstanceSetRevisionHistoryLimit (rss_RevisionHistoryLimit (rs_spec set)))
    (Some (fun revisionName => bool_decide (GetShortHash revisionName ∈ live)))
    (Some DeleteControllerRevision).

(** [RequeueAfter] and the error. *)
Definition Result : Type := Z * option error.

(** The durations pushed under the key, popped. *)
Definition pop_duration (key : string) : M Z :=
  state (fun w => let '(d, s) := Requeue.Pop key (w_durations w) in (d, with_durations s w)).

(** Observing an object and asking whether it is as new as expected. *)
Definition version_satisfied (m : ObjectMeta) : M (bool * Z) :=
  modify (fun w => with_versions (ResourceVersion.Observe m (w_versions w)) w) ≫= fun _ =>
  t1 ← now; t2 ← now;
  state (fun w => let '(r, v) := ResourceVersion.IsSatisfied m t1 t2 (w_versions w) in (r, with_versions v w)).

(** The loop over the instances; [Some]: the pass ends with this result. *)
Fixpoint wait_versions (instances : list RoleInstance) : M (option Result) :=
  match instances with
  | [] => mret None
  | i :: l =>
      '(satisfied, unsatisfiedDuration) ← version_satisfied (ri_meta i);
      if (satisfied : bool) then wait_versions l
      else if unsatisfiedDuration >=? ExpectationTimeout then mret (Some (0, None))
      else mret (Some (ExpectationTimeout - unsatisfiedDuration, None))
  end.

(** The update revision is waited for in the same way, but given up after the
    timeout. *)
Definition wait_revision (updateRevision : ControllerRevision) : M (option Result) :=
  '(satisfied, unsatisfiedDuration) ← version_satisfied (cr_meta updateRevision);
  if (satisfied : bool) then mret None
  else if unsatisfiedDuration <? ExpectationTimeout then mret (Some (ExpectationTimeout - unsatisfiedDuration, None))
  else
    modify (fun w => with_versions (ResourceVersion.Delete (cr_meta updateRevision) (w_versions w)) w) ≫= fun _ => mret None.

(** The expectations of the key; [Some]: the pass ends with this result. *)
Definition wait_scale (key : string) : M (option Result) :=
  t1 ← now; t2 ← now;
  '(satisfied, unsatisfiedDuration, _) ← state (fun w =>
    let '(r, s) := Scale.SatisfiedExpectations key t1 t2 (w_scale w) in (r, with_scale s w));
  if (satisfied : bool) then mret None
  else if unsatisfiedDuration >=? ExpectationTimeout then mret (Some (0, None))
  else mret (Some (ExpectationTimeout - unsatisfiedDuration, None)).

(** [if ..., return res}]. *)
Definition or_stop (m : M (option Result)) (k : M Result) : M Result :=
  r ← m; match r with Some res => mret res | None => k end.

(** An error that is only logged. *)
Definition logged (m : M unit) : M unit := attempt m (fun _ => mret tt).

(** What follows the choice of the revisions: scale and update, the status, the
    housekeeping and the requeue. *)
Definition sync_and_report (fuel : nat) (key : string) (set : RoleInstanceSet)
    (currentRevision updateRevision : ControllerRevision) (collisionCount : Z) (revisions : list ControllerRevision)
    : M Result :=
  '(conditions, syncErr) ← syncInstanceSet fuel set currentRevision updateRevision revisions;
  instances ← gets w_instances;
  newStatus ← Status.UpdateInstanceSetStatus set
    (Status.with_st_conditions conditions
       (Status.initial set (cr_Name currentRevision) (cr_Name updateRevision) collisionCount)) instances;
  logged (truncateInstancesToDelete set instances) ≫= fun _ =>
  logged (truncateHistory set instances revisions currentRevision updateRevision) ≫= fun _ =>
  (if bool_decide (syncErr = None) && (rss_MinReadySeconds (rs_spec set) >? 0)
      && negb (st_AvailableReplicas newStatus =? st_ReadyReplicas newStatus)
   then push_duration set (second * rss_MinReadySeconds (rs_spec set)) else mret tt) ≫= fun _ =>
  d ← pop_duration key;
  mret (d, syncErr).

Definition reconcile_set (fuel : nat) (key : string) (set : RoleInstanceSet) : M Result :=
  or_stop (wait_scale key) (
    let selector := Selector set in
    filteredInstances ← getOwnedResource set selector;
    claimed ← RefManager.ClaimOwnedObjects set selector filteredInstances;
    listed ← ListControllerRevisions (rs_meta set) (Some selector);
    let revisions := SortControllerRevisions listed in
    '(currentRevision, updateRevision, collisionCount) ← getActiveRevisions fuel set revisions;
    or_stop (wait_revision updateRevision) (
    or_stop (wait_versions claimed) (
    modify (with_instances claimed) ≫= fun _ =>
    sync_and_report fuel key set currentRevision updateRevision collisionCount revisions))).

(** An error in the monad is a [return reconcile.Result{}, err]; the durations are
    popped on every return. *)
Definition doReconcile (fuel : nat) (namespace name : string) : M Result :=
  let key := namespace +:+ "/" +:+ name in
  attempt (attempt (GetSet namespace name) (fun r =>
    match r with
    | Ok set => reconcile_set fuel key set
    | Err e =>
        if IsNotFound e then
          modify (fun w => with_scale (Scale.DeleteExpectations key (w_scale w)) w) ≫= fun _ => mret (0, None)
        else fail e
    end)) (fun r =>
  pop_duration key ≫= fun _ =>
  match r with Ok res => mret res | Err e => mret (0, Some e) end).
End pass.
