(* ===== verification/StatelessPass.v ===== *)
(** Stateless mode, what a whole reconcile guarantees: availability through
    scaling and updating together, the waiting for expectations, the claims, the
    published status and the history it keeps. *)
From Stdlib Require Import ZArith Lia Bool Ascii String Permutation.
From stdpp Require Import base tactics list strings gmap sets fin_maps.
From S2P Require Import Prelude GoStrings IntOrString Types Expectations Effects Revisions StatefulUtils.
From S2P Require Import RevisionHistory StatelessUtils StatelessDiffs StatelessWorld InstanceControls.
From S2P Require Import StatelessScale SlowStart StatelessUpdate StatelessScaling StatelessUpdating.
From S2P Require Import StatelessReconcile.

Abbreviation only := (Effects.only w_trace).

(** * Scaling, then updating *)

Section sync.
Context `{Env, SortSlice, PodNames, PortAllocation, RevisionCodec}.

Lemma within_limit_in nows limit l i : i ∈ (within_limit nows limit l).1 -> i ∈ l.
Proof.
  revert nows limit. induction l as [|x l IH]; intros nows limit; cbn [within_limit]; [done|].
  specialize (IH (fun k => nows (S k))). destruct (negb _); [|destruct (limit >? 0)].
  - specialize (IH limit). destruct (within_limit _ limit l). cbn [fst] in *.
    intros [->|Hi]%elem_of_cons; [by left|right; by apply IH].
  - specialize (IH (limit - 1)). destruct (within_limit _ (limit - 1) l). cbn [fst] in *.
    intros [->|Hi]%elem_of_cons; [by left|right; by apply IH].
  - intros Hi. right. by eapply IH.
Qed.

(** Scaling leaves the instances in memory as they are. *)
Lemma silent_Scale I fuel cs us cr ur instances :
  Framed I -> silent I (outside (names instances)) (Scale fuel cs us cr ur instances).
Proof.
  intros HI. unfold Scale. destruct (rss_Replicas _); [|silence]. cbn [IsReadyToScale negb getPlannedDeletedInstances].
  assert (forall set m l, (forall i, i ∈ l -> i ∈ instances) ->
    silent I (outside (names instances)) (deleteInstances set m l)) as Hdel.
  { intros set m l Hl. apply silent_deleteInstances; [done|]. intros i Hi. by apply elem_of_names, Hl. }
  assert (forall f i, i ∈ List.filter f instances -> i ∈ instances) as Hfilter.
  { intros f i. rewrite elem_of_list_filter. tauto. }
  assert (forall d num limit, silent I (outside (names instances)) (scale_in us d num limit
    (List.filter (fun i => negb (at_hash ur i)) instances) (List.filter (at_hash ur) instances))) as Hin.
  { intros d num limit. unfold scale_in. destruct (_ <? 0); [|silence]. destruct (num >? 0); [silence|].
    apply silent_bind; [silence|]. intros t. apply silent_bind; [silence|]. intros nows. apply Hdel.
    intros i Hi%within_limit_in%chooseInstancesToDelete_in. destruct Hi as [Hi|Hi]; by eapply Hfilter. }
  apply or_return_silent; [by apply silent_managePreparingDelete|].
  apply silent_bind; [silence|]. intros nows. cbn [SplitInstancesByRevision]. destruct (_ && _).
  { apply silent_bind; [by apply silent_getOrGenAvailableIDs|]. intros ids. by apply silent_createInstances. }
  apply or_return_silent.
  { destruct (List.filter in_pre_delete instances) eqn:E; [silence|]. rewrite <-E. apply Hdel. intros i. apply Hfilter. }
  unfold delete_specified. set (specified := DiffInstanceGroups _ _).
  assert (forall i, i ∈ specified -> i ∈ instances) as Hsp by (intros i Hi%DiffInstanceGroups_in; by eapply Hfilter).
  clearbody specified. destruct specified as [|i0 l0]; [apply Hin|].
  destruct (SplitInstancesByRevision (i0 :: l0) ur) as [new old] eqn:Hsplit.
  apply silent_bind; [silence|]. intros nows'.
  pose proof (within_limit_in nows' (deleteReadyLimit (calculateDiffsWithExpectation nows us instances cr ur)) (new ++ old)) as Hw.
  destruct (within_limit _ _ _) as [chosen limit']. apply or_return_silent; [|apply Hin].
  apply Hdel. intros i Hi%Hw. apply Hsp, (Split_in _ ur). rewrite Hsplit. by apply elem_of_app.
Qed.

Definition reports (type : string) (cs : list RoleInstanceSetCondition) : Prop := exists c, c ∈ cs /\ sc_Type c = type.

(** Reporting a failure reads the clock and no more. *)
Lemma condition_of_inv {A} type err (f : list RoleInstanceSetCondition -> M A) w r w' :
  (condition_of type err ≫= f) w = (r, w') ->
  exists cs w1, w_trace w1 = w_trace w /\ w_instances w1 = w_instances w /\ (err = None \/ reports type cs) /\
    f cs w1 = (r, w').
Proof.
  unfold condition_of. destruct err as [e|]; [|by intros Hr; exists [], w; auto].
  unfold now, mbind, ST_bind. cbn. intros Hr. do 2 eexists. split; [|split; [|split; [|exact Hr]]]; [done..|].
  right. eexists. split; [by apply list_elem_of_singleton|done].
Qed.

Lemma available_ready now i m : 0 <= m -> IsInstanceAvailable now i m = true -> IsInstanceReady now i = true.
Proof.
  intros Hm. unfold IsInstanceReady, IsInstanceAvailable. destruct (negb _); [done|].
  unfold IsInstanceUpdateReady, IsRunningAndAvailable. destruct (negb (IsRunningAndReady i)); [done|].
  destruct (Z.gtb_spec (time_sub now (ready_since i)) (m * second)); [|done].
  destruct (Z.gtb_spec (time_sub now (ready_since i)) (0 * second)); [done|]. unfold second in *. lia.
Qed.

Lemma takes_only_mono X Y w w' : X ⊆ Y -> takes_only X w w' -> takes_only Y w w'.
Proof.
  intros HX (new & Ht & Hn). exists new. split; [done|]. intros c Hc. specialize (Hn c Hc). unfold outside in *.
  destruct (takes_out c) as [n|]; [|done]. rewrite negb_false_iff, bool_decide_eq_true in *. set_solver.
Qed.

(** Those counted as down are not available. *)
Lemma counted_down set l (avail : RoleInstance -> bool) :
  (forall i, i ∈ l -> preparing_delete i = true -> avail i = false) ->
  countb preparing_delete l + countb (fun i => negb (preparing_delete i) && (negb (isSpecifiedDelete set i) && negb (avail i))) l
  <= countb (fun i => negb (avail i)) l.
Proof.
  induction l as [|i l IH]; intros Hp; cbn [countb]; [done|]. specialize (IH ltac:(intros; apply Hp; [by right|done])).
  specialize (Hp i ltac:(by left)). destruct (preparing_delete i); cbn [negb andb].
  - rewrite Hp by done. cbn [negb]. lia.
  - destruct (isSpecifiedDelete set i), (avail i); cbn; lia.
Qed.

(** The instances both may take, under the conditions of the theorem below. *)
Lemma sync_victims fuel set updateSet cur upd revisions (ready avail : RoleInstance -> bool) w r w' :
  let l := w_instances w in
  let lm := limits_of updateSet in
  ApplyRevision set upd = Ok updateSet -> 0 <= rss_MinReadySeconds (rs_spec updateSet) ->
  sized updateSet l -> steady updateSet l ready avail ->
  syncInstanceSet fuel set cur upd revisions w = (r, w') ->
  match r with Ok (conditions, _) => ~ reports FailedScale conditions | Err _ => True end ->
  exists victims, (forall i, i ∈ victims -> i ∈ l) /\ takes_only (names victims) w w' /\
    countb avail victims <= Z.max 0 (lm_maxUnavailable lm + (Z.of_nat (length l) - lm_replicas lm)
      - (countb preparing_delete l
         + countb (fun i => negb (preparing_delete i) && (negb (isSpecifiedDelete updateSet i) && negb (avail i))) l)).
Proof.
  cbv zeta. set (l := w_instances w). set (bound := Z.max 0 _). intros Happ Hmin Hsz Hst Hr Hok.
  set (pre := List.filter preparing_delete l).
  assert (forall i, i ∈ pre -> i ∈ l) as Hpre by (intros i [Hi _]%elem_of_list_filter; done).
  assert (countb avail pre = 0) as Hpre0.
  { apply countb_zero. intros i [Hi Hp]%elem_of_list_filter. by destruct (preparing_not_ready _ _ _ _ Hst i Hi Hp). }
  assert (forall w1, takes_only ∅ w w1 -> exists victims, (forall i, i ∈ victims -> i ∈ l) /\
    takes_only (names victims) w w1 /\ countb avail victims <= bound) as Hnone.
  { intros w1 Hw1. exists []. split; [by intros i ?%elem_of_nil|]. split; [done|cbn; lia]. }
  revert Hr. unfold syncInstanceSet. case_bool_decide; [intros [= <- <-]; apply Hnone, takes_only_refl|].
  destruct (ApplyRevision set cur) as [currentSet|e]; [|intros [= <- <-]; apply Hnone, takes_only_refl].
  rewrite Happ. unfold gets, mbind at 1, ST_bind at 1. fold l. intros Hr.
  assert (forall r1 w1, Scale fuel currentSet updateSet (cr_Name cur) (cr_Name upd) l w = (r1, w1) ->
    w_instances w1 = l /\ exists victims, (forall i, i ∈ victims -> i ∈ l) /\ takes_only (names (pre ++ victims)) w w1 /\
      countb avail victims <= bound /\ (r1 = Ok (false, None) -> victims = [])) as Hscale.
  { intros r1 w1 Hr1. split.
    { by destruct (silent_inv w_trace _ _ _ w r1 w1 (silent_Scale (fun w => w_instances w = l) fuel currentSet updateSet
        (cr_Name cur) (cr_Name upd) l _) eq_refl Hr1). }
    destruct (Scale_victims _ _ _ _ _ _ _ _ _ ready avail Hsz Hst Hr1) as (victims & Hv & Ht & Hc & He).
    exists victims. split; [done|]. split; [by rewrite names_app|]. split; [|done]. etransitivity; [|exact Hc].
    apply countb_le_countb. intros i Hi. destruct (Hst O i (Hv i Hi)) as [<- <-]. by apply available_ready. }
  assert (forall r1 w1, Scale fuel currentSet updateSet (cr_Name cur) (cr_Name upd) l w = (r1, w1) ->
    exists victims, (forall i, i ∈ victims -> i ∈ l) /\ takes_only (names victims) w w1 /\ countb avail victims <= bound) as Hs1.
  { intros r1 w1 (_ & victims & Hv & Ht & Hc & _)%Hscale. exists (pre ++ victims)%list.
    split; [|split; [done|rewrite countb_app; lia]]. intros i [Hi|Hi]%elem_of_app; auto. }
  apply bind_inv in Hr as [(e & Hm & ->)|([scaling scaleErr] & w1 & Hm & Hr)]; [by eapply Hs1|].
  apply condition_of_inv in Hr as (conds & w2 & Ht2 & Hi2 & Hc2 & Hr).
  assert (forall X, takes_only X w w1 -> takes_only X w w2) as H12 by (unfold takes_only; by rewrite Ht2).
  destruct scaling.
  { injection Hr as <- <-. destruct (Hs1 _ _ Hm) as (victims & Hv & Ht & Hc). exists victims. auto. }
  unfold mbind at 1, ST_bind at 1, attempt in Hr.
  destruct (Update updateSet cur upd revisions w2) as [r3 w3] eqn:Hu. cbn in Hr.
  apply condition_of_inv in Hr as (conds' & w4 & Ht4 & _ & _ & Hr). injection Hr as <- <-.
  destruct Hc2 as [->|(c & Hc & Htype)].
  2:{ destruct Hok. exists c. split; [|done]. apply elem_of_app. by left. }
  destruct (Hscale _ _ Hm) as (Hi1 & victims & _ & Ht1 & _ & He).
  rewrite (He eq_refl), app_nil_r in Ht1.
  apply H12 in Ht1. rewrite Hi1 in Hi2.
  eapply (Update_takes _ _ _ _ _ _ _ avail) in Hu as (ks & Htk & Hck); [|by rewrite Hi2|].
  2:{ intros k i. rewrite Hi2. intros Hi. by apply Hst. }
  rewrite Hi2 in Htk, Hck. exists (pre ++ instances_at l ks)%list. split; [|split].
  - intros i [Hi|Hi]%elem_of_app; [by apply Hpre|]. apply list_elem_of_omap in Hi as (k & _ & Hk). by eapply list_elem_of_lookup_2.
  - rewrite names_app. eapply takes_only_trans; [exact Ht1|]. unfold takes_only. by rewrite Ht4.
  - rewrite countb_app, Hpre0, countb_instances_at. etransitivity; [exact Hck|]. unfold bound.
    assert (countb preparing_delete l + countb (fun i => negb (preparing_delete i) && (negb (isSpecifiedDelete updateSet i) && negb (avail i))) l
            <= countb (fun i => negb (avail i)) l); [|lia].
    apply counted_down. intros i Hi Hp. by destruct (preparing_not_ready _ _ _ _ Hst i Hi Hp).
Qed.


(** C4: Scaling and updating share one budget.  Take a pass over the instances in memory
    in which no scaling failure is reported and no clock reading changes which
    instances are ready and available ([steady]).  Whatever the API server answers,
    it takes out of service no more available instances than maxUnavailable and the
    surplus over the replicas leave next to those already leaving and those already
    unavailable, of which the ones that the set names for deletion are not counted
    (ScalePass.named_and_down_not_counted shows them coming on top): when scaling
    changes something there is no update, and when it changes nothing it has taken
    out no available instance. *)
Theorem sync_availability_floor fuel (set updateSet : RoleInstanceSet) (currentRevision updateRevision : ControllerRevision)
    (revisions : list ControllerRevision) (ready avail : RoleInstance -> bool) (w : world) :
  let instances := w_instances w in
  ApplyRevision set updateRevision = Ok updateSet -> 0 <= rss_MinReadySeconds (rs_spec updateSet) ->
  sized updateSet instances -> NoDup (map ri_Name instances) -> steady updateSet instances ready avail ->
  let p := syncInstanceSet fuel set currentRevision updateRevision revisions w in
  match p.1 with Ok (conditions, _) => ~ reports FailedScale conditions | Err _ => True end ->
  let lm := limits_of updateSet in
  let down i := negb (preparing_delete i) && (negb (isSpecifiedDelete updateSet i) && negb (avail i)) in
  exists new, w_trace p.2 = (new ++ w_trace w)%list /\
  countb (fun i => avail i && taken new i) instances
    <= Z.max 0 (lm_maxUnavailable lm + (Z.of_nat (length instances) - lm_replicas lm)
                - (countb preparing_delete instances + countb down instances)).
Proof.
  cbv zeta. intros Happ Hmin Hsz Hnd Hst Hok.
  destruct (sync_victims _ _ _ _ _ _ ready avail _ _ _ Happ Hmin Hsz Hst (surjective_pairing _) Hok)
    as (victims & Hv & (new & Ht & Hn) & Hc).
  exists new. split; [done|]. etransitivity; [by eapply taken_countb|exact Hc].
Qed.

(** * Waiting *)

(** The time a pass has waited: from the first pass that found the key unsatisfied
    to the reading it takes now. *)
Definition first_wait (key : string) (w : world) : Z :=
  default (env_now (w_clock w)) (Scale.first_unsatisfied (w_scale w) key).
Definition wait_now (w : world) : Z := env_now (S (w_clock w)).

Lemma wait_scale_pending key w :
  Scale.pending (w_scale w) key <> ∅ ->
  let waited := wait_now w - first_wait key w in
  exists w', wait_scale key w
    = (Ok (Some (if waited >=? ExpectationTimeout then 0 else ExpectationTimeout - waited, None)), w') /\
    w_trace w' = w_trace w /\ Scale.pending (w_scale w') key = Scale.pending (w_scale w) key /\
    Scale.first_unsatisfied (w_scale w') key = Some (first_wait key w).
Proof.
  intros Hp. cbv zeta. unfold wait_scale, now, state, mbind, ST_bind. cbn [w_scale with_clock w_clock].
  pose proof (Scale.satisfied_pending key (w_scale w) (env_now (w_clock w)) (env_now (S (w_clock w)))) as Hs.
  pose proof (Scale.step_refines (Scale.CSatisfied key (env_now (w_clock w)) (env_now (S (w_clock w)))) (w_scale w) key) as Hr.
  destruct (Scale.unsatisfied_since key (w_scale w) (env_now (w_clock w)) (env_now (S (w_clock w))) Hp) as [Hw Hf].
  rewrite bool_decide_eq_false_2 in Hs by done. cbn [Scale.step] in Hr.
  destruct (Scale.SatisfiedExpectations _ _ _ _) as [[[sat waited] dirty] s']. cbn [fst snd] in *. subst sat waited.
  unfold wait_now, first_wait.
  assert (Scale.pending s' key = Scale.pending (w_scale w) key) as Hs' by by rewrite Hr.
  destruct (_ >=? ExpectationTimeout); eexists; (split; [done|]); (split; [done|]); by split.
Qed.

(** C30: A pass waits for what it asked for.  While a creation or a deletion of the set
    has not been observed, a pass reads the set and makes no other request, goes
    on waiting for the same names and returns no error.  It remembers the first
    pass that waited, and asks to be called again exactly when the timeout since
    then is over; when it is over already it asks for no call. *)
Theorem reconcile_waits (fuel : nat) (namespace name : string) (set : RoleInstanceSet) (w : world) :
  let key := namespace +:+ "/" +:+ name in
  env_get_set (w_trace w) namespace name = Ok set -> Scale.pending (w_scale w) key <> ∅ ->
  let p := doReconcile fuel namespace name w in
  w_trace p.2 = CallGetSet namespace name :: w_trace w /\
  Scale.pending (w_scale p.2) key = Scale.pending (w_scale w) key /\
  Scale.first_unsatisfied (w_scale p.2) key = Some (first_wait key w) /\
  exists delay, p.1 = Ok (delay, None) /\
    (wait_now w < first_wait key w + ExpectationTimeout -> wait_now w + delay = first_wait key w + ExpectationTimeout) /\
    (first_wait key w + ExpectationTimeout <= wait_now w -> delay = 0).
Proof.
  cbv zeta. set (key := namespace +:+ "/" +:+ name). intros Hset Hp.
  set (w1 := with_trace (CallGetSet namespace name :: w_trace w) w).
  destruct (wait_scale_pending key w1 Hp) as (w2 & Hw & Ht & Hp2 & Hf).
  change (wait_now w1) with (wait_now w) in *. change (first_wait key w1) with (first_wait key w) in *.
  set (delay := if _ >=? _ then 0 else _) in Hw.
  assert (reconcile_set fuel key set w1 = (Ok (delay, None), w2)) as Hr.
  { unfold reconcile_set, or_stop, mbind, ST_bind. by rewrite Hw. }
  assert (GetSet namespace name w = (Ok set, w1)) as Hg by (rewrite <-Hset; reflexivity).
  unfold doReconcile, attempt at 1. unfold attempt. rewrite Hg. fold key. rewrite Hr.
  unfold pop_duration, state, mbind, ST_bind. destruct (Requeue.Pop key (w_durations w2)) as [d s]. cbn.
  split; [by rewrite Ht|]. split; [done|]. split; [done|]. exists delay. split; [done|].
  unfold delay. rewrite Z.geb_leb. destruct (Z.leb_spec ExpectationTimeout (wait_now w - first_wait key w)); lia.
Qed.

(** * Claiming *)

Lemma only_request {A} (ok : api_call -> Prop) c (answer : list api_call -> result A) w r w' :
  ok c -> request c answer w = (r, w') -> only ok w w' /\ r = answer (w_trace w).
Proof.
  intros Hc [= <- <-]. split; [|done]. exists [c]. split; [done|]. by intros c' ->%list_elem_of_singleton.
Qed.

Definition controlled_by (uid : string) (i : RoleInstance) : Prop :=
  exists ref, GetControllerOf (ri_meta i) = Some ref /\ or_UID ref = uid.

(** A write a claim may make: the owner references of an orphan that matches, or
    of an instance of the set that does not, of a set that is not being deleted. *)
Definition claim_write (owner : RoleInstanceSet) (selector : labels) (objs : list RoleInstance) (c : api_call) : Prop :=
  match c with
  | CallGetSet ns n => ns = rs_Namespace owner /\ n = rs_Name owner
  | CallUpdate i' => om_DeletionTimestamp (rs_meta owner) = None /\ exists i refs, i ∈ objs /\
      i' = RefManager.with_owner_refs refs i /\
      (GetControllerOf (ri_meta i) = None /\ selector_matches selector (ri_Labels i) = true \/
       controlled_by (rs_UID owner) i /\ selector_matches selector (ri_Labels i) = false)
  | _ => False
  end.

(** What is claimed: an instance of the set that matches, or an orphan that
    matches, adopted. *)
Definition claimed_from (owner : RoleInstanceSet) (selector : labels) (i i' : RoleInstance) : Prop :=
  selector_matches selector (ri_Labels i) = true /\
  (i' = i /\ controlled_by (rs_UID owner) i \/ GetControllerOf (ri_meta i) = None).

Definition claim_outcome (owner : RoleInstanceSet) (selector : labels) (i : RoleInstance)
    (r : result (result (option RoleInstance) * option (option error))) : Prop :=
  match r with
  | Ok (Ok (Some i'), _) => claimed_from owner selector i i'
  | Ok _ => True
  | Err _ => False
  end.

Lemma adopt_spec owner selector adoptErr objs i w r w' :
  i ∈ objs -> om_DeletionTimestamp (rs_meta owner) = None -> GetControllerOf (ri_meta i) = None ->
  selector_matches selector (ri_Labels i) = true ->
  RefManager.adopt owner adoptErr i w = (r, w') -> only (claim_write owner selector objs) w w' /\ is_Some (match r with Ok a => Some a | Err _ => None end).
Proof.
  intros Hi Hd Hc Hm. unfold RefManager.adopt.
  assert (forall r1 w1, RefManager.canAdoptOnce owner adoptErr w = (r1, w1) ->
    only (claim_write owner selector objs) w w1 /\ exists e, r1 = Ok e) as Hcan.
  { intros r1 w1. unfold RefManager.canAdoptOnce. destruct adoptErr as [e|].
    - intros [-> ->]%ret_inv. split; [apply only_refl|eauto].
    - unfold RefManager.canAdopt. intros (x & w2 & Hg & [-> ->]%ret_inv)%attempt_inv.
      apply (only_request (claim_write owner selector objs)) in Hg as [Hg _]; [eauto|done]. }
  intros [(e & He & ->)|(err & w1 & He & Hr)]%bind_inv; apply Hcan in He as [Ho [e' He]]; [done|].
  destruct err as [e|]; [apply ret_inv in Hr as [-> ->]; split; [done|by eexists]|].
  unfold RefManager.adopt_ref in Hr.
  destruct (_ && _); [apply ret_inv in Hr as [-> ->]; split; [done|by eexists]|].
  apply attempt_inv in Hr as (x & w2 & Hu & [-> ->]%ret_inv). split; [|by eexists].
  eapply only_trans; [exact Ho|]. apply (only_request (claim_write owner selector objs)) in Hu as [Hu _]; [exact Hu|].
  split; [done|]. eexists i, _. auto.
Qed.

Lemma claimObject_spec owner selector adoptErr objs i w r w' :
  i ∈ objs -> RefManager.claimObject owner selector adoptErr i w = (r, w') ->
  only (claim_write owner selector objs) w w' /\ claim_outcome owner selector i r.
Proof.
  intros Hi. unfold RefManager.claimObject.
  assert (forall x e, (mret (x, e) : M _) w = (r, w') -> claim_outcome owner selector i (Ok (x, e)) ->
    only (claim_write owner selector objs) w w' /\ claim_outcome owner selector i r) as Hret.
  { intros x e [-> ->]%ret_inv Hx. split; [apply only_refl|done]. }
  destruct (GetControllerOf (ri_meta i)) as [ref|] eqn:Eref.
  - case_bool_decide as Huid; cbn [negb]; [|intros Hr; by eapply Hret].
    assert (controlled_by (rs_UID owner) i) as Hctl by (by exists ref).
    destruct (selector_matches selector (ri_Labels i)) eqn:Em.
    { intros Hr. eapply Hret; [exact Hr|]. split; auto. }
    case_bool_decide as Hdel; [intros Hr; by eapply Hret|]. unfold RefManager.release.
    destruct (RefManager.remove_first _ _) as [owners|] eqn:Eo.
    + intros [(e & He & ->)|(err & w1 & He & Hr)]%bind_inv;
        apply attempt_inv in He as (x & w2 & Hu & [He ->]%ret_inv); [done|].
      apply (only_request (claim_write owner selector objs)) in Hu as [Hu _];
        [|split; [by destruct (om_DeletionTimestamp (rs_meta owner)); naive_solver|exists i, owners; auto]].
      apply ret_inv in Hr as [-> ->]. split; [exact Hu|]. destruct err as [e|]; [|done]. cbn. by destruct (IsNotFound e).
    + intros Hr. by eapply (Hret (Ok None) adoptErr).
  - destruct (_ || _) eqn:E; [intros Hr; by eapply Hret|]. breflect.
    case_bool_decide as Hdel; [intros Hr; by eapply Hret|].
    assert (om_DeletionTimestamp (rs_meta owner) = None) as Hno by (destruct (om_DeletionTimestamp (rs_meta owner)); naive_solver).
    destruct (selector_matches selector (ri_Labels i)) eqn:Em; [|done].
    pose proof (fun r w' => adopt_spec owner selector adoptErr objs i w r w' Hi Hno Eref Em) as Hadopt.
    intros [(e & He & ->)|([x ae] & w1 & He & Hr)]%bind_inv; apply Hadopt in He as [Ho Hx]; [by destruct Hx|].
    apply ret_inv in Hr as [-> ->]. split; [done|]. destruct x as [got|e]; cbn; [split; auto|by destruct (IsNotFound e)].
Qed.

(** Instances of others are left alone.  A claim reads the set and writes only
    owner references, only of orphans that match and of the set's own instances
    that do not, and nothing while the set is being deleted; what it claims are the
    set's own instances that match, as they are, and orphans that match. *)
Theorem claims_respect_owners (owner : RoleInstanceSet) (selector : labels) (objs : list RoleInstance) (w : world) :
  let p := RefManager.ClaimOwnedObjects owner selector objs w in
  only (claim_write owner selector objs) w p.2 /\
  match p.1 with
  | Ok claimed => Forall (fun i' => exists i, i ∈ objs /\ claimed_from owner selector i i') claimed
  | Err _ => True
  end.
Proof.
  assert (forall l ae w r w', (forall i, i ∈ l -> i ∈ objs) -> RefManager.claim_loop owner selector ae l w = (r, w') ->
    only (claim_write owner selector objs) w w' /\
    match r with Ok (claimed, _) => Forall (fun i' => exists i, i ∈ objs /\ claimed_from owner selector i i') claimed
    | Err _ => False end) as Hloop.
  { induction l as [|i l IH]; intros ae w1 r w' Hl; cbn [RefManager.claim_loop].
    { intros [-> ->]%ret_inv. split; [apply only_refl|constructor]. }
    intros [(e & He & ->)|([x ae'] & w2 & He & Hr)]%bind_inv;
      apply (claimObject_spec _ _ _ objs) in He as [Ho Hx]; try (apply Hl; by left); [done|].
    apply bind_inv in Hr as [(e & He & ->)|([claimed errs] & w3 & He & Hr)];
      apply IH in He as [Ho2 Hc]; try (intros j Hj; apply Hl; by right); [done|].
    apply ret_inv in Hr as [-> ->]. split; [by eapply only_trans|].
    destruct x as [[i'|]|e]; [constructor; [|done]|done..]. exists i. split; [apply Hl; by left|done]. }
  cbv zeta. destruct (RefManager.ClaimOwnedObjects owner selector objs w) as [r w'] eqn:E. cbn [fst snd].
  revert E. unfold RefManager.ClaimOwnedObjects.
  intros [(e & He & ->)|([claimed errs] & w1 & He & Hr)]%bind_inv; apply Hloop in He as [Ho Hc]; try done.
  destruct errs; [apply ret_inv in Hr as [-> ->]; done|]. by injection Hr as <- <-.
Qed.
End sync.

(** * The status *)

Lemma count_replicas_spec nows m rev l c (ready avail : RoleInstance -> bool) :
  (forall k i, i ∈ l -> IsInstanceUpdateReady (nows k) i 0 = ready i /\ IsInstanceAvailable (nows k) i m = avail i) ->
  Status.c_Replicas c + Z.of_nat (length l) <= int32_max -> 0 <= Status.c_Replicas c ->
  0 <= Status.c_ReadyReplicas c <= Status.c_Replicas c -> 0 <= Status.c_AvailableReplicas c <= Status.c_Replicas c ->
  0 <= Status.c_UpdatedReplicas c <= Status.c_Replicas c -> 0 <= Status.c_UpdatedReadyReplicas c <= Status.c_Replicas c ->
  Status.count_replicas nows m rev l c = {|
    Status.c_Replicas := Status.c_Replicas c + Z.of_nat (length l);
    Status.c_ReadyReplicas := Status.c_ReadyReplicas c + countb ready l;
    Status.c_AvailableReplicas := Status.c_AvailableReplicas c + countb avail l;
    Status.c_UpdatedReplicas := Status.c_UpdatedReplicas c + countb (at_hash rev) l;
    Status.c_UpdatedReadyReplicas := Status.c_UpdatedReadyReplicas c + countb (fun i => at_hash rev i && ready i) l |}.
Proof.
  revert nows c. induction l as [|i l IH]; intros nows c Hst Hlen Hn Hr Ha Hu Hur; cbn [Status.count_replicas countb length].
  { destruct c. cbn. f_equal; lia. }
  assert (forall k j, j ∈ l -> IsInstanceUpdateReady (nows (k + 3)%nat) j 0 = ready j
    /\ IsInstanceAvailable (nows (k + 3)%nat) j m = avail j) as Hst' by (intros k j Hj; apply Hst; by right).
  destruct (Hst 0%nat i ltac:(by left)) as [-> _]. destruct (Hst 1%nat i ltac:(by left)) as [_ ->].
  destruct (Hst 2%nat i ltac:(by left)) as [-> _]. rewrite Nat2Z.inj_succ.
  cbn [length] in Hlen. rewrite Nat2Z.inj_succ in Hlen.
  assert (forall b z, 0 <= z <= Status.c_Replicas c -> int32 (z + one b) = z + one b) as Hi32.
  { intros b z Hz. apply int32_id. unfold_int. unfold one. destruct b; lia. }
  change 1 with (one true) at 1. rewrite !Hi32 by lia.
  rewrite IH; cbn [Status.c_Replicas Status.c_ReadyReplicas Status.c_AvailableReplicas Status.c_UpdatedReplicas
    Status.c_UpdatedReadyReplicas]; unfold one; [|done|..];
    destruct (ready i), (avail i), (at_hash rev i); cbn; try f_equal; lia.
Qed.

(** The published status is the truth.  Over the instances in memory, whose
    readiness does not change while they are counted, the counts are their
    numbers: all, ready, available, at the update revision, and both; they are
    ordered as they must be; the current revision becomes the update revision
    exactly when every instance carries it; and the replicas expected to be updated
    are all of them, or those beyond the partition. *)
Theorem calculateStatus_counts (nows : nat -> Z) (set : RoleInstanceSet) (replicas : Z) (cur upd : string) (c : Z)
    (conditions : list RoleInstanceSetCondition) (instances : list RoleInstance) (ready avail : RoleInstance -> bool) :
  rss_Replicas (rs_spec set) = Some replicas -> sized set instances -> 0 <= rss_MinReadySeconds (rs_spec set) ->
  (forall k i, i ∈ instances -> IsInstanceUpdateReady (nows k) i 0 = ready i /\
     IsInstanceAvailable (nows k) i (rss_MinReadySeconds (rs_spec set)) = avail i) ->
  let st := Status.calculateStatus nows set replicas (Status.with_st_conditions conditions (Status.initial set cur upd c)) instances in
  let n := Z.of_nat (length instances) in
  st_Replicas st = n /\ st_ReadyReplicas st = countb ready instances /\
  st_AvailableReplicas st = countb avail instances /\ st_UpdatedReplicas st = countb (at_hash upd) instances /\
  st_UpdatedReadyReplicas st = countb (fun i => at_hash upd i && ready i) instances /\
  0 <= st_AvailableReplicas st <= st_ReadyReplicas st /\ st_ReadyReplicas st <= n /\
  0 <= st_UpdatedReadyReplicas st <= st_UpdatedReplicas st /\ st_UpdatedReplicas st <= n /\
  st_UpdateRevision st = upd /\
  (st_CurrentRevision st = upd <-> cur = upd \/ forall i, i ∈ instances -> at_hash upd i = true) /\
  st_ExpectedUpdatedReplicas st
    = (if bool_decide (upd = st_CurrentRevision st) then replicas
       else match CalculatePartitionReplicas (us_Partition (rs_update set)) (rss_Replicas (rs_spec set)) with
            | Ok partition => replicas - partition
            | Err _ => 0
            end) /\
  0 <= st_ExpectedUpdatedReplicas st <= replicas.
Proof.
  intros Hrep Hsz Hmin Hst. cbv zeta. unfold Status.calculateStatus.
  pose proof (partition_range set) as Hp. destruct Hsz as [Hr Hl]. specialize (Hp ltac:(lia)).
  assert (getInstanceSetReplicas set = replicas) as Hrr by (unfold getInstanceSetReplicas; by rewrite Hrep).
  rewrite (count_replicas_spec _ _ _ _ _ ready avail) by (cbn; done || lia). cbn -[limits_of].
  rewrite Hrr in *.
  assert (countb avail instances <= countb ready instances) as Har.
  { apply countb_le_countb. intros i Hi Ha. destruct (Hst O i Hi) as [<- Hav]. rewrite Ha in Hav.
    revert Hav. intros Hav%available_ready; [|done]. revert Hav. unfold IsInstanceReady, IsInstanceAvailable. by destruct (negb _). }
  assert (countb (fun i => at_hash upd i && ready i) instances <= countb (at_hash upd) instances) as Huu.
  { apply countb_le_countb. by intros i _ [? _]%andb_prop. }
  pose proof (countb_nonneg avail instances). pose proof (countb_nonneg (fun i => at_hash upd i && ready i) instances).
  pose proof (countb_le_length ready instances). pose proof (countb_le_length (at_hash upd) instances).
  assert (forall p, CalculatePartitionReplicas (us_Partition (rs_update set)) (rss_Replicas (rs_spec set)) = Ok p ->
    0 <= p <= replicas /\ int32 (replicas - int32 p) = replicas - p) as Hpart.
  { intros p Hpp. cbn [limits_of lm_partition] in Hp. rewrite Hpp in Hp. split; [done|].
    unfold_int. rewrite (int32_id p) by (unfold_int; lia). apply int32_id. unfold_int. lia. }
  split_and!; try done; try lia.
  - rewrite !Z.add_0_l. destruct (Z.eqb_spec (countb (at_hash upd) instances) (Z.of_nat (length instances))) as [Hf|Hf].
    + split; [intros _; right; by apply countb_full|done].
    + split; [by left|]. intros [Hc|Ha]; [done|]. by apply countb_full in Ha.
  - destruct (bool_decide _); [done|]. destruct (CalculatePartitionReplicas _ _) as [p|]; [|done]. by apply Hpart.
  - destruct (bool_decide _); [lia|]. destruct (CalculatePartitionReplicas _ _) as [p|]; [|done].
    destruct (Hpart p eq_refl) as [? ->]. lia.
  - destruct (bool_decide _); [lia|]. destruct (CalculatePartitionReplicas _ _) as [p|]; [|lia].
    destruct (Hpart p eq_refl) as [? ->]. lia.
Qed.

(** * The history *)

Section history.
Context `{Env}.

Lemma at_hash_short rev i :
  at_hash rev i = true -> GetShortHash rev = GetShortHash (label_of (ri_Labels i) ControllerRevisionHashLabelKey).
Proof.
  unfold at_hash, EqualToRevisionHash. case_bool_decide as Hh; [intros _|intros Hs; by breflect].
  unfold ri_Labels. by rewrite Hh.
Qed.

(** Nothing that is needed leaves the history.  Whatever the limit of the set, the
    only requests are deletions of listed revisions that are neither the current
    nor the update revision and that no instance carries. *)
Theorem truncateHistory_keeps (set : RoleInstanceSet) (instances : list RoleInstance)
    (revisions : list ControllerRevision) (cur upd : ControllerRevision) (w : world) :
  only (fun c => match c with
    | CallDeleteRevision r => r ∈ revisions /\ cr_Name r <> cr_Name cur /\ cr_Name r <> cr_Name upd /\
        forall i, i ∈ instances -> at_hash (cr_Name r) i = false
    | _ => False
    end) w (truncateHistory set instances revisions cur upd w).2.
Proof.
  destruct (truncateHistory set instances revisions cur upd w) as [r w'] eqn:E. cbn [snd]. revert E.
  unfold truncateHistory, TruncateControllerRevisions. destruct (_ <? 0); [intros [= _ <-]; apply only_refl|].
  set (l := List.filter _ revisions). destruct (_ <=? _); [intros [= _ <-]; apply only_refl|].
  apply only_for_each. intros x w1 r1 w2 Hx%elem_of_take_in Hr. apply elem_of_list_filter in Hx as [Hx Hlive].
  eapply only_request in Hr as [Ho _]; [exact Ho|]. unfold is_live in Hlive. breflect. split_and!; [done..|].
  intros i Hi. apply not_true_iff_false. intros Hh%at_hash_short.
  match goal with Hn : GetShortHash _ ∉ _ |- _ => apply Hn end.
  apply elem_of_list_to_set, list_elem_of_fmap. eauto.
Qed.
End history.

(** * A converged set and its server *)
Module Shop.
Import StatefulUtils.Fixture.

Definition owner : OwnerReference := {|
  or_APIVersion := "workloads.x-k8s.io/v1alpha2"; or_Kind := "RoleInstanceSet"; or_Name := "decode"; or_UID := "set-uid";
  or_Controller := Some true; or_BlockOwnerDeletion := Some true |}.

(** [m] as an object of the set. *)
Definition owned_meta (m : ObjectMeta) : ObjectMeta := {|
  om_Name := om_Name m; om_GenerateName := ""; om_Namespace := "default"; om_UID := om_UID m;
  om_ResourceVersion := om_ResourceVersion m; om_Generation := om_Generation m;
  om_CreationTimestamp := om_CreationTimestamp m; om_DeletionTimestamp := None;
  om_Labels := <[RoleInstanceOwnerLabelKey := "set-uid"]> (om_Labels m); om_Annotations := om_Annotations m;
  om_OwnerReferences := [owner]; om_Finalizers := [] |}.

(** A ready instance whose last in-place update is reported as complete. *)
Definition serving (ordinal : Z) : RoleInstance :=
  let i := instance ordinal "decode-new" true in
  {| ri_meta := owned_meta (ri_meta i); ri_spec := ri_spec i;
     ri_status := {|
       rist_ObservedGeneration := 1;
       rist_Conditions := InPlace.ready_condition ConditionTrue "" 0 :: rist_Conditions (ri_status i);
       rist_ComponentStatuses := rist_ComponentStatuses (ri_status i); rist_LabelSelector := "";
       rist_CurrentRevision := "new"; rist_UpdateRevision := "new"; rist_CollisionCount := None;
       rist_Baselines := ∅; rist_RestartCount := 0; rist_LastRestartTime := None |} |}.

Definition revision (name data : string) (n : Z) : ControllerRevision :=
  {| cr_meta := owned_meta (with_name name "default" empty_meta); cr_Revision := n; cr_Data := data |}.

Definition old_revision : ControllerRevision := revision "decode-old" "old" 1.
Definition new_revision : ControllerRevision := revision "decode-new" "new" 2.
Definition three : list RoleInstance := [serving 0; serving 1; serving 2].

Definition status : RoleInstanceSetStatus := {|
  st_ObservedGeneration := 1; st_Replicas := 3; st_ReadyReplicas := 3; st_AvailableReplicas := 3;
  st_CurrentReplicas := 0; st_UpdatedReplicas := 3; st_UpdatedReadyReplicas := 3; st_ExpectedUpdatedReplicas := 3;
  st_UpdateRevision := "decode-new"; st_CurrentRevision := "decode-new"; st_RolloutReplacementState := None;
  st_CollisionCount := Some 0; st_LabelSelector := RoleInstanceOwnerLabelKey +:+ "=set-uid"; st_Conditions := [] |}.

(** [replicas] instances, one of which may be unavailable. *)
Definition shop (replicas : Z) : RoleInstanceSet :=
  let s := set replicas None None (Some (FromInt32 1)) in
  {| rs_meta := {| om_Name := "decode"; om_GenerateName := ""; om_Namespace := "default"; om_UID := "set-uid";
       om_ResourceVersion := "9"; om_Generation := 1; om_CreationTimestamp := Some 0; om_DeletionTimestamp := None;
       om_Labels := ∅; om_Annotations := ∅; om_OwnerReferences := []; om_Finalizers := [] |};
     rs_spec := rs_spec s; rs_status := status |}.

(** The data of a revision is not looked at: the spec is the same in both. *)
#[export] Instance codec : RevisionCodec := {|
  getPatch := fun _ => Ok "new"%string;
  apply_patch := fun set _ => Ok set |}.

(** A server that keeps the set for three, its instances and its revisions. *)
#[export] Program Instance env : Env := {|
  env_now := fun _ => 1000 * second;
  env_timestamp := fun _ => "1970-01-01T00:16:40Z"%string;
  env_random := fun k => "id" +:+ GoStrings.Itoa (Z.of_nat k);
  env_get := fun _ _ n =>
    match List.find (fun i => bool_decide (ri_Name i = n)) three with Some i => Ok i | None => Err NotFoundError end;
  env_create := fun _ _ => Ok tt;
  env_delete := fun _ _ => Ok tt;
  env_patch := fun _ i p => Ok (ri_with_meta (with_labels (mp_Labels p ∪ om_Labels (ri_meta i)) (ri_meta i)) i);
  env_update := fun _ i => Ok i;
  env_update_status := fun _ _ => Ok tt;
  env_list_instances := fun _ _ _ => Ok three;
  env_get_set := fun _ _ _ => Ok (shop 3);
  env_update_set := fun _ _ => Ok tt;
  env_update_set_status := fun _ _ => Ok tt;
  env_list_revisions := fun _ _ _ => Ok [new_revision; old_revision];
  env_get_revision := fun _ _ _ => Err NotFoundError;
  env_create_revision := fun _ r => Ok r;
  env_update_revision := fun _ r => Ok r;
  env_delete_revision := fun _ _ => Ok tt;
  env_schedule := fun _ l => rev l;
  env_unsorted := elements;
  env_template := fun _ => Err "invalid"%string;
  env_update_state := fun rev _ => rev;
  env_messages := fun _ => [];
  env_dump := fun _ => ""%string |}.
Next Obligation.
  intros t ns n i Hi. cbn beta in Hi. destruct (List.find _ three) as [j|] eqn:Hf; [|done].
  injection Hi as <-. apply List.find_some in Hf as [_ Hf]. by apply bool_decide_eq_true in Hf.
Qed.
Next Obligation. intros. symmetry. apply Permutation_rev. Qed.
Next Obligation. done. Qed.

#[export] Instance pod_names : PodNames := fun _ => true.
#[export] Instance no_ports : PortAllocation := StatefulUtils.Fixture.no_ports.

Definition start (instances : list RoleInstance) (scale : gmap string Scale.controller) : world := {|
  w_trace := []; w_clock := 0; w_rand := 0; w_durations := ∅; w_scale := scale; w_versions := ∅;
  w_instances := instances; w_cache := [] |}.

Definition waiting : gmap string Scale.controller := Scale.ExpectScale "default/decode" Scale.Create "decode-7" ∅.
Definition ready : RoleInstance -> bool := IsInstanceReady (1000 * second).

(** A pass over the converged set reads it, its instances and its revisions. *)
Example reads_only : let p := doReconcile 5 "default" "decode" (start [] ∅) in
  p.1 = Ok (0, None) /\
  w_trace p.2 = [CallListRevisions "default" (Some (Selector (shop 3))); CallListInstances "default" (Selector (shop 3));
                 CallGetSet "default" "decode"].
Proof. by vm_compute. Qed.

(** A failure is not written while the counts stay as they are. *)
Example failure_not_published e :
  let newStatus := Status.with_st_conditions [failed FailedScale 0 e] (Status.initial (shop 3) "decode-new" "decode-new" 0) in
  let p := Status.UpdateInstanceSetStatus (shop 3) newStatus three (start three ∅) in
  fmap (M := result) st_Conditions p.1 = Ok [failed FailedScale 0 e] /\ w_trace p.2 = [].
Proof. by vm_compute. Qed.
End Shop.

Import Shop.

Lemma sync_availability_floor_witness :
  let w := Shop.start three ∅ in
  let p := syncInstanceSet 5 (shop 2) new_revision new_revision [old_revision; new_revision] w in
  exists new, w_trace p.2 = (new ++ w_trace w)%list /\
  countb (fun i => Shop.ready i && taken new i) three
    <= Z.max 0 (lm_maxUnavailable (limits_of (shop 2)) + (3 - lm_replicas (limits_of (shop 2)))
                - (countb preparing_delete three
                   + countb (fun i => negb (preparing_delete i)
                       && (negb (isSpecifiedDelete (shop 2) i) && negb (Shop.ready i))) three)).
Proof.
  apply (sync_availability_floor 5 (shop 2) (shop 2) new_revision new_revision [old_revision; new_revision]
           Shop.ready Shop.ready (Shop.start three ∅)).
  - reflexivity.
  - vm_compute. discriminate.
  - unfold sized. vm_compute. repeat split; discriminate.
  - apply (bool_decide_eq_true_1 (NoDup (map ri_Name three))). by vm_compute.
  - intros k i _. split; reflexivity.
  - match goal with |- match ?x with _ => _ end => assert (x = Ok ([], None)) as -> by by vm_compute end.
    intros (c & Hc%elem_of_nil & _). exact Hc.
Defined.

Lemma reconcile_waits_witness :
  let p := doReconcile 5 "default" "decode" (Shop.start [] waiting) in
  w_trace p.2 = [CallGetSet "default" "decode"] /\
  Scale.pending (w_scale p.2) "default/decode" = Scale.pending waiting "default/decode" /\
  exists delay, p.1 = Ok (delay, None) /\ 0 <= delay <= ExpectationTimeout.
Proof.
  destruct (reconcile_waits 5 "default" "decode" (shop 3) (Shop.start [] waiting)) as (Ht & Hp & _ & delay & Hd & Hd' & _).
  - reflexivity.
  - intros Hp. assert (bool_decide (Scale.pending waiting "default/decode" = ∅) = false) as Hb by by vm_compute.
    apply bool_decide_eq_false in Hb. apply Hb, Hp.
  - split; [exact Ht|]. split; [exact Hp|]. exists delay. split; [exact Hd|].
    assert (wait_now (Shop.start [] waiting) = first_wait "default/decode" (Shop.start [] waiting)) as Hn by by vm_compute.
    change ("default" +:+ "/" +:+ "decode")%string with "default/decode"%string in Hd'.
    rewrite Hn in Hd'. assert (0 < ExpectationTimeout) by by vm_compute. lia.
Defined.

Lemma calculateStatus_counts_witness :
  let st := Status.calculateStatus env_now (shop 3) 3
    (Status.with_st_conditions [] (Status.initial (shop 3) "decode-new" "decode-new" 0)) three in
  st_ReadyReplicas st = countb (fun i => IsInstanceUpdateReady (1000 * second) i 0) three /\ 0 <= st_AvailableReplicas st <= st_ReadyReplicas st /\
  st_ReadyReplicas st = 3.
Proof.
  destruct (calculateStatus_counts env_now (shop 3) 3 "decode-new" "decode-new" 0 [] three
    (fun i => IsInstanceUpdateReady (1000 * second) i 0) (fun i => IsInstanceAvailable (1000 * second) i 0))
    as (_ & H1 & _ & _ & _ & H2 & _).
  - reflexivity.
  - unfold sized. vm_compute. repeat split; discriminate.
  - vm_compute. discriminate.
  - intros k i _. split; reflexivity.
  - split; [exact H1|]. split; [exact H2|]. by vm_compute.
Defined.
