(* ===== verification/StatelessSteady.v ===== *)
(** Stateless mode, the fixed point: a set that has converged is left alone. *)
From Stdlib Require Import ZArith Lia Bool Ascii String.
From stdpp Require Import base tactics list strings gmap sets fin_maps.
From S2P Require Import Prelude GoStrings IntOrString Types Expectations Effects Revisions StatefulUtils.
From S2P Require Import RevisionHistory StatelessUtils StatelessDiffs StatelessWorld InstanceControls.
From S2P Require Import StatelessScale SlowStart StatelessUpdate StatelessScaling StatelessUpdating.
From S2P Require Import StatelessReconcile StatelessPass.

Definition is_write (c : api_call) : bool :=
  match c with
  | CallGet _ _ | CallGetSet _ _ | CallGetRevision _ _ | CallListInstances _ _ | CallListRevisions _ _ => false
  | _ => true
  end.

Section steady.
Context `{Env, SortSlice, PodNames, PortAllocation, RevisionCodec}.

(** An instance nothing has to be done about: owned and selected, in service, not
    named for deletion, in no state that waits for the controller; and the server,
    when it answers, shows that its in-place update is reported as complete. *)
Record at_rest (set updateSet : RoleInstanceSet) (i : RoleInstance) : Prop := {
  ar_owned : controlled_by (rs_UID set) i;
  ar_alive : om_DeletionTimestamp (ri_meta i) = None;
  ar_selected : selector_matches (Selector set) (ri_Labels i) = true;
  ar_staying : preparing_delete i = false /\ isSpecifiedDelete updateSet i = false;
  ar_state : refreshed_state updateSet i = ""%string;
  ar_reported : forall t now clone, env_get t (om_Namespace (ri_meta i)) (ri_Name i) = Ok clone ->
    InPlace.hasEqualCondition clone (InPlace.ready_condition ConditionTrue "" now) = true
}.

(** The set has converged: its template is the newest revision; its instances are
    at rest, as many as its replicas and divided between the revisions as the
    partition asks; its status is the one any reading of the clock gives; and its
    history is within the limit. *)
Record converged (set updateSet : RoleInstanceSet) (revisions : list ControllerRevision) (newest : ControllerRevision)
    (instances : list RoleInstance) (replicas : Z) : Prop := {
  cv_newest : last (SortControllerRevisions revisions) = Some newest;
  cv_patch : getPatch set = Ok (cr_Data newest);
  cv_listed : Forall (fun r => owned_by (rs_meta set) r = true) revisions;
  cv_update : ApplyRevision set newest = Ok updateSet;
  cv_sized : sized updateSet instances;
  cv_replicas : rss_Replicas (rs_spec set) = Some replicas;
  cv_instances : forall i, i ∈ instances -> at_rest set updateSet i;
  cv_complete :
    let current := current_of set (SortControllerRevisions revisions) newest in
    let old := countb (fun i => negb (at_hash (cr_Name newest) i)) instances in
    Z.of_nat (length instances) = lm_replicas (limits_of updateSet) /\
    (if bool_decide (cr_Name newest = cr_Name current) then old <= lm_partition (limits_of updateSet)
     else old = lm_partition (limits_of updateSet));
  cv_status : forall k conditions,
    let current := current_of set (SortControllerRevisions revisions) newest in
    Status.inconsistentStatus (rs_status set)
      (Status.calculateStatus (fun j => env_now (k + j)) set replicas
         (Status.with_st_conditions conditions
            (Status.initial set (cr_Name current) (cr_Name newest) (default 0 (st_CollisionCount (rs_status set)))))
         instances) = false;
  cv_named : ss_RoleInstanceToDelete (rss_ScaleStrategy (rs_spec set)) = [];
  cv_history :
    let current := current_of set (SortControllerRevisions revisions) newest in
    let live := live_hashes instances in
    Z.of_nat (length (List.filter (fun r => negb (is_live (Some current) (Some newest)
        (Some (fun name => bool_decide (GetShortHash name ∈ live))) r)) (SortControllerRevisions revisions)))
      <= default DefaultRoleInstanceSetRevisionHistoryLimit (rss_RevisionHistoryLimit (rs_spec set))
}.

(** ** Scaling and updating *)

Section sync.
Context (set updateSet : RoleInstanceSet) (instances : list RoleInstance) (cur upd : string).
Hypothesis Hrest : forall i, i ∈ instances -> at_rest set updateSet i.
Hypothesis Hsized : sized updateSet instances.
Hypothesis Hdone : Z.of_nat (length instances) = lm_replicas (limits_of updateSet) /\
  (let old := countb (fun i => negb (at_hash upd i)) instances in
   if bool_decide (upd = cur) then old <= lm_partition (limits_of updateSet)
   else old = lm_partition (limits_of updateSet)).

Abbreviation I := (fun w => w_instances w = instances).

Lemma idle nows :
  let d := calculateDiffsWithExpectation nows updateSet instances cur upd in scaleNum d = 0 /\ updateNum d = 0.
Proof.
  apply nothing_to_do_iff; [done| |exact Hdone]. intros i Hi. by apply ar_staying with set, Hrest.
Qed.

Lemma filter_nothing {A} (f : A -> bool) l : (forall x, x ∈ l -> f x = false) -> List.filter f l = [].
Proof.
  induction l as [|x l IH]; intros Hf; [done|]. cbn. rewrite (Hf x) by (by left). apply IH. intros y Hy. apply Hf. by right.
Qed.

Lemma quiet_Scale fuel cs : silent I is_write (Scale fuel cs updateSet cur upd instances).
Proof.
  unfold Scale. destruct (rss_Replicas _); [|silence]. cbn [IsReadyToScale negb getPlannedDeletedInstances].
  assert (List.filter (isSpecifiedDelete updateSet) instances = []) as Hsp.
  { apply filter_nothing. intros i Hi. by apply ar_staying with set, Hrest. }
  assert (List.filter in_pre_delete instances = []) as Hpre.
  { apply filter_nothing. intros i Hi. by apply (ar_staying set updateSet), Hrest. }
  rewrite Hsp, Hpre. apply or_return_silent.
  { unfold managePreparingDelete. destruct (IsLifecycleMarkRoleInstanceNotReady _); cbn [prepare_loop]; silence. }
  apply silent_bind; [silence|]. intros nows. destruct (idle nows) as [Hn _]. rewrite Hn.
  cbn [SplitInstancesByRevision]. change (0 >? 0) with false. cbn [andb]. cbv iota. apply or_return_silent; [silence|].
  cbn [DiffInstanceGroups List.filter delete_specified]. unfold scale_in. rewrite Hn. change (0 <? 0) with false.
  cbv iota. silence.
Qed.

Lemma quiet_Refresh i : i ∈ instances -> silent I is_write (InPlace.Refresh i).
Proof.
  intros Hi. unfold InPlace.Refresh. destruct (negb (CheckRoleInstanceUpdateCompleted i)); [silence|].
  destruct (negb _); [silence|]. apply silent_bind; [silence|]. intros t. apply silent_bind; [|intros _; silence].
  unfold InPlace.updateCondition. apply silent_RetryOnConflict. unfold Get.
  eapply run_bind with (Q1 := fun r n => n = 0 /\ forall clone, r = Ok clone ->
    InPlace.hasEqualCondition clone (InPlace.ready_condition ConditionTrue "" t) = true).
  - intros w r w' Hw [= <- <-]. split; [done|]. eexists [_]. split; [done|]. split; [done|]. intros clone Hc.
    by eapply ar_reported in Hc; [|by apply Hrest].
  - intros clone n _ [-> Hc]. unfold InPlace.put_condition. rewrite Hc by done. by apply run_ret.
  - by intros e n _ [-> _].
Qed.

Lemma quiet_Update cr ur revs : cr_Name cr = cur -> cr_Name ur = upd ->
  silent I is_write (Update updateSet cr ur revs).
Proof.
  intros Hcr Hur. unfold Update. rewrite Hcr, Hur. eapply run_bind_gets. intros w ->.
  assert (forall l m, (forall i, i ∈ l -> i ∈ instances) -> silent I is_write (refresh_all updateSet m l)) as Hrefresh.
  { induction l as [|i l IH]; intros m Hl; cbn [refresh_all]; [silence|]. apply silent_bind.
    - unfold refreshInstanceState. apply silent_bind; [apply quiet_Refresh, Hl; by left|]. intros d.
      rewrite (ar_state set updateSet i) by (apply Hrest, Hl; by left). rewrite bool_decide_eq_true_2 by done. silence.
    - intros [p d]. apply silent_bind; [destruct (d >? 0); [unfold push_duration|]; silence|]. intros _. apply IH.
      intros j Hj. apply Hl. by right. }
  apply silent_bind; [by apply Hrefresh|]. intros []; [silence|]. destruct (us_Paused _); [silence|].
  apply silent_bind; [silence|]. intros nows. destruct (idle nows) as [_ ->]. change (0 =? 0) with true. cbv iota. silence.
Qed.
End sync.

(** ** The rest of the pass *)

Lemma quiet_for_writes {A} (m : M A) I : silent I is_write m -> forall w r w', I w -> m w = (r, w') ->
  exists new, w_trace w' = (new ++ w_trace w)%list /\ forall c, c ∈ new -> is_write c = false.
Proof. intros Hm w r w' Hw Hr. by destruct (silent_inv w_trace I is_write m w r w' Hm Hw Hr). Qed.

Lemma quiet_state {A} I (f : world -> A * world) :
  Framed I -> (forall w, w_instances (f w).2 = w_instances w) -> (forall w, w_trace (f w).2 = w_trace w) ->
  silent I is_write (state f).
Proof.
  intros HI Hi Ht w r w' Hw. unfold state. specialize (Hi w). specialize (Ht w).
  destruct (f w) as [a w1] eqn:E. cbn [snd] in *. intros [= <- <-].
  split; [by eapply HI; [symmetry; exact Hi|]|]. exists []. by rewrite Ht.
Qed.

Lemma quiet_wait_scale I key : Framed I -> silent I is_write (wait_scale key).
Proof.
  intros HI. unfold wait_scale. apply silent_bind; [silence|]. intros t1. apply silent_bind; [silence|]. intros t2.
  apply silent_bind.
  - apply quiet_state; [done|..]; intros w; by destruct (Scale.SatisfiedExpectations _ _ _ _).
  - intros [[sat d] dirty]. destruct sat; [silence|]. destruct (d >=? ExpectationTimeout); silence.
Qed.

Lemma quiet_version_satisfied I m : Framed I -> silent I is_write (version_satisfied m).
Proof.
  intros HI. unfold version_satisfied. apply silent_bind; [silence|]. intros _.
  apply silent_bind; [silence|]. intros t1. apply silent_bind; [silence|]. intros t2.
  apply quiet_state; [done|..]; intros w; by destruct (ResourceVersion.IsSatisfied _ _ _ _).
Qed.

Lemma quiet_wait_versions I l : Framed I -> silent I is_write (wait_versions l).
Proof.
  intros HI. induction l as [|i l IH]; cbn [wait_versions]; [silence|].
  apply silent_bind; [by apply quiet_version_satisfied|]. intros [sat d]. destruct sat; [done|].
  destruct (d >=? ExpectationTimeout); silence.
Qed.

Lemma quiet_wait_revision I r : Framed I -> silent I is_write (wait_revision r).
Proof.
  intros HI. unfold wait_revision. apply silent_bind; [by apply quiet_version_satisfied|]. intros [sat d].
  destruct sat; [silence|]. destruct (d <? ExpectationTimeout); silence.
Qed.

Lemma quiet_pop I key : Framed I -> silent I is_write (pop_duration key).
Proof.
  intros HI. apply quiet_state; [done|..]; intros w; by destruct (Requeue.Pop _ _).
Qed.

Lemma quiet_condition_of I type err : Framed I -> silent I is_write (condition_of type err).
Proof. intros HI. unfold condition_of. destruct err; silence. Qed.

Lemma quiet_or_stop I (m : M (option Result)) k : silent I is_write m -> silent I is_write k -> silent I is_write (or_stop m k).
Proof. intros Hm Hk. unfold or_stop. apply silent_bind; [done|]. intros [res|]; [silence|done]. Qed.

(** A computation of reads that can only answer [a]. *)
Definition answers {A} (a : A) (m : M A) : Prop :=
  run (fun _ => True) is_write m (fun r n => n = 0 /\ forall x, r = Ok x -> x = a).

Lemma answers_read {A} (a : A) (q : api_call) (f : list api_call -> result A) :
  is_write q = false -> (forall t x, f t = Ok x -> x = a) -> answers a (request q f).
Proof.
  intros Hq Hf w r w' _ [= <- <-]. split; [done|]. exists [q]. split; [done|]. split; [cbn; by rewrite Hq|]. apply Hf.
Qed.

Lemma answers_bind {A B} (a : A) (m : M A) (f : A -> M B) (Q : result B -> Z -> Prop) :
  answers a m -> run (fun _ => True) is_write (f a) Q -> (forall e, Q (Err e) 0) ->
  run (fun _ => True) is_write (m ≫= f) Q.
Proof.
  intros Hm Hf He. eapply run_bind; [exact Hm|..].
  - intros x n _ [-> Hx]. by rewrite (Hx x eq_refl).
  - intros e n _ [-> _]. apply He.
Qed.

Lemma claim_loop_all set updateSet ae l w :
  (forall i, i ∈ l -> at_rest set updateSet i) -> RefManager.claim_loop set (Selector set) ae l w = (Ok (l, []), w).
Proof.
  revert w. induction l as [|i l IH]; intros w Hl; cbn [RefManager.claim_loop]; [done|].
  destruct (ar_owned set updateSet i) as (ref & Href & Huid); [apply Hl; by left|].
  assert (RefManager.claimObject set (Selector set) ae i w = (Ok (Ok (Some i), ae), w)) as Hi.
  { unfold RefManager.claimObject. rewrite Href, (ar_selected set updateSet i) by (apply Hl; by left).
    by rewrite bool_decide_eq_true_2. }
  unfold mbind, ST_bind. rewrite Hi, IH; [done|]. intros j Hj. apply Hl. by right.
Qed.

Lemma filter_all {A} (f : A -> bool) l : (forall x, x ∈ l -> f x = true) -> List.filter f l = l.
Proof.
  induction l as [|x l IH]; intros Hf; [done|]. cbn. rewrite (Hf x) by (by left). f_equal. apply IH. intros y Hy. apply Hf. by right.
Qed.

Lemma active_all set updateSet l : (forall i, i ∈ l -> at_rest set updateSet i) -> GetActiveInstance set l = l.
Proof.
  intros Hl. apply filter_all. intros i Hi. destruct (Hl i Hi) as [(ref & -> & Huid) -> _ _ _ _].
  by rewrite !bool_decide_eq_true_2.
Qed.

Section whole.
Context (set updateSet : RoleInstanceSet) (revisions : list ControllerRevision) (newest : ControllerRevision)
  (instances : list RoleInstance) (replicas : Z) (Hcv : converged set updateSet revisions newest instances replicas).
Let sorted := SortControllerRevisions revisions.
Let current := current_of set sorted newest.

Abbreviation I := (fun w => w_instances w = instances).

Lemma quiet_syncInstanceSet fuel : silent I is_write (syncInstanceSet fuel set current newest sorted).
Proof.
  unfold syncInstanceSet. case_bool_decide; [silence|].
  destruct (ApplyRevision set current) as [cs|]; [|silence]. rewrite (cv_update _ _ _ _ _ _ Hcv).
  eapply run_bind_gets. intros w ->.
  pose proof (cv_instances _ _ _ _ _ _ Hcv) as Hi. pose proof (cv_sized _ _ _ _ _ _ Hcv) as Hs.
  pose proof (cv_complete _ _ _ _ _ _ Hcv) as Hc. cbv zeta in Hc. fold sorted current in Hc.
  apply silent_bind; [by eapply quiet_Scale|]. intros [scaling scaleErr].
  apply silent_bind; [apply quiet_condition_of, _|]. intros conds. destruct scaling; [silence|].
  apply silent_bind; [|intros err; apply silent_bind; [apply quiet_condition_of, _|intros conds'; silence]].
  apply silent_attempt; [by eapply quiet_Update|]. intros r. silence.
Qed.

Lemma quiet_status conditions :
  silent I is_write (Status.UpdateInstanceSetStatus set (Status.with_st_conditions conditions
    (Status.initial set (cr_Name current) (cr_Name newest) (default 0 (st_CollisionCount (rs_status set))))) instances).
Proof.
  unfold Status.UpdateInstanceSetStatus. rewrite (cv_replicas _ _ _ _ _ _ Hcv).
  intros w r w' Hw Hr%readings_inv.
  pose proof (cv_status _ _ _ _ _ _ Hcv (w_clock w) conditions) as Hst. cbv zeta in Hst. fold sorted current in Hst.
  rewrite Hst in Hr. apply ret_inv in Hr as [-> ->]. split; [done|]. by exists [].
Qed.

Lemma quiet_sync_and_report fuel key :
  silent I is_write (sync_and_report fuel key set current newest (default 0 (st_CollisionCount (rs_status set))) sorted).
Proof.
  unfold sync_and_report. apply silent_bind; [apply quiet_syncInstanceSet|]. intros [conditions syncErr].
  eapply run_bind_gets. intros w ->. apply silent_bind; [apply quiet_status|]. intros newStatus.
  assert (forall m, silent I is_write m -> silent I is_write (logged m)) as Hlogged.
  { intros m Hm. unfold logged. apply silent_attempt; [done|]. intros r. silence. }
  apply silent_bind.
  { apply Hlogged. unfold truncateInstancesToDelete. rewrite (cv_named _ _ _ _ _ _ Hcv). cbn. silence. }
  intros _. apply silent_bind.
  { apply Hlogged. unfold truncateHistory, TruncateControllerRevisions. destruct (_ <? 0); [silence|].
    pose proof (cv_history _ _ _ _ _ _ Hcv) as Hh. cbv zeta in Hh. fold sorted current in Hh.
    apply Z.leb_le in Hh. rewrite Hh. silence. }
  intros _. apply silent_bind; [destruct (_ && _); [unfold push_duration|]; silence|].
  intros _. apply silent_bind; [apply quiet_pop, _|]. intros d. silence.
Qed.

(** What a listing may answer: the instances of the set, and the revisions. *)
Hypothesis Hlist : forall t items, env_list_instances t (rs_Namespace set) (Selector set) = Ok items -> items = instances.
Hypothesis Hrevs : forall t rs, env_list_revisions t (rs_Namespace set) (Some (Selector set)) = Ok rs -> rs = revisions.

Lemma quiet_reconcile_set fuel key : silent (fun _ => True) is_write (reconcile_set fuel key set).
Proof.
  unfold reconcile_set. apply quiet_or_stop; [apply quiet_wait_scale, _|].
  assert (GetActiveInstance set instances = instances) as Hactive by apply (active_all set updateSet), Hcv.
  eapply (answers_bind instances); [|clear Hlist|by intros e].
  { unfold getOwnedResource. eapply answers_bind; [apply answers_read; [done|apply Hlist]| |by intros e].
    apply run_ret. split; [done|]. intros x [= <-]. apply Hactive. }
  eapply (answers_bind instances); [| |by intros e].
  { intros w r w' _. unfold RefManager.ClaimOwnedObjects, mbind, ST_bind.
    rewrite (claim_loop_all set updateSet) by apply Hcv. intros [= <- <-]. split; [done|]. exists []. split; [done|].
    split; [done|]. by intros l [= <-]. }
  eapply (answers_bind revisions); [|clear Hrevs|by intros e].
  { unfold ListControllerRevisions. eapply answers_bind; [apply answers_read; [done|apply Hrevs]| |by intros e].
    apply run_ret. split; [done|]. intros x [= <-]. apply filter_all, Forall_forall, Hcv. }
  intros w r w' _. unfold mbind at 1, ST_bind.
  rewrite (getActiveRevisions_newest _ _ _ newest) by apply Hcv. cbv beta iota. revert w r w'. fold sorted current.
  intros w r w' Hr.
  assert (silent (fun _ => True) is_write (or_stop (wait_revision newest) (or_stop (wait_versions instances) (
    modify (with_instances instances) ≫= fun _ =>
    sync_and_report fuel key set current newest (default 0 (st_CollisionCount (rs_status set))) sorted)))) as Hq.
  { apply quiet_or_stop; [apply quiet_wait_revision, _|]. apply quiet_or_stop; [apply quiet_wait_versions, _|].
    intros w1 r1 w1' _ Hr1%modify_inv.
    eapply (quiet_sync_and_report fuel key) in Hr1; [|done]. by destruct Hr1 as (_ & Hr1). }
  by eapply Hq in Hr.
Qed.
End whole.

(** C15: A set that has converged is left alone: whatever the clock says, and whether or
    not the listings and the expectations answer, a pass makes no call that
    writes. *)
Theorem converged_left_alone set updateSet revisions newest instances replicas :
  converged set updateSet revisions newest instances replicas ->
  (forall t s, env_get_set t (rs_Namespace set) (rs_Name set) = Ok s -> s = set) ->
  (forall t l, env_list_instances t (rs_Namespace set) (Selector set) = Ok l -> l = instances) ->
  (forall t l, env_list_revisions t (rs_Namespace set) (Some (Selector set)) = Ok l -> l = revisions) ->
  forall fuel w r w', doReconcile fuel (rs_Namespace set) (rs_Name set) w = (r, w') ->
  exists new, w_trace w' = (new ++ w_trace w)%list /\ forall c, c ∈ new -> is_write c = false.
Proof.
  intros Hcv Hset Hlist Hrevs fuel. set (key := (rs_Namespace set +:+ "/" +:+ rs_Name set)%string).
  enough (silent (fun _ => True) is_write (doReconcile fuel (rs_Namespace set) (rs_Name set))) as Hq.
  { intros w r w'. by apply quiet_for_writes with (I := fun _ => True). }
  unfold doReconcile. fold key. apply silent_attempt; [|intros r; apply silent_bind; [apply quiet_pop, _|silence]].
  eapply run_attempt; [apply (answers_read set); [done|apply Hset]|].
  intros [s|e] n _ [-> Hs].
  - rewrite (Hs s eq_refl). by eapply quiet_reconcile_set.
  - destruct (IsNotFound e); [|by apply run_fail]. apply silent_bind; [|silence]. by apply silent_modify.
Qed.
End steady.

(** * A converged set *)
Import Shop.

Lemma shop_converged : converged (shop 3) (shop 3) [new_revision; old_revision] new_revision three 3.
Proof.
  split.
  - by vm_compute.
  - reflexivity.
  - by repeat constructor.
  - reflexivity.
  - unfold sized. vm_compute. repeat split; discriminate.
  - reflexivity.
  - assert (forall n, at_rest (shop 3) (shop 3) (serving n)) as Hr.
    { intros n. split.
      - exists owner. split; reflexivity.
      - reflexivity.
      - by vm_compute.
      - split; [by vm_compute|]. unfold isSpecifiedDelete. by vm_compute.
      - by vm_compute.
      - intros t now clone Hc. cbn [env_get Shop.env] in Hc.
        destruct (List.find _ three) as [j|] eqn:Hf; [|exact (False_ind _ ltac:(discriminate Hc))].
        injection Hc as <-. apply List.find_some in Hf as [Hf _].
        destruct Hf as [<-|[<-|[<-|[]]]]; by vm_compute. }
    intros i Hi. apply list_elem_of_In in Hi. destruct Hi as [<-|[<-|[<-|[]]]]; apply Hr.
  - vm_compute. repeat split; discriminate.
  - intros k conditions. by vm_compute.
  - reflexivity.
  - vm_compute. discriminate.
Qed.

Lemma converged_left_alone_witness :
  let p := doReconcile 5 "default" "decode" (Shop.start [] ∅) in
  exists new, w_trace p.2 = (new ++ [])%list /\ forall c, c ∈ new -> is_write c = false.
Proof.
  apply (converged_left_alone (shop 3) (shop 3) [new_revision; old_revision] new_revision three 3 shop_converged)
    with (fuel := 5%nat) (w := Shop.start [] ∅) (r := (doReconcile 5 "default" "decode" (Shop.start [] ∅)).1).
  - intros t s Hs. injection Hs as <-. reflexivity.
  - intros t l Hl. injection Hl as <-. reflexivity.
  - intros t l Hl. injection Hl as <-. reflexivity.
  - apply surjective_pairing.
Defined.
