(* ===== verification/InstancePods.v ===== *)
(** The pods of a RoleInstance: the pod object, the accessors of
    pkg/reconciler/roleinstance/utils/instance_utils.go and of pkg/inplace/pod,
    the naming of pods, and the topology of the components
    (pkg/reconciler/roleinstance/core/instance_core.go).

    Of a pod's status the phase, the conditions and the container statuses are
    visible. *)
From Stdlib Require Import ZArith Lia Bool Ascii String.
From stdpp Require Import base tactics list strings gmap sets fin_maps.
From S2P Require Import Prelude GoStrings Types Revisions.

(** * Pods (k8s.io/api/core/v1) *)

Definition RoleInstanceNameLabelKey : string := RBGPrefix +:+ "role-instance-name".
Definition RoleTypeLabelKey : string := RBGPrefix +:+ "role-type".
Definition ComponentNameLabelKey : string := RBGPrefix +:+ "component-name".
Definition ComponentIDLabelKey : string := RBGPrefix +:+ "component-id".
Definition ComponentIndexLabelKey : string := RBGPrefix +:+ "component-index".
Definition ComponentsTemplateType : string := "Components".
Definition LeaderWorkerSetTemplateType : string := "LeaderWorkerSet".

Definition PodRunning : string := "Running".
Definition PodSucceeded : string := "Succeeded".
Definition PodFailed : string := "Failed".
Definition PodReady : string := "Ready".
Definition PodScheduled : string := "PodScheduled".
Definition ContainersReady : string := "ContainersReady".
(** constants/external.go *)
Definition InstancePodReadyConditionType : string := "InstancePodReady".
Definition InPlaceUpdateReady : string := "InPlaceUpdateReady".

Record PodCondition := {
  pc_Type : string;
  pc_Status : string;
  pc_LastTransitionTime : gotime;
  pc_Reason : string;
  pc_Message : string
}.

Record ContainerStatus := {
  cst_Name : string;
  cst_RestartCount : Z;
  cst_Image : string;
  cst_ImageID : string;
  cst_ContainerID : string
}.

Record PodStatus := {
  pds_Phase : string;
  pds_Conditions : list PodCondition;
  pds_ContainerStatuses : list ContainerStatus
}.

Record Pod := {
  pod_meta : ObjectMeta;
  pod_spec : PodSpec;
  pod_status : PodStatus
}.

Definition pod_Name (p : Pod) : string := om_Name (pod_meta p).
Definition pod_UID (p : Pod) : string := om_UID (pod_meta p).
Definition pod_Labels (p : Pod) : labels := om_Labels (pod_meta p).
Definition pod_Phase (p : Pod) : string := pds_Phase (pod_status p).

Definition pod_with_meta (m : ObjectMeta) (p : Pod) : Pod :=
  {| pod_meta := m; pod_spec := pod_spec p; pod_status := pod_status p |}.
Definition pod_with_spec (s : PodSpec) (p : Pod) : Pod :=
  {| pod_meta := pod_meta p; pod_spec := s; pod_status := pod_status p |}.
Definition pod_with_conditions (cs : list PodCondition) (p : Pod) : Pod :=
  {| pod_meta := pod_meta p; pod_spec := pod_spec p;
     pod_status := {| pds_Phase := pds_Phase (pod_status p); pds_Conditions := cs;
                      pds_ContainerStatuses := pds_ContainerStatuses (pod_status p) |} |}.

(** [p.DeletionTimestamp == nil] *)
Definition not_deleting (m : ObjectMeta) : bool := bool_decide (om_DeletionTimestamp m = None).

(** k8s.io/kubernetes/pkg/controller *)
Definition IsPodActive (p : Pod) : bool :=
  negb (bool_decide (pod_Phase p = PodSucceeded)) && negb (bool_decide (pod_Phase p = PodFailed))
  && not_deleting (pod_meta p).

(** [metav1.IsControlledBy]. *)
Definition IsControlledBy (m owner : ObjectMeta) : bool :=
  match GetControllerOf m with
  | None => false
  | Some ref => bool_decide (or_UID ref = om_UID owner)
  end.

(** pkg/inplace/pod/util.go, and the same in k8s.io/kubernetes/pkg/api/v1/pod. *)
Definition GetPodCondition (p : Pod) (cType : string) : option PodCondition :=
  List.find (fun c => bool_decide (pc_Type c = cType)) (pds_Conditions (pod_status p)).

Definition GetInPlaceCondition (p : Pod) : option PodCondition := GetPodCondition p InPlaceUpdateReady.

Definition pod_condition_true (c : option PodCondition) : bool :=
  match c with Some c => bool_decide (pc_Status c = ConditionTrue) | None => false end.

Definition IsPodAvailable (p : Pod) (minReadySeconds now : Z) : bool :=
  match GetPodCondition p PodReady with
  | None => false
  | Some c =>
      bool_decide (pc_Status c = ConditionTrue)
      && ((minReadySeconds =? 0)
          || match pc_LastTransitionTime c with
             | None => false
             | Some t => t + minReadySeconds * second <=? now
             end)
  end.

Definition add_gate (gate : string) (p : Pod) : Pod :=
  let s := pod_spec p in
  if existsb (fun g => bool_decide (g = gate)) (ps_ReadinessGates s) then p
  else pod_with_spec (spec_with_gates (ps_ReadinessGates s ++ [gate])%list s) p.

Definition InjectInPlaceReadinessGate (p : Pod) : Pod := add_gate InPlaceUpdateReady p.
Definition InjectInstancePodReadinessGate (p : Pod) : Pod := add_gate InstancePodReadyConditionType p.

(** * instance_utils.go *)

Definition GetShortHash (hash : string) : string := LastField hash "-".

Definition EqualToRevisionHash (obj : ObjectMeta) (hash : string) : bool :=
  let objHash := label_of (om_Labels obj) ControllerRevisionHashLabelKey in
  if bool_decide (objHash = hash) then true
  else bool_decide (GetShortHash hash = GetShortHash objHash).

Definition WriteRevisionHash (obj : ObjectMeta) (hash : string) : ObjectMeta :=
  with_labels (<[ControllerRevisionHashLabelKey := GetShortHash hash]> (om_Labels obj)) obj.

(** api/workloads/v1alpha2/helper.go *)
Definition GetRoleTemplateType (i : RoleInstance) : string :=
  default ComponentsTemplateType (ri_Labels i !! RoleTypeLabelKey).

(** [%d] of an int32 *)
Definition FormatComponentPodName (instanceName componentName : string) (id : Z) (roleTemplateType : string) : string :=
  if bool_decide (roleTemplateType = LeaderWorkerSetTemplateType) then
    let podIndex := if bool_decide (componentName = "worker"%string) then int32 (id + 1) else id in
    instanceName +:+ "-" +:+ Itoa podIndex
  else if bool_decide (roleTemplateType = ComponentsTemplateType) then
    instanceName +:+ "-" +:+ componentName +:+ "-" +:+ Itoa id
  else instanceName.

Definition GetSelectorMatchLabels (instanceName : string) : labels :=
  {[RoleInstanceNameLabelKey := instanceName]}.

Definition InitComponentPodLabels (instanceName componentName : string) (id : Z) (roleTemplateType : string) : labels :=
  let l := <[ComponentIDLabelKey := Itoa id]>
             (<[ComponentNameLabelKey := componentName]> (GetSelectorMatchLabels instanceName)) in
  if bool_decide (roleTemplateType = LeaderWorkerSetTemplateType) then
    let l := <[ComponentIndexLabelKey := Itoa id]> l in
    if bool_decide (componentName = "worker"%string) then <[ComponentIndexLabelKey := Itoa (int32 (id + 1))]> l else l
  else l.

Definition IsRunningAndAvailable (p : Pod) (minReadySeconds now : Z) : bool :=
  bool_decide (pod_Phase p = PodRunning) && IsPodAvailable p minReadySeconds now.

(** The active and the inactive pods of a listing. *)
Definition GetActiveAndInactivePods (items : list Pod) : list Pod * list Pod :=
  (List.filter IsPodActive items, List.filter (fun p => negb (IsPodActive p)) items).

(** The field before the last. *)
Definition GetPodComponentName (p : Pod) : string :=
  let componentName := label_of (pod_Labels p) ComponentNameLabelKey in
  if bool_decide (componentName <> ""%string) then componentName
  else
    let list := Split (pod_Name p) "-" in
    if (length list <? 2)%nat then ""%string else nth (length list - 2) list ""%string.

Definition parse_id (s : string) : Z :=
  match ParseInt s 32 with Ok id => id | Err _ => -1 end.

(** The last of the fields of a name: there is one. *)
Definition GetPodComponentID (p : Pod) : Z :=
  let componentId := label_of (pod_Labels p) ComponentIDLabelKey in
  if bool_decide (componentId <> ""%string) then parse_id componentId
  else
    let list := Split (pod_Name p) "-" in
    parse_id (nth (length list - 1) list ""%string).

Definition GroupPodsByComponentName (pods : list Pod) : gmap string (list Pod) :=
  fold_left (fun group p =>
    let roleType := GetPodComponentName p in
    <[roleType := (default [] (group !! roleType) ++ [p])%list]> group) pods ∅.

Definition IsPodScheduled (p : Pod) : bool :=
  existsb (fun c => bool_decide (pc_Type c = PodScheduled) && bool_decide (pc_Status c = ConditionTrue))
    (pds_Conditions (pod_status p)).

Definition ContainsReadinessGate (i : RoleInstance) (gate : string) : bool :=
  existsb (fun g => bool_decide (g = gate)) (ris_ReadinessGates (ri_spec i)).

Definition PodContainsReadinessGate (p : Pod) (gate : string) : bool :=
  existsb (fun g => bool_decide (g = gate)) (ps_ReadinessGates (pod_spec p)).

Definition runtimePodConditions : list string := [ContainersReady; InPlaceUpdateReady].

Definition IsPodRuntimeReady (p : Pod) (minReadySeconds : Z) : bool :=
  if negb (not_deleting (pod_meta p)) then false
  else if negb (bool_decide (pod_Phase p = PodRunning)) then false
  else forallb (fun t => pod_condition_true (GetPodCondition p t)) runtimePodConditions.

(** * instance_core.go *)

Definition ControllerAPIVersion : string := "workloads.x-k8s.io/v1alpha2".
Definition ControllerKind : string := "RoleInstance".

Definition IsPodUpdateReady (p : Pod) (minReadySeconds now : Z) : bool :=
  if negb (IsRunningAndAvailable p minReadySeconds now) then false
  else match GetInPlaceCondition p with
       | Some c => bool_decide (pc_Status c = ConditionTrue)
       | None => true
       end.

Record ComponentPodGroup := {
  cpg_component : RoleInstanceComponent;
  cpg_DesiredReplicas : Z;
  cpg_ExistIDs : gset Z;
  cpg_ToDeleteIDs : gset Z;
  cpg_ToScaleIDs : gset Z;
  cpg_ToDeletePod : list Pod;
  cpg_Pods : list Pod
}.

Definition cpg_Name (g : ComponentPodGroup) : string := ric_Name (cpg_component g).

(** The size is there: the caller checked it. *)
Definition newComponentPodGroup (component : RoleInstanceComponent) (desiredReplicas : Z) (pods : list Pod)
    : ComponentPodGroup :=
  let valid := List.filter (fun p => negb (GetPodComponentID p =? -1)) pods in
  let existIDs : gset Z := list_to_set (map GetPodComponentID valid) in
  let toDeleteIDs := filter (fun id => desiredReplicas <= id) existIDs in
  let toDeletePods := List.filter (fun p =>
    (GetPodComponentID p =? -1) || bool_decide (GetPodComponentID p ∈ toDeleteIDs)) pods in
  let toScaleIDs : gset Z := list_to_set (List.filter (fun i => negb (bool_decide (i ∈ existIDs)))
    (seqZ 0 desiredReplicas)) in
  {| cpg_component := component; cpg_DesiredReplicas := desiredReplicas; cpg_ExistIDs := existIDs;
     cpg_ToDeleteIDs := toDeleteIDs; cpg_ToScaleIDs := toScaleIDs; cpg_ToDeletePod := toDeletePods;
     cpg_Pods := pods |}.

Fixpoint topologies (componentGroup : gmap string (list Pod)) (components : list RoleInstanceComponent)
    : result (list ComponentPodGroup) :=
  match components with
  | [] => Ok []
  | c :: components' =>
      match ric_Size c with
      | None => Err ("component " +:+ ric_Name c +:+ "'size is empty")
      | Some size =>
          let g := newComponentPodGroup c size (default [] (componentGroup !! ric_Name c)) in
          match topologies componentGroup components' with
          | Err e => Err e
          | Ok gs => Ok (g :: gs)
          end
      end
  end.

(** The topologies; the set of names is only counted. *)
Definition GetComponentsTopology (i : RoleInstance) (pods : list Pod) : result (list ComponentPodGroup) :=
  let components := ris_Components (ri_spec i) in
  match topologies (GroupPodsByComponentName pods) components with
  | Err e => Err e
  | Ok gs =>
      let names : gset string := list_to_set (map cpg_Name gs) in
      if negb (size names =? length gs)%nat then Err "the name of component must be unique" else Ok gs
  end.

Section template.
Context `{PodNames}.

(** k8s.io/kubernetes/pkg/controller *)
Definition getPodsPrefix (controllerName : string) : string :=
  let prefix := controllerName +:+ "-" in
  if negb (ValidPodNamePrefix prefix) then controllerName else prefix.

Definition GetPodFromTemplate (template : PodTemplateSpec) (parent : ObjectMeta) (ref : OwnerReference) : Pod := {|
  pod_meta := {| om_Name := ""; om_GenerateName := getPodsPrefix (om_Name parent); om_Namespace := ""; om_UID := "";
    om_ResourceVersion := ""; om_Generation := 0; om_CreationTimestamp := None; om_DeletionTimestamp := None;
    om_Labels := tmpl_Labels template; om_Annotations := tmpl_Annotations template;
    om_OwnerReferences := [ref]; om_Finalizers := tmpl_Finalizers template |};
  pod_spec := tmpl_spec template;
  pod_status := {| pds_Phase := ""; pds_Conditions := []; pds_ContainerStatuses := [] |} |}.

Definition setComponentPodIdentity (component : RoleInstanceComponent) (p : Pod) : Pod :=
  if bool_decide (ric_ServiceName component = ""%string) then p
  else pod_with_spec (spec_with_identity (pod_Name p) (ric_ServiceName component) (pod_spec p)) p.

(** The body of the loop over the ids. *)
Definition new_pod (i : RoleInstance) (updateVersion componentName : string) (component : RoleInstanceComponent)
    (id : Z) : Pod :=
  let p := GetPodFromTemplate (ric_Template component) (ri_meta i)
             (NewControllerRef ControllerAPIVersion ControllerKind (ri_meta i)) in
  let m := with_name (FormatComponentPodName (ri_Name i) componentName id (GetRoleTemplateType i))
             (om_Namespace (ri_meta i)) (pod_meta p) in
  let m := WriteRevisionHash m updateVersion in
  let m := with_labels (InitComponentPodLabels (ri_Name i) componentName id (GetRoleTemplateType i) ∪ om_Labels m) m in
  InjectInstancePodReadinessGate (InjectInPlaceReadinessGate (setComponentPodIdentity component (pod_with_meta m p))).

(** Without such a component the template is a nil dereference. *)
Definition NewUpdatePods (i : RoleInstance) (updateVersion componentName : string) (availableIDs : list Z)
    : result (list Pod) :=
  match List.find (fun c => bool_decide (ric_Name c = componentName)) (ris_Components (ri_spec i)) with
  | Some component => Ok (map (new_pod i updateVersion componentName component) availableIDs)
  | None => match availableIDs with [] => Ok [] | _ => Err "nil pointer dereference" end
  end.
End template.
