(* ===== verification/ComponentOrder.v ===== *)
(** The ordering of the components of an instance
    (pkg/component-discovery/component_lifecycle.go): the dependency graphs read
    from the annotations, the deletion gates, and the cycle detection that lets
    the controller fall back to no ordering.

    A graph maps a component to the components it waits for.  [DetectCycle] runs
    on fuel: one more than the number of nodes still white is enough
    ([dfs_spec]), and it starts with one more than the number of nodes. *)
From Stdlib Require Import ZArith Lia Bool String.
From stdpp Require Import base tactics list strings gmap sets fin_maps relations.
From S2P Require Import Prelude Types.

Abbreviation graph := (gmap string (list string)).

Definition ComponentDependsOnAnnotationKey : string :=
  "rolebasedgroup.workloads.x-k8s.io/component-depends-on".

Record ComponentDependsOnConfig := {
  StartAfter : list string;
  DeleteAfter : list string
}.

(** encoding/json on the value of the annotation. *)
Class DependsOnCodec := UnmarshalDependsOn : string -> result ComponentDependsOnConfig.

(** * The annotations *)

Definition componentAnnotation (comp : RoleInstanceComponent) (key : string) : string :=
  match ric_Annotations comp !! key with
  | Some v => v
  | None => label_of (tmpl_Annotations (ric_Template comp)) key
  end.

Section parse.
Context `{DependsOnCodec}.

Fixpoint parse_components (components : list RoleInstanceComponent) (startDeps deleteDeps : graph)
    : result (graph * graph) :=
  match components with
  | [] => Ok (startDeps, deleteDeps)
  | comp :: components' =>
      let startDeps := <[ric_Name comp := []]> startDeps in
      let deleteDeps := <[ric_Name comp := []]> deleteDeps in
      let raw := componentAnnotation comp ComponentDependsOnAnnotationKey in
      if bool_decide (raw = ""%string) then parse_components components' startDeps deleteDeps
      else
        match UnmarshalDependsOn raw with
        | Err e => Err ("component " +:+ ric_Name comp +:+ ": invalid annotation JSON: " +:+ e)
        | Ok cfg => parse_components components' (<[ric_Name comp := StartAfter cfg]> startDeps)
                      (<[ric_Name comp := DeleteAfter cfg]> deleteDeps)
        end
  end.

Definition ParseAllComponentDependencies (components : list RoleInstanceComponent) : result (graph * graph) :=
  parse_components components ∅ ∅.

Definition ParseComponentDependencies (components : list RoleInstanceComponent) : result graph :=
  match ParseAllComponentDependencies components with Ok (startDeps, _) => Ok startDeps | Err e => Err e end.

Definition HasAnyDependency (components : list RoleInstanceComponent) : bool :=
  existsb (fun comp =>
    let raw := componentAnnotation comp ComponentDependsOnAnnotationKey in
    if bool_decide (raw = ""%string) then false
    else match UnmarshalDependsOn raw with
         | Err _ => false
         | Ok cfg => negb (bool_decide (StartAfter cfg = [])) || negb (bool_decide (DeleteAfter cfg = []))
         end) components.
End parse.

(** * Cycle detection *)

Inductive colour := white | gray | black.

#[export] Instance colour_eq_dec : EqDecision colour.
Proof. solve_decision. Defined.

Abbreviation colours := (gmap string colour).

Definition colour_of (color : colours) (node : string) : colour := default white (color !! node).

Section dfs.
Context (deps : graph).

(** The loop over the dependencies of one node, [dfs] being the closure. *)
Fixpoint dfs_deps (dfs : colours -> string -> option (bool * colours)) (color : colours) (nodes : list string)
    : option (bool * colours) :=
  match nodes with
  | [] => Some (false, color)
  | dep :: nodes' =>
      match colour_of color dep with
      | gray => Some (true, color)
      | white =>
          match dfs color dep with
          | Some (false, color') => dfs_deps dfs color' nodes'
          | r => r
          end
      | black => dfs_deps dfs color nodes'
      end
  end.

(** [None] is running out of fuel. *)
Fixpoint dfs (fuel : nat) (color : colours) (node : string) : option (bool * colours) :=
  match fuel with
  | O => None
  | S fuel' =>
      match dfs_deps (dfs fuel') (<[node := gray]> color) (default [] (deps !! node)) with
      | Some (false, color') => Some (false, <[node := black]> color')
      | r => r
      end
  end.

(** The loop over the nodes of the map. *)
Fixpoint dfs_all (fuel : nat) (color : colours) (nodes : list string) : option bool :=
  match nodes with
  | [] => Some false
  | node :: nodes' =>
      match colour_of color node with
      | white =>
          match dfs fuel color node with
          | None => None
          | Some (true, _) => Some true
          | Some (false, color') => dfs_all fuel color' nodes'
          end
      | _ => dfs_all fuel color nodes'
      end
  end.

(** Every node a walk can reach: the keys and the dependencies. *)
Definition graph_nodes : gset string := dom deps ∪ list_to_set (mjoin (map snd (map_to_list deps))).
End dfs.

Section graphs.
Context `{MapRange}.

Definition DetectCycle (deps : graph) : option bool :=
  dfs_all deps (S (size (graph_nodes deps))) ∅ (map fst (map_range deps)).

(** * Deletion gates *)

Definition append_to (k x : string) (g : graph) : graph := <[k := (default [] (g !! k) ++ [x])%list]> g.

Definition BuildReverseDependencies (deps : graph) : graph :=
  let rev := fold_left (fun rev node => match rev !! node with Some _ => rev | None => <[node := []]> rev end)
    (map fst (map_range deps)) ∅ in
  fold_left (fun rev '(node, nodeDeps) => fold_left (fun rev dep => append_to dep node rev) nodeDeps rev)
    (map_range deps) rev.

(** One explicit entry, unless it is there; [existing] is kept with the list. *)
Definition merge_gate (node : string) (acc : graph * gset string) (d : string) : graph * gset string :=
  let '(gates, existing) := acc in
  if bool_decide (d ∈ existing) then acc else (append_to node d gates, {[d]} ∪ existing).

Definition BuildDeletionGates (startDeps deleteDeps : graph) : graph :=
  fold_left (fun gates '(node, deps) =>
    match deps with
    | [] => gates
    | _ => (fold_left (merge_gate node) deps (gates, list_to_set (default [] (gates !! node)))).1
    end) (map_range deleteDeps) (BuildReverseDependencies startDeps).
End graphs.

(** * Correctness of the cycle detection *)

Section cycles.
Context (deps : graph).

Definition edge (x y : string) : Prop := y ∈ default [] (deps !! x).
Definition cyclic : Prop := exists x, tc edge x x.

(** The finished nodes are closed under edges, and none is on a cycle. *)
Definition colour_inv (c : colours) : Prop := forall b, colour_of c b = black ->
  ~ tc edge b b /\ forall y, edge b y -> colour_of c y = black.

Definition coloured (c c' : colours) : Prop := forall x,
  (colour_of c' x = gray <-> colour_of c x = gray) /\ (colour_of c x = black -> colour_of c' x = black).

Definition whites (c : colours) : gset string := filter (fun x => colour_of c x = white) (graph_nodes deps).

(** What a call of [dfs] promises. *)
Definition dfs_post (c : colours) (ds : list string) (r : bool * colours) : Prop :=
  if r.1 then cyclic
  else colour_inv r.2 /\ coloured c r.2 /\ forall d, d ∈ ds -> colour_of r.2 d = black.

Definition dfs_pre (c : colours) (node : string) : Prop :=
  colour_inv c /\ colour_of c node = white /\ node ∈ graph_nodes deps /\
  forall g, colour_of c g = gray -> tc edge g node.

Lemma colour_of_insert c k v x : colour_of (<[k := v]> c) x = if decide (k = x) then v else colour_of c x.
Proof. unfold colour_of. rewrite lookup_insert. by destruct (decide (k = x)). Qed.

Lemma coloured_trans c c1 c2 : coloured c c1 -> coloured c1 c2 -> coloured c c2.
Proof. intros H1 H2 x. destruct (H1 x) as [H1g H1b], (H2 x) as [H2g H2b]. rewrite H2g, H1g. auto. Qed.

Lemma whites_coloured c c' : coloured c c' -> (size (whites c') <= size (whites c))%nat.
Proof.
  intros Hc. apply subseteq_size. intros x. unfold whites. rewrite !elem_of_filter. intros [Hw ?]. split; [|done].
  destruct (Hc x) as [Hg Hb]. destruct (colour_of c x); [done| |]; [rewrite (proj2 Hg) in Hw|rewrite Hb in Hw]; done.
Qed.

Lemma whites_gray c node :
  colour_of c node = white -> node ∈ graph_nodes deps ->
  (size (whites (<[node := gray]> c)) < size (whites c))%nat.
Proof.
  intros Hw Hn. apply subset_size. split.
  - intros x. unfold whites. rewrite !elem_of_filter, colour_of_insert. case_decide; [by intros [? _]|done].
  - intros Hs. specialize (Hs node). unfold whites in Hs. rewrite !elem_of_filter, colour_of_insert in Hs.
    rewrite decide_True in Hs by done. by destruct (Hs (conj Hw Hn)).
Qed.

Lemma edge_node x y : edge x y -> y ∈ graph_nodes deps.
Proof.
  unfold edge, graph_nodes. destruct (deps !! x) as [l|] eqn:Hx; cbn; [|by intros ?%elem_of_nil].
  intros Hy. apply elem_of_union_r, elem_of_list_to_set, list_elem_of_join. exists l. split; [done|].
  apply list_elem_of_fmap. exists (x, l). split; [done|]. by apply elem_of_map_to_list.
Qed.

(** A path from a finished node stays among the finished. *)
Lemma black_path c x y : colour_inv c -> tc edge x y -> colour_of c x = black -> colour_of c y = black.
Proof. intros Hinv. induction 1; intros Hx; [|apply IHtc]; by eapply Hinv. Qed.

Lemma colour_inv_finish c node :
  colour_inv c -> colour_of c node = gray -> (forall d, edge node d -> colour_of c d = black) ->
  colour_inv (<[node := black]> c).
Proof.
  intros Hinv Hg Hd b. rewrite colour_of_insert. case_decide as Hb.
  - subst b. intros _. split.
    + intros Hc. assert (exists y, edge node y /\ (y = node \/ tc edge y node)) as (y & Hy & Hyn).
      { inversion Hc; subst; eauto. }
      destruct Hyn as [->|Hyn]; [specialize (Hd _ Hy); congruence|].
      specialize (black_path c y node Hinv Hyn (Hd _ Hy)). congruence.
    + intros y Hy. rewrite colour_of_insert. case_decide; [done|auto].
  - intros Hcb. destruct (Hinv b Hcb) as [Hnc Hcl]. split; [done|].
    intros y Hy. rewrite colour_of_insert. case_decide; [done|auto].
Qed.

Lemma dfs_deps_spec n (V : colours -> string -> option (bool * colours)) node ds c :
  (forall c1 d, dfs_pre c1 d -> (size (whites c1) <= n)%nat -> exists r, V c1 d = Some r /\ dfs_post c1 [d] r) ->
  colour_inv c -> colour_of c node = gray -> (forall g, colour_of c g = gray -> g = node \/ tc edge g node) ->
  (size (whites c) <= n)%nat -> (forall d, d ∈ ds -> edge node d) ->
  exists r, dfs_deps V c ds = Some r /\ dfs_post c ds r.
Proof.
  intros HV. revert c. induction ds as [|d ds IH]; intros c Hinv Hnode Hgray Hsize Hds; cbn [dfs_deps].
  { eexists. split; [done|]. split; [done|]. split; [by intros x|]. by intros d ?%elem_of_nil. }
  assert (edge node d) as Hd by (apply Hds; by left).
  destruct (colour_of c d) eqn:Hcol.
  - destruct (HV c d) as ([b c1] & -> & Hpost); [|done|].
    { split; [done|]. split; [done|]. split; [by eapply edge_node|]. intros g [->|Hg]%Hgray.
      - by apply tc_once.
      - eapply tc_r; [exact Hg|exact Hd]. }
    destruct b; [by eexists|]. destruct Hpost as (Hinv1 & Hcol1 & Hblack1).
    destruct (IH c1) as (r & Hr & Hp); [done|by apply Hcol1| |etrans; [by apply whites_coloured|done]| |].
    { intros g Hg. apply Hgray. by apply Hcol1. }
    { intros d' Hd'. apply Hds. by right. }
    exists r. split; [done|]. unfold dfs_post in *. destruct (r.1); [done|].
    destruct Hp as (Hi & Hc & Hb). split; [done|]. split; [by eapply coloured_trans|].
    intros d' [->|Hd']%elem_of_cons; [|auto]. apply Hc, Hblack1. by left.
  - eexists. split; [done|]. exists node. cbn. destruct (Hgray d Hcol) as [->|Hg]; [by apply tc_once|].
    eapply tc_l; [exact Hd|exact Hg].
  - destruct (IH c) as (r & Hr & Hp); try done. { intros d' Hd'. apply Hds. by right. }
    exists r. split; [done|]. unfold dfs_post in *. destruct (r.1); [done|].
    destruct Hp as (Hi & Hc & Hb). split; [done|]. split; [done|].
    intros d' [->|Hd']%elem_of_cons; [|auto]. by apply Hc.
Qed.

Lemma dfs_spec fuel c node :
  dfs_pre c node -> (size (whites c) <= fuel)%nat -> exists r, dfs deps fuel c node = Some r /\ dfs_post c [node] r.
Proof.
  revert c node. induction fuel as [|fuel IH]; intros c node (Hinv & Hw & Hn & Hgray) Hsize.
  { pose proof (whites_gray c node Hw Hn). lia. }
  cbn [dfs]. pose proof (whites_gray c node Hw Hn) as Hlt.
  destruct (dfs_deps_spec fuel (dfs deps fuel) node (default [] (deps !! node)) (<[node := gray]> c))
    as ([b c1] & -> & Hpost); [exact IH| | | |lia|done|].
  - intros b. rewrite colour_of_insert. case_decide; [done|]. intros Hb. destruct (Hinv b Hb) as [Hnc Hcl].
    split; [done|]. intros y Hy. rewrite colour_of_insert. specialize (Hcl y Hy). case_decide; congruence.
  - rewrite colour_of_insert. by rewrite decide_True.
  - intros g. rewrite colour_of_insert. case_decide; [auto|]. intros Hg. right. by apply Hgray.
  - destruct b; [by eexists|]. destruct Hpost as (Hinv1 & Hcol1 & Hblack1).
    assert (colour_of c1 node = gray) as Hng.
    { apply Hcol1. rewrite colour_of_insert. by rewrite decide_True. }
    eexists. split; [done|]. split; [|split]; cbn [snd].
    + apply colour_inv_finish; auto.
    + intros x. rewrite colour_of_insert. destruct (Hcol1 x) as [Hg Hb]. rewrite colour_of_insert in Hg, Hb.
      case_decide as Hx; [subst x; rewrite Hw; done|]. done.
    + intros d ->%list_elem_of_singleton. rewrite colour_of_insert. by rewrite decide_True.
Qed.

Lemma dfs_all_spec fuel c nodes :
  colour_inv c -> (forall g, colour_of c g <> gray) -> (forall n, n ∈ nodes -> n ∈ graph_nodes deps) ->
  (size (whites c) <= fuel)%nat ->
  exists b, dfs_all deps fuel c nodes = Some b /\
    if b then cyclic
    else exists c', colour_inv c' /\ coloured c c' /\ forall n, n ∈ nodes -> colour_of c' n = black.
Proof.
  revert c. induction nodes as [|n nodes IH]; intros c Hinv Hgray Hnodes Hsize; cbn [dfs_all].
  { exists false. split; [done|]. exists c. split; [done|]. split; [by intros x|]. by intros n ?%elem_of_nil. }
  assert (forall m, m ∈ nodes -> m ∈ graph_nodes deps) as Hnodes'. { intros m Hm. apply Hnodes. by right. }
  destruct (colour_of c n) eqn:Hcol; [|by destruct (Hgray n)|].
  - destruct (dfs_spec fuel c n) as ([b c1] & -> & Hpost); [|done|].
    { split; [done|]. split; [done|]. split; [apply Hnodes; by left|]. by intros g ?%Hgray. }
    destruct b; [by eexists|]. destruct Hpost as (Hinv1 & Hcol1 & Hblack1). cbn [snd] in *.
    destruct (IH c1) as (b & Hb & Hp); [done| |done|etrans; [by apply whites_coloured|done]|].
    { intros g Hg. apply (Hgray g). by apply Hcol1. }
    exists b. split; [done|]. destruct b; [done|]. destruct Hp as (c' & Hi & Hc & Hn). exists c'.
    split; [done|]. split; [by eapply coloured_trans|]. intros m [->|Hm]%elem_of_cons; [|auto].
    apply Hc, Hblack1. by left.
  - destruct (IH c) as (b & Hb & Hp); [done..|]. exists b. split; [done|]. destruct b; [done|].
    destruct Hp as (c' & Hi & Hc & Hn). exists c'. split; [done|]. split; [done|].
    intros m [->|Hm]%elem_of_cons; [|auto]. by apply Hc.
Qed.
End cycles.

Lemma DetectCycle_spec `{MapRange} (deps : graph) :
  exists b, DetectCycle deps = Some b /\ (b = true <-> cyclic deps).
Proof.
  destruct (dfs_all_spec deps (S (size (graph_nodes deps))) ∅ (map fst (map_range deps))) as (b & Hb & Hp); try done.
  - intros n [v Hv]%elem_of_keys. apply elem_of_union_l, elem_of_dom. eauto.
  - etrans; [apply subseteq_size|apply Nat.le_succ_diag_r]. intros x [_ ?]%elem_of_filter. done.
  - exists b. split; [exact Hb|]. destruct b; [done|]. split; [done|]. intros [x Hx].
    destruct Hp as (c' & Hinv & _ & Hn). destruct (Hinv x) as [[] _]; [|done]. apply Hn, elem_of_keys.
    assert (exists y, edge deps x y) as [y Hy]. { inversion Hx; eauto. }
    unfold edge in Hy. destruct (deps !! x); [eauto|]. by apply elem_of_nil in Hy.
Qed.

(** C34: The cycle detection terminates, whatever the order the maps are
    visited in, and answers yes exactly when some component transitively waits
    for itself. *)
Theorem DetectCycle_iff `{MapRange} (deps : graph) :
  exists b, DetectCycle deps = Some b /\ (b = true <-> cyclic deps).
Proof. apply DetectCycle_spec. Qed.

(** * Correctness of the deletion gates *)

Lemma edge_append k v g x d : edge (append_to k v g) x d <-> edge g x d \/ (x = k /\ d = v).
Proof.
  unfold edge, append_to. rewrite lookup_insert. case_decide as Hx; [subst x|by naive_solver].
  cbn. rewrite elem_of_snoc. naive_solver.
Qed.

Lemma edge_empty x d : ~ edge ∅ x d.
Proof. unfold edge. rewrite lookup_empty. apply not_elem_of_nil. Qed.

Lemma edge_fold_append (f : graph -> string -> graph) (P : string -> string -> string -> Prop) l g x d :
  (forall g n x d, edge (f g n) x d <-> edge g x d \/ P n x d) ->
  edge (fold_left f l g) x d <-> edge g x d \/ exists n, n ∈ l /\ P n x d.
Proof.
  intros Hf. revert g. induction l as [|n l IH]; intros g; cbn [fold_left].
  - split; [by left|]. intros [?|(n & []%elem_of_nil & _)]. done.
  - rewrite IH, Hf. setoid_rewrite elem_of_cons. naive_solver.
Qed.

(** The folds over the pairs of a map, by what each pair adds. *)
Lemma edge_fold_range `{MapRange} (f : graph -> string * list string -> graph)
    (P : string -> list string -> string -> string -> Prop) (m g : graph) x d :
  (forall g n l x d, edge (f g (n, l)) x d <-> edge g x d \/ P n l x d) ->
  edge (fold_left f (map_range m) g) x d <-> edge g x d \/ exists n l, m !! n = Some l /\ P n l x d.
Proof.
  intros Hf.
  assert (forall kvs g, edge (fold_left f kvs g) x d <-> edge g x d \/ exists n l, (n, l) ∈ kvs /\ P n l x d) as Hall.
  { intros kvs. induction kvs as [|[n l] kvs IH]; intros g'; cbn [fold_left].
    - split; [by left|]. intros [?|(n & l & []%elem_of_nil & _)]. done.
    - rewrite IH, Hf. setoid_rewrite elem_of_cons. naive_solver. }
  rewrite Hall. setoid_rewrite map_range_perm. by setoid_rewrite elem_of_map_to_list.
Qed.

Lemma BuildReverseDependencies_edge `{MapRange} deps x d :
  edge (BuildReverseDependencies deps) x d <-> edge deps d x.
Proof.
  unfold BuildReverseDependencies.
  rewrite (edge_fold_range _ (fun n l x d => x ∈ l /\ d = n)).
  - rewrite (edge_fold_append _ (fun _ _ _ => False)).
    + split; [|unfold edge at 1; intros Hd; right; destruct (deps !! d) as [l|] eqn:Hl; [|by apply elem_of_nil in Hd]; eauto].
      intros [[[]%edge_empty|(n & _ & [])]|(n & l & Hn & Hx & ->)]. unfold edge. by rewrite Hn.
    + intros g n y z. unfold edge. destruct (g !! n) eqn:Hn; [tauto|]. rewrite lookup_insert.
      case_decide as Hy; [|tauto]. subst y. rewrite Hn. cbn. tauto.
  - intros g n l y z. rewrite (edge_fold_append _ (fun dep y z => y = dep /\ z = n)); [naive_solver|].
    intros. apply edge_append.
Qed.

Lemma merge_gate_fold node deps g (ex : gset string) x d :
  (forall v, v ∈ ex <-> edge g node v) ->
  edge (fold_left (merge_gate node) deps (g, ex)).1 x d <-> edge g x d \/ (x = node /\ d ∈ deps).
Proof.
  revert g ex. induction deps as [|v deps IH]; intros g ex Hex; cbn [fold_left].
  - cbn. rewrite elem_of_nil. tauto.
  - unfold merge_gate at 2. rewrite elem_of_cons. case_bool_decide as Hv.
    + rewrite IH by done. apply Hex in Hv. naive_solver.
    + rewrite IH; [rewrite edge_append; naive_solver|]. intros w. rewrite edge_append. set_solver.
Qed.

(** The gates of a component: those that declared to start after it, and those it
    declared to be deleted after. *)
Lemma BuildDeletionGates_edge `{MapRange} startDeps deleteDeps x d :
  edge (BuildDeletionGates startDeps deleteDeps) x d <-> edge startDeps d x \/ edge deleteDeps x d.
Proof.
  unfold BuildDeletionGates. rewrite (edge_fold_range _ (fun n l x d => x = n /\ d ∈ l)).
  - rewrite BuildReverseDependencies_edge. unfold edge at 3.
    split; (intros [?|Hr]; [by left|right]).
    + destruct Hr as (n & l & Hn & -> & Hd). by rewrite Hn.
    + destruct (deleteDeps !! x) as [l|] eqn:Hl; [eauto|]. by apply elem_of_nil in Hr.
  - intros g n l y z. destruct l as [|v l].
    + rewrite elem_of_nil. tauto.
    + apply merge_gate_fold. intros w. rewrite elem_of_list_to_set. done.
Qed.

(** * Nothing waits for ever in an acyclic graph

    Of the nodes a predicate holds of, one waits for none of them. *)
Lemma acyclic_exit g (P : string -> Prop) (X : gset string) :
  (forall x, Decision (P x)) -> ~ cyclic g -> (forall x, P x -> x ∈ X) -> (exists x, P x) ->
  exists x, P x /\ forall d, edge g x d -> ~ P d.
Proof.
  intros HP Hac HX [x0 Hx0].
  (* a walk through nodes of P, none seen before *)
  assert (forall n (seen : gset string) x, (size (X ∖ seen) <= n)%nat -> P x -> x ∉ seen ->
    (forall y, y ∈ seen -> tc (edge g) y x) -> exists x, P x /\ forall d, edge g x d -> ~ P d) as Hwalk.
  { induction n as [|n IH]; intros seen x Hn Hx Hns Hpath.
    - assert (X ∖ seen ≡ ∅) as He by (apply size_empty_iff; lia). specialize (HX x Hx). set_solver.
    - destruct (decide (Exists P (default [] (g !! x)))) as [(d & Hd & Hpd)%Exists_exists|Hno].
      + destruct (decide (d ∈ {[x]} ∪ seen)) as [Hs|Hs].
        * exfalso. apply Hac. exists d. apply elem_of_union in Hs as [->%elem_of_singleton|Hs]; [by apply tc_once|].
          eapply tc_r; [by apply Hpath|exact Hd].
        * apply (IH ({[x]} ∪ seen) d); [|done|done|].
          -- assert (size (X ∖ ({[x]} ∪ seen)) < size (X ∖ seen))%nat; [|lia]. apply subset_size. split; [set_solver|].
             specialize (HX x Hx). set_solver.
          -- intros y [->%elem_of_singleton|Hy]%elem_of_union; [by apply tc_once|]. eapply tc_r; [by apply Hpath|exact Hd].
      + exists x. split; [done|]. intros d Hd Hpd. apply Hno, Exists_exists. eauto. }
  apply (Hwalk (size (X ∖ ∅)) ∅ x0); [done|done|set_solver|set_solver].
Qed.
