(* ===== verification/NodeBindings.v ===== *)
(** In-place scheduling (pkg/reconciler/roleinstance/sync/node_binding.go): the
    store that remembers the nodes the pods of a role ran on, and the node
    affinity a new pod gets from it.

    The store is one map under a lock; an operation is one step on it.  The last
    sections show what the store remembers ([RecordNodeBindings_spec]) and what
    the injected terms mean to the scheduler ([InjectInPlaceScheduling_feasible]). *)
From Stdlib Require Import ZArith Lia Bool Ascii String.
From stdpp Require Import base tactics list strings gmap sets fin_maps.
From S2P Require Import Prelude GoStrings Types InstancePods.

(** constants/annotation.go, constants/label.go *)
Definition RBGOwnerUIDLabelKey : string := RBGPrefix +:+ "rbg-owner-uid".
Definition GroupExclusiveTopologyKey : string := RBGPrefix +:+ "group-exclusive-topology".
Definition InplaceSchedulingPreferred : string := "Preferred".
Definition InplaceSchedulingRequired : string := "Required".
Definition InplaceSchedulingGranularityPod : string := "Pod".
Definition InplaceSchedulingGranularityComponent : string := "Component".
Definition hostnameLabelKey : string := "kubernetes.io/hostname".
Definition NodeSelectorOpIn : string := "In".
Definition NodeSelectorOpDoesNotExist : string := "DoesNotExist".

(** * The store *)

Abbreviation rbgBindings := (gmap string (gset string)).
Abbreviation NodeBindingStore := (gmap string rbgBindings).

Definition NewNodeBindingStore : NodeBindingStore := ∅.

(** [strings.Cut(key, "/")], both halves non-empty. *)
Definition splitKey (key : string) : option (string * string) :=
  match cut_slash (chars key) with
  | None => None
  | Some (uid, subKey) =>
      if bool_decide (uid = []) || bool_decide (subKey = []) then None
      else Some (of_chars uid, of_chars subKey)
  end.

Definition Add (key nodeName : string) (s : NodeBindingStore) : NodeBindingStore :=
  match splitKey key with
  | None => s
  | Some (uid, subKey) =>
      let rb := default ∅ (s !! uid) in
      <[uid := <[subKey := {[nodeName]} ∪ default ∅ (rb !! subKey)]> rb]> s
  end.

Definition Load (key : string) (s : NodeBindingStore) : option (gset string) :=
  match splitKey key with
  | None => None
  | Some (uid, subKey) =>
      match s !! uid with
      | None => None
      | Some rb => rb !! subKey
      end
  end.

Definition EvictByUID (uid : string) (s : NodeBindingStore) : NodeBindingStore :=
  match s !! uid with
  | Some _ => delete uid s
  | None => s
  end.

Definition Len (s : NodeBindingStore) : Z := Z.of_nat (size s).

(** * Keys *)

Definition buildKey (granularity : string) (i : RoleInstance) (p : Pod) : string :=
  let rbgUID := label_of (ri_Labels i) RBGOwnerUIDLabelKey in
  if bool_decide (rbgUID = ""%string) then ""%string
  else if bool_decide (granularity = InplaceSchedulingGranularityPod) then rbgUID +:+ "/" +:+ pod_Name p
  else if bool_decide (granularity = InplaceSchedulingGranularityComponent) then
    let roleName := label_of (ri_Labels i) RoleNameLabelKey in
    let componentName := label_of (pod_Labels p) ComponentNameLabelKey in
    if bool_decide (roleName = ""%string) || bool_decide (componentName = ""%string) then ""%string
    else rbgUID +:+ "/" +:+ roleName +:+ "-" +:+ componentName
  else ""%string.

Definition resolveGranularity (i : RoleInstance) : string :=
  let g := label_of (om_Annotations (ri_meta i)) RoleInplaceSchedulingGranularityAnnotationKey in
  if bool_decide (g <> ""%string) then g
  else match ri_Labels i !! RoleInstanceIndexLabelKey with
       | None => InplaceSchedulingGranularityComponent
       | Some _ => InplaceSchedulingGranularityPod
       end.

(** * Recording *)

Definition isPodRunningAndReady (p : Pod) : bool :=
  if negb (bool_decide (pod_Phase p = PodRunning)) then false
  else pod_condition_true (GetPodCondition p PodReady).

Definition record_pod (granularity : string) (i : RoleInstance) (s : NodeBindingStore) (p : Pod) : NodeBindingStore :=
  let node := ps_NodeName (pod_spec p) in
  if bool_decide (node = ""%string) then s
  else if negb (isPodRunningAndReady p) then s
  else
    let key := buildKey granularity i p in
    if bool_decide (key = ""%string) then s else Add key node s.

Definition RecordNodeBindings (s : NodeBindingStore) (i : RoleInstance) (pods : list Pod) : NodeBindingStore :=
  fold_left (record_pod (resolveGranularity i) i) pods s.

(** * Injection *)

Definition set_affinity (a : option Affinity) (p : Pod) : Pod :=
  pod_with_spec (spec_with_affinity a (pod_spec p)) p.

Definition empty_affinity : Affinity := {| af_NodeAffinity := None; af_rest := "" |}.
Definition empty_node_affinity : NodeAffinity := {| na_Required := None; na_Preferred := [] |}.

(** [pod.Spec.Affinity.NodeAffinity], which [ensureNodeAffinity] creates. *)
Definition node_affinity (p : Pod) : NodeAffinity :=
  default empty_node_affinity (af_NodeAffinity (default empty_affinity (ps_Affinity (pod_spec p)))).

Definition set_node_affinity (na : NodeAffinity) (p : Pod) : Pod :=
  let a := default empty_affinity (ps_Affinity (pod_spec p)) in
  set_affinity (Some {| af_NodeAffinity := Some na; af_rest := af_rest a |}) p.

Definition ensureNodeAffinity (p : Pod) : Pod := set_node_affinity (node_affinity p) p.

Definition foldIntoRequired (na : NodeAffinity) (exprs : list NodeSelectorRequirement) : NodeAffinity :=
  let terms := default [] (na_Required na) in
  let terms' :=
    match terms with
    | [] => [{| nst_MatchExpressions := exprs; nst_MatchFields := [] |}]
    | _ => map (fun t => {| nst_MatchExpressions := (nst_MatchExpressions t ++ exprs)%list;
                            nst_MatchFields := nst_MatchFields t |}) terms
    end in
  {| na_Required := Some terms'; na_Preferred := na_Preferred na |}.

(** [len(validation.IsQualifiedName(key)) == 0] *)
Class QualifiedNames := IsQualifiedName : string -> bool.

Definition hostname_in (nodes : gset string) : NodeSelectorRequirement := {|
  nsr_Key := hostnameLabelKey; nsr_Operator := NodeSelectorOpIn;
  nsr_Values := insertion_sort String.ltb (elements nodes) |}.

Section inject.
Context `{QualifiedNames}.

Definition avoid_expr (key : string) : option NodeSelectorRequirement :=
  let key := TrimSpace key in
  if bool_decide (key = ""%string) then None
  else if negb (IsQualifiedName key) then None
  else Some {| nsr_Key := key; nsr_Operator := NodeSelectorOpDoesNotExist; nsr_Values := [] |}.

Definition avoidExprs (i : RoleInstance) : list NodeSelectorRequirement :=
  let raw := label_of (om_Annotations (ri_meta i)) RoleInplaceSchedulingAvoidAnnotationKey in
  if bool_decide (raw = ""%string) then [] else omap avoid_expr (Split raw ",").

Definition fold_avoid (i : RoleInstance) (na : NodeAffinity) : NodeAffinity :=
  match avoidExprs i with [] => na | exprs => foldIntoRequired na exprs end.

Definition InjectInPlaceScheduling (p : Pod) (i : RoleInstance) (store : NodeBindingStore) : Pod :=
  let mode := label_of (om_Annotations (ri_meta i)) RoleInplaceSchedulingAnnotationKey in
  if bool_decide (mode = ""%string) then p
  else if negb (bool_decide (mode = InplaceSchedulingPreferred)) && negb (bool_decide (mode = InplaceSchedulingRequired))
  then p
  else if bool_decide (label_of (om_Annotations (pod_meta p)) GroupExclusiveTopologyKey <> ""%string) then p
  else
    let key := buildKey (resolveGranularity i) i p in
    if bool_decide (key = ""%string) then p
    else
      let p := ensureNodeAffinity p in
      let nodes := default ∅ (Load key store) in
      if bool_decide (nodes = ∅) then set_node_affinity (fold_avoid i (node_affinity p)) p
      else if bool_decide (mode = InplaceSchedulingPreferred) then
        let na := node_affinity p in
        let term := {| pst_Weight := 100;
          pst_Preference := {| nst_MatchExpressions := [hostname_in nodes]; nst_MatchFields := [] |} |} in
        set_node_affinity (fold_avoid i {| na_Required := na_Required na;
          na_Preferred := (na_Preferred na ++ [term])%list |}) p
      else set_node_affinity (foldIntoRequired (node_affinity p) (hostname_in nodes :: avoidExprs i)) p.
End inject.

(** * What the store remembers *)

Definition bound (s : NodeBindingStore) (key node : string) : Prop := exists nodes, Load key s = Some nodes /\ node ∈ nodes.

Lemma cut_slash_app l a b : cut_slash l = Some (a, b) -> l = (a ++ "/"%char :: b)%list.
Proof.
  revert a. induction l as [|c l IH]; intros a; cbn; [done|]. case_bool_decide as Hc; [intros [= <- <-]; by subst|].
  destruct (cut_slash l) as [[a' b']|]; [|done]. intros [= <- <-]. cbn. by rewrite (IH a').
Qed.

Lemma splitKey_inj k k' kv : splitKey k = Some kv -> splitKey k' = Some kv -> k = k'.
Proof.
  assert (forall k u sk, splitKey k = Some (u, sk) -> k = of_chars (chars u ++ "/"%char :: chars sk)%list) as Hinv.
  { intros x u sk. unfold splitKey. destruct (cut_slash (chars x)) as [[a b]|] eqn:Hc; [|done].
    destruct (bool_decide (a = []) || bool_decide (b = [])); [done|]. intros [= <- <-].
    rewrite !list_ascii_of_string_of_list_ascii, <-(cut_slash_app _ _ _ Hc). by rewrite string_of_list_ascii_of_string. }
  destruct kv as [u sk]. intros ->%Hinv ->%Hinv. done.
Qed.

Lemma Load_Add key node s k :
  splitKey key <> None ->
  Load k (Add key node s) = if decide (k = key) then Some ({[node]} ∪ default ∅ (Load key s)) else Load k s.
Proof.
  intros Hk. unfold Load, Add. destruct (splitKey key) as [[u sk]|] eqn:He; [clear Hk|done].
  case_decide as Hd.
  - subst k. rewrite He, !lookup_insert_eq. destruct (s !! u); cbn; [done|by rewrite lookup_empty].
  - destruct (splitKey k) as [[u' sk']|] eqn:He'; [|done]. rewrite lookup_insert. case_decide as Hu; [subst u'|done].
    rewrite lookup_insert_ne; [by destruct (s !! u)|]. intros ->. by destruct Hd; eapply splitKey_inj.
Qed.

Lemma bound_Add key node s k n :
  bound (Add key node s) k n <-> bound s k n \/ (k = key /\ n = node /\ splitKey key <> None).
Proof.
  destruct (decide (splitKey key = None)) as [Hn|Hs].
  - unfold Add. rewrite Hn. split; [by left|]. by intros [?|(_ & _ & ?)].
  - unfold bound. rewrite Load_Add by done. case_decide as Hk; [subst k|naive_solver]. split.
    + intros (? & [= <-] & [->%elem_of_singleton|Hl]%elem_of_union); [by right|]. left.
      destruct (Load key s); [eauto|]. by apply elem_of_empty in Hl.
    + intros [(l & -> & ?)|(_ & -> & _)]; (eexists; split; [done|]); set_solver.
Qed.

Lemma bound_Evict uid s k n :
  bound (EvictByUID uid s) k n <-> bound s k n /\ forall sk, splitKey k <> Some (uid, sk).
Proof.
  unfold bound, EvictByUID, Load. destruct (splitKey k) as [[u sk]|]; [|split; [|tauto]; by intros (? & ? & _)].
  destruct (decide (u = uid)) as [->|Hne].
  - split; [|by intros [_ []%(fun H => H sk)]]. destruct (s !! uid) eqn:Hs.
    + rewrite lookup_delete_eq. by intros (? & ? & _).
    + rewrite Hs. by intros (? & ? & _).
  - assert (forall sk' : string, Some (u, sk) <> Some (uid, sk')) as Hu by congruence.
    destruct (s !! uid); [rewrite lookup_delete_ne by done|]; tauto.
Qed.

(** The pods whose node is recorded, and under which key. *)
Definition recorded (i : RoleInstance) (p : Pod) (key node : string) : Prop :=
  ps_NodeName (pod_spec p) = node /\ node <> ""%string /\ isPodRunningAndReady p = true /\
  buildKey (resolveGranularity i) i p = key /\ splitKey key <> None.

(** After a recording the store binds exactly what it bound before and, for
    every running and ready pod that has a node, the key of the pod to that node. *)
Theorem RecordNodeBindings_spec s i pods key node :
  bound (RecordNodeBindings s i pods) key node <->
  bound s key node \/ exists p, p ∈ pods /\ recorded i p key node.
Proof.
  unfold RecordNodeBindings. revert s. induction pods as [|p pods IH]; intros s; cbn [fold_left].
  { split; [by left|]. intros [?|(p & []%elem_of_nil & _)]. done. }
  rewrite IH. setoid_rewrite elem_of_cons.
  assert (bound (record_pod (resolveGranularity i) i s p) key node <-> bound s key node \/ recorded i p key node) as ->.
  { unfold record_pod, recorded. case_bool_decide as Hn; [naive_solver|].
    destruct (isPodRunningAndReady p); cbn [negb]; [|naive_solver].
    case_bool_decide as Hk; [|rewrite bound_Add; naive_solver].
    split; [by left|]. intros [?|(_ & _ & _ & <- & Hs)]; [done|]. rewrite Hk in Hs. done. }
  naive_solver.
Qed.

(** * What the injected terms mean to the scheduler *)

Section scheduler.
(** A node, by its labels; the operators and the fields the injection does not
    write are matched in some way. *)
Context (node : labels) (other_matches field_matches : NodeSelectorRequirement -> bool).

Definition expr_matches (r : NodeSelectorRequirement) : bool :=
  if bool_decide (nsr_Operator r = NodeSelectorOpIn) then
    match node !! nsr_Key r with Some v => bool_decide (v ∈ nsr_Values r) | None => false end
  else if bool_decide (nsr_Operator r = NodeSelectorOpDoesNotExist) then bool_decide (node !! nsr_Key r = None)
  else other_matches r.

(** The requirements of a term are ANDed; a term without any matches no node. *)
Definition term_matches (t : NodeSelectorTerm) : bool :=
  negb (bool_decide (nst_MatchExpressions t = []) && bool_decide (nst_MatchFields t = []))
  && forallb expr_matches (nst_MatchExpressions t) && forallb field_matches (nst_MatchFields t).

(** The terms are ORed; without a selector every node matches. *)
Definition required_matches (na : NodeAffinity) : bool :=
  match na_Required na with None => true | Some terms => existsb term_matches terms end.

Definition feasible (p : Pod) : bool := required_matches (node_affinity p).

(** A selector the API server accepts and that has no term matching nothing. *)
Definition proper_terms (na : NodeAffinity) : Prop :=
  forall terms, na_Required na = Some terms -> terms <> [] /\
    forall t, t ∈ terms -> ~ (nst_MatchExpressions t = [] /\ nst_MatchFields t = []).

Lemma existsb_and {A} (f : A -> bool) (b : bool) l : existsb (fun x => f x && b) l = existsb f l && b.
Proof. induction l as [|x l IH]; cbn; [done|]. rewrite IH. by destruct (f x), b, (existsb f l). Qed.

Lemma foldIntoRequired_matches na exprs :
  proper_terms na -> exprs <> [] ->
  required_matches (foldIntoRequired na exprs) = required_matches na && forallb expr_matches exprs.
Proof.
  intros Hp He. unfold required_matches, foldIntoRequired. cbn [na_Required].
  assert (forall t, ~ (nst_MatchExpressions t = [] /\ nst_MatchFields t = []) ->
    term_matches {| nst_MatchExpressions := nst_MatchExpressions t ++ exprs; nst_MatchFields := nst_MatchFields t |}
    = term_matches t && forallb expr_matches exprs) as Hterm.
  { intros t Ht. unfold term_matches. cbn. rewrite forallb_app.
    rewrite (bool_decide_false (_ ++ _ = [])) by (by intros [_ ?]%app_nil).
    assert (bool_decide (nst_MatchExpressions t = []) && bool_decide (nst_MatchFields t = []) = false) as ->.
    { apply andb_false_iff. rewrite !bool_decide_eq_false. destruct (nst_MatchExpressions t); [right|by left].
      intros Hf. by apply Ht. }
    cbn. destruct (forallb expr_matches exprs), (forallb expr_matches (nst_MatchExpressions t)),
      (forallb field_matches (nst_MatchFields t)); done. }
  destruct (na_Required na) as [terms|] eqn:Hr; cbn.
  - destruct (Hp _ Hr) as [Hne Hts]. destruct terms as [|t ts]; [done|]. rewrite <-existsb_and. clear Hr Hne.
    induction (t :: ts) as [|t' ts' IH]; [done|]. cbn. rewrite Hterm by (apply Hts; by left).
    f_equal. apply IH. intros. apply Hts. by right.
  - unfold term_matches. cbn. destruct exprs; [done|]. cbn. by destruct (expr_matches _ && _).
Qed.

Lemma hostname_in_matches nodes :
  expr_matches (hostname_in nodes)
  = match node !! hostnameLabelKey with Some h => bool_decide (h ∈ nodes) | None => false end.
Proof.
  unfold expr_matches, hostname_in. cbn. destruct (node !! hostnameLabelKey) as [h|]; [|done].
  apply bool_decide_ext. by rewrite insertion_sort_perm, elem_of_elements.
Qed.

Lemma node_affinity_set na p : node_affinity (set_node_affinity na p) = na.
Proof. done. Qed.

Section inject.
Context `{QualifiedNames}.

(** Whether anything is injected at all. *)
Definition scheduling_active (p : Pod) (i : RoleInstance) : bool :=
  let mode := label_of (om_Annotations (ri_meta i)) RoleInplaceSchedulingAnnotationKey in
  bool_decide (mode ∈ [InplaceSchedulingPreferred; InplaceSchedulingRequired])
  && negb (bool_decide (label_of (om_Annotations (pod_meta p)) GroupExclusiveTopologyKey <> ""%string))
  && negb (bool_decide (buildKey (resolveGranularity i) i p = ""%string)).

(** What the instance asks of the node: none of the labels to avoid, and in the
    Required mode one of the nodes remembered, when there are any. *)
Definition asked (p : Pod) (i : RoleInstance) (store : NodeBindingStore) : bool :=
  let nodes := default ∅ (Load (buildKey (resolveGranularity i) i p) store) in
  forallb expr_matches (avoidExprs i)
  && (negb (bool_decide (label_of (om_Annotations (ri_meta i)) RoleInplaceSchedulingAnnotationKey = InplaceSchedulingRequired))
      || bool_decide (nodes = ∅)
      || match node !! hostnameLabelKey with Some h => bool_decide (h ∈ nodes) | None => false end).

Lemma fold_avoid_matches i na :
  proper_terms na -> required_matches (fold_avoid i na) = required_matches na && forallb expr_matches (avoidExprs i).
Proof.
  intros Hp. unfold fold_avoid. destruct (avoidExprs i) as [|e es] eqn:He; [cbn; by rewrite andb_true_r|].
  by apply foldIntoRequired_matches.
Qed.
End inject.
End scheduler.

(** In-place scheduling only ever narrows where a pod may run: a node stays
    feasible exactly when it was feasible and the instance's own constraint holds
    of it, whatever node affinity the user wrote. *)
Theorem InjectInPlaceScheduling_feasible `{QualifiedNames} node other field p i store :
  proper_terms (node_affinity p) ->
  feasible node other field (InjectInPlaceScheduling p i store)
  = feasible node other field p
    && (negb (scheduling_active p i) || asked node other p i store).
Proof.
  intros Hp. unfold InjectInPlaceScheduling, scheduling_active, asked.
  set (mode := label_of (om_Annotations (ri_meta i)) RoleInplaceSchedulingAnnotationKey).
  assert (InplaceSchedulingPreferred <> InplaceSchedulingRequired) as Hpr by done.
  case_bool_decide as Hm0; [rewrite Hm0, andb_true_r; done|].
  destruct (bool_decide (mode = InplaceSchedulingPreferred)) eqn:HP, (bool_decide (mode = InplaceSchedulingRequired)) eqn:HR;
    cbn [negb andb]; [exfalso; breflect; congruence|..].
  all: try (rewrite (bool_decide_true (mode ∈ _)) by (apply elem_of_cons; breflect; set_solver)).
  all: try (rewrite (bool_decide_false (mode ∈ _)) by (rewrite !elem_of_cons, elem_of_nil; breflect; tauto);
            by rewrite andb_true_r).
  all: clear HP HR Hpr Hm0.
  all: case_bool_decide as Hx; [cbn [negb andb orb]; by rewrite andb_true_r|].
  all: case_bool_decide as Hk; [cbn [negb andb orb]; by rewrite andb_true_r|]; cbn [negb orb andb].
  all: unfold feasible; case_bool_decide as Hn; rewrite node_affinity_set.
  - rewrite fold_avoid_matches by exact Hp. by rewrite andb_true_r.
  - rewrite fold_avoid_matches by exact Hp. by rewrite andb_true_r.
  - rewrite fold_avoid_matches by exact Hp. by rewrite andb_true_r.
  - rewrite foldIntoRequired_matches by (exact Hp || done). cbn [forallb orb].
    rewrite hostname_in_matches. f_equal. apply andb_comm.
Qed.

(** A pod of the user's that asks for one zone, and an instance that asks for the
    nodes it ran on. *)
Definition zoned_pod : Pod := {|
  pod_meta := with_labels {[ComponentNameLabelKey := "db"%string]} (with_name "web-db-0" "default" empty_meta);
  pod_spec := {| ps_NodeName := ""; ps_Hostname := ""; ps_Subdomain := ""; ps_HostNetwork := false; ps_ReadinessGates := [];
    ps_Affinity := Some {| af_NodeAffinity := Some {|
      na_Required := Some [{| nst_MatchExpressions := [{| nsr_Key := "zone"; nsr_Operator := NodeSelectorOpIn; nsr_Values := ["a"%string] |}];
                              nst_MatchFields := [] |}]; na_Preferred := [] |}; af_rest := "" |};
    ps_Containers := []; ps_InitContainers := []; ps_rest := "" |};
  pod_status := {| pds_Phase := ""; pds_Conditions := []; pds_ContainerStatuses := [] |} |}.

Definition pinned_instance : RoleInstance := {|
  ri_meta := with_annotations {[RoleInplaceSchedulingAnnotationKey := InplaceSchedulingRequired]} (with_name "web" "default" empty_meta);
  ri_spec := {| ris_Components := []; ris_ReadyPolicy := ""; ris_RestartPolicy := ""; ris_RestartPolicyConfig := None;
                ris_ReadinessGates := [] |};
  ri_status := empty_instance_status |}.

Lemma InjectInPlaceScheduling_feasible_witness :
  let names : QualifiedNames := fun _ => true in
  let node : labels := {["zone"%string := "a"%string]} in
  let no := fun _ => false in
  feasible node no no (InjectInPlaceScheduling zoned_pod pinned_instance ∅)
  = feasible node no no zoned_pod
    && (negb (scheduling_active zoned_pod pinned_instance) || asked node no zoned_pod pinned_instance ∅).
Proof.
  intros names node no. apply (InjectInPlaceScheduling_feasible (H := names) node no no zoned_pod pinned_instance ∅).
  intros terms [= <-]. split; [done|]. intros t ->%list_elem_of_singleton. by intros [[=] _].
Defined.
