(* ===== verification/PortAllocator.v ===== *)
(** Ports and addresses for the pods of an instance: the port allocator
    (pkg/port-allocator) and the component discovery
    (pkg/component-discovery/component_discovery.go).

    Ports are drawn when an instance is built, kept in its annotations, and
    injected into its pods when they are created.  The random source is the class
    [Rand]; the position in it is the state of the allocator.  The draw of an
    unused port has no bound in the code: [fuel] bounds the draws of one port. *)
From Stdlib Require Import ZArith Lia Bool Ascii String.
From stdpp Require Import base tactics list strings gmap sets fin_maps.
From S2P Require Import Prelude GoStrings IntOrString Types Effects InstancePods.

Definition PortAllocatorAnnotationKey : string := "rolebasedgroup.workloads.x-k8s.io/port-allocator".
Definition ComponentDiscoveryAnnotationKey : string := "rolebasedgroup.workloads.x-k8s.io/component-discovery".
Definition ProtocolTCP : string := "TCP".
Definition ProtocolUDP : string := "UDP".
Definition ProtocolSCTP : string := "SCTP".

(** * Environment variables and container ports *)

Fixpoint appendOrReplaceEnv (envs : list EnvVar) (newEnv : EnvVar) : list EnvVar :=
  match envs with
  | [] => [newEnv]
  | e :: envs' => if bool_decide (ev_Name e = ev_Name newEnv) then newEnv :: envs'
                  else e :: appendOrReplaceEnv envs' newEnv
  end.

Definition container_with_env (env : list EnvVar) (c : Container) : Container := {|
  ct_Name := ct_Name c; ct_Image := ct_Image c; ct_Env := env; ct_Ports := ct_Ports c; ct_rest := ct_rest c |}.
Definition container_with_ports (ports : list ContainerPort) (c : Container) : Container := {|
  ct_Name := ct_Name c; ct_Image := ct_Image c; ct_Env := ct_Env c; ct_Ports := ports; ct_rest := ct_rest c |}.

(** Into all containers and all init containers. *)
Definition injectEnvVar (p : Pod) (envName value : string) : Pod :=
  let add c := container_with_env
    (appendOrReplaceEnv (ct_Env c) {| ev_Name := envName; ev_Value := value; ev_rest := "" |}) c in
  let s := pod_spec p in
  pod_with_spec (spec_with_containers (map add (ps_Containers s)) (map add (ps_InitContainers s)) s) p.

Definition normalizeProtocol (protocol : string) : string :=
  if bool_decide (protocol = ""%string) then ProtocolTCP else protocol.

(** A declaration of the port that is there already: [None] when there is none,
    otherwise the ports with it adjusted, or the error. *)
Fixpoint reuse_port (hostNetwork : bool) (port : Z) (protocol : string) (ports : list ContainerPort)
    : option (result (list ContainerPort)) :=
  match ports with
  | [] => None
  | existing :: ports' =>
      if negb (bool_decide (normalizeProtocol (cp_Protocol existing) = protocol)) || negb (cp_ContainerPort existing =? port)
      then
        match reuse_port hostNetwork port protocol ports' with
        | Some (Ok l) => Some (Ok (existing :: l))
        | r => r
        end
      else if negb hostNetwork then Some (Ok ports)
      else if (cp_HostPort existing =? 0) || (cp_HostPort existing =? port) then
        Some (Ok ({| cp_ContainerPort := cp_ContainerPort existing; cp_HostPort := port;
                     cp_Protocol := cp_Protocol existing; cp_rest := cp_rest existing |} :: ports'))
      else Some (Err "host port does not match container port")
  end.

Fixpoint reuse_container (hostNetwork : bool) (port : Z) (protocol : string) (cs : list Container)
    : option (result (list Container)) :=
  match cs with
  | [] => None
  | c :: cs' =>
      match reuse_port hostNetwork port protocol (ct_Ports c) with
      | Some (Ok ports) => Some (Ok (container_with_ports ports c :: cs'))
      | Some (Err e) => Some (Err e)
      | None =>
          match reuse_container hostNetwork port protocol cs' with
          | Some (Ok l) => Some (Ok (c :: l))
          | r => r
          end
      end
  end.

Definition host_port_taken (port : Z) (protocol : string) (cs : list Container) : bool :=
  existsb (fun c => existsb (fun e => bool_decide (normalizeProtocol (cp_Protocol e) = protocol)
                                      && (cp_HostPort e =? port)) (ct_Ports c)) cs.

Definition with_containers (cs : list Container) (p : Pod) : Pod :=
  pod_with_spec (spec_with_containers cs (ps_InitContainers (pod_spec p)) (pod_spec p)) p.

Definition injectContainerPort (p : Pod) (port : Z) (protocol : string) : result Pod :=
  let s := pod_spec p in
  match ps_Containers s with
  | [] => Err "pod has no regular containers"
  | first :: others =>
      let protocol := normalizeProtocol protocol in
      match reuse_container (ps_HostNetwork s) port protocol (ps_Containers s) with
      | Some (Ok cs) => Ok (with_containers cs p)
      | Some (Err e) => Err e
      | None =>
          if ps_HostNetwork s && host_port_taken port protocol (ps_Containers s)
          then Err "host port already exists"
          else
            let containerPort := {| cp_ContainerPort := port; cp_HostPort := if ps_HostNetwork s then port else 0;
                                    cp_Protocol := protocol; cp_rest := "" |} in
            Ok (with_containers (container_with_ports (ct_Ports first ++ [containerPort])%list first :: others) p)
      end
  end.

(** * The configuration (parser.go, type.go) *)

Definition PodScoped : string := "PodScoped".
Definition RoleScoped : string := "RoleScoped".

Record PortAllocation := {
  pa_Name : string;
  pa_Env : string;
  pa_AnnotationKey : string;
  pa_Scope : string;
  pa_Protocol : string
}.

Record PortReference := { pr_Env : string; pr_From : string }.

Record PortAllocatorConfig := {
  pac_Allocations : list PortAllocation;
  pac_References : list PortReference
}.

Definition isValidProtocol (protocol : string) : bool :=
  bool_decide (protocol = ProtocolTCP) || bool_decide (protocol = ProtocolUDP) || bool_decide (protocol = ProtocolSCTP).

(** One allocation, with its defaults filled in. *)
Definition validate_allocation (a : PortAllocation) : result PortAllocation :=
  if bool_decide (pa_Name a = ""%string) then Err "name is required"
  else if bool_decide (pa_Env a = ""%string) then Err "env is required"
  else
    let scope := if bool_decide (pa_Scope a = ""%string) then PodScoped else pa_Scope a in
    if negb (bool_decide (scope = PodScoped)) && negb (bool_decide (scope = RoleScoped))
    then Err "scope must be 'PodScoped' or 'RoleScoped'"
    else
      let protocol := if bool_decide (pa_Protocol a = ""%string) then ProtocolTCP else pa_Protocol a in
      if negb (isValidProtocol protocol) then Err "protocol must be 'TCP', 'UDP', or 'SCTP'"
      else Ok {| pa_Name := pa_Name a; pa_Env := pa_Env a; pa_AnnotationKey := pa_AnnotationKey a;
                 pa_Scope := scope; pa_Protocol := protocol |}.

Fixpoint validate_allocations (l : list PortAllocation) : result (list PortAllocation) :=
  match l with
  | [] => Ok []
  | a :: l' =>
      match validate_allocation a with
      | Err e => Err e
      | Ok a => match validate_allocations l' with Ok l => Ok (a :: l) | Err e => Err e end
      end
  end.

Definition validate_reference (r : PortReference) : bool :=
  negb (bool_decide (pr_Env r = ""%string)) && negb (bool_decide (pr_From r = ""%string)).

Definition validatePortAllocatorConfig (config : PortAllocatorConfig) : result PortAllocatorConfig :=
  match validate_allocations (pac_Allocations config) with
  | Err e => Err e
  | Ok allocations =>
      if forallb validate_reference (pac_References config)
      then Ok {| pac_Allocations := allocations; pac_References := pac_References config |}
      else Err "references: env and from are required"
  end.

(** encoding/json *)
Class PortConfigCodec := UnmarshalPortConfig : string -> result PortAllocatorConfig.

(** [ParsePortAllocatorConfigFromTemplate], and the same from a map of
    annotations; [None] is a nil configuration. *)
Definition ParsePortAllocatorConfig `{PortConfigCodec} (annotations : labels) : result (option PortAllocatorConfig) :=
  let value := label_of annotations PortAllocatorAnnotationKey in
  if bool_decide (value = ""%string) then Ok None
  else match UnmarshalPortConfig value with
       | Err e => Err ("failed to parse port allocator config: " +:+ e)
       | Ok config => match validatePortAllocatorConfig config with Ok c => Ok (Some c) | Err e => Err e end
       end.

Definition HasPortAllocatorConfig (annotations : labels) : bool :=
  bool_decide (is_Some (annotations !! PortAllocatorAnnotationKey)).

Definition GetPodScopedAllocations (c : option PortAllocatorConfig) : list PortAllocation :=
  match c with
  | None => []
  | Some c => List.filter (fun a => bool_decide (pa_Scope a = PodScoped)) (pac_Allocations c)
  end.

Definition GetRoleScopedAllocations (c : option PortAllocatorConfig) : list PortAllocation :=
  match c with
  | None => []
  | Some c => List.filter (fun a => bool_decide (pa_Scope a = RoleScoped)) (pac_Allocations c)
  end.

(** The parts between dots; a last part that is empty is left out. *)
Definition splitReference (from : string) : list string :=
  let parts := Split from "." in
  match last parts with
  | Some l => if bool_decide (l = ""%string) then removelast parts else parts
  | None => parts
  end.

Definition ParseReference (from : string) : result (string * string * string) :=
  if bool_decide (from = ""%string) then Err "empty reference"
  else match splitReference from with
       | [roleName; componentName; portName] =>
           if bool_decide (roleName = ""%string) || bool_decide (componentName = ""%string)
              || bool_decide (portName = ""%string)
           then Err "invalid reference format, all parts must be non-empty"
           else Ok (roleName, componentName, portName)
       | _ => Err "invalid reference format"
       end.

(** * Drawing ports (random.go, port_allocator.go) *)

(** [rand.Int31n]: a number below the bound, at each position of the source. *)
Class Rand := {
  Int31n : nat -> Z -> Z;
  Int31n_range : forall k n, 0 < n -> 0 <= Int31n k n < n
}.

Record PortAllocator := {
  al_enabled : bool;
  al_startPort : Z;
  al_portRange : Z
}.

Abbreviation R := (ST nat).

Section draw.
Context `{Rand} (alloc : PortAllocator).

Definition next_int (n : Z) : R Z := state (fun k => (Int31n k n, S k)).

Fixpoint draw_port (fuel : nat) (used : gset Z) : R Z :=
  match fuel with
  | O => fail "no unused port drawn"
  | S fuel' =>
      n ← next_int (al_portRange alloc);
      let port := int32 (al_startPort alloc + n) in
      if negb (bool_decide (port ∈ used)) then mret port else draw_port fuel' used
  end.

Fixpoint draw_ports (fuel : nat) (num : nat) (used : gset Z) : R (list Z) :=
  match num with
  | O => mret []
  | S num' =>
      port ← draw_port fuel used;
      l ← draw_ports fuel num' ({[port]} ∪ used);
      mret (port :: l)
  end.

Definition ErrPortAllocatorDisabled : error := "port allocator is not enabled".

(** [RandomAllocator.AllocateBatch] behind the switch of the package. *)
Definition AllocateBatch (fuel : nat) (num : Z) : R (list Z) :=
  if negb (al_enabled alloc) then fail ErrPortAllocatorDisabled
  else if num <=? 0 then mret []
  else if num >? al_portRange alloc then fail "requested more ports than available in range"
  else draw_ports fuel (Z.to_nat num) ∅.

(** * Keys and annotations (manager.go) *)

Definition FormatPodScopedPortKey (podName portName : string) : string := podName +:+ "." +:+ portName.
Definition FormatRoleScopedPortKey (componentName portName : string) : string := componentName +:+ "." +:+ portName.

(** The entries of the allocations, in order; the last one of a key wins. *)
Definition port_entries (key : string -> string) (allocs : list PortAllocation) (ports : list Z) : labels :=
  fold_left (fun m '(a, port) => <[key (pa_Name a) := Itoa port]> m) (combine allocs ports) ∅.

Definition allocate_scoped (fuel : nat) (key : string -> string) (allocs : list PortAllocation) : R labels :=
  match allocs with
  | [] => mret ∅
  | _ => ports ← AllocateBatch fuel (Z.of_nat (length allocs)); mret (port_entries key allocs ports)
  end.

Definition AllocateRoleScopedPorts (fuel : nat) (config : option PortAllocatorConfig) (componentName : string) : R labels :=
  allocate_scoped fuel (FormatRoleScopedPortKey componentName) (GetRoleScopedAllocations config).

Definition AllocatePodScopedPorts (fuel : nat) (config : option PortAllocatorConfig) (podName : string) : R labels :=
  allocate_scoped fuel (FormatPodScopedPortKey podName) (GetPodScopedAllocations config).

Definition CollectRoleScopedPortsFromInstanceSet (annotations : labels) (componentName : string)
    (config : option PortAllocatorConfig) : labels :=
  fold_left (fun m a =>
    let key := FormatRoleScopedPortKey componentName (pa_Name a) in
    match annotations !! key with Some port => <[key := port]> m | None => m end)
    (GetRoleScopedAllocations config) ∅.

Definition CollectAllPortsForInstance (annotations : labels) (componentName : string)
    (config : option PortAllocatorConfig) : labels :=
  CollectRoleScopedPortsFromInstanceSet annotations componentName config.

(** The ports of the pods of one component, added to the annotations; a batch that
    fails is skipped. *)
Fixpoint allocate_pods (fuel : nat) (config : option PortAllocatorConfig) (podName : Z -> string) (ids : list Z)
    (annotations : labels) : R labels :=
  match ids with
  | [] => mret annotations
  | id :: ids' =>
      attempt (AllocatePodScopedPorts fuel config (podName id)) (fun r =>
        match r with
        | Err _ => allocate_pods fuel config podName ids' annotations
        | Ok ports => allocate_pods fuel config podName ids' (ports ∪ annotations)
        end)
  end.

Fixpoint allocate_components `{PortConfigCodec} (fuel : nat) (i : RoleInstance) (setAnnotations : labels)
    (components : list RoleInstanceComponent) (annotations : labels) : R labels :=
  match components with
  | [] => mret annotations
  | c :: components' =>
      let tmpl := tmpl_Annotations (ric_Template c) in
      if negb (HasPortAllocatorConfig tmpl) then allocate_components fuel i setAnnotations components' annotations
      else match ParsePortAllocatorConfig tmpl with
           | Err _ => allocate_components fuel i setAnnotations components' annotations
           | Ok config =>
               let annotations := CollectRoleScopedPortsFromInstanceSet setAnnotations (ric_Name c) config ∪ annotations in
               annotations ← allocate_pods fuel config
                 (fun id => FormatComponentPodName (ri_Name i) (ric_Name c) id (GetRoleTemplateType i))
                 (seqZ 0 (GetComponentSize (Some c))) annotations;
               allocate_components fuel i setAnnotations components' annotations
           end
  end.

(** The annotations of the instance afterwards. *)
Definition AllocatePortsForInstance `{PortConfigCodec} (fuel : nat) (i : RoleInstance) (instanceSet : RoleInstanceSet)
    : R labels :=
  allocate_components fuel i (om_Annotations (rs_meta instanceSet)) (ris_Components (ri_spec i))
    (om_Annotations (ri_meta i)).
End draw.

(** * Injection *)

(** [strconv.ParseUint(portValue, 10, 16)] of a port that is not 0. *)
Definition parse_port (portValue : string) : option Z :=
  match parse_udec (chars portValue) with
  | Some v => if (0 <? v) && (v <=? 65535) then Some v else None
  | None => None
  end.

Definition pod_annotate (key value : string) (p : Pod) : Pod :=
  pod_with_meta (with_annotations (<[key := value]> (om_Annotations (pod_meta p))) (pod_meta p)) p.

Definition inject_allocation (annotations : labels) (componentName : string) (p : Pod) (alloc : PortAllocation)
    : result Pod :=
  let key := if bool_decide (pa_Scope alloc = PodScoped) then FormatPodScopedPortKey (pod_Name p) (pa_Name alloc)
             else FormatRoleScopedPortKey componentName (pa_Name alloc) in
  match annotations !! key with
  | None => Err ("port not found for allocation " +:+ pa_Name alloc)
  | Some portValue =>
      match parse_port portValue with
      | None => Err ("invalid port value for allocation " +:+ pa_Name alloc)
      | Some port =>
          match injectContainerPort p port (pa_Protocol alloc) with
          | Err e => Err ("failed to inject port: " +:+ e)
          | Ok p =>
              let p := injectEnvVar p (pa_Env alloc) portValue in
              Ok (if bool_decide (pa_AnnotationKey alloc = ""%string) then p
                  else pod_annotate (pa_AnnotationKey alloc) portValue p)
          end
      end
  end.

Fixpoint inject_all {A} (f : Pod -> A -> result Pod) (l : list A) (p : Pod) : result Pod :=
  match l with
  | [] => Ok p
  | x :: l' => match f p x with Err e => Err e | Ok p => inject_all f l' p end
  end.

(** The first pod of the component. *)
Definition GetReferencePodName (i : RoleInstance) (componentName : string) : string :=
  FormatComponentPodName (ri_Name i) componentName 0 (GetRoleTemplateType i).

Definition inject_reference (i : RoleInstance) (p : Pod) (ref : PortReference) : result Pod :=
  match ParseReference (pr_From ref) with
  | Err e => Err ("invalid reference: " +:+ e)
  | Ok (_, refComponentName, portName) =>
      let refPodName := GetReferencePodName i refComponentName in
      if bool_decide (refPodName = ""%string) then Err "cannot determine pod name for reference"
      else match om_Annotations (ri_meta i) !! FormatPodScopedPortKey refPodName portName with
           | None => Err ("referenced port not found: " +:+ pr_From ref)
           | Some portValue => Ok (injectEnvVar p (pr_Env ref) portValue)
           end
  end.

Definition InjectPortsIntoPod (p : Pod) (i : RoleInstance) (config : option PortAllocatorConfig) (componentName : string)
    : result Pod :=
  match config with
  | None => Ok p
  | Some config =>
      let annotations := om_Annotations (ri_meta i) in
      if bool_decide (annotations = ∅) then Ok p
      else match inject_all (inject_allocation annotations componentName) (pac_Allocations config) p with
           | Err e => Err e
           | Ok p => inject_all (inject_reference i) (pac_References config) p
           end
  end.

(** * Component discovery *)

Record ComponentAddressRef := { ar_Env : string; ar_Component : string; ar_Index : Z }.
Record ComponentPortRef := { cpr_Env : string; cpr_Component : string; cpr_PortName : string; cpr_Index : Z }.
Record ComponentDiscoveryConfig := { AddressRefs : list ComponentAddressRef; PortRefs : list ComponentPortRef }.

Class DiscoveryCodec := UnmarshalDiscovery : string -> result ComponentDiscoveryConfig.

Definition HasComponentDiscoveryConfig (t : PodTemplateSpec) : bool :=
  bool_decide (is_Some (tmpl_Annotations t !! ComponentDiscoveryAnnotationKey)).

Definition discovery_pod (i : RoleInstance) (component : string) (index : Z) : string :=
  ri_Name i +:+ "-" +:+ component +:+ "-" +:+ Itoa index.

Definition service_names (i : RoleInstance) : gmap string string :=
  fold_left (fun m c => <[ric_Name c := ric_ServiceName c]> m) (ris_Components (ri_spec i)) ∅.

Definition inject_address (i : RoleInstance) (p : Pod) (ref : ComponentAddressRef) : result Pod :=
  match service_names i !! ar_Component ref with
  | None => Err "component-discovery addressRef references unknown component"
  | Some svcName =>
      Ok (injectEnvVar p (ar_Env ref)
            (discovery_pod i (ar_Component ref) (ar_Index ref) +:+ "." +:+ svcName +:+ "."
             +:+ om_Namespace (ri_meta i) +:+ ".svc.cluster.local"))
  end.

Definition resolvePortRef (ref : ComponentPortRef) (i : RoleInstance) : result string :=
  let annotations := om_Annotations (ri_meta i) in
  if bool_decide (annotations = ∅) then Err "component-discovery portRef: instance has no annotations"
  else
    match annotations !! (discovery_pod i (cpr_Component ref) (cpr_Index ref) +:+ "." +:+ cpr_PortName ref) with
    | Some v => Ok v
    | None =>
        match annotations !! (cpr_Component ref +:+ "." +:+ cpr_PortName ref) with
        | Some v => Ok v
        | None => Err "component-discovery portRef: port not found in instance annotations"
        end
    end.

Definition inject_port_ref (i : RoleInstance) (p : Pod) (ref : ComponentPortRef) : result Pod :=
  match resolvePortRef ref i with Err e => Err e | Ok v => Ok (injectEnvVar p (cpr_Env ref) v) end.

Definition InjectComponentDiscovery `{DiscoveryCodec} (p : Pod) (i : RoleInstance) : result Pod :=
  match om_Annotations (pod_meta p) !! ComponentDiscoveryAnnotationKey with
  | None => Ok p
  | Some annotationValue =>
      match UnmarshalDiscovery annotationValue with
      | Err e => Err ("invalid component-discovery annotation JSON: " +:+ e)
      | Ok cfg =>
          match inject_all (inject_address i) (AddressRefs cfg) p with
          | Err e => Err e
          | Ok p =>
              match inject_all (inject_port_ref i) (PortRefs cfg) p with
              | Err e => Err e
              | Ok p => Ok (pod_with_meta (with_annotations
                  (delete ComponentDiscoveryAnnotationKey (om_Annotations (pod_meta p))) (pod_meta p)) p)
              end
          end
      end
  end.

(** * What is drawn *)

Section drawn.
Context `{Rand} (alloc : PortAllocator).

(** Whatever the position, every number of the range comes up within [fuel] draws. *)
Definition fair (fuel : nat) : Prop :=
  forall k v, 0 <= v < al_portRange alloc -> exists j, (j < fuel)%nat /\ Int31n (k + j) (al_portRange alloc) = v.

Definition port_range : Prop :=
  0 < al_startPort alloc /\ 0 < al_portRange alloc /\ al_startPort alloc + al_portRange alloc <= 65536.

Definition in_range (port : Z) : Prop := al_startPort alloc <= port < al_startPort alloc + al_portRange alloc.

Lemma drawn_in_range k : port_range -> in_range (int32 (al_startPort alloc + Int31n k (al_portRange alloc))).
Proof.
  intros (Hs & Hr & He). pose proof (Int31n_range k (al_portRange alloc) Hr). unfold in_range.
  rewrite int32_id by (unfold_int; lia). lia.
Qed.

Lemma draw_port_spec fuel used k v :
  port_range -> 0 <= v < al_portRange alloc -> al_startPort alloc + v ∉ used ->
  (exists j, (j < fuel)%nat /\ Int31n (k + j) (al_portRange alloc) = v) ->
  exists port k', draw_port alloc fuel used k = (Ok port, k') /\ in_range port /\ port ∉ used.
Proof.
  intros Hp Hv Hfree. revert k. induction fuel as [|fuel IH]; intros k (j & Hj & Hd); [lia|].
  cbn [draw_port]. unfold next_int, state, mbind, ST_bind.
  pose proof (drawn_in_range k Hp) as Hin.
  case_bool_decide as Hu; cbn [negb]; [|by eauto].
  apply IH. destruct j as [|j].
  - rewrite Nat.add_0_r in Hd. rewrite Hd in Hu. destruct Hp as (? & ? & ?).
    rewrite int32_id in Hu by (unfold_int; lia). done.
  - exists j. split; [lia|]. by rewrite Nat.add_succ_comm.
Qed.

Lemma free_port (used : gset Z) :
  port_range -> Z.of_nat (size used) < al_portRange alloc ->
  exists v, 0 <= v < al_portRange alloc /\ al_startPort alloc + v ∉ used.
Proof.
  intros (Hs & Hr & He) Hsize.
  set (all := list_to_set (map (Z.add (al_startPort alloc)) (seqZ 0 (al_portRange alloc))) : gset Z).
  destruct (decide (all ⊆ used)) as [Hsub|Hn].
  - apply subseteq_size in Hsub. unfold all in Hsub.
    rewrite size_list_to_set in Hsub by (apply NoDup_fmap_2; [intros ???; lia|apply NoDup_seqZ]).
    rewrite length_map, length_seqZ in Hsub. lia.
  - destruct (decide (Exists (fun x => al_startPort alloc + x ∉ used) (seqZ 0 (al_portRange alloc)))) as [He'|He'].
    + apply Exists_exists in He' as (v & Hv & Hf). exists v. split; [by apply elem_of_seqZ in Hv; lia|done].
    + exfalso. apply Hn. intros x Hx. unfold all in Hx.
      apply elem_of_list_to_set, list_elem_of_fmap in Hx as (v & -> & Hv).
      destruct (decide (al_startPort alloc + v ∈ used)); [done|]. exfalso. apply He', Exists_exists. eauto.
Qed.

Lemma draw_ports_spec fuel num used k :
  port_range -> fair fuel -> Z.of_nat (size used) + Z.of_nat num <= al_portRange alloc ->
  exists ports k', draw_ports alloc fuel num used k = (Ok ports, k') /\ length ports = num /\ NoDup ports /\
    forall p, p ∈ ports -> in_range p /\ p ∉ used.
Proof.
  intros Hp Hf. revert used k. induction num as [|num IH]; intros used k Hsize; cbn [draw_ports].
  { exists [], k. split; [done|]. split; [done|]. split; [constructor|]. by intros p ?%elem_of_nil. }
  destruct (free_port used Hp ltac:(lia)) as (v & Hv & Hfree).
  destruct (draw_port_spec fuel used k v Hp Hv Hfree (Hf k v Hv)) as (port & k1 & Hd & Hin & Hnu).
  destruct (IH ({[port]} ∪ used) k1) as (ports & k2 & Hds & Hlen & Hnd & Hall).
  { rewrite size_union, size_singleton by set_solver. lia. }
  exists (port :: ports), k2. unfold mbind, ST_bind. rewrite Hd, Hds. split; [done|]. split; [by cbn; rewrite Hlen|].
  split; [constructor; [intros Hi%Hall; set_solver|done]|].
  intros p [->|Hi]%elem_of_cons; [done|]. destruct (Hall p Hi). split; [done|set_solver].
Qed.
End drawn.

(** A batch of ports is drawn whenever the range has that many, in bounded time
    from a source that comes round to every port: as many ports as asked, all
    distinct and all in the configured range. *)
Theorem AllocateBatch_total `{Rand} alloc fuel num k :
  port_range alloc -> fair alloc fuel -> al_enabled alloc = true -> 0 <= num <= al_portRange alloc ->
  exists ports k', AllocateBatch alloc fuel num k = (Ok ports, k') /\
    Z.of_nat (length ports) = num /\ NoDup ports /\ forall p, p ∈ ports -> in_range alloc p.
Proof.
  intros Hp Hf He Hn. unfold AllocateBatch. rewrite He. cbn [negb].
  destruct (Z.leb_spec num 0).
  - exists [], k. split; [done|]. split; [cbn; lia|]. split; [constructor|]. by intros p ?%elem_of_nil.
  - rewrite Z.gtb_ltb, (proj2 (Z.ltb_ge _ _)) by lia.
    destruct (draw_ports_spec alloc fuel (Z.to_nat num) ∅ k Hp Hf) as (ports & k' & Hd & Hlen & Hnd & Hall).
    { rewrite size_empty. lia. }
    exists ports, k'. split; [done|]. split; [lia|]. split; [done|]. intros p Hi. by apply Hall.
Qed.

(** A source that goes round. *)
#[export] Program Instance round_robin : Rand := {| Int31n := fun k n => Z.of_nat k mod n |}.
Next Obligation. intros k n Hn. by apply Z.mod_pos_bound. Qed.

Lemma AllocateBatch_total_witness :
  let alloc := {| al_enabled := true; al_startPort := 30000; al_portRange := 3 |} in
  exists ports k', AllocateBatch alloc 3%nat 2 7%nat = (Ok ports, k') /\
    Z.of_nat (length ports) = 2 /\ NoDup ports /\ forall p, p ∈ ports -> in_range alloc p.
Proof.
  intros alloc. apply (AllocateBatch_total alloc 3%nat 2 7%nat); [|intros k v Hv|done|by split].
  - by repeat split.
  - cbn in Hv |- *. exists (Z.to_nat ((v - Z.of_nat k) mod 3)).
    pose proof (Z.mod_pos_bound (v - Z.of_nat k) 3 ltac:(lia)). split; [lia|].
    rewrite Nat2Z.inj_add, Z2Nat.id by lia. rewrite Z.add_mod_idemp_r by lia.
    replace (Z.of_nat k + (v - Z.of_nat k)) with v by lia. by apply Z.mod_small.
Defined.
