(* ===== verification/InstanceWorld.v ===== *)
(** The RoleInstance controller, the outside world: the requests to the API
    server, the clock, and what the process keeps in memory between two
    reconciles.

    [Env] answers every request as a function of the requests made before it, so
    any behaviour of the API server and of the clock is covered, a stale cache
    included.  The four operations of the vendored history client are requests too.  Events are not modelled. *)
From Stdlib Require Import ZArith Lia Bool Ascii String.
From stdpp Require Import base tactics list strings gmap sets.
From S2P Require Import Prelude Types Expectations Effects Revisions InstancePods NodeBindings.

(** The two readers: the cache of the informers and the API server itself. *)
Inductive reader := Cached | Live.

Inductive api_call :=
| CallGetPod (namespace name : string)
| CallListPods (namespace uid : string)
| CallCreatePod (p : Pod)
| CallDeletePod (p : Pod)
| CallUpdatePod (p : Pod)
| CallUpdatePodStatus (p : Pod)
| CallGetInstance (from : reader) (namespace name : string)
| CallUpdateInstanceStatus (i : RoleInstance)
| CallListRevisions (namespace : string) (selector : labels)
| CallCreateRevision (r : ControllerRevision)
| CallUpdateRevision (r : ControllerRevision) (revision : Z)
| CallDeleteRevision (r : ControllerRevision).

Class Env := {
  env_now : nat -> Z;
  (* whether the controller was given a reader of the API server *)
  env_apiReader : bool;
  env_get_pod : list api_call -> string -> string -> result Pod;
  env_list_pods : list api_call -> string -> string -> result (list Pod);
  env_create_pod : list api_call -> Pod -> result unit;
  env_delete_pod : list api_call -> Pod -> result unit;
  env_update_pod : list api_call -> Pod -> result Pod;
  env_update_pod_status : list api_call -> Pod -> result unit;
  env_get_instance : list api_call -> reader -> string -> string -> result RoleInstance;
  env_update_instance_status : list api_call -> RoleInstance -> result unit;
  env_list_revisions : list api_call -> ObjectMeta -> labels -> result (list ControllerRevision);
  (* the created revision, and the collision count it was created with *)
  env_create_revision : list api_call -> ObjectMeta -> ControllerRevision -> Z -> result ControllerRevision * Z;
  env_update_revision : list api_call -> ControllerRevision -> Z -> result ControllerRevision;
  env_delete_revision : list api_call -> ControllerRevision -> result unit;
  (* the order in which the goroutines of a batch reach the server *)
  env_schedule : list api_call -> list Pod -> list Pod;
  env_schedule_perm : forall t l, env_schedule t l ≡ₚ l
}.

Record world := {
  w_trace : list api_call;
  w_clock : nat;
  w_restarting : gset string;             (* restartingCache *)
  w_bindings : NodeBindingStore;
  w_versions : ResourceVersion.cache;     (* ResourceVersionExpectations *)
  w_equal : list revisionEqualityCacheKey
}.

Definition with_trace (t : list api_call) (w : world) : world := {|
  w_trace := t; w_clock := w_clock w; w_restarting := w_restarting w; w_bindings := w_bindings w;
  w_versions := w_versions w; w_equal := w_equal w |}.
Definition with_clock (c : nat) (w : world) : world := {|
  w_trace := w_trace w; w_clock := c; w_restarting := w_restarting w; w_bindings := w_bindings w;
  w_versions := w_versions w; w_equal := w_equal w |}.
Definition with_restarting (s : gset string) (w : world) : world := {|
  w_trace := w_trace w; w_clock := w_clock w; w_restarting := s; w_bindings := w_bindings w;
  w_versions := w_versions w; w_equal := w_equal w |}.
Definition with_bindings (b : NodeBindingStore) (w : world) : world := {|
  w_trace := w_trace w; w_clock := w_clock w; w_restarting := w_restarting w; w_bindings := b;
  w_versions := w_versions w; w_equal := w_equal w |}.
Definition with_versions (v : ResourceVersion.cache) (w : world) : world := {|
  w_trace := w_trace w; w_clock := w_clock w; w_restarting := w_restarting w; w_bindings := w_bindings w;
  w_versions := v; w_equal := w_equal w |}.
Definition with_equal (e : list revisionEqualityCacheKey) (w : world) : world := {|
  w_trace := w_trace w; w_clock := w_clock w; w_restarting := w_restarting w; w_bindings := w_bindings w;
  w_versions := w_versions w; w_equal := e |}.

Abbreviation M := (ST world).

Section effects.
Context `{Env}.

Definition now : M Z := fun w => (Ok (env_now (w_clock w)), with_clock (S (w_clock w)) w).

Definition call (c : api_call) : M unit := modify (fun w => with_trace (c :: w_trace w) w).

(** A request: recorded, then answered from the requests before it. *)
Definition request {A} (c : api_call) (answer : list api_call -> result A) : M A :=
  t ← gets w_trace; call c ≫= fun _ => lift (answer t).

Definition GetPod (ns name : string) : M Pod := request (CallGetPod ns name) (fun t => env_get_pod t ns name).
Definition ListPods (ns uid : string) : M (list Pod) :=
  request (CallListPods ns uid) (fun t => env_list_pods t ns uid).
Definition CreatePod (p : Pod) : M unit := request (CallCreatePod p) (fun t => env_create_pod t p).
Definition DeletePod (p : Pod) : M unit := request (CallDeletePod p) (fun t => env_delete_pod t p).
Definition UpdatePod (p : Pod) : M Pod := request (CallUpdatePod p) (fun t => env_update_pod t p).
Definition UpdatePodStatus (p : Pod) : M unit :=
  request (CallUpdatePodStatus p) (fun t => env_update_pod_status t p).
Definition GetInstance (from : reader) (ns name : string) : M RoleInstance :=
  request (CallGetInstance from ns name) (fun t => env_get_instance t from ns name).
Definition UpdateInstanceStatus (i : RoleInstance) : M unit :=
  request (CallUpdateInstanceStatus i) (fun t => env_update_instance_status t i).
Definition ListControllerRevisions (parent : ObjectMeta) (selector : labels) : M (list ControllerRevision) :=
  request (CallListRevisions (om_Namespace parent) selector) (fun t => env_list_revisions t parent selector).
(** The collision count is the caller's variable: it keeps what the client left
    there when the creation fails. *)
Definition CreateControllerRevision (parent : ObjectMeta) (r : ControllerRevision) (collisionCount : Z)
    : M (result ControllerRevision * Z) :=
  request (CallCreateRevision r) (fun t => Ok (env_create_revision t parent r collisionCount)).
Definition UpdateControllerRevision (r : ControllerRevision) (revision : Z) : M ControllerRevision :=
  request (CallUpdateRevision r revision) (fun t => env_update_revision t r revision).
Definition DeleteControllerRevision (r : ControllerRevision) : M unit :=
  request (CallDeleteRevision r) (fun t => env_delete_revision t r).

(** [ResourceVersionExpectations.Expect] *)
Definition ExpectVersion (m : ObjectMeta) : M unit :=
  modify (fun w => with_versions (ResourceVersion.Expect m (w_versions w)) w).
Definition ObserveVersion (m : ObjectMeta) : M unit :=
  modify (fun w => with_versions (ResourceVersion.Observe m (w_versions w)) w).
Definition VersionSatisfied (m : ObjectMeta) : M (bool * Z) :=
  now1 ← now; now2 ← now;
  state (fun w => let '(r, v) := ResourceVersion.IsSatisfied m now1 now2 (w_versions w) in (r, with_versions v w)).
End effects.

(** * Requests explained by the requests before them *)

(** Every request made between two states is allowed after those made before it. *)
Definition traced (ok : list api_call -> api_call -> Prop) (w w' : world) : Prop :=
  exists new, w_trace w' = (new ++ w_trace w)%list /\
    forall l1 c l2, new = (l1 ++ c :: l2)%list -> ok (l2 ++ w_trace w)%list c.

Definition traces {A} (ok : list api_call -> api_call -> Prop) (m : M A) : Prop :=
  forall w r w', m w = (r, w') -> traced ok w w'.

Section traced.
Context (ok : list api_call -> api_call -> Prop).

Lemma traced_refl w : traced ok w w.
Proof. exists []. split; [done|]. by intros [] ? ? [=]. Qed.

Lemma traced_trans w w1 w2 : traced ok w w1 -> traced ok w1 w2 -> traced ok w w2.
Proof.
  intros (n1 & Ht1 & Hn1) (n2 & Ht2 & Hn2). exists (n2 ++ n1)%list. split; [by rewrite Ht2, Ht1, app_assoc|].
  intros l1 c l2 Heq. apply app_eq_app in Heq as (l & [[-> Hl]|[Hl Heq]]).
  - destruct l as [|c' l]; [|injection Hl as -> ->].
    + cbn in Hl. apply (Hn1 []). by rewrite Hl.
    + rewrite <-app_assoc, <-Ht1. by apply (Hn2 l1).
  - by eapply Hn1.
Qed.

Lemma traced_only (allowed : api_call -> Prop) w w' :
  (forall t c, allowed c -> ok t c) -> Effects.only w_trace allowed w w' -> traced ok w w'.
Proof. intros Hok (new & Ht & Hn). exists new. split; [done|]. intros l1 c l2 ->. apply Hok, Hn. set_solver. Qed.

Lemma traced_step c w w' : w_trace w' = c :: w_trace w -> ok (w_trace w) c -> traced ok w w'.
Proof.
  intros Ht Hc. exists [c]. split; [done|]. intros [|c' l1] c'' l2 [= <- Heq]; [by subst l2|].
  by destruct l1.
Qed.

Lemma traced_mono (ok' : list api_call -> api_call -> Prop) w w' :
  (forall t c, ok' t c -> ok t c) -> traced ok' w w' -> traced ok w w'.
Proof. intros Hok (new & Ht & Hn). exists new. split; [done|]. eauto. Qed.

Lemma traces_calls {A} (allowed : api_call -> Prop) (m : M A) :
  (forall t c, allowed c -> ok t c) -> Effects.calls w_trace allowed m -> traces ok m.
Proof. intros Hok Hm w r w' Hr. eapply traced_only; [done|by eapply Hm]. Qed.

Lemma traces_ret {A} (a : A) : traces ok (mret a).
Proof. intros w r w' [_ ->]%ret_inv. apply traced_refl. Qed.

Lemma traces_bind {A B} (m : M A) (f : A -> M B) :
  traces ok m -> (forall a w w1, m w = (Ok a, w1) -> traces ok (f a)) -> traces ok (m ≫= f).
Proof.
  intros Hm Hf w r w' [(e & He & ->)|(a & w1 & He & Hr)]%bind_inv; [by eapply Hm|].
  eapply traced_trans; [by eapply Hm|by eapply Hf].
Qed.

Lemma traces_attempt {A B} (m : M A) (k : result A -> M B) :
  traces ok m -> (forall r, traces ok (k r)) -> traces ok (attempt m k).
Proof.
  intros Hm Hk w r w' (x & w1 & Hx & Hr)%attempt_inv. eapply traced_trans; [by eapply Hm|by eapply Hk].
Qed.
End traced.

(** * Quiet steps *)

Abbreviation run := (Effects.run w_trace (fun _ => True)).
Abbreviation silent := (Effects.silent w_trace (fun _ => True)).
Abbreviation only := (Effects.only w_trace).

Lemma clock_inv `{Env} {A} (f : Z -> M A) w r w' :
  (now ≫= f) w = (r, w') -> f (env_now (w_clock w)) (with_clock (S (w_clock w)) w) = (r, w').
Proof. done. Qed.

Lemma request_run `{Env} {A} c (answer : list api_call -> result A) w :
  request c answer w = (answer (w_trace w), with_trace (c :: w_trace w) w).
Proof. done. Qed.

Lemma request_inv `{Env} {A} c (answer : list api_call -> result A) w r w' :
  request c answer w = (r, w') -> r = answer (w_trace w) /\ w' = with_trace (c :: w_trace w) w.
Proof. by intros [= <- <-]. Qed.

Section quiet.
Context `{Env} (P : api_call -> bool).

Lemma silent_set f : (forall w, w_trace (f w) = w_trace w) -> silent P (modify f).
Proof. intros Ht. by apply silent_modify. Qed.

Lemma run_request {A} c (answer : list api_call -> result A) (Q : result A -> Z -> Prop) :
  (forall r, Q r (if P c then 1 else 0)) -> run P (request c answer) Q.
Proof.
  intros HQ w r w' _ [-> ->]%request_inv. split; [done|]. exists [c]. split; [done|].
  cbn [countb]. rewrite Z.add_0_r. apply HQ.
Qed.

Lemma silent_ask {A} c (answer : list api_call -> result A) : P c = false -> silent P (request c answer).
Proof. intros Hc. apply run_request. by rewrite Hc. Qed.

Lemma silent_time : silent P now.
Proof. intros w r w' _ [= <- <-]. split; [done|]. by exists []. Qed.

Lemma silent_VersionSatisfied m : silent P (VersionSatisfied m).
Proof.
  apply silent_bind; [apply silent_time|intros t1]. apply silent_bind; [apply silent_time|intros t2].
  intros w r w' _. unfold state. destruct (ResourceVersion.IsSatisfied m t1 t2 (w_versions w)) as [x v].
  intros [= <- <-]. split; [done|]. by exists [].
Qed.
End quiet.

#[export] Hint Resolve silent_time silent_VersionSatisfied : silent.
#[export] Hint Extern 1 (Effects.silent w_trace _ _ (modify _)) => (apply silent_set; done) : silent.
#[export] Hint Extern 1 (Effects.silent w_trace _ _ (request _ _)) => (apply silent_ask; by auto) : silent.
#[export] Hint Extern 2 (Effects.silent w_trace _ _ _) =>
  (progress unfold GetPod, ListPods, CreatePod, DeletePod, UpdatePod, UpdatePodStatus, GetInstance, UpdateInstanceStatus,
     ListControllerRevisions, CreateControllerRevision, UpdateControllerRevision, DeleteControllerRevision,
     ExpectVersion, ObserveVersion;
   first [apply silent_ask; by auto|apply silent_set; done]) : silent.
