(* ===== verification/InstanceRestarts.v ===== *)
(** The restart policy of a RoleInstance
    (pkg/reconciler/roleinstance/sync/instance_scale.go): when a failed pod makes
    the controller recreate the whole instance, and the exponential backoff
    between two such recreations.

    A function that reads the clock takes the reading as an argument.  Counters
    and delays are int32 and int64 numbers, with the wrap-around of the code. *)
From Stdlib Require Import ZArith Lia Bool Ascii String.
From stdpp Require Import base tactics list strings gmap.
From S2P Require Import Prelude Types InstancePods StatefulUtils.

Definition RecreateRoleInstanceOnPodRestart : string := "RecreateRoleInstanceOnPodRestart".
Definition RestartTriggerPolicyAnnotationKey : string := RBGPrefix +:+ "restart-trigger-policy".
Definition RestartTriggerPolicyIgnore : string := "Ignore".
(** roleinstance_types.go *)
Definition RoleInstanceRestarting : string := "Restarting".

Definition recreate_policy (i : RoleInstance) : bool :=
  bool_decide (GetRestartPolicy (ri_spec i) = RecreateRoleInstanceOnPodRestart).

(** * What counts as a failure *)

Definition containerRestarted (p : Pod) : bool :=
  existsb (fun c => cst_RestartCount c >? 0) (pds_ContainerStatuses (pod_status p)).

Definition isPodInPlaceUpdating (p : Pod) : bool :=
  match GetInPlaceCondition p with Some c => bool_decide (pc_Status c = ConditionFalse) | None => false end.

(** One container, against the baselines of its pod. *)
Definition restart_expected (containerBaselines : gmap string ContainerUpdateBaseline) (cs : ContainerStatus) : bool :=
  if cst_RestartCount cs =? 0 then true
  else match containerBaselines !! cst_Name cs with
       | None => false
       | Some b =>
           if cst_RestartCount cs <? cub_RestartCount b then false
           else
             let allowed := if bool_decide (cst_ImageID cs <> cub_ImageID b) then int32 (cub_RestartCount b + 1)
                            else cub_RestartCount b in
             negb (cst_RestartCount cs >? allowed)
       end.

Definition isContainerRestartExpected (p : Pod) (bs : baselines) : bool :=
  match bs !! pod_Name p with
  | None => false
  | Some containerBaselines => forallb (restart_expected containerBaselines) (pds_ContainerStatuses (pod_status p))
  end.

Definition hasTriggerPolicyIgnore (p : Pod) : bool :=
  bool_decide (label_of (om_Annotations (pod_meta p)) RestartTriggerPolicyAnnotationKey = RestartTriggerPolicyIgnore).

Definition failed (p : Pod) : bool := bool_decide (pod_Phase p = PodFailed) && not_deleting (pod_meta p).

(** The body of the loop over the pods. *)
Definition triggers (bs : baselines) (p : Pod) : bool :=
  if hasTriggerPolicyIgnore p then false
  else if isPodInPlaceUpdating p then false
  else failed p || (containerRestarted p && negb (isContainerRestartExpected p bs)).

(** * When it counts *)

Definition has_condition (i : RoleInstance) (t : string) : bool :=
  existsb (fun c => bool_decide (cond_Type c = t) && bool_decide (cond_Status c = ConditionTrue))
    (rist_Conditions (ri_status i)).

Definition wasInstanceReady (i : RoleInstance) : bool := has_condition i RoleInstanceReady.
Definition isInstanceRestarting (i : RoleInstance) : bool := has_condition i RoleInstanceRestarting.

(** [max(maxDelaySeconds*2, 10min)] as a duration. *)
Definition stableThreshold (maxDelaySeconds : Z) : Z :=
  let threshold := int64 (int64 (maxDelaySeconds * 2) * second) in
  if threshold <? 600 * second then 600 * second else threshold.

Definition hasRecentRestart (i : RoleInstance) (now : Z) : bool :=
  match rist_LastRestartTime (ri_status i) with
  | None => false
  | Some t => time_sub now (Some t) <=? stableThreshold (GetMaxDelaySeconds (ri_spec i))
  end.

Definition updating (i : RoleInstance) : bool :=
  bool_decide (rist_CurrentRevision (ri_status i) <> rist_UpdateRevision (ri_status i)).

Definition spec_changed (i : RoleInstance) : bool :=
  negb (om_Generation (ri_meta i) =? rist_ObservedGeneration (ri_status i)).

Definition shouldRecreateInstance (i : RoleInstance) (pods : list Pod) (bs : baselines) (now : Z) : bool :=
  if negb (recreate_policy i) then false
  else match pods with
       | [] => false
       | _ =>
           if (negb (wasInstanceReady i) && negb (hasRecentRestart i now)) || spec_changed i then false
           else if updating i then false
           else existsb (triggers bs) pods
       end.

(** * The backoff *)

Definition calculateRestartDelay (baseDelaySeconds maxDelaySeconds restartCount : Z) : Z :=
  if (baseDelaySeconds <=? 0) || (restartCount <=? 0) then 0
  else
    let rc := int32 (restartCount - 1) in
    if (rc >=? 62) || (baseDelaySeconds >? int64 (Z.shiftl 1 (62 - rc))) then
      if maxDelaySeconds >? 0 then maxDelaySeconds else int32_max
    else
      let delay := int64 (baseDelaySeconds * int64 (Z.shiftl 1 rc)) in
      if (maxDelaySeconds >? 0) && (delay >? maxDelaySeconds) then maxDelaySeconds
      else if delay >? int32_max then int32_max
      else int32 delay.

(** Restart tracking as the newest reading has it: [fresh], or the instance in
    hand when there is none. *)
Definition tracked (i : RoleInstance) (fresh : option RoleInstance) : RoleInstance := default i fresh.

(** The two readings are those of the two calls of [time.Since]. *)
Definition checkRestartBackoff (i : RoleInstance) (fresh : option RoleInstance) (pods inactivePods : list Pod)
    (now1 now2 : Z) : Z :=
  if negb (recreate_policy i) then 0
  else
    let allPods := (pods ++ inactivePods)%list in
    let applies :=
      shouldRecreateInstance i allPods (rist_Baselines (ri_status i)) now1
      || (negb (spec_changed i || updating i) && existsb failed allPods) in
    if negb applies then 0
    else
      let t := ri_status (tracked i fresh) in
      if isInstanceRestarting (tracked i fresh) then 0
      else
        let baseDelay := GetBaseDelaySeconds (ri_spec i) in
        let maxDelay := GetMaxDelaySeconds (ri_spec i) in
        if (baseDelay =? 0) && (maxDelay =? 0) then 0
        else match rist_LastRestartTime t with
             | None => 0
             | Some lastRestartTime =>
                 let delay := calculateRestartDelay baseDelay maxDelay (rist_RestartCount t) in
                 if delay =? 0 then 0
                 else
                   let remaining := int64 (int64 (delay * second) - time_sub now2 (Some lastRestartTime)) in
                   if remaining >? 0 then remaining else 0
             end.

(** * What a recreation records *)

Definition with_status (st : RoleInstanceStatus) (i : RoleInstance) : RoleInstance :=
  {| ri_meta := ri_meta i; ri_spec := ri_spec i; ri_status := st |}.

Definition with_restarts (count : Z) (last : option Z) (st : RoleInstanceStatus) : RoleInstanceStatus := {|
  rist_ObservedGeneration := rist_ObservedGeneration st; rist_Conditions := rist_Conditions st;
  rist_ComponentStatuses := rist_ComponentStatuses st; rist_LabelSelector := rist_LabelSelector st;
  rist_CurrentRevision := rist_CurrentRevision st; rist_UpdateRevision := rist_UpdateRevision st;
  rist_CollisionCount := rist_CollisionCount st; rist_Baselines := rist_Baselines st;
  rist_RestartCount := count; rist_LastRestartTime := last |}.

Definition status_with_conditions (cs : list RoleInstanceCondition) (st : RoleInstanceStatus) : RoleInstanceStatus := {|
  rist_ObservedGeneration := rist_ObservedGeneration st; rist_Conditions := cs;
  rist_ComponentStatuses := rist_ComponentStatuses st; rist_LabelSelector := rist_LabelSelector st;
  rist_CurrentRevision := rist_CurrentRevision st; rist_UpdateRevision := rist_UpdateRevision st;
  rist_CollisionCount := rist_CollisionCount st; rist_Baselines := rist_Baselines st;
  rist_RestartCount := rist_RestartCount st; rist_LastRestartTime := rist_LastRestartTime st |}.

(** The pair of the fresher of the two; with the same time, the larger count. *)
Definition adopt_tracking (i fresh : RoleInstance) : RoleInstance :=
  let old := ri_status i in
  let new := ri_status fresh in
  let newer := match rist_LastRestartTime new, rist_LastRestartTime old with
               | None, _ => false
               | Some _, None => true
               | Some t, Some t' => t >? t'
               end in
  if newer then with_status (with_restarts (rist_RestartCount new) (rist_LastRestartTime new) old) i
  else if rist_RestartCount new >? rist_RestartCount old then
    with_status (with_restarts (rist_RestartCount new) (rist_LastRestartTime old) old) i
  else i.

Definition restarting_condition (now : Z) : RoleInstanceCondition := {|
  cond_Type := RoleInstanceRestarting; cond_Status := ConditionTrue; cond_LastTransitionTime := Some now;
  cond_Reason := "RestartPolicyTriggered"; cond_Message := "Instance is being recreated due to restart policy" |}.

(** The first such condition is overwritten, all fields but the type. *)
Fixpoint set_restarting (now : Z) (cs : list RoleInstanceCondition) : list RoleInstanceCondition :=
  match cs with
  | [] => [restarting_condition now]
  | c :: cs' => if bool_decide (cond_Type c = RoleInstanceRestarting) then restarting_condition now :: cs'
                else c :: set_restarting now cs'
  end.

Definition setRestartingCondition (i : RoleInstance) (now : Z) : RoleInstance :=
  with_status (status_with_conditions (set_restarting now (rist_Conditions (ri_status i))) (ri_status i)) i.

Definition updateRestartTracking (i : RoleInstance) (now1 now2 : Z) : RoleInstance :=
  let st := ri_status i in
  let count :=
    match rist_LastRestartTime st with
    | Some t => if time_sub now1 (Some t) >? stableThreshold (GetMaxDelaySeconds (ri_spec i)) then 0
                else rist_RestartCount st
    | None => rist_RestartCount st
    end in
  with_status (with_restarts (int32 (count + 1)) (Some now2) st) i.

Definition instanceKey (i : RoleInstance) : string := om_Namespace (ri_meta i) +:+ "/" +:+ ri_Name i.

(** * The delay *)

Lemma shiftl_1 n : 0 <= n -> Z.shiftl 1 n = 2 ^ n.
Proof. intros. by rewrite Z.shiftl_mul_pow2, Z.mul_1_l. Qed.

Lemma pow2_int64 n : 0 <= n <= 62 -> int64 (2 ^ n) = 2 ^ n.
Proof.
  intros Hn. apply int64_id. unfold_int. pose proof (Z.pow_pos_nonneg 2 n ltac:(lia) ltac:(lia)).
  pose proof (Z.pow_le_mono_r 2 n 62 ltac:(lia) ltac:(lia)). lia.
Qed.

Lemma calculateRestartDelay_eq base maxd count :
  is_int32 base -> is_int32 maxd -> is_int32 count -> 0 < base -> 0 < count ->
  calculateRestartDelay base maxd count
  = Z.min (base * 2 ^ (count - 1)) (if 0 <? maxd then maxd else int32_max).
Proof.
  unfold is_int32. unfold int32_min, int32_max. intros Hb Hm Hc Hb0 Hc0. unfold calculateRestartDelay.
  rewrite (proj2 (Z.leb_gt base 0)), (proj2 (Z.leb_gt count 0)) by lia. cbn [orb].
  rewrite (int32_id (count - 1)) by (unfold_int; lia). set (rc := count - 1).
  rewrite !Z.gtb_ltb, Z.geb_leb. unfold int32_max.
  destruct (Z.leb_spec 62 rc) as [Hrc|Hrc]; cbn [orb].
  - pose proof (Z.pow_le_mono_r 2 62 rc ltac:(lia) ltac:(lia)).
    assert (2 ^ 62 <= base * 2 ^ rc) by nia. destruct (Z.ltb_spec 0 maxd); lia.
  - rewrite !shiftl_1, !pow2_int64 by lia. destruct (Z.ltb_spec (2 ^ (62 - rc)) base) as [Ho|Ho].
    + assert (2 ^ 62 <= base * 2 ^ rc).
      { replace 62 with ((62 - rc) + rc) at 1 by lia. rewrite Z.pow_add_r by lia.
        apply Z.mul_le_mono_nonneg_r; [apply Z.pow_nonneg; lia|lia]. }
      destruct (Z.ltb_spec 0 maxd); lia.
    + assert (0 < base * 2 ^ rc <= 2 ^ 62).
      { split; [apply Z.mul_pos_pos; [lia|apply Z.pow_pos_nonneg; lia]|].
        replace 62 with ((62 - rc) + rc) by lia. rewrite Z.pow_add_r by lia.
        apply Z.mul_le_mono_nonneg_r; [apply Z.pow_nonneg; lia|lia]. }
      rewrite (int64_id (base * 2 ^ rc)) by (unfold_int; lia).
      destruct (Z.ltb_spec 0 maxd); cbn [andb].
      * destruct (Z.ltb_spec maxd (base * 2 ^ rc)); [lia|]. rewrite (proj2 (Z.ltb_ge _ _)) by lia.
        rewrite int32_id by (unfold_int; lia). lia.
      * destruct (Z.ltb_spec 2147483647 (base * 2 ^ rc)); [lia|]. rewrite int32_id by (unfold_int; lia). lia.
Qed.

(** C38: The delay, exactly, for every int32 base, maximum and restart count: none
    when the base or the count is not positive, and the exponential backoff
    [min(base * 2^(count-1), max)] otherwise, however large the count; a maximum
    that is not positive stands for the largest int32. *)
Theorem calculateRestartDelay_exact base maxd count :
  is_int32 base -> is_int32 maxd -> is_int32 count ->
  calculateRestartDelay base maxd count
  = if (base <=? 0) || (count <=? 0) then 0
    else Z.min (base * 2 ^ (count - 1)) (if 0 <? maxd then maxd else int32_max).
Proof.
  intros Hb Hm Hc. destruct (_ || _) eqn:E.
  - unfold calculateRestartDelay. by rewrite E.
  - apply orb_false_elim in E as [?%Z.leb_gt ?%Z.leb_gt]. by apply calculateRestartDelay_eq.
Qed.

Lemma calculateRestartDelay_exact_witness :
  calculateRestartDelay 30 600 3 = 120 /\ calculateRestartDelay 30 600 70 = 600 /\
  calculateRestartDelay (-1) 600 1 = 0.
Proof.
  split; [rewrite (calculateRestartDelay_exact 30 600 3)
         |split; [rewrite (calculateRestartDelay_exact 30 600 70)|rewrite (calculateRestartDelay_exact (-1) 600 1)]];
    (unfold is_int32; unfold_int; lia || reflexivity).
Defined.

(** * The backoff window *)

Lemma adopt_tracking_spec i fresh :
  ri_spec (adopt_tracking i fresh) = ri_spec i /\ ri_meta (adopt_tracking i fresh) = ri_meta i /\
  rist_ObservedGeneration (ri_status (adopt_tracking i fresh)) = rist_ObservedGeneration (ri_status i) /\
  rist_CurrentRevision (ri_status (adopt_tracking i fresh)) = rist_CurrentRevision (ri_status i) /\
  rist_UpdateRevision (ri_status (adopt_tracking i fresh)) = rist_UpdateRevision (ri_status i).
Proof. unfold adopt_tracking. by repeat case_match. Qed.

(** An instance whose controller keeps its own failed pods apart. *)
Record crashed (i : RoleInstance) (pods : list Pod) : Prop := {
  crashed_policy : recreate_policy i = true;
  crashed_spec : spec_changed i = false;
  crashed_update : updating i = false;
  crashed_pod : existsb failed pods = true
}.

Definition backoff_of (i : RoleInstance) (count : Z) : Z :=
  calculateRestartDelay (GetBaseDelaySeconds (ri_spec i)) (GetMaxDelaySeconds (ri_spec i)) count.

(** Inside the window what is left of it is waited for. *)
Lemma checkRestartBackoff_waits i fresh pods inactivePods last t1 t2 :
  crashed i (pods ++ inactivePods) -> isInstanceRestarting fresh = false ->
  rist_LastRestartTime (ri_status fresh) = Some last ->
  let delay := backoff_of i (rist_RestartCount (ri_status fresh)) in
  is_int32 delay -> 0 <= t2 - last < delay * second ->
  checkRestartBackoff (adopt_tracking i fresh) (Some fresh) pods inactivePods t1 t2 = delay * second - (t2 - last).
Proof.
  intros [Hp Hsc Hu Hf] Hr Hl delay Hd Hw. destruct (adopt_tracking_spec i fresh) as (Es & Em & Eg & Ec & Eu).
  unfold checkRestartBackoff, recreate_policy, spec_changed, updating in *. rewrite Es, Em, Eg, Ec, Eu, Hp. cbn [negb].
  rewrite Hsc, Hu, Hf. cbn [negb orb andb]. rewrite orb_true_r. cbn [negb].
  change (tracked _ (Some fresh)) with fresh. rewrite Hr, Hl.
  fold (backoff_of i (rist_RestartCount (ri_status fresh))). fold delay.
  assert (0 < delay) by (unfold second in *; lia).
  destruct ((GetBaseDelaySeconds (ri_spec i) =? 0) && (GetMaxDelaySeconds (ri_spec i) =? 0)) eqn:Hz.
  { exfalso. apply andb_prop in Hz as [Hb%Z.eqb_eq _]. revert H. unfold delay, backoff_of, calculateRestartDelay.
    rewrite Hb. cbn. lia. }
  rewrite (proj2 (Z.eqb_neq delay 0)) by lia. unfold time_sub. unfold is_int32 in Hd.
  rewrite (int64_id (delay * second)) by (unfold_int; unfold second, int32_min, int32_max in *; lia).
  rewrite int64_id by (unfold_int; unfold second, int32_min, int32_max in *; lia).
  rewrite Z.gtb_ltb, (proj2 (Z.ltb_lt _ _)) by lia. done.
Qed.
