(* ===== verification/PodInPlace.v ===== *)
(** Pods that are updated in place: the conditions of a pod
    (pkg/inplace/pod/util.go), the not-ready keys (readiness/), the lifecycle of
    the pods of an instance (roleinstance/lifecycle), the in-place update of a pod
    (inplaceupdate/) and what the RoleInstance controller makes of it
    (roleinstance/inplaceupdate).

    The JSON texts the code reads and writes, the JSON patch between two revisions
    and the strategic merge of pods are the class [InPlaceCodec]. *)
From Stdlib Require Import ZArith Lia Bool Ascii String.
From stdpp Require Import base tactics list strings gmap sets.
From S2P Require Import Prelude GoStrings Types Effects Revisions InstancePods StatefulUtils InstanceWorld.

Definition InPlaceUpdateStateKey : string := RBGPrefix +:+ "inplace-update-state".
Definition InPlaceUpdateGraceKey : string := RBGPrefix +:+ "inplace-update-grace".
Definition RuntimeContainerMetaKey : string := "workloads.x-k8s.io/runtime-containers-meta".

(** * The values kept as text *)

Record Message := { msg_UserAgent : string; msg_Key : string }.

#[export] Instance Message_eq_dec : EqDecision Message.
Proof. solve_decision. Defined.

(** [MetaDataPatch] is [None] when it is nil. *)
Record UpdateSpec := {
  us_Revision : string;
  us_ContainerImages : gmap string string;
  us_MetaDataPatch : option string;
  us_GraceSeconds : Z
}.

(** The old image of every updated container. *)
Record InPlaceUpdateState := {
  ups_Revision : string;
  ups_UpdateTimestamp : gotime;
  ups_LastContainerStatuses : gmap string string
}.

Record RuntimeContainerMeta := {
  rcm_Name : string;
  rcm_ContainerID : string;
  rcm_PlainHash : Z
}.

(** An operation of a JSON patch; the value of a replaced image is a text. *)
Record JsonPatchOperation := {
  jp_Operation : string;
  jp_Path : string;
  jp_Value : string
}.

(** A component of a revision: the revision of its pod template alone, and the
    service name among its other fields. *)
Record componentRevision := {
  cr_podTemplateRevision : ControllerRevision;
  cr_serviceName : option string
}.

Class InPlaceCodec := {
  load_messages : string -> list Message;
  dump_messages : list Message -> string;
  load_spec : string -> result UpdateSpec;
  dump_spec : UpdateSpec -> string;
  load_state : string -> result InPlaceUpdateState;
  dump_state : InPlaceUpdateState -> string;
  load_runtime : string -> result (list RuntimeContainerMeta);
  HashContainer : Container -> Z;
  CreatePatch : string -> string -> result (list JsonPatchOperation);
  template_of : ControllerRevision -> result PodTemplateSpec;
  (* the merge patch between two pods that have only the metadata of a template *)
  metadata_patch : PodTemplateSpec -> PodTemplateSpec -> result string;
  merge_pod : Pod -> string -> result Pod;
  (* spec.components of a revision, by name *)
  split_revision : ControllerRevision -> result (gmap string componentRevision)
}.

(** * Conditions (pkg/inplace/pod/util.go) *)

(** The first condition of the type is replaced when its status differs. *)
Fixpoint set_pod_condition (c : PodCondition) (cs : list PodCondition) : list PodCondition :=
  match cs with
  | [] => [c]
  | c' :: cs' =>
      if bool_decide (pc_Type c' = pc_Type c) then
        (if bool_decide (pc_Status c' <> pc_Status c) then c else c') :: cs'
      else c' :: set_pod_condition c cs'
  end.

Definition SetPodCondition (c : PodCondition) (p : Pod) : Pod :=
  pod_with_conditions (set_pod_condition c (pds_Conditions (pod_status p))) p.

Definition unready_message (p : Pod) (gate : string) : option string :=
  match GetPodCondition p gate with
  | None => Some ("corresponding condition of pod readiness gate " +:+ quoted gate +:+ " does not exist.")
  | Some c =>
      if bool_decide (pc_Status c <> ConditionTrue) then
        Some ("the status of pod readiness gate " +:+ quoted gate +:+ " is not " +:+ quoted "True"
              +:+ ", but " +:+ pc_Status c)
      else None
  end.

Definition UpdatePodReadyCondition (now : Z) (p : Pod) : Pod :=
  match GetPodCondition p PodReady with
  | None => p
  | Some _ =>
      if negb (pod_condition_true (GetPodCondition p ContainersReady)) then p
      else
        SetPodCondition
          match omap (unready_message p) (ps_ReadinessGates (pod_spec p)) with
          | [] => {| pc_Type := PodReady; pc_Status := ConditionTrue; pc_LastTransitionTime := Some now;
                     pc_Reason := ""; pc_Message := "" |}
          | unreadyMessages =>
              {| pc_Type := PodReady; pc_Status := ConditionFalse; pc_LastTransitionTime := Some now;
                 pc_Reason := "ReadinessGatesNotReady"; pc_Message := Join unreadyMessages ", " |}
          end p
  end.

Definition RoundupSeconds (d : Z) : Z :=
  if Z.rem d second =? 0 then d else int64 (int64 (Z.quot d second + 1) * second).

(** * Not-ready keys (readiness/) *)

Definition Less (x y : Message) : bool :=
  if bool_decide (msg_UserAgent x = msg_UserAgent y) then String.ltb (msg_Key x) (msg_Key y)
  else String.ltb (msg_UserAgent x) (msg_UserAgent y).

Definition has_key (messages : list Message) (msg : Message) : bool :=
  existsb (fun m => bool_decide (m = msg)) messages.

(** [*condition = ...] through the pointer into the conditions. *)
Fixpoint write_pod_condition (t : string) (f : PodCondition -> PodCondition) (cs : list PodCondition)
    : list PodCondition :=
  match cs with
  | [] => []
  | c :: cs' => if bool_decide (pc_Type c = t) then f c :: cs' else c :: write_pod_condition t f cs'
  end.

Definition keyed (status message : string) (t : Z) (c : PodCondition) : PodCondition := {|
  pc_Type := pc_Type c; pc_Status := status; pc_LastTransitionTime := Some t; pc_Reason := pc_Reason c;
  pc_Message := message |}.

Section readiness.
Context `{InPlaceCodec, SortSlice}.

Definition dump (messages : list Message) : string := dump_messages (sort_slice Less messages).

(** The messages an earlier [dump] left; none in an empty text. *)
Definition messages_of (base : string) : list Message :=
  if bool_decide (base = ""%string) then [] else load_messages base.

Definition addMessage (base : string) (msg : Message) : bool * list Message :=
  let messages := messages_of base in
  if has_key messages msg then (false, messages) else (true, (messages ++ [msg])%list).

Definition removeMessage (base : string) (msg : Message) : bool * list Message :=
  let messages := messages_of base in
  (has_key messages msg, List.filter (fun m => negb (bool_decide (m = msg))) messages).

Definition alreadyHasKey (p : Pod) (msg : Message) (condType : string) : bool :=
  match GetPodCondition p condType with
  | None => false
  | Some c =>
      if bool_decide (pc_Status c = ConditionTrue) || bool_decide (pc_Message c = ""%string) then false
      else has_key (load_messages (pc_Message c)) msg
  end.

(** What [addNotReadyKey] writes over the pod it read; [None]: nothing. *)
Definition add_key (msg : Message) (condType : string) (t : Z) (p : Pod) : option Pod :=
  match GetPodCondition p condType with
  | None =>
      Some (pod_with_conditions (pds_Conditions (pod_status p) ++ [{|
        pc_Type := condType; pc_Status := ConditionFalse; pc_LastTransitionTime := Some t; pc_Reason := "";
        pc_Message := dump (addMessage "" msg).2 |}])%list p)
  | Some c =>
      let '(changed, messages) := addMessage (pc_Message c) msg in
      if negb changed then None
      else Some (pod_with_conditions (write_pod_condition condType (keyed ConditionFalse (dump messages) t)
             (pds_Conditions (pod_status p))) p)
  end.

Definition remove_key (msg : Message) (condType : string) (t : Z) (p : Pod) : option Pod :=
  match GetPodCondition p condType with
  | None => None
  | Some c =>
      let '(changed, messages) := removeMessage (pc_Message c) msg in
      if negb changed then None
      else
        let status := if bool_decide (messages = []) then ConditionTrue else pc_Status c in
        Some (pod_with_conditions (write_pod_condition condType (keyed status (dump messages) t)
          (pds_Conditions (pod_status p))) p)
  end.

Context `{Env}.

(** Read, compute, write the status: whether it was written. *)
Definition update_pod_status_by (p : Pod) (f : Z -> Pod -> option Pod) : M bool :=
  RetryOnConflict DefaultBackoff (
    newPod ← GetPod (om_Namespace (pod_meta p)) (pod_Name p);
    t ← now;
    match f t newPod with
    | None => mret false
    | Some new => UpdatePodStatus new ≫= fun _ => mret true
    end).

Definition addNotReadyKey (p : Pod) (msg : Message) (condType : string) : M bool :=
  if alreadyHasKey p msg condType then mret false
  else if negb (PodContainsReadinessGate p condType) then mret false
  else update_pod_status_by p (add_key msg condType).

Definition removeNotReadyKey (p : Pod) (msg : Message) (condType : string) : M bool :=
  if negb (PodContainsReadinessGate p condType) then mret false
  else update_pod_status_by p (remove_key msg condType).

(** * The lifecycle of a pod (roleinstance/lifecycle/lifecycle_utils.go) *)

Definition getReadinessMessage (key : string) : Message := {| msg_UserAgent := "Lifecycle"; msg_Key := key |}.

Definition instance_ready_key : Message := getReadinessMessage "InstanceReady".

Definition needUpdatePodStatus (p : Pod) (markNotReady : bool) : bool :=
  match GetPodCondition p InstancePodReadyConditionType with
  | None => true
  | Some _ => negb (Bool.eqb markNotReady (alreadyHasKey p instance_ready_key InstancePodReadyConditionType))
  end.

(** Whether the pod was updated; the pod returned is the one given. *)
Definition UpdatePodLifecycle (p : Pod) (markNotReady : bool) : M bool :=
  if negb (needUpdatePodStatus p markNotReady) then mret false
  else
    match GetPodCondition p InstancePodReadyConditionType with
    | None => addNotReadyKey p instance_ready_key InstancePodReadyConditionType
    | Some _ =>
        if markNotReady then addNotReadyKey p instance_ready_key InstancePodReadyConditionType
        else removeNotReadyKey p instance_ready_key InstancePodReadyConditionType
    end.
End readiness.

(** * The in-place update of one pod (inplaceupdate/) *)

(** [opts.GracePeriodSeconds] is the only option the controller sets. *)
Abbreviation grace_option := Z (only parsing).

Section calculate.
Context `{InPlaceCodec}.

(** ["^/spec/containers/([0-9]+)/image$"], the number as [strconv.Atoi] reads it. *)
Definition image_path (path : string) : option Z :=
  match Split path "/" with
  | [a; b; c; idx; d] =>
      if bool_decide (a = ""%string) && bool_decide (b = "spec"%string) && bool_decide (c = "containers"%string)
         && bool_decide (d = "image"%string) && negb (bool_decide (idx = ""%string)) && forallb is_digit (chars idx)
      then Some (match Atoi idx with Ok n => n | Err _ => int64_max end)
      else None
  | _ => None
  end.

(** One operation of the patch: [None] rules the in-place update out; otherwise
    whether the metadata changed, and the images so far. *)
Definition calculate_step (oldTemp : PodTemplateSpec) (acc : option (bool * gmap string string))
    (op : JsonPatchOperation) : option (bool * gmap string string) :=
  '(metadataChanged, images) ← acc;
  let path := RemoveFirst (jp_Path op) "/spec/template" in
  if negb (HasPrefix path "/spec/") then Some (true, images)
  else if negb (bool_decide (jp_Operation op = "replace"%string)) then None
  else
    idx ← image_path path;
    c ← ps_Containers (tmpl_spec oldTemp) !! Z.to_nat idx;
    Some (metadataChanged, <[ct_Name c := jp_Value op]> images).

(** [defaultCalculateInPlaceUpdateSpec] on two revisions that are there. *)
Definition CalculateSpec (oldRevision newRevision : ControllerRevision) (grace : grace_option) : option UpdateSpec :=
  match CreatePatch (cr_Data oldRevision) (cr_Data newRevision), template_of oldRevision, template_of newRevision with
  | Ok patches, Ok oldTemp, Ok newTemp =>
      '(metadataChanged, images) ← fold_left (calculate_step oldTemp) patches (Some (false, ∅));
      let spec patch := {| us_Revision := cr_Name newRevision; us_ContainerImages := images;
                           us_MetaDataPatch := patch; us_GraceSeconds := grace |} in
      if (metadataChanged : bool) then
        match metadata_patch oldTemp newTemp with
        | Err _ => None
        | Ok patchBytes => Some (spec (Some patchBytes))
        end
      else Some (spec None)
  | _, _, _ => None
  end.

Definition set_image (images : gmap string string) (c : Container) : Container :=
  match images !! ct_Name c with
  | Some newImage => {| ct_Name := ct_Name c; ct_Image := newImage; ct_Env := ct_Env c; ct_Ports := ct_Ports c;
                        ct_rest := ct_rest c |}
  | None => c
  end.

(** [defaultPatchUpdateSpecToPod] *)
Definition PatchSpecToPod (p : Pod) (spec : UpdateSpec) : result Pod :=
  p ← match us_MetaDataPatch spec with None => Ok p | Some patch => merge_pod p patch end;
  let s := pod_spec p in
  Ok (pod_with_spec (spec_with_containers (map (set_image (us_ContainerImages spec)) (ps_Containers s))
    (ps_InitContainers s) s) p).

Definition annotation (p : Pod) (key : string) : option string := om_Annotations (pod_meta p) !! key.

Definition annotate (key value : string) (p : Pod) : Pod :=
  pod_with_meta (with_annotations (<[key := value]> (om_Annotations (pod_meta p))) (pod_meta p)) p.

Definition RemoveInPlaceUpdateGrace (p : Pod) : Pod :=
  pod_with_meta (with_annotations (delete InPlaceUpdateGraceKey (om_Annotations (pod_meta p))) (pod_meta p)) p.

(** ** Whether an update is complete *)

(** One container of the spec; of the runtime data the last entry of its name. *)
Definition hash_consistent (p : Pod) (metas : list RuntimeContainerMeta) (c : Container) : bool :=
  match List.find (fun s => bool_decide (cst_Name s = ct_Name c)) (pds_ContainerStatuses (pod_status p)),
        last (List.filter (fun m => bool_decide (rcm_Name m = ct_Name c)) metas) with
  | Some status, Some meta =>
      bool_decide (rcm_ContainerID meta = cst_ContainerID status) && (rcm_PlainHash meta =? HashContainer c)
  | _, _ => false
  end.

Definition checkAllContainersHashConsistent (p : Pod) (metas : list RuntimeContainerMeta) : bool :=
  forallb (hash_consistent p metas) (ps_Containers (pod_spec p)).

(** The image of a container, with its tag. *)
Definition tagged_image (c : Container) : string :=
  if (length (Split (ct_Image c) ":") <=? 1)%nat then ct_Image c +:+ ":latest" else ct_Image c.

Definition container_images (p : Pod) : gmap string string :=
  fold_left (fun m c => <[ct_Name c := tagged_image c]> m) (ps_Containers (pod_spec p)) ∅.

(** The loop over the container statuses: the containers still unaccounted for. *)
Fixpoint check_statuses (images : gmap string string) (pending : gmap string string) (statuses : list ContainerStatus)
    : result (gmap string string) :=
  match statuses with
  | [] => Ok pending
  | cs :: statuses' =>
      match pending !! cst_Name cs with
      | None => check_statuses images pending statuses'
      | Some oldImageID =>
          if bool_decide (oldImageID = cst_ImageID cs)
             && negb (bool_decide (default ""%string (images !! cst_Name cs) = cst_Image cs))
          then Err ("container " +:+ cst_Name cs +:+ " imageID not changed")
          else check_statuses images (delete (cst_Name cs) pending) statuses'
      end
  end.

(** [DefaultCheckInPlaceUpdateCompleted] *)
Definition CheckUpdateCompleted (p : Pod) : result unit :=
  match annotation p InPlaceUpdateGraceKey with
  | Some _ => Err "still in grace period of in-place update"
  | None =>
      runtime ← match annotation p RuntimeContainerMetaKey with
                | None => Ok None
                | Some str => metas ← load_runtime str; Ok (Some metas)
                end;
      if match runtime with Some metas => checkAllContainersHashConsistent p metas | None => false end then Ok tt
      else
        match annotation p InPlaceUpdateStateKey with
        | None => Ok tt
        | Some stateStr =>
            st ← load_state stateStr;
            pending ← check_statuses (container_images p) (ups_LastContainerStatuses st)
                        (pds_ContainerStatuses (pod_status p));
            if bool_decide (pending = ∅) then Ok tt else Err "not found statuses of containers"
        end
  end.
End calculate.

Record UpdateResult := {
  ur_InPlaceUpdate : bool;
  ur_UpdateErr : option error;
  ur_DelayDuration : Z;
  ur_NewResourceVersion : string
}.

Definition not_in_place : UpdateResult := {| ur_InPlaceUpdate := false; ur_UpdateErr := None; ur_DelayDuration := 0; ur_NewResourceVersion := "" |}.
Definition update_failed (inPlace : bool) (e : error) : UpdateResult := {| ur_InPlaceUpdate := inPlace; ur_UpdateErr := Some e; ur_DelayDuration := 0; ur_NewResourceVersion := "" |}.

Section update.
Context `{InPlaceCodec, MapRange, Env}.

Definition updateCondition (p : Pod) (c : PodCondition) : M unit :=
  RetryOnConflict DefaultBackoff (
    clone ← GetPod (om_Namespace (pod_meta p)) (pod_Name p);
    let clone := SetPodCondition c clone in
    if bool_decide (pc_Status c = ConditionFalse) then
      t ← now; UpdatePodStatus (UpdatePodReadyCondition t clone)
    else UpdatePodStatus clone).

Definition ContainsInPlaceReadinessGate (p : Pod) : bool := PodContainsReadinessGate p InPlaceUpdateReady.
(** The gate it looks for is the one of an instance. *)
Definition ContainsInstanceReadinessGate (p : Pod) : bool := PodContainsReadinessGate p RoleInstanceInPlaceUpdateReady.

Definition refreshCondition (p : Pod) : M unit :=
  if negb (ContainsInPlaceReadinessGate p) then mret tt
  else match CheckUpdateCompleted p with
       | Err _ => mret tt
       | Ok _ =>
           if pod_condition_true (GetInPlaceCondition p) then mret tt
           else
             t ← now;
             updateCondition p {| pc_Type := InPlaceUpdateReady; pc_Status := ConditionTrue;
               pc_LastTransitionTime := Some t; pc_Reason := ""; pc_Message := "" |}
       end.

(** How long the grace period still lasts. *)
Definition finishGracePeriod (p : Pod) : M Z :=
  RetryOnConflict DefaultBackoff (
    clone ← GetPod (om_Namespace (pod_meta p)) (pod_Name p);
    match annotation clone InPlaceUpdateGraceKey with
    | None => mret 0
    | Some updateSpecJSON =>
        spec ← lift (load_spec updateSpecJSON);
        let graceDuration := int64 (second * us_GraceSeconds spec) in
        match annotation clone InPlaceUpdateStateKey with
        | None => fail "pod has the in-place update grace, but its state is not found"
        | Some updateStateJSON =>
            match load_state updateStateJSON with
            | Err _ => mret 0
            | Ok updateState =>
                if negb (EqualToRevisionHash (pod_meta clone) (us_Revision spec)) then
                  UpdatePod (RemoveInPlaceUpdateGrace clone) ≫= fun _ => mret 0
                else
                  t ← now;
                  let span := time_sub t (ups_UpdateTimestamp updateState) in
                  if span <? graceDuration then mret (RoundupSeconds (int64 (graceDuration - span)))
                  else
                    clone ← lift (PatchSpecToPod clone spec);
                    UpdatePod (RemoveInPlaceUpdateGrace clone) ≫= fun _ => mret 0
            end
        end
    end).

(** The delay, or the error. *)
Definition Refresh (p : Pod) : M Z :=
  refreshCondition p ≫= fun _ =>
  if bool_decide (default ""%string (annotation p InPlaceUpdateGraceKey) <> ""%string) then finishGracePeriod p
  else mret 0.

(** The old images of the containers of a pod that are to be updated. *)
Definition old_images (images : gmap string string) (p : Pod) : gmap string string :=
  fold_left (fun m cs => match images !! cst_Name cs with
                         | Some _ => <[cst_Name cs := cst_ImageID cs]> m
                         | None => m
                         end) (pds_ContainerStatuses (pod_status p)) ∅.

Definition updatePodInPlace (p : Pod) (spec : UpdateSpec) : M unit :=
  RetryOnConflict DefaultBackoff (
    clone ← GetPod (om_Namespace (pod_meta p)) (pod_Name p);
    let clone := pod_with_meta (WriteRevisionHash (pod_meta clone) (us_Revision spec)) clone in
    t ← now;
    let clone := annotate InPlaceUpdateStateKey (dump_state {|
      ups_Revision := us_Revision spec; ups_UpdateTimestamp := Some t;
      ups_LastContainerStatuses := old_images (us_ContainerImages spec) clone |}) clone in
    clone ← (if us_GraceSeconds spec <=? 0 then
               clone ← lift (PatchSpecToPod clone spec); mret (RemoveInPlaceUpdateGrace clone)
             else mret (annotate InPlaceUpdateGraceKey (dump_spec spec) clone));
    UpdatePod clone ≫= fun _ => mret tt).

Definition start_condition (t : Z) (type reason : string) : PodCondition := {|
  pc_Type := type; pc_Status := ConditionFalse; pc_LastTransitionTime := Some t; pc_Reason := reason; pc_Message := "" |}.

(** The three steps, the first error ending them. *)
Definition update_steps (p : Pod) (spec : UpdateSpec) : M unit :=
  (if ContainsInPlaceReadinessGate p then
     t ← now; updateCondition p (start_condition t InPlaceUpdateReady "StartInPlaceUpdate")
   else mret tt) ≫= fun _ =>
  (if ContainsInstanceReadinessGate p then
     t ← now; updateCondition p (start_condition t InstancePodReadyConditionType "StartInstanceUpdate")
   else mret tt) ≫= fun _ =>
  updatePodInPlace p spec.

Definition update_pod (p : Pod) (oldRevision newRevision : ControllerRevision) (grace : grace_option) : M UpdateResult :=
  match CalculateSpec oldRevision newRevision grace with
  | None => mret not_in_place
  | Some spec =>
      attempt (update_steps p spec) (fun r => mret
        match r with
        | Err e => update_failed true e
        | Ok _ => {| ur_InPlaceUpdate := true; ur_UpdateErr := None;
                     ur_DelayDuration := if grace >? 0 then int64 (second * grace) else 0;
                     ur_NewResourceVersion := "" |}
        end)
  end.

(** * The components of a revision (roleinstance/inplaceupdate) *)

(** A panic of the Go runtime. *)
Definition nil_dereference : error := "runtime error: invalid memory address or nil pointer dereference".

Definition ErrNilControllerRevision : error := "cannot split nil ControllerRevision".

(** The old and the new component revision, by component; the old is missing for a
    component that is new. *)
Definition groupComponentControllerRevision (oldRevision newRevision : option ControllerRevision)
    : result (gmap string (option componentRevision * componentRevision)) :=
  match oldRevision, newRevision with
  | Some oldRevision, Some newRevision =>
      match split_revision oldRevision with
      | Err e => Err e
      | Ok olds =>
          match split_revision newRevision with
          | Err e => Err e
          | Ok news => Ok (map_imap (fun name new => Some (olds !! name, new)) news)
          end
      end
  | _, _ => Err ErrNilControllerRevision
  end.

(** [None] is the nil dereference of a missing old revision. *)
Definition isComponentExtensionSpecChanged (rH : option componentRevision * componentRevision) : option bool :=
  old ← rH.1;
  Some (negb (bool_decide (cr_serviceName old = cr_serviceName rH.2))).

(** The loop over the components, in the order the map is visited. *)
Fixpoint all_in_place (grace : grace_option) (components : list (option componentRevision * componentRevision))
    : option bool :=
  match components with
  | [] => Some true
  | rH :: components' =>
      changed ← isComponentExtensionSpecChanged rH;
      if (changed : bool) then Some false
      else
        old ← rH.1;
        match CalculateSpec (cr_podTemplateRevision old) (cr_podTemplateRevision rH.2) grace with
        | None => Some false
        | Some _ => all_in_place grace components'
        end
  end.

(** [None] is a panic. *)
Definition CanUpdateInPlace (oldRevision newRevision : option ControllerRevision) (grace : grace_option) : option bool :=
  match groupComponentControllerRevision oldRevision newRevision with
  | Err _ => Some false
  | Ok components => all_in_place grace (map snd (map_range components))
  end.

Definition isPodTemplateChanged (oldRevision newRevision : ControllerRevision) : result bool :=
  match CreatePatch (cr_Data oldRevision) (cr_Data newRevision) with
  | Ok ops => Ok (negb (bool_decide (length ops = 0%nat)))
  | Err e => Err e
  end.

Definition updateInstanceReadyCondition (p : Pod) : M unit :=
  if negb (PodContainsReadinessGate p InstancePodReadyConditionType) then mret tt
  else
    t ← now;
    updateCondition p (start_condition t InstancePodReadyConditionType "StartInstanceUpdate").

(** The resource version of the pod as the server returned it. *)
Definition onlyUpdateRevision (p : Pod) (newRevision : ControllerRevision) : M string :=
  updateInstanceReadyCondition p ≫= fun _ =>
  RetryOnConflict DefaultBackoff (
    clone ← GetPod (om_Namespace (pod_meta p)) (pod_Name p);
    stored ← UpdatePod (pod_with_meta (with_labels
      (<[ControllerRevisionHashLabelKey := GetShortHash (cr_Name newRevision)]> (pod_Labels clone)) (pod_meta clone)) clone);
    mret (om_ResourceVersion (pod_meta stored))).

(** The monad's own error is a panic. *)
Definition Update (p : Pod) (oldRevision newRevision : option ControllerRevision) (grace : grace_option)
    : M UpdateResult :=
  match groupComponentControllerRevision oldRevision newRevision, newRevision with
  | Ok components, Some newRevision =>
      let componentName := GetPodComponentName p in
      match components !! componentName with
      | None => mret (update_failed false ("find new type component " +:+ componentName +:+ " pod"))
      | Some (None, _) => fail nil_dereference
      | Some (Some old, new) =>
          if negb (bool_decide (cr_serviceName old = cr_serviceName new)) then mret not_in_place
          else
            match isPodTemplateChanged (cr_podTemplateRevision old) (cr_podTemplateRevision new) with
            | Err e => mret (update_failed false e)
            | Ok true => update_pod p (cr_podTemplateRevision old) (cr_podTemplateRevision new) grace
            | Ok false =>
                attempt (onlyUpdateRevision p newRevision) (fun r => mret
                  match r with
                  | Err e => update_failed true e
                  | Ok v => {| ur_InPlaceUpdate := true; ur_UpdateErr := None; ur_DelayDuration := 0;
                               ur_NewResourceVersion := v |}
                  end)
            end
      end
  | Err e, _ => mret (update_failed false e)
  | _, None => mret (update_failed false ErrNilControllerRevision)
  end.

(** The containers whose image an update changes, in the order the map is
    visited; [None] is a panic. *)
Definition GetUpdatedContainerNames (p : Pod) (oldRevision newRevision : option ControllerRevision)
    (grace : grace_option) : option (list string) :=
  match groupComponentControllerRevision oldRevision newRevision with
  | Err _ => Some []
  | Ok components =>
      match components !! GetPodComponentName p with
      | None => Some []
      | Some (None, _) => None
      | Some (Some old, new) =>
          match CalculateSpec (cr_podTemplateRevision old) (cr_podTemplateRevision new) grace with
          | None => Some []
          | Some spec => Some (map fst (map_range (us_ContainerImages spec)))
          end
      end
  end.
End update.
