(* ===== verification/InstanceDemo.v ===== *)
(** A concrete RoleInstance for the witnesses and the examples: an instance "web"
    of a database and two servers that start after it, and an API server that
    knows no pods and accepts every write. *)
From Stdlib Require Import ZArith Lia Bool Ascii String.
From stdpp Require Import base tactics list strings gmap sets.
From S2P Require Import Prelude Types Effects Revisions InstancePods ComponentOrder NodeBindings PortAllocator InstanceWorld InstanceRestarts PodInPlace.

Module Web.
#[local] Open Scope string_scope.

#[export] Program Instance map_order : MapRange := {| map_range := fun A m => map_to_list m |}.
Next Obligation. done. Qed.

#[export] Instance pod_names : PodNames := fun _ => true.
#[export] Instance qualified_names : QualifiedNames := fun _ => true.
#[export] Instance port_config : PortConfigCodec := fun _ => Err "no configuration".
#[export] Instance discovery : DiscoveryCodec := fun _ => Err "no configuration".

(** The text of an annotation is the one component to start after. *)
#[export] Instance depends_on : DependsOnCodec := fun s => Ok {| StartAfter := [s]; DeleteAfter := [] |}.

#[export] Instance codec : InPlaceCodec := {|
  load_messages := fun s => [{| msg_UserAgent := "Lifecycle"; msg_Key := s |}];
  dump_messages := fun l => match l with [] => "" | m :: _ => msg_Key m end;
  load_spec := fun _ => Err "no spec";
  dump_spec := us_Revision;
  load_state := fun _ => Err "no state";
  dump_state := ups_Revision;
  load_runtime := fun _ => Err "no runtime data";
  HashContainer := fun _ => 0;
  CreatePatch := fun a b => if bool_decide (a = b) then Ok []
    else Ok [{| jp_Operation := "replace"; jp_Path := "/spec/containers/0/image"; jp_Value := b |}];
  template_of := fun r => Err "no template";
  metadata_patch := fun _ _ => Ok "";
  merge_pod := fun p _ => Ok p;
  split_revision := fun r => Ok {["db" := {| cr_podTemplateRevision := r; cr_serviceName := None |}]}
|}.

Definition template (image : string) : PodTemplateSpec := {|
  tmpl_Labels := ∅; tmpl_Annotations := ∅; tmpl_Finalizers := [];
  tmpl_spec := {| ps_NodeName := ""; ps_Hostname := ""; ps_Subdomain := ""; ps_HostNetwork := false;
    ps_ReadinessGates := []; ps_Affinity := None;
    ps_Containers := [{| ct_Name := "main"; ct_Image := image; ct_Env := []; ct_Ports := []; ct_rest := "" |}];
    ps_InitContainers := []; ps_rest := "" |} |}.

Definition component (name : string) (size : Z) (annotations : labels) : RoleInstanceComponent := {|
  ric_Name := name; ric_Size := Some size; ric_ServiceName := name; ric_Labels := ∅; ric_Annotations := annotations;
  ric_Template := template "image:1" |}.

Definition meta : ObjectMeta := {|
  om_Name := "web"; om_GenerateName := ""; om_Namespace := "default"; om_UID := "uid-web"; om_ResourceVersion := "1";
  om_Generation := 1; om_CreationTimestamp := None; om_DeletionTimestamp := None; om_Labels := ∅; om_Annotations := ∅;
  om_OwnerReferences := []; om_Finalizers := [] |}.

Definition component_status (name : string) (size ready : Z) : RoleInstanceComponentStatus := {|
  cs_Name := name; cs_Size := size; cs_ReadyReplicas := ready; cs_UpdatedReplicas := ready; cs_ScheduledReplicas := ready;
  cs_AvailableReplicas := ready; cs_UpdatedReadyReplicas := ready |}.

(** With a restart policy or not, and so many database pods ready. *)
Definition web (policy : string) (ready : Z) (count : Z) (last : option Z) : RoleInstance := {|
  ri_meta := meta;
  ri_spec := {| ris_Components := [component "db" 1 ∅;
                                   component "api" 2 {[ComponentDependsOnAnnotationKey := "db"]}];
                ris_ReadyPolicy := ""; ris_RestartPolicy := policy; ris_RestartPolicyConfig := None;
                ris_ReadinessGates := [] |};
  ri_status := {| rist_ObservedGeneration := 1; rist_Conditions := [];
    rist_ComponentStatuses := [component_status "db" 1 ready]; rist_LabelSelector := ""; rist_CurrentRevision := "web-a";
    rist_UpdateRevision := "web-a"; rist_CollisionCount := None; rist_Baselines := ∅; rist_RestartCount := count;
    rist_LastRestartTime := last |} |}.

Definition with_phase (phase : string) (p : Pod) : Pod := {|
  pod_meta := pod_meta p; pod_spec := pod_spec p;
  pod_status := {| pds_Phase := phase; pds_Conditions := []; pds_ContainerStatuses := [] |} |}.

Definition pod (name : string) (id : Z) : Pod :=
  with_phase PodRunning (new_pod (web "" 1 0 None) "web-a" name (component name 1 ∅) id).

Definition revision (name data : string) : ControllerRevision :=
  {| cr_meta := with_name name "default" empty_meta; cr_Revision := 1; cr_Data := data |}.

(** An API server that holds only the instance, at a steady clock. *)
#[export] Program Instance server (clock : Z) (stored : RoleInstance) : Env := {|
  env_now := fun _ => clock;
  env_apiReader := true;
  env_get_pod := fun _ _ _ => Err NotFoundError;
  env_list_pods := fun _ _ _ => Ok [];
  env_create_pod := fun _ _ => Ok tt;
  env_delete_pod := fun _ _ => Ok tt;
  env_update_pod := fun _ p => Ok p;
  env_update_pod_status := fun _ _ => Ok tt;
  env_get_instance := fun _ _ _ _ => Ok stored;
  env_update_instance_status := fun _ _ => Ok tt;
  env_list_revisions := fun _ _ _ => Ok [];
  env_create_revision := fun _ _ r n => (Ok r, n);
  env_update_revision := fun _ r _ => Ok r;
  env_delete_revision := fun _ _ => Ok tt;
  env_schedule := fun _ l => l
|}.
Next Obligation. done. Qed.

Definition start : world := {|
  w_trace := []; w_clock := 0; w_restarting := ∅; w_bindings := ∅; w_versions := ∅; w_equal := [] |}.
End Web.
