(* ===== verification/InstanceScale.v ===== *)
(** Scaling a RoleInstance (pkg/reconciler/roleinstance/sync/instance_scale.go):
    the pods to delete and the pods to create, in the order the components ask
    for, and the calls that do it.

    [Scale] works on the instance as the update revision has it and edits its
    status: the instance comes back with the outcome.  The monad's own error is a
    panic; what the code returns as an error is a list of messages, which is what
    [utilerrors.NewAggregate] keeps.  Maps from component names are finite maps;
    events are left out. *)
From Stdlib Require Import ZArith Lia Bool Ascii String.
From stdpp Require Import base tactics list strings gmap sets sorting.
From S2P Require Import Prelude GoStrings Types Effects Revisions SlowStart InstancePods ComponentOrder NodeBindings PortAllocator InstanceWorld InstanceRestarts PodInPlace.

(** * Decisions that need no request *)

Definition isGangSchedulingEnabled (i : RoleInstance) : bool :=
  bool_decide (label_of (om_Annotations (ri_meta i)) RoleInstanceGangSchedulingAnnotationKey = "true"%string).

Definition GetUpdateOptions (i : RoleInstance) : grace_option :=
  match om_Annotations (ri_meta i) !! RoleInplaceUpdateGracePeriodSecondsKey with
  | None => 0
  | Some v => match Atoi v with Ok seconds => int32 seconds | Err _ => 0 end
  end.

(** The last status of a name is the one in the map. *)
Definition status_map (componentStatuses : list RoleInstanceComponentStatus) : gmap string RoleInstanceComponentStatus :=
  fold_left (fun m st => <[cs_Name st := st]> m) componentStatuses ∅.

Definition component_ready (st : RoleInstanceComponentStatus) : bool :=
  negb ((cs_Size st <=? 0) || (cs_ReadyReplicas st <? cs_Size st)).

Definition allNamedComponentsReady (depNames : list string) (componentStatuses : list RoleInstanceComponentStatus) : bool :=
  forallb (fun name => match status_map componentStatuses !! name with
                       | None => false
                       | Some st => component_ready st
                       end) depNames.

Definition has_excess (g : ComponentPodGroup) : bool := (0 <? size (cpg_ToDeleteIDs g))%nat.

Definition topo_map (topos : list ComponentPodGroup) : gmap string ComponentPodGroup :=
  fold_left (fun m g => <[cpg_Name g := g]> m) topos ∅.

Definition allDependentsDeleted (dependentNames : list string) (topoMap : gmap string ComponentPodGroup) : bool :=
  forallb (fun name => match topoMap !! name with None => true | Some g => negb (has_excess g) end) dependentNames.

(** * The difference *)

Record expectationDiff := {
  ed_toDeleteNum : Z;
  ed_toDeletePod : list Pod;
  ed_toScaleNum : Z;
  ed_toScaleRoleIDS : gmap string (gset Z);
  ed_requeueAfter : Z
}.

Definition no_diff : expectationDiff := {|
  ed_toDeleteNum := 0; ed_toDeletePod := []; ed_toScaleNum := 0; ed_toScaleRoleIDS := ∅; ed_requeueAfter := 0 |}.

Definition delete_all (pods : list Pod) : expectationDiff := {|
  ed_toDeleteNum := Z.of_nat (length pods); ed_toDeletePod := pods; ed_toScaleNum := 0; ed_toScaleRoleIDS := ∅;
  ed_requeueAfter := 0 |}.

Definition requeue_after (d : Z) : expectationDiff := {|
  ed_toDeleteNum := 0; ed_toDeletePod := []; ed_toScaleNum := 0; ed_toScaleRoleIDS := ∅; ed_requeueAfter := d |}.

(** The components that [gate] lets delete their excess pods, and create their
    missing ones. *)
Definition delete_group (gate : ComponentPodGroup -> bool) (d : expectationDiff) (g : ComponentPodGroup) : expectationDiff :=
  if has_excess g && gate g then {|
    ed_toDeleteNum := ed_toDeleteNum d + Z.of_nat (size (cpg_ToDeleteIDs g));
    ed_toDeletePod := (ed_toDeletePod d ++ cpg_ToDeletePod g)%list;
    ed_toScaleNum := ed_toScaleNum d; ed_toScaleRoleIDS := ed_toScaleRoleIDS d; ed_requeueAfter := ed_requeueAfter d |}
  else d.

Definition scale_group (gate : ComponentPodGroup -> bool) (d : expectationDiff) (g : ComponentPodGroup) : expectationDiff :=
  if (0 <? size (cpg_ToScaleIDs g))%nat && gate g then {|
    ed_toDeleteNum := ed_toDeleteNum d; ed_toDeletePod := ed_toDeletePod d;
    ed_toScaleNum := ed_toScaleNum d + Z.of_nat (size (cpg_ToScaleIDs g));
    ed_toScaleRoleIDS := <[cpg_Name g := cpg_ToScaleIDs g]> (ed_toScaleRoleIDS d); ed_requeueAfter := ed_requeueAfter d |}
  else d.

Section diff.
Context `{MapRange, DependsOnCodec, InPlaceCodec}.

(** [DetectCycle] always answers. *)
Definition has_cycle (g : graph) : bool := default true (DetectCycle g).

(** The ordered mode and the parallel mode. *)
Definition ordered_diff (i : RoleInstance) (startDeps deletionGates : graph) (topos : list ComponentPodGroup)
    (d : expectationDiff) : expectationDiff :=
  let ready g := allNamedComponentsReady (default [] (startDeps !! cpg_Name g)) (rist_ComponentStatuses (ri_status i)) in
  let free g := allDependentsDeleted (default [] (deletionGates !! cpg_Name g)) (topo_map topos) in
  fold_left (delete_group free) topos (fold_left (scale_group ready) topos d).

Definition parallel_diff (topos : list ComponentPodGroup) (d : expectationDiff) : expectationDiff :=
  fold_left (fun d g => scale_group (fun _ => true) (delete_group (fun _ => true) d g) g) topos d.

(** The order in force: the graph of creations and the graph of deletions. *)
Definition order_of (components : list RoleInstanceComponent) (startDeps deleteDeps : graph) : option (graph * graph) :=
  if negb (HasAnyDependency components) then None
  else
    let deletionGates := BuildDeletionGates startDeps deleteDeps in
    if has_cycle startDeps || has_cycle deletionGates then None else Some (startDeps, deletionGates).

(** What is left of [calculateDiffsWithExpectation] when the instance is not
    recreated. *)
Definition component_diff (i : RoleInstance) (pods inactivePods : list Pod) : result expectationDiff :=
  let failedPods := List.filter failed inactivePods in
  let d := delete_all failedPods in
  match GetComponentsTopology i pods with
  | Err e => Err e
  | Ok topos =>
      match ParseAllComponentDependencies (ris_Components (ri_spec i)) with
      | Err e => Err ("failed to parse component dependencies: " +:+ e)
      | Ok (startDeps, deleteDeps) =>
          Ok match order_of (ris_Components (ri_spec i)) startDeps deleteDeps with
             | Some (startDeps, deletionGates) => ordered_diff i startDeps deletionGates topos d
             | None => parallel_diff topos d
             end
      end
  end.

(** The revision a pod was made from: the first of its hash. *)
Definition pod_revision (revisions : list ControllerRevision) (p : Pod) : option ControllerRevision :=
  List.find (fun r => EqualToRevisionHash (pod_meta p) (cr_Name r)) revisions.

(** A gang is recreated when a pod cannot be updated in place; [None] is a panic. *)
Fixpoint gang_recreates (i : RoleInstance) (currentRevision updateRevision : ControllerRevision)
    (revisions : list ControllerRevision) (pods : list Pod) : option bool :=
  match pods with
  | [] => Some false
  | p :: pods' =>
      match CanUpdateInPlace (Some (default currentRevision (pod_revision revisions p))) (Some updateRevision)
              (GetUpdateOptions i) with
      | None => None
      | Some false => Some true
      | Some true => gang_recreates i currentRevision updateRevision revisions pods'
      end
  end.

Context {ENV : Env}.

(** The instance with its tracking brought up to date, and the reading. *)
Definition syncRestartTrackingFromAPI (i : RoleInstance) : M (RoleInstance * option RoleInstance) :=
  if negb env_apiReader then mret (i, None)
  else attempt (GetInstance Live (om_Namespace (ri_meta i)) (ri_Name i)) (fun r => mret
    match r with Err _ => (i, None) | Ok fresh => (adopt_tracking i fresh, Some fresh) end).

Definition isAlreadyRestarting (i : RoleInstance) : M bool :=
  cached ← gets (fun w => bool_decide (instanceKey i ∈ w_restarting w));
  if (cached : bool) then mret true
  else if negb env_apiReader then mret false
  else attempt (GetInstance Live (om_Namespace (ri_meta i)) (ri_Name i)) (fun r => mret
    match r with Err _ => false | Ok fresh => isInstanceRestarting fresh end).

Definition shouldRecreateInstanceGuarded (i : RoleInstance) (pods : list Pod) (bs : baselines) : M bool :=
  t ← now;
  if shouldRecreateInstance i pods bs t then (already ← isAlreadyRestarting i; mret (negb already)) else mret false.

(** [setRestartingCondition] and [updateRestartTracking]. *)
Definition mark_restarting (i : RoleInstance) : M RoleInstance :=
  modify (fun w => with_restarting ({[instanceKey i]} ∪ w_restarting w) w) ≫= fun _ =>
  t ← now; t1 ← now; t2 ← now;
  mret (updateRestartTracking (setRestartingCondition i t) t1 t2).

(** Outside the backoff: the whole instance goes, by the restart policy or as a
    gang, or its components decide. *)
Definition recreate_or_scale (i : RoleInstance) (currentRevision updateRevision : ControllerRevision)
    (revisions : list ControllerRevision) (pods inactivePods : list Pod) : M (result expectationDiff * RoleInstance) :=
  let allPods := (pods ++ inactivePods)%list in
  recreate ← shouldRecreateInstanceGuarded i allPods (rist_Baselines (ri_status i));
  if (recreate : bool) then (i ← mark_restarting i; mret (Ok (delete_all allPods), i))
  else
    match (if isGangSchedulingEnabled i then gang_recreates i currentRevision updateRevision revisions pods
           else Some false) with
    | None => fail nil_dereference
    | Some true => mret (Ok (delete_all pods), i)
    | Some false => mret (component_diff i pods inactivePods, i)
    end.

Definition calculateDiffsWithExpectation (i : RoleInstance) (currentRevision updateRevision : ControllerRevision)
    (revisions : list ControllerRevision) (pods inactivePods : list Pod) : M (result expectationDiff * RoleInstance) :=
  '(i, fresh) ← (if recreate_policy i then syncRestartTrackingFromAPI i else mret (i, None));
  t1 ← now; t2 ← now;
  let requeue := checkRestartBackoff i fresh pods inactivePods t1 t2 in
  if requeue >? 0 then mret (Ok (requeue_after requeue), i)
  else recreate_or_scale i currentRevision updateRevision revisions pods inactivePods.
End diff.

(** * Creating pods *)

(** [sets.List] *)
Definition ids_in_order (ids : gset Z) : list Z := merge_sort Z.le (elements ids).

Section create.
Context `{PodNames, PortConfigCodec, DiscoveryCodec, QualifiedNames}.

(** What the loop over the components gathers. *)
Record creation := {
  crn_newPods : list Pod;
  crn_portConfigs : gmap string (option PortAllocatorConfig);  (* componentPortConfigs *)
  crn_discovery : gset string                                  (* componentDiscoveryEnabled *)
}.

Definition add_component (i : RoleInstance) (expectedCreations : gmap string (gset Z)) (updateRevision : string)
    (acc : creation) (c : RoleInstanceComponent) : result creation :=
  let name := ric_Name c in
  match NewUpdatePods i updateRevision name (ids_in_order (default ∅ (expectedCreations !! name))) with
  | Err e => Err e
  | Ok updatePods =>
      let discovery := if HasComponentDiscoveryConfig (ric_Template c) then {[name]} ∪ crn_discovery acc
                       else crn_discovery acc in
      let newPods := (crn_newPods acc ++ updatePods)%list in
      if negb (HasPortAllocatorConfig (tmpl_Annotations (ric_Template c))) then
        Ok {| crn_newPods := newPods; crn_portConfigs := crn_portConfigs acc; crn_discovery := discovery |}
      else
        match ParsePortAllocatorConfig (tmpl_Annotations (ric_Template c)) with
        | Err e => Err ("failed to parse port allocator config for component " +:+ name +:+ ": " +:+ e)
        | Ok config => Ok {| crn_newPods := newPods; crn_portConfigs := <[name := config]> (crn_portConfigs acc);
                             crn_discovery := discovery |}
        end
  end.

Fixpoint add_components (i : RoleInstance) (expectedCreations : gmap string (gset Z)) (updateRevision : string)
    (acc : creation) (components : list RoleInstanceComponent) : result creation :=
  match components with
  | [] => Ok acc
  | c :: components' =>
      match add_component i expectedCreations updateRevision acc c with
      | Err e => Err e
      | Ok acc => add_components i expectedCreations updateRevision acc components'
      end
  end.

(** A new pod with its ports, its addresses and its affinity. *)
Definition prepare_pod (i : RoleInstance) (acc : creation) (bindings : NodeBindingStore) (p : Pod) : result Pod :=
  let name := GetPodComponentName p in
  match match crn_portConfigs acc !! name with
        | Some config => InjectPortsIntoPod p i config name
        | None => Ok p
        end with
  | Err e => Err ("failed to inject ports into pod " +:+ pod_Name p +:+ ": " +:+ e)
  | Ok p =>
      match if bool_decide (name ∈ crn_discovery acc) then InjectComponentDiscovery p i else Ok p with
      | Err e => Err ("failed to inject component discovery into pod " +:+ pod_Name p +:+ ": " +:+ e)
      | Ok p => Ok (InjectInPlaceScheduling p i bindings)
      end
  end.

Context {ENV : Env}.

Definition getExistingPod (ns name : string) : M (result (option Pod)) :=
  attempt (GetPod ns name) (fun r => mret
    match r with
    | Ok p => Ok (Some p)
    | Err e => if IsNotFound e then Ok None else Err e
    end).

Definition foreign_error (p : Pod) (i : RoleInstance) : error :=
  "pod " +:+ om_Namespace (pod_meta p) +:+ "/" +:+ pod_Name p +:+ " is not controlled by RoleInstance " +:+ instanceKey i
  +:+ " (UID " +:+ ri_UID i +:+ ")".

(** The loop over the new pods: the pods to create, and the errors for the names
    that foreign pods hold. *)
Fixpoint choose_pods (i : RoleInstance) (acc : creation) (newPods : list Pod) (channel : list Pod) (foreign : list error)
    : M (result (list Pod * list error)) :=
  match newPods with
  | [] => mret (Ok (channel, foreign))
  | p :: newPods' =>
      existing ← getExistingPod (om_Namespace (pod_meta p)) (pod_Name p);
      match existing with
      | Err e => mret (Err e)
      | Ok (Some existingPod) =>
          if negb (IsControlledBy (pod_meta existingPod) (ri_meta i)) then
            if isGangSchedulingEnabled i then mret (Err (foreign_error existingPod i))
            else choose_pods i acc newPods' channel (foreign ++ [foreign_error existingPod i])%list
          else choose_pods i acc newPods' channel foreign
      | Ok None =>
          bindings ← gets w_bindings;
          match prepare_pod i acc bindings p with
          | Err e => mret (Err e)
          | Ok p => choose_pods i acc newPods' (channel ++ [p])%list foreign
          end
      end
  end.

Definition initialBatchSize : nat := 1.

(** Whether a pod was created, and the errors. *)
Definition createPods (i : RoleInstance) (expectedCreations : gmap string (gset Z)) (updateRevision : string)
    : M (bool * list error) :=
  match add_components i expectedCreations updateRevision
          {| crn_newPods := []; crn_portConfigs := ∅; crn_discovery := ∅ |} (ris_Components (ri_spec i)) with
  | Err e => mret (false, [e])
  | Ok acc =>
      chosen ← choose_pods i acc (crn_newPods acc) [] [];
      match chosen with
      | Err e => mret (false, [e])
      | Ok (channel, foreign) =>
          '(created, err) ← DoItSlowly (fun w => env_schedule (w_trace w)) channel initialBatchSize CreatePod;
          mret (negb (bool_decide (created = [])),
                (foreign ++ match err with Some e => [e] | None => [] end)%list)
      end
  end.

(** * Deleting pods *)

Fixpoint deletePods (podsToDelete : list Pod) (modified : bool) : M (bool * list error) :=
  match podsToDelete with
  | [] => mret (modified, [])
  | p :: podsToDelete' =>
      attempt (DeletePod p) (fun r =>
        match r with
        | Err e => mret (modified, [e])
        | Ok _ => deletePods podsToDelete' true
        end)
  end.

(** * Scaling *)

Record scale_outcome := {
  so_scaling : bool;
  so_requeue : Z;
  so_errors : list error;
  so_instance : RoleInstance
}.

Context `{MapRange, DependsOnCodec, InPlaceCodec}.

Definition scale_by (d : expectationDiff) (i : RoleInstance) (updateRevision : ControllerRevision) : M scale_outcome :=
  if ed_requeueAfter d >? 0 then
    mret {| so_scaling := false; so_requeue := ed_requeueAfter d; so_errors := []; so_instance := i |}
  else if ed_toDeleteNum d >? 0 then
    '(scaled, errs) ← deletePods (ed_toDeletePod d) false;
    mret {| so_scaling := scaled; so_requeue := 0; so_errors := errs; so_instance := i |}
  else if ed_toScaleNum d >? 0 then
    '(scaled, errs) ← createPods i (ed_toScaleRoleIDS d) (cr_Name updateRevision);
    mret {| so_scaling := scaled; so_requeue := 0; so_errors := errs; so_instance := i |}
  else mret {| so_scaling := false; so_requeue := 0; so_errors := []; so_instance := i |}.

Definition Scale (updateInstance : RoleInstance) (currentRevision updateRevision : ControllerRevision)
    (revisions : list ControllerRevision) (pods inactivePods : list Pod) : M scale_outcome :=
  modify (fun w => with_bindings (RecordNodeBindings (w_bindings w) updateInstance pods) w) ≫= fun _ =>
  '(d, i) ← calculateDiffsWithExpectation updateInstance currentRevision updateRevision revisions pods inactivePods;
  match d with
  | Err e => mret {| so_scaling := true; so_requeue := 0; so_errors := [e]; so_instance := i |}
  | Ok d => scale_by d i updateRevision
  end.

(** [ClearRestarting], of the instance of that key. *)
Definition ClearRestarting (key : string) : M unit :=
  modify (fun w => with_restarting (w_restarting w ∖ {[key]}) w).
End create.
