(* ===== verification/InstanceCreation.v ===== *)
(** The pods a RoleInstance creates (instance_core.go, instance_scale.go): what
    identifies a new pod, that the injections keep it, and which pods
    [createPods] sends to the server. *)
From Stdlib Require Import ZArith Lia Bool Ascii String.
From stdpp Require Import base tactics list strings gmap sets sorting.
From S2P Require Import Prelude GoStrings Types Effects Revisions SlowStart InstancePods ComponentOrder NodeBindings PortAllocator InstanceWorld InstanceRestarts PodInPlace InstanceScale.

(** * What the injections keep *)

Definition same_identity (p p' : Pod) : Prop :=
  pod_Name p' = pod_Name p /\ om_Namespace (pod_meta p') = om_Namespace (pod_meta p) /\
  pod_Labels p' = pod_Labels p /\ om_OwnerReferences (pod_meta p') = om_OwnerReferences (pod_meta p).

#[export] Instance same_identity_preorder : PreOrder same_identity.
Proof. split; [by repeat split|]. intros p1 p2 p3 (?&?&?&?) (?&?&?&?). repeat split; congruence. Qed.

Lemma same_identity_meta p p' : pod_meta p' = pod_meta p -> same_identity p p'.
Proof. unfold same_identity, pod_Name, pod_Labels. by intros ->. Qed.

Lemma same_identity_annotations f p : same_identity p (pod_with_meta (with_annotations f (pod_meta p)) p).
Proof. by repeat split. Qed.

Lemma injectContainerPort_identity p port protocol p' : injectContainerPort p port protocol = Ok p' -> same_identity p p'.
Proof.
  unfold injectContainerPort. intros Hi. apply same_identity_meta. revert Hi.
  destruct (ps_Containers _) as [|first others]; [done|]. destruct (reuse_container _ _ _ _) as [[cs|e]|]; [by intros [= <-]|done|].
  destruct (_ && _); [done|]. by intros [= <-].
Qed.

Lemma inject_all_identity {A} (f : Pod -> A -> result Pod) l p p' :
  (forall p x p', f p x = Ok p' -> same_identity p p') -> inject_all f l p = Ok p' -> same_identity p p'.
Proof.
  intros Hf. revert p. induction l as [|x l IH]; intros p; cbn [inject_all]; [by intros [= <-]|].
  destruct (f p x) as [p1|] eqn:Hx; [|done]. intros Hi. etrans; [by eapply Hf|by apply IH].
Qed.

Lemma inject_allocation_identity annotations name p alloc p' :
  inject_allocation annotations name p alloc = Ok p' -> same_identity p p'.
Proof.
  unfold inject_allocation. destruct (annotations !! _) as [v|]; [|done]. destruct (parse_port v) as [port|]; [|done].
  destruct (injectContainerPort p port _) as [p1|] eqn:Hp; [|done]. apply injectContainerPort_identity in Hp.
  intros [= <-]. etrans; [exact Hp|]. case_bool_decide; by repeat split.
Qed.

Lemma InjectPortsIntoPod_identity p i config name p' : InjectPortsIntoPod p i config name = Ok p' -> same_identity p p'.
Proof.
  unfold InjectPortsIntoPod. destruct config as [config|]; [|by intros [= <-]]. case_bool_decide; [by intros [= <-]|].
  destruct (inject_all _ (pac_Allocations config) p) as [p1|] eqn:H1; [|done]. intros H2.
  etrans; [eapply inject_all_identity, H1; intros; by eapply inject_allocation_identity|].
  eapply inject_all_identity, H2. intros p2 ref p3. unfold inject_reference.
  destruct (ParseReference _) as [[[??]?]|]; [|done]. case_bool_decide; [done|]. destruct (_ !! _); [|done].
  intros [= <-]. by apply same_identity_meta.
Qed.

Lemma InjectComponentDiscovery_identity `{DiscoveryCodec} p i p' : InjectComponentDiscovery p i = Ok p' -> same_identity p p'.
Proof.
  unfold InjectComponentDiscovery. destruct (_ !! _) as [v|]; [|by intros [= <-]]. destruct (UnmarshalDiscovery v) as [cfg|]; [|done].
  destruct (inject_all _ (AddressRefs cfg) p) as [p1|] eqn:H1; [|done].
  destruct (inject_all _ (PortRefs cfg) p1) as [p2|] eqn:H2; [|done]. intros [= <-].
  etrans; [eapply inject_all_identity, H1|etrans; [eapply inject_all_identity, H2|apply same_identity_annotations]].
  - intros q ref q'. unfold inject_address. destruct (_ !! _); [|done]. intros [= <-]. by apply same_identity_meta.
  - intros q ref q'. unfold inject_port_ref. destruct (resolvePortRef _ _); [|done]. intros [= <-].
    by apply same_identity_meta.
Qed.

Lemma InjectInPlaceScheduling_identity `{QualifiedNames} p i store : same_identity p (InjectInPlaceScheduling p i store).
Proof.
  apply same_identity_meta. unfold InjectInPlaceScheduling. repeat (case_match; try done).
Qed.

Lemma prepare_pod_identity `{DiscoveryCodec, QualifiedNames} i acc store p p' :
  prepare_pod i acc store p = Ok p' -> same_identity p p'.
Proof.
  unfold prepare_pod. destruct (match crn_portConfigs acc !! _ with Some config => _ | None => _ end) as [p1|] eqn:H1; [|done].
  destruct (if bool_decide _ then _ else _) as [p2|] eqn:H2; [|done]. intros [= <-].
  etrans; [|etrans; [|apply InjectInPlaceScheduling_identity]].
  - destruct (crn_portConfigs acc !! _); [by eapply InjectPortsIntoPod_identity|]. by injection H1 as ->.
  - case_bool_decide; [by eapply InjectComponentDiscovery_identity|]. by injection H2 as ->.
Qed.

(** * What identifies a new pod *)

(** The pod of number [id] of a component, at a revision. *)
Record pod_identity (i : RoleInstance) (revision component : string) (id : Z) (p : Pod) : Prop := {
  id_name : pod_Name p = FormatComponentPodName (ri_Name i) component id (GetRoleTemplateType i);
  id_namespace : om_Namespace (pod_meta p) = om_Namespace (ri_meta i);
  id_component : component <> ""%string -> GetPodComponentName p = component;
  id_id : 0 <= id <= int32_max -> GetPodComponentID p = id;
  id_revision : EqualToRevisionHash (pod_meta p) revision = true;
  id_selected : selector_matches (GetSelectorMatchLabels (ri_Name i)) (pod_Labels p) = true;
  id_owner : IsControlledBy (pod_meta p) (ri_meta i) = true
}.

Lemma pod_identity_same i revision component id p p' :
  same_identity p p' -> pod_identity i revision component id p -> pod_identity i revision component id p'.
Proof.
  intros (Hn & Hns & Hl & Ho) [H1 H2 H3 H4 H5 H6 H7]. split.
  - by rewrite Hn.
  - by rewrite Hns.
  - revert H3. unfold GetPodComponentName. by rewrite Hl, Hn.
  - revert H4. unfold GetPodComponentID. by rewrite Hl, Hn.
  - revert H5. unfold EqualToRevisionHash, pod_Labels in *. by rewrite Hl.
  - by rewrite Hl.
  - revert H7. unfold IsControlledBy, GetControllerOf. by rewrite Ho.
Qed.

Lemma add_gate_meta gate p : pod_meta (add_gate gate p) = pod_meta p.
Proof. unfold add_gate. by destruct (existsb _ _). Qed.

Section new_pod.
Context `{PodNames} (i : RoleInstance) (revision component : string) (c : RoleInstanceComponent) (id : Z).

Lemma new_pod_meta :
  let m := pod_meta (new_pod i revision component c id) in
  om_Name m = FormatComponentPodName (ri_Name i) component id (GetRoleTemplateType i) /\
  om_Namespace m = om_Namespace (ri_meta i) /\
  om_Labels m = InitComponentPodLabels (ri_Name i) component id (GetRoleTemplateType i)
    ∪ <[ControllerRevisionHashLabelKey := GetShortHash revision]> (tmpl_Labels (ric_Template c)) /\
  om_OwnerReferences m = [NewControllerRef ControllerAPIVersion ControllerKind (ri_meta i)].
Proof.
  cbn zeta. unfold new_pod, InjectInstancePodReadinessGate, InjectInPlaceReadinessGate. rewrite !add_gate_meta.
  unfold setComponentPodIdentity. by case_bool_decide.
Qed.

Lemma InitComponentPodLabels_lookup name :
  let l := InitComponentPodLabels name component id (GetRoleTemplateType i) in
  l !! ComponentIDLabelKey = Some (Itoa id) /\ l !! ComponentNameLabelKey = Some component /\
  l !! RoleInstanceNameLabelKey = Some name /\ l !! ControllerRevisionHashLabelKey = None.
Proof.
  unfold InitComponentPodLabels, GetSelectorMatchLabels. cbn zeta.
  repeat case_bool_decide; repeat split;
    repeat first [rewrite lookup_insert_eq; reflexivity|rewrite lookup_insert_ne by done|rewrite lookup_empty];
    try reflexivity.
Qed.

Lemma utoa_of_chars n : 0 <= n -> of_chars (utoa n) <> ""%string.
Proof. intros Hn. pose proof (utoa_nonempty n). by destruct (utoa n). Qed.

Lemma new_pod_identity : pod_identity i revision component id (new_pod i revision component c id).
Proof.
  destruct new_pod_meta as (Hn & Hns & Hl & Ho).
  destruct (InitComponentPodLabels_lookup (ri_Name i)) as (Hid & Hcomp & Hinst & Hhash).
  split; [exact Hn|exact Hns|..].
  - intros Hc. unfold GetPodComponentName, pod_Labels, label_of. rewrite Hl, (lookup_union_Some_l _ _ _ _ Hcomp). cbn.
    by rewrite bool_decide_eq_true_2.
  - intros Hi. unfold GetPodComponentID, pod_Labels, label_of. rewrite Hl, (lookup_union_Some_l _ _ _ _ Hid). cbn.
    rewrite bool_decide_eq_true_2.
    + unfold parse_id. by rewrite ParseInt_Itoa by (unfold_int; lia).
    + unfold Itoa. rewrite (proj2 (Z.ltb_ge id 0)) by lia. apply utoa_of_chars; lia.
  - unfold EqualToRevisionHash, label_of. rewrite Hl, (lookup_union_r _ _ _ Hhash), lookup_insert_eq. cbn.
    case_bool_decide; [done|]. apply bool_decide_eq_true. unfold GetShortHash. symmetry. apply LastField_idem.
  - unfold selector_matches, GetSelectorMatchLabels. rewrite map_to_list_singleton. cbn [forallb fst snd].
    unfold pod_Labels. rewrite Hl, (lookup_union_Some_l _ _ _ _ Hinst). by rewrite bool_decide_eq_true_2.
  - unfold IsControlledBy, GetControllerOf. rewrite Ho. cbn [List.find NewControllerRef or_Controller]. rewrite bool_decide_eq_true_2 by done. by apply bool_decide_eq_true_2.
Qed.
End new_pod.

(** * The pods that are sent to the server *)

Lemma elem_of_ids_in_order ids id : id ∈ ids_in_order ids <-> id ∈ ids.
Proof. unfold ids_in_order. by rewrite merge_sort_Permutation, elem_of_elements. Qed.

Section asked.
Context `{PodNames, PortConfigCodec}.
Context (i : RoleInstance) (expected : gmap string (gset Z)) (revision : string).

(** A pod that the expectations ask for. *)
Definition asked_pod (p : Pod) : Prop :=
  exists c id ids, c ∈ ris_Components (ri_spec i) /\ expected !! ric_Name c = Some ids /\ id ∈ ids /\
    pod_identity i revision (ric_Name c) id p.

Lemma NewUpdatePods_asked c ids l :
  c ∈ ris_Components (ri_spec i) -> (forall id, id ∈ ids -> exists s, expected !! ric_Name c = Some s /\ id ∈ s) ->
  NewUpdatePods i revision (ric_Name c) ids = Ok l -> forall p, p ∈ l -> asked_pod p.
Proof.
  intros Hc Hids. unfold NewUpdatePods.
  destruct (List.find _ _) as [c'|] eqn:Hf; [|destruct ids; [by intros [= <-] p ?%elem_of_nil|done]].
  intros [= <-] p (id & -> & Hid)%list_elem_of_fmap. destruct (Hids id Hid) as (s & Hs & Hin).
  exists c, id, s. split; [done|]. split; [done|]. split; [done|]. apply new_pod_identity.
Qed.

Lemma add_component_asked acc c acc' :
  c ∈ ris_Components (ri_spec i) -> (forall p, p ∈ crn_newPods acc -> asked_pod p) ->
  add_component i expected revision acc c = Ok acc' -> forall p, p ∈ crn_newPods acc' -> asked_pod p.
Proof.
  intros Hc Hacc. unfold add_component. destruct (NewUpdatePods _ _ _ _) as [l|] eqn:Hl; [|done].
  assert (forall p, p ∈ (crn_newPods acc ++ l)%list -> asked_pod p) as Hall.
  { intros p [Hp|Hp]%elem_of_app; [auto|]. eapply NewUpdatePods_asked, Hp; [done| |done]. intros id.
    rewrite elem_of_ids_in_order. destruct (expected !! ric_Name c); [eauto|]. by intros ?%elem_of_empty. }
  destruct (HasPortAllocatorConfig _); cbn [negb]; [|by intros [= <-]].
  destruct (ParsePortAllocatorConfig _); [|done]. by intros [= <-].
Qed.

Lemma add_components_asked cs acc acc' :
  (forall c, c ∈ cs -> c ∈ ris_Components (ri_spec i)) -> (forall p, p ∈ crn_newPods acc -> asked_pod p) ->
  add_components i expected revision acc cs = Ok acc' -> forall p, p ∈ crn_newPods acc' -> asked_pod p.
Proof.
  revert acc. induction cs as [|c cs IH]; intros acc Hcs Hacc; cbn [add_components]; [by intros [= <-]|].
  destruct (add_component _ _ _ acc c) as [acc1|] eqn:Ha; [|done]. apply IH; [set_solver|].
  eapply add_component_asked, Ha; [set_solver|done].
Qed.

Context `{DiscoveryCodec, QualifiedNames, Env}.

(** The calls that create pods create only pods asked for, whose name was free. *)
Definition creates_asked (c : api_call) : Prop :=
  match c with
  | CallCreatePod p => asked_pod p
  | CallGetPod _ _ => True
  | _ => False
  end.

Lemma only_ask {A} (ok : api_call -> Prop) c (answer : list api_call -> result A) w r w' :
  ok c -> request c answer w = (r, w') -> only ok w w'.
Proof.
  intros Hc [-> ->]%request_inv. exists [c]. split; [done|]. by intros x ->%list_elem_of_singleton.
Qed.

Lemma getExistingPod_inv ns name w r w' :
  getExistingPod ns name w = (r, w') -> exists x, r = Ok x /\ w' = with_trace (CallGetPod ns name :: w_trace w) w.
Proof. intros (y & w1 & [-> ->]%request_inv & [-> ->]%ret_inv)%attempt_inv. eauto. Qed.

Lemma choose_pods_asked acc newPods channel foreign w r w' :
  (forall p, p ∈ newPods -> asked_pod p) -> (forall p, p ∈ channel -> asked_pod p) ->
  choose_pods i acc newPods channel foreign w = (r, w') ->
  only creates_asked w w' /\ (forall l errs, r = Ok (Ok (l, errs)) -> forall p, p ∈ l -> asked_pod p).
Proof.
  revert channel foreign w. induction newPods as [|p newPods IH]; intros channel foreign w Hnew Hch; cbn [choose_pods].
  { intros [-> ->]%ret_inv. split; [apply only_refl|]. by intros l errs [= <- <-]. }
  intros [(e & He & ->)|(x & w1 & He & Hr)]%bind_inv; [by apply getExistingPod_inv in He as (? & [=] & _)|].
  apply getExistingPod_inv in He as (y & [= <-] & ->).
  set (w1 := with_trace _ w) in *.
  assert (only creates_asked w w1) as Hw1.
  { exists [CallGetPod (om_Namespace (pod_meta p)) (pod_Name p)]. split; [done|]. by intros c ->%list_elem_of_singleton. }
  assert (forall ch fo, (forall q, q ∈ ch -> asked_pod q) -> choose_pods i acc newPods ch fo w1 = (r, w') ->
    only creates_asked w w' /\ (forall l errs, r = Ok (Ok (l, errs)) -> forall p, p ∈ l -> asked_pod p)) as Hnext.
  { intros ch fo Hcf Hrun. destruct (IH ch fo w1) as [Ho Hl]; [intros q Hq; apply Hnew; by right|done|done|].
    split; [by eapply only_trans|done]. }
  destruct x as [[existing|]|e]; [| |].
  - destruct (IsControlledBy _ _); cbn [negb] in Hr; [by eapply Hnext|].
    destruct (isGangSchedulingEnabled i); [|by eapply Hnext].
    apply ret_inv in Hr as [-> ->]. by split.
  - apply bind_inv in Hr as [(e & [=] & _)|(b & w2 & [= <- <-] & Hr)].
    destruct (prepare_pod _ _ _ _) as [p'|] eqn:Hp; [|apply ret_inv in Hr as [-> ->]; by split].
    apply (Hnext _ _) in Hr; [done|]. intros q [Hq|Hq]%elem_of_snoc; [auto|subst q].
    destruct (Hnew p) as (c & id & ids & ? & ? & ? & Hi); [by left|]. exists c, id, ids. split; [done|].
    split; [done|]. split; [done|]. eapply pod_identity_same, Hi. by eapply prepare_pod_identity.
  - apply ret_inv in Hr as [-> ->]. by split.
Qed.

Lemma createPods_asked w r w' :
  createPods i expected revision w = (r, w') -> only creates_asked w w'.
Proof.
  unfold createPods. destruct (add_components _ _ _ _ _) as [acc|] eqn:Hacc;
    [|intros [-> ->]%ret_inv; apply only_refl].
  assert (forall p, p ∈ crn_newPods acc -> asked_pod p) as Hasked.
  { eapply add_components_asked, Hacc; [done|]. by intros p ?%elem_of_nil. }
  intros [(e & He & ->)|(x & w1 & He & Hr)]%bind_inv.
  { eapply choose_pods_asked in He as [Ho _]; [exact Ho|done|]. by intros p ?%elem_of_nil. }
  eapply choose_pods_asked in He as [Ho Hl]; [|done|by intros p ?%elem_of_nil].
  destruct x as [[channel foreign]|e]; [|apply ret_inv in Hr as [-> ->]; exact Ho].
  assert (forall r w', DoItSlowly (fun w => env_schedule (w_trace w)) channel initialBatchSize CreatePod w1 = (r, w') ->
    only creates_asked w w') as Hd.
  { intros r2 w2 Hd. eapply only_trans; [exact Ho|]. eapply only_slowly_loop, Hd; [intros; apply env_schedule_perm|].
    intros p w3 r3 w4 Hp Hc. eapply only_ask, Hc. cbn. by eapply Hl. }
  apply bind_inv in Hr as [(e & He & ->)|([created err] & w2 & He & Hr)]; [by eapply Hd|].
  apply ret_inv in Hr as [-> ->]. by eapply Hd.
Qed.
End asked.
