(* ===== verification/InstanceScaling.v ===== *)
(** What scaling a RoleInstance does (InstanceScale.v): which pods it deletes and
    creates, in which order of the components, and that an ordering without a
    cycle never blocks the deletions. *)
From Stdlib Require Import ZArith Lia Bool Ascii String.
From stdpp Require Import base tactics list strings gmap sets sorting.
From S2P Require Import Prelude GoStrings Types Effects Revisions SlowStart InstancePods ComponentOrder NodeBindings PortAllocator InstanceWorld InstanceRestarts PodInPlace InstanceDemo InstanceScale InstanceCreation.

(** * The topology of an instance *)

Lemma GroupPods_lookup pods name :
  default [] (GroupPodsByComponentName pods !! name)
  = List.filter (fun p => bool_decide (GetPodComponentName p = name)) pods.
Proof.
  unfold GroupPodsByComponentName. rewrite <-(rev_involutive pods). induction (rev pods) as [|p l IH]; [done|].
  cbn [rev]. rewrite fold_left_app, List.filter_app, <-IH. cbn [fold_left List.filter]. rewrite lookup_insert.
  case_decide as Hn; [subst|].
  - by rewrite bool_decide_eq_true_2.
  - rewrite bool_decide_eq_false_2 by done. by rewrite app_nil_r.
Qed.

(** The pods of a component. *)
Definition pods_of (c : RoleInstanceComponent) (pods : list Pod) : list Pod :=
  List.filter (fun p => bool_decide (GetPodComponentName p = ric_Name c)) pods.

Lemma elem_of_pods_of c pods p : p ∈ pods_of c pods <-> p ∈ pods /\ GetPodComponentName p = ric_Name c.
Proof. unfold pods_of. rewrite !list_elem_of_In, filter_In, bool_decide_eq_true. done. Qed.

Lemma topologies_spec pods cs gs :
  topologies (GroupPodsByComponentName pods) cs = Ok gs ->
  Forall2 (fun c g => exists size, ric_Size c = Some size /\ g = newComponentPodGroup c size (pods_of c pods)) cs gs.
Proof.
  revert gs. induction cs as [|c cs IH]; intros gs; cbn [topologies]; [intros [= <-]; constructor|].
  destruct (ric_Size c) as [size|] eqn:Hs; [|done].
  destruct (topologies _ cs) as [gs'|] eqn:Ht; [|done]. intros [= <-]. constructor; [|by apply IH].
  exists size. split; [done|]. unfold pods_of. by rewrite GroupPods_lookup.
Qed.

Lemma size_list_to_set_le (l : list string) : (size (list_to_set l : gset string) <= length l)%nat.
Proof.
  induction l as [|x l IH]; [done|]. cbn [list_to_set length].
  rewrite size_union_alt, size_singleton. apply le_n_S. etrans; [apply subseteq_size, subseteq_difference_l|]; done.
Qed.

Lemma NoDup_of_size (l : list string) : size (list_to_set l : gset string) = length l -> NoDup l.
Proof.
  induction l as [|x l IH]; [constructor|]. cbn [list_to_set length]. intros Hn.
  pose proof (size_list_to_set_le l). destruct (decide (x ∈ l)) as [Hx|Hx].
  - replace ({[x]} ∪ list_to_set l) with (list_to_set l : gset string) in Hn by set_solver. lia.
  - rewrite size_union, size_singleton in Hn by set_solver. constructor; [done|]. apply IH. lia.
Qed.

Lemma GetComponentsTopology_spec i pods gs :
  GetComponentsTopology i pods = Ok gs ->
  Forall2 (fun c g => exists size, ric_Size c = Some size /\ g = newComponentPodGroup c size (pods_of c pods))
    (ris_Components (ri_spec i)) gs /\ NoDup (map cpg_Name gs).
Proof.
  unfold GetComponentsTopology. destruct (topologies _ _) as [gs'|] eqn:Ht; [|done].
  destruct (Nat.eqb_spec (size (list_to_set (map cpg_Name gs') : gset string)) (length gs')) as [Hn|]; [|done].
  cbn [negb]. intros [= <-]. split; [by apply topologies_spec|].
  apply NoDup_of_size. by rewrite Hn, length_map.
Qed.

Lemma ToScaleIDs_spec c size pods id :
  id ∈ cpg_ToScaleIDs (newComponentPodGroup c size pods) <->
  0 <= id < size /\ ~ (exists p, p ∈ pods /\ GetPodComponentID p = id).
Proof.
  cbn. rewrite elem_of_list_to_set, list_elem_of_In, filter_In, <-list_elem_of_In, elem_of_seqZ, negb_true_iff,
    bool_decide_eq_false. rewrite Z.add_0_l. split; intros (Hr & Hn); (split; [done|]); contradict Hn.
  - destruct Hn as (p & Hp & Hid). apply elem_of_list_to_set, list_elem_of_fmap. exists p. split; [done|].
    rewrite list_elem_of_In, filter_In, <-list_elem_of_In. split; [done|]. rewrite Hid. by apply negb_true_iff, Z.eqb_neq; lia.
  - apply elem_of_list_to_set, list_elem_of_fmap in Hn as (p & -> & Hp). exists p.
    rewrite list_elem_of_In, filter_In, <-list_elem_of_In in Hp. split; [apply Hp|done].
Qed.

Lemma ToDeleteIDs_spec c size pods id :
  id ∈ cpg_ToDeleteIDs (newComponentPodGroup c size pods) <->
  size <= id /\ id <> -1 /\ exists p, p ∈ pods /\ GetPodComponentID p = id.
Proof.
  cbn. rewrite elem_of_filter, elem_of_list_to_set, list_elem_of_fmap.
  setoid_rewrite list_elem_of_In. setoid_rewrite filter_In. setoid_rewrite negb_true_iff. setoid_rewrite Z.eqb_neq.
  setoid_rewrite <-list_elem_of_In. naive_solver.
Qed.

Lemma ToDeletePod_spec c size pods p :
  p ∈ cpg_ToDeletePod (newComponentPodGroup c size pods) <->
  p ∈ pods /\ (GetPodComponentID p = -1 \/ size <= GetPodComponentID p).
Proof.
  cbn [newComponentPodGroup cpg_ToDeletePod]. rewrite list_elem_of_In, filter_In, <-list_elem_of_In, orb_true_iff, Z.eqb_eq,
    bool_decide_eq_true.
  change (filter _ _) with (cpg_ToDeleteIDs (newComponentPodGroup c size pods)). rewrite ToDeleteIDs_spec.
  destruct (decide (GetPodComponentID p = -1)); naive_solver.
Qed.

Lemma has_excess_iff g : has_excess g = true <-> exists id, id ∈ cpg_ToDeleteIDs g.
Proof.
  unfold has_excess. rewrite Nat.ltb_lt. split.
  - intros Hs. destruct (decide (cpg_ToDeleteIDs g = ∅)) as [He|He]; [rewrite He, size_empty in Hs; lia|].
    by apply set_choose_L in He.
  - intros (id & Hid). destruct (size (cpg_ToDeleteIDs g)) eqn:Hs; [|lia].
    apply size_empty_inv in Hs. set_solver.
Qed.

(** * The difference *)

Section justified.
Context (ready free : ComponentPodGroup -> bool) (topos : list ComponentPodGroup).

(** Everything in the difference has a group that may create or delete. *)
Definition justified (always : list Pod) (d : expectationDiff) : Prop :=
  (forall name ids, ed_toScaleRoleIDS d !! name = Some ids ->
    exists g, g ∈ topos /\ cpg_Name g = name /\ ids = cpg_ToScaleIDs g /\ ready g = true) /\
  (forall p, p ∈ ed_toDeletePod d -> p ∈ always \/ exists g, g ∈ topos /\ p ∈ cpg_ToDeletePod g /\ free g = true).

Lemma justified_delete always d g :
  g ∈ topos -> justified always d -> justified always (delete_group free d g).
Proof.
  intros Hg [Hs Hd]. unfold delete_group. destruct (has_excess g && free g) eqn:He; [|done].
  apply andb_prop in He as [_ Hf]. split; [done|]. cbn. intros p [Hp|Hp]%elem_of_app; [auto|]. right. eauto.
Qed.

Lemma justified_scale always d g :
  g ∈ topos -> justified always d -> justified always (scale_group ready d g).
Proof.
  intros Hg [Hs Hd]. unfold scale_group. destruct (_ && ready g) eqn:He; [|done].
  apply andb_prop in He as [_ Hf]. split; [|done]. cbn. intros name ids. rewrite lookup_insert.
  case_decide; [intros [= <-]; eauto|auto].
Qed.
End justified.

Lemma fold_left_inv {A B} (P : B -> Prop) (f : B -> A -> B) l b :
  P b -> (forall b x, x ∈ l -> P b -> P (f b x)) -> P (fold_left f l b).
Proof.
  revert b. induction l as [|x l IH]; intros b Hb Hf; [done|]. cbn [fold_left].
  apply IH; [apply Hf; [by left|done]|]. intros b' y Hy. apply Hf. by right.
Qed.

Lemma justified_always ready free topos pods : justified ready free topos pods (delete_all pods).
Proof. split; [intros n ids; cbn; by rewrite lookup_empty|]. intros p Hp. by left. Qed.

Lemma parallel_justified topos pods :
  justified (fun _ => true) (fun _ => true) topos pods (parallel_diff topos (delete_all pods)).
Proof.
  unfold parallel_diff. apply (fold_left_inv (justified _ _ topos pods)); [apply justified_always|]. intros d g Hg Hd.
  by apply justified_scale, justified_delete.
Qed.

(** How many pods are to go and to come. *)
Lemma delete_num_le free d g : ed_toDeleteNum d <= ed_toDeleteNum (delete_group free d g).
Proof. unfold delete_group. destruct (_ && _); cbn; lia. Qed.

Lemma delete_num_lt free d g :
  has_excess g = true -> free g = true -> ed_toDeleteNum d < ed_toDeleteNum (delete_group free d g).
Proof. unfold delete_group. intros He ->. rewrite He. cbn. unfold has_excess in He. apply Nat.ltb_lt in He. lia. Qed.

Lemma scale_deletes_same ready d g :
  ed_toDeleteNum (scale_group ready d g) = ed_toDeleteNum d /\ ed_toDeletePod (scale_group ready d g) = ed_toDeletePod d.
Proof. unfold scale_group. by destruct (_ && _). Qed.

(** A fold that only adds to the number, and adds at one of its elements. *)
Lemma fold_left_grows {A B} (f : B -> A -> B) (num : B -> Z) l b x :
  (forall b x, num b <= num (f b x)) -> x ∈ l -> (forall b, num b < num (f b x)) -> num b < num (fold_left f l b).
Proof.
  intros Hle Hx Hlt. assert (forall l b, num b <= num (fold_left f l b)) as Hfold.
  { intros l'. induction l' as [|y l' IH]; intros b'; cbn [fold_left]; [lia|]. etrans; [apply Hle|apply IH]. }
  revert b. induction Hx as [x l|x y l Hx IH]; intros b; cbn [fold_left].
  - specialize (Hfold l (f b x)). specialize (Hlt b). lia.
  - specialize (Hle b y). specialize (IH Hlt (f b y)). lia.
Qed.

Section order.
Context `{MapRange, DependsOnCodec}.

Lemma ordered_justified i start gates topos pods :
  justified (fun g => allNamedComponentsReady (default [] (start !! cpg_Name g)) (rist_ComponentStatuses (ri_status i)))
    (fun g => allDependentsDeleted (default [] (gates !! cpg_Name g)) (topo_map topos)) topos pods
    (ordered_diff i start gates topos (delete_all pods)).
Proof.
  unfold ordered_diff. apply (fold_left_inv (justified _ _ topos pods));
    [apply (fold_left_inv (justified _ _ topos pods)); [apply justified_always|]|]; intros d g Hg Hd;
    [by apply justified_scale|by apply justified_delete].
Qed.

Lemma topo_map_lookup topos name g :
  NoDup (map cpg_Name topos) -> topo_map topos !! name = Some g <-> g ∈ topos /\ cpg_Name g = name.
Proof.
  unfold topo_map. rewrite <-(rev_involutive topos). induction (rev topos) as [|x l IH]; [set_solver|].
  cbn [rev]. rewrite map_app, fold_left_app, NoDup_app. cbn [map fold_left]. intros (Hl & Hx & _).
  rewrite lookup_insert, elem_of_snoc. case_decide as Hn.
  - split; [intros [= <-]; auto|]. intros [[Hg|<-] Hname]; [|done]. exfalso. apply (Hx (cpg_Name g)); [|set_solver].
    by apply list_elem_of_fmap_2.
  - rewrite IH by done. naive_solver.
Qed.

Lemma order_of_acyclic cs start delete gs :
  order_of cs start delete = Some gs -> gs = (start, BuildDeletionGates start delete) /\ ~ cyclic start /\ ~ cyclic gs.2.
Proof.
  unfold order_of. destruct (HasAnyDependency cs); [|done]. cbn [negb].
  destruct (has_cycle start) eqn:H1; [done|]. destruct (has_cycle (BuildDeletionGates _ _)) eqn:H2; [done|].
  intros [= <-]. split; [done|]. cbn.
  assert (forall g, has_cycle g = false -> ~ cyclic g) as Hc; [|by split; apply Hc].
  intros g. unfold has_cycle. destruct (DetectCycle_spec g) as (b & -> & Hb). cbn. intros -> Hcy. by apply Hb in Hcy.
Qed.

Lemma dependents_deleted topos g names :
  NoDup (map cpg_Name topos) -> g ∈ topos -> cpg_Name g ∈ names ->
  allDependentsDeleted names (topo_map topos) = true -> has_excess g = false.
Proof.
  intros Hnd Hg Hn Hall. unfold allDependentsDeleted in Hall. rewrite forallb_forall in Hall.
  specialize (Hall (cpg_Name g) ltac:(by apply list_elem_of_In)).
  rewrite (proj2 (topo_map_lookup topos (cpg_Name g) g Hnd)) in Hall by done. by apply negb_true_iff.
Qed.

(** In the ordered mode some group with excess pods is free to delete them. *)
Lemma ordered_deletes i start gates topos d g :
  NoDup (map cpg_Name topos) -> ~ cyclic gates -> g ∈ topos -> has_excess g = true ->
  ed_toDeleteNum d < ed_toDeleteNum (ordered_diff i start gates topos d).
Proof.
  intros Hnd Hac Hg He. unfold ordered_diff. set (free := fun g => allDependentsDeleted _ _).
  set (excess := fun name => exists g, topo_map topos !! name = Some g /\ has_excess g = true).
  assert (forall x, Decision (excess x)) as Hdec.
  { intros x. unfold excess. destruct (topo_map topos !! x) as [g'|]; [|right; by intros (? & [=] & _)].
    destruct (has_excess g') eqn:Hex; [left; eauto|right; intros (? & [= <-] & ?); congruence]. }
  destruct (acyclic_exit gates excess (dom (topo_map topos))) as (x & (g' & Hx & He') & Hfree); [done|done|..].
  { intros x (g' & Hx & _). apply elem_of_dom. eauto. }
  { exists (cpg_Name g), g. split; [by apply topo_map_lookup|done]. }
  apply topo_map_lookup in Hx as [Hg' Hn]; [|done].
  eapply Z.le_lt_trans, (fold_left_grows _ _ _ _ g'); [|intros; apply delete_num_le|done|].
  - apply (fold_left_inv (fun d' => ed_toDeleteNum d <= ed_toDeleteNum d')); [lia|].
    intros d' g'' _ Hd. by rewrite (proj1 (scale_deletes_same _ d' g'')).
  - intros d'. apply delete_num_lt; [done|]. unfold free, allDependentsDeleted. apply forallb_forall.
    intros dep Hdep%list_elem_of_In. destruct (topo_map topos !! dep) as [gd|] eqn:Hd; [|done].
    destruct (has_excess gd) eqn:Hex; [|done]. exfalso. eapply (Hfree dep); [unfold edge; by rewrite <-Hn|].
    exists gd. done.
Qed.

Lemma parallel_deletes topos d g :
  g ∈ topos -> has_excess g = true -> ed_toDeleteNum d < ed_toDeleteNum (parallel_diff topos d).
Proof.
  intros Hg He. unfold parallel_diff. eapply (fold_left_grows _ _ _ _ g); [|done|]; intros d'; intros;
    rewrite (proj1 (scale_deletes_same _ _ _)); [apply delete_num_le|by apply delete_num_lt].
Qed.
End order.

(** * What a pass asks for *)

(** The parts of an instance that its restart tracking leaves alone. *)
Definition same_but_tracking (i i' : RoleInstance) : Prop :=
  ri_meta i' = ri_meta i /\ ri_spec i' = ri_spec i /\
  rist_ComponentStatuses (ri_status i') = rist_ComponentStatuses (ri_status i) /\
  rist_Baselines (ri_status i') = rist_Baselines (ri_status i) /\ updating i' = updating i /\ spec_changed i' = spec_changed i.

Lemma same_but_tracking_refl i : same_but_tracking i i.
Proof. done. Qed.

Lemma adopt_tracking_same i fresh : same_but_tracking i (adopt_tracking i fresh).
Proof. unfold adopt_tracking. by repeat case_match. Qed.

Section plan.
Context `{MapRange, DependsOnCodec, InPlaceCodec}.

Lemma component_diff_tracking i i' pods inactivePods :
  same_but_tracking i i' -> component_diff i' pods inactivePods = component_diff i pods inactivePods.
Proof.
  intros (Hm & Hs & Hc & _). unfold component_diff, GetComponentsTopology, ordered_diff. by rewrite Hs, Hc.
Qed.

(** The restart policy asks for a recreation: a pod has failed or restarted for no
    reason the controller knows, while no update is going on. *)
Definition restart_called (i : RoleInstance) (pods : list Pod) : Prop :=
  recreate_policy i = true /\ updating i = false /\ spec_changed i = false /\
  exists q, q ∈ pods /\ triggers (rist_Baselines (ri_status i)) q = true.

(** A gang with a pod that cannot be brought to the update revision in place. *)
Definition gang_broken (i : RoleInstance) (currentRevision updateRevision : ControllerRevision)
    (revisions : list ControllerRevision) (pods : list Pod) : Prop :=
  isGangSchedulingEnabled i = true /\
  exists q, q ∈ pods /\ CanUpdateInPlace (Some (default currentRevision (pod_revision revisions q))) (Some updateRevision)
                          (GetUpdateOptions i) = Some false.

Lemma gang_recreates_broken i cur upd revs pods :
  gang_recreates i cur upd revs pods = Some true ->
  exists q, q ∈ pods /\ CanUpdateInPlace (Some (default cur (pod_revision revs q))) (Some upd) (GetUpdateOptions i) = Some false.
Proof.
  induction pods as [|p pods IH]; [done|]. cbn [gang_recreates].
  destruct (CanUpdateInPlace _ _ _) as [[]|] eqn:He; [|intros _|done].
  - intros (q & Hq & Hc)%IH. exists q. split; [by right|done].
  - exists p. split; [by left|done].
Qed.

(** Where a difference comes from. *)
Inductive plan (i : RoleInstance) (currentRevision updateRevision : ControllerRevision) (revisions : list ControllerRevision)
    (pods inactivePods : list Pod) : expectationDiff -> Prop :=
| plan_backoff d : 0 < d -> plan i currentRevision updateRevision revisions pods inactivePods (requeue_after d)
| plan_restart : restart_called i (pods ++ inactivePods)%list ->
    plan i currentRevision updateRevision revisions pods inactivePods (delete_all (pods ++ inactivePods)%list)
| plan_gang : gang_broken i currentRevision updateRevision revisions pods ->
    plan i currentRevision updateRevision revisions pods inactivePods (delete_all pods)
| plan_components d : component_diff i pods inactivePods = Ok d ->
    plan i currentRevision updateRevision revisions pods inactivePods d.

Context `{Env}.

Definition reads_instance (c : api_call) : Prop :=
  match c with CallGetInstance Live _ _ => True | _ => False end.

Lemma only_reading {A} ns name (f : result RoleInstance -> A) w r w' :
  attempt (GetInstance Live ns name) (fun x => mret (f x)) w = (r, w') -> only reads_instance w w'.
Proof. intros (x & w1 & Hx & [-> ->]%ret_inv)%attempt_inv. by eapply only_ask, Hx. Qed.

Lemma syncRestartTracking_inv i w r w' :
  syncRestartTrackingFromAPI i w = (r, w') ->
  only reads_instance w w' /\ exists i' fresh, r = Ok (i', fresh) /\ same_but_tracking i i'.
Proof.
  unfold syncRestartTrackingFromAPI. destruct env_apiReader; cbn [negb].
  - intros Hr. split; [by eapply only_reading, Hr|]. apply attempt_inv in Hr as (x & w1 & _ & [-> ->]%ret_inv).
    destruct x as [fresh|]; eauto using adopt_tracking_same, same_but_tracking_refl.
  - intros [-> ->]%ret_inv. split; [apply only_refl|]. eauto using same_but_tracking_refl.
Qed.

Lemma isAlreadyRestarting_inv i w r w' :
  isAlreadyRestarting i w = (r, w') -> only reads_instance w w' /\ exists b, r = Ok b.
Proof.
  unfold isAlreadyRestarting. intros [(e & [=] & _)|(cached & w1 & [= <- <-] & Hr)]%bind_inv.
  destruct (bool_decide _); [apply ret_inv in Hr as [-> ->]; split; [apply only_refl|eauto]|].
  destruct env_apiReader; cbn [negb] in Hr; [|apply ret_inv in Hr as [-> ->]; split; [apply only_refl|eauto]].
  split; [eapply only_reading, Hr|]. apply attempt_inv in Hr as (x & w3 & _ & [-> _]%ret_inv). eauto.
Qed.

Lemma guarded_inv i pods bs w r w' :
  shouldRecreateInstanceGuarded i pods bs w = (r, w') ->
  only reads_instance w w' /\ exists b, r = Ok b /\ (b = true -> exists t, shouldRecreateInstance i pods bs t = true).
Proof.
  unfold shouldRecreateInstanceGuarded. intros Hr%clock_inv. set (w0 := with_clock _ w) in *.
  assert (only reads_instance w w0) as Hw0 by by apply only_same.
  destruct (shouldRecreateInstance i pods bs _) eqn:Hs;
    [|apply ret_inv in Hr as [-> ->]; split; [done|by exists false]].
  apply bind_inv in Hr as [(e & He & ->)|(a & w1 & He & [-> ->]%ret_inv)];
    apply isAlreadyRestarting_inv in He as (Ho & b & Hb); [done|].
  split; [by eapply only_trans|]. eauto.
Qed.

Lemma shouldRecreate_called i i1 pods t :
  same_but_tracking i i1 -> shouldRecreateInstance i1 pods (rist_Baselines (ri_status i1)) t = true -> restart_called i pods.
Proof.
  intros (Hm & Hs & _ & Hb & Hu & Hc). unfold shouldRecreateInstance, restart_called, recreate_policy. rewrite Hs, Hb, Hu, Hc.
  destruct (bool_decide _); [|done]. cbn [negb]. destruct pods as [|p pods]; [done|].
  destruct (spec_changed i); [by rewrite orb_true_r|]. destruct (_ || false); [done|]. destruct (updating i); [done|].
  intros (q & Hq & Ht)%existsb_exists. split_and!; [done..|]. exists q. split; [by apply list_elem_of_In|done].
Qed.

(** Only the tracking of the instance changes, and the difference has a source. *)
Definition planned (i : RoleInstance) (cur upd : ControllerRevision) (revs : list ControllerRevision)
    (pods inactivePods : list Pod) (r : result (result expectationDiff * RoleInstance)) : Prop :=
  forall x i', r = Ok (x, i') -> same_but_tracking i i' /\ forall d, x = Ok d -> plan i cur upd revs pods inactivePods d.

Lemma gang_recreates_tracking i i1 cur upd revs pods :
  same_but_tracking i i1 -> gang_recreates i1 cur upd revs pods = gang_recreates i cur upd revs pods.
Proof.
  intros (Hm & Hs & _). assert (GetUpdateOptions i1 = GetUpdateOptions i) as Ho by (unfold GetUpdateOptions; by rewrite Hm).
  induction pods as [|p pods IH]; [done|]. cbn [gang_recreates]. by rewrite IH, Ho.
Qed.

Lemma recreate_or_scale_inv i i1 cur upd revs pods inactivePods w r w' :
  same_but_tracking i i1 -> recreate_or_scale i1 cur upd revs pods inactivePods w = (r, w') ->
  only reads_instance w w' /\ planned i cur upd revs pods inactivePods r.
Proof.
  intros Hsame. unfold recreate_or_scale. rewrite (gang_recreates_tracking i i1) by done.
  assert (isGangSchedulingEnabled i1 = isGangSchedulingEnabled i) as Hg.
  { unfold isGangSchedulingEnabled. by rewrite (proj1 Hsame). }
  intros [(e & He & ->)|(b & w1 & He & Hr)]%bind_inv; apply guarded_inv in He as (Ho & b' & [= <-] & Hpol).
  destruct b.
  { unfold mark_restarting in Hr. injection Hr as <- <-. split; [eapply only_trans; [exact Ho|by apply only_same]|].
    intros x i' [= <- <-]. split; [by destruct Hsame as (? & ? & ? & ? & ? & ?)|]. intros d [= <-]. apply plan_restart.
    destruct Hpol as (t & Ht); [done|]. by eapply shouldRecreate_called. }
  rewrite Hg in Hr. destruct (isGangSchedulingEnabled i) eqn:Hgang.
  - destruct (gang_recreates i cur upd revs pods) as [[]|] eqn:Hgr; injection Hr as <- <-;
      (split; [done|]); intros x i' [= <- <-]; (split; [done|]).
    + intros d [= <-]. apply plan_gang. split; [done|]. by apply gang_recreates_broken.
    + intros d Hd. apply plan_components. by rewrite <-(component_diff_tracking i i1).
  - injection Hr as <- <-. split; [done|]. intros x i' [= <- <-]. split; [done|].
    intros d Hd. apply plan_components. by rewrite <-(component_diff_tracking i i1).
Qed.

Lemma calculateDiffs_inv i cur upd revs pods inactivePods w r w' :
  calculateDiffsWithExpectation i cur upd revs pods inactivePods w = (r, w') ->
  only reads_instance w w' /\ planned i cur upd revs pods inactivePods r.
Proof.
  unfold calculateDiffsWithExpectation.
  assert (forall r w', (if recreate_policy i then syncRestartTrackingFromAPI i else mret (i, None)) w = (r, w') ->
    only reads_instance w w' /\ exists i' fresh, r = Ok (i', fresh) /\ same_but_tracking i i') as Hsync.
  { intros r1 w1. destruct (recreate_policy i); [apply syncRestartTracking_inv|].
    intros [-> ->]%ret_inv. split; [apply only_refl|]. eauto using same_but_tracking_refl. }
  intros [(e & He & ->)|([i1 fresh] & w1 & He & Hr)]%bind_inv; apply Hsync in He as (Ho & i2 & f & [= <- <-] & Hsame).
  apply clock_inv, clock_inv in Hr. cbv zeta in Hr. match type of Hr with _ ?s = _ => set (w2 := s) in Hr end.
  assert (only reads_instance w w2) as Ho2 by (eapply only_trans; [exact Ho|by apply only_same]).
  match type of Hr with context [?q >? 0] => destruct (Z.gtb_spec q 0) end.
  - apply ret_inv in Hr as [-> ->]. split; [done|]. intros x i' [= <- <-]. split; [done|]. intros d [= <-].
    by constructor.
  - apply recreate_or_scale_inv with (i := i) in Hr as [Ho3 Hp]; [|done]. split; [by eapply only_trans|done].
Qed.
End plan.

(** * The pods of a difference *)

(** The pod that [p] stands for, a number below the size of its component, has no
    pod yet. *)
Definition missing_pod (i : RoleInstance) (revision : string) (pods : list Pod) (p : Pod) : Prop :=
  exists c size id, c ∈ ris_Components (ri_spec i) /\ ric_Size c = Some size /\ 0 <= id < size /\
    pod_identity i revision (ric_Name c) id p /\
    forall q, q ∈ pods -> GetPodComponentName q = ric_Name c -> GetPodComponentID q <> id.

(** A pod beyond the size of its component, or without a number. *)
Definition excess_pod (i : RoleInstance) (pods : list Pod) (p : Pod) : Prop :=
  exists c size, c ∈ ris_Components (ri_spec i) /\ ric_Size c = Some size /\ p ∈ pods /\
    GetPodComponentName p = ric_Name c /\ (GetPodComponentID p = -1 \/ size <= GetPodComponentID p).

Definition failed_inactive (inactivePods : list Pod) (p : Pod) : Prop := p ∈ inactivePods /\ failed p = true.

Section diffs.
Context `{MapRange, DependsOnCodec}.

(** The order in force for an instance; [None] is the parallel mode. *)
Definition order_in_force (i : RoleInstance) : option (graph * graph) :=
  match ParseAllComponentDependencies (ris_Components (ri_spec i)) with
  | Ok (startDeps, deleteDeps) => order_of (ris_Components (ri_spec i)) startDeps deleteDeps
  | Err _ => None
  end.

Lemma component_diff_inv i pods inactivePods d :
  component_diff i pods inactivePods = Ok d ->
  exists topos, GetComponentsTopology i pods = Ok topos /\
    d = match order_in_force i with
        | Some (start, gates) => ordered_diff i start gates topos (delete_all (List.filter failed inactivePods))
        | None => parallel_diff topos (delete_all (List.filter failed inactivePods))
        end.
Proof.
  unfold component_diff, order_in_force. destruct (GetComponentsTopology i pods) as [topos|]; [|done].
  destruct (ParseAllComponentDependencies _) as [[start delete]|]; [|done]. intros [= <-]. eauto.
Qed.

(** The gates of the mode in force. *)
Definition may_scale (i : RoleInstance) (g : ComponentPodGroup) : bool :=
  match order_in_force i with
  | None => true
  | Some (start, _) =>
      allNamedComponentsReady (default [] (start !! cpg_Name g)) (rist_ComponentStatuses (ri_status i))
  end.

Definition may_delete (i : RoleInstance) (topos : list ComponentPodGroup) (g : ComponentPodGroup) : bool :=
  match order_in_force i with
  | None => true
  | Some (_, gates) => allDependentsDeleted (default [] (gates !! cpg_Name g)) (topo_map topos)
  end.

Lemma component_diff_justified i pods inactivePods d :
  component_diff i pods inactivePods = Ok d ->
  exists topos, GetComponentsTopology i pods = Ok topos /\
    justified (may_scale i) (may_delete i topos) topos (List.filter failed inactivePods) d.
Proof.
  intros (topos & Ht & ->)%component_diff_inv. exists topos. split; [done|].
  unfold may_scale, may_delete. destruct (order_in_force i) as [[start gates]|];
    [apply ordered_justified|apply parallel_justified].
Qed.

Lemma topology_group i pods topos g :
  GetComponentsTopology i pods = Ok topos -> g ∈ topos ->
  exists c size, c ∈ ris_Components (ri_spec i) /\ ric_Size c = Some size /\
    g = newComponentPodGroup c size (pods_of c pods).
Proof.
  intros [Hf _]%GetComponentsTopology_spec Hg. apply list_elem_of_lookup in Hg as (k & Hk).
  eapply Forall2_lookup_r in Hf as (c & Hc & size & ? & ?); [|done]. exists c, size.
  split; [by eapply list_elem_of_lookup_2|done].
Qed.

Lemma component_group i pods topos c :
  GetComponentsTopology i pods = Ok topos -> c ∈ ris_Components (ri_spec i) ->
  exists size, ric_Size c = Some size /\ newComponentPodGroup c size (pods_of c pods) ∈ topos.
Proof.
  intros [Hf _]%GetComponentsTopology_spec Hc. apply list_elem_of_lookup in Hc as (k & Hk).
  eapply Forall2_lookup_l in Hf as (g & Hg & size & ? & ->); [|done]. exists size.
  split; [done|by eapply list_elem_of_lookup_2].
Qed.

(** Every number to create is missing; every pod to delete has failed or is in
    excess. *)
Lemma component_diff_pods i pods inactivePods d :
  component_diff i pods inactivePods = Ok d ->
  (forall name ids id, ed_toScaleRoleIDS d !! name = Some ids -> id ∈ ids ->
    exists c size, c ∈ ris_Components (ri_spec i) /\ ric_Name c = name /\ ric_Size c = Some size /\ 0 <= id < size /\
      forall q, q ∈ pods -> GetPodComponentName q = name -> GetPodComponentID q <> id) /\
  (forall p, p ∈ ed_toDeletePod d -> failed_inactive inactivePods p \/ excess_pod i pods p).
Proof.
  intros (topos & Ht & Hs & Hd)%component_diff_justified. split.
  - intros name ids id Hids Hid. destruct (Hs name ids Hids) as (g & Hg & Hn & -> & _).
    destruct (topology_group _ _ _ _ Ht Hg) as (c & size & Hc & Hsize & ->).
    apply ToScaleIDs_spec in Hid as [Hr Hno]. change (ric_Name c = name) in Hn. subst name. exists c, size.
    split; [done|]. split; [done|]. split; [done|]. split; [done|]. intros q Hq Hqn Hqid. apply Hno. exists q.
    split; [by apply elem_of_pods_of|done].
  - intros p [Hp|(g & Hg & Hp & _)]%Hd.
    + left. rewrite list_elem_of_In, filter_In, <-list_elem_of_In in Hp. done.
    + right. destruct (topology_group _ _ _ _ Ht Hg) as (c & size & Hc & Hsize & ->).
      apply ToDeletePod_spec in Hp as [[Hp Hn]%elem_of_pods_of Hid]. by exists c, size.
Qed.

(** An instance with a numbered pod in excess has a number to delete. *)
Lemma component_diff_deletes i pods inactivePods d p :
  component_diff i pods inactivePods = Ok d -> excess_pod i pods p -> GetPodComponentID p <> -1 ->
  0 < ed_toDeleteNum d.
Proof.
  intros (topos & Ht & ->)%component_diff_inv (c & size & Hc & Hsize & Hp & Hn & Hid) Hvalid.
  destruct (component_group _ _ _ _ Ht Hc) as (size' & Hs' & Hg). replace size' with size in Hg by congruence.
  set (g := newComponentPodGroup c size (pods_of c pods)) in *.
  assert (has_excess g = true) as He.
  { apply has_excess_iff. exists (GetPodComponentID p). apply ToDeleteIDs_spec. split; [by destruct Hid|].
    split; [done|]. exists p. split; [by apply elem_of_pods_of|done]. }
  eapply Z.le_lt_trans with (ed_toDeleteNum (delete_all (List.filter failed inactivePods))); [cbn; lia|].
  destruct (order_in_force i) as [[start gates]|] eqn:Ho; [|by eapply parallel_deletes].
  eapply ordered_deletes; [|..|exact Hg|done].
  - by apply GetComponentsTopology_spec in Ht as [_ Hnd].
  - unfold order_in_force in Ho. destruct (ParseAllComponentDependencies _) as [[start' delete']|]; [|done].
    by apply order_of_acyclic in Ho as (_ & _ & ?).
Qed.
End diffs.

(** ** The order of the components *)

Lemma status_ready names sts :
  allNamedComponentsReady names sts = true -> forall name, name ∈ names ->
  exists st, st ∈ sts /\ cs_Name st = name /\ 0 < cs_Size st <= cs_ReadyReplicas st.
Proof.
  unfold allNamedComponentsReady. intros Hall name Hname%list_elem_of_In.
  rewrite forallb_forall in Hall. specialize (Hall name Hname). destruct (status_map sts !! name) as [st|] eqn:Hst; [|done].
  assert (st ∈ sts /\ cs_Name st = name) as [Hin Hn].
  { revert Hst. unfold status_map. rewrite <-(rev_involutive sts). induction (rev sts) as [|x l IH]; [done|].
    cbn [rev]. rewrite fold_left_app, elem_of_snoc. cbn [fold_left]. rewrite lookup_insert. case_decide.
    - intros [= <-]. auto.
    - intros Hl. destruct (IH Hl). auto. }
  exists st. split; [done|]. split; [done|]. unfold component_ready in Hall.
  rewrite negb_true_iff, orb_false_iff, Z.leb_gt, Z.ltb_ge in Hall. lia.
Qed.

(** C18: With an ordering, a component gets new pods only when every component
    it starts after is ready in the recorded status, and loses excess pods only
    when none of the components that start after it, or that it is deleted after,
    has excess pods left. *)
Theorem components_in_order `{MapRange, DependsOnCodec} i pods inactivePods d startDeps deleteDeps order :
  ParseAllComponentDependencies (ris_Components (ri_spec i)) = Ok (startDeps, deleteDeps) ->
  order_in_force i = Some order -> component_diff i pods inactivePods = Ok d ->
  (forall name ids dep, ed_toScaleRoleIDS d !! name = Some ids -> edge startDeps name dep ->
    exists st, st ∈ rist_ComponentStatuses (ri_status i) /\ cs_Name st = dep /\ 0 < cs_Size st <= cs_ReadyReplicas st) /\
  (forall p, p ∈ ed_toDeletePod d -> failed_inactive inactivePods p \/
    excess_pod i pods p /\
    forall c size, c ∈ ris_Components (ri_spec i) -> ric_Size c = Some size ->
      edge startDeps (ric_Name c) (GetPodComponentName p) \/ edge deleteDeps (GetPodComponentName p) (ric_Name c) ->
      forall q, q ∈ pods -> GetPodComponentName q = ric_Name c -> GetPodComponentID q = -1 \/ GetPodComponentID q < size).
Proof.
  intros Hparse Hord Hdiff. pose proof Hord as Hord'. unfold order_in_force in Hord'. rewrite Hparse in Hord'.
  apply order_of_acyclic in Hord' as (-> & _ & _).
  destruct (component_diff_justified _ _ _ _ Hdiff) as (topos & Ht & Hs & Hd).
  unfold may_scale, may_delete in *. rewrite Hord in Hs, Hd. split.
  - intros name ids dep Hids Hdep. destruct (Hs name ids Hids) as (g & _ & <- & _ & Hr). by eapply status_ready.
  - intros p Hp. destruct (Hd p Hp) as [Hf|(g & Hg & Hpg & Hfree)].
    { left. rewrite list_elem_of_In, filter_In, <-list_elem_of_In in Hf. done. }
    right. destruct (topology_group _ _ _ _ Ht Hg) as (c & size & Hc & Hsize & ->).
    apply ToDeletePod_spec in Hpg as [[Hpp Hpn]%elem_of_pods_of Hid]. split; [by exists c, size|].
    intros c' size' Hc' Hsize' Hedge q Hq Hqn. rewrite Hpn in Hedge.
    destruct (component_group _ _ _ _ Ht Hc') as (size2 & Hs2 & Hg').
    replace size2 with size' in Hg' by congruence.
    destruct (decide (GetPodComponentID q = -1)) as [|Hne]; [by left|]. right. apply Z.nle_gt. intros Hle.
    eapply dependents_deleted in Hfree; [|by apply GetComponentsTopology_spec in Ht as [_ ?]|exact Hg'|
      by apply BuildDeletionGates_edge].
    apply (not_true_iff_false _) in Hfree. apply Hfree, has_excess_iff. exists (GetPodComponentID q).
    apply ToDeleteIDs_spec. split; [done|]. split; [done|]. exists q. split; [by apply elem_of_pods_of|done].
Qed.

(** * The calls of a pass *)

Lemma deletePods_only `{Env} l modified w r w' :
  deletePods l modified w = (r, w') -> only (fun c => match c with CallDeletePod p => p ∈ l | _ => False end) w w'.
Proof.
  revert modified w. induction l as [|p l IH]; intros modified w; cbn [deletePods]; [intros [-> ->]%ret_inv; apply only_refl|].
  intros (x & w1 & Hx & Hr)%attempt_inv. eapply only_trans; [eapply only_ask, Hx; cbn; by left|].
  destruct x as [[]|e]; [|apply ret_inv in Hr as [-> ->]; apply only_refl].
  eapply only_mono, IH, Hr. intros [] Hc; try done. by right.
Qed.

Lemma deletePods_asks `{Env} l modified w r w' :
  l <> [] -> deletePods l modified w = (r, w') ->
  exists new, w_trace w' = (new ++ w_trace w)%list /\ (exists q, CallDeletePod q ∈ new) /\
    forall q, CallDeletePod q ∈ new -> q ∈ l.
Proof.
  intros Hl Hd. pose proof Hd as (new & Ht & Hn)%deletePods_only. exists new. split; [done|].
  split; [|intros q Hq; by specialize (Hn _ Hq)]. destruct l as [|q l]; [done|]. exists q. cbn [deletePods] in Hd.
  apply attempt_inv in Hd as (x & w1 & [-> ->]%request_inv & Hd).
  assert (exists new', w_trace w' = (new' ++ CallDeletePod q :: w_trace w)%list) as (new' & Ht').
  { destruct (env_delete_pod _ _) as [[]|]; [|apply ret_inv in Hd as [_ ->]; by exists []].
    apply deletePods_only in Hd as (new' & Ht' & _). by exists new'. }
  rewrite Ht', (cons_middle (CallDeletePod q)), app_assoc in Ht. apply app_inv_tail in Ht as <-. set_solver.
Qed.

Section calls.
Context `{PodNames, PortConfigCodec, DiscoveryCodec, QualifiedNames, MapRange, DependsOnCodec, InPlaceCodec, Env}.

(** Why a pod may be deleted. *)
Definition deletable (i : RoleInstance) (currentRevision updateRevision : ControllerRevision)
    (revisions : list ControllerRevision) (pods inactivePods : list Pod) (p : Pod) : Prop :=
  (restart_called i (pods ++ inactivePods) /\ p ∈ (pods ++ inactivePods)%list) \/
  (gang_broken i currentRevision updateRevision revisions pods /\ p ∈ pods) \/
  failed_inactive inactivePods p \/ excess_pod i pods p.

Definition reading (c : api_call) : Prop :=
  match c with CallGetInstance Live _ _ | CallGetPod _ _ => True | _ => False end.

Definition creating (i : RoleInstance) (revision : string) (pods : list Pod) (c : api_call) : Prop :=
  match c with CallCreatePod p => missing_pod i revision pods p | _ => reading c end.

Definition deleting (i : RoleInstance) (cur upd : ControllerRevision) (revs : list ControllerRevision)
    (pods inactivePods : list Pod) (c : api_call) : Prop :=
  match c with CallDeletePod p => deletable i cur upd revs pods inactivePods p | _ => reading c end.

Lemma plan_deletes i cur upd revs pods inactivePods d p :
  plan i cur upd revs pods inactivePods d -> p ∈ ed_toDeletePod d -> deletable i cur upd revs pods inactivePods p.
Proof.
  intros [q Hq|Hr|Hg|d' Hd] Hp; unfold deletable; cbn in Hp; [by apply elem_of_nil in Hp|auto..|].
  apply component_diff_pods in Hd as [_ Hd]. destruct (Hd p Hp); auto.
Qed.

Lemma plan_creates i i' cur upd revs revision pods inactivePods d p :
  plan i cur upd revs pods inactivePods d -> same_but_tracking i i' ->
  asked_pod i' (ed_toScaleRoleIDS d) revision p -> missing_pod i revision pods p.
Proof.
  intros Hplan (Hm & Hs & _) (c & id & ids & _ & Hids & Hid & Hident).
  assert (forall name, ed_toScaleRoleIDS d !! name = Some ids -> component_diff i pods inactivePods = Ok d ->
    pod_identity i' revision name id p -> missing_pod i revision pods p) as Hgoal.
  { intros name Hn Hd [Iname Ins Icomp Iid Irev Isel Iown]. apply component_diff_pods in Hd as [Hd _].
    destruct (Hd _ _ _ Hn Hid) as (c' & size & Hc' & <- & Hsize & Hr & Hno). exists c', size, id.
    split; [done|]. split; [done|]. split; [done|]. split; [|done].
    unfold ri_Name, GetRoleTemplateType, ri_Labels in *. rewrite Hm in *. by split. }
  destruct Hplan as [q Hq|Hr|Hg|d' Hd]; cbn in Hids; [by rewrite lookup_empty in Hids..|]. by eapply Hgoal.
Qed.

Lemma scale_by_calls i i' cur upd revs pods inactivePods d w r w' :
  plan i cur upd revs pods inactivePods d -> same_but_tracking i i' -> scale_by d i' upd w = (r, w') ->
  only (creating i (cr_Name upd) pods) w w' \/ only (deleting i cur upd revs pods inactivePods) w w'.
Proof.
  intros Hplan Hsame. unfold scale_by.
  destruct (ed_requeueAfter d >? 0); [intros [-> ->]%ret_inv; left; apply only_refl|].
  destruct (ed_toDeleteNum d >? 0); [|destruct (ed_toScaleNum d >? 0)]; intros Hr.
  - right. assert (forall r w', deletePods (ed_toDeletePod d) false w = (r, w') -> only (deleting i cur upd revs pods inactivePods) w w') as Hd.
    { intros r1 w1 Hd. eapply only_mono, deletePods_only, Hd. intros [] Hc; try done. by eapply plan_deletes. }
    apply bind_inv in Hr as [(e & He & ->)|([scaled errs] & w1 & He & [-> ->]%ret_inv)]; by eapply Hd.
  - left. assert (forall r w', createPods i' (ed_toScaleRoleIDS d) (cr_Name upd) w = (r, w') ->
      only (creating i (cr_Name upd) pods) w w') as Hd.
    { intros r1 w1 Hd. eapply only_mono, createPods_asked, Hd. intros [] Hc; try done. by eapply plan_creates. }
    apply bind_inv in Hr as [(e & He & ->)|([scaled errs] & w1 & He & [-> ->]%ret_inv)]; by eapply Hd.
  - apply ret_inv in Hr as [-> ->]. left. apply only_refl.
Qed.

Lemma scale_phases i cur upd revs pods inactivePods w :
  let w' := (Scale i cur upd revs pods inactivePods w).2 in
  only (creating i (cr_Name upd) pods) w w' \/ only (deleting i cur upd revs pods inactivePods) w w'.
Proof.
  cbn zeta. destruct (Scale _ _ _ _ _ _ w) as [r w'] eqn:Hs. cbn [snd].
  unfold Scale in Hs. apply modify_inv in Hs. set (w0 := with_bindings _ w) in Hs.
  assert (forall ok, only ok w w0) as Hw0 by (intros ok; by apply only_same).
  apply bind_inv in Hs as [(e & He & ->)|([x i'] & w1 & He & Hr)]; apply calculateDiffs_inv in He as [Ho Hp].
  - left. eapply only_trans; [apply Hw0|]. eapply only_mono, Ho. by intros [].
  - destruct (Hp x i' eq_refl) as [Hsame Hplan].
    assert (forall ok : api_call -> Prop, (forall c, reads_instance c -> ok c) -> only ok w w1) as Hw1.
    { intros ok Hok. eapply only_trans; [apply Hw0|]. by eapply only_mono, Ho. }
    destruct x as [d|e]; [|apply ret_inv in Hr as [-> ->]; left; apply Hw1; by intros []].
    destruct (scale_by_calls i i' cur upd revs pods inactivePods d w1 r w') as [Hc|Hc]; [by apply Hplan|done|done|left|right];
      (eapply only_trans; [apply Hw1; by intros []|exact Hc]).
Qed.
End calls.

(** Whatever the server answers, scaling an instance creates only pods that
    are missing, each under its name, its labels, its revision and the ownership
    of the instance; it deletes only pods of the instance that have failed, are in
    excess, or go with the whole instance; and one pass never does both. *)
Theorem Scale_calls `{PodNames, PortConfigCodec, DiscoveryCodec, QualifiedNames, MapRange, DependsOnCodec, InPlaceCodec, Env}
    i currentRevision updateRevision revisions pods inactivePods w :
  exists new, w_trace (Scale i currentRevision updateRevision revisions pods inactivePods w).2 = (new ++ w_trace w)%list /\
    (forall p, CallCreatePod p ∈ new -> missing_pod i (cr_Name updateRevision) pods p) /\
    (forall p, CallDeletePod p ∈ new -> deletable i currentRevision updateRevision revisions pods inactivePods p) /\
    (forall c, c ∈ new -> reading c \/ (exists p, c = CallCreatePod p) \/ exists p, c = CallDeletePod p) /\
    ~ exists p q, CallCreatePod p ∈ new /\ CallDeletePod q ∈ new.
Proof.
  destruct (scale_phases i currentRevision updateRevision revisions pods inactivePods w) as [(new & Ht & Hn)|(new & Ht & Hn)];
    exists new; (split; [exact Ht|]); (split; [|split; [|split]]).
  - intros p Hp. exact (Hn _ Hp).
  - intros p Hp. by destruct (Hn _ Hp).
  - intros c Hc. specialize (Hn c Hc). destruct c; cbn in Hn; eauto.
  - intros (p & q & _ & Hq). exact (Hn _ Hq).
  - intros p Hp. by destruct (Hn _ Hp).
  - intros p Hp. exact (Hn _ Hp).
  - intros c Hc. specialize (Hn c Hc). destruct c; cbn in Hn; eauto.
  - intros (p & q & Hp & _). exact (Hn _ Hp).
Qed.

(** * The backoff *)

(** Inside the backoff window after a restart a crashed instance is left as
    it is: the pass reads the tracking of the server and comes back when the rest
    of the window is over, the exponential delay of the recorded count. *)
Theorem Scale_backoff `{PodNames, PortConfigCodec, DiscoveryCodec, QualifiedNames, MapRange, DependsOnCodec, InPlaceCodec, Env}
    i currentRevision updateRevision revisions pods inactivePods fresh last w :
  let ns := om_Namespace (ri_meta i) in
  crashed i (pods ++ inactivePods) -> env_apiReader = true ->
  env_get_instance (w_trace w) Live ns (ri_Name i) = Ok fresh ->
  isInstanceRestarting fresh = false -> rist_LastRestartTime (ri_status fresh) = Some last ->
  let base := GetBaseDelaySeconds (ri_spec i) in let maxd := GetMaxDelaySeconds (ri_spec i) in
  let count := rist_RestartCount (ri_status fresh) in
  0 < base <= int32_max -> 0 < maxd <= int32_max -> 0 < count <= int32_max ->
  let delay := Z.min (base * 2 ^ (count - 1)) maxd in
  0 <= env_now (S (w_clock w)) - last < delay * second ->
  let run := Scale i currentRevision updateRevision revisions pods inactivePods w in
  w_trace run.2 = CallGetInstance Live ns (ri_Name i) :: w_trace w /\
  exists i', run.1 = Ok {| so_scaling := false; so_requeue := delay * second - (env_now (S (w_clock w)) - last);
                           so_errors := []; so_instance := i' |}.
Proof.
  intros ns Hcr Hapi Hget Hre Hlast base maxd count Hb Hm Hc delay Hw run. unfold run. clear run.
  assert (backoff_of i count = delay) as Hdelay.
  { unfold backoff_of. fold base maxd. rewrite calculateRestartDelay_eq by (unfold is_int32; unfold_int; unfold int32_min, int32_max in *; lia).
    by rewrite (proj2 (Z.ltb_lt 0 maxd)) by lia. }
  assert (is_int32 delay) as Hd32.
  { unfold delay, is_int32. unfold int32_min, int32_max in *.
    pose proof (Z.pow_pos_nonneg 2 (count - 1) ltac:(lia) ltac:(lia)). split; [|lia]. nia. }
  set (w1 := with_bindings (RecordNodeBindings (w_bindings w) i pods) w).
  set (w2 := with_trace (CallGetInstance Live ns (ri_Name i) :: w_trace w) w1).
  set (w3 := with_clock (S (S (w_clock w))) w2).
  assert (Scale i currentRevision updateRevision revisions pods inactivePods w =
    (Ok {| so_scaling := false; so_requeue := delay * second - (env_now (S (w_clock w)) - last); so_errors := [];
           so_instance := adopt_tracking i fresh |}, w3)) as ->; [|cbn; eauto].
  unfold Scale. rewrite (bind_ok _ _ w tt w1) by done.
  assert (syncRestartTrackingFromAPI i w1 = (Ok (adopt_tracking i fresh, Some fresh), w2)) as Hsync.
  { unfold syncRestartTrackingFromAPI. rewrite Hapi. cbn [negb]. unfold attempt, GetInstance. rewrite request_run.
    change (w_trace w1) with (w_trace w). fold ns. by rewrite Hget. }
  unfold calculateDiffsWithExpectation at 1. rewrite (crashed_policy _ _ Hcr).
  erewrite (bind_ok _ _ w1 _ w3); cycle 1.
  { rewrite (bind_ok _ _ w1 _ w2 Hsync). unfold mbind, ST_bind, now. cbn -[checkRestartBackoff Z.gtb].
    erewrite (checkRestartBackoff_waits i fresh pods inactivePods last); [|done..|by fold count; rewrite Hdelay|
      by fold count; rewrite Hdelay].
    fold count. rewrite Hdelay, Z.gtb_ltb, (proj2 (Z.ltb_lt 0 _)) by lia. reflexivity. }
  unfold scale_by. cbn -[Z.gtb]. by rewrite Z.gtb_ltb, (proj2 (Z.ltb_lt 0 _)) by lia.
Qed.

(** * Progress of deletions *)

Section progress.
Context `{MapRange, DependsOnCodec}.

(** A number to delete comes with pods to delete. *)
Definition names_pods (d : expectationDiff) : Prop := 0 < ed_toDeleteNum d -> ed_toDeletePod d <> [].

Lemma names_pods_delete free d c size pods :
  names_pods d -> names_pods (delete_group free d (newComponentPodGroup c size pods)).
Proof.
  intros Hd. unfold delete_group. destruct (has_excess _ && _) eqn:He; [|done].
  apply andb_prop in He as [(id & Hid)%has_excess_iff _]. intros _. cbn [ed_toDeletePod].
  apply ToDeleteIDs_spec in Hid as (Hle & _ & p & Hp & <-). intros Hnil.
  assert (p ∈ cpg_ToDeletePod (newComponentPodGroup c size pods)) as Hin by (apply ToDeletePod_spec; auto).
  apply app_eq_nil in Hnil as [_ Hnil]. rewrite Hnil in Hin. by apply elem_of_nil in Hin.
Qed.

Lemma component_diff_names_pods i pods inactivePods d :
  component_diff i pods inactivePods = Ok d -> names_pods d.
Proof.
  intros (topos & Ht & ->)%component_diff_inv.
  assert (forall ready d' g, names_pods d' -> names_pods (scale_group ready d' g)) as Hscale.
  { intros ready d' g Hd'. unfold names_pods. by destruct (scale_deletes_same ready d' g) as [-> ->]. }
  assert (forall free d' g, g ∈ topos -> names_pods d' -> names_pods (delete_group free d' g)) as Hdelete.
  { intros free d' g Hg Hd'. destruct (topology_group _ _ _ _ Ht Hg) as (c & size & _ & _ & ->).
    by apply names_pods_delete. }
  assert (names_pods (delete_all (List.filter failed inactivePods))) as H0'.
  { unfold names_pods, delete_all. cbn. destruct (List.filter _ _); [cbn; lia|done]. }
  destruct (order_in_force i) as [[start gates]|]; [unfold ordered_diff|unfold parallel_diff];
    apply (fold_left_inv names_pods); auto. apply (fold_left_inv names_pods); auto.
Qed.
End progress.

(** Nothing calls for a recreation of the whole instance: under the restart policy
    no pod has failed or restarted unexpectedly, in a gang every pod can be
    brought to the update revision in place. *)
Definition undisturbed `{MapRange, DependsOnCodec, InPlaceCodec} (i : RoleInstance) (cur upd : ControllerRevision)
    (revs : list ControllerRevision) (pods inactivePods : list Pod) : Prop :=
  (recreate_policy i = true -> forall q, q ∈ (pods ++ inactivePods)%list ->
     failed q = false /\ triggers (rist_Baselines (ri_status i)) q = false) /\
  (isGangSchedulingEnabled i = true -> forall q, q ∈ pods ->
     CanUpdateInPlace (Some (default cur (pod_revision revs q))) (Some upd) (GetUpdateOptions i) = Some true).

Section undisturbed.
Context `{MapRange, DependsOnCodec, InPlaceCodec} {ENV : Env}.
Context (i : RoleInstance) (cur upd : ControllerRevision) (revs : list ControllerRevision) (pods inactivePods : list Pod).
Hypothesis Hquiet : undisturbed i cur upd revs pods inactivePods.

Lemma quiet_existsb (f : Pod -> bool) l : (forall q, q ∈ l -> f q = false) -> existsb f l = false.
Proof.
  intros Hf. apply not_true_iff_false. intros (q & Hq & Hc)%existsb_exists. apply list_elem_of_In, Hf in Hq. congruence.
Qed.

Lemma undisturbed_recreate i1 t :
  same_but_tracking i i1 -> shouldRecreateInstance i1 (pods ++ inactivePods) (rist_Baselines (ri_status i1)) t = false.
Proof.
  intros Hs. apply not_true_iff_false. intros (Hp & _ & _ & q & Hq & Ht)%(shouldRecreate_called i); [|done].
  destruct (proj1 Hquiet Hp q Hq) as [_ Hf]. congruence.
Qed.

Lemma undisturbed_gang : isGangSchedulingEnabled i = true -> gang_recreates i cur upd revs pods = Some false.
Proof.
  intros Hgang. pose proof (proj2 Hquiet Hgang) as Hg. revert Hg. clear. induction pods as [|p l IH]; [done|]. intros Hg. cbn [gang_recreates].
  rewrite Hg by by left. apply IH. intros q Hq. apply Hg. by right.
Qed.

Lemma undisturbed_backoff i1 fresh t1 t2 :
  same_but_tracking i i1 -> checkRestartBackoff i1 fresh pods inactivePods t1 t2 = 0.
Proof.
  intros Hs. unfold checkRestartBackoff. rewrite undisturbed_recreate by done.
  assert (recreate_policy i1 = recreate_policy i) as -> by (unfold recreate_policy; by rewrite (proj1 (proj2 Hs))).
  destruct (recreate_policy i) eqn:Hp; [|done]. cbn [negb orb].
  rewrite (quiet_existsb failed), andb_false_r; [done|]. intros q Hq. by destruct (proj1 Hquiet Hp q Hq).
Qed.

(** Then the components decide. *)
Lemma calculateDiffs_components w :
  exists i' w', calculateDiffsWithExpectation i cur upd revs pods inactivePods w = (Ok (component_diff i pods inactivePods, i'), w') /\
    only reads_instance w w'.
Proof.
  unfold calculateDiffsWithExpectation.
  destruct ((if recreate_policy i then syncRestartTrackingFromAPI i else mret (i, None)) w) as [r w1] eqn:Hr.
  assert (only reads_instance w w1 /\ exists i1 fresh, r = Ok (i1, fresh) /\ same_but_tracking i i1) as (Ho & i1 & fresh & -> & Hs).
  { destruct (recreate_policy i); [by eapply syncRestartTracking_inv|]. apply ret_inv in Hr as [-> ->].
    split; [apply only_refl|]. eauto using same_but_tracking_refl. }
  exists i1. eexists. rewrite (bind_ok _ _ _ _ _ Hr). unfold now at 1 2, mbind, ST_bind. rewrite undisturbed_backoff by done.
  cbn -[recreate_or_scale]. unfold recreate_or_scale, shouldRecreateInstanceGuarded, mbind, ST_bind, now.
  rewrite undisturbed_recreate by done. cbn -[component_diff gang_recreates].
  assert (isGangSchedulingEnabled i1 = isGangSchedulingEnabled i) as Hg by (unfold isGangSchedulingEnabled; by rewrite (proj1 Hs)).
  rewrite Hg, (gang_recreates_tracking i i1), (component_diff_tracking i i1) by done.
  destruct (isGangSchedulingEnabled i) eqn:Hgang; [rewrite undisturbed_gang by done|];
    (split; [reflexivity|]); eapply only_trans; [exact Ho|by apply only_same|exact Ho|by apply only_same].
Qed.
End undisturbed.

(** Components with distinct names, sizes and readable dependencies. *)
Definition well_formed `{DependsOnCodec} (i : RoleInstance) : Prop :=
  NoDup (map ric_Name (ris_Components (ri_spec i))) /\
  (forall c, c ∈ ris_Components (ri_spec i) -> ric_Size c <> None) /\
  exists deps, ParseAllComponentDependencies (ris_Components (ri_spec i)) = Ok deps.

Lemma size_list_to_set_NoDup (l : list string) : NoDup l -> size (list_to_set l : gset string) = length l.
Proof. intros Hl. by rewrite size_list_to_set. Qed.

Lemma topologies_ok m cs :
  (forall c, c ∈ cs -> ric_Size c <> None) ->
  exists gs, topologies m cs = Ok gs /\ map cpg_Name gs = map ric_Name cs.
Proof.
  induction cs as [|c cs IH]; intros Hs; [by exists []|]. cbn [topologies].
  destruct (ric_Size c) as [size|] eqn:Hc; [|by destruct (Hs c ltac:(by left))].
  destruct IH as (gs & -> & Hn); [intros c' Hc'; apply Hs; by right|]. eexists. split; [done|]. cbn. by rewrite Hn.
Qed.

Lemma component_diff_ok `{MapRange, DependsOnCodec} i pods inactivePods :
  well_formed i -> exists d, component_diff i pods inactivePods = Ok d.
Proof.
  intros (Hnd & Hs & [start delete] & Hdeps). unfold component_diff, GetComponentsTopology.
  destruct (topologies_ok (GroupPodsByComponentName pods) _ Hs) as (gs & -> & Hn).
  rewrite Hdeps, Hn, size_list_to_set_NoDup by done.
  replace (length gs) with (length (map ric_Name (ris_Components (ri_spec i)))) by (by rewrite <-Hn, length_map).
  rewrite Nat.eqb_refl. cbn [negb]. eauto.
Qed.

Lemma component_diff_requeue `{MapRange, DependsOnCodec} i pods inactivePods d :
  component_diff i pods inactivePods = Ok d -> ed_requeueAfter d = 0.
Proof.
  intros (topos & _ & ->)%component_diff_inv.
  destruct (order_in_force i) as [[start gates]|]; [unfold ordered_diff|unfold parallel_diff];
    repeat (apply (fold_left_inv (fun d => ed_requeueAfter d = 0)); [|intros d' g _; unfold scale_group, delete_group;
      by repeat destruct (_ && _)]); done.
Qed.

(** C24: Scaling in does not stall: a pass over a well-formed instance that nothing
    calls to recreate as a whole, neither its restart policy nor its gang, and that
    has a numbered pod in excess, asks the server to delete a pod, whatever order
    the components ask for; and it asks only for pods that have failed or are in
    excess. *)
Theorem Scale_deletes_excess `{PodNames, PortConfigCodec, DiscoveryCodec, QualifiedNames, MapRange, DependsOnCodec, InPlaceCodec, Env}
    i currentRevision updateRevision revisions pods inactivePods p w :
  well_formed i -> undisturbed i currentRevision updateRevision revisions pods inactivePods ->
  excess_pod i pods p -> GetPodComponentID p <> -1 ->
  exists new, w_trace (Scale i currentRevision updateRevision revisions pods inactivePods w).2 = (new ++ w_trace w)%list /\
    (exists q, CallDeletePod q ∈ new) /\
    forall q, CallDeletePod q ∈ new -> failed_inactive inactivePods q \/ excess_pod i pods q.
Proof.
  intros Hwf Hquiet Hex Hid. destruct (component_diff_ok i pods inactivePods Hwf) as (d & Hdiff).
  pose proof (component_diff_deletes _ _ _ _ _ Hdiff Hex Hid) as Hnum.
  pose proof (component_diff_names_pods _ _ _ _ Hdiff Hnum) as Hpods.
  destruct (component_diff_pods _ _ _ _ Hdiff) as [_ Hall].
  destruct (Scale i currentRevision updateRevision revisions pods inactivePods w) as [r w'] eqn:Hs. cbn [snd].
  unfold Scale in Hs. apply modify_inv in Hs. set (w0 := with_bindings _ w) in Hs.
  destruct (calculateDiffs_components i _ _ _ _ _ Hquiet w0) as (i' & w1 & Hd & (reads & Ht1 & Hr1)).
  rewrite (bind_ok _ _ _ _ _ Hd), Hdiff in Hs. unfold scale_by in Hs. destruct (ed_requeueAfter d >? 0) eqn:Hre.
  { by rewrite (component_diff_requeue _ _ _ _ Hdiff) in Hre. }
  rewrite Z.gtb_ltb, (proj2 (Z.ltb_lt _ _) Hnum) in Hs.
  assert (exists new, w_trace w' = (new ++ w_trace w1)%list /\ (exists q, CallDeletePod q ∈ new) /\
    forall q, CallDeletePod q ∈ new -> q ∈ ed_toDeletePod d) as (new & Ht2 & Hq & Hdel).
  { apply bind_inv in Hs as [(e & He & ->)|([scaled errs] & w2 & He & [-> ->]%ret_inv)]; by eapply deletePods_asks. }
  exists (new ++ reads)%list. split; [by rewrite Ht2, Ht1, app_assoc|]. split.
  - destruct Hq as (q & Hq). exists q. apply elem_of_app. by left.
  - intros q [Hq'|Hq']%elem_of_app; [by apply Hall, Hdel|by destruct (Hr1 _ Hq')].
Qed.

(** * At a concrete instance *)

Import Web.

(** The third server is in excess, the database not ready: nothing but the
    database is created, one pod goes. *)
Example excess_server :
  match component_diff (web "" 0 0 None) [pod "api" 0; pod "api" 7] [] with
  | Ok d => (map GetPodComponentID (ed_toDeletePod d), map fst (map_to_list (ed_toScaleRoleIDS d)))
  | Err _ => ([], [])
  end = ([7], ["db"%string]).
Proof. by vm_compute. Qed.

Lemma components_in_order_witness :
  exists d, component_diff (web "" 0 0 None) [pod "api" 0; pod "api" 7] [] = Ok d /\
    ed_toScaleRoleIDS d !! "api"%string = None.
Proof.
  destruct (component_diff (web "" 0 0 None) [pod "api" 0; pod "api" 7] []) as [d|e] eqn:Hd; [|by vm_compute in Hd].
  exists d. split; [done|]. destruct (ed_toScaleRoleIDS d !! "api"%string) as [ids|] eqn:Hids; [|done]. exfalso.
  destruct (ParseAllComponentDependencies (ris_Components (ri_spec (web "" 0 0 None)))) as [[startDeps deleteDeps]|] eqn:Hp;
    [|by vm_compute in Hp].
  destruct (order_in_force (web "" 0 0 None)) as [order|] eqn:Ho; [|by vm_compute in Ho].
  destruct (components_in_order _ _ _ _ _ _ _ Hp Ho Hd) as [Hc _].
  assert (edge startDeps "api" "db") as He by (vm_compute in Hp; injection Hp as <- _; by left).
  destruct (Hc "api"%string ids "db"%string Hids He) as (st & Hst & _ & Hready).
  cbn in Hst. apply list_elem_of_singleton in Hst as ->. cbn in Hready. lia.
Defined.

Lemma Scale_deletes_excess_witness :
  exists new, w_trace (Scale (ENV := server 0 (web "" 0 0 None)) (web "" 0 0 None) (revision "web-a" "") (revision "web-a" "") []
    [pod "api" 0; pod "api" 7] [] start).2 = (new ++ [])%list /\
    (exists q, CallDeletePod q ∈ new) /\
    forall q, CallDeletePod q ∈ new -> failed_inactive [] q \/ excess_pod (web "" 0 0 None) [pod "api" 0; pod "api" 7] q.
Proof.
  apply (Scale_deletes_excess (web "" 0 0 None) (revision "web-a" "") (revision "web-a" "") []
           [pod "api" 0; pod "api" 7] [] (pod "api" 7)).
  - split; [apply (bool_decide_eq_true_1 (NoDup _)); by vm_compute|]. split.
    + intros c Hc. repeat (apply elem_of_cons in Hc as [->|Hc]; [done|]). by apply elem_of_nil in Hc.
    + destruct (ParseAllComponentDependencies _) as [deps|] eqn:Hp; [by exists deps|by vm_compute in Hp].
  - split; [by intros Hp; vm_compute in Hp|by intros Hg; vm_compute in Hg].
  - exists (component "api" 2 {[ComponentDependsOnAnnotationKey := "db"%string]}), 2.
    split; [by right; left|]. split; [done|]. split; [by right; left|]. split; [by vm_compute|]. right. by vm_compute.
  - by vm_compute.
Defined.

(** Two restarts so far, the last twenty seconds ago: the rest of the minute is
    waited for. *)
Definition crashed_web : RoleInstance := web RecreateRoleInstanceOnPodRestart 1 2 (Some 0).

Lemma Scale_backoff_witness :
  let run := Scale (ENV := server (20 * second) crashed_web) crashed_web (revision "web-a" "") (revision "web-a" "") []
    [] [with_phase PodFailed (pod "db" 0)] start in
  w_trace run.2 = [CallGetInstance Live "default" "web"] /\
  exists i', run.1 = Ok {| so_scaling := false; so_requeue := 60 * second - 20 * second; so_errors := []; so_instance := i' |}.
Proof.
  pose proof (Scale_backoff (H6 := server (20 * second) crashed_web) crashed_web (revision "web-a" "") (revision "web-a" "") []
    [] [with_phase PodFailed (pod "db" 0)] crashed_web 0 start) as Hb. cbn zeta in Hb |- *.
  apply Hb; try reflexivity; try (vm_compute; intuition discriminate). by split.
Defined.
