(* ===== verification/InstanceUpdate.v ===== *)
(** Updating the pods of a RoleInstance
    (pkg/reconciler/roleinstance/sync/instance_update.go): every pod is refreshed,
    and a pod of an older revision is updated in place, or deleted so that the next
    passes create it again.

    The monad's own error is a panic.  The status under construction comes in as
    its restart baselines, the only part of it that [Update] edits, and comes back
    edited also when an error ends the pass. *)
From Stdlib Require Import ZArith Lia Bool Ascii String.
From stdpp Require Import base tactics list strings gmap sets.
From S2P Require Import Prelude Types Expectations Effects Revisions InstancePods InstanceWorld InstanceRestarts PodInPlace InstanceDemo InstanceScale.

(** The containers of a pod that were updated, as they were before. *)
Definition baseline_of (cs : ContainerStatus) : ContainerUpdateBaseline :=
  {| cub_RestartCount := cst_RestartCount cs; cub_ImageID := cst_ImageID cs |}.

Definition container_baselines (updatedContainers : list string) (statuses : list ContainerStatus)
    (existing : gmap string ContainerUpdateBaseline) : gmap string ContainerUpdateBaseline :=
  fold_left (fun existing cs =>
    if bool_decide (cst_Name cs ∈ updatedContainers) then <[cst_Name cs := baseline_of cs]> existing
    else existing) statuses existing.

Definition recordInPlaceUpdateBaselines (p : Pod) (bs : baselines) (updatedContainers : list string) : baselines :=
  match updatedContainers with
  | [] => bs
  | _ => <[pod_Name p := container_baselines updatedContainers (pds_ContainerStatuses (pod_status p))
           (default ∅ (bs !! pod_Name p))]> bs
  end.

(** What an update leaves: the delay to come back after, the error, the baselines. *)
Record update_outcome := {
  uo_duration : Z;
  uo_error : option error;
  uo_baselines : baselines
}.

Section update.
Context `{InPlaceCodec, MapRange} {ENV : Env}.

(** Deleting a pod to have it created again. *)
Definition recreate_pod (p : Pod) (bs : baselines) : M update_outcome :=
  attempt (DeletePod p) (fun r => mret {| uo_duration := 0; uo_error := match r with Ok _ => None | Err e => Some e end;
                                         uo_baselines := bs |}).

Definition updatePod (i : RoleInstance) (bs : baselines) (updateRevision : ControllerRevision)
    (revisions : list ControllerRevision) (p : Pod) : M update_outcome :=
  match pod_revision revisions p with
  | None => recreate_pod p bs
  | Some oldRevision =>
      res ← Update p (Some oldRevision) (Some updateRevision) (GetUpdateOptions i);
      if negb (ur_InPlaceUpdate res) then recreate_pod p bs
      else match ur_UpdateErr res with
           | Some e => mret {| uo_duration := ur_DelayDuration res; uo_error := Some e; uo_baselines := bs |}
           | None =>
               ExpectVersion (with_version (ur_NewResourceVersion res) {|
                 om_Name := ""; om_GenerateName := ""; om_Namespace := ""; om_UID := pod_UID p; om_ResourceVersion := "";
                 om_Generation := 0; om_CreationTimestamp := None; om_DeletionTimestamp := None; om_Labels := ∅;
                 om_Annotations := ∅; om_OwnerReferences := []; om_Finalizers := [] |}) ≫= fun _ =>
               match GetUpdatedContainerNames p (Some oldRevision) (Some updateRevision) (GetUpdateOptions i) with
               | None => fail nil_dereference
               | Some updatedContainers =>
                   mret {| uo_duration := ur_DelayDuration res; uo_error := None;
                           uo_baselines := recordInPlaceUpdateBaselines p bs updatedContainers |}
               end
           end
  end.

(** The first loop: the pods that wait for an update, by component; or the error. *)
Fixpoint refresh_pods (updateRevision : ControllerRevision) (pods : list Pod) (requeue : Requeue.Duration)
    (waiting : gmap string (list Pod)) : M (Requeue.Duration * result (gmap string (list Pod))) :=
  match pods with
  | [] => mret (requeue, Ok waiting)
  | p :: pods' =>
      attempt (Refresh p) (fun r =>
        match r with
        | Err e => mret (requeue, Err e)
        | Ok delay =>
            let requeue := if delay >? 0 then Requeue.Update delay requeue else requeue in
            let name := GetPodComponentName p in
            refresh_pods updateRevision pods' requeue
              (if EqualToRevisionHash (pod_meta p) (cr_Name updateRevision) then waiting
               else <[name := (default [] (waiting !! name) ++ [p])%list]> waiting)
        end)
  end.

(** The second loop, over the pods in the order their components are visited. *)
Fixpoint update_pods (i : RoleInstance) (updateRevision : ControllerRevision) (revisions : list ControllerRevision)
    (pods : list Pod) (requeue : Requeue.Duration) (bs : baselines) : M update_outcome :=
  match pods with
  | [] => mret {| uo_duration := Requeue.Get requeue; uo_error := None; uo_baselines := bs |}
  | p :: pods' =>
      res ← updatePod i bs updateRevision revisions p;
      match uo_error res with
      | Some e => mret {| uo_duration := Requeue.Get requeue; uo_error := Some e; uo_baselines := uo_baselines res |}
      | None =>
          update_pods i updateRevision revisions pods'
            (if uo_duration res >? 0 then Requeue.Update (uo_duration res) requeue else requeue) (uo_baselines res)
      end
  end.

(** [Update] of this package. *)
Definition UpdatePods (i : RoleInstance) (bs : baselines) (updateRevision : ControllerRevision)
    (revisions : list ControllerRevision) (pods : list Pod) : M update_outcome :=
  '(requeue, waiting) ← refresh_pods updateRevision pods Requeue.new_Duration ∅;
  match waiting with
  | Err e => mret {| uo_duration := Requeue.Get requeue; uo_error := Some e; uo_baselines := bs |}
  | Ok waiting => update_pods i updateRevision revisions (mjoin (map snd (map_range waiting))) requeue bs
  end.
End update.

(** * Baselines and restarts *)

Lemma container_baselines_keep updated statuses existing name :
  name ∉ map cst_Name statuses -> container_baselines updated statuses existing !! name = existing !! name.
Proof.
  revert existing. induction statuses as [|c l IH]; intros existing Hn; [done|].
  apply not_elem_of_cons in Hn as [Hc Hl]. unfold container_baselines in *. cbn [fold_left]. rewrite IH by done.
  case_bool_decide; [by rewrite lookup_insert_ne by done|done].
Qed.

Lemma container_baselines_lookup updated statuses existing cs :
  NoDup (map cst_Name statuses) -> cs ∈ statuses -> cst_Name cs ∈ updated ->
  container_baselines updated statuses existing !! cst_Name cs = Some (baseline_of cs).
Proof.
  intros Hnd Hin Hup. revert existing Hnd Hin.
  induction statuses as [|c l IH]; intros existing Hnd Hin; [by apply elem_of_nil in Hin|].
  apply NoDup_cons in Hnd as [Hnot Hnd]. apply elem_of_cons in Hin as [<-|Hin]; [|by apply IH].
  unfold container_baselines. cbn [fold_left]. rewrite bool_decide_eq_true_2 by done.
  fold (container_baselines updated l (<[cst_Name cs := baseline_of cs]> existing)).
  by rewrite container_baselines_keep, lookup_insert_eq by done.
Qed.

(** How a container that was updated in place may look later: it has not
    restarted, or has since the update no more than the new image explains. *)
Definition explained (before after : ContainerStatus) : bool :=
  (cst_RestartCount after =? 0) ||
  ((cst_RestartCount before <=? cst_RestartCount after) &&
   (cst_RestartCount after <=? if bool_decide (cst_ImageID after = cst_ImageID before) then cst_RestartCount before
                               else cst_RestartCount before + 1)).

(** Once an in-place update is recorded, the restart it causes is told apart
    from a crash: the restarts of the pod count as expected exactly when each
    updated container has restarted at most once more, and only for a new image. *)
Theorem baselines_explain_restarts bs p p' updated :
  updated <> [] -> NoDup (map cst_Name (pds_ContainerStatuses (pod_status p))) ->
  (forall cs, cs ∈ pds_ContainerStatuses (pod_status p) -> 0 <= cst_RestartCount cs < int32_max) ->
  pod_Name p' = pod_Name p ->
  Forall2 (fun before after => cst_Name before = cst_Name after /\ cst_Name before ∈ updated)
    (pds_ContainerStatuses (pod_status p)) (pds_ContainerStatuses (pod_status p')) ->
  isContainerRestartExpected p' (recordInPlaceUpdateBaselines p bs updated) = true <->
  Forall2 (fun before after => explained before after = true)
    (pds_ContainerStatuses (pod_status p)) (pds_ContainerStatuses (pod_status p')).
Proof.
  intros Hup Hnd Hcounts Hname Hsame. unfold isContainerRestartExpected, recordInPlaceUpdateBaselines.
  destruct updated as [|u updated]; [done|]. rewrite Hname, lookup_insert_eq.
  pose proof (fun cs => container_baselines_lookup (u :: updated) _ (default ∅ (bs !! pod_Name p)) cs Hnd) as Hb.
  revert Hb Hsame Hcounts. generalize (container_baselines (u :: updated) (pds_ContainerStatuses (pod_status p)) (default ∅ (bs !! pod_Name p))).
  intros m Hb Hsame Hcounts. clear Hnd. induction Hsame as [|b a lb la [Hn Hin] Hsame IH]; [done|].
  cbn [forallb]. rewrite andb_true_iff, IH by (intros; first [apply Hb; set_solver|apply Hcounts; set_solver]).
  assert (restart_expected m a = explained b a) as ->.
  { unfold restart_expected, explained. rewrite <-Hn, (Hb b) by (first [by left|done]).
    pose proof (Hcounts b ltac:(by left)). cbn [baseline_of cub_RestartCount cub_ImageID].
    destruct (Z.eqb_spec (cst_RestartCount a) 0); [done|]. cbn [orb].
    destruct (Z.ltb_spec (cst_RestartCount a) (cst_RestartCount b)); [by rewrite (proj2 (Z.leb_gt _ _)) by lia|].
    rewrite (proj2 (Z.leb_le _ _)) by lia. cbn [andb]. rewrite Z.gtb_ltb, <-Z.leb_antisym.
    rewrite int32_id by (unfold_int; lia). by repeat case_bool_decide. }
  split; [intros [? ?]; by constructor|by inversion 1].
Qed.

(** * Which pods are deleted to be updated *)

Section deletes.
Context `{InPlaceCodec, MapRange} {ENV : Env}.

(** Whether a pod can go from one revision to another in place; [None] is a
    panic. *)
Definition in_place (p : Pod) (oldRevision newRevision : ControllerRevision) (grace : grace_option) : option bool :=
  match groupComponentControllerRevision (Some oldRevision) (Some newRevision) with
  | Err _ => Some false
  | Ok components =>
      match components !! GetPodComponentName p with
      | None => Some false
      | Some (None, _) => None
      | Some (Some old, new) =>
          if negb (bool_decide (cr_serviceName old = cr_serviceName new)) then Some false
          else match isPodTemplateChanged (cr_podTemplateRevision old) (cr_podTemplateRevision new) with
               | Err _ => Some false
               | Ok false => Some true
               | Ok true => Some (bool_decide (is_Some
                   (CalculateSpec (cr_podTemplateRevision old) (cr_podTemplateRevision new) grace)))
               end
      end
  end.

Lemma Update_in_place p old new grace w res w' :
  Update p (Some old) (Some new) grace w = (Ok res, w') -> in_place p old new grace = Some (ur_InPlaceUpdate res).
Proof.
  unfold Update, in_place. destruct (groupComponentControllerRevision _ _) as [components|e]; [|by intros [= <- <-]].
  destruct (components !! _) as [[[o|] n]|]; [|done|by intros [= <- <-]].
  destruct (negb _); [by intros [= <- <-]|]. destruct (isPodTemplateChanged _ _) as [[]|]; [| |by intros [= <- <-]].
  - unfold update_pod. destruct (CalculateSpec _ _ _) as [spec|]; [|by intros [= <- <-]].
    intros (x & w1 & _ & [Hx _]%ret_inv)%attempt_inv. rewrite bool_decide_eq_true_2 by eauto. destruct x; by injection Hx as ->.
  - intros (x & w1 & _ & [Hx _]%ret_inv)%attempt_inv. destruct x; by injection Hx as ->.
Qed.

(** Anything but reading a pod and writing it or its status. *)
Definition beyond_pod_updates (c : api_call) : bool :=
  match c with CallGetPod _ _ | CallUpdatePod _ | CallUpdatePodStatus _ => false | _ => true end.

Lemma silent_updateCondition_pod p c : silent beyond_pod_updates (updateCondition p c).
Proof. unfold updateCondition. apply silent_RetryOnConflict. silence. Qed.
Hint Resolve silent_updateCondition_pod : silent.

Lemma silent_Refresh_pod p : silent beyond_pod_updates (Refresh p).
Proof.
  unfold Refresh. apply silent_bind; [unfold refreshCondition; silence|]. intros _. destruct (bool_decide _); [|apply silent_ret].
  unfold finishGracePeriod. apply silent_RetryOnConflict. silence.
Qed.

Lemma silent_Update p old new grace : silent beyond_pod_updates (Update p old new grace).
Proof.
  unfold Update. destruct (groupComponentControllerRevision _ _) as [components|e]; [|silence].
  destruct new as [new|]; [|silence]. destruct (components !! _) as [[[o|] n]|]; [|silence..].
  destruct (negb _); [silence|]. destruct (isPodTemplateChanged _ _) as [[]|]; [| |silence].
  - unfold update_pod. destruct (CalculateSpec _ _ _) as [spec|]; [|silence]. apply silent_attempt; [|intros r; apply silent_ret].
    unfold update_steps, updatePodInPlace. repeat (apply silent_bind; [silence|intros _]).
    apply silent_RetryOnConflict. silence.
  - apply silent_attempt; [|intros r; apply silent_ret]. unfold onlyUpdateRevision, updateInstanceReadyCondition.
    apply silent_bind; [silence|intros _]. apply silent_RetryOnConflict. silence.
Qed.

Lemma silent_UpdatePodLifecycle `{SortSlice} p mark : silent beyond_pod_updates (UpdatePodLifecycle p mark).
Proof.
  unfold UpdatePodLifecycle, addNotReadyKey, removeNotReadyKey, update_pod_status_by.
  destruct (needUpdatePodStatus p mark); cbn [negb]; [|silence].
  destruct (GetPodCondition _ _); [destruct mark|];
    repeat (destruct (alreadyHasKey _ _ _); [silence|]); (destruct (negb _); [silence|]);
    apply silent_RetryOnConflict; silence.
Qed.

(** A pod that is not at the update revision and cannot get there in place. *)
Definition replaced (i : RoleInstance) (updateRevision : ControllerRevision) (revisions : list ControllerRevision)
    (pods : list Pod) (p : Pod) : Prop :=
  p ∈ pods /\ EqualToRevisionHash (pod_meta p) (cr_Name updateRevision) = false /\
  forall old, pod_revision revisions p = Some old -> in_place p old updateRevision (GetUpdateOptions i) = Some false.

Context (i : RoleInstance) (updateRevision : ControllerRevision) (revisions : list ControllerRevision) (pods : list Pod).

Definition update_call (c : api_call) : Prop :=
  match c with
  | CallDeletePod p => replaced i updateRevision revisions pods p
  | CallGetPod _ _ | CallUpdatePod _ | CallUpdatePodStatus _ => True
  | _ => False
  end.

Lemma update_call_silent {A} (m : M A) w r w' : silent beyond_pod_updates m -> m w = (r, w') -> only update_call w w'.
Proof. apply only_silent. by intros []. Qed.

Lemma updatePod_calls bs p w r w' :
  p ∈ pods -> EqualToRevisionHash (pod_meta p) (cr_Name updateRevision) = false ->
  updatePod i bs updateRevision revisions p w = (r, w') -> only update_call w w'.
Proof.
  intros Hp Hrev. unfold updatePod.
  assert ((forall old, pod_revision revisions p = Some old -> in_place p old updateRevision (GetUpdateOptions i) = Some false) ->
    forall w r w', recreate_pod p bs w = (r, w') -> only update_call w w') as Hrec.
  { intros Hr w1 r1 w2. unfold recreate_pod. intros (x & w3 & Hx & [_ ->]%ret_inv)%attempt_inv.
    apply request_inv in Hx as [_ ->]. exists [CallDeletePod p]. split; [done|]. by intros c ->%list_elem_of_singleton. }
  destruct (pod_revision revisions p) as [old|] eqn:Hold; [|by apply Hrec].
  intros [(e & He & ->)|(res & w1 & He & Hr)]%bind_inv;
    pose proof (update_call_silent _ _ _ _ (silent_Update _ _ _ _) He) as Ho; [done|].
  apply Update_in_place in He. destruct (ur_InPlaceUpdate res); cbn [negb] in Hr.
  - eapply only_trans; [exact Ho|]. destruct (ur_UpdateErr res); [apply ret_inv in Hr as [_ ->]; apply only_refl|].
    apply modify_inv in Hr. destruct (GetUpdatedContainerNames _ _ _ _); injection Hr as _ <-; by apply only_same.
  - eapply only_trans; [exact Ho|]. eapply Hrec, Hr. by intros old' [= <-].
Qed.

Lemma update_pods_calls l requeue bs w r w' :
  (forall p, p ∈ l -> p ∈ pods /\ EqualToRevisionHash (pod_meta p) (cr_Name updateRevision) = false) ->
  update_pods i updateRevision revisions l requeue bs w = (r, w') -> only update_call w w'.
Proof.
  revert requeue bs w. induction l as [|p l IH]; intros requeue bs w Hl; cbn [update_pods];
    [intros [_ ->]%ret_inv; apply only_refl|].
  destruct (Hl p ltac:(by left)) as [Hp Hrev].
  intros [(e & He & ->)|(res & w1 & He & Hr)]%bind_inv; apply updatePod_calls in He; try done.
  eapply only_trans; [exact He|]. destruct (uo_error res); [apply ret_inv in Hr as [_ ->]; apply only_refl|].
  eapply IH, Hr. intros q Hq. apply Hl. by right.
Qed.

(** The pods that wait, whatever their component. *)
Definition waits (waiting : gmap string (list Pod)) : Prop :=
  forall name l p, waiting !! name = Some l -> p ∈ l ->
    p ∈ pods /\ EqualToRevisionHash (pod_meta p) (cr_Name updateRevision) = false.

Lemma refresh_pods_calls l requeue waiting w r w' :
  (forall p, p ∈ l -> p ∈ pods) -> waits waiting -> refresh_pods updateRevision l requeue waiting w = (r, w') ->
  only update_call w w' /\ forall requeue' waiting', r = Ok (requeue', Ok waiting') -> waits waiting'.
Proof.
  revert requeue waiting w. induction l as [|p l IH]; intros requeue waiting w Hl Hw; cbn [refresh_pods].
  { intros [-> ->]%ret_inv. split; [apply only_refl|]. by intros ? ? [= <- <-]. }
  intros (x & w1 & Hx & Hr)%attempt_inv. pose proof (update_call_silent _ _ _ _ (silent_Refresh_pod _) Hx) as Ho.
  destruct x as [delay|e]; [|apply ret_inv in Hr as [-> ->]; by split].
  apply IH in Hr as [Ho2 Hw2]; [split; [by eapply only_trans|done]|by intros q Hq; apply Hl; right|].
  destruct (EqualToRevisionHash _ _) eqn:Hrev; [done|]. intros name l' q. rewrite lookup_insert. case_decide; [|by apply Hw].
  intros [= <-] [Hq| ->]%elem_of_snoc; [|split; [apply Hl; by left|done]].
  destruct (waiting !! GetPodComponentName p) as [l''|] eqn:Hl''; [by eapply Hw|by apply elem_of_nil in Hq].
Qed.

Lemma UpdatePods_calls bs w r w' : UpdatePods i bs updateRevision revisions pods w = (r, w') -> only update_call w w'.
Proof.
  intros Hu. unfold UpdatePods in Hu. apply bind_inv in Hu as [(e & He & ->)|([requeue waiting] & w1 & He & Hr)];
    eapply refresh_pods_calls in He as [Ho Hw]; try done.
  destruct waiting as [waiting|e]; [|by apply ret_inv in Hr as [_ ->]].
  eapply only_trans; [exact Ho|]. eapply update_pods_calls, Hr. intros p Hp.
  apply list_elem_of_join in Hp as (l & Hp & Hl). apply list_elem_of_fmap in Hl as ([name l'] & -> & Hl).
  rewrite map_range_perm in Hl. apply elem_of_map_to_list in Hl. by eapply (Hw requeue waiting).
Qed.
End deletes.

(** An update pass deletes a pod only when it is not at the update revision
    and cannot be brought there in place, or its own revision is gone; it creates
    nothing. *)
Theorem UpdatePods_deletes `{InPlaceCodec, MapRange} {ENV : Env} i bs updateRevision revisions pods w :
  exists new, w_trace (UpdatePods i bs updateRevision revisions pods w).2 = (new ++ w_trace w)%list /\
    forall c, c ∈ new ->
      (forall p, c = CallDeletePod p -> replaced i updateRevision revisions pods p) /\ forall p, c <> CallCreatePod p.
Proof.
  destruct (UpdatePods i bs updateRevision revisions pods w) as [r w'] eqn:Hu. cbn [snd].
  apply UpdatePods_calls in Hu as (new & Ht & Hn).
  exists new. split; [exact Ht|]. intros c Hc. specialize (Hn c Hc). split.
  - by intros p ->.
  - by intros p ->.
Qed.

(** * At a concrete instance *)

Definition db_pod (restarts : Z) (image : string) : Pod := {|
  pod_meta := with_name "web-db-0" "default" empty_meta; pod_spec := tmpl_spec (Web.template image);
  pod_status := {| pds_Phase := PodRunning; pds_Conditions := [];
    pds_ContainerStatuses := [{| cst_Name := "main"; cst_RestartCount := restarts; cst_Image := image; cst_ImageID := image;
                                 cst_ContainerID := "" |}] |} |}.

Lemma baselines_explain_restarts_witness :
  isContainerRestartExpected (db_pod 3 "image:2")
    (recordInPlaceUpdateBaselines (db_pod 2 "image:1") ∅ ["main"%string]) = true.
Proof.
  apply (baselines_explain_restarts ∅ (db_pod 2 "image:1") (db_pod 3 "image:2") ["main"%string]); [done|..].
  - by apply NoDup_singleton.
  - intros cs ->%list_elem_of_singleton. cbn. unfold_int. lia.
  - done.
  - constructor; [|constructor]. split; [done|by left].
  - constructor; [|constructor]. by vm_compute.
Defined.
