(* ===== verification/InstanceStatus.v ===== *)
(** The status of a RoleInstance (pkg/reconciler/roleinstance/instance_status.go):
    the counts of its components, its conditions, the write to the API server and
    the readiness marks of its pods.

    The status under construction is a value that the functions return; pointers
    to conditions are options.  The monad's own error is a panic. *)
From Stdlib Require Import ZArith Lia Bool Ascii String.
From stdpp Require Import base tactics list strings gmap sets fin_maps.
From S2P Require Import Prelude GoStrings Types Effects Revisions SlowStart InstancePods InstanceWorld InstanceRestarts PodInPlace InstanceScale.

Definition RoleInstanceReadyOnAllPodReady : string := "AllPodReady".
Definition RoleInstanceReadyPolicyTypeNone : string := "None".
Definition RoleInstanceCustomReady : string := "RoleInstanceCustomReady".
Definition RoleInstanceAllPodsReady : string := "RoleInstanceAllPodsReady".
Definition RoleInstanceFailedScale : string := "FailedScale".
Definition RoleInstanceFailedUpdate : string := "FailedUpdate".

Definition controllerOwnedConditionTypes : gset string :=
  {[RoleInstanceReady; RoleInstanceAllPodsReady; RoleInstanceFailedScale; RoleInstanceFailedUpdate;
    RoleInstanceRestarting; RoleInstanceInPlaceUpdateReady; RoleInstanceCustomReady]}.

Definition controllerFailureConditionTypes : gset string := {[RoleInstanceFailedScale; RoleInstanceFailedUpdate]}.

(** * The counts *)

(** With no minimum of ready seconds the clock does not matter. *)
Definition pod_ready (p : Pod) : bool := IsPodUpdateReady p 0 0.

Definition no_component_status : RoleInstanceComponentStatus := {|
  cs_Name := ""; cs_Size := 0; cs_ReadyReplicas := 0; cs_UpdatedReplicas := 0; cs_ScheduledReplicas := 0;
  cs_AvailableReplicas := 0; cs_UpdatedReadyReplicas := 0 |}.

Definition add_one (b : bool) (n : Z) : Z := if b then int32 (n + 1) else n.

Definition count_pod (updateRevision : string) (st : RoleInstanceComponentStatus) (p : Pod) : RoleInstanceComponentStatus :=
  let updated := EqualToRevisionHash (pod_meta p) updateRevision in {|
  cs_Name := cs_Name st;
  cs_Size := add_one true (cs_Size st);
  cs_ReadyReplicas := add_one (pod_ready p) (cs_ReadyReplicas st);
  cs_UpdatedReplicas := add_one updated (cs_UpdatedReplicas st);
  cs_ScheduledReplicas := add_one (IsPodScheduled p) (cs_ScheduledReplicas st);
  cs_AvailableReplicas := add_one (pod_ready p) (cs_AvailableReplicas st);
  cs_UpdatedReadyReplicas := add_one (updated && pod_ready p) (cs_UpdatedReadyReplicas st) |}.

(** The map from components to their counts. *)
Definition count_pods (updateRevision : string) (pods : list Pod) : gmap string RoleInstanceComponentStatus :=
  fold_left (fun m p =>
    let name := GetPodComponentName p in
    <[name := count_pod updateRevision (default no_component_status (m !! name)) p]> m) pods ∅.

Definition named (name : string) (st : RoleInstanceComponentStatus) : RoleInstanceComponentStatus := {|
  cs_Name := name; cs_Size := cs_Size st; cs_ReadyReplicas := cs_ReadyReplicas st;
  cs_UpdatedReplicas := cs_UpdatedReplicas st; cs_ScheduledReplicas := cs_ScheduledReplicas st;
  cs_AvailableReplicas := cs_AvailableReplicas st; cs_UpdatedReadyReplicas := cs_UpdatedReadyReplicas st |}.

(** The loop over the components: their statuses, the updated pods and the size;
    [None] is a nil size. *)
Fixpoint component_totals (counts : gmap string RoleInstanceComponentStatus) (cs : list RoleInstanceComponent)
    (updated size : Z) : option (list RoleInstanceComponentStatus * Z * Z) :=
  match cs with
  | [] => Some ([], updated, size)
  | c :: cs' =>
      let st := default no_component_status (counts !! ric_Name c) in
      n ← ric_Size c;
      '(sts, updated, size) ← component_totals counts cs' (int32 (updated + cs_UpdatedReplicas st)) (int32 (size + n));
      Some (named (ric_Name c) st :: sts, updated, size)
  end.

Definition with_components (sts : list RoleInstanceComponentStatus) (st : RoleInstanceStatus) : RoleInstanceStatus := {|
  rist_ObservedGeneration := rist_ObservedGeneration st; rist_Conditions := rist_Conditions st;
  rist_ComponentStatuses := sts; rist_LabelSelector := rist_LabelSelector st;
  rist_CurrentRevision := rist_CurrentRevision st; rist_UpdateRevision := rist_UpdateRevision st;
  rist_CollisionCount := rist_CollisionCount st; rist_Baselines := rist_Baselines st;
  rist_RestartCount := rist_RestartCount st; rist_LastRestartTime := rist_LastRestartTime st |}.

Definition with_baselines (bs : baselines) (st : RoleInstanceStatus) : RoleInstanceStatus := {|
  rist_ObservedGeneration := rist_ObservedGeneration st; rist_Conditions := rist_Conditions st;
  rist_ComponentStatuses := rist_ComponentStatuses st; rist_LabelSelector := rist_LabelSelector st;
  rist_CurrentRevision := rist_CurrentRevision st; rist_UpdateRevision := rist_UpdateRevision st;
  rist_CollisionCount := rist_CollisionCount st; rist_Baselines := bs;
  rist_RestartCount := rist_RestartCount st; rist_LastRestartTime := rist_LastRestartTime st |}.

(** The rollout is over: the current revision advances, and the baselines of pods
    that are gone go. *)
Definition rollout_done (pods : list Pod) (st : RoleInstanceStatus) : RoleInstanceStatus := {|
  rist_ObservedGeneration := rist_ObservedGeneration st; rist_Conditions := rist_Conditions st;
  rist_ComponentStatuses := rist_ComponentStatuses st; rist_LabelSelector := rist_LabelSelector st;
  rist_CurrentRevision := rist_UpdateRevision st; rist_UpdateRevision := rist_UpdateRevision st;
  rist_CollisionCount := rist_CollisionCount st;
  rist_Baselines := filter (fun kv => kv.1 ∈ map pod_Name pods) (rist_Baselines st);
  rist_RestartCount := rist_RestartCount st; rist_LastRestartTime := rist_LastRestartTime st |}.

(** [calculateStatus] up to the conditions; [None] is a panic. *)
Definition count_status (i : RoleInstance) (st : RoleInstanceStatus) (pods : list Pod) : option RoleInstanceStatus :=
  '(sts, updated, size) ← component_totals (count_pods (rist_UpdateRevision st) pods) (ris_Components (ri_spec i)) 0 0;
  let replicas := int32 (Z.of_nat (length pods)) in
  let st := with_components sts st in
  Some (if (updated =? replicas) && (replicas =? size) then rollout_done pods st else st).

(** * The conditions *)

Definition containsInstanceInplaceUpdateReadinessGates (i : RoleInstance) : bool :=
  ContainsReadinessGate i RoleInstanceInPlaceUpdateReady.

Definition condition (type status : string) (t : Z) (reason message : string) : RoleInstanceCondition := {|
  cond_Type := type; cond_Status := status; cond_LastTransitionTime := Some t; cond_Reason := reason;
  cond_Message := message |}.

Definition getInstanceReadyCondition (i : RoleInstance) (podsReady inplace : option RoleInstanceCondition) (t : Z)
    : RoleInstanceCondition :=
  let not_ready := condition RoleInstanceReady ConditionFalse t in
  let is_false (c : RoleInstanceCondition) := bool_decide (cond_Status c = ConditionFalse) in
  let rest :=
    match podsReady with
    | Some c => if is_false c then not_ready "PodsNotReady" "NotReady"
                else condition RoleInstanceReady ConditionTrue t "Ready" ""
    | None => condition RoleInstanceReady ConditionTrue t "Ready" ""
    end in
  if containsInstanceInplaceUpdateReadinessGates i then
    match inplace with
    | Some c => if is_false c then not_ready "InplaceUpdateNotReady" "NotReady" else rest
    | None => not_ready "ReadinessGatesNotReady"
                ("corresponding condition of pod readiness gate " +:+ quoted RoleInstanceInPlaceUpdateReady +:+ " does not exist.")
    end
  else rest.

(** What [setInstanceConditions] keeps of the conditions that were there. *)
Definition carried_over (conditions : list RoleInstanceCondition) (c : RoleInstanceCondition) : bool :=
  let instanceReady := existsb (fun c => bool_decide (cond_Type c = RoleInstanceReady)
                                         && bool_decide (cond_Status c = ConditionTrue)) conditions in
  negb (bool_decide (cond_Type c ∈ controllerFailureConditionTypes))
  && negb (bool_decide (cond_Type c ∈ map cond_Type conditions))
  && negb (bool_decide (cond_Type c = RoleInstanceRestarting) && instanceReady).

Section conditions.
Context {ENV : Env}.

(** The pods of the names, each owned and not terminating. *)
Fixpoint get_owned (i : RoleInstance) (names : list string) (pods : list Pod) : M (result (list Pod)) :=
  match names with
  | [] => mret (Ok pods)
  | name :: names' =>
      attempt (GetPod (om_Namespace (ri_meta i)) name) (fun r =>
        match r with
        | Err e => mret (Err e)
        | Ok p =>
            if negb (IsControlledBy (pod_meta p) (ri_meta i)) then mret (Err (foreign_error p i))
            else if negb (not_deleting (pod_meta p)) then
              mret (Err ("pod " +:+ om_Namespace (pod_meta p) +:+ "/" +:+ pod_Name p +:+ " is terminating"))
            else get_owned i names' (pods ++ [p])%list
        end)
  end.

Fixpoint get_components (i : RoleInstance) (cs : list RoleInstanceComponent) (pods : list Pod) : M (result (list Pod)) :=
  match cs with
  | [] => mret (Ok pods)
  | c :: cs' =>
      match ric_Size c with
      | None => fail nil_dereference
      | Some size =>
          r ← get_owned i (map (fun id => FormatComponentPodName (ri_Name i) (ric_Name c) id (GetRoleTemplateType i))
                (seqZ 0 size)) pods;
          match r with
          | Err e => mret (Err e)
          | Ok pods => get_components i cs' pods
          end
      end
  end.

Definition getExpectOwnedPods (i : RoleInstance) : M (result (list Pod)) :=
  get_components i (ris_Components (ri_spec i)) [].

Definition getAllReadyCondition (i : RoleInstance) : M RoleInstanceCondition :=
  t ← now;
  r ← getExpectOwnedPods i;
  mret match r with
       | Err e => condition RoleInstanceAllPodsReady ConditionFalse t "" e
       | Ok pods =>
           match List.find (fun p => negb (pod_ready p)) pods with
           | Some p => condition RoleInstanceAllPodsReady ConditionFalse t "AtLeastOnePodNotReady"
               ("instance need all pods to be ready, but " +:+ om_Namespace (pod_meta p) +:+ "/" +:+ pod_Name p
                +:+ " is in notready condition")
           | None => condition RoleInstanceAllPodsReady ConditionTrue t "PodsReady" "Ready"
           end
       end.

Definition getInstanceReadyPolicy (i : RoleInstance) : string :=
  if bool_decide (ris_ReadyPolicy (ri_spec i) = ""%string) then RoleInstanceReadyOnAllPodReady
  else ris_ReadyPolicy (ri_spec i).

Definition getInstancePodsReadyCondition (i : RoleInstance) : M (option RoleInstanceCondition) :=
  if bool_decide (getInstanceReadyPolicy i = RoleInstanceReadyPolicyTypeNone) then mret None
  else (c ← getAllReadyCondition i; mret (Some c)).

Definition getInstanceInplaceUpdateReadyCondition (i : RoleInstance) : M (option RoleInstanceCondition) :=
  if negb (containsInstanceInplaceUpdateReadinessGates i) then mret None
  else match GetRoleInstanceCondition i RoleInstanceInPlaceUpdateReady with
       | Some c => mret (Some c)
       | None => t ← now; mret (Some (condition RoleInstanceInPlaceUpdateReady ConditionFalse t "" ""))
       end.

Definition setInstanceConditions (i : RoleInstance) (st : RoleInstanceStatus) (newInnerConditions : list RoleInstanceCondition)
    : M RoleInstanceStatus :=
  podsReady ← getInstancePodsReadyCondition i;
  inplace ← getInstanceInplaceUpdateReadyCondition i;
  t ← now;
  let conditions := (newInnerConditions ++ [getInstanceReadyCondition i podsReady inplace t])%list in
  let conditions :=
    match podsReady with
    | Some c => if bool_decide (ris_ReadyPolicy (ri_spec i) = RoleInstanceReadyOnAllPodReady)
                then (conditions ++ [c])%list else conditions
    | None => conditions
    end in
  mret (status_with_conditions
    (conditions ++ List.filter (carried_over conditions) (rist_Conditions (ri_status i)))%list st).

Definition calculateStatus (i : RoleInstance) (st : RoleInstanceStatus) (conditions : list RoleInstanceCondition)
    (pods : list Pod) : M RoleInstanceStatus :=
  match count_status i st pods with
  | None => fail nil_dereference
  | Some st => setInstanceConditions i st conditions
  end.
End conditions.

(** * Whether to write *)

Definition inconsistentComponentStatus (old new : RoleInstanceComponentStatus) : bool :=
  negb (cs_Size old =? cs_Size new) || negb (bool_decide (cs_Name old = cs_Name new))
  || negb (cs_ReadyReplicas old =? cs_ReadyReplicas new)
  || negb (cs_UpdatedReadyReplicas old =? cs_UpdatedReadyReplicas new)
  || negb (cs_AvailableReplicas old =? cs_AvailableReplicas new)
  || negb (cs_UpdatedReplicas old =? cs_UpdatedReplicas new).

(** The last condition of a type is the one in the map. *)
Definition condition_map (cs : list RoleInstanceCondition) : gmap string RoleInstanceCondition :=
  fold_left (fun m c => <[cond_Type c := c]> m) cs ∅.

Definition inconsistentCondition (oldConditions newConditions : list RoleInstanceCondition) : bool :=
  if negb (length oldConditions =? length newConditions)%nat then true
  else existsb (fun c =>
         match condition_map oldConditions !! cond_Type c with
         | None => true
         | Some old => negb (bool_decide (cond_Status old = cond_Status c)) || negb (bool_decide (cond_Message old = cond_Message c))
                       || negb (bool_decide (cond_Reason old = cond_Reason c))
         end) newConditions.

Definition inconsistentBaselines (old new : baselines) : bool :=
  if negb (size old =? size new)%nat then true
  else existsb (fun '(podName, oldContainers) =>
         match new !! podName with
         | None => true
         | Some newContainers =>
             negb (size oldContainers =? size newContainers)%nat ||
             existsb (fun '(cName, oldBaseline) =>
               match newContainers !! cName with
               | None => true
               | Some newBaseline => negb (cub_RestartCount oldBaseline =? cub_RestartCount newBaseline)
                                     || negb (bool_decide (cub_ImageID oldBaseline = cub_ImageID newBaseline))
               end) (map_to_list oldContainers)
         end) (map_to_list old).

Definition inconsistentRestartTime (old new : option Z) : bool := negb (bool_decide (old = new)).

Definition restartTrackingChanged (newLastRestartTime instanceLastRestartTime liveLastRestartTime : option Z) : bool :=
  match newLastRestartTime with
  | None => false
  | Some _ => negb (bool_decide (newLastRestartTime = instanceLastRestartTime))
              && negb (bool_decide (newLastRestartTime = liveLastRestartTime))
  end.

Definition inconsistentStatus (i : RoleInstance) (new : RoleInstanceStatus) : bool :=
  let old := ri_status i in
  (rist_ObservedGeneration new >? rist_ObservedGeneration old)
  || negb (bool_decide (rist_LabelSelector new = rist_LabelSelector old))
  || negb (bool_decide (rist_CurrentRevision new = rist_CurrentRevision old))
  || negb (bool_decide (rist_UpdateRevision new = rist_UpdateRevision old))
  || negb (rist_RestartCount new =? rist_RestartCount old)
  || inconsistentRestartTime (rist_LastRestartTime old) (rist_LastRestartTime new)
  || negb (length (rist_ComponentStatuses old) =? length (rist_ComponentStatuses new))%nat
  || existsb (fun '(o, n) => inconsistentComponentStatus o n)
       (combine (rist_ComponentStatuses old) (rist_ComponentStatuses new))
  || inconsistentCondition (rist_Conditions old) (rist_Conditions new)
  || inconsistentBaselines (rist_Baselines old) (rist_Baselines new).

(** * Writing *)

(** The new status over what the server holds now: foreign conditions are kept,
    restart tracking too unless this pass has changed it. *)
Definition merge_status (i : RoleInstance) (st : RoleInstanceStatus) (live : RoleInstanceStatus) : RoleInstanceStatus :=
  let liveCustomConditions :=
    List.filter (fun c => negb (bool_decide (cond_Type c ∈ controllerOwnedConditionTypes))) (rist_Conditions live) in
  let st' := status_with_conditions (rist_Conditions st ++ liveCustomConditions)%list st in
  if restartTrackingChanged (rist_LastRestartTime st) (rist_LastRestartTime (ri_status i)) (rist_LastRestartTime live) then st'
  else with_restarts (rist_RestartCount live) (rist_LastRestartTime live) st'.

Section write.
Context {ENV : Env}.

Definition updateStatus (i : RoleInstance) (st : RoleInstanceStatus) : M unit :=
  RetryOnConflict DefaultBackoff (
    attempt (GetInstance Cached (om_Namespace (ri_meta i)) (ri_Name i)) (fun r =>
      match r with
      | Err e => if IsNotFound e then mret tt else fail e
      | Ok clone => UpdateInstanceStatus (with_status (merge_status i st (ri_status clone)) clone)
      end)).

(** * The readiness of the pods *)

Definition isInstanceInInplaceUpdatingPhase (i : RoleInstance) : bool :=
  if negb (ContainsReadinessGate i RoleInstanceInPlaceUpdateReady) then false
  else match GetRoleInstanceCondition i RoleInstanceInPlaceUpdateReady with
       | Some c => bool_decide (cond_Status c = ConditionFalse)
       | None => true
       end.

Definition allPodsRuntimeReady (pods : list Pod) : bool := forallb (fun p => IsPodRuntimeReady p 0) pods.

Definition markPodNotReady (i : RoleInstance) (pods : list Pod) : bool :=
  let inInplaceUpdating := isInstanceInInplaceUpdatingPhase i in
  if bool_decide (getInstanceReadyPolicy i = RoleInstanceReadyOnAllPodReady)
  then inInplaceUpdating || negb (allPodsRuntimeReady pods)
  else inInplaceUpdating.

Definition lifecycleBatchSize : nat := 3.

Context `{InPlaceCodec, SortSlice}.

Definition mark_pod (mark : bool) (p : Pod) : M unit :=
  updated ← UpdatePodLifecycle p mark;
  if (updated : bool) then ExpectVersion (pod_meta p) else mret tt.

Definition updatePodsLifeCycle (i : RoleInstance) (pods : list Pod) : M (option error) :=
  '(_, err) ← DoItSlowly (fun w => env_schedule (w_trace w)) pods lifecycleBatchSize (mark_pod (markPodNotReady i pods));
  mret err.

(** The status as it was computed, and the errors. *)
Definition UpdateStatus (i : RoleInstance) (st : RoleInstanceStatus) (pods : list Pod)
    : M (RoleInstanceStatus * list error) :=
  st ← calculateStatus i st (rist_Conditions st) pods;
  attempt (if inconsistentStatus i st then updateStatus i st else mret tt) (fun r =>
    lifecycleErr ← updatePodsLifeCycle i pods;
    mret (st, (match r with Err e => [e] | Ok _ => [] end ++ match lifecycleErr with Some e => [e] | None => [] end)%list)).
End write.
