(* ===== verification/InstanceReadiness.v ===== *)
(** What the status of a RoleInstance says (InstanceStatus.v): the counts count the
    pods, Ready stands for pods the server has shown ready, failures do not outlive
    the pass that reported them, and a write keeps what others own. *)
From Stdlib Require Import ZArith Lia Bool Ascii String.
From stdpp Require Import base tactics list strings gmap sets fin_maps.
From S2P Require Import Prelude Types Effects Revisions SlowStart InstancePods InstanceWorld InstanceRestarts PodInPlace InstanceDemo InstanceScale InstanceCreation InstanceUpdate InstanceStatus.

(** * The counts *)

Definition in_component (name : string) (p : Pod) : bool := bool_decide (GetPodComponentName p = name).
Definition at_revision (revision : string) (p : Pod) : bool := EqualToRevisionHash (pod_meta p) revision.

(** The counts of a component over a list of pods. *)
Definition counts (revision name : string) (pods : list Pod) : RoleInstanceComponentStatus :=
  let n (f : Pod -> bool) := countb (fun p => in_component name p && f p) pods in {|
  cs_Name := ""; cs_Size := n (fun _ => true); cs_ReadyReplicas := n pod_ready;
  cs_UpdatedReplicas := n (at_revision revision); cs_ScheduledReplicas := n IsPodScheduled;
  cs_AvailableReplicas := n pod_ready; cs_UpdatedReadyReplicas := n (fun p => at_revision revision p && pod_ready p) |}.

Lemma add_one_countb (f : Pod -> bool) (l : list Pod) p :
  Z.of_nat (length (l ++ [p])) <= int32_max -> add_one (f p) (countb f l) = countb f (l ++ [p]).
Proof.
  rewrite length_app, Nat2Z.inj_add. cbn [length]. intros Hl. rewrite countb_app. cbn [countb].
  pose proof (countb_le_length f l). pose proof (countb_nonneg f l). unfold add_one.
  destruct (f p); [rewrite int32_id by (unfold_int; lia)|]; lia.
Qed.

Lemma counts_snoc revision name pods p :
  Z.of_nat (length (pods ++ [p])) <= int32_max ->
  counts revision name (pods ++ [p])
  = if in_component name p then count_pod revision (counts revision name pods) p else counts revision name pods.
Proof.
  intros Hl. unfold counts, count_pod.
  assert (forall g, countb (fun q => in_component name q && g q) (pods ++ [p])
    = if in_component name p then add_one (g p) (countb (fun q => in_component name q && g q) pods)
      else countb (fun q => in_component name q && g q) pods) as Hg.
  { intros g. destruct (in_component name p) eqn:Hin.
    - rewrite <-add_one_countb by done. by rewrite Hin.
    - rewrite countb_app. cbn [countb]. rewrite Hin. cbn. lia. }
  rewrite !Hg. cbn [cs_Name cs_Size cs_ReadyReplicas cs_UpdatedReplicas cs_ScheduledReplicas cs_AvailableReplicas cs_UpdatedReadyReplicas].
  by destruct (in_component name p).
Qed.

Lemma count_pods_lookup revision pods name :
  Z.of_nat (length pods) <= int32_max ->
  default no_component_status (count_pods revision pods !! name) = counts revision name pods.
Proof.
  unfold count_pods. rewrite <-(rev_involutive pods). induction (rev pods) as [|p l IH]; [done|].
  cbn [rev]. intros Hl. rewrite fold_left_app, counts_snoc by done. cbn [fold_left].
  specialize (IH ltac:(rewrite length_app in Hl; cbn in Hl; lia)). unfold in_component. rewrite lookup_insert.
  case_decide as Hn; [subst; rewrite bool_decide_eq_true_2 by done; cbn; by rewrite IH|].
  by rewrite bool_decide_eq_false_2 by congruence.
Qed.

Lemma component_totals_statuses m cs updated size sts u n :
  component_totals m cs updated size = Some (sts, u, n) ->
  sts = map (fun c => named (ric_Name c) (default no_component_status (m !! ric_Name c))) cs.
Proof.
  revert updated size sts. induction cs as [|c cs IH]; intros updated size sts; cbn [component_totals]; [by intros [= <- _ _]|].
  destruct (ric_Size c) as [k|]; [|done]. cbn [mbind option_bind].
  destruct (component_totals m cs _ _) as [[[sts' u'] n']|] eqn:Ht; [|done]. cbn. intros [= <- <- <-].
  by rewrite (IH _ _ _ Ht).
Qed.

Lemma count_status_components i st pods st' :
  Z.of_nat (length pods) <= int32_max -> count_status i st pods = Some st' ->
  rist_ComponentStatuses st'
  = map (fun c => named (ric_Name c) (counts (rist_UpdateRevision st) (ric_Name c) pods)) (ris_Components (ri_spec i)).
Proof.
  intros Hl. unfold count_status. destruct (component_totals _ _ _ _) as [[[sts u] n]|] eqn:Ht; [|done]. cbn [mbind option_bind].
  apply component_totals_statuses in Ht. intros [= <-].
  assert (sts = map (fun c => named (ric_Name c) (counts (rist_UpdateRevision st) (ric_Name c) pods)) (ris_Components (ri_spec i))) as ->.
  { rewrite Ht. apply map_ext. intros c. by rewrite count_pods_lookup. }
  by destruct (_ && _).
Qed.

(** * The conditions *)

Section conditions.
Context {ENV : Env} (i : RoleInstance).

(** The server has shown the pod of a name since [w0]: owned and alive. *)
Definition shown (w0 w : world) (name : string) (p : Pod) : Prop :=
  exists later since earlier, w_trace w = (later ++ CallGetPod (om_Namespace (ri_meta i)) name :: earlier)%list /\
    earlier = (since ++ w_trace w0)%list /\
    env_get_pod earlier (om_Namespace (ri_meta i)) name = Ok p /\
    IsControlledBy (pod_meta p) (ri_meta i) = true /\ not_deleting (pod_meta p) = true.

Lemma shown_only w0 w w' name p (ok : api_call -> Prop) : only ok w w' -> shown w0 w name p -> shown w0 w' name p.
Proof.
  intros (new & Ht & _) (a & b & c & Hw & Hp). exists (new ++ a)%list, b, c. by rewrite Ht, Hw, <-app_assoc.
Qed.

Lemma shown_since w0 w1 w name p (ok : api_call -> Prop) : only ok w0 w1 -> shown w1 w name p -> shown w0 w name p.
Proof.
  intros (new & Ht & _) (a & b & c & Hw & -> & Hp). exists a, (b ++ new)%list, (b ++ w_trace w1)%list. split; [done|].
  split; [by rewrite Ht, app_assoc|done].
Qed.

Definition get_only (c : api_call) : Prop := match c with CallGetPod _ _ => True | _ => False end.

Lemma get_owned_spec names pods w r w' :
  get_owned i names pods w = (r, w') ->
  only get_only w w' /\ exists x, r = Ok x /\
    forall l, x = Ok l -> (forall p, p ∈ pods -> p ∈ l) /\ forall name, name ∈ names -> exists p, p ∈ l /\ shown w w' name p.
Proof.
  revert pods w. induction names as [|name names IH]; intros pods w; cbn [get_owned].
  { intros [-> ->]%ret_inv. split; [apply only_refl|]. eexists. split; [done|]. intros l [= <-].
    split; [done|]. by intros n ?%elem_of_nil. }
  intros (x & w1 & [-> ->]%request_inv & Hr)%attempt_inv.
  set (w1 := with_trace _ w) in Hr. set (ns := om_Namespace (ri_meta i)) in *.
  assert (only get_only w w1) as Ho by (exists [CallGetPod ns name]; split; [done|by intros c ->%list_elem_of_singleton]).
  assert (forall e, (mret (Err e) : M (result (list Pod))) w1 = (r, w') -> only get_only w w' /\ exists x, r = Ok x /\
    forall l : list Pod, x = Ok l -> (forall p, p ∈ pods -> p ∈ l) /\ forall n, n ∈ name :: names -> exists p, p ∈ l /\ shown w w' n p)
    as Herr by (intros e [-> ->]%ret_inv; split; [done|]; by eexists).
  destruct (env_get_pod (w_trace w) ns name) as [p|e] eqn:Hg; [|by eapply Herr].
  destruct (IsControlledBy _ _) eqn:Hc; cbn [negb] in Hr; [|by eapply Herr].
  destruct (not_deleting _) eqn:Hd; cbn [negb] in Hr; [|by eapply Herr].
  apply IH in Hr as (Ho2 & x & -> & Hx). split; [by eapply only_trans|]. eexists. split; [done|].
  intros l ->. destruct (Hx l eq_refl) as [Hin Hn]. split; [intros q Hq; apply Hin; set_solver|].
  intros n [->|Hn']%elem_of_cons.
  2: { destruct (Hn n Hn') as (q & Hq & Hsh). exists q. split; [done|]. by eapply shown_since. }
  exists p. split; [apply Hin; set_solver|].
  eapply shown_only; [exact Ho2|]. exists [], [], (w_trace w). by repeat split.
Qed.

Definition expected_name (c : RoleInstanceComponent) (id : Z) : string :=
  FormatComponentPodName (ri_Name i) (ric_Name c) id (GetRoleTemplateType i).

Lemma get_components_spec cs pods w r w' :
  get_components i cs pods w = (r, w') ->
  only get_only w w' /\ forall l, r = Ok (Ok l) -> (forall p, p ∈ pods -> p ∈ l) /\
    forall c size id, c ∈ cs -> ric_Size c = Some size -> 0 <= id < size -> exists p, p ∈ l /\ shown w w' (expected_name c id) p.
Proof.
  revert pods w. induction cs as [|c cs IH]; intros pods w; cbn [get_components].
  { intros [-> ->]%ret_inv. split; [apply only_refl|]. intros l [= <-]. split; [done|]. by intros c s n ?%elem_of_nil. }
  destruct (ric_Size c) as [size|] eqn:Hs; [|intros [= <- <-]; split; [apply only_refl|done]].
  intros [(e & He & ->)|(x & w1 & He & Hr)]%bind_inv; apply get_owned_spec in He as (Ho & x' & [= <-] & Hx).
  destruct x as [pods'|e]; [|apply ret_inv in Hr as [-> ->]; by split].
  apply IH in Hr as [Ho2 Hl]. split; [by eapply only_trans|]. intros l ->. destruct (Hl l eq_refl) as [Hin Hall].
  destruct (Hx pods' eq_refl) as [Hin1 Hn]. split; [auto|]. intros c' size' id Hc' Hsize' Hid.
  apply elem_of_cons in Hc' as [->|Hc'].
  2: { destruct (Hall c' size' id Hc' Hsize' Hid) as (q & Hq & Hsh). exists q. split; [done|]. by eapply shown_since. }
  replace size' with size in * by congruence.
  destruct (Hn (expected_name c id)) as (p & Hp & Hsh).
  { apply list_elem_of_fmap. exists id. split; [done|]. by apply elem_of_seqZ. }
  exists p. split; [by apply Hin|by eapply shown_only].
Qed.

(** All pods of an instance have been shown ready since [w0]. *)
Definition all_shown_ready (w0 w : world) : Prop :=
  forall c size id, c ∈ ris_Components (ri_spec i) -> ric_Size c = Some size -> 0 <= id < size ->
    exists p, shown w0 w (expected_name c id) p /\ pod_ready p = true.

Lemma getAllReadyCondition_spec w r w' :
  getAllReadyCondition i w = (r, w') ->
  only get_only w w' /\ forall c, r = Ok c -> cond_Type c = RoleInstanceAllPodsReady /\
    (cond_Status c = ConditionTrue \/ cond_Status c = ConditionFalse) /\
    (cond_Status c = ConditionTrue -> all_shown_ready w w').
Proof.
  intros Hr%clock_inv. assert (only get_only w (with_clock (S (w_clock w)) w)) as Hw0 by by apply only_same.
  apply bind_inv in Hr as [(e & He & ->)|(x & w1 & He & [-> ->]%ret_inv)]; apply get_components_spec in He as [Ho Hl];
    (split; [by eapply only_trans|]); [done|].
  intros c [= <-]. destruct x as [l|e]; [|split; [done|]; split; [by right|by intros [=]]].
  destruct (Hl l eq_refl) as [_ Hall]. destruct (List.find _ l) as [q|] eqn:Hf.
  { split; [done|]. split; [by right|]. by intros [=]. }
  split; [done|]. split; [by left|]. intros _ c' size id Hc Hs Hid. destruct (Hall c' size id Hc Hs Hid) as (p & Hp & Hsh).
  exists p. split; [done|]. rewrite list_elem_of_In in Hp. pose proof (find_none _ _ Hf p Hp) as Hn. cbn in Hn.
  by apply negb_false_iff.
Qed.
End conditions.

Section set_conditions.
Context {ENV : Env} (i : RoleInstance).

Definition is_ready (c : RoleInstanceCondition) : Prop := cond_Type c = RoleInstanceReady /\ cond_Status c = ConditionTrue.

(** The conditions a pass computes itself. *)
Definition computed (inner : list RoleInstanceCondition) (podsReady inplace : option RoleInstanceCondition) (t : Z)
    : list RoleInstanceCondition :=
  (inner ++ [getInstanceReadyCondition i podsReady inplace t])%list ++
  match podsReady with
  | Some c => if bool_decide (ris_ReadyPolicy (ri_spec i) = RoleInstanceReadyOnAllPodReady) then [c] else []
  | None => []
  end.

Lemma setInstanceConditions_spec st inner w r w' :
  setInstanceConditions i st inner w = (r, w') ->
  only get_only w w' /\ forall st', r = Ok st' -> exists podsReady inplace t,
    st' = status_with_conditions (computed inner podsReady inplace t
      ++ List.filter (carried_over (computed inner podsReady inplace t)) (rist_Conditions (ri_status i)))%list st /\
    match podsReady with
    | None => getInstanceReadyPolicy i = RoleInstanceReadyPolicyTypeNone
    | Some c => cond_Type c = RoleInstanceAllPodsReady /\ (cond_Status c = ConditionTrue \/ cond_Status c = ConditionFalse) /\
                (cond_Status c = ConditionTrue -> all_shown_ready i w w')
    end /\
    (ContainsReadinessGate i RoleInstanceInPlaceUpdateReady = true -> forall c, inplace = Some c ->
      GetRoleInstanceCondition i RoleInstanceInPlaceUpdateReady = Some c \/ cond_Status c = ConditionFalse).
Proof.
  unfold setInstanceConditions. intros Hr.
  assert (forall w1 r1 w2, getInstancePodsReadyCondition i w1 = (r1, w2) -> only get_only w1 w2 /\ forall p, r1 = Ok p ->
    match p with
    | None => getInstanceReadyPolicy i = RoleInstanceReadyPolicyTypeNone
    | Some c => cond_Type c = RoleInstanceAllPodsReady /\ (cond_Status c = ConditionTrue \/ cond_Status c = ConditionFalse) /\
                (cond_Status c = ConditionTrue -> all_shown_ready i w1 w2)
    end) as Hpods.
  { clear Hr. intros w1 r1 w2. unfold getInstancePodsReadyCondition. case_bool_decide as Hp.
    - intros [-> ->]%ret_inv. split; [apply only_refl|]. by intros p [= <-].
    - intros [(e & He & ->)|(c & w3 & He & [-> ->]%ret_inv)]%bind_inv; apply getAllReadyCondition_spec in He as [Ho Hc];
        (split; [done|]); [done|]. intros p [= <-]. by apply Hc. }
  apply bind_inv in Hr as [(e & He & ->)|(podsReady & w1 & He & Hr)]; apply Hpods in He as [Ho Hp]; [by split|].
  assert (exists inplace w2, w_trace w2 = w_trace w1 /\
    (ContainsReadinessGate i RoleInstanceInPlaceUpdateReady = true -> forall c, inplace = Some c ->
      GetRoleInstanceCondition i RoleInstanceInPlaceUpdateReady = Some c \/ cond_Status c = ConditionFalse) /\
    (mret (status_with_conditions (computed inner podsReady inplace (env_now (w_clock w2))
      ++ List.filter (carried_over (computed inner podsReady inplace (env_now (w_clock w2)))) (rist_Conditions (ri_status i)))%list st)
      : M RoleInstanceStatus) (with_clock (S (w_clock w2)) w2) = (r, w')) as (inplace & w2 & Ht & Hip & Hret).
  { unfold computed. revert Hr. unfold getInstanceInplaceUpdateReadyCondition.
    unfold containsInstanceInplaceUpdateReadinessGates.
    destruct (ContainsReadinessGate _ _); cbn [negb]; [destruct (GetRoleInstanceCondition _ _) as [c0|]|]; intros Hr;
      (apply bind_inv in Hr as [(e & [=] & ->)|(inplace & w2 & [= <- <-] & Hr)]);
      (eexists _, _; split; [|split; [|destruct podsReady as [c|]; [case_bool_decide|]; rewrite ?app_nil_r; exact Hr]]);
      [done| |done| |done|]; intros Hg c1 [= <-]; auto. }
  apply ret_inv in Hret as [-> ->].
  assert (only get_only w (with_clock (S (w_clock w2)) w2)) as Hw' by (eapply only_trans; [exact Ho|by apply only_same]).
  split; [done|]. intros st' [= <-]. exists podsReady, inplace, (env_now (w_clock w2)). split; [done|].
  split; [|exact Hip]. specialize (Hp podsReady eq_refl). destruct podsReady as [c|]; [|done]. destruct Hp as (? & ? & Hs). split; [done|].
  split; [done|]. intros Hc c' size id H1 H2 H3. destruct (Hs Hc c' size id H1 H2 H3) as (p & Hp & Hr').
  exists p. split; [|done]. eapply (shown_only i w w1 _ _ _ (fun _ => True)); [by apply only_same|done].
Qed.

Lemma getInstanceReadyCondition_true podsReady inplace t :
  is_ready (getInstanceReadyCondition i podsReady inplace t) ->
  (forall c, podsReady = Some c -> cond_Status c <> ConditionFalse) /\
  (ContainsReadinessGate i RoleInstanceInPlaceUpdateReady = true -> exists c, inplace = Some c /\ cond_Status c <> ConditionFalse).
Proof.
  unfold getInstanceReadyCondition, containsInstanceInplaceUpdateReadinessGates, is_ready.
  destruct podsReady as [c|]; [destruct (bool_decide_reflect (cond_Status c = ConditionFalse))|];
    (destruct (ContainsReadinessGate i _);
      [destruct inplace as [c'|]; [destruct (bool_decide_reflect (cond_Status c' = ConditionFalse))|]|]); cbn;
    intros [_ Hs]; try discriminate Hs; (split; [by intros ? [= <-]|]); intros Hg; try discriminate Hg; eauto.
Qed.

Lemma carried_over_types conditions c :
  carried_over conditions c = true -> cond_Type c ∉ controllerFailureConditionTypes /\ cond_Type c ∉ map cond_Type conditions.
Proof. unfold carried_over. by intros [[?%negb_true_iff%bool_decide_eq_false ?%negb_true_iff%bool_decide_eq_false]%andb_prop _]%andb_prop. Qed.

Lemma computed_ready inner podsReady inplace t c :
  (forall c, c ∈ inner -> cond_Type c <> RoleInstanceReady) ->
  match podsReady with Some c => cond_Type c = RoleInstanceAllPodsReady | None => True end ->
  c ∈ (computed inner podsReady inplace t ++ List.filter (carried_over (computed inner podsReady inplace t)) (rist_Conditions (ri_status i)))%list ->
  cond_Type c = RoleInstanceReady -> c = getInstanceReadyCondition i podsReady inplace t.
Proof.
  intros Hin Hp Hc Ht. apply elem_of_app in Hc as [Hc|Hc].
  - unfold computed in Hc. apply elem_of_app in Hc as [[Hc|Hc%list_elem_of_singleton]%elem_of_app|Hc]; [by apply Hin in Hc|done|].
    destruct podsReady as [c'|]; [|by apply elem_of_nil in Hc]. case_bool_decide; [|by apply elem_of_nil in Hc].
    apply list_elem_of_singleton in Hc as ->. by rewrite Hp in Ht.
  - rewrite list_elem_of_In, filter_In in Hc. destruct Hc as [_ [_ Hn]%carried_over_types]. exfalso. apply Hn.
    rewrite Ht. apply list_elem_of_fmap. exists (getInstanceReadyCondition i podsReady inplace t). split; [|set_solver].
    unfold getInstanceReadyCondition. by repeat case_match.
Qed.
End set_conditions.

(** C9: An instance is published ready (by the condition computed, none being handed in)
    only when its readiness gates allow it: with the in-place gate, only when that
    condition is there and not false; and unless its ready policy is None, in which
    case pods are not looked at, only after the server has shown, in this very pass,
    every pod that every component asks for, each owned by the instance, alive,
    running and ready. *)
Theorem ready_means_pods_shown {ENV : Env} i st inner pods w st' w' :
  (forall c, c ∈ inner -> cond_Type c <> RoleInstanceReady) ->
  calculateStatus i st inner pods w = (Ok st', w') ->
  (exists c, c ∈ rist_Conditions st' /\ is_ready c) ->
  (getInstanceReadyPolicy i <> RoleInstanceReadyPolicyTypeNone -> all_shown_ready i w w') /\
  (ContainsReadinessGate i RoleInstanceInPlaceUpdateReady = true ->
   exists c, GetRoleInstanceCondition i RoleInstanceInPlaceUpdateReady = Some c /\ cond_Status c <> ConditionFalse).
Proof.
  intros Hin Hr (c & Hc & Hready). unfold calculateStatus in Hr.
  destruct (count_status i st pods) as [st1|]; [|done].
  apply setInstanceConditions_spec in Hr as (_ & Hs).
  destruct (Hs st' eq_refl) as (podsReady & inplace & t & -> & Hpods & Hip). clear Hs.
  assert (c = getInstanceReadyCondition i podsReady inplace t) as ->.
  { apply (computed_ready i inner podsReady inplace t); [done| |done|apply Hready].
    destruct podsReady; [by destruct Hpods|done]. }
  apply getInstanceReadyCondition_true in Hready as [Hp Hg]. split.
  - intros Hpol. destruct podsReady as [c|]; [|done]. destruct Hpods as (_ & [Hs|Hs] & Hall); [by apply Hall|].
    by destruct (Hp c eq_refl).
  - intros Hgate. destruct (Hg Hgate) as (c & -> & Hns). destruct (Hip Hgate c eq_refl) as [Hc'|Hc']; [by exists c|done].
Qed.

(** Failures do not outlive their pass, and foreign conditions are kept: a
    FailedScale or FailedUpdate of the published status was reported by this pass,
    and a condition of a type that the controller does not compute is carried over
    as it is. *)
Theorem conditions_of_a_pass {ENV : Env} i st inner pods w st' w' :
  calculateStatus i st inner pods w = (Ok st', w') ->
  (forall c, c ∈ rist_Conditions st' -> cond_Type c ∈ controllerFailureConditionTypes -> c ∈ inner) /\
  (forall c, c ∈ inner -> c ∈ rist_Conditions st') /\
  (forall c, c ∈ rist_Conditions (ri_status i) -> cond_Type c ∉ map cond_Type inner ->
    cond_Type c ∉ ({[RoleInstanceReady; RoleInstanceAllPodsReady; RoleInstanceRestarting]} ∪ controllerFailureConditionTypes : gset string) ->
    c ∈ rist_Conditions st').
Proof.
  unfold calculateStatus. destruct (count_status i st pods) as [st1|]; [|done].
  intros (_ & Hs)%setInstanceConditions_spec. destruct (Hs st' eq_refl) as (podsReady & inplace & t & -> & Hpods & _).
  cbn [rist_Conditions status_with_conditions].
  assert (Ht : cond_Type (getInstanceReadyCondition i podsReady inplace t) = RoleInstanceReady)
    by (unfold getInstanceReadyCondition; by repeat case_match).
  assert (forall c, c ∈ computed i inner podsReady inplace t -> c ∈ inner \/ cond_Type c = RoleInstanceReady
    \/ cond_Type c = RoleInstanceAllPodsReady) as Hcomp.
  { intros c Hc. unfold computed in Hc. apply elem_of_app in Hc as [[Hc|Hc%list_elem_of_singleton]%elem_of_app|Hc]; subst; [auto..|].
    destruct podsReady as [c'|]; [|by apply elem_of_nil in Hc]. case_bool_decide; [|by apply elem_of_nil in Hc].
    apply list_elem_of_singleton in Hc as ->. destruct Hpods. auto. }
  split; [|split].
  - intros c [Hc|Hc]%elem_of_app Hf.
    + destruct (Hcomp c Hc) as [?|[He|He]]; [done|by rewrite He in Hf|by rewrite He in Hf].
    + rewrite list_elem_of_In, filter_In in Hc. by destruct Hc as [_ [? _]%carried_over_types].
  - intros c Hc. unfold computed. set_solver.
  - intros c Hc Hin Hty. apply elem_of_app. right. rewrite list_elem_of_In, filter_In, <-list_elem_of_In. split; [done|].
    unfold carried_over. rewrite !andb_true_iff, !negb_true_iff, !bool_decide_eq_false. split; [split|].
    + set_solver.
    + intros (c' & Hct & Hc')%list_elem_of_fmap. destruct (Hcomp c' Hc') as [Hi|[He|He]].
      * apply Hin, list_elem_of_fmap. eauto.
      * rewrite He in Hct. set_solver.
      * rewrite He in Hct. set_solver.
    + apply andb_false_iff. left. apply bool_decide_eq_false. set_solver.
Qed.

(** * When the current revision advances *)

Fixpoint sum_over {A} (f : A -> Z) (l : list A) : Z := match l with [] => 0 | x :: l' => f x + sum_over f l' end.

Lemma sum_over_nonneg {A} (f : A -> Z) l : (forall x, 0 <= f x) -> 0 <= sum_over f l.
Proof. intros Hf. induction l as [|x l IH]; cbn; [lia|]. specialize (Hf x). lia. Qed.

Lemma sum_over_plus {A} (f g : A -> Z) l : sum_over (fun x => f x + g x) l = sum_over f l + sum_over g l.
Proof. induction l as [|x l IH]; cbn [sum_over]; [done|]. rewrite IH. lia. Qed.

(** Components with different names share no pod. *)
Lemma sum_of_components (f : Pod -> bool) pods (cs : list RoleInstanceComponent) :
  NoDup (map ric_Name cs) ->
  sum_over (fun c => countb (fun p => in_component (ric_Name c) p && f p) pods) cs <= countb f pods.
Proof.
  intros Hnd. induction pods as [|p pods IH]; [clear; induction cs as [|c cs IHc]; cbn in *; lia|].
  cbn [countb]. set (one := fun c : RoleInstanceComponent => if in_component (ric_Name c) p && f p then 1 else 0).
  etrans; [apply Z.eq_le_incl, (sum_over_plus one)|].
  assert (sum_over one cs <= if f p then 1 else 0) as Hone; [|lia].
  clear IH. unfold one. destruct (f p); [|clear; induction cs as [|c cs IHc]; cbn [sum_over]; [done|]; rewrite andb_false_r; lia].
  assert (forall cs, GetPodComponentName p ∉ map ric_Name cs ->
    sum_over (fun c : RoleInstanceComponent => if in_component (ric_Name c) p && true then 1 else 0) cs = 0) as Hzero.
  { intros l. induction l as [|c l IHl]; [done|]. cbn [map sum_over]. intros [Hc Hl]%not_elem_of_cons.
    unfold in_component at 1. rewrite bool_decide_eq_false_2 by done. cbn [andb]. by rewrite IHl. }
  induction cs as [|c cs IHc]; [done|]. cbn [map] in Hnd. apply NoDup_cons in Hnd as [Hc Hnd]. cbn [sum_over].
  unfold in_component at 1. case_bool_decide as He; cbn [andb]; [|by apply IHc]. rewrite Hzero by by rewrite He. lia.
Qed.

Lemma component_totals_updated m cs updated size sts u n B :
  component_totals m cs updated size = Some (sts, u, n) -> 0 <= updated ->
  (forall c, 0 <= cs_UpdatedReplicas (default no_component_status (m !! ric_Name c))) ->
  updated + sum_over (fun c => cs_UpdatedReplicas (default no_component_status (m !! ric_Name c))) cs <= B -> B <= int32_max ->
  u = updated + sum_over (fun c => cs_UpdatedReplicas (default no_component_status (m !! ric_Name c))) cs.
Proof.
  intros Ht H0 Hpos Hb HB. revert updated size sts u n Ht H0 Hb. induction cs as [|c cs IH]; intros updated size sts u n; cbn [component_totals].
  { intros [= _ <- _] _ _. cbn. lia. }
  destruct (ric_Size c) as [k|]; [|done]. cbn [mbind option_bind].
  destruct (component_totals m cs _ _) as [[[sts' u'] n']|] eqn:Ht; [|done]. cbn [sum_over]. intros [= _ <- _] H0 Hb.
  pose proof (Hpos c). pose proof (sum_over_nonneg _ cs Hpos).
  assert (is_int32 (updated + cs_UpdatedReplicas (default no_component_status (m !! ric_Name c)))) as Hi by (unfold_int; lia).
  rewrite int32_id in Ht by done. rewrite (IH _ _ _ _ _ Ht) by lia. lia.
Qed.

(** The published counts are the counts of the pods of each component, and
    the current revision moves to the update revision only when every pod is
    there. *)
Theorem status_counts_pods i st pods st' :
  Z.of_nat (length pods) <= int32_max -> NoDup (map ric_Name (ris_Components (ri_spec i))) ->
  count_status i st pods = Some st' ->
  rist_ComponentStatuses st'
  = map (fun c => named (ric_Name c) (counts (rist_UpdateRevision st) (ric_Name c) pods)) (ris_Components (ri_spec i)) /\
  (rist_CurrentRevision st' = rist_CurrentRevision st \/
   rist_CurrentRevision st' = rist_UpdateRevision st /\
   forall p, p ∈ pods -> at_revision (rist_UpdateRevision st) p = true).
Proof.
  intros Hl Hnd Hc. split; [by eapply count_status_components|]. revert Hc. unfold count_status.
  destruct (component_totals _ _ _ _) as [[[sts u] n]|] eqn:Ht; [|done]. cbn [mbind option_bind]. intros [= <-].
  destruct ((u =? _) && _) eqn:Hdone; [|by left]. right. split; [done|].
  apply andb_prop in Hdone as [Hu%Z.eqb_eq _].
  rewrite int32_id in Hu by (unfold_int; lia).
  assert (forall name, cs_UpdatedReplicas (default no_component_status (count_pods (rist_UpdateRevision st) pods !! name))
    = countb (fun p => in_component name p && at_revision (rist_UpdateRevision st) p) pods) as Hup.
  { intros name. by rewrite count_pods_lookup. }
  apply component_totals_updated with (B := countb (at_revision (rist_UpdateRevision st)) pods) in Ht; [|lia|..].
  - apply countb_full. pose proof (sum_of_components (at_revision (rist_UpdateRevision st)) pods _ Hnd) as Hs.
    pose proof (countb_le_length (at_revision (rist_UpdateRevision st)) pods).
    assert (sum_over (fun c => cs_UpdatedReplicas (default no_component_status
      (count_pods (rist_UpdateRevision st) pods !! ric_Name c))) (ris_Components (ri_spec i))
      = sum_over (fun c => countb (fun p => in_component (ric_Name c) p && at_revision (rist_UpdateRevision st) p) pods)
          (ris_Components (ri_spec i))) as He.
    { clear -Hup. induction (ris_Components (ri_spec i)) as [|c cs IH]; cbn [sum_over]; [done|]. by rewrite IH, Hup. }
    rewrite He in Ht. lia.
  - intros c. rewrite Hup. apply countb_nonneg.
  - etrans; [|apply (sum_of_components (at_revision (rist_UpdateRevision st)) pods _ Hnd)].
    apply Z.eq_le_incl. clear -Hup. induction (ris_Components (ri_spec i)) as [|c cs IH]; cbn [sum_over]; [done|].
    rewrite Hup. lia.
  - etrans; [apply countb_le_length|done].
Qed.

(** * Writing the status *)

Lemma only_RetryOnConflict {A} (ok : api_call -> Prop) n (fn : M A) w r w' :
  (forall w r w', fn w = (r, w') -> only ok w w') -> RetryOnConflict n fn w = (r, w') -> only ok w w'.
Proof.
  intros Hf. revert w. induction n as [|n IH]; intros w; cbn [RetryOnConflict]; [by apply Hf|].
  intros (x & w1 & Hx & Hr)%attempt_inv. apply Hf in Hx. destruct x as [a|e]; [by apply ret_inv in Hr as [_ ->]|].
  destruct (IsConflict e); [eapply only_trans; [exact Hx|by eapply IH]|]. by injection Hr as _ ->.
Qed.

Section writes.
Context `{InPlaceCodec, SortSlice} {ENV : Env} (i : RoleInstance).

(** A write over what the server held: the object but for its status, the
    conditions that are not the controller's, and the tracking of restarts unless it
    is new. *)
Definition merges (old new : RoleInstance) : Prop :=
  ri_meta new = ri_meta old /\ ri_spec new = ri_spec old /\
  (forall c, c ∈ rist_Conditions (ri_status old) -> cond_Type c ∉ controllerOwnedConditionTypes -> c ∈ rist_Conditions (ri_status new)) /\
  (rist_LastRestartTime (ri_status new) = rist_LastRestartTime (ri_status old) /\
     rist_RestartCount (ri_status new) = rist_RestartCount (ri_status old) \/
   exists t, rist_LastRestartTime (ri_status new) = Some t /\ rist_LastRestartTime (ri_status old) <> Some t /\
     rist_LastRestartTime (ri_status i) <> Some t).

(** An object is written right after the instance has been read again, and is what
    that read answered, merged. *)
Definition write_of_read (t : list api_call) (new : RoleInstance) : Prop :=
  exists t' old, t = CallGetInstance Cached (om_Namespace (ri_meta i)) (ri_Name i) :: t' /\
    env_get_instance t' Cached (om_Namespace (ri_meta i)) (ri_Name i) = Ok old /\ merges old new.

(** The calls of a status update. *)
Definition status_call (t : list api_call) (c : api_call) : Prop :=
  match c with
  | CallUpdateInstanceStatus new => write_of_read t new
  | CallGetPod _ _ | CallUpdatePod _ | CallUpdatePodStatus _ | CallGetInstance _ _ _ => True
  | _ => False
  end.

Definition plain_call (c : api_call) : Prop :=
  match c with
  | CallGetPod _ _ | CallUpdatePod _ | CallUpdatePodStatus _ | CallGetInstance _ _ _ => True
  | _ => False
  end.

Lemma plain_traced w w' : only plain_call w w' -> traced status_call w w'.
Proof. apply traced_only. by intros t []. Qed.

Lemma merge_status_merges st clone : merges clone (with_status (merge_status i st (ri_status clone)) clone).
Proof.
  unfold merges, merge_status, restartTrackingChanged. split; [done|]. split; [done|]. cbn [ri_status with_status].
  set (st' := status_with_conditions _ st).
  assert (forall c, c ∈ rist_Conditions (ri_status clone) -> cond_Type c ∉ controllerOwnedConditionTypes -> c ∈ rist_Conditions st') as Hc.
  { intros c Hc Ht. unfold st'. cbn. apply elem_of_app. right. rewrite list_elem_of_In, filter_In, <-list_elem_of_In.
    split; [done|]. by rewrite bool_decide_eq_false_2. }
  destruct (rist_LastRestartTime st) as [t|] eqn:Ht; [|split; [exact Hc|by left]].
  destruct (bool_decide_reflect (Some t = rist_LastRestartTime (ri_status i))) as [He|Hi]; cbn [negb andb]; [split; [exact Hc|by left]|].
  destruct (bool_decide_reflect (Some t = rist_LastRestartTime (ri_status clone))) as [He|Hl]; cbn [negb]; [split; [exact Hc|by left]|].
  split; [exact Hc|]. right. exists t. split; [exact Ht|]. by split; intros He; [apply Hl|apply Hi].
Qed.

Lemma traces_RetryOnConflict {A} (ok : list api_call -> api_call -> Prop) n (fn : M A) :
  traces ok fn -> traces ok (RetryOnConflict n fn).
Proof.
  intros Hf. induction n as [|n IH]; cbn [RetryOnConflict]; [done|]. apply traces_attempt; [done|].
  intros [a|e]; [apply traces_ret|]. destruct (IsConflict e); [done|]. intros w r w' [= _ <-]. apply traced_refl.
Qed.

Lemma updateStatus_calls st : traces status_call (updateStatus i st).
Proof.
  apply traces_RetryOnConflict. intros w r w' (x & w1 & [-> ->]%request_inv & Hr)%attempt_inv.
  match type of Hr with _ ?w2 = _ => apply (traced_trans _ _ w2) end; [by eapply traced_step|].
  destruct (env_get_instance (w_trace w) Cached (om_Namespace (ri_meta i)) (ri_Name i)) as [clone|e] eqn:Hget;
    [|destruct (IsNotFound e); injection Hr as _ <-; apply traced_refl].
  apply request_inv in Hr as [_ ->]. eapply traced_step; [done|]. cbn. exists (w_trace w), clone.
  split; [done|]. split; [done|]. apply merge_status_merges.
Qed.

Lemma silent_plain {A} (m : M A) w r w' : silent beyond_pod_updates m -> m w = (r, w') -> only plain_call w w'.
Proof. apply only_silent. by intros []. Qed.

Lemma updatePodsLifeCycle_calls pods w r w' : updatePodsLifeCycle i pods w = (r, w') -> only plain_call w w'.
Proof.
  unfold updatePodsLifeCycle.
  assert (forall r w', DoItSlowly (fun w => env_schedule (w_trace w)) pods lifecycleBatchSize (mark_pod (markPodNotReady i pods)) w
    = (r, w') -> only plain_call w w') as Hd.
  { intros r1 w1 Hd. eapply only_slowly_loop, Hd; [intros; apply env_schedule_perm|].
    intros p w2 r2 w3 _. apply silent_plain. unfold mark_pod.
    apply silent_bind; [apply silent_UpdatePodLifecycle|]. silence. }
  intros [(e & He & ->)|([ok err] & w1 & He & Hr)]%bind_inv; [by eapply Hd|].
  apply ret_inv in Hr as [_ ->]. by eapply Hd.
Qed.

Lemma calculateStatus_calls st conditions pods w r w' : calculateStatus i st conditions pods w = (r, w') -> only plain_call w w'.
Proof.
  unfold calculateStatus. destruct (count_status i st pods) as [st1|]; [|intros [= _ <-]; apply only_refl].
  intros [Ho _]%setInstanceConditions_spec. eapply only_mono, Ho. by intros [].
Qed.

Lemma UpdateStatus_calls st pods : traces status_call (UpdateStatus i st pods).
Proof.
  apply traces_bind; [intros w r w' Hr; by eapply plain_traced, calculateStatus_calls|]. intros st1 _ _ _.
  apply traces_attempt; [destruct (inconsistentStatus i st1); [apply updateStatus_calls|apply traces_ret]|].
  intros x. apply traces_bind; [|intros; apply traces_ret].
  intros w r w' Hr. by eapply plain_traced, updatePodsLifeCycle_calls.
Qed.
End writes.

(** C25: Publishing a status writes the instance only right after reading it again,
    and what it writes is the object of that read in all but the status: the
    conditions are kept whose types are not in [controllerOwnedConditionTypes] (the
    code's list, which holds RoleInstanceInPlaceUpdateReady and
    RoleInstanceCustomReady too), and so are the recorded restarts unless this pass
    has recorded a restart of its own.  No instance, pod or revision is created or
    deleted. *)
Theorem UpdateStatus_merges `{InPlaceCodec, SortSlice, Env} i st pods w :
  exists new, w_trace (UpdateStatus i st pods w).2 = (new ++ w_trace w)%list /\
    forall l1 c l2, new = (l1 ++ c :: l2)%list -> status_call i (l2 ++ w_trace w)%list c.
Proof. destruct (UpdateStatus i st pods w) as [r w'] eqn:Hr. exact (UpdateStatus_calls i st pods w r w' Hr). Qed.

(** * At a concrete instance *)

Import Web.

(** A server that shows the same pod of the instance under every name, ready. *)
Definition ready_pod : Pod := {|
  pod_meta := pod_meta (pod "db" 0); pod_spec := pod_spec (pod "db" 0);
  pod_status := {| pds_Phase := PodRunning; pds_ContainerStatuses := [];
    pds_Conditions := [{| pc_Type := PodReady; pc_Status := ConditionTrue; pc_LastTransitionTime := None; pc_Reason := "";
                          pc_Message := "" |}] |} |}.

#[export] Program Instance showing : Env := {|
  env_now := fun _ => 0; env_apiReader := true;
  env_get_pod := fun _ _ _ => Ok ready_pod; env_list_pods := fun _ _ _ => Ok [];
  env_create_pod := fun _ _ => Ok tt; env_delete_pod := fun _ _ => Ok tt;
  env_update_pod := fun _ p => Ok p; env_update_pod_status := fun _ _ => Ok tt;
  env_get_instance := fun _ _ _ _ => Err NotFoundError; env_update_instance_status := fun _ _ => Ok tt;
  env_list_revisions := fun _ _ _ => Ok []; env_create_revision := fun _ _ r n => (Ok r, n);
  env_update_revision := fun _ r _ => Ok r; env_delete_revision := fun _ _ => Ok tt;
  env_schedule := fun _ l => l
|}.
Next Obligation. done. Qed.

Definition published (inner : list RoleInstanceCondition) : result RoleInstanceStatus * world :=
  calculateStatus (ENV := showing) (web "" 0 0 None) empty_instance_status inner [] start.

Definition conditions_in (r : result RoleInstanceStatus) : list RoleInstanceCondition :=
  match r with Ok st => rist_Conditions st | Err _ => [] end.

Lemma ready_means_pods_shown_witness : all_shown_ready (ENV := showing) (web "" 0 0 None) start (published []).2.
Proof.
  assert (existsb (fun c => bool_decide (cond_Type c = RoleInstanceReady) && bool_decide (cond_Status c = ConditionTrue))
    (conditions_in (published []).1) = true) as Hb by by vm_compute.
  destruct (published []) as [[st'|e] w'] eqn:Hr; [|done]. cbn [fst snd conditions_in] in *.
  apply existsb_exists in Hb as (c & Hc & [Ht%bool_decide_eq_true Hs%bool_decide_eq_true]%andb_prop).
  apply (ready_means_pods_shown (ENV := showing) (web "" 0 0 None) empty_instance_status [] [] start st' w');
    [by intros ? ?%elem_of_nil|exact Hr| |intros He; by vm_compute in He].
  exists c. split; [by apply list_elem_of_In|done].
Defined.

Definition failure : RoleInstanceCondition := condition RoleInstanceFailedScale ConditionTrue 0 "" "quota".

Lemma conditions_of_a_pass_witness : failure ∈ conditions_in (published [failure]).1.
Proof.
  destruct (published [failure]) as [[st'|e] w'] eqn:Hr; [|exfalso; by vm_compute in Hr].
  destruct (conditions_of_a_pass (ENV := showing) (web "" 0 0 None) empty_instance_status [failure] [] start st' w' Hr) as (_ & Hin & _).
  apply Hin. by left.
Defined.

Lemma status_counts_pods_witness :
  match count_status (web "" 0 0 None) empty_instance_status [pod "db" 0] with
  | None => False
  | Some st' => rist_ComponentStatuses st'
      = map (fun c => named (ric_Name c) (counts "" (ric_Name c) [pod "db" 0])) (ris_Components (ri_spec (web "" 0 0 None)))
  end.
Proof.
  destruct (count_status (web "" 0 0 None) empty_instance_status [pod "db" 0]) as [st'|] eqn:Hc; [|by vm_compute in Hc].
  destruct (status_counts_pods (web "" 0 0 None) empty_instance_status [pod "db" 0] st') as [Hs _]; [done| |exact Hc|exact Hs].
  apply (bool_decide_eq_true_1 _). by vm_compute.
Defined.
