(* ===== verification/Json.v ===== *)
(** JSON values as the controllers look into them: what [encoding/json] decodes a text
    to, the fields of an object, and the readers of
    k8s.io/apimachinery/pkg/apis/meta/v1/unstructured. *)
From Stdlib Require Import ZArith Lia Bool Ascii String.
From stdpp Require Import base tactics list strings gmap fin_maps countable.
From S2P Require Import Prelude GoStrings Types.

(** What [json.Unmarshal] makes of a text. *)
Inductive json :=
| JNull
| JString (s : string)
| JNumber (n : Z)
| JArray (l : list json)
| JObject (m : gmap string json).

Definition json_labels (l : labels) : json := JObject (JString <$> l).

(** [omitempty] *)
Definition field (key : string) (empty : bool) (value : json) (m : gmap string json) : gmap string json :=
  if empty then m else <[key := value]> m.

(** The value at a path, if there is one; an error when a value on the way is no object. *)
Fixpoint NestedFieldNoCopy (v : json) (fields : list string) : result (option json) :=
  match fields with
  | [] => Ok (Some v)
  | f :: fields' =>
      match v with
      | JNull => Ok None
      | JObject m => match m !! f with None => Ok None | Some v' => NestedFieldNoCopy v' fields' end
      | _ => Err ("accessor error: " +:+ f)
      end
  end.

Definition NestedString (v : json) (fields : list string) : result (string * bool) :=
  match NestedFieldNoCopy v fields with
  | Err e => Err e
  | Ok None => Ok (""%string, false)
  | Ok (Some (JString s)) => Ok (s, true)
  | Ok (Some _) => Err ("accessor error: " +:+ Join fields ".")
  end.

Lemma JObject_inj m m' : JObject m = JObject m' -> m = m'.
Proof. by intros [=]. Qed.
Lemma JArray_inj l l' : JArray l = JArray l' -> l = l'.
Proof. by intros [=]. Qed.

(** * A text for every value

    Not JSON, but as good for concrete runs: it reads back. *)

Fixpoint jsize (v : json) : nat :=
  match v with
  | JArray l => S (sum_list_with jsize l)
  | JObject m => S (map_fold (fun _ v n => jsize v + n)%nat 0%nat m)
  | _ => 1%nat
  end.
Fixpoint to_tree (v : json) : gen_tree (string + Z) :=
  match v with
  | JNull => GenNode 0 []
  | JString s => GenLeaf (inl s)
  | JNumber n => GenLeaf (inr n)
  | JArray l => GenNode 1 (map to_tree l)
  | JObject m => GenNode 2 (map_fold (fun k v rec => GenLeaf (inl k) :: to_tree v :: rec) [] m)
  end.
Definition of_fields (of_tree : gen_tree (string + Z) -> json) : list (gen_tree (string + Z)) -> gmap string json :=
  fix go l := match l with GenLeaf (inl k) :: t :: l' => <[k := of_tree t]> (go l') | _ => ∅ end.
Fixpoint of_tree (t : gen_tree (string + Z)) : json :=
  match t with
  | GenLeaf (inl s) => JString s
  | GenLeaf (inr n) => JNumber n
  | GenNode 0 _ => JNull
  | GenNode 1 l => JArray (map of_tree l)
  | GenNode _ l => JObject (of_fields of_tree l)
  end.

Lemma jsize_field m k v : m !! k = Some v -> (jsize v < jsize (JObject m))%nat.
Proof.
  intros Hk. cbn [jsize]. rewrite <-(insert_delete_id m k v Hk).
  rewrite (map_fold_insert_L (fun _ v n => jsize v + n)%nat); [lia|intros; lia|by rewrite lookup_delete_eq].
Qed.


Lemma jsize_item l v : v ∈ l -> (jsize v < jsize (JArray l))%nat.
Proof. cbn [jsize]. induction 1; cbn [sum_list_with]; lia. Qed.

Lemma of_to_tree n v : (jsize v < n)%nat -> of_tree (to_tree v) = v.
Proof.
  revert v. induction n as [|n IH]; intros v Hv; [lia|]. destruct v as [| | |l|m]; try done; cbn [to_tree of_tree]; f_equal.
  - rewrite map_map. rewrite <-(map_id l) at 2. apply map_ext_in. intros v Hin. apply IH.
    apply list_elem_of_In, jsize_item in Hin. lia.
  - assert (map_Forall (fun _ v => of_tree (to_tree v) = v) m) as Hm.
    { intros k v Hk%jsize_field. apply IH. lia. }
    clear Hv IH. revert Hm. apply (map_fold_weak_ind (fun r m => map_Forall (fun _ v => of_tree (to_tree v) = v) m -> of_fields of_tree r = m)); [done|].
    intros k v m' r Hk IH [Hv Hm]%map_Forall_insert; [|done]. cbn. by rewrite Hv, IH.
Qed.

Fixpoint pos_text (p : positive) : string :=
  match p with
  | xH => "."
  | xO p => String "0" (pos_text p)
  | xI p => String "1" (pos_text p)
  end.

Fixpoint text_pos (s : string) : option positive :=
  match s with
  | EmptyString => None
  | String c s' =>
      if bool_decide (c = "0"%char) then xO <$> text_pos s'
      else if bool_decide (c = "1"%char) then xI <$> text_pos s'
      else Some xH
  end.

Lemma text_pos_text p : text_pos (pos_text p) = Some p.
Proof. induction p as [p IH|p IH|]; cbn; [by rewrite IH|by rewrite IH|done]. Qed.

Definition marshal_text (v : json) : string := pos_text (encode (to_tree v)).

Definition unmarshal_text (s : string) : result json :=
  match text_pos s ≫= decode with
  | Some t => Ok (of_tree t)
  | None => Err "invalid character"
  end.

Lemma unmarshal_marshal_text v : unmarshal_text (marshal_text v) = Ok v.
Proof.
  unfold unmarshal_text, marshal_text. rewrite text_pos_text. cbn [mbind option_bind]. rewrite decode_encode.
  by rewrite (of_to_tree _ v (Nat.lt_succ_diag_r _)).
Qed.

Lemma marshal_text_inj v v' : marshal_text v = marshal_text v' -> v = v'.
Proof. intros Ht. pose proof (unmarshal_marshal_text v) as H. rewrite Ht, unmarshal_marshal_text in H. by injection H. Qed.

Lemma marshal_text_nonempty v : marshal_text v <> ""%string.
Proof. unfold marshal_text. by destruct (encode (to_tree v)). Qed.
