(* ===== verification/InstanceReconcile.v ===== *)
(** The RoleInstance controller: pkg/reconciler/roleinstance/instance_reconciler.go,
    revision/instance_revision.go and instance_event_handler.go.

    A request that fails gives an error as a value; what the monad reports as an
    error in here is a panic, which [Reconcile] recovers from. *)
From Stdlib Require Import ZArith Lia Bool Ascii String.
From stdpp Require Import base tactics list strings gmap sets.
From S2P Require Import Prelude GoStrings Types Expectations Effects Revisions Owners Json InstancePods ComponentOrder NodeBindings.
From S2P Require Import PortAllocator InstanceWorld InstanceRestarts PodInPlace InstanceScale InstanceUpdate InstanceStatus.

(** * The revisions of an instance *)

(** The JSON of a pod template, the text of a value ([json.Marshal]), and the
    instance that a patch makes of another. *)
Class InstanceCodec := {
  template_json : PodTemplateSpec -> result (gmap string json);
  marshal : json -> string;
  patch_instance : RoleInstance -> string -> result RoleInstance
}.

Section revision.
Context `{InstanceCodec}.

(** A component as the codec writes it. *)
Definition component_json (c : RoleInstanceComponent) : result (gmap string json) :=
  template ← template_json (ric_Template c);
  Ok (<["name" := JString (ric_Name c)]> (<["template" := JObject template]>
    (field "size" (bool_decide (ric_Size c = None)) (JNumber (default 0 (ric_Size c)))
      (field "serviceName" (bool_decide (ric_ServiceName c = ""%string)) (JString (ric_ServiceName c))
        (field "labels" (bool_decide (ric_Labels c = ∅)) (json_labels (ric_Labels c))
          (field "annotations" (bool_decide (ric_Annotations c = ∅)) (json_labels (ric_Annotations c)) ∅)))))).

Definition componentSpecIgnoreRevisionKeys : list string := ["size"].
Definition componentSpecRetainRevisionKeys : list string := ["serviceName"].

(** One round of the loop of [SetRevisionTemplate]; a template is an object. *)
Definition revision_component (m : gmap string json) : gmap string json :=
  let m := fold_left (fun m k => match m !! k with Some _ => m | None => <[k := JNull]> m end)
             componentSpecRetainRevisionKeys m in
  let m := fold_left (fun m k => delete k m) componentSpecIgnoreRevisionKeys m in
  alter (fun t => match t with JObject t => JObject (<["$patch" := JString "replace"]> t) | _ => t end) "template" m.

Definition SetRevisionTemplate (componentTemplates : list (gmap string json)) : gmap string json :=
  {["$setElementOrder/components" :=
      JArray (map (fun m => JObject {["name" := default JNull (m !! "name")]}) componentTemplates);
    "components" := JArray (map (fun m => JObject (revision_component m)) componentTemplates)]}.

Definition buildPatch (i : RoleInstance) : result string :=
  components ← mapM component_json (ris_Components (ri_spec i));
  Ok (marshal (JObject {["spec" := JObject (SetRevisionTemplate components)]})).

(** The annotations of the instance are copied to a new revision. *)
Definition NewRevision (i : RoleInstance) (revision collisionCount : Z) : result ControllerRevision :=
  patch ← buildPatch i;
  let cr := NewControllerRevision (ri_meta i) ControllerAPIVersion ControllerKind (GetSelectorMatchLabels (ri_Name i))
              patch revision collisionCount in
  Ok (with_cr_meta (with_annotations (om_Annotations (ri_meta i) ∪ om_Annotations (cr_meta cr)) (cr_meta cr)) cr).

Definition ApplyRevision (i : RoleInstance) (revision : ControllerRevision) : result RoleInstance :=
  patch_instance i (cr_Data revision).

Definition equality_key (i : RoleInstance) (existing : ControllerRevision) : revisionEqualityCacheKey := {|
  setUID := ri_UID i; setGeneration := om_Generation (ri_meta i); revisionResourceVersion := cr_ResourceVersion existing |}.

Definition restored_patch (i : RoleInstance) (existing : ControllerRevision) : result string :=
  restoredInstance ← ApplyRevision i existing; buildPatch restoredInstance.

Context {ENV : Env}.

Definition SetMatchesRevision (i : RoleInstance) (proposed existing : ControllerRevision) : M bool :=
  cache ← gets w_equal;
  let key := equality_key i existing in
  match lru_get key cache with
  | Some cache => modify (with_equal cache) ≫= fun _ => mret true
  | None =>
      match restored_patch i existing with
      | Err _ => mret false
      | Ok reconstructedPatch =>
          if bool_decide (cr_Data proposed = reconstructedPatch)
          then modify (with_equal (lru_add MaxRevisionEqualityCacheEntries key cache)) ≫= fun _ => mret true
          else mret false
      end
  end.

(** The update revision, given the proposed one and the sorted revisions. *)
Definition settle (i : RoleInstance) (revisions : list ControllerRevision) (proposed : ControllerRevision)
    (collisionCount : Z) : M (result ControllerRevision * Z) :=
  match last (FindEqualRevisions revisions proposed), last revisions with
  | Some equal, Some newest =>
      if EqualRevision newest equal then mret (Ok newest, collisionCount)
      else attempt (UpdateControllerRevision equal (cr_Revision proposed)) (fun r => mret (r, collisionCount))
  | Some equal, None => fail nil_dereference
  | None, None => CreateControllerRevision (ri_meta i) proposed collisionCount
  | None, Some newest =>
      matches ← SetMatchesRevision i proposed newest;
      if (matches : bool) then mret (Ok newest, collisionCount)
      else CreateControllerRevision (ri_meta i) proposed collisionCount
  end.

(** The current revision, the update revision and the collision count. *)
Definition getActiveRevisions (i : RoleInstance) (revisions : list ControllerRevision)
    : M (result (ControllerRevision * ControllerRevision * Z)) :=
  let collisionCount := default 0 (rist_CollisionCount (ri_status i)) in
  match NewRevision i (NextRevision revisions) collisionCount with
  | Err e => mret (Err e)
  | Ok proposed =>
      '(r, collisionCount) ← settle i revisions proposed collisionCount;
      mret match r with
           | Err e => Err e
           | Ok updateRevision =>
               Ok (default updateRevision (find_name (rist_CurrentRevision (ri_status i)) revisions), updateRevision,
                   collisionCount)
           end
  end.

(** The revisions that neither the instance nor a pod uses; the last five stay. *)
Definition historyLimit : nat := 5.

Definition noLiveRevisions (pods : list Pod) (revisions : list ControllerRevision) (current update : ControllerRevision)
    : list ControllerRevision :=
  List.filter (fun r => negb (bool_decide (cr_Name r = cr_Name current)) && negb (bool_decide (cr_Name r = cr_Name update))
                        && negb (existsb (fun p => EqualToRevisionHash (pod_meta p) (cr_Name r)) pods)) revisions.

Definition truncated (pods : list Pod) (revisions : list ControllerRevision) (current update : ControllerRevision)
    : list ControllerRevision :=
  let l := noLiveRevisions pods revisions current update in take (length l - historyLimit) l.

Definition truncateHistory (pods : list Pod) (revisions : list ControllerRevision) (current update : ControllerRevision)
    : M unit := for_each DeleteControllerRevision (truncated pods revisions current update).
End revision.

(** * A pass *)

(** What a reconcile returns: a delay to come back after, and errors. *)
Record outcome := { oc_requeue : Z; oc_errors : list error }.
Definition finished : outcome := {| oc_requeue := 0; oc_errors := [] |}.
Definition failed_with (e : error) : outcome := {| oc_requeue := 0; oc_errors := [e] |}.

Definition with_inner_condition (c : RoleInstanceCondition) (st : RoleInstanceStatus) : RoleInstanceStatus :=
  status_with_conditions (rist_Conditions st ++ [c])%list st.

(** The condition of a failure, at [t], if there was one. *)
Definition report (type : string) (errs : list error) (t : Z) (st : RoleInstanceStatus) : RoleInstanceStatus :=
  match errs with
  | [] => st
  | _ => with_inner_condition (condition type ConditionTrue t "" (aggregate_message errs)) st
  end.

(** What a pass that scaled takes over from the instance it scaled. *)
Definition propagate (updated : RoleInstanceStatus) (st : RoleInstanceStatus) : RoleInstanceStatus :=
  let st := match List.find (fun c => bool_decide (cond_Type c = RoleInstanceRestarting)
                                      && bool_decide (cond_Status c = ConditionTrue)) (rist_Conditions updated) with
            | Some c => with_inner_condition c st
            | None => st
            end in
  with_restarts (if rist_RestartCount updated >? 0 then rist_RestartCount updated else rist_RestartCount st)
    (match rist_LastRestartTime updated with Some t => Some t | None => rist_LastRestartTime st end) st.

Section pass.
Context `{InstanceCodec, InPlaceCodec, MapRange, SortSlice, DependsOnCodec}.
Context `{PodNames, PortConfigCodec, DiscoveryCodec, QualifiedNames} {ENV : Env}.

Definition syncInstance (i : RoleInstance) (st : RoleInstanceStatus) (currentRevision updateRevision : ControllerRevision)
    (revisions : list ControllerRevision) (filteredPods inactivePods : list Pod) : M (outcome * RoleInstanceStatus) :=
  if negb (not_deleting (ri_meta i)) then mret (finished, st)
  else
    match ApplyRevision i updateRevision with
    | Err e => mret (failed_with e, st)
    | Ok updateInstance =>
        so ← Scale updateInstance currentRevision updateRevision revisions filteredPods inactivePods;
        t ← (match so_errors so with [] => mret 0 | _ => now end);
        let st := report RoleInstanceFailedScale (so_errors so) t st in
        if so_scaling so then
          mret ({| oc_requeue := 0; oc_errors := so_errors so |}, propagate (ri_status (so_instance so)) st)
        else if so_requeue so >? 0 then mret ({| oc_requeue := so_requeue so; oc_errors := [] |}, st)
        else
          uo ← UpdatePods i (rist_Baselines st) updateRevision revisions filteredPods;
          let updateErrors := match uo_error uo with Some e => [e] | None => [] end in
          t ← (match updateErrors with [] => mret 0 | _ => now end);
          mret ({| oc_requeue := uo_duration uo; oc_errors := (so_errors so ++ updateErrors)%list |},
                report RoleInstanceFailedUpdate updateErrors t (with_baselines (uo_baselines uo) st))
    end.

(** github.com/openkruise/kruise/pkg/util/expectations *)
Definition ExpectationTimeout : Z := 300 * second.

(** The loop over the active pods; [true] ends the pass.  A pod that is awaited
    for less than the timeout does not. *)
Fixpoint awaits_too_long (pods : list Pod) : M bool :=
  match pods with
  | [] => mret false
  | p :: pods' =>
      ObserveVersion (pod_meta p) ≫= fun _ =>
      '(isSatisfied, unsatisfiedDuration) ← VersionSatisfied (pod_meta p);
      if negb isSatisfied && (unsatisfiedDuration >? ExpectationTimeout) then mret true else awaits_too_long pods'
  end.

(** [selector.String()] of the one label. *)
Definition selector_string (i : RoleInstance) : string := RoleInstanceNameLabelKey +:+ "=" +:+ ri_Name i.

Definition initial_status (i : RoleInstance) (currentRevision updateRevision : ControllerRevision) (collisionCount : Z)
    : RoleInstanceStatus := {|
  rist_ObservedGeneration := om_Generation (ri_meta i); rist_Conditions := []; rist_ComponentStatuses := [];
  rist_LabelSelector := selector_string i; rist_CurrentRevision := cr_Name currentRevision;
  rist_UpdateRevision := cr_Name updateRevision; rist_CollisionCount := Some collisionCount;
  rist_Baselines := rist_Baselines (ri_status i); rist_RestartCount := rist_RestartCount (ri_status i);
  rist_LastRestartTime := rist_LastRestartTime (ri_status i) |}.

Definition is_ready_condition (c : RoleInstanceCondition) : bool :=
  bool_decide (cond_Type c = RoleInstanceReady) && bool_decide (cond_Status c = ConditionTrue).

(** From the revisions on. *)
Definition sync_and_publish (i : RoleInstance) (revisions : list ControllerRevision) (filteredPods inactivePods : list Pod)
    (currentRevision updateRevision : ControllerRevision) (collisionCount : Z) : M outcome :=
  let st := initial_status i currentRevision updateRevision collisionCount in
  '(res, st) ← syncInstance i st currentRevision updateRevision revisions filteredPods inactivePods;
  '(st, errs) ← UpdateStatus i st filteredPods;
  match errs with
  | [] =>
      (if existsb is_ready_condition (rist_Conditions st) then ClearRestarting (instanceKey i) else mret tt) ≫= fun _ =>
      attempt (truncateHistory filteredPods revisions currentRevision updateRevision) (fun _ => mret res)
  | _ => mret {| oc_requeue := 0; oc_errors := errs |}
  end.

(** From the pods and the revisions of the server on. *)
Definition reconcile_instance (i : RoleInstance) : M outcome :=
  attempt (ListPods (om_Namespace (ri_meta i)) (ri_UID i)) (fun r =>
    match r with
    | Err e => mret (failed_with e)
    | Ok items =>
        let '(filteredPods, inactivePods) := GetActiveAndInactivePods items in
        attempt (ListControllerRevisions (ri_meta i) (GetSelectorMatchLabels (ri_Name i))) (fun r =>
          match r with
          | Err e => mret (failed_with e)
          | Ok revisions =>
              let revisions := SortControllerRevisions revisions in
              active ← getActiveRevisions i revisions;
              match active with
              | Err e => mret (failed_with e)
              | Ok (currentRevision, updateRevision, collisionCount) =>
                  stop ← awaits_too_long filteredPods;
                  if (stop : bool) then mret finished
                  else sync_and_publish i revisions filteredPods inactivePods currentRevision updateRevision collisionCount
              end
          end)
    end).

(** [namespace + "/" + name] *)
Definition request_key (namespace name : string) : string := namespace +:+ "/" +:+ name.

Definition reconcile_body (namespace name : string) : M outcome :=
  attempt (GetInstance Cached namespace name) (fun r =>
    match r with
    | Err e => if IsNotFound e then ClearRestarting (request_key namespace name) ≫= fun _ => mret finished
               else mret (failed_with e)
    | Ok i => if negb (not_deleting (ri_meta i)) then ClearRestarting (instanceKey i) ≫= fun _ => mret finished
              else reconcile_instance i
    end).

Definition minute : Z := 60 * second.

(** A panic is recovered from, with a delay. *)
Definition Reconcile (namespace name : string) : M outcome :=
  attempt (reconcile_body namespace name) (fun r => mret
    match r with Ok res => res | Err _ => {| oc_requeue := minute; oc_errors := [] |} end).
End pass.

(** * Events of pods (instance_event_handler.go) *)

Definition ControllerGroup : string := "workloads.x-k8s.io".

(** The instance to reconcile, by namespace and name. *)
Definition resolveControllerRef (namespace : string) (ref : OwnerReference) : option (string * string) :=
  match ParseGroupVersion (or_APIVersion ref) with
  | None => None
  | Some (group, _) =>
      if bool_decide (or_Kind ref = ControllerKind) && bool_decide (group = ControllerGroup) then Some (namespace, or_Name ref)
      else None
  end.

Definition requests_of (namespace : string) (ref : option OwnerReference) : list (string * string) :=
  match ref ≫= resolveControllerRef namespace with Some r => [r] | None => [] end.

(** What an event adds to the queue. *)
Definition PodCreated (p : Pod) : list (string * string) :=
  if negb (not_deleting (pod_meta p)) then [] else requests_of (om_Namespace (pod_meta p)) (GetControllerOf (pod_meta p)).

Definition PodDeleted (p : Pod) : M (list (string * string)) :=
  modify (fun w => with_versions (ResourceVersion.Delete (pod_meta p) (w_versions w)) w) ≫= fun _ =>
  mret (requests_of (om_Namespace (pod_meta p)) (GetControllerOf (pod_meta p))).

#[export] Instance OwnerReference_eq_dec : EqDecision OwnerReference.
Proof. solve_decision. Defined.

(** A nil and an empty map of labels are one value here. *)
Definition PodUpdated (oldPod curPod : Pod) : M (list (string * string)) :=
  let labelChanged := negb (bool_decide (pod_Labels curPod = pod_Labels oldPod)) in
  if negb (not_deleting (pod_meta curPod)) then
    l ← PodDeleted curPod;
    if labelChanged then (l' ← PodDeleted oldPod; mret (l ++ l')%list) else mret l
  else
    let curControllerRef := GetControllerOf (pod_meta curPod) in
    let oldControllerRef := GetControllerOf (pod_meta oldPod) in
    mret ((if bool_decide (curControllerRef = oldControllerRef) then [] else requests_of (om_Namespace (pod_meta oldPod)) oldControllerRef)
          ++ requests_of (om_Namespace (pod_meta curPod)) curControllerRef)%list.
