(* ===== verification/InstanceRevisions.v ===== *)
(** The revisions of a RoleInstance: what a revision records, when a new one is
    made, and which are removed. *)
From Stdlib Require Import ZArith Lia Bool Ascii String.
From stdpp Require Import base tactics list strings gmap sets fin_maps countable pretty.
From S2P Require Import Prelude GoStrings Types Effects Revisions InstancePods ComponentOrder NodeBindings PortAllocator InstanceWorld InstanceDemo InstanceCreation Json InstanceReconcile.

(** * What a revision records *)

(** A component but for its size. *)
Definition unsized (c : RoleInstanceComponent) : RoleInstanceComponent := {|
  ric_Name := ric_Name c; ric_Size := None; ric_ServiceName := ric_ServiceName c; ric_Labels := ric_Labels c;
  ric_Annotations := ric_Annotations c; ric_Template := ric_Template c |}.

(** Looking up one of the keys of a component. *)
Ltac at_key := repeat first [rewrite lookup_insert_eq | rewrite lookup_insert_ne by done | rewrite lookup_alter_eq
  | rewrite lookup_alter_ne by done | rewrite lookup_delete_eq | rewrite lookup_delete_ne by done].

Section patch.
Context `{InstanceCodec}.

(** The service name, after the retained keys. *)
Definition retained (m : gmap string json) : gmap string json :=
  match m !! "serviceName"%string with Some _ => m | None => <["serviceName"%string := JNull]> m end.

Lemma revision_component_eq m :
  revision_component m = alter (fun t => match t with JObject t => JObject (<["$patch"%string := JString "replace"]> t) | _ => t end)
    "template"%string (delete "size"%string (retained m)).
Proof. done. Qed.

(** The fields of a component that are left out when empty. *)
Definition optional_fields (c : RoleInstanceComponent) : gmap string json :=
  field "size" (bool_decide (ric_Size c = None)) (JNumber (default 0 (ric_Size c)))
    (field "serviceName" (bool_decide (ric_ServiceName c = ""%string)) (JString (ric_ServiceName c))
      (field "labels" (bool_decide (ric_Labels c = ∅)) (json_labels (ric_Labels c))
        (field "annotations" (bool_decide (ric_Annotations c = ∅)) (json_labels (ric_Annotations c)) ∅))).

Definition present (empty : bool) (value : json) : option json := if empty then None else Some value.

Lemma field_lookup key empty value m : m !! key = None -> field key empty value m !! key = present empty value.
Proof. intros Hm. unfold field, present. destruct empty; [done|by rewrite lookup_insert_eq]. Qed.

Lemma field_other key key' empty value m : key <> key' -> field key empty value m !! key' = m !! key'.
Proof. intros Hk. unfold field. destruct empty; [done|by rewrite lookup_insert_ne]. Qed.

Lemma component_json_ok c m :
  component_json c = Ok m -> exists t, template_json (ric_Template c) = Ok t /\
    m = <["name"%string := JString (ric_Name c)]> (<["template"%string := JObject t]> (optional_fields c)).
Proof. unfold component_json. destruct (template_json _) as [t|]; [|done]. intros [= <-]. by exists t. Qed.

(** A component of a revision, key by key. *)
Lemma revision_component_lookup c t key :
  let m := <["name"%string := JString (ric_Name c)]> (<["template"%string := JObject t]> (optional_fields c)) in
  revision_component m !! key =
  if String.eqb key "name" then Some (JString (ric_Name c))
  else if String.eqb key "template" then Some (JObject (<["$patch"%string := JString "replace"]> t))
  else if String.eqb key "serviceName" then
    Some (if bool_decide (ric_ServiceName c = ""%string) then JNull else JString (ric_ServiceName c))
  else if String.eqb key "labels" then present (bool_decide (ric_Labels c = ∅)) (json_labels (ric_Labels c))
  else if String.eqb key "annotations" then
    present (bool_decide (ric_Annotations c = ∅)) (json_labels (ric_Annotations c))
  else None.
Proof.
  intros m. rewrite revision_component_eq. unfold retained.
  assert (m !! "serviceName"%string = present (bool_decide (ric_ServiceName c = ""%string)) (JString (ric_ServiceName c))) as Hs.
  { unfold m, optional_fields. at_key. rewrite field_other, field_lookup by (try done; by rewrite !field_other by done). done. }
  rewrite Hs.
  destruct (decide (key = "serviceName"%string)) as [->|Hsk].
  { cbn. unfold present in *. destruct (bool_decide (ric_ServiceName c = ""%string)); at_key; [done|by rewrite Hs]. }
  assert (forall m', m' = m \/ m' = <["serviceName"%string := JNull]> m -> key <> "serviceName"%string -> m' !! key = m !! key) as Hm'.
  { intros m' [->| ->] ?; [done|]. by rewrite lookup_insert_ne. }
  set (m' := match present _ _ with Some _ => m | None => _ end).
  assert (m' !! key = m !! key) as Hk by (apply Hm'; [unfold m', present; destruct (bool_decide _); auto|done]).
  clearbody m'. clear Hm' Hs.
  assert (key <> "template"%string -> key <> "size"%string ->
    alter (fun t => match t with JObject t => JObject (<["$patch"%string := JString "replace"]> t) | _ => t end)
      "template"%string (delete "size"%string m') !! key = m !! key) as Hal by (intros; by at_key).
  destruct (String.eqb_spec key "name") as [->|Hn].
  { rewrite Hal by done. unfold m. by at_key. }
  destruct (String.eqb_spec key "template") as [->|Ht].
  { at_key. rewrite Hk. unfold m. by at_key. }
  rewrite (proj2 (String.eqb_neq key "serviceName") Hsk).
  destruct (decide (key = "size"%string)) as [->|Hz]; [by at_key|]. rewrite (Hal Ht Hz).
  unfold m, optional_fields. rewrite !lookup_insert_ne by done. rewrite !(field_other _ key) by done.
  destruct (String.eqb_spec key "labels") as [->|Hl]; [by rewrite field_lookup by by rewrite field_other by done|].
  rewrite field_other by done.
  destruct (String.eqb_spec key "annotations") as [->|Ha]; [by rewrite field_lookup by done|].
  by rewrite field_other by done.
Qed.

(** What the standard library promises of the codec: equal texts are equal values,
    the template can be read back, and it has no field named as the marker. *)
Class InstanceCodecLaws : Prop := {
  marshal_inj : forall v v', marshal v = marshal v' -> v = v';
  template_json_inj : forall t t' m, template_json t = Ok m -> template_json t' = Ok m -> t = t';
  template_json_marker : forall t m, template_json t = Ok m -> m !! "$patch"%string = None
}.

Lemma present_inj (l l' : labels) :
  present (bool_decide (l = ∅)) (json_labels l) = present (bool_decide (l' = ∅)) (json_labels l') -> l = l'.
Proof.
  unfold present, json_labels. repeat case_bool_decide; subst; try done. intros [= Hl].
  apply (map_fmap_inj JString) in Hl; [done|]. by intros x y [=].
Qed.

Lemma revision_component_same c c' m m' :
  component_json c = Ok m -> component_json c' = Ok m' -> unsized c = unsized c' ->
  revision_component m = revision_component m'.
Proof.
  intros (t & Ht & ->)%component_json_ok (t' & Ht' & ->)%component_json_ok Hu.
  injection Hu as Hn Hs Hl Ha Htm. rewrite Htm in Ht. rewrite Ht in Ht'. injection Ht' as <-.
  apply map_eq. intros key. by rewrite !revision_component_lookup, Hn, Hs, Hl, Ha.
Qed.

Lemma revision_component_inj `{InstanceCodecLaws} c c' m m' :
  component_json c = Ok m -> component_json c' = Ok m' ->
  revision_component m = revision_component m' <-> unsized c = unsized c'.
Proof.
  intros Hc Hc'. split; [|by apply revision_component_same].
  apply component_json_ok in Hc as (t & Ht & ->). apply component_json_ok in Hc' as (t' & Ht' & ->).
  intros He. assert (forall key, revision_component (<["name"%string := JString (ric_Name c)]> (<["template"%string := JObject t]> (optional_fields c))) !! key
      = revision_component (<["name"%string := JString (ric_Name c')]> (<["template"%string := JObject t']> (optional_fields c'))) !! key) as Hk
      by by rewrite He.
    setoid_rewrite revision_component_lookup in Hk. clear He.
    pose proof (Hk "name"%string) as Hn. pose proof (Hk "template"%string) as Htm. pose proof (Hk "serviceName"%string) as Hs.
    pose proof (Hk "labels"%string) as Hl. pose proof (Hk "annotations"%string) as Ha. clear Hk. cbn in *.
    apply present_inj in Hl, Ha. injection Hn as Hn. injection Htm as Htm.
    assert (t = t') as <-.
    { pose proof (template_json_marker _ _ Ht) as Hm. pose proof (template_json_marker _ _ Ht') as Hm'.
      rewrite <-(delete_insert_id t _ (JString "replace") Hm), <-(delete_insert_id t' _ (JString "replace") Hm').
      f_equal. exact Htm. }
    pose proof (template_json_inj _ _ _ Ht Ht') as Htt.
    unfold unsized. f_equal; try done. clear -Hs. repeat case_bool_decide; congruence.
Qed.
End patch.

(** * When the data of two revisions agree *)

Lemma cons_eq_iff {A} (x y : A) l k : x :: l = y :: k <-> x = y /\ l = k.
Proof. naive_solver. Qed.

Lemma mapM_ok {A B} (f : A -> result B) l l' : mapM f l = Ok l' -> Forall2 (fun x y => f x = Ok y) l l'.
Proof.
  revert l'. induction l as [|x l IH]; intros l'; cbn; [intros [= <-]; constructor|].
  destruct (f x) as [y|] eqn:Hf; [|done]. destruct (mapM f l) as [k|] eqn:Hm; [|done].
  intros [= <-]. constructor; [done|by apply IH].
Qed.

Lemma buildPatch_ok `{InstanceCodec} i d :
  buildPatch i = Ok d -> exists ms, Forall2 (fun c m => component_json c = Ok m) (ris_Components (ri_spec i)) ms /\
    d = marshal (JObject {["spec"%string := JObject (SetRevisionTemplate ms)]}).
Proof.
  unfold buildPatch. destruct (mapM _ _) as [ms|] eqn:Hm; [|done]. intros [= <-]. exists ms. split; [by apply mapM_ok|done].
Qed.

Lemma revision_name `{InstanceCodec} c m :
  component_json c = Ok m -> m !! "name"%string = Some (JString (ric_Name c)).
Proof. intros (t & _ & ->)%component_json_ok. by rewrite lookup_insert_eq. Qed.

Lemma revision_components_same `{InstanceCodec} cs cs' ms ms' :
  Forall2 (fun c m => component_json c = Ok m) cs ms -> Forall2 (fun c m => component_json c = Ok m) cs' ms' ->
  map unsized cs = map unsized cs' -> map revision_component ms = map revision_component ms'.
Proof.
  intros Hf Hf'. revert cs' ms' Hf'. induction Hf as [|c m cs ms Hc Hf IH]; intros cs' ms' Hf'; [by destruct Hf'|].
  destruct Hf' as [|c' m' cs' ms' Hc' Hf']; [done|]. cbn [map]. rewrite !cons_eq_iff. intros [Hu Hl].
  split; [by eapply revision_component_same|by eapply IH].
Qed.

Lemma revision_components_inj `{InstanceCodecLaws} cs cs' ms ms' :
  Forall2 (fun c m => component_json c = Ok m) cs ms -> Forall2 (fun c m => component_json c = Ok m) cs' ms' ->
  map revision_component ms = map revision_component ms' <-> map unsized cs = map unsized cs'.
Proof.
  intros Hf Hf'. revert cs' ms' Hf'. induction Hf as [|c m cs ms Hc Hf IH]; intros cs' ms' Hf'.
  - by destruct Hf'.
  - destruct Hf' as [|c' m' cs' ms' Hc' Hf']; [done|]. cbn [map]. specialize (IH _ _ Hf').
    by rewrite !cons_eq_iff, IH, (revision_component_inj c c' m m' Hc Hc').
Qed.

(** The template of a revision is a function of its components. *)
Lemma SetRevisionTemplate_eq ms ms' :
  SetRevisionTemplate ms = SetRevisionTemplate ms' <-> map revision_component ms = map revision_component ms'.
Proof.
  split.
  - intros Hd. apply (f_equal (lookup "components"%string)) in Hd. unfold SetRevisionTemplate in Hd.
    rewrite !lookup_insert_ne, !lookup_singleton_eq in Hd by done. injection Hd as Hd. revert ms' Hd.
    induction ms as [|m ms IH]; intros [|m' ms']; try done. cbn [map].
    intros [Hm%JObject_inj Hd]%cons_eq_iff. f_equal; [done|by apply IH].
  - intros He. assert (forall m : gmap string json, revision_component m !! "name"%string = m !! "name"%string) as Hname.
    { intros m. rewrite revision_component_eq, lookup_alter_ne, lookup_delete_ne by done. unfold retained.
      case_match; [done|]. by rewrite lookup_insert_ne. }
    assert (forall l, SetRevisionTemplate l
      = {["$setElementOrder/components"%string := JArray (map (fun m : gmap string json => JObject {["name"%string := default JNull (m !! "name"%string)]})
           (map revision_component l)); "components"%string := JArray (map JObject (map revision_component l))]}) as Hs.
    { intros l. unfold SetRevisionTemplate. rewrite !map_map.
      rewrite (map_ext (fun m => JObject {["name"%string := default JNull (revision_component m !! "name"%string)]})
        (fun m => JObject {["name"%string := default JNull (m !! "name"%string)]})); [done|]. intros m. by rewrite Hname. }
    by rewrite !Hs, He.
Qed.

(** C33: The data of two revisions of an instance agree exactly when the instances
    have the same components but for their sizes: scaling makes no new revision, and
    every other change of a component does. *)
Theorem buildPatch_iff `{InstanceCodecLaws} i i' d d' :
  buildPatch i = Ok d -> buildPatch i' = Ok d' ->
  d = d' <-> map unsized (ris_Components (ri_spec i)) = map unsized (ris_Components (ri_spec i')).
Proof.
  intros (ms & Hf & ->)%buildPatch_ok (ms' & Hf' & ->)%buildPatch_ok.
  rewrite <-(revision_components_inj _ _ _ _ Hf Hf'), <-SetRevisionTemplate_eq. split; [|by intros ->].
  intros Hd%marshal_inj%JObject_inj. generalize dependent (SetRevisionTemplate ms). intros t Ht.
  apply (f_equal (lookup "spec"%string)) in Ht. rewrite !lookup_singleton_eq in Ht. by injection Ht.
Qed.

(** * When a revision is made *)

Lemma last_filter {A} (f : A -> bool) l x : last l = Some x -> f x = true -> last (List.filter f l) = Some x.
Proof.
  intros (l' & ->)%last_Some Hf. rewrite List.filter_app. cbn [List.filter]. rewrite Hf. apply last_snoc.
Qed.

Lemma buildPatch_same `{InstanceCodec} i i' :
  map unsized (ris_Components (ri_spec i')) = map unsized (ris_Components (ri_spec i)) ->
  forall d, buildPatch i = Ok d -> exists d', buildPatch i' = Ok d'.
Proof.
  unfold buildPatch. intros Hu d. destruct (mapM component_json (ris_Components (ri_spec i))) as [ms|] eqn:Hm; [|done]. intros _.
  assert (exists ms', mapM component_json (ris_Components (ri_spec i')) = Ok ms') as [ms' ->]; [|by eexists].
  apply mapM_ok in Hm. revert Hu. generalize (ris_Components (ri_spec i')). induction Hm as [|c m cs ms Hc Hm IH];
    intros [|c' cs'] Hu; try done; [by exists []|]. cbn [map] in Hu. apply cons_eq_iff in Hu as [Hone Hu].
  destruct (IH _ Hu) as [ms' Hms']. apply component_json_ok in Hc as (t & Ht & _). injection Hone as _ _ _ _ Htm.
  assert (exists m', component_json c' = Ok m') as [m' Hm'] by (unfold component_json; rewrite Htm, Ht; by eexists).
  cbn. rewrite Hm', Hms'. by eexists.
Qed.

Lemma newest_kept `{InstanceCodec} {ENV : Env} i i' revisions newest w :
  last revisions = Some newest -> buildPatch i' = Ok (cr_Data newest) ->
  map unsized (ris_Components (ri_spec i)) = map unsized (ris_Components (ri_spec i')) ->
  exists currentRevision collisionCount,
    getActiveRevisions i revisions w = (Ok (Ok (currentRevision, newest, collisionCount)), w).
Proof.
  intros Hlast Hb Hu. destruct (buildPatch_same i' i Hu _ Hb) as [d Hd].
  assert (d = cr_Data newest) as ->.
  { destruct (buildPatch_ok _ _ Hd) as (ms & Hf & ->). destruct (buildPatch_ok _ _ Hb) as (ms' & Hf' & ->).
    apply (revision_components_same _ _ _ _ Hf Hf') in Hu. apply SetRevisionTemplate_eq in Hu. by rewrite Hu. }
  unfold getActiveRevisions. unfold NewRevision. rewrite Hd. cbn [mbind result_bind].
  set (proposed := with_cr_meta _ _). unfold settle.
  assert (EqualRevision newest proposed = true) as He by by apply bool_decide_eq_true_2.
  unfold FindEqualRevisions. rewrite (last_filter _ _ newest Hlast He), Hlast.
  unfold EqualRevision at 1. rewrite bool_decide_eq_true_2 by done. by eexists _, _.
Qed.

(** When the newest revision was made from the components of the instance,
    whatever their sizes, it is the update revision, and nothing is asked of the
    server: scaling an instance makes no revision. *)
Theorem scaling_keeps_revision `{InstanceCodec} {ENV : Env} i i' revisions newest w :
  last revisions = Some newest -> buildPatch i' = Ok (cr_Data newest) ->
  map unsized (ris_Components (ri_spec i)) = map unsized (ris_Components (ri_spec i')) ->
  exists currentRevision collisionCount,
    getActiveRevisions i revisions w = (Ok (Ok (currentRevision, newest, collisionCount)), w).
Proof. intros. by eapply newest_kept. Qed.

(** * When revisions are removed *)

Lemma truncated_split pods revisions current update :
  let unused := noLiveRevisions pods revisions current update in
  exists kept, unused = (truncated pods revisions current update ++ kept)%list /\ length kept = Nat.min historyLimit (length unused).
Proof.
  intros unused. exists (drop (length unused - historyLimit) unused). unfold truncated. fold unused. split; [by rewrite take_drop|].
  rewrite length_drop. lia.
Qed.

Lemma deletes_ok `{Env} l w :
  (forall t r, r ∈ l -> env_delete_revision t r = Ok tt) ->
  w_trace (for_each DeleteControllerRevision l w).2 = (rev (map CallDeleteRevision l) ++ w_trace w)%list.
Proof.
  revert w. induction l as [|r l IH]; intros w Hok; [done|]. cbn [for_each].
  assert (DeleteControllerRevision r w = (Ok tt, with_trace (CallDeleteRevision r :: w_trace w) w)) as Hr.
  { unfold DeleteControllerRevision. rewrite request_run. by rewrite Hok by (by left). }
  rewrite (bind_ok _ _ _ _ _ Hr).
  rewrite IH by (intros; apply Hok; by right). cbn [map rev w_trace with_trace]. by rewrite <-app_assoc.
Qed.

(** The history keeps every revision that the instance or a pod uses and the
    last five others; with a server that accepts, exactly the rest is deleted, oldest
    first. *)
Theorem truncateHistory_deletes {ENV : Env} pods revisions current update w :
  let unused := noLiveRevisions pods revisions current update in
  (forall r, r ∈ unused <-> r ∈ revisions /\ cr_Name r <> cr_Name current /\ cr_Name r <> cr_Name update /\
     forall p, p ∈ pods -> EqualToRevisionHash (pod_meta p) (cr_Name r) = false) /\
  exists gone kept, unused = (gone ++ kept)%list /\ length kept = Nat.min 5 (length unused) /\
    ((forall t r, r ∈ gone -> env_delete_revision t r = Ok tt) ->
     w_trace (truncateHistory pods revisions current update w).2 = (rev (map CallDeleteRevision gone) ++ w_trace w)%list).
Proof.
  intros unused. split.
  - intros r. unfold unused, noLiveRevisions. rewrite list_elem_of_In, filter_In, <-list_elem_of_In, !andb_true_iff, !negb_true_iff,
      !bool_decide_eq_false. rewrite <-(not_true_iff_false (existsb _ _)), existsb_exists. setoid_rewrite <-list_elem_of_In.
    setoid_rewrite <-not_true_iff_false. naive_solver.
  - destruct (truncated_split pods revisions current update) as (kept & Hs & Hk). exists (truncated pods revisions current update), kept.
    split; [exact Hs|]. split; [exact Hk|]. intros Hok. by apply deletes_ok.
Qed.

(** * A codec *)

Module Codec.
(** One template, as one field. *)
#[export] Instance codec : InstanceCodec := {|
  template_json := fun t => if bool_decide (t = Web.template "image:1") then Ok {["image"%string := JString "image:1"]} else Err "unknown template";
  marshal := marshal_text;
  patch_instance := fun i _ => Ok i
|}.

#[export] Instance codec_laws : InstanceCodecLaws.
Proof.
  split.
  - apply marshal_text_inj.
  - intros t t' m. cbn. by repeat case_bool_decide; subst.
  - intros t m. cbn. case_bool_decide; [|done]. intros [= <-]. by rewrite lookup_singleton_ne.
Qed.
End Codec.

Import Web Codec.

(** The instance with its servers scaled. *)
Definition scaled (size : Z) : RoleInstance := {|
  ri_meta := ri_meta (web "" 0 0 None);
  ri_spec := {| ris_Components := [component "db" 1 ∅; component "api" size {[ComponentDependsOnAnnotationKey := "db"%string]}];
                ris_ReadyPolicy := ""; ris_RestartPolicy := ""; ris_RestartPolicyConfig := None; ris_ReadinessGates := [] |};
  ri_status := ri_status (web "" 0 0 None) |}.

Lemma buildPatch_iff_witness : exists d, buildPatch (web "" 0 0 None) = Ok d /\ buildPatch (scaled 9) = Ok d.
Proof.
  destruct (buildPatch (web "" 0 0 None)) as [d|e] eqn:Hd; [|exfalso; by vm_compute in Hd].
  destruct (buildPatch (scaled 9)) as [d'|e] eqn:Hd'; [|exfalso; by vm_compute in Hd'].
  exists d. split; [done|]. f_equal. symmetry. by apply (buildPatch_iff _ _ _ _ Hd Hd').
Defined.

Lemma scaling_keeps_revision_witness : exists newest currentRevision collisionCount,
  getActiveRevisions (ENV := server 0 (scaled 9)) (scaled 9) [newest] start
  = (Ok (Ok (currentRevision, newest, collisionCount)), start).
Proof.
  destruct (buildPatch (web "" 0 0 None)) as [d|e] eqn:Hd; [|exfalso; by vm_compute in Hd].
  exists (revision "web-a" d). apply (scaling_keeps_revision (ENV := server 0 (scaled 9)) (scaled 9) (web "" 0 0 None)); [done|exact Hd|done].
Defined.
