(* ===== verification/InstancePass.v ===== *)
(** Whole reconciles of a RoleInstance (InstanceReconcile.v): what a reconcile may
    ask of the server, and what it leaves alone. *)
From Stdlib Require Import ZArith Lia Bool Ascii String.
From stdpp Require Import base tactics list strings gmap sets fin_maps.
From S2P Require Import Prelude GoStrings Types Expectations Effects Revisions SlowStart InstancePods ComponentOrder NodeBindings.
From S2P Require Import PortAllocator InstanceWorld InstanceRestarts PodInPlace InstanceDemo InstanceScale InstanceCreation InstanceScaling.
From S2P Require Import InstanceUpdate InstanceStatus InstanceReadiness Json InstanceReconcile InstanceRevisions.

(** * Computations by the calls they make *)

Abbreviation calls := (Effects.calls w_trace).

Section calls.
Context `{Env} (ok : api_call -> Prop).

Lemma calls_now : calls ok now.
Proof. intros w r w' [= _ <-]. by apply only_same. Qed.

Lemma calls_request {A} c (answer : list api_call -> result A) : ok c -> calls ok (request c answer).
Proof. intros Hc w r w'. by apply only_ask. Qed.
End calls.

(** * The revisions *)

Section revisions.
Context `{InstanceCodec} {ENV : Env} (i : RoleInstance).

Definition revision_call (c : api_call) : Prop :=
  match c with
  | CallCreateRevision r | CallUpdateRevision r _ => buildPatch i = Ok (cr_Data r)
  | _ => False
  end.

Lemma calls_SetMatchesRevision ok proposed existing : calls ok (SetMatchesRevision i proposed existing).
Proof.
  unfold SetMatchesRevision. apply calls_bind; [apply calls_gets|intros cache]. destruct (lru_get _ _).
  - apply calls_bind; [by apply calls_modify|intros; apply calls_ret].
  - destruct (restored_patch i existing); [|apply calls_ret]. case_bool_decide; [|apply calls_ret].
    apply calls_bind; [by apply calls_modify|intros; apply calls_ret].
Qed.

Lemma FindEqual_last revisions proposed equal :
  last (FindEqualRevisions revisions proposed) = Some equal -> equal ∈ revisions /\ cr_Data equal = cr_Data proposed.
Proof.
  intros Hl%last_Some_elem_of. unfold FindEqualRevisions in Hl. rewrite list_elem_of_In, filter_In, <-list_elem_of_In in Hl.
  destruct Hl as [Hin He]. split; [done|]. unfold EqualRevision in He. by apply bool_decide_eq_true in He.
Qed.

Lemma calls_getActiveRevisions revisions : calls revision_call (getActiveRevisions i revisions).
Proof.
  unfold getActiveRevisions, NewRevision. destruct (buildPatch i) as [patch|e] eqn:Hb; [|apply calls_ret].
  cbn [mbind result_bind]. set (proposed := with_cr_meta _ _).
  assert (buildPatch i = Ok (cr_Data proposed)) as Hp by done.
  apply calls_bind; [|intros [[] ?]; apply calls_ret]. unfold settle.
  destruct (last (FindEqualRevisions _ _)) as [equal|] eqn:He.
  - apply FindEqual_last in He as [_ He]. destruct (last revisions); [|apply calls_fail].
    destruct (EqualRevision _ _); [apply calls_ret|]. apply calls_attempt; [|intros; apply calls_ret].
    apply calls_request. cbn. by rewrite He.
  - assert (calls revision_call (CreateControllerRevision (ri_meta i) proposed (default 0 (rist_CollisionCount (ri_status i)))))
      as Hc by by apply calls_request.
    destruct (last revisions); [|exact Hc]. apply calls_bind; [apply calls_SetMatchesRevision|].
    intros []; [apply calls_ret|exact Hc].
Qed.

Lemma calls_truncateHistory pods revisions current update :
  calls (fun c => exists r, c = CallDeleteRevision r /\ r ∈ noLiveRevisions pods revisions current update)
    (truncateHistory pods revisions current update).
Proof.
  apply calls_for_each. intros r Hr. apply calls_request. exists r. split; [done|]. unfold truncated in Hr.
  by eapply elem_of_take_in.
Qed.

Lemma noLive_unused pods revisions current update r p :
  r ∈ noLiveRevisions pods revisions current update -> p ∈ pods -> EqualToRevisionHash (pod_meta p) (cr_Name r) = false.
Proof.
  unfold noLiveRevisions. rewrite list_elem_of_In, filter_In. intros [_ [_ Hn%negb_true_iff]%andb_prop] Hp.
  apply not_true_iff_false. intros Heq. apply not_true_iff_false in Hn. apply Hn, existsb_exists. exists p.
  split; [by apply list_elem_of_In|done].
Qed.
End revisions.

(** * The calls of a reconcile *)

Section pass.
Context `{InstanceCodec, InPlaceCodec, MapRange, SortSlice, DependsOnCodec}.
Context `{PodNames, PortConfigCodec, DiscoveryCodec, QualifiedNames} {ENV : Env}.

(** The requests of a reconcile before it has its revisions: it reads, and it
    records the revision of its own components. *)
Definition early_call (i : RoleInstance) (c : api_call) : Prop :=
  match c with
  | CallGetInstance from ns name => from = Cached
  | CallListPods ns uid => ns = om_Namespace (ri_meta i) /\ uid = ri_UID i
  | CallListRevisions ns selector => ns = om_Namespace (ri_meta i) /\ selector = GetSelectorMatchLabels (ri_Name i)
  | CallCreateRevision r | CallUpdateRevision r _ => buildPatch i = Ok (cr_Data r)
  | _ => False
  end.

Context (i : RoleInstance) (active inactive : list Pod) (revisions : list ControllerRevision)
  (currentRevision updateRevision : ControllerRevision).

(** Why a reconcile of an instance with these pods and these revisions makes a call,
    after the requests [t]. *)
Definition pass_call (t : list api_call) (c : api_call) : Prop :=
  match c with
  | CallCreatePod p => exists u, ApplyRevision i updateRevision = Ok u /\ missing_pod u (cr_Name updateRevision) active p
  | CallDeletePod p =>
      (exists u, ApplyRevision i updateRevision = Ok u /\ deletable u currentRevision updateRevision revisions active inactive p) \/
      replaced i updateRevision revisions active p
  | CallUpdateInstanceStatus new => write_of_read i t new
  | CallDeleteRevision r =>
      r ∈ revisions /\ cr_Name r <> cr_Name currentRevision /\ cr_Name r <> cr_Name updateRevision /\
      forall p, p ∈ active -> EqualToRevisionHash (pod_meta p) (cr_Name r) = false
  | CallGetPod _ _ | CallUpdatePod _ | CallUpdatePodStatus _ | CallGetInstance _ _ _ => True
  | CallListPods _ _ | CallListRevisions _ _ | CallCreateRevision _ | CallUpdateRevision _ _ => early_call i c
  end.

Lemma calls_Scale u : ApplyRevision i updateRevision = Ok u ->
  traces pass_call (Scale u currentRevision updateRevision revisions active inactive).
Proof.
  intros Hu w r w' Hs. destruct (scale_phases u currentRevision updateRevision revisions active inactive w) as [Ho|Ho];
    rewrite Hs in Ho; (eapply traced_only, Ho); intros t []; cbn; try done; intros Hc; [by eauto|]. left. by eauto.
Qed.

Lemma calls_report {A} (k : Z -> M A) (errs : list error) :
  (forall t, traces pass_call (k t)) -> traces pass_call ((match errs with [] => mret 0 | _ => now end) ≫= k).
Proof.
  intros Hk. apply traces_bind; [destruct errs; [apply traces_ret|]|intros; apply Hk].
  by apply (traces_calls _ (fun _ => False)), calls_now.
Qed.

Lemma calls_syncInstance st : traces pass_call (syncInstance i st currentRevision updateRevision revisions active inactive).
Proof.
  unfold syncInstance. destruct (negb _); [apply traces_ret|].
  destruct (ApplyRevision i updateRevision) as [u|e] eqn:Hu; [|apply traces_ret].
  apply traces_bind; [by apply calls_Scale|]. intros so _ _ _. apply calls_report. intros t.
  destruct (so_scaling so); [apply traces_ret|]. destruct (so_requeue so >? 0); [apply traces_ret|].
  apply traces_bind; [|intros uo _ _ _; apply calls_report; intros; apply traces_ret].
  intros w r w' Hup. apply UpdatePods_calls in Hup. eapply traced_only, Hup. intros t' []; cbn; try done. eauto.
Qed.

Lemma calls_awaits_too_long pods : traces pass_call (awaits_too_long pods).
Proof.
  induction pods as [|p pods IH]; cbn [awaits_too_long]; [apply traces_ret|].
  apply traces_bind; [by apply (traces_calls _ (fun _ => False)); [|apply calls_modify]|intros _ _ _ _].
  apply traces_bind; [|intros [sat d] _ _ _; destruct (_ && _); [apply traces_ret|exact IH]].
  intros w r w' Hr. apply (traced_only _ (fun _ => False)); [done|].
  eapply (only_silent _ _ (fun _ => true)); [done|apply silent_VersionSatisfied|exact Hr].
Qed.

Lemma truncated_unused pods r :
  r ∈ noLiveRevisions pods revisions currentRevision updateRevision ->
  r ∈ revisions /\ cr_Name r <> cr_Name currentRevision /\ cr_Name r <> cr_Name updateRevision /\
  forall p, p ∈ pods -> EqualToRevisionHash (pod_meta p) (cr_Name r) = false.
Proof.
  intros Hr. split_and!; [..|by intros p Hp; eapply noLive_unused]; revert Hr; unfold noLiveRevisions;
    rewrite list_elem_of_In, filter_In, <-list_elem_of_In, !andb_true_iff, !negb_true_iff, !bool_decide_eq_false; naive_solver.
Qed.

Lemma calls_sync_and_publish n :
  traces pass_call (sync_and_publish i revisions active inactive currentRevision updateRevision n).
Proof.
  unfold sync_and_publish. apply traces_bind; [by apply calls_syncInstance|]. intros [res st] _ _ _.
  apply traces_bind; [|intros [st' [|e errs]] _ _ _; [|apply traces_ret]].
  - intros w r w' Hr. apply UpdateStatus_calls in Hr. eapply traced_mono, Hr. by intros t [].
  - apply traces_bind; [destruct (existsb _ _); [|apply traces_ret]|].
    { by apply (traces_calls _ (fun _ => False)); [|apply calls_modify]. }
    intros _ _ _ _. apply traces_attempt; [|intros; apply traces_ret]. eapply traces_calls, calls_truncateHistory.
    intros t c (r & -> & Hr). by apply truncated_unused.
Qed.
End pass.

Section reconcile.
Context `{InstanceCodec, InPlaceCodec, MapRange, SortSlice, DependsOnCodec}.
Context `{PodNames, PortConfigCodec, DiscoveryCodec, QualifiedNames} {ENV : Env} (i : RoleInstance).

(** What the reconcile settles on once it has read the instance, its pods and its
    revisions, all of them in [t]: the sorted revisions, the current and the update
    revision; nothing when the list or the revision cannot be had. *)
Definition settled_revisions (t : list api_call) (w : world)
    : option (list ControllerRevision * ControllerRevision * ControllerRevision) :=
  let selector := GetSelectorMatchLabels (ri_Name i) in
  match env_list_revisions t (ri_meta i) selector with
  | Err _ => None
  | Ok listed =>
      let revisions := SortControllerRevisions listed in
      match (getActiveRevisions i revisions
               (with_trace (CallListRevisions (om_Namespace (ri_meta i)) selector :: t) w)).1 with
      | Ok (Ok (currentRevision, updateRevision, _)) => Some (revisions, currentRevision, updateRevision)
      | _ => None
      end
  end.

Definition explained_call (items : list Pod) (settled : option (list ControllerRevision * ControllerRevision * ControllerRevision))
    (t : list api_call) (c : api_call) : Prop :=
  match settled with
  | Some (revisions, currentRevision, updateRevision) =>
      pass_call i (GetActiveAndInactivePods items).1 (GetActiveAndInactivePods items).2 revisions currentRevision updateRevision t c
  | None => early_call i c
  end.

Lemma early_explained items settled t c : early_call i c -> explained_call items settled t c.
Proof. destruct settled as [[[revisions cur] upd]|]; [|done]. by destruct c. Qed.

Lemma calls_reconcile_instance items w r w' :
  let listed := CallListPods (om_Namespace (ri_meta i)) (ri_UID i) :: w_trace w in
  env_list_pods (w_trace w) (om_Namespace (ri_meta i)) (ri_UID i) = Ok items ->
  reconcile_instance i w = (r, w') -> traced (explained_call items (settled_revisions listed w)) w w'.
Proof.
  intros listed Hitems Hr. set (settled := settled_revisions listed w).
  assert (Hearly : forall t c, early_call i c -> explained_call items settled t c) by (intros; by apply early_explained).
  unfold reconcile_instance in Hr. apply attempt_inv in Hr as (x & w1 & [-> ->]%request_inv & Hr).
  match type of Hr with _ ?w2 = _ => apply (traced_trans _ _ w2) end; [by eapply traced_step, Hearly|].
  rewrite Hitems in Hr. destruct (GetActiveAndInactivePods items) as [active inactive] eqn:Hai.
  apply attempt_inv in Hr as (x & w1 & [-> ->]%request_inv & Hr). cbn [w_trace with_trace] in Hr.
  match type of Hr with _ ?w2 = _ => apply (traced_trans _ _ w2) end; [by eapply traced_step, Hearly|].
  fold listed in Hr |- *. subst settled. unfold settled_revisions in Hearly |- *.
  destruct (env_list_revisions listed _ _) as [revisions|e]; [|apply ret_inv in Hr as [_ ->]; apply traced_refl].
  match type of Hr with _ ?w1 = _ => set (w2 := w1) in Hr |- * end.
  change (with_trace (CallListRevisions _ _ :: listed) w) with w2 in Hearly |- *.
  assert (forall settled x w3, getActiveRevisions i (SortControllerRevisions revisions) w2 = (x, w3) ->
    traced (explained_call items settled) w2 w3) as Hact.
  { intros settled x w3 Ha. apply calls_getActiveRevisions in Ha. eapply traced_only, Ha.
    intros t c Hc. apply early_explained. by destruct c. }
  apply bind_inv in Hr as [(e & He & ->)|(act & w3 & He & Hr)]; [by eapply Hact|].
  eapply traced_trans; [by eapply Hact|]. rewrite He. cbn [fst]. destruct act as [[[cur upd] n]|e];
    [|apply ret_inv in Hr as [_ ->]; apply traced_refl].
  revert w3 r w' He Hr. intros w3 r w' _. unfold explained_call. rewrite Hai. cbn [fst snd].
  enough (traces (pass_call i active inactive (SortControllerRevisions revisions) cur upd)
    (stop ← awaits_too_long active; if (stop : bool) then mret finished
     else sync_and_publish i (SortControllerRevisions revisions) active inactive cur upd n)) as Ht by apply Ht.
  apply traces_bind; [apply calls_awaits_too_long|]. intros [] _ _ _; [apply traces_ret|by apply calls_sync_and_publish].
Qed.

(** From the read of the instance on. *)
Lemma calls_Reconcile ns name items w :
  let got := CallGetInstance Cached ns name :: w_trace w in
  let listed := CallListPods (om_Namespace (ri_meta i)) (ri_UID i) :: got in
  env_get_instance (w_trace w) Cached ns name = Ok i -> not_deleting (ri_meta i) = true ->
  env_list_pods got (om_Namespace (ri_meta i)) (ri_UID i) = Ok items ->
  traced (explained_call items (settled_revisions listed w)) w (Reconcile ns name w).2.
Proof.
  intros got listed Hget Hdel Hitems. destruct (Reconcile ns name w) as [r w'] eqn:Hr. cbn [snd].
  unfold Reconcile in Hr. apply attempt_inv in Hr as (x & w1 & Hx & [_ ->]%ret_inv).
  unfold reconcile_body in Hx. apply attempt_inv in Hx as (y & w2 & [-> ->]%request_inv & Hy).
  rewrite Hget, Hdel in Hy. cbn [negb] in Hy.
  match type of Hy with _ ?w2 = _ => apply (traced_trans _ _ w2) end; [by eapply traced_step, early_explained|].
  exact (calls_reconcile_instance items (with_trace got w) _ _ Hitems Hy).
Qed.
End reconcile.

(** C2: A reconcile of a living instance creates, deletes and records only what it has
    a reason for, given the pods the server lists, the listed revisions and the
    current and update revision it settles on ([settled_revisions], computed from
    the very answers of this reconcile): it creates the pods that the instance at
    its update revision is missing; it deletes one of its own pods only when the
    pod has failed, is in excess, goes with the whole instance because the restart
    policy calls for it or a gang cannot be updated in place, or is itself not at
    the update revision and cannot follow in place from its listed revision, or has
    none; it deletes listed revisions other than those two that no active pod runs;
    and the instance it writes is the one just read again but for the status.
    Without settled revisions it only reads, and records revisions of its own
    components. *)
Theorem Reconcile_calls `{InstanceCodec, InPlaceCodec, MapRange, SortSlice, DependsOnCodec}
    `{PodNames, PortConfigCodec, DiscoveryCodec, QualifiedNames, Env} ns name i items w :
  let got := CallGetInstance Cached ns name :: w_trace w in
  let listed := CallListPods (om_Namespace (ri_meta i)) (ri_UID i) :: got in
  env_get_instance (w_trace w) Cached ns name = Ok i -> not_deleting (ri_meta i) = true ->
  env_list_pods got (om_Namespace (ri_meta i)) (ri_UID i) = Ok items ->
  exists new, w_trace (Reconcile ns name w).2 = (new ++ w_trace w)%list /\
    forall l1 c l2, new = (l1 ++ c :: l2)%list ->
      explained_call i items (settled_revisions i listed w) (l2 ++ w_trace w) c.
Proof. intros got listed Hget Hdel Hitems. by apply calls_Reconcile. Qed.

(** An instance that is gone or being deleted is left to the garbage
    collector: the reconcile makes no other call than the read, and forgets that the
    instance was restarting. *)
Theorem Reconcile_gone `{InstanceCodec, InPlaceCodec, MapRange, SortSlice, DependsOnCodec}
    `{PodNames, PortConfigCodec, DiscoveryCodec, QualifiedNames, Env} ns name w :
  match env_get_instance (w_trace w) Cached ns name with
  | Ok i => not_deleting (ri_meta i) = false /\ om_Namespace (ri_meta i) = ns /\ ri_Name i = name
  | Err e => e = NotFoundError
  end ->
  Reconcile ns name w
  = (Ok finished, with_restarting (w_restarting w ∖ {[request_key ns name]}) (with_trace (CallGetInstance Cached ns name :: w_trace w) w)).
Proof.
  intros Hget. unfold Reconcile, reconcile_body, attempt, GetInstance. rewrite request_run.
  destruct (env_get_instance (w_trace w) Cached ns name) as [i|e].
  - destruct Hget as (-> & <- & <-). reflexivity.
  - subst e. reflexivity.
Qed.

(** * An instance that is as it should be *)

(** Every component has its pods and no others, all of the revision; nothing has
    failed, and neither the restart policy nor a gang asks for more. *)
Record converged (i : RoleInstance) (active inactive : list Pod) (revision : ControllerRevision) : Prop := {
  cv_policy : recreate_policy i = false;
  cv_gang : isGangSchedulingEnabled i = false;
  cv_failed : forall p, p ∈ inactive -> failed p = false;
  cv_ids : forall c size p, c ∈ ris_Components (ri_spec i) -> ric_Size c = Some size -> p ∈ active ->
    GetPodComponentName p = ric_Name c -> 0 <= GetPodComponentID p < size;
  cv_complete : forall c size id, c ∈ ris_Components (ri_spec i) -> ric_Size c = Some size -> 0 <= id < size ->
    exists p, p ∈ active /\ GetPodComponentName p = ric_Name c /\ GetPodComponentID p = id;
  cv_revision : forall p, p ∈ active -> EqualToRevisionHash (pod_meta p) (cr_Name revision) = true
}.

Lemma converged_call `{InstanceCodec, InPlaceCodec, MapRange, Env} i active inactive revisions cur newest t c :
  converged i active inactive newest -> ApplyRevision i newest = Ok i ->
  pass_call i active inactive revisions cur newest t c -> (forall p, c <> CallCreatePod p) /\ forall p, c <> CallDeletePod p.
Proof.
  intros [Hpol Hgang Hfailed Hids Hcompl Hrev] Happly Hc. split; intros p ->; cbn in Hc.
  - destruct Hc as (u & Hu & (c & size & id & Hc & Hs & Hid & _ & Hno)). rewrite Happly in Hu. injection Hu as <-.
    destruct (Hcompl c size id Hc Hs Hid) as (q & Hq & Hn & Hqid). by apply (Hno q Hq Hn).
  - destruct Hc as [(u & Hu & Hd)|(Hp & Hne & _)]; [|by rewrite (Hrev p Hp) in Hne].
    rewrite Happly in Hu. injection Hu as <-.
    destruct Hd as [[[Hr _] _]|[[[Hg _] _]|[[Hp Hf]|(c & size & Hc & Hs & Hp & Hn & Hid)]]];
      [by rewrite Hpol in Hr|by rewrite Hgang in Hg|by rewrite (Hfailed p Hp) in Hf|].
    pose proof (Hids c size p Hc Hs Hp Hn). lia.
Qed.

(** An instance whose pods are all there, at the revision of its components, is
    left alone: a reconcile creates and deletes no pod. *)
Theorem converged_instance_left_alone `{InstanceCodec, InPlaceCodec, MapRange, SortSlice, DependsOnCodec}
    `{PodNames, PortConfigCodec, DiscoveryCodec, QualifiedNames, Env} ns name i items revisions newest w :
  let got := CallGetInstance Cached ns name :: w_trace w in
  let listed := CallListPods (om_Namespace (ri_meta i)) (ri_UID i) :: got in
  let '(active, inactive) := GetActiveAndInactivePods items in
  env_get_instance (w_trace w) Cached ns name = Ok i -> not_deleting (ri_meta i) = true ->
  env_list_pods got (om_Namespace (ri_meta i)) (ri_UID i) = Ok items ->
  env_list_revisions listed (ri_meta i) (GetSelectorMatchLabels (ri_Name i)) = Ok revisions ->
  last (SortControllerRevisions revisions) = Some newest ->
  buildPatch i = Ok (cr_Data newest) -> ApplyRevision i newest = Ok i ->
  converged i active inactive newest ->
  exists new, w_trace (Reconcile ns name w).2 = (new ++ w_trace w)%list /\
    forall c, c ∈ new -> (forall p, c <> CallCreatePod p) /\ forall p, c <> CallDeletePod p.
Proof.
  intros got listed. destruct (GetActiveAndInactivePods items) as [active inactive] eqn:Ha.
  intros Hget Hdel Hitems Hrevs Hlast Hb Happly Hconv.
  destruct (calls_Reconcile i ns name items w Hget Hdel Hitems) as (new & Ht & Hn). exists new. split; [exact Ht|].
  intros c (l1 & l2 & Hnew)%list_elem_of_split. specialize (Hn l1 c l2 Hnew). fold got listed in Hn.
  unfold settled_revisions in Hn. rewrite Hrevs in Hn.
  destruct (newest_kept i i _ newest (with_trace (CallListRevisions (om_Namespace (ri_meta i)) (GetSelectorMatchLabels (ri_Name i))
              :: listed) w) Hlast Hb eq_refl) as (cur & n & Hact).
  rewrite Hact in Hn. cbn [fst explained_call] in Hn. unfold explained_call in Hn. rewrite Ha in Hn. by eapply converged_call.
Qed.

(** * At a concrete instance *)

Import Web Codec.

(** A server that holds the instance, its three pods and the revision of its
    components. *)
Definition web_pods : list Pod := [pod "db" 0; pod "api" 0; pod "api" 1].

#[export] Program Instance steady (stored : RoleInstance) (d : string) : Env := {|
  env_now := fun _ => 0;
  env_apiReader := true;
  env_get_pod := fun _ _ name =>
    match List.find (fun p => bool_decide (pod_Name p = name)) web_pods with Some p => Ok p | None => Err NotFoundError end;
  env_list_pods := fun _ _ _ => Ok web_pods;
  env_create_pod := fun _ _ => Ok tt;
  env_delete_pod := fun _ _ => Ok tt;
  env_update_pod := fun _ p => Ok p;
  env_update_pod_status := fun _ _ => Ok tt;
  env_get_instance := fun _ _ _ name => if bool_decide (name = "web"%string) then Ok stored else Err NotFoundError;
  env_update_instance_status := fun _ _ => Ok tt;
  env_list_revisions := fun _ _ _ => Ok [revision "web-a" d];
  env_create_revision := fun _ _ r n => (Ok r, n);
  env_update_revision := fun _ r _ => Ok r;
  env_delete_revision := fun _ _ => Ok tt;
  env_schedule := fun _ l => l
|}.
Next Obligation. done. Qed.

Definition web_now : RoleInstance := web "" 1 0 None.

Lemma ids_checked name size p :
  forallb (fun p => negb (bool_decide (GetPodComponentName p = name)) || ((0 <=? GetPodComponentID p) && (GetPodComponentID p <? size)))
    web_pods = true ->
  p ∈ web_pods -> GetPodComponentName p = name -> 0 <= GetPodComponentID p < size.
Proof.
  intros Hc Hp Hn. apply (proj1 (forallb_forall _ _)) with (x := p) in Hc; [|by apply list_elem_of_In].
  rewrite bool_decide_eq_true_2 in Hc by done. cbn [negb orb] in Hc. lia.
Qed.

Lemma web_converged d : converged web_now web_pods [] (revision "web-a" d).
Proof.
  split; [done|done|by intros p ?%elem_of_nil|..].
  - intros c size p [->|[->|[]%elem_of_nil]%elem_of_cons]%elem_of_cons [= <-]; apply ids_checked; by vm_compute.
  - intros c size id [->|[->|[]%elem_of_nil]%elem_of_cons]%elem_of_cons [= <-] Hid.
    + exists (pod "db" 0). replace id with 0 by lia. split; [by apply (list_elem_of_lookup_2 _ 0)|by vm_compute].
    + destruct (decide (id = 0)) as [->|].
      * exists (pod "api" 0). split; [by apply (list_elem_of_lookup_2 _ 1)|by vm_compute].
      * replace id with 1 by lia. exists (pod "api" 1). split; [by apply (list_elem_of_lookup_2 _ 2)|by vm_compute].
  - intros p Hp. assert (forallb (fun p => EqualToRevisionHash (pod_meta p) "web-a") web_pods = true) as Hc by by vm_compute.
    apply (proj1 (forallb_forall _ _)) with (x := p) in Hc; [done|by apply list_elem_of_In].
Qed.

Lemma converged_instance_left_alone_witness : exists d new,
  w_trace (Reconcile (ENV := steady web_now d) "default" "web" start).2 = (new ++ [])%list /\
  forall c, c ∈ new -> (forall p, c <> CallCreatePod p) /\ forall p, c <> CallDeletePod p.
Proof.
  destruct (buildPatch web_now) as [d|e] eqn:Hd; [|exfalso; by vm_compute in Hd]. exists d.
  apply (converged_instance_left_alone "default" "web" web_now web_pods [revision "web-a" d] (revision "web-a" d) start);
    [done..|exact Hd|done|apply web_converged].
Defined.

Lemma Reconcile_calls_witness : exists new,
  w_trace (Reconcile (ENV := server 0 web_now) "default" "web" start).2 = (new ++ [])%list /\
  forall l1 c l2, new = (l1 ++ c :: l2)%list ->
    explained_call (ENV := server 0 web_now) web_now []
      (settled_revisions (ENV := server 0 web_now) web_now
         [CallListPods "default" (ri_UID web_now); CallGetInstance Cached "default" "web"] start) (l2 ++ []) c.
Proof. by apply (Reconcile_calls "default" "web" web_now [] start). Defined.

Lemma Reconcile_gone_witness :
  Reconcile (ENV := steady web_now "") "default" "api" start
  = (Ok finished, with_restarting ∅ (with_trace [CallGetInstance Cached "default" "api"] start)).
Proof. by rewrite (Reconcile_gone "default" "api" start). Defined.
