(* ===== verification/Requests.v ===== *)
(** The outside world of the group-level controllers, for any type of requests: the
    requests made so far, newest first, and how often the clock was read.

    A request is recorded and answered as a function of the requests before it, so a
    theorem over every answer holds for any behaviour of the API server.  A
    controller gives its type of requests and its class of answers. *)
From Stdlib Require Import ZArith Lia Bool.
From stdpp Require Import base tactics list strings.
From S2P Require Import Prelude GoStrings Effects Revisions.

Record world (C : Type) := { w_trace : list C; w_clock : nat }.
Arguments w_trace {C} _.
Arguments w_clock {C} _.
Arguments Build_world {C} _ _.

Section requests.
Context {C : Type}.

Definition start : world C := {| w_trace := []; w_clock := O |}.

Definition request {A} (c : C) (answer : list C -> result A) : ST (world C) A := fun w =>
  (answer (w_trace w), {| w_trace := c :: w_trace w; w_clock := w_clock w |}).

(** [metav1.Now()] on a clock. *)
Definition read_clock (clock : nat -> Z) : ST (world C) Z := fun w =>
  (Ok (clock (w_clock w)), {| w_trace := w_trace w; w_clock := S (w_clock w) |}).

(** An error left aside: what is left is whether the request succeeded. *)
Definition outcome {A} (m : ST (world C) A) : ST (world C) (result A) := attempt m mret.

Lemma request_eq {A} c (answer : list C -> result A) w r w' :
  request c answer w = (r, w') -> r = answer (w_trace w) /\ w_trace w' = c :: w_trace w.
Proof. by intros [= <- <-]. Qed.

Lemma outcome_inv {A B} (m : ST (world C) A) (f : result A -> ST (world C) B) w r w' :
  (outcome m ≫= f) w = (r, w') -> exists x w1, m w = (x, w1) /\ f x w1 = (r, w').
Proof. unfold mbind, ST_bind, outcome, attempt. destruct (m w) as [x w1]. cbn. eauto. Qed.

Lemma calls_ask {A} (ok : C -> Prop) c (answer : list C -> result A) :
  ok c -> calls w_trace ok (request c answer).
Proof.
  intros Hc w r w' [_ Ht]%request_eq. exists [c]. rewrite Ht. split; [done|]. by intros ? ->%list_elem_of_singleton.
Qed.

Lemma calls_clock (ok : C -> Prop) clock : calls w_trace ok (read_clock clock).
Proof. intros w r w' [= _ <-]. by apply only_same. Qed.

Lemma calls_outcome {A} (ok : C -> Prop) (m : ST (world C) A) : calls w_trace ok m -> calls w_trace ok (outcome m).
Proof. intros Hm. apply calls_attempt; [done|]. intros. apply calls_ret. Qed.
End requests.

(** The panic of [*p] on a nil pointer: the manager recovers it into an error. *)
Definition NilDereference : error := "invalid memory address or nil pointer dereference".

(** [client.IgnoreNotFound]. *)
Definition IgnoreNotFound (e : error) : option error := if IsNotFound e then None else Some e.

(** A computation of the world, in a reconciler that keeps a state of its own beside it. *)
Definition on_world {C S A} (m : ST (world C) A) : ST (world C * S) A := fun w =>
  let '(r, w') := m w.1 in (r, (w', w.2)).

Lemma on_world_inv {C S A} (m : ST (world C) A) (w : world C * S) r w' :
  on_world m w = (r, w') -> exists w1, m w.1 = (r, w1) /\ w' = (w1, w.2).
Proof. unfold on_world. destruct (m w.1) as [x w1]. intros [= <- <-]. eauto. Qed.

Lemma calls_on_world {C S A} (ok : C -> Prop) (m : ST (world C) A) :
  calls w_trace ok m -> calls (fun w : world C * S => w_trace w.1) ok (on_world m).
Proof.
  intros Hm w r w' (w1 & Hr & ->)%on_world_inv. destruct (Hm _ _ _ Hr) as (new & Ht & Hall).
  by exists new.
Qed.

(** Discharges [calls] of a computation whose requests are allowed by hints. *)
Create HintDb calls discriminated.
#[export] Hint Resolve calls_ret calls_fail calls_lift calls_gets calls_clock calls_fail_all : calls.

Ltac calling :=
  repeat match goal with
  | |- forall _, _ => intros ?
  | |- calls _ _ (mbind _ _) => apply calls_bind; [|intros ?]
  | |- calls _ _ (attempt _ _) => apply calls_attempt; [|intros ?]
  | |- calls _ _ (outcome _) => apply calls_outcome
  | |- calls _ _ (RetryOnConflict _ _) => apply calls_RetryOnConflict
  | |- calls _ _ (match ?x with _ => _ end) => destruct x eqn:?
  | |- calls _ _ _ => solve [eauto with calls]
  end.
