(* ===== verification/GroupSet.v ===== *)
(** The controller of a RoleBasedGroupSet
    (internal/controller/workloads/rolebasedgroupset_controller.go): it keeps the
    groups numbered 0 to replicas-1, each made from the template of the set.

    [classify] sorts the listed groups into the numbered ones, adopting orphans, and
    those to delete; [reconcile_groups] deletes, updates and creates; [updateStatus]
    counts.  Logs are left out. *)
From Stdlib Require Import ZArith Lia Bool Ascii String.
From stdpp Require Import base tactics list strings gmap sets numbers.
From S2P Require Import Prelude GoStrings Types Conditions GroupTypes Effects Revisions Owners Requests.

Definition GroupSetNameLabelKey : string := RBGPrefix +:+ "groupset-name".
Definition GroupSetIndexLabelKey : string := RBGPrefix +:+ "groupset-index".
Definition RoleBasedGroupReady : string := "Ready".
Definition RoleBasedGroupSetReady : string := "Ready".
Definition SetKind : string := "RoleBasedGroupSet".

(** * The set (rolebasedgroupset_types.go) *)

Record RoleBasedGroupTemplateSpec := {
  gt_Labels : labels;
  gt_Annotations : labels;
  gt_Roles : list RoleSpec;
  gt_RoleTemplates : list RoleTemplate
}.

Record RoleBasedGroupSetStatus := {
  gss_ObservedGeneration : Z;
  gss_Replicas : Z;
  gss_ReadyReplicas : Z;
  gss_Conditions : list Condition
}.

#[export] Instance RoleBasedGroupSetStatus_eq_dec : EqDecision RoleBasedGroupSetStatus.
Proof. solve_decision. Defined.

Record RoleBasedGroupSet := {
  rbgs_meta : ObjectMeta;
  rbgs_Replicas : option Z;
  rbgs_Template : RoleBasedGroupTemplateSpec;
  rbgs_status : RoleBasedGroupSetStatus
}.

Definition rbgs_Name (s : RoleBasedGroupSet) : string := om_Name (rbgs_meta s).
Definition rbgs_Namespace (s : RoleBasedGroupSet) : string := om_Namespace (rbgs_meta s).
Definition rbgs_UID (s : RoleBasedGroupSet) : string := om_UID (rbgs_meta s).

Definition rbgs_with_status (st : RoleBasedGroupSetStatus) (s : RoleBasedGroupSet) : RoleBasedGroupSet := {|
  rbgs_meta := rbgs_meta s; rbgs_Replicas := rbgs_Replicas s; rbgs_Template := rbgs_Template s; rbgs_status := st |}.

(** * Requests *)

(** A status update is recorded with the object it writes. *)
Inductive set_call :=
| CallGetSet (namespace name : string)
| CallListGroups (namespace set : string)
| CallGetGroup (namespace name : string)
| CallCreateGroup (g : RoleBasedGroup)
| CallUpdateGroup (g : RoleBasedGroup)
| CallDeleteGroup (g : RoleBasedGroup)
| CallUpdateSetStatus (s : RoleBasedGroupSet).

(** The answers, and the order in which a [range] over the numbered groups visits
    them: the two loops of a reconcile may see two orders. *)
Class SetEnv := {
  se_clock : nat -> Z;
  se_get_set : list set_call -> string -> string -> result RoleBasedGroupSet;
  se_list_groups : list set_call -> string -> string -> result (list RoleBasedGroup);
  se_get_group : list set_call -> string -> string -> result RoleBasedGroup;
  se_create_group : list set_call -> RoleBasedGroup -> result RoleBasedGroup;
  se_update_group : list set_call -> RoleBasedGroup -> result RoleBasedGroup;
  se_delete_group : list set_call -> RoleBasedGroup -> result unit;
  se_update_set_status : list set_call -> RoleBasedGroupSet -> result unit;
  se_range : nat -> gmap Z RoleBasedGroup -> list (Z * RoleBasedGroup);
  se_range_perm : forall n m, se_range n m ≡ₚ map_to_list m
}.

Abbreviation M := (ST (world set_call)).

(** * Owners *)

(** Controlled by the set, or an orphan with its name label. *)
Definition isOwnedOrAdoptable (set : RoleBasedGroupSet) (g : RoleBasedGroup) : bool :=
  match GetControllerOf (rbg_meta g) with
  | None => bool_decide (label_of (om_Labels (rbg_meta g)) GroupSetNameLabelKey = rbgs_Name set)
  | Some ref => bool_decide (or_UID ref = rbgs_UID set)
  end.

Definition filterOwnedItems (set : RoleBasedGroupSet) (items : list RoleBasedGroup) : list RoleBasedGroup :=
  List.filter (isOwnedOrAdoptable set) items.

Definition controlled (set : RoleBasedGroupSet) (g : RoleBasedGroup) : result RoleBasedGroup :=
  m ← SetControllerReference GroupAPIVersion SetKind (rbgs_meta set) (rbg_meta g); Ok (rbg_with_meta m g).

(** * The template *)

Definition normalizeRolloutUpdateType (r : RoleSpec) : RoleSpec :=
  match role_RollingUpdate r with
  | None => r
  | Some ru => with_RollingUpdate (Some (with_Type (NormalizeUpdateStrategyType (ru_Type ru)) ru)) r
  end.

Definition normalizeRolloutUpdateTypes (roles : list RoleSpec) : list RoleSpec := map normalizeRolloutUpdateType roles.

Definition normalizedGroupTemplateRoles (set : RoleBasedGroupSet) : list RoleSpec :=
  normalizeRolloutUpdateTypes (gt_Roles (rbgs_Template set)).

Definition role_less (r1 r2 : RoleSpec) : bool := String.ltb (role_Name r1) (role_Name r2).

(** Equal up to the order of roles and the spelling of update types. *)
Definition rolesEqual `{SortSlice} (roles1 roles2 : list RoleSpec) : bool :=
  if negb (length roles1 =? length roles2)%nat then false
  else bool_decide (normalizeRolloutUpdateTypes (sort_slice role_less roles1)
                    = normalizeRolloutUpdateTypes (sort_slice role_less roles2)).

Definition system_label (k : string) : bool :=
  bool_decide (k = GroupSetNameLabelKey) || bool_decide (k = GroupSetIndexLabelKey).

Definition needsTemplateLabelUpdate (set : RoleBasedGroupSet) (g : RoleBasedGroup) : bool :=
  let template := gt_Labels (rbgs_Template set) in
  let have := om_Labels (rbg_meta g) in
  existsb (fun kv => negb (bool_decide (label_of have kv.1 = kv.2))) (map_to_list template)
  || existsb (fun kv => negb (system_label kv.1) && bool_decide (template !! kv.1 = None)) (map_to_list have).

Definition needsTemplateAnnotationUpdate (set : RoleBasedGroupSet) (g : RoleBasedGroup) : bool :=
  let template := gt_Annotations (rbgs_Template set) in
  let have := om_Annotations (rbg_meta g) in
  existsb (fun kv => negb (bool_decide (label_of have kv.1 = kv.2))) (map_to_list template)
  || existsb (fun kv => bool_decide (template !! kv.1 = None)) (map_to_list have).

Definition needsUpdate `{SortSlice} (set : RoleBasedGroupSet) (g : RoleBasedGroup) : bool :=
  negb (rolesEqual (rbg_Roles g) (gt_Roles (rbgs_Template set)))
  || needsTemplateLabelUpdate set g || needsTemplateAnnotationUpdate set g.

Definition system_labels (set : RoleBasedGroupSet) (index : string) : labels :=
  <[GroupSetIndexLabelKey := index]> (<[GroupSetNameLabelKey := rbgs_Name set]> (gt_Labels (rbgs_Template set))).

(** The labels and annotations of the template; the index of the group stays. *)
Definition syncRBGMetadata (set : RoleBasedGroupSet) (m : ObjectMeta) : ObjectMeta :=
  with_annotations (gt_Annotations (rbgs_Template set))
    (with_labels (system_labels set (label_of (om_Labels m) GroupSetIndexLabelKey)) m).

(** What an update writes over the latest group. *)
Definition updated_group (set : RoleBasedGroupSet) (latest : RoleBasedGroup) : RoleBasedGroup :=
  rbg_with_meta (syncRBGMetadata set (rbg_meta latest)) (rbg_with_roles (normalizedGroupTemplateRoles set) latest).

Definition newRBGForSet (set : RoleBasedGroupSet) (index : Z) : RoleBasedGroup := {|
  rbg_meta := with_annotations (gt_Annotations (rbgs_Template set))
                (with_labels (system_labels set (Itoa index))
                   (with_name (rbgs_Name set +:+ "-" +:+ Itoa index) (rbgs_Namespace set) empty_meta));
  rbg_Roles := normalizedGroupTemplateRoles set; rbg_RoleTemplates := [];
  rbg_ObservedGeneration := 0; rbg_Conditions := []; rbg_RoleStatuses := [] |}.

(** * The reconcile *)

Section reconcile.
Context `{SortSlice} {ENV : SetEnv}.

Definition GetSet (ns name : string) : M RoleBasedGroupSet :=
  request (CallGetSet ns name) (fun t => se_get_set t ns name).
Definition ListGroups (ns set : string) : M (list RoleBasedGroup) :=
  request (CallListGroups ns set) (fun t => se_list_groups t ns set).
Definition GetGroup (ns name : string) : M RoleBasedGroup :=
  request (CallGetGroup ns name) (fun t => se_get_group t ns name).
Definition CreateGroup (g : RoleBasedGroup) : M RoleBasedGroup :=
  request (CallCreateGroup g) (fun t => se_create_group t g).
Definition UpdateGroup (g : RoleBasedGroup) : M RoleBasedGroup :=
  request (CallUpdateGroup g) (fun t => se_update_group t g).
Definition DeleteGroup (g : RoleBasedGroup) : M unit :=
  request (CallDeleteGroup g) (fun t => se_delete_group t g).
Definition UpdateSetStatus (s : RoleBasedGroupSet) : M unit :=
  request (CallUpdateSetStatus s) (fun t => se_update_set_status t s).

Definition failed (what name : string) (e : error) : error := "failed to " +:+ what +:+ " " +:+ name +:+ ": " +:+ e.

Definition create_one (set : RoleBasedGroupSet) (g : RoleBasedGroup) : M (option error) :=
  match controlled set g with
  | Err e => mret (Some (failed "set controller reference for rbg" (rbg_Name g) e))
  | Ok owned =>
      got ← outcome (GetGroup (om_Namespace (rbg_meta g)) (rbg_Name g));
      match got with
      | Ok _ => mret None
      | Err _ =>
          r ← outcome (CreateGroup owned);
          mret (match r with
                | Ok _ => None
                | Err e => if IsAlreadyExists e then None else Some (failed "create RoleBasedGroup" (rbg_Name g) e)
                end)
      end
  end.

Definition scaleUp (set : RoleBasedGroupSet) (rbgsToCreate : list RoleBasedGroup) : M unit :=
  allErrs ← collect (create_one set) rbgsToCreate; fail_all allErrs.

Definition delete_one (g : RoleBasedGroup) : M (option error) :=
  r ← outcome (DeleteGroup g);
  mret (match r with
        | Ok _ => None
        | Err e => if IsNotFound e then None else Some (failed "delete RoleBasedGroup" (rbg_Name g) e)
        end).

Definition scaleDown (rbgsToDelete : list RoleBasedGroup) : M unit :=
  allErrs ← collect delete_one rbgsToDelete; fail_all allErrs.

Definition update_one (set : RoleBasedGroupSet) (g : RoleBasedGroup) : M (option error) :=
  r ← outcome (RetryOnConflict DefaultRetry
        (latest ← GetGroup (om_Namespace (rbg_meta g)) (rbg_Name g); UpdateGroup (updated_group set latest)));
  mret (match r with Ok _ => None | Err e => Some (failed "update RoleBasedGroup" (rbg_Name g) e) end).

Definition updateExistingRBGs (set : RoleBasedGroupSet) (rbgsToUpdate : list RoleBasedGroup) : M unit :=
  allErrs ← collect (update_one set) rbgsToUpdate; fail_all allErrs.

(** The numbered groups, where the last one listed under a number counts, and those
    to delete because their number is missing or unreadable. *)
Fixpoint classify (set : RoleBasedGroupSet) (items : list RoleBasedGroup)
    (existingRBGs : gmap Z RoleBasedGroup) (rbgsToDelete : list RoleBasedGroup)
    : M (gmap Z RoleBasedGroup * list RoleBasedGroup) :=
  match items with
  | [] => mret (existingRBGs, rbgsToDelete)
  | g :: items' =>
      if negb (isOwnedOrAdoptable set g) then classify set items' existingRBGs rbgsToDelete
      else match om_Labels (rbg_meta g) !! GroupSetIndexLabelKey with
      | None => classify set items' existingRBGs (rbgsToDelete ++ [g])
      | Some indexStr =>
          match Atoi indexStr with
          | Err _ => classify set items' existingRBGs (rbgsToDelete ++ [g])
          | Ok index =>
              match GetControllerOf (rbg_meta g) with
              | Some _ => classify set items' (<[index := g]> existingRBGs) rbgsToDelete
              | None =>
                  match controlled set g with
                  | Err e => fail e
                  | Ok adopted =>
                      r ← outcome (UpdateGroup adopted);
                      match r with
                      | Ok stored => classify set items' (<[index := stored]> existingRBGs) rbgsToDelete
                      | Err e => if IsNotFound e then classify set items' existingRBGs rbgsToDelete else fail e
                      end
                  end
              end
          end
      end
  end.

Definition missing_indices (desired : Z) (existingRBGs : gmap Z RoleBasedGroup) : list Z :=
  List.filter (fun i => bool_decide (existingRBGs !! i = None)) (seqZ 0 desired).

Definition beyond (desired : Z) (ranged : list (Z * RoleBasedGroup)) : list RoleBasedGroup :=
  map snd (List.filter (fun ig => desired <=? ig.1) ranged).

Definition to_update (set : RoleBasedGroupSet) (rbgsToDelete : list RoleBasedGroup)
    (ranged : list (Z * RoleBasedGroup)) : list RoleBasedGroup :=
  List.filter (fun g => negb (existsb (fun d => bool_decide (rbg_Name d = rbg_Name g)) rbgsToDelete) && needsUpdate set g)
    (map snd ranged).

Definition condition_of (set : RoleBasedGroupSet) (now desiredReplicas readyReplicas : Z) : Condition :=
  if readyReplicas >=? desiredReplicas then {|
    c_Type := RoleBasedGroupSetReady; c_Status := ConditionTrue; c_ObservedGeneration := 0;
    c_LastTransitionTime := Some now; c_Reason := "AllReplicasReady";
    c_Message := "All RoleBasedGroup replicas are ready." |}
  else {|
    c_Type := RoleBasedGroupSetReady; c_Status := ConditionFalse; c_ObservedGeneration := 0;
    c_LastTransitionTime := Some now; c_Reason := "ReplicasNotReady";
    c_Message := "Waiting for replicas to be ready (" +:+ Itoa readyReplicas +:+ "/" +:+ Itoa desiredReplicas +:+ ")" |}.

Definition status_of (set : RoleBasedGroupSet) (now desiredReplicas : Z) (items : list RoleBasedGroup)
    : RoleBasedGroupSetStatus :=
  let ready := int32 (countb (fun g => IsStatusConditionTrue (rbg_Conditions g) RoleBasedGroupReady) items) in {|
  gss_ObservedGeneration := gss_ObservedGeneration (rbgs_status set);
  gss_Replicas := int32 (Z.of_nat (length items));
  gss_ReadyReplicas := ready;
  gss_Conditions := (SetStatusCondition now (condition_of set now desiredReplicas ready) (gss_Conditions (rbgs_status set))).1 |}.

Definition updateStatus (set : RoleBasedGroupSet) (items : list RoleBasedGroup) : M unit :=
  match rbgs_Replicas set with
  | None => fail NilDereference
  | Some desiredReplicas =>
      now ← read_clock se_clock;
      let newStatus := status_of set now desiredReplicas items in
      if bool_decide (rbgs_status set = newStatus) then mret tt
      else RetryOnConflict DefaultRetry
             (latest ← GetSet (rbgs_Namespace set) (rbgs_Name set); UpdateSetStatus (rbgs_with_status newStatus latest))
  end.

Definition reconcile_groups (set : RoleBasedGroupSet) (desiredReplicas : Z)
    (existingRBGs : gmap Z RoleBasedGroup) (unnumbered : list RoleBasedGroup) : M unit :=
  let rbgsToCreate := map (newRBGForSet set) (missing_indices desiredReplicas existingRBGs) in
  let rbgsToDelete := unnumbered ++ beyond desiredReplicas (se_range 0 existingRBGs) in
  let rbgsToUpdate := to_update set rbgsToDelete (se_range 1 existingRBGs) in
  (match rbgsToDelete with [] => mret tt | _ => scaleDown rbgsToDelete end) ≫= fun _ =>
  (match rbgsToUpdate with [] => mret tt | _ => updateExistingRBGs set rbgsToUpdate end) ≫= fun _ =>
  match rbgsToCreate with [] => mret tt | _ => scaleUp set rbgsToCreate end.

Definition reconcile_set (set : RoleBasedGroupSet) : M unit :=
  items ← ListGroups (rbgs_Namespace set) (rbgs_Name set);
  '(existingRBGs, unnumbered) ← classify set items ∅ [];
  match rbgs_Replicas set with
  | None => fail NilDereference
  | Some desiredReplicas =>
      reconcile_groups set desiredReplicas existingRBGs unnumbered ≫= fun _ =>
      items ← ListGroups (rbgs_Namespace set) (rbgs_Name set);
      updateStatus set (filterOwnedItems set items)
  end.

Definition Reconcile (ns name : string) : M unit :=
  r ← outcome (GetSet ns name);
  match r with
  | Err e => match IgnoreNotFound e with None => mret tt | Some e => fail e end
  | Ok set =>
      if bool_decide (is_Some (om_DeletionTimestamp (rbgs_meta set))) then mret tt
      else reconcile_set set
  end.
End reconcile.
