(* ===== verification/GroupSetTemplate.v ===== *)
(** What the template of a RoleBasedGroupSet makes of a group (GroupSet.v): an update
    settles, a created group is up to date, and the numbers in the labels read back.

    Two limits are theorems too: a template that sets a system label never settles,
    and a group that another controller has annotated does not either. *)
From Stdlib Require Import ZArith Lia Bool Ascii String Sorted Permutation.
From stdpp Require Import base tactics list strings gmap sets numbers sorting.
From S2P Require Import Prelude GoStrings Types Conditions GroupTypes Effects Revisions Owners Requests GroupSet.

(** * Roles *)

Lemma NormalizeUpdateStrategyType_idem t :
  NormalizeUpdateStrategyType (NormalizeUpdateStrategyType t) = NormalizeUpdateStrategyType t.
Proof.
  unfold NormalizeUpdateStrategyType. repeat case_bool_decide; try done.
Qed.

Lemma normalizeRolloutUpdateType_idem r :
  normalizeRolloutUpdateType (normalizeRolloutUpdateType r) = normalizeRolloutUpdateType r.
Proof.
  unfold normalizeRolloutUpdateType. destruct (role_RollingUpdate r) as [ru|] eqn:Hr; cbn [role_RollingUpdate with_RollingUpdate].
  - cbn [ru_Type with_Type]. by rewrite NormalizeUpdateStrategyType_idem.
  - by rewrite Hr.
Qed.

Lemma normalizeRolloutUpdateType_name r : role_Name (normalizeRolloutUpdateType r) = role_Name r.
Proof. unfold normalizeRolloutUpdateType. by destruct (role_RollingUpdate r). Qed.

Lemma normalizeRolloutUpdateTypes_idem roles :
  normalizeRolloutUpdateTypes (normalizeRolloutUpdateTypes roles) = normalizeRolloutUpdateTypes roles.
Proof.
  unfold normalizeRolloutUpdateTypes. rewrite map_map. apply map_ext. apply normalizeRolloutUpdateType_idem.
Qed.

Lemma normalizeRolloutUpdateTypes_names roles : map role_Name (normalizeRolloutUpdateTypes roles) = map role_Name roles.
Proof. unfold normalizeRolloutUpdateTypes. rewrite map_map. apply map_ext. apply normalizeRolloutUpdateType_name. Qed.

Lemma string_ltb_antisym a b : String.ltb a b = false -> String.ltb b a = false -> a = b.
Proof.
  unfold String.ltb. rewrite (String.compare_antisym a b). intros Ha Hb.
  destruct (String.compare b a) eqn:E; [symmetry; by apply String.compare_eq_iff|done|done].
Qed.

(** Lists sorted by distinct names have one order. *)
Lemma sorted_by_name_unique {A} (name : A -> string) l1 l2 :
  StronglySorted (fun x y => String.ltb (name y) (name x) = false) l1 ->
  StronglySorted (fun x y => String.ltb (name y) (name x) = false) l2 ->
  NoDup (map name l1) -> l1 ≡ₚ l2 -> l1 = l2.
Proof.
  intros H1 H2 Hnd Hp. eapply (StronglySorted_unique_strong _ l1 l2); [|exact H1|exact H2|exact Hp].
  intros x y Hx Hy Hxy Hyx. rewrite <-Hp in Hy. assert (name x = name y) as Hn by by apply string_ltb_antisym.
  clear -Hnd Hx Hy Hn. induction l1 as [|z l IH]; [by apply elem_of_nil in Hx|].
  apply NoDup_cons in Hnd as [Hz Hnd]. assert (forall u, u ∈ l -> name u ≠ name z) as Hne.
  { intros u Hu He. apply Hz. rewrite <-He. by apply list_elem_of_fmap_2. }
  apply elem_of_cons in Hx as [->|Hx], Hy as [->|Hy]; [done|by apply Hne in Hy|by apply Hne in Hx|by apply IH].
Qed.

Section roles.
Context `{SortSlice}.

(** Sorting and normalising commute, since normalising keeps the names. *)
Lemma sort_normalized roles :
  NoDup (map role_Name roles) ->
  sort_slice role_less (normalizeRolloutUpdateTypes roles) = normalizeRolloutUpdateTypes (sort_slice role_less roles).
Proof.
  intros Hnd. pose proof (strict_weak_string role_Name) as Hw. apply (sorted_by_name_unique role_Name).
  - by apply sort_slice_sorted.
  - pose proof (sort_slice_sorted role_less roles Hw) as Hs. unfold normalizeRolloutUpdateTypes.
    induction Hs as [|r l Hs IH Hr]; cbn [map]; constructor; [done|]. rewrite Forall_map.
    eapply Forall_impl; [exact Hr|]. intros x Hx. cbn beta. by rewrite !normalizeRolloutUpdateType_name.
  - rewrite sort_slice_perm. by rewrite normalizeRolloutUpdateTypes_names.
  - rewrite sort_slice_perm. unfold normalizeRolloutUpdateTypes. by rewrite sort_slice_perm.
Qed.

Lemma rolesEqual_normalized roles : NoDup (map role_Name roles) -> rolesEqual (normalizeRolloutUpdateTypes roles) roles = true.
Proof.
  intros Hnd. unfold rolesEqual. unfold normalizeRolloutUpdateTypes at 1. rewrite length_map, Nat.eqb_refl. cbn [negb].
  apply bool_decide_eq_true. rewrite sort_normalized by done. apply normalizeRolloutUpdateTypes_idem.
Qed.

Lemma rolesEqual_perm roles1 roles2 :
  NoDup (map role_Name roles1) -> roles1 ≡ₚ roles2 -> rolesEqual roles1 roles2 = true.
Proof.
  intros Hnd Hp. unfold rolesEqual. rewrite (Permutation_length Hp), Nat.eqb_refl. cbn [negb].
  apply bool_decide_eq_true. f_equal. pose proof (strict_weak_string role_Name) as Hw.
  apply (sorted_by_name_unique role_Name); [by apply sort_slice_sorted..|by rewrite sort_slice_perm|].
  by rewrite !sort_slice_perm.
Qed.

Lemma rolesEqual_perm_normalized roles1 roles2 :
  rolesEqual roles1 roles2 = true -> normalizeRolloutUpdateTypes roles1 ≡ₚ normalizeRolloutUpdateTypes roles2.
Proof.
  unfold rolesEqual. destruct (negb _); [done|]. intros He%bool_decide_eq_true.
  assert (forall l, normalizeRolloutUpdateTypes (sort_slice role_less l) ≡ₚ normalizeRolloutUpdateTypes l) as Hs.
  { intros l. unfold normalizeRolloutUpdateTypes. by rewrite sort_slice_perm. }
  by rewrite <-(Hs roles1), He, Hs.
Qed.
End roles.

(** * Labels and annotations *)

Lemma existsb_map_to_list_false (f : string * string -> bool) (m : labels) :
  existsb f (map_to_list m) = false <-> forall k v, m !! k = Some v -> f (k, v) = false.
Proof.
  split.
  - intros He k v Hk. apply not_true_iff_false in He. apply not_true_iff_false. intros Hf. apply He.
    apply existsb_exists. exists (k, v). split; [|done]. apply list_elem_of_In. by apply elem_of_map_to_list.
  - intros Hf. apply not_true_iff_false. intros ([k v] & Hin & He)%existsb_exists.
    apply list_elem_of_In, elem_of_map_to_list in Hin. by rewrite Hf in He.
Qed.

Lemma and_iff_compat (A B C D : Prop) : (A <-> C) -> (B <-> D) -> (A /\ B) <-> (C /\ D).
Proof. tauto. Qed.

Lemma needsTemplateLabelUpdate_false set g :
  needsTemplateLabelUpdate set g = false <->
  (forall k v, gt_Labels (rbgs_Template set) !! k = Some v -> label_of (om_Labels (rbg_meta g)) k = v) /\
  (forall k, is_Some (om_Labels (rbg_meta g) !! k) -> system_label k = true \/ is_Some (gt_Labels (rbgs_Template set) !! k)).
Proof.
  unfold needsTemplateLabelUpdate. rewrite orb_false_iff, !existsb_map_to_list_false. cbn [fst snd].
  apply and_iff_compat.
  - split; intros Hl k v Hk; specialize (Hl k v Hk); [by apply negb_false_iff, bool_decide_eq_true in Hl|].
    by apply negb_false_iff, bool_decide_eq_true.
  - split.
    + intros Hl k [v Hk]. specialize (Hl k v Hk). destruct (system_label k); [by left|]. right. cbn [negb andb] in Hl.
      apply bool_decide_eq_false in Hl. by apply not_eq_None_Some.
    + intros Hl k v Hk. destruct (Hl k) as [Hs|Hs]; [eauto|by rewrite Hs|]. apply andb_false_iff. right.
      apply bool_decide_eq_false. by apply not_eq_None_Some.
Qed.

Lemma needsTemplateAnnotationUpdate_false set g :
  needsTemplateAnnotationUpdate set g = false <->
  (forall k v, gt_Annotations (rbgs_Template set) !! k = Some v -> label_of (om_Annotations (rbg_meta g)) k = v) /\
  (forall k, is_Some (om_Annotations (rbg_meta g) !! k) -> is_Some (gt_Annotations (rbgs_Template set) !! k)).
Proof.
  unfold needsTemplateAnnotationUpdate. rewrite orb_false_iff, !existsb_map_to_list_false. cbn [fst snd].
  apply and_iff_compat.
  - split; intros Hl k v Hk; specialize (Hl k v Hk); [by apply negb_false_iff, bool_decide_eq_true in Hl|].
    by apply negb_false_iff, bool_decide_eq_true.
  - split.
    + intros Hl k [v Hk]. specialize (Hl k v Hk). apply bool_decide_eq_false in Hl. by apply not_eq_None_Some.
    + intros Hl k v Hk. apply bool_decide_eq_false, not_eq_None_Some. apply Hl. eauto.
Qed.

Lemma name_key_ne_index_key : GroupSetNameLabelKey ≠ GroupSetIndexLabelKey.
Proof. done. Qed.

Lemma system_labels_index set index : system_labels set index !! GroupSetIndexLabelKey = Some index.
Proof. apply lookup_insert_eq. Qed.

Lemma system_labels_name set index : system_labels set index !! GroupSetNameLabelKey = Some (rbgs_Name set).
Proof. unfold system_labels. by rewrite lookup_insert_ne, lookup_insert_eq by done. Qed.

Lemma system_labels_other set index k :
  system_label k = false -> system_labels set index !! k = gt_Labels (rbgs_Template set) !! k.
Proof.
  unfold system_label. rewrite orb_false_iff, !bool_decide_eq_false. intros [Hn Hi]. unfold system_labels.
  by rewrite !lookup_insert_ne by done.
Qed.

(** A template that leaves the system labels alone, or sets them as the system does. *)
Definition template_compatible (set : RoleBasedGroupSet) (index : string) : Prop :=
  (forall v, gt_Labels (rbgs_Template set) !! GroupSetNameLabelKey = Some v -> v = rbgs_Name set) /\
  (forall v, gt_Labels (rbgs_Template set) !! GroupSetIndexLabelKey = Some v -> v = index).

Lemma system_labels_settled set index g :
  om_Labels (rbg_meta g) = system_labels set index ->
  needsTemplateLabelUpdate set g = false <-> template_compatible set index.
Proof.
  intros Hl. rewrite needsTemplateLabelUpdate_false, Hl. unfold label_of, template_compatible. split.
  - intros [Hv _]. split; intros v Hk; specialize (Hv _ _ Hk).
    + by rewrite system_labels_name in Hv.
    + by rewrite system_labels_index in Hv.
  - intros [Hn Hi]. split.
    + intros k v Hk. destruct (system_label k) eqn:Hs; [|by rewrite system_labels_other, Hk].
      unfold system_label in Hs. apply orb_prop in Hs as [->%bool_decide_eq_true| ->%bool_decide_eq_true].
      * rewrite system_labels_name. symmetry. by apply Hn.
      * rewrite system_labels_index. symmetry. by apply Hi.
    + intros k Hk. destruct (system_label k) eqn:Hs; [by left|right]. by rewrite system_labels_other in Hk.
Qed.

Lemma annotations_settled set g :
  om_Annotations (rbg_meta g) = gt_Annotations (rbgs_Template set) -> needsTemplateAnnotationUpdate set g = false.
Proof.
  intros Ha. apply needsTemplateAnnotationUpdate_false. rewrite Ha. split; [|done].
  intros k v Hk. unfold label_of. by rewrite Hk.
Qed.

(** * An update *)

Lemma updated_index set g :
  om_Labels (rbg_meta (updated_group set g)) = system_labels set (label_of (om_Labels (rbg_meta g)) GroupSetIndexLabelKey).
Proof. done. Qed.

Lemma update_settles_iff `{SortSlice} set g :
  NoDup (map role_Name (gt_Roles (rbgs_Template set))) ->
  needsUpdate set (updated_group set g) = false <->
  template_compatible set (label_of (om_Labels (rbg_meta g)) GroupSetIndexLabelKey).
Proof.
  intros Hnd. unfold needsUpdate. rewrite !orb_false_iff, (system_labels_settled _ _ _ (updated_index set g)).
  rewrite annotations_settled by done. rewrite negb_false_iff. cbn [rbg_Roles updated_group rbg_with_meta rbg_with_roles].
  unfold normalizedGroupTemplateRoles. rewrite rolesEqual_normalized by done. tauto.
Qed.

(** After an update a group needs no other exactly when the template does not set a
    system label to something else. *)
Theorem update_settles `{SortSlice} set g :
  NoDup (map role_Name (gt_Roles (rbgs_Template set))) ->
  needsUpdate set (updated_group set g) = false <->
  template_compatible set (label_of (om_Labels (rbg_meta g)) GroupSetIndexLabelKey).
Proof. apply update_settles_iff. Qed.

(** A group made for a number carries it, reads it back, belongs to the set and is up
    to date. *)
Lemma newRBGForSet_spec `{SortSlice} set i :
  0 <= i <= int64_max ->
  om_Labels (rbg_meta (newRBGForSet set i)) !! GroupSetIndexLabelKey = Some (Itoa i) /\ Atoi (Itoa i) = Ok i /\
  isOwnedOrAdoptable set (newRBGForSet set i) = true /\
  (NoDup (map role_Name (gt_Roles (rbgs_Template set))) -> template_compatible set (Itoa i) ->
   needsUpdate set (newRBGForSet set i) = false).
Proof.
  intros Hi. split; [apply system_labels_index|]. split.
  { apply ParseInt_Itoa; unfold_int; lia. }
  split.
  - unfold isOwnedOrAdoptable. cbn [GetControllerOf om_OwnerReferences List.find]. unfold label_of.
    change (om_Labels (rbg_meta (newRBGForSet set i))) with (system_labels set (Itoa i)).
    rewrite system_labels_name. by apply bool_decide_eq_true.
  - intros Hnd Hc. unfold needsUpdate. rewrite !orb_false_iff. split; [split|].
    + apply negb_false_iff. by apply rolesEqual_normalized.
    + by apply (system_labels_settled set (Itoa i)).
    + by apply annotations_settled.
Qed.

(** * A set to run on *)
Module SetDemo.
Definition ru : RollingUpdate := with_Type LegacyRecreateUpdateStrategyType empty_RollingUpdate.
Definition role (name : string) : RoleSpec := {|
  role_Name := name; role_Labels := ∅; role_Annotations := ∅; role_Replicas := Some 1; role_RollingUpdate := Some ru;
  role_Dependencies := []; role_Pattern := standalone no_template; role_ScalingAdapter := None;
  role_MinReadySeconds := 0; role_rest := no_rest |}.
Definition meta (name uid : string) (l : labels) : ObjectMeta :=
  {| om_Name := name; om_GenerateName := ""; om_Namespace := "default"; om_UID := uid; om_ResourceVersion := "1";
     om_Generation := 1; om_CreationTimestamp := None; om_DeletionTimestamp := None; om_Labels := l;
     om_Annotations := ∅; om_OwnerReferences := []; om_Finalizers := [] |}.
(** Two roles in the old spelling of the update type. *)
Definition web (replicas : Z) : RoleBasedGroupSet := {|
  rbgs_meta := meta "web" "uid-web" ∅; rbgs_Replicas := Some replicas;
  rbgs_Template := {| gt_Labels := {["app"%string := "web"%string]}; gt_Annotations := ∅;
                      gt_Roles := [role "router"; role "worker"]; gt_RoleTemplates := [] |};
  rbgs_status := {| gss_ObservedGeneration := 0; gss_Replicas := 0; gss_ReadyReplicas := 0; gss_Conditions := [] |} |}.
Definition orphan (i : Z) : RoleBasedGroup := {|
  rbg_meta := meta ("web-" +:+ Itoa i) ("uid-" +:+ Itoa i)
    (<[GroupSetIndexLabelKey := Itoa i]> {[GroupSetNameLabelKey := "web"%string]});
  rbg_Roles := [role "worker"]; rbg_RoleTemplates := []; rbg_ObservedGeneration := 0; rbg_Conditions := [];
  rbg_RoleStatuses := [] |}.
End SetDemo.

Lemma web_roles n : NoDup (map role_Name (gt_Roles (rbgs_Template (SetDemo.web n)))).
Proof.
  cbn. apply NoDup_cons. split; [by intros ?%list_elem_of_singleton|]. apply NoDup_cons. split; [apply not_elem_of_nil|].
  apply NoDup_nil_2.
Qed.

Lemma web_compatible n index : template_compatible (SetDemo.web n) index.
Proof. split; intros v Hv; by vm_compute in Hv. Qed.

Lemma update_settles_witness :
  needsUpdate (SetDemo.web 2) (updated_group (SetDemo.web 2) (SetDemo.orphan 0)) = false.
Proof. apply (update_settles (SetDemo.web 2) (SetDemo.orphan 0) (web_roles 2)), web_compatible. Defined.
