(* ===== verification/GroupSetPass.v ===== *)
(** What a reconcile of a RoleBasedGroupSet does (GroupSet.v): the groups it touches,
    whatever the API server answers; and against a server that does what it is asked,
    keeping the groups by name while nobody else writes, one reconcile makes the groups
    what the set describes and the next one writes none. *)
From Stdlib Require Import ZArith Lia Bool Ascii String.
From stdpp Require Import base tactics list strings gmap sets numbers fin_maps.
From S2P Require Import Prelude GoStrings Types Conditions GroupTypes Effects Revisions Owners Requests GroupSet.
From S2P Require Import GroupSetTemplate.

(** The number of a group, when its label has one. *)
Definition number (g : RoleBasedGroup) : option Z :=
  match om_Labels (rbg_meta g) !! GroupSetIndexLabelKey with
  | Some s => match Atoi s with Ok i => Some i | Err _ => None end
  | None => None
  end.

(** * What a reconcile asks for *)

Section pass.
Context `{SortSlice} {ENV : SetEnv} (set : RoleBasedGroupSet) (items : list RoleBasedGroup).

Definition listed_own (x : RoleBasedGroup) : Prop := x ∈ items /\ isOwnedOrAdoptable set x = true.

(** [x] is an orphan that the set adopts as [adopted]. *)
Definition adoption (x adopted : RoleBasedGroup) : Prop :=
  listed_own x /\ GetControllerOf (rbg_meta x) = None /\ controlled set x = Ok adopted.

(** [g] is the listed group of number [i], or what the server stored when it was adopted. *)
Definition numbered_group (i : Z) (g : RoleBasedGroup) : Prop :=
  exists x, listed_own x /\ number x = Some i /\
    (g = x \/ exists adopted t, adoption x adopted /\ se_update_group t adopted = Ok g).

Definition read_call (c : set_call) : Prop :=
  match c with CallGetSet _ _ | CallListGroups _ _ | CallGetGroup _ _ => True | _ => False end.

Definition pass_call (c : set_call) : Prop :=
  match c with
  | CallCreateGroup g => exists desired i, rbgs_Replicas set = Some desired /\ 0 <= i < desired /\
      controlled set (newRBGForSet set i) = Ok g /\
      (forall x, listed_own x -> number x = Some i -> GetControllerOf (rbg_meta x) = None)
  | CallUpdateGroup g => (exists x, adoption x g) \/ (exists latest, g = updated_group set latest)
  | CallDeleteGroup g =>
      listed_own g /\ number g = None \/
      (exists desired i, rbgs_Replicas set = Some desired /\ desired <= i /\ numbered_group i g)
  | CallUpdateSetStatus s => exists st latest, s = rbgs_with_status st latest
  | _ => True
  end.

Lemma read_pass c : read_call c -> pass_call c.
Proof. by destruct c. Qed.

(** What [classify] has found so far. *)
Definition classified (seen : RoleBasedGroup -> Prop) (existing : gmap Z RoleBasedGroup) (bad : list RoleBasedGroup) : Prop :=
  (forall i g, existing !! i = Some g -> numbered_group i g) /\
  (forall g, g ∈ bad -> listed_own g /\ number g = None) /\
  (forall x i, seen x -> listed_own x -> number x = Some i -> GetControllerOf (rbg_meta x) <> None -> is_Some (existing !! i)).

Lemma classify_spec l existing bad w r w' (seen : RoleBasedGroup -> Prop) :
  (forall x, x ∈ l -> x ∈ items) -> classified seen existing bad ->
  classify set l existing bad w = (r, w') ->
  only w_trace pass_call w w' /\
  match r with Ok (existing', bad') => classified (fun x => seen x \/ x ∈ l) existing' bad' | Err _ => True end.
Proof.
  revert existing bad w seen. induction l as [|g l IH]; intros existing bad w seen Hl Hc; cbn [classify].
  - intros [-> ->]%ret_inv. split; [apply only_refl|]. destruct Hc as (He & Hb & Hs). split; [done|]. split; [done|].
    intros x i [Hx|Hx%elem_of_nil] Hown Hi Hctl; [|done]. by eapply Hs.
  - assert (g ∈ items) as Hg by (apply Hl; by left).
    assert (forall x, x ∈ l -> x ∈ items) as Hl' by (intros x Hx; apply Hl; by right).
    (* the recursive call, once the head is accounted for *)
    assert (forall existing' bad' w1, classified (fun x => seen x \/ x = g) existing' bad' ->
      classify set l existing' bad' w1 = (r, w') ->
      only w_trace pass_call w1 w' /\
      match r with Ok (e', b') => classified (fun x => seen x \/ x ∈ g :: l) e' b' | Err _ => True end) as Hrec.
    { intros ex' b' w1 Hc' Hr. destruct (IH _ _ _ _ Hl' Hc' Hr) as [Ho Hres]. split; [done|].
      destruct r as [[e1 b1]|]; [|done]. destruct Hres as (? & ? & Hs). split; [done|]. split; [done|].
      intros x i Hx. apply Hs. rewrite elem_of_cons in Hx. tauto. }
    clear IH. destruct Hc as (He & Hb & Hs).
    destruct (isOwnedOrAdoptable set g) eqn:Hown; cbn [negb].
    2: { apply Hrec. split; [done|]. split; [done|]. intros x i [Hx| ->]; [by apply Hs|]. intros [_ Ho]. congruence. }
    assert (listed_own g) as Hlo by done.
    assert (number g = None -> classified (fun x => seen x \/ x = g) existing (bad ++ [g])) as Hbad.
    { intros Hn. split; [done|]. split; [by intros x [Hx| ->]%elem_of_snoc; [apply Hb|]|].
      intros x i [Hx| ->] Hx' Hi; [by eapply Hs|]. congruence. }
    assert (forall i g', numbered_group i g' -> number g = Some i ->
      classified (fun x => seen x \/ x = g) (<[i := g']> existing) bad) as Hnum.
    { intros i g' Hg' Hi. split; [|split; [done|]].
      - intros j x [[<- <-]|[_ Hx]]%lookup_insert_Some; [done|by apply He].
      - intros x j Hx Hx' Hj Hctl. destruct (decide (j = i)) as [->|Hne]; [by rewrite lookup_insert_eq|].
        rewrite lookup_insert_ne by done. destruct Hx as [Hx| ->]; [by eapply Hs|]. congruence. }
    unfold number in Hbad, Hnum.
    destruct (om_Labels (rbg_meta g) !! GroupSetIndexLabelKey) as [s|] eqn:Hlab; [|by apply Hrec, Hbad].
    destruct (Atoi s) as [index|e] eqn:Hat; [|by apply Hrec, Hbad].
    assert (number g = Some index) as Hgi by (unfold number; by rewrite Hlab, Hat).
    destruct (GetControllerOf (rbg_meta g)) as [ref|] eqn:Hctl.
    { apply Hrec, Hnum; [|done]. exists g. auto. }
    destruct (controlled set g) as [adopted|e] eqn:Had; [|intros [= <- <-]; split; [apply only_refl|done]].
    assert (adoption g adopted) as Ha by done.
    intros [(e & Hx & ->)|(x & w1 & Hx & Hr)]%bind_inv; unfold outcome in Hx;
      apply attempt_inv in Hx as (y & w2 & Hu & [Hy ->]%ret_inv); [done|]. injection Hy as ->.
    pose proof (request_eq _ _ _ _ _ Hu) as [Hans _].
    assert (only w_trace pass_call w w2) as Ho.
    { eapply (calls_ask pass_call); [|exact Hu]. left. by exists g. }
    assert (only w_trace pass_call w2 w' /\
      match r with Ok (e', b') => classified (fun x => seen x \/ x ∈ g :: l) e' b' | Err _ => True end) as [Ho' Hres].
    { destruct y as [stored|e].
      - eapply Hrec; [|exact Hr]. apply Hnum; [|done]. exists g. split; [done|]. split; [done|]. right. eauto.
      - destruct (IsNotFound e); [|injection Hr as <- <-; split; [apply only_refl|done]].
        eapply Hrec; [|exact Hr]. split; [done|]. split; [done|]. intros x i [Hx| ->]; [by apply Hs|]. congruence. }
    split; [by eapply only_trans|done].
Qed.

#[local] Hint Extern 1 (calls _ _ (request _ _)) => (apply calls_ask; cbn; eauto) : calls.
#[local] Hint Extern 2 (calls _ _ _) =>
  (progress unfold GetSet, ListGroups, GetGroup, CreateGroup, UpdateGroup, DeleteGroup, UpdateSetStatus;
   apply calls_ask; cbn; eauto) : calls.

Lemma calls_updateStatus l : calls w_trace pass_call (updateStatus set l).
Proof.
  unfold updateStatus. destruct (rbgs_Replicas set); [|apply calls_fail]. apply calls_bind; [apply calls_clock|intros now].
  case_bool_decide; [apply calls_ret|]. calling.
Qed.

Lemma calls_reconcile_groups desired existing bad :
  rbgs_Replicas set = Some desired -> classified (fun x => x ∈ items) existing bad ->
  calls w_trace pass_call (reconcile_groups set desired existing bad).
Proof.
  intros Hd (He & Hb & Hs). unfold reconcile_groups. apply calls_bind; [|intros _; apply calls_bind; [|intros _]].
  - assert (calls w_trace pass_call (scaleDown (bad ++ beyond desired (se_range 0 existing)))) as Hc.
    { unfold scaleDown. apply calls_bind; [|intros; apply calls_fail_all]. apply calls_collect. intros g Hg.
      unfold delete_one. apply calls_bind; [|intros; apply calls_ret]. apply calls_outcome, calls_ask. cbn [pass_call].
      apply elem_of_app in Hg as [Hg|Hg]; [left; by apply Hb|right]. unfold beyond in Hg.
      apply list_elem_of_fmap in Hg as ([i x] & -> & Hi). apply list_elem_of_In, filter_In in Hi as [Hi Hge%Z.leb_le].
      apply list_elem_of_In in Hi. rewrite se_range_perm in Hi. apply elem_of_map_to_list in Hi. eauto 6. }
    by destruct (bad ++ _); [apply calls_ret|].
  - destruct (to_update _ _ _) as [|u us]; [apply calls_ret|]. unfold updateExistingRBGs.
    apply calls_bind; [|intros; apply calls_fail_all]. apply calls_collect. intros g _. unfold update_one.
    apply calls_bind; [|intros; apply calls_ret]. apply calls_outcome, calls_RetryOnConflict.
    apply calls_bind; [by apply calls_ask|]. intros latest. apply calls_ask. right. by exists latest.
  - assert (calls w_trace pass_call (scaleUp set (map (newRBGForSet set) (missing_indices desired existing)))) as Hc.
    { unfold scaleUp. apply calls_bind; [|intros; apply calls_fail_all]. apply calls_collect. intros g Hg.
      apply list_elem_of_fmap in Hg as (i & -> & Hi). apply list_elem_of_In, filter_In in Hi as [Hi Hn].
      apply list_elem_of_In, elem_of_seqZ in Hi. apply bool_decide_eq_true in Hn.
      unfold create_one. destruct (controlled set (newRBGForSet set i)) as [owned|e] eqn:Ho; [|apply calls_ret].
      apply calls_bind; [by apply calls_outcome, calls_ask|]. intros [got|e]; [apply calls_ret|].
      apply calls_bind; [|intros; apply calls_ret]. apply calls_outcome, calls_ask.
      exists desired, i. split; [done|]. split; [lia|]. split; [done|].
      intros x Hx Hxi. destruct (GetControllerOf (rbg_meta x)) eqn:Hctl; [|done]. exfalso.
      destruct (Hs x i) as [y Hy]; [by destruct Hx|done|done|by rewrite Hctl|]. congruence. }
    by destruct (map _ _); [apply calls_ret|].
Qed.
End pass.

Lemma calls_reconcile_set `{SortSlice} {ENV : SetEnv} set items w r w' :
  se_list_groups (w_trace w) (rbgs_Namespace set) (rbgs_Name set) = Ok items ->
  reconcile_set set w = (r, w') -> only w_trace (pass_call set items) w w'.
Proof.
  intros Hl. unfold reconcile_set. intros [(e & Hx & ->)|(x & w1 & Hx & Hr)]%bind_inv;
    pose proof (request_eq _ _ _ _ _ Hx) as [Hans _]; rewrite Hl in Hans; [done|]. injection Hans as ->.
  eapply only_trans; [by eapply calls_ask; [|exact Hx]|].
  assert (classified set items (fun _ => False) ∅ []) as Hc.
  { split; [done|]. split; [by intros ? ?%elem_of_nil|done]. }
  apply bind_inv in Hr as [(e & He & ->)|([existing bad] & w2 & He & Hr)];
    apply (classify_spec set items) with (seen := fun _ => False) in He as [Ho Hres]; try done.
  eapply only_trans; [exact Ho|]. destruct (rbgs_Replicas set) as [desired|] eqn:Hd.
  2: { injection Hr as <- <-. apply only_refl. }
  revert Hr. apply calls_bind; [|intros _; apply calls_bind; [by apply calls_ask|intros; apply calls_updateStatus]].
  apply calls_reconcile_groups; [done|]. destruct Hres as (? & ? & Hs). split; [done|]. split; [done|].
  intros y i Hy. apply Hs. by right.
Qed.

(** C23: A reconcile touches only what is the set's: it deletes listed groups that it owns
    and that have no number or one beyond the replicas, adopts listed orphans, writes
    template over the groups it updates, and creates a group for a number only when
    it controls none of that number. *)
Theorem Reconcile_touches_own `{SortSlice} {ENV : SetEnv} ns name set items w r w' :
  se_get_set (w_trace w) ns name = Ok set ->
  se_list_groups (CallGetSet ns name :: w_trace w) (rbgs_Namespace set) (rbgs_Name set) = Ok items ->
  Reconcile ns name w = (r, w') -> only w_trace (pass_call set items) w w'.
Proof.
  intros Hget Hlist. unfold Reconcile. intros [(e & Hx & ->)|(x & w1 & Hx & Hr)]%bind_inv; unfold outcome in Hx;
    apply attempt_inv in Hx as (y & w2 & Hg & [Hy ->]%ret_inv); [done|]. injection Hy as ->.
  pose proof (request_eq _ _ _ _ _ Hg) as [-> Ht]. rewrite Hget in *.
  eapply only_trans; [by eapply calls_ask; [|exact Hg]|].
  case_bool_decide; [injection Hr as <- <-; apply only_refl|]. eapply calls_reconcile_set; [|exact Hr].
  by rewrite Ht.
Qed.

(** * At rest *)

Section settled.
Context `{SortSlice} {ENV : SetEnv} (set : RoleBasedGroupSet) (desired : Z) (items : list RoleBasedGroup).

(** Every own group is controlled, numbered below the replicas and up to date, and
    every number is taken. *)
Definition settled : Prop :=
  (forall g, listed_own set items g -> GetControllerOf (rbg_meta g) <> None /\ needsUpdate set g = false /\
     exists i, number g = Some i /\ 0 <= i < desired) /\
  (forall i, 0 <= i < desired -> exists g, listed_own set items g /\ number g = Some i).

Lemma classify_settled l existing w :
  settled -> (forall x, x ∈ l -> x ∈ items) ->
  exists existing', classify set l existing [] w = (Ok (existing', []), w) /\
    (forall i g, existing' !! i = Some g -> existing !! i = Some g \/ (listed_own set items g /\ number g = Some i)) /\
    (forall i, is_Some (existing !! i) -> is_Some (existing' !! i)) /\
    (forall x i, x ∈ l -> listed_own set items x -> number x = Some i -> is_Some (existing' !! i)).
Proof.
  intros [Hset _]. revert existing. induction l as [|g l IH]; intros existing Hl; cbn [classify].
  { exists existing. split; [done|]. split; [auto|]. split; [done|]. by intros x i ?%elem_of_nil. }
  destruct (isOwnedOrAdoptable set g) eqn:Hown; cbn [negb].
  2: { destruct (IH existing) as (ex' & Hc & H1 & H2 & H3); [intros; apply Hl; by right|]. exists ex'.
       split; [done|]. split; [done|]. split; [done|]. intros x i [->|Hx]%elem_of_cons; [|by apply H3].
       intros [_ Ho]. congruence. }
  assert (listed_own set items g) as Hlo by (split; [apply Hl; by left|done]).
  destruct (Hset g Hlo) as (Hctl & _ & i & Hi & Hr). pose proof Hi as Hi'. unfold number in Hi'.
  destruct (om_Labels (rbg_meta g) !! GroupSetIndexLabelKey) as [s|]; [|done]. destruct (Atoi s) as [j|]; [|done].
  injection Hi' as ->. destruct (GetControllerOf (rbg_meta g)); [|done].
  destruct (IH (<[i := g]> existing)) as (ex' & Hc & H1 & H2 & H3); [intros; apply Hl; by right|]. exists ex'.
  split; [done|]. split; [|split].
  - intros k x Hk. apply H1 in Hk as [[[<- <-]|[_ Hk]]%lookup_insert_Some|Hk]; auto.
  - intros k Hk. apply H2. destruct (decide (k = i)) as [->|]; [by rewrite lookup_insert_eq|by rewrite lookup_insert_ne].
  - intros x k [->|Hx]%elem_of_cons; [|by apply H3]. intros _ Hk. apply H2. assert (k = i) as -> by congruence.
    by rewrite lookup_insert_eq.
Qed.

Lemma reconcile_groups_settled existing w :
  settled -> (forall i g, existing !! i = Some g -> listed_own set items g /\ number g = Some i) ->
  (forall i, 0 <= i < desired -> is_Some (existing !! i)) ->
  reconcile_groups set desired existing [] w = (Ok tt, w).
Proof.
  intros [Hset _] He Hall. unfold reconcile_groups. cbn [app].
  assert (forall n i g, (i, g) ∈ se_range n existing -> listed_own set items g /\ number g = Some i) as Hrange.
  { intros n i g Hin. rewrite se_range_perm in Hin. apply elem_of_map_to_list in Hin. by apply He. }
  assert (beyond desired (se_range 0 existing) = []) as ->.
  { unfold beyond. destruct (List.filter _ _) as [|[i g] l] eqn:E; [done|]. exfalso.
    assert (In (i, g) (List.filter (fun ig : Z * RoleBasedGroup => desired <=? ig.1) (se_range 0 existing))) as Hin
      by (rewrite E; by left).
    apply filter_In in Hin as [Hin Hge%Z.leb_le]. apply list_elem_of_In, Hrange in Hin as [Hlo Hi]. cbn [fst] in Hge.
    destruct (Hset g Hlo) as (_ & _ & j & Hj & Hr). assert (j = i) as -> by congruence. lia. }
  assert (to_update set [] (se_range 1 existing) = []) as ->.
  { unfold to_update. destruct (List.filter _ _) as [|g l] eqn:E; [done|]. exfalso.
    assert (In g (List.filter (fun g => negb (existsb (fun d => bool_decide (rbg_Name d = rbg_Name g)) []) && needsUpdate set g)
      (map snd (se_range 1 existing)))) as Hin by (rewrite E; by left).
    apply filter_In in Hin as [Hin [_ Hn]%andb_prop]. apply list_elem_of_In, list_elem_of_fmap in Hin as ([i x] & -> & Hin).
    apply Hrange in Hin as [Hlo _]. destruct (Hset x Hlo) as (_ & Hx & _). cbn [snd] in Hn. congruence. }
  assert (missing_indices desired existing = []) as ->; [|done].
  unfold missing_indices. destruct (List.filter _ _) as [|i l] eqn:E; [done|]. exfalso.
  assert (In i (List.filter (fun i => bool_decide (existing !! i = None)) (seqZ 0 desired))) as Hin by (rewrite E; by left).
  apply filter_In in Hin as [Hin Hn%bool_decide_eq_true]. apply list_elem_of_In, elem_of_seqZ in Hin.
  destruct (Hall i) as [? ?]; [lia|]. congruence.
Qed.
End settled.

Definition writes_group (c : set_call) : bool :=
  match c with CallCreateGroup _ | CallUpdateGroup _ | CallDeleteGroup _ => true | _ => false end.

Lemma settled_set_writes_nothing `{SortSlice} {ENV : SetEnv} ns name set desired items w r w' :
  se_get_set (w_trace w) ns name = Ok set -> rbgs_Replicas set = Some desired ->
  se_list_groups (CallGetSet ns name :: w_trace w) (rbgs_Namespace set) (rbgs_Name set) = Ok items ->
  settled set desired items ->
  Reconcile ns name w = (r, w') -> only w_trace (fun c => writes_group c = false) w w'.
Proof.
  intros Hget Hd Hlist Hset. unfold Reconcile. intros [(e & Hx & ->)|(x & w1 & Hx & Hr)]%bind_inv; unfold outcome in Hx;
    apply attempt_inv in Hx as (y & w2 & Hg & [Hy ->]%ret_inv); [done|]. injection Hy as ->.
  pose proof (request_eq _ _ _ _ _ Hg) as [-> Ht]. rewrite Hget in *.
  eapply only_trans; [by eapply calls_ask; [|exact Hg]|].
  case_bool_decide; [injection Hr as <- <-; apply only_refl|]. unfold reconcile_set in Hr.
  apply bind_inv in Hr as [(e & Hx & ->)|(l & w3 & Hx & Hr)];
    pose proof (request_eq _ _ _ _ _ Hx) as [Hans _]; rewrite Ht, Hlist in Hans; [done|]. injection Hans as ->.
  eapply only_trans; [by eapply calls_ask; [|exact Hx]|].
  destruct (classify_settled set desired items items ∅ w3) as (existing & Hc & H1 & _ & H3); [done..|].
  rewrite (bind_ok _ _ _ _ _ Hc) in Hr. rewrite Hd in Hr. rewrite (bind_ok _ _ _ tt w3) in Hr.
  - revert Hr. apply calls_bind; [by apply calls_ask|]. intros items'. unfold updateStatus. rewrite Hd.
    apply calls_bind; [apply calls_clock|intros now]. case_bool_decide; [apply calls_ret|].
    apply calls_RetryOnConflict, calls_bind; [by apply calls_ask|]. intros. by apply calls_ask.
  - eapply reconcile_groups_settled; [exact Hset| |].
    + intros i g Hi. apply H1 in Hi as [Hi|Hi]; [by rewrite lookup_empty in Hi|done].
    + intros i Hi. destruct Hset as [Hown Hall]. destruct (Hall i Hi) as (g & Hg' & Hn). apply (H3 g); [by destruct Hg'|done..].
Qed.

(** A settled set is left alone: a reconcile creates, updates and deletes no group,
    whatever else the server answers. *)
Theorem settled_set_left_alone `{SortSlice} {ENV : SetEnv} ns name set desired items w r w' :
  se_get_set (w_trace w) ns name = Ok set -> rbgs_Replicas set = Some desired ->
  se_list_groups (CallGetSet ns name :: w_trace w) (rbgs_Namespace set) (rbgs_Name set) = Ok items ->
  settled set desired items ->
  Reconcile ns name w = (r, w') -> only w_trace (fun c => writes_group c = false) w w'.
Proof. apply settled_set_writes_nothing. Qed.

(** * Concrete runs *)
Module PassDemo.
Import SetDemo.

(** A server that shows the given groups and accepts everything. *)
Definition env (n : Z) (items : list RoleBasedGroup) : SetEnv := {|
  se_clock := fun _ => 0;
  se_get_set := fun _ _ _ => Ok (web n);
  se_list_groups := fun _ _ _ => Ok items;
  se_get_group := fun _ _ _ => Err NotFoundError;
  se_create_group := fun _ g => Ok g;
  se_update_group := fun _ g => Ok g;
  se_delete_group := fun _ _ => Ok tt;
  se_update_set_status := fun _ _ => Ok tt;
  se_range := fun _ m => map_to_list m;
  se_range_perm := fun _ m => reflexivity (map_to_list m) |}.

Definition up_to_date (i : Z) : RoleBasedGroup :=
  let g := newRBGForSet (web 1) i in
  rbg_with_meta (with_owners [NewControllerRef GroupAPIVersion SetKind (rbgs_meta (web 1))] (rbg_meta g)) g.
End PassDemo.

Lemma Reconcile_touches_own_witness :
  let env := PassDemo.env 1 [SetDemo.orphan 0; SetDemo.orphan 5] in
  only w_trace (pass_call (SetDemo.web 1) [SetDemo.orphan 0; SetDemo.orphan 5]) start
    (Reconcile (ENV := env) "default" "web" start).2.
Proof.
  intros env. apply (Reconcile_touches_own (ENV := env) "default" "web" (SetDemo.web 1)
    [SetDemo.orphan 0; SetDemo.orphan 5] start (Reconcile (ENV := env) "default" "web" start).1); [reflexivity|reflexivity|].
  apply surjective_pairing.
Defined.

Lemma up_to_date_settled : settled (SetDemo.web 1) 1 [PassDemo.up_to_date 0].
Proof.
  assert (number (PassDemo.up_to_date 0) = Some 0) as Hn by by vm_compute. split.
  - intros g [->%list_elem_of_singleton _]. split; [done|]. split; [|exists 0; split; [done|lia]].
    change (needsUpdate (SetDemo.web 1) (newRBGForSet (SetDemo.web 1) 0) = false).
    apply (newRBGForSet_spec (SetDemo.web 1) 0); [by unfold_int|apply web_roles|apply web_compatible].
  - intros i Hi. assert (i = 0) as -> by lia. exists (PassDemo.up_to_date 0). split; [|done].
    split; [by apply list_elem_of_singleton|by vm_compute].
Qed.

Lemma settled_set_left_alone_witness :
  let env := PassDemo.env 1 [PassDemo.up_to_date 0] in
  only w_trace (fun c => writes_group c = false) start (Reconcile (ENV := env) "default" "web" start).2.
Proof.
  intros env. apply (settled_set_left_alone (ENV := env) "default" "web" (SetDemo.web 1) 1 [PassDemo.up_to_date 0] start
    (Reconcile (ENV := env) "default" "web" start).1); [reflexivity|reflexivity|reflexivity|apply up_to_date_settled|].
  apply surjective_pairing.
Defined.

(** * The server *)

Record store := { st_set : RoleBasedGroupSet; st_groups : gmap string RoleBasedGroup }.

Definition with_groups (m : gmap string RoleBasedGroup) (s : store) : store := {| st_set := st_set s; st_groups := m |}.

(** What a request changes; a creation of what is there, and an update of what is not,
    change nothing. *)
Definition step (c : set_call) (s : store) : store :=
  match c with
  | CallCreateGroup g =>
      match st_groups s !! rbg_Name g with Some _ => s | None => with_groups (<[rbg_Name g := g]> (st_groups s)) s end
  | CallUpdateGroup g =>
      match st_groups s !! rbg_Name g with Some _ => with_groups (<[rbg_Name g := g]> (st_groups s)) s | None => s end
  | CallDeleteGroup g => with_groups (delete (rbg_Name g) (st_groups s)) s
  | CallUpdateSetStatus new => {| st_set := rbgs_with_status (rbgs_status new) (st_set s); st_groups := st_groups s |}
  | _ => s
  end.

Definition store_after (init : store) (t : list set_call) : store := foldr step init t.

Definition carries_set_label (set : string) (g : RoleBasedGroup) : bool :=
  bool_decide (om_Labels (rbg_meta g) !! GroupSetNameLabelKey = Some set).

Definition listing (set : string) (m : gmap string RoleBasedGroup) : list RoleBasedGroup :=
  List.filter (carries_set_label set) (map snd (map_to_list m)).

Definition when {A} (b : bool) (a : A) (e : error) : result A := if b then Ok a else Err e.

Definition server (clock : nat -> Z) (init : store) : SetEnv := {|
  se_clock := clock;
  se_get_set := fun t _ _ => Ok (st_set (store_after init t));
  se_list_groups := fun t _ set => Ok (listing set (st_groups (store_after init t)));
  se_get_group := fun t _ name =>
    match st_groups (store_after init t) !! name with Some g => Ok g | None => Err NotFoundError end;
  se_create_group := fun t g =>
    match st_groups (store_after init t) !! rbg_Name g with Some _ => Err AlreadyExistsError | None => Ok g end;
  se_update_group := fun t g =>
    match st_groups (store_after init t) !! rbg_Name g with Some _ => Ok g | None => Err NotFoundError end;
  se_delete_group := fun t g =>
    match st_groups (store_after init t) !! rbg_Name g with Some _ => Ok tt | None => Err NotFoundError end;
  se_update_set_status := fun _ _ => Ok tt;
  se_range := fun _ m => map_to_list m;
  se_range_perm := fun _ m => reflexivity (map_to_list m) |}.

Lemma elem_of_listing set (m : gmap string RoleBasedGroup) g :
  g ∈ listing set m <-> (exists name, m !! name = Some g) /\ carries_set_label set g = true.
Proof.
  unfold listing. rewrite list_elem_of_In, filter_In, <-list_elem_of_In, list_elem_of_fmap. apply and_iff_compat; [|done].
  split.
  - intros ([name x] & -> & Hin). apply elem_of_map_to_list in Hin. eauto.
  - intros [name Hn]. exists (name, g). split; [done|]. by apply elem_of_map_to_list.
Qed.

(** * A reconcile against it *)

Section run.
Context `{SortSlice} (clock : nat -> Z) (init : store).
Abbreviation set := (st_set init).
Abbreviation ns := (rbgs_Namespace set).

#[local] Instance the_server : SetEnv := server clock init.

Definition now_store (w : world set_call) : store := store_after init (w_trace w).
Abbreviation groups w := (st_groups (now_store w)).

Lemma set_up_to_status t : exists st, st_set (store_after init t) = rbgs_with_status st set.
Proof.
  induction t as [|c t [st IH]]; [exists (rbgs_status set); by destruct init as [[] ?]|].
  cbn [store_after foldr]. fold (store_after init t). destruct c; cbn [step]; eauto.
  - destruct (_ !! _); eauto.
  - destruct (_ !! _); eauto.
  - cbn [st_set]. rewrite IH. by eexists.
Qed.

(** A stage that succeeds and leaves the set alone but for its status. *)
Definition stage {A} (m : M A) (w : world set_call) (a : A) (post : gmap string RoleBasedGroup -> Prop) : Prop :=
  exists w', m w = (Ok a, w') /\ post (groups w').

Lemma stage_bind {A B} (m : M A) (f : A -> M B) w a post b post' :
  stage m w a post -> (forall w', post (groups w') -> stage (f a) w' b post') -> stage (m ≫= f) w b post'.
Proof.
  intros (w1 & Hm & Hp) Hf. destruct (Hf w1 Hp) as (w2 & Hw2 & Hp2). exists w2. split; [|done].
  by rewrite (bind_ok _ _ _ _ _ Hm).
Qed.

Lemma stage_conseq {A} (m : M A) w a (post post' : gmap string RoleBasedGroup -> Prop) :
  stage m w a post -> (forall s, post s -> post' s) -> stage m w a post'.
Proof. intros (w' & Hm & Hp) Hpost. exists w'. eauto. Qed.

(** [post] with the groups under the given names replaced. *)
Definition updates (before after : gmap string RoleBasedGroup) (names : list string)
    (new : string -> option RoleBasedGroup) : Prop :=
  forall name, after !! name = if bool_decide (name ∈ names) then new name else before !! name.

Definition no_errors (errs : list error) : Prop := errs = [].

(** ** Deleting *)

Lemma delete_one_run g w :
  stage (delete_one g) w None (fun s => updates (groups w) s [rbg_Name g] (fun _ => None)).
Proof.
  exists {| w_trace := CallDeleteGroup g :: w_trace w; w_clock := w_clock w |}. split.
  - unfold delete_one, outcome, DeleteGroup, attempt, request, mbind, ST_bind.
    cbn [se_delete_group the_server server]. by destruct (_ !! _).
  - intros name. cbn [now_store store_after w_trace foldr step st_groups with_groups].
    destruct (decide (name = rbg_Name g)) as [->|Hne].
    + rewrite bool_decide_eq_true_2 by (by left). apply lookup_delete_eq.
    + rewrite bool_decide_eq_false_2 by (by intros ->%list_elem_of_singleton). by apply lookup_delete_ne.
Qed.

Lemma collect_delete_run l w :
  stage (collect delete_one l) w [] (fun s => updates (groups w) s (map rbg_Name l) (fun _ => None)).
Proof.
  revert w. induction l as [|g l IH]; intros w; cbn [collect].
  { exists w. split; [done|]. intros name. by rewrite bool_decide_eq_false_2 by apply not_elem_of_nil. }
  eapply stage_bind; [apply delete_one_run|]. intros w1 H1. eapply stage_bind; [apply IH|]. intros w2 H2.
  exists w2. split; [done|]. intros name. rewrite H2, H1. cbn [map].
  destruct (bool_decide_reflect (name ∈ map rbg_Name l)) as [Hl|Hl].
  - by rewrite bool_decide_eq_true_2 by (by right).
  - destruct (bool_decide_reflect (name ∈ [rbg_Name g])) as [Hg%list_elem_of_singleton|Hg].
    + subst. by rewrite bool_decide_eq_true_2 by (by left).
    + rewrite bool_decide_eq_false_2; [done|]. rewrite elem_of_cons. rewrite list_elem_of_singleton in Hg. tauto.
Qed.

Lemma fail_all_run w : stage (fail_all []) w tt (eq (groups w)).
Proof. by exists w. Qed.

(** ** Updating *)

Lemma update_one_run g w latest :
  groups w !! rbg_Name g = Some latest -> rbg_Name latest = rbg_Name g ->
  stage (update_one set g) w None (fun s => updates (groups w) s [rbg_Name g] (fun _ => Some (updated_group set latest))).
Proof.
  intros Hg Hn.
  exists {| w_trace := CallUpdateGroup (updated_group set latest) :: CallGetGroup (om_Namespace (rbg_meta g)) (rbg_Name g) :: w_trace w;
            w_clock := w_clock w |}.
  assert (rbg_Name (updated_group set latest) = rbg_Name g) as Hn' by done. split.
  - unfold update_one, outcome. erewrite bind_ok; [|unfold attempt; cbn [DefaultRetry RetryOnConflict]; unfold attempt at 1].
    2: { unfold GetGroup, UpdateGroup, request, mbind, ST_bind. cbn [se_get_group the_server server w_trace].
         fold (now_store w). rewrite Hg. cbn [se_update_group the_server server w_trace store_after foldr step].
         fold (store_after init (w_trace w)). fold (now_store w). rewrite Hn', Hg. reflexivity. }
    done.
  - intros name. cbn [now_store store_after w_trace foldr step]. fold (store_after init (w_trace w)). fold (now_store w).
    rewrite Hn', Hg. cbn [st_groups with_groups]. destruct (decide (name = rbg_Name g)) as [->|Hne].
    + rewrite bool_decide_eq_true_2 by (by left). apply lookup_insert_eq.
    + rewrite bool_decide_eq_false_2 by (by intros ->%list_elem_of_singleton). by apply lookup_insert_ne.
Qed.

Lemma collect_update_run l w :
  NoDup (map rbg_Name l) ->
  (forall g, g ∈ l -> exists latest, groups w !! rbg_Name g = Some latest /\ rbg_Name latest = rbg_Name g) ->
  stage (collect (update_one set) l) w []
    (fun s => updates (groups w) s (map rbg_Name l) (fun name => updated_group set <$> groups w !! name)).
Proof.
  revert w. induction l as [|g l IH]; intros w Hnd Hl; cbn [collect].
  { exists w. split; [done|]. intros name. by rewrite bool_decide_eq_false_2 by apply not_elem_of_nil. }
  cbn [map] in Hnd. apply NoDup_cons in Hnd as [Hg Hnd]. destruct (Hl g) as (latest & Hlat & Hn); [by left|].
  eapply stage_bind; [by apply update_one_run|]. intros w1 H1.
  assert (forall x, x ∈ l -> groups w1 !! rbg_Name x = groups w !! rbg_Name x) as Hsame.
  { intros x Hx. rewrite H1. rewrite bool_decide_eq_false_2; [done|]. intros He%list_elem_of_singleton. apply Hg.
    rewrite <-He. by apply list_elem_of_fmap_2. }
  eapply stage_bind; [apply IH; [done|]|].
  { intros x Hx. rewrite Hsame by done. apply Hl. by right. }
  intros w2 H2. exists w2. split; [done|]. intros name. rewrite H2. cbn [map].
  destruct (bool_decide_reflect (name ∈ map rbg_Name l)) as [Hin|Hin].
  - rewrite (bool_decide_eq_true_2 (name ∈ _ :: _)) by (by right). apply list_elem_of_fmap in Hin as (x & -> & Hx).
    by rewrite Hsame.
  - rewrite H1. destruct (bool_decide_reflect (name ∈ [rbg_Name g])) as [Hg'%list_elem_of_singleton|Hg'].
    + subst name. rewrite bool_decide_eq_true_2 by (by left). by rewrite Hlat.
    + rewrite bool_decide_eq_false_2; [done|]. rewrite elem_of_cons. rewrite list_elem_of_singleton in Hg'. tauto.
Qed.

(** ** Creating *)

(** The group of a number as it is created: of the template, controlled by the set. *)
Definition child (i : Z) : RoleBasedGroup :=
  let g := newRBGForSet set i in
  rbg_with_meta (with_owners [NewControllerRef GroupAPIVersion SetKind (rbgs_meta set)] (rbg_meta g)) g.

Lemma controlled_child i : controlled set (newRBGForSet set i) = Ok (child i).
Proof. unfold controlled. by rewrite SetControllerReference_ok. Qed.

Lemma child_name_inj i j : 0 <= i <= int64_max -> 0 <= j <= int64_max -> rbg_Name (child i) = rbg_Name (child j) -> i = j.
Proof.
  unfold_int. intros Hi Hj Hn. assert (Itoa i = Itoa j) as He.
  { unfold rbg_Name in Hn. cbn in Hn. by do 2 apply (inj (String.append _)) in Hn. }
  assert (ParseInt (Itoa i) 64 = Ok i) as H1 by (apply ParseInt_Itoa; lia).
  assert (ParseInt (Itoa j) 64 = Ok j) as H2 by (apply ParseInt_Itoa; lia). rewrite He, H2 in H1. congruence.
Qed.

Lemma create_one_run i w :
  groups w !! rbg_Name (child i) = None ->
  stage (create_one set (newRBGForSet set i)) w None
    (fun s => updates (groups w) s [rbg_Name (child i)] (fun _ => Some (child i))).
Proof.
  intros Hg. unfold create_one. rewrite controlled_child.
  exists {| w_trace := CallCreateGroup (child i) :: CallGetGroup ns (rbg_Name (child i)) :: w_trace w; w_clock := w_clock w |}.
  split.
  - unfold outcome, GetGroup, CreateGroup, attempt, request, mbind, ST_bind.
    change (rbg_Name (newRBGForSet set i)) with (rbg_Name (child i)). cbn [se_get_group the_server server w_trace].
    fold (now_store w). rewrite Hg. cbn [mret ST_ret w_trace se_create_group the_server server store_after foldr step].
    fold (store_after init (w_trace w)). fold (now_store w). by rewrite Hg.
  - intros name. cbn [now_store store_after w_trace foldr step]. fold (store_after init (w_trace w)). fold (now_store w).
    rewrite Hg. cbn [st_groups with_groups]. destruct (decide (name = rbg_Name (child i))) as [->|Hne].
    + rewrite bool_decide_eq_true_2 by (by left). apply lookup_insert_eq.
    + rewrite bool_decide_eq_false_2 by (by intros ->%list_elem_of_singleton). by apply lookup_insert_ne.
Qed.

(** The created group of a name. *)
Definition child_named (l : list Z) (name : string) : option RoleBasedGroup :=
  List.find (fun g => bool_decide (rbg_Name g = name)) (map child l).

Lemma collect_create_run l w :
  NoDup l -> (forall i, i ∈ l -> 0 <= i <= int64_max /\ groups w !! rbg_Name (child i) = None) ->
  stage (collect (create_one set) (map (newRBGForSet set) l)) w []
    (fun s => updates (groups w) s (map (fun i => rbg_Name (child i)) l) (child_named l)).
Proof.
  revert w. induction l as [|i l IH]; intros w Hnd Hl; cbn [collect map].
  { exists w. split; [done|]. intros name. by rewrite bool_decide_eq_false_2 by apply not_elem_of_nil. }
  apply NoDup_cons in Hnd as [Hi Hnd]. destruct (Hl i) as [Hri Hfree]; [by left|].
  assert (forall j, j ∈ l -> rbg_Name (child j) <> rbg_Name (child i)) as Hdiff.
  { intros j Hj He. destruct (Hl j) as [Hrj _]; [by right|]. apply child_name_inj in He; [|done..]. by subst. }
  eapply stage_bind; [by apply create_one_run|]. intros w1 H1. eapply stage_bind; [apply IH; [done|]|].
  { intros j Hj. destruct (Hl j) as [Hrj Hfj]; [by right|]. split; [done|]. rewrite H1.
    rewrite bool_decide_eq_false_2; [done|]. intros He%list_elem_of_singleton. by apply (Hdiff j). }
  intros w2 H2. exists w2. split; [done|]. intros name. rewrite H2. unfold child_named. cbn [map List.find].
  destruct (bool_decide_reflect (name ∈ map (fun i => rbg_Name (child i)) l)) as [Hin|Hin].
  - rewrite (bool_decide_eq_true_2 (name ∈ _ :: _)) by (by right). rewrite bool_decide_eq_false_2; [done|].
    intros <-. apply list_elem_of_fmap in Hin as (j & He & Hj). by apply (Hdiff j).
  - rewrite H1. destruct (bool_decide_reflect (name ∈ [rbg_Name (child i)])) as [Hg'%list_elem_of_singleton|Hg'].
    + subst name. rewrite bool_decide_eq_true_2 by (by left). by rewrite bool_decide_eq_true_2.
    + rewrite bool_decide_eq_false_2; [done|]. rewrite elem_of_cons. rewrite list_elem_of_singleton in Hg'. tauto.
Qed.
(** ** Sorting the listed groups *)

(** What adoption makes of a listed group. *)
Definition adopted (g : RoleBasedGroup) : RoleBasedGroup :=
  if isOwnedOrAdoptable set g && bool_decide (is_Some (number g)) && bool_decide (GetControllerOf (rbg_meta g) = None)
  then match controlled set g with Ok a => a | Err _ => g end else g.

Definition unnumbered (l : list RoleBasedGroup) : list RoleBasedGroup :=
  List.filter (fun g => isOwnedOrAdoptable set g && bool_decide (number g = None)) l.

Lemma adopted_name g : rbg_Name (adopted g) = rbg_Name g.
Proof.
  unfold adopted. destruct (_ && _); [|done]. unfold controlled. destruct (SetControllerReference _ _ _ _) as [m|] eqn:Hm; [|done].
  cbn [mbind result_bind]. unfold SetControllerReference in Hm. destruct (validateOwner _ _); [done|].
  destruct (GetControllerOf _); [destruct (referSameObject _ _); [|done]|]; by injection Hm as <-.
Qed.

(** The numbered groups after [l]. *)
Definition extends (l : list RoleBasedGroup) (existing existing' : gmap Z RoleBasedGroup) : Prop :=
  (forall i g, existing' !! i = Some g -> existing !! i = Some g \/
     exists x, x ∈ l /\ isOwnedOrAdoptable set x = true /\ number x = Some i /\ g = adopted x) /\
  (forall i, (forall x, x ∈ l -> isOwnedOrAdoptable set x = true -> number x <> Some i) -> existing' !! i = existing !! i) /\
  (forall i x, x ∈ l -> isOwnedOrAdoptable set x = true -> number x = Some i ->
     (forall y, y ∈ l -> isOwnedOrAdoptable set y = true -> number y = Some i -> y = x) -> existing' !! i = Some (adopted x)).

Lemma extends_nil existing : extends [] existing existing.
Proof. split; [auto|]. split; [done|]. by intros i x ?%elem_of_nil. Qed.

Lemma extends_skip g l existing existing' :
  (isOwnedOrAdoptable set g = true -> number g = None) -> extends l existing existing' -> extends (g :: l) existing existing'.
Proof.
  intros Hg (H1 & H2 & H3). split; [|split].
  - intros i x Hx. apply H1 in Hx as [Hx|(y & Hy & Hrest)]; [by left|]. right. exists y. split; [by right|done].
  - intros i Hn. apply H2. intros x Hx. apply Hn. by right.
  - intros i x [->|Hx]%elem_of_cons Ho Hi Huniq; [rewrite Hg in Hi by done; congruence|]. apply H3; [done..|].
    intros y Hy. apply Huniq. by right.
Qed.

Lemma extends_cons g i l existing existing' :
  g ∉ l -> isOwnedOrAdoptable set g = true -> number g = Some i ->
  extends l (<[i := adopted g]> existing) existing' -> extends (g :: l) existing existing'.
Proof.
  intros Hgl Hown Hi (H1 & H2 & H3). split; [|split].
  - intros j x Hx. apply H1 in Hx as [[[<- <-]|[_ Hx]]%lookup_insert_Some|(y & Hy & Hrest)]; [right|by left|right].
    + exists g. split; [by left|done].
    + exists y. split; [by right|done].
  - intros j Hn. rewrite H2 by (intros x Hx; apply Hn; by right). apply lookup_insert_ne. intros ->. apply (Hn g); [by left|done..].
  - intros j x [->|Hx]%elem_of_cons Ho Hj Huniq.
    + assert (j = i) as -> by congruence. rewrite H2; [by apply lookup_insert_eq|]. intros y Hy Hyo Hyi.
      assert (y = g) as -> by (apply Huniq; [by right|done..]). done.
    + apply H3; [done..|]. intros y Hy. apply Huniq. by right.
Qed.

Lemma number_None_inv g :
  number g = None -> om_Labels (rbg_meta g) !! GroupSetIndexLabelKey = None \/
  exists s e, om_Labels (rbg_meta g) !! GroupSetIndexLabelKey = Some s /\ Atoi s = Err e.
Proof.
  unfold number. destruct (_ !! _) as [s|]; [|auto]. destruct (Atoi s) eqn:E; [done|]. eauto.
Qed.

Lemma number_Some_inv g i :
  number g = Some i -> exists s, om_Labels (rbg_meta g) !! GroupSetIndexLabelKey = Some s /\ Atoi s = Ok i.
Proof.
  unfold number. destruct (_ !! _) as [s|]; [|done]. destruct (Atoi s) eqn:E; [|done]. intros [= ->]. eauto.
Qed.

Lemma controlled_orphan g :
  om_Namespace (rbg_meta g) = ns -> GetControllerOf (rbg_meta g) = None ->
  exists a, controlled set g = Ok a /\
    GetControllerOf (rbg_meta a) = Some (NewControllerRef GroupAPIVersion SetKind (rbgs_meta set)) /\
    a = rbg_with_meta (with_owners (om_OwnerReferences (rbg_meta a)) (rbg_meta g)) g.
Proof.
  intros Hns Hc. unfold controlled. rewrite SetControllerReference_ok by done. eexists. split; [done|]. split; [|done].
  cbn [rbg_with_meta rbg_meta]. by eapply SetControllerReference_orphan; [|apply SetControllerReference_ok].
Qed.

(** The store after the groups of [l] were sorted. *)
Definition sorted_store (l : list RoleBasedGroup) (before after : gmap string RoleBasedGroup) : Prop :=
  updates before after (map rbg_Name l) (fun name => adopted <$> before !! name).

Lemma sorted_store_cons g l m m1 m' :
  m !! rbg_Name g = Some g -> rbg_Name g ∉ map rbg_Name l ->
  updates m m1 [rbg_Name g] (fun _ => Some (adopted g)) -> sorted_store l m1 m' -> sorted_store (g :: l) m m'.
Proof.
  intros Hg Hgl H1 H2 name. rewrite H2. cbn [map].
  destruct (bool_decide_reflect (name ∈ map rbg_Name l)) as [Hin|Hin].
  - rewrite (bool_decide_eq_true_2 (name ∈ _ :: _)) by (by right). rewrite H1, bool_decide_eq_false_2; [done|].
    by intros ->%list_elem_of_singleton.
  - rewrite H1. destruct (bool_decide_reflect (name ∈ [rbg_Name g])) as [Hg'%list_elem_of_singleton|Hg'].
    + subst name. rewrite bool_decide_eq_true_2 by (by left). by rewrite Hg.
    + rewrite bool_decide_eq_false_2; [done|]. rewrite elem_of_cons. rewrite list_elem_of_singleton in Hg'. tauto.
Qed.

Lemma updates_same m name g : m !! name = Some g -> updates m m [name] (fun _ => Some g).
Proof.
  intros Hg name'. destruct (bool_decide_reflect (name' ∈ [name])) as [->%list_elem_of_singleton|]; done.
Qed.

Lemma classify_run l existing bad w :
  NoDup (map rbg_Name l) ->
  (forall x, x ∈ l -> groups w !! rbg_Name x = Some x /\ om_Namespace (rbg_meta x) = ns) ->
  exists existing', extends l existing existing' /\
  stage (classify set l existing bad) w (existing', bad ++ unnumbered l) (sorted_store l (groups w)).
Proof.
  revert existing bad w. induction l as [|g l IH]; intros existing bad w Hnd Hl; cbn [classify].
  { exists existing. split; [apply extends_nil|]. exists w. split; [by rewrite app_nil_r|]. intros name.
    by rewrite bool_decide_eq_false_2 by apply not_elem_of_nil. }
  cbn [map] in Hnd. apply NoDup_cons in Hnd as [Hgn Hnd]. destruct (Hl g) as [Hg Hns]; [by left|].
  assert (g ∉ l) as Hgl by (intros Hin; apply Hgn; by apply list_elem_of_fmap_2).
  (* the rest, from a store in which only [g] has changed *)
  assert (forall ex' bad' w1, updates (groups w) (groups w1) [rbg_Name g] (fun _ => Some (adopted g)) ->
    exists existing', extends l ex' existing' /\
    stage (classify set l ex' bad') w1 (existing', bad' ++ unnumbered l) (sorted_store (g :: l) (groups w))) as Hrest.
  { intros ex' bad' w1 Hw1. destruct (IH ex' bad' w1 Hnd) as (ex2 & He & Hst).
    - intros x Hx. destruct (Hl x) as [Hx1 Hx2]; [by right|]. split; [|done]. rewrite Hw1, bool_decide_eq_false_2; [done|].
      intros He%list_elem_of_singleton. apply Hgn. rewrite <-He. by apply list_elem_of_fmap_2.
    - exists ex2. split; [done|]. eapply stage_conseq; [exact Hst|]. intros s. by apply sorted_store_cons. }
  assert (adopted g = g -> updates (groups w) (groups w) [rbg_Name g] (fun _ => Some (adopted g))) as Hsame.
  { intros ->. by apply updates_same. }
  unfold unnumbered. cbn [List.filter]. fold (unnumbered l).
  destruct (isOwnedOrAdoptable set g) eqn:Hown; cbn [negb andb].
  2: { destruct (Hrest existing bad w) as (ex' & He & Hst); [apply Hsame; unfold adopted; by rewrite Hown|].
       exists ex'. split; [apply extends_skip; [congruence|done]|done]. }
  destruct (number g) as [i|] eqn:Hi.
  2: { rewrite bool_decide_eq_true_2 by done.
       destruct (Hrest existing (bad ++ [g]) w) as (ex' & He & Hst); [apply Hsame; unfold adopted; by rewrite Hown, Hi|].
       exists ex'. split; [by apply extends_skip|]. rewrite <-app_assoc in Hst. cbn [app] in Hst.
       destruct (number_None_inv g Hi) as [->|(s & e & -> & ->)]; exact Hst. }
  rewrite bool_decide_eq_false_2 by done. destruct (number_Some_inv g i Hi) as (s & -> & ->).
  destruct (GetControllerOf (rbg_meta g)) as [ref|] eqn:Hctl.
  - assert (adopted g = g) as Had by (unfold adopted; by rewrite Hown, Hi, Hctl).
    destruct (Hrest (<[i := g]> existing) bad w) as (ex' & He & Hst); [by apply Hsame|].
    exists ex'. split; [|done]. apply extends_cons with i; [done..|]. by rewrite Had.
  - destruct (controlled_orphan g Hns Hctl) as (a & Ha & _ & Han).
    assert (adopted g = a) as Had by (unfold adopted; by rewrite Hown, Hi, Hctl, Ha).
    assert (rbg_Name a = rbg_Name g) as Hn by by rewrite Han.
    set (w1 := {| w_trace := CallUpdateGroup a :: w_trace w; w_clock := w_clock w |}).
    assert (updates (groups w) (groups w1) [rbg_Name g] (fun _ => Some (adopted g))) as Hw1.
    { intros name. unfold now_store. cbn [w1 store_after w_trace foldr step]. fold (store_after init (w_trace w)). fold (now_store w).
      rewrite Hn, Hg. cbn [st_groups with_groups]. rewrite Had. destruct (decide (name = rbg_Name g)) as [->|Hne].
      + rewrite bool_decide_eq_true_2 by (by left). apply lookup_insert_eq.
      + rewrite bool_decide_eq_false_2 by (by intros ->%list_elem_of_singleton). by apply lookup_insert_ne. }
    destruct (Hrest (<[i := a]> existing) bad w1 Hw1) as (ex' & He & Hst).
    exists ex'. split; [apply extends_cons with i; [done..|]; by rewrite Had|].
    rewrite Ha. destruct Hst as (w2 & Hw2 & Hp). exists w2. split; [|done]. rewrite <-Hw2.
    unfold outcome, UpdateGroup, attempt, request, mbind, ST_bind. cbn [se_update_group the_server server w_trace].
    fold (now_store w). rewrite Hn, Hg. reflexivity.
Qed.
End run.

(** * One reconcile is enough *)

Definition own_in (init : store) (g : RoleBasedGroup) : Prop :=
  carries_set_label (rbgs_Name (st_set init)) g = true /\ isOwnedOrAdoptable (st_set init) g = true.

(** The groups a reconcile starts from: stored under their names in the namespace of
    the set, own groups with distinct numbers that are not negative, and no other
    group under the name of a group to create.  The template gives its roles distinct
    names, as the API server enforces, and leaves the system labels alone. *)
Record well_formed (init : store) (replicas : Z) : Prop := {
  wf_replicas : rbgs_Replicas (st_set init) = Some replicas;
  wf_bound : replicas <= int32_max;
  wf_names : forall name g, st_groups init !! name = Some g ->
    rbg_Name g = name /\ om_Namespace (rbg_meta g) = rbgs_Namespace (st_set init);
  wf_unique : forall name1 name2 g1 g2 i, st_groups init !! name1 = Some g1 -> st_groups init !! name2 = Some g2 ->
    own_in init g1 -> own_in init g2 -> number g1 = Some i -> number g2 = Some i -> g1 = g2;
  wf_natural : forall name g i, st_groups init !! name = Some g -> own_in init g -> number g = Some i -> 0 <= i;
  wf_free : forall i, 0 <= i < replicas ->
    (forall name g, st_groups init !! name = Some g -> own_in init g -> number g <> Some i) ->
    st_groups init !! rbg_Name (child init i) = None;
  wf_roles : NoDup (map role_Name (gt_Roles (rbgs_Template (st_set init))));
  wf_labels : gt_Labels (rbgs_Template (st_set init)) !! GroupSetNameLabelKey = None /\
    gt_Labels (rbgs_Template (st_set init)) !! GroupSetIndexLabelKey = None
}.

Lemma NoDup_map_filter {A B} (f : A -> B) (p : A -> bool) l : NoDup (map f l) -> NoDup (map f (List.filter p l)).
Proof.
  induction l as [|x l IH]; cbn [map List.filter]; [done|]. intros [Hx Hl]%NoDup_cons. destruct (p x); [|by apply IH].
  cbn [map]. apply NoDup_cons. split; [|by apply IH]. intros Hin. apply Hx. apply list_elem_of_fmap in Hin as (y & -> & Hy).
  apply list_elem_of_fmap_2. apply list_elem_of_In in Hy. apply filter_In in Hy as [Hy _]. by apply list_elem_of_In.
Qed.

Section converge.
Context `{SortSlice} (clock : nat -> Z) (init : store) (n : Z) (WF : well_formed init n).
Abbreviation set := (st_set init).
Abbreviation ns := (rbgs_Namespace set).
Abbreviation groups w := (st_groups (now_store init w)).
Abbreviation items := (listing (rbgs_Name set) (st_groups init)).
Abbreviation own := (own_in init).

#[local] Instance this_server : SetEnv := server clock init.

Lemma elem_of_items g : g ∈ items <-> st_groups init !! rbg_Name g = Some g /\ carries_set_label (rbgs_Name set) g = true.
Proof.
  rewrite elem_of_listing. apply and_iff_compat; [|done]. split; [|eauto]. intros [name Hg].
  by destruct (wf_names _ _ WF name g Hg) as [-> _].
Qed.

Lemma items_NoDup : NoDup (map rbg_Name items).
Proof.
  apply NoDup_map_filter. assert (map rbg_Name (map snd (map_to_list (st_groups init))) = map fst (map_to_list (st_groups init))) as ->.
  { rewrite map_map. apply map_ext_in. intros [name g] Hin%list_elem_of_In%elem_of_map_to_list.
    by apply (wf_names _ _ WF). }
  apply NoDup_fst_map_to_list.
Qed.

Lemma own_items g : own g -> st_groups init !! rbg_Name g = Some g -> g ∈ items.
Proof. intros [Hc _] Hg. by apply elem_of_items. Qed.

Lemma items_same x y : x ∈ items -> y ∈ items -> rbg_Name x = rbg_Name y -> x = y.
Proof. rewrite !elem_of_items. intros [Hx _] [Hy _] He. rewrite He in Hx. congruence. Qed.

(** An own listed group: the unit of what follows. *)
Definition mine (x : RoleBasedGroup) : Prop := x ∈ items /\ isOwnedOrAdoptable set x = true.

Lemma mine_unique x y i : mine x -> mine y -> number x = Some i -> number y = Some i -> x = y.
Proof.
  intros [Hx Hox] [Hy Hoy]. apply elem_of_items in Hx as [Hx Hcx], Hy as [Hy Hcy]. by apply (wf_unique _ _ WF _ _ _ _ _ Hx Hy).
Qed.

Section plan.
Context (existing : gmap Z RoleBasedGroup) (Hext : extends init items ∅ existing).

Lemma existing_spec i g : existing !! i = Some g <-> exists x, mine x /\ number x = Some i /\ g = adopted init x.
Proof.
  destruct Hext as (H1 & _ & H3). split.
  - intros Hg. apply H1 in Hg as [Hg|(x & Hx & Ho & Hi & ->)]; [by rewrite lookup_empty in Hg|]. by exists x.
  - intros (x & [Hx Ho] & Hi & ->). apply H3; [done..|]. intros y Hy Hoy Hyi. by eapply mine_unique.
Qed.

Abbreviation ranged := (map_to_list existing).
Abbreviation gone := (unnumbered init items ++ beyond n ranged).

(** What is deleted: own groups without a number, or with one beyond the replicas. *)
Definition doomed (x : RoleBasedGroup) : Prop := mine x /\ forall i, number x = Some i -> n <= i.

Lemma gone_names name : name ∈ map rbg_Name gone <-> exists x, doomed x /\ rbg_Name x = name.
Proof.
  rewrite map_app, elem_of_app, !list_elem_of_fmap. split.
  - intros [(x & -> & Hx)|(g & -> & Hg)].
    + exists x. split; [|done]. unfold unnumbered in Hx. apply list_elem_of_In, filter_In in Hx as [Hx [Ho Hn]%andb_prop].
      apply list_elem_of_In in Hx. apply bool_decide_eq_true in Hn. split; [done|]. congruence.
    + unfold beyond in Hg. apply list_elem_of_fmap in Hg as ([i y] & -> & Hy). apply list_elem_of_In, filter_In in Hy as [Hy Hge%Z.leb_le].
      apply list_elem_of_In, elem_of_map_to_list, existing_spec in Hy as (x & Hx & Hi & ->). exists x.
      split; [|symmetry; apply adopted_name]. split; [done|]. intros j Hj. cbn [fst] in Hge. assert (j = i) as -> by congruence. done.
  - intros (x & [Hx Hn] & <-). destruct (number x) as [i|] eqn:Hi.
    + right. exists (adopted init x). split; [symmetry; apply adopted_name|]. unfold beyond. apply list_elem_of_fmap.
      exists (i, adopted init x). split; [done|]. apply list_elem_of_In, filter_In. split; [|apply Z.leb_le; by apply Hn].
      apply list_elem_of_In, elem_of_map_to_list, existing_spec. eauto.
    + left. exists x. split; [done|]. unfold unnumbered. apply list_elem_of_In, filter_In. destruct Hx as [Hx Ho].
      split; [by apply list_elem_of_In|]. by rewrite Ho, Hi.
Qed.

Abbreviation stale := (to_update set gone ranged).

Lemma stale_spec g : g ∈ stale <->
  exists x i, mine x /\ number x = Some i /\ i < n /\ g = adopted init x /\ needsUpdate set g = true.
Proof.
  unfold to_update. rewrite list_elem_of_In, filter_In, <-list_elem_of_In, list_elem_of_fmap. split.
  - intros [([i y] & -> & Hy) [Hno Hneed]%andb_prop]. apply elem_of_map_to_list, existing_spec in Hy as (x & Hx & Hi & ->).
    cbn [snd] in *. exists x, i. split; [done|]. split; [done|]. split; [|done].
    apply negb_true_iff, not_true_iff_false in Hno. apply Z.nle_gt. intros Hge. apply Hno. apply existsb_exists.
    assert (rbg_Name x ∈ map rbg_Name gone) as Hin.
    { apply gone_names. exists x. split; [|done]. split; [done|]. congruence. }
    apply list_elem_of_fmap in Hin as (d & Hd & Hin). exists d. split; [by apply list_elem_of_In|].
    apply bool_decide_eq_true. by rewrite adopted_name.
  - intros (x & i & Hx & Hi & Hlt & -> & Hneed). split.
    + exists (i, adopted init x). split; [done|]. apply elem_of_map_to_list, existing_spec. eauto.
    + rewrite Hneed, andb_true_r. apply negb_true_iff, not_true_iff_false. intros (d & Hd & Hn)%existsb_exists.
      apply bool_decide_eq_true in Hn. assert (rbg_Name x ∈ map rbg_Name gone) as Hin.
      { apply list_elem_of_fmap. exists d. split; [by rewrite Hn, adopted_name|by apply list_elem_of_In]. }
      apply gone_names in Hin as (y & [Hy Hny] & He). assert (y = x) as ->.
      { apply items_same; [by destruct Hy|by destruct Hx|done]. } specialize (Hny i Hi). lia.
Qed.

Lemma stale_NoDup : NoDup (map rbg_Name stale).
Proof.
  apply NoDup_map_filter. rewrite map_map. apply NoDup_fmap_2_strong; [|apply NoDup_map_to_list].
  intros [i g] [j g']. rewrite !elem_of_map_to_list, !existing_spec. cbn [snd].
  intros (x & Hx & Hi & ->) (y & Hy & Hj & ->). rewrite !adopted_name. intros He.
  assert (x = y) as -> by (apply items_same; [by destruct Hx|by destruct Hy|done]). congruence.
Qed.

Lemma missing_spec i : i ∈ missing_indices n existing <-> 0 <= i < n /\ forall x, mine x -> number x <> Some i.
Proof.
  unfold missing_indices. rewrite list_elem_of_In, filter_In, <-list_elem_of_In, elem_of_seqZ, bool_decide_eq_true. split.
  - intros [Hr Hn]. split; [lia|]. intros x Hx Hi. assert (existing !! i = Some (adopted init x)) as Hs by (apply existing_spec; eauto).
    congruence.
  - intros [Hr Hn]. split; [lia|]. destruct (existing !! i) as [g|] eqn:Hg; [|done]. apply existing_spec in Hg as (x & Hx & Hi & _).
    by destruct (Hn x Hx).
Qed.

Lemma missing_NoDup : NoDup (missing_indices n existing).
Proof. unfold missing_indices. rewrite <-(map_id (List.filter _ _)). apply NoDup_map_filter. rewrite map_id. apply NoDup_seqZ. Qed.

(** What the three stages leave. *)
Definition left_by (before after : gmap string RoleBasedGroup) : Prop :=
  exists m2 m3, updates before m2 (map rbg_Name gone) (fun _ => None) /\
    updates m2 m3 (map rbg_Name stale) (fun name => updated_group set <$> m2 !! name) /\
    updates m3 after (map (fun i => rbg_Name (child init i)) (missing_indices n existing))
      (child_named init (missing_indices n existing)).

Lemma guarded_run {A} (f : list A -> M unit) (l : list A) w post :
  f [] w = (Ok tt, w) -> stage init (f l) w tt post -> stage init (match l with [] => mret tt | _ => f l end) w tt post.
Proof. intros Hf. destruct l; [|done]. intros (w' & Hw & Hp). exists w'. split; [|done]. by rewrite <-Hw, Hf. Qed.

Lemma errors_run {A} (f : A -> M (option error)) l w post :
  stage init (collect f l) w [] post -> stage init (errs ← collect f l; fail_all errs) w tt post.
Proof.
  intros Hc. eapply stage_bind; [exact Hc|]. intros w' Hp. by exists w'.
Qed.

Lemma reconcile_groups_run w :
  sorted_store init items (st_groups init) (groups w) ->
  stage init (reconcile_groups set n existing (unnumbered init items)) w tt (left_by (groups w)).
Proof.
  intros Hsorted. unfold reconcile_groups.
  assert (forall name, name ∈ map rbg_Name stale -> name ∉ map rbg_Name gone) as Hdisj.
  { intros name Hs Hg. apply list_elem_of_fmap in Hs as (g & -> & Hs). apply stale_spec in Hs as (x & i & Hx & Hi & Hlt & -> & _).
    apply gone_names in Hg as (y & [Hy Hny] & He). rewrite adopted_name in He.
    assert (y = x) as -> by (apply items_same; [by destruct Hy|by destruct Hx|done]). specialize (Hny i Hi). lia. }
  eapply stage_bind; [apply guarded_run with (f := scaleDown); [done|]; apply errors_run, collect_delete_run|].
  intros w2 H2. eapply stage_bind; [apply guarded_run with (f := updateExistingRBGs set); [done|]; apply errors_run, collect_update_run|].
  - apply stale_NoDup.
  - intros g Hg. rewrite H2, bool_decide_eq_false_2 by (apply Hdisj; by apply list_elem_of_fmap_2).
    apply stale_spec in Hg as (x & i & [Hx Ho] & Hi & _ & -> & _). exists (adopted init x). split; [|done].
    rewrite Hsorted, adopted_name, bool_decide_eq_true_2 by by apply list_elem_of_fmap_2.
    apply elem_of_items in Hx as [Hx _]. by rewrite Hx.
  - intros w3 H3. change (match map (newRBGForSet set) (missing_indices n existing) with [] => mret tt | _ :: _ => scaleUp set (map (newRBGForSet set) (missing_indices n existing)) end)
      with ((fun l => match l with [] => mret tt | _ => scaleUp set l end) (map (newRBGForSet set) (missing_indices n existing))).
    cbn beta. eapply stage_conseq; [apply guarded_run with (f := scaleUp set); [done|]; apply errors_run, collect_create_run|].
    + apply missing_NoDup.
    + intros i Hi. apply missing_spec in Hi as [Hr Hno]. pose proof (wf_bound _ _ WF). split; [unfold_int; lia|].
      assert (st_groups init !! rbg_Name (child init i) = None) as Hfree.
      { apply (wf_free _ _ WF); [done|]. intros name g Hg [Hc Ho]. apply Hno. split; [|done]. apply elem_of_items.
        destruct (wf_names _ _ WF _ _ Hg) as [-> _]. done. }
      assert (groups w !! rbg_Name (child init i) = None) as Hw.
      { rewrite Hsorted, Hfree. by destruct (bool_decide _). }
      assert (groups w2 !! rbg_Name (child init i) = None) as Hw2.
      { rewrite H2, Hw. by destruct (bool_decide _). }
      rewrite H3, Hw2. by destruct (bool_decide _).
    + intros s Hs. by exists (groups w2), (groups w3).
Qed.

(** ** The groups it leaves *)

(** A group as the set wants its number [i]. *)
Definition wanted (i : Z) (g : RoleBasedGroup) : Prop :=
  carries_set_label (rbgs_Name set) g = true /\ isOwnedOrAdoptable set g = true /\
  GetControllerOf (rbg_meta g) <> None /\ number g = Some i /\ needsUpdate set g = false.

Lemma template_fits index : template_compatible set index.
Proof. destruct (wf_labels _ _ WF) as [H1 H2]. unfold template_compatible. rewrite H1, H2. done. Qed.

Lemma wanted_child i : 0 <= i < n -> wanted i (child init i).
Proof.
  intros Hi. pose proof (wf_bound _ _ WF). destruct (newRBGForSet_spec set i) as (Hl & Ha & _ & Hn); [unfold_int; lia|].
  split; [|split; [|split; [|split]]].
  - apply bool_decide_eq_true. apply (system_labels_name set (Itoa i)).
  - unfold isOwnedOrAdoptable. cbn [GetControllerOf]. by apply bool_decide_eq_true.
  - done.
  - unfold number. change (om_Labels (rbg_meta (child init i))) with (om_Labels (rbg_meta (newRBGForSet set i))). by rewrite Hl, Ha.
  - change (needsUpdate set (newRBGForSet set i) = false). apply Hn; [apply (wf_roles _ _ WF)|apply template_fits].
Qed.

Lemma adopted_own x i :
  mine x -> number x = Some i ->
  carries_set_label (rbgs_Name set) (adopted init x) = true /\ isOwnedOrAdoptable set (adopted init x) = true /\
  GetControllerOf (rbg_meta (adopted init x)) <> None /\ number (adopted init x) = Some i.
Proof.
  intros [Hx Ho] Hi. pose proof Hx as [Hst Hc]%elem_of_items. unfold adopted. rewrite Ho, Hi.
  destruct (GetControllerOf (rbg_meta x)) as [ref|] eqn:Hctl; cbn [andb].
  { rewrite andb_false_r. rewrite Hctl. done. }
  rewrite bool_decide_eq_true_2, bool_decide_eq_true_2 by eauto. cbn [andb].
  destruct (wf_names _ _ WF _ _ Hst) as [_ Hns]. destruct (controlled_orphan init x Hns Hctl) as (a & -> & Ha & Hax).
  split; [by rewrite Hax|]. split; [|split; [congruence|by rewrite Hax]].
  unfold isOwnedOrAdoptable. rewrite Ha. by apply bool_decide_eq_true.
Qed.

Lemma wanted_updated i g :
  isOwnedOrAdoptable set g = true -> GetControllerOf (rbg_meta g) <> None -> number g = Some i -> wanted i (updated_group set g).
Proof.
  intros Ho Hctl Hi. destruct (number_Some_inv g i Hi) as (s & Hs & Ha). split; [|split; [|split; [|split]]].
  - apply bool_decide_eq_true. rewrite updated_index. apply system_labels_name.
  - unfold isOwnedOrAdoptable in *. change (GetControllerOf (rbg_meta (updated_group set g))) with (GetControllerOf (rbg_meta g)).
    by destruct (GetControllerOf (rbg_meta g)).
  - exact Hctl.
  - unfold number. rewrite updated_index, system_labels_index. unfold label_of. rewrite Hs. cbn [default from_option id]. by rewrite Ha.
  - apply (update_settles_iff set g (wf_roles _ _ WF)), template_fits.
Qed.

Lemma child_named_Some l i g : child_named init l (rbg_Name (child init i)) = Some g -> exists j, j ∈ l /\ g = child init j.
Proof.
  unfold child_named. intros [Hin _]%List.find_some. apply list_elem_of_In, list_elem_of_fmap in Hin as (j & -> & Hj). eauto.
Qed.

Lemma child_named_ok l i : i ∈ l -> (forall j, j ∈ l -> 0 <= j < n) -> child_named init l (rbg_Name (child init i)) = Some (child init i).
Proof.
  intros Hi Hl. pose proof (wf_bound _ _ WF). unfold child_named. destruct (List.find _ _) as [g|] eqn:E.
  - apply List.find_some in E as [Hin He%bool_decide_eq_true]. apply list_elem_of_In, list_elem_of_fmap in Hin as (j & -> & Hj).
    apply child_name_inj in He; [by rewrite He|unfold_int; specialize (Hl j Hj); lia|unfold_int; specialize (Hl i Hi); lia].
  - assert (In (child init i) (map (child init) l)) as Hin by (apply list_elem_of_In; by apply list_elem_of_fmap_2).
    apply (List.find_none _ _ E) in Hin. by apply bool_decide_eq_false in Hin.
Qed.

Section after.
Context (m after : gmap string RoleBasedGroup).
Context (Hm : sorted_store init items (st_groups init) m) (Hleft : left_by m after).

Lemma kept_group x i :
  mine x -> number x = Some i -> i < n -> exists g, after !! rbg_Name x = Some g /\ wanted i g.
Proof.
  intros Hx Hi Hlt. destruct Hleft as (m2 & m3 & H2 & H3 & H4). destruct (adopted_own x i Hx Hi) as (Hc & Ho & Hctl & Hnum).
  assert (m !! rbg_Name x = Some (adopted init x)) as Hmx.
  { rewrite Hm, bool_decide_eq_true_2 by (destruct Hx; by apply list_elem_of_fmap_2).
    destruct Hx as [[Hst _]%elem_of_items _]. by rewrite Hst. }
  assert (m2 !! rbg_Name x = Some (adopted init x)) as H2x.
  { rewrite H2, bool_decide_eq_false_2; [done|]. intros (y & [Hy Hny] & He)%gone_names.
    assert (y = x) as -> by (apply items_same; [by destruct Hy|by destruct Hx|done]). specialize (Hny i Hi). lia. }
  assert (exists g, m3 !! rbg_Name x = Some g /\ wanted i g) as (g & H3x & Hg).
  { destruct (needsUpdate set (adopted init x)) eqn:Hneed.
    - exists (updated_group set (adopted init x)). split; [|by apply wanted_updated].
      rewrite H3, bool_decide_eq_true_2; [by rewrite H2x|]. apply list_elem_of_fmap. exists (adopted init x).
      split; [symmetry; apply adopted_name|]. apply stale_spec. eauto 10.
    - exists (adopted init x). split; [|done]. rewrite H3, bool_decide_eq_false_2; [done|].
      intros (g & He & Hg)%list_elem_of_fmap. apply stale_spec in Hg as (y & j & Hy & _ & _ & -> & Hyes).
      rewrite adopted_name in He. assert (x = y) as <- by (apply items_same; [by destruct Hx|by destruct Hy|done]). congruence. }
  exists g. split; [|done]. rewrite H4, bool_decide_eq_false_2; [done|].
  intros (j & He & Hj)%list_elem_of_fmap. apply missing_spec in Hj as [Hrj Hnoj].
  assert (st_groups init !! rbg_Name (child init j) = None) as Hfree.
  { apply (wf_free _ _ WF); [done|]. intros name y Hy [Hcy Hoy]. apply Hnoj. split; [|done]. apply elem_of_items.
    destruct (wf_names _ _ WF _ _ Hy) as [-> _]. done. }
  rewrite <-He in Hfree. destruct Hx as [[Hst _]%elem_of_items _]. congruence.
Qed.

Lemma number_taken i : 0 <= i < n -> exists name g, after !! name = Some g /\ wanted i g.
Proof.
  intros Hi. destruct (decide (i ∈ missing_indices n existing)) as [Hin|Hno].
  - exists (rbg_Name (child init i)), (child init i). split; [|by apply wanted_child].
    destruct Hleft as (m2 & m3 & H2 & H3 & H4). rewrite H4, bool_decide_eq_true_2.
    + apply child_named_ok; [done|]. intros j Hj. by apply missing_spec in Hj as [? _].
    + apply list_elem_of_fmap. eauto.
  - destruct (existing !! i) as [g|] eqn:Hg.
    + apply existing_spec in Hg as (x & Hx & Hix & _). destruct (kept_group x i Hx Hix) as (g' & Hg' & Hw); [lia|eauto].
    + destruct Hno. apply missing_spec. split; [done|]. intros x Hx Hix.
      assert (existing !! i = Some (adopted init x)) by (apply existing_spec; eauto). congruence.
Qed.

Lemma adopted_not_owned x : isOwnedOrAdoptable set x = false -> adopted init x = x.
Proof. intros Ho. unfold adopted. by rewrite Ho. Qed.

Lemma left_wanted name g :
  after !! name = Some g -> carries_set_label (rbgs_Name set) g = true -> isOwnedOrAdoptable set g = true ->
  exists i, 0 <= i < n /\ wanted i g.
Proof.
  intros Hg Hc Ho. pose proof Hleft as (m2 & m3 & H2 & H3 & H4). rewrite H4 in Hg. revert Hg.
  destruct (bool_decide_reflect (name ∈ map (fun i => rbg_Name (child init i)) (missing_indices n existing))) as [Hin|Hnc]; intros Hg.
  { apply list_elem_of_fmap in Hin as (j & -> & Hj). apply child_named_Some in Hg as (i & Hi & ->).
    apply missing_spec in Hi as [Hr _]. exists i. split; [done|]. by apply wanted_child. }
  (* a group that was there before, under its name *)
  assert (exists x, st_groups init !! name = Some x /\ name ∉ map rbg_Name gone /\
    ((name ∈ map rbg_Name items /\ mine x) \/ (name ∉ map rbg_Name items /\ g = x))) as (x & Hx & Hgone & Hcase).
  { rewrite H3, !H2 in Hg. revert Hg. destruct (bool_decide_reflect (name ∈ map rbg_Name gone)) as [|Hgone].
    { by destruct (bool_decide (name ∈ map rbg_Name stale)). }
    rewrite !Hm. destruct (bool_decide_reflect (name ∈ map rbg_Name items)) as [Hi|Hi]; intros Hg.
    - apply list_elem_of_fmap in Hi as (x & -> & Hi). pose proof Hi as [Hst _]%elem_of_items. rewrite Hst in Hg.
      exists x. split; [done|]. split; [done|]. left. split; [by apply list_elem_of_fmap_2|]. split; [done|].
      destruct (isOwnedOrAdoptable set x) eqn:Hox; [done|]. exfalso. cbn [fmap option_fmap option_map] in Hg.
      rewrite (adopted_not_owned x Hox) in Hg. destruct (bool_decide (rbg_Name x ∈ map rbg_Name stale)) eqn:Hs.
      + apply bool_decide_eq_true, list_elem_of_fmap in Hs as (y & He & Hy). apply stale_spec in Hy as (z & j & [Hz Hoz] & _ & _ & -> & _).
        rewrite adopted_name in He. assert (x = z) as -> by by apply items_same. congruence.
      + injection Hg as <-. congruence.
    - revert Hg. destruct (bool_decide_reflect (name ∈ map rbg_Name stale)) as [Hs|Hs]; intros Hg.
      + exfalso. apply list_elem_of_fmap in Hs as (y & He & Hy). apply stale_spec in Hy as (z & j & [Hz Hoz] & _ & _ & -> & _).
        rewrite adopted_name in He. subst. apply Hi. by apply list_elem_of_fmap_2.
      + exists g. auto. }
  destruct Hcase as [[Hin Hmine]|[Hnot ->]].
  2: { destruct Hnot. apply list_elem_of_fmap. exists x. destruct (wf_names _ _ WF _ _ Hx) as [Hn _].
       split; [done|]. apply elem_of_items. by rewrite Hn. }
  destruct (wf_names _ _ WF _ _ Hx) as [Hn _]. destruct (number x) as [i|] eqn:Hi.
  2: { destruct Hgone. apply gone_names. exists x. split; [split; [done|congruence]|done]. }
  destruct (decide (i < n)) as [Hlt|Hge].
  2: { destruct Hgone. apply gone_names. exists x. split; [|done]. split; [done|]. intros j Hj. assert (j = i) as -> by congruence. lia. }
  exists i. split.
  { split; [|done]. destruct Hmine as [Hit Hox]. apply (wf_natural _ _ WF _ _ _ Hx); [|done]. split; [by apply elem_of_items in Hit as [_ ?]|done]. }
  destruct (kept_group x i Hmine Hi Hlt) as (g' & Hg' & Hw). rewrite Hn, H4, bool_decide_eq_false_2 in Hg' by done. congruence.
Qed.
End after.
End plan.

Lemma settled_after existing m after :
  extends init items ∅ existing -> sorted_store init items (st_groups init) m -> left_by existing m after ->
  settled set n (listing (rbgs_Name set) after).
Proof.
  intros He Hm Hl. split.
  - intros g [Hin Ho]. apply elem_of_listing in Hin as [[name Hg] Hc].
    destruct (left_wanted existing He m after Hm Hl name g Hg Hc Ho) as (i & Hi & (_ & _ & Hctl & Hnum & Hneed)). eauto.
  - intros i Hi. destruct (number_taken existing He m after Hm Hl i Hi) as (name & g & Hg & (Hc & Ho & _ & Hnum & _)).
    exists g. split; [|done]. split; [|done]. apply elem_of_listing. eauto.
Qed.

Lemma updateStatus_run l w : stage init (updateStatus set l) w tt (eq (groups w)).
Proof.
  unfold updateStatus. rewrite (wf_replicas _ _ WF).
  eapply stage_bind with (post := eq (groups w)); [by eexists; split; [reflexivity|]|]. intros w1 Hw1. rewrite Hw1.
  cbn zeta. match goal with |- context [bool_decide ?P] => destruct (bool_decide P) end; by eexists.
Qed.

Lemma ListGroups_run w : stage init (ListGroups ns (rbgs_Name set)) w (listing (rbgs_Name set) (groups w)) (eq (groups w)).
Proof. by exists {| w_trace := CallListGroups ns (rbgs_Name set) :: w_trace w; w_clock := w_clock w |}. Qed.

Lemma reconcile_set_run w :
  groups w = st_groups init ->
  stage init (reconcile_set set) w tt (fun s => settled set n (listing (rbgs_Name set) s)).
Proof.
  intros Hw. unfold reconcile_set. eapply stage_bind; [apply ListGroups_run|]. intros w1 Hw1. rewrite Hw in *.
  destruct (classify_run clock init items ∅ [] w1) as (existing & Hext & Hcl).
  { apply items_NoDup. }
  { intros x Hx. apply elem_of_items in Hx as [Hx _]. rewrite <-Hw1. split; [done|]. by apply (wf_names _ _ WF) in Hx as [_ ?]. }
  eapply stage_bind; [exact Hcl|]. cbn [app]. intros w2 Hw2. rewrite <-Hw1 in Hw2. rewrite (wf_replicas _ _ WF).
  eapply stage_bind; [by apply reconcile_groups_run|]. intros w3 Hw3.
  eapply stage_bind; [apply ListGroups_run|]. intros w4 Hw4.
  eapply stage_conseq; [apply updateStatus_run|]. intros s <-. rewrite <-Hw4. by eapply settled_after.
Qed.

Lemma Reconcile_run name :
  om_DeletionTimestamp (rbgs_meta set) = None ->
  stage init (Reconcile ns name) start tt (fun s => settled set n (listing (rbgs_Name set) s)).
Proof.
  intros Hd. unfold Reconcile. eapply stage_bind with (a := Ok set) (post := eq (st_groups init)).
  { by exists {| w_trace := [CallGetSet ns name]; w_clock := O |}. }
  intros w Hw. rewrite bool_decide_eq_false_2 by (rewrite Hd; by intros [? ?]). by apply reconcile_set_run.
Qed.
End converge.

(** C5: Against a server that does what it is asked, one reconcile makes the groups what
    the set describes: a controlled, up to date group for each number below the
    replicas and no other own group; and the next reconcile writes no group. *)
Theorem Reconcile_converges `{SortSlice} clock init n name :
  well_formed init n -> om_DeletionTimestamp (rbgs_meta (st_set init)) = None ->
  let run := Reconcile (ENV := server clock init) (rbgs_Namespace (st_set init)) name in
  exists w, run start = (Ok tt, w) /\
    settled (st_set init) n (listing (rbgs_Name (st_set init)) (st_groups (now_store init w))) /\
    forall r w', run w = (r, w') -> only w_trace (fun c => writes_group c = false) w w'.
Proof.
  intros WF Hd run. destruct (Reconcile_run clock init n WF name Hd) as (w & Hw & Hset). exists w.
  split; [exact Hw|]. split; [exact Hset|]. intros r w'.
  destruct (set_up_to_status init (w_trace w)) as [st Hst].
  eapply (settled_set_writes_nothing (ENV := server clock init)).
  - cbn [se_get_set server]. by rewrite Hst.
  - apply (wf_replicas _ _ WF).
  - reflexivity.
  - exact Hset.
Qed.

(** A set of two with an orphan of number 0, out of date, and one of number 5. *)
Definition demo_store : store := {|
  st_set := SetDemo.web 2; st_groups := <["web-0" := SetDemo.orphan 0]> {["web-5" := SetDemo.orphan 5]} |}.

Lemma demo_store_inv name g :
  st_groups demo_store !! name = Some g ->
  name = "web-0"%string /\ g = SetDemo.orphan 0 \/ name = "web-5"%string /\ g = SetDemo.orphan 5.
Proof.
  cbn [demo_store st_groups]. intros [[<- <-]|[_ [<- <-]%lookup_singleton_Some]]%lookup_insert_Some; auto.
Qed.

Lemma demo_well_formed : well_formed demo_store 2.
Proof.
  assert (number (SetDemo.orphan 0) = Some 0) as H0 by by vm_compute.
  assert (number (SetDemo.orphan 5) = Some 5) as H5 by by vm_compute. split.
  - done.
  - by vm_compute.
  - intros name g [[-> ->]|[-> ->]]%demo_store_inv; by vm_compute.
  - intros n1 n2 g1 g2 i [[-> ->]|[-> ->]]%demo_store_inv [[-> ->]|[-> ->]]%demo_store_inv _ _; rewrite ?H0, ?H5; congruence.
  - intros name g i [[-> ->]|[-> ->]]%demo_store_inv _; rewrite ?H0, ?H5; intros [= <-]; lia.
  - intros i Hi Hfree. assert (i = 0 \/ i = 1) as [->| ->] by lia; [|by vm_compute].
    exfalso. apply (Hfree "web-0"%string (SetDemo.orphan 0)); [by vm_compute|split; by vm_compute|done].
  - apply web_roles.
  - by vm_compute.
Qed.

Lemma Reconcile_converges_witness :
  let run := Reconcile (ENV := server (fun _ => 0) demo_store) "default" "web" in
  exists w, run start = (Ok tt, w) /\ settled (SetDemo.web 2) 2 (listing "web" (st_groups (now_store demo_store w))).
Proof.
  intros run. destruct (Reconcile_converges (fun _ => 0) demo_store 2 "web" demo_well_formed eq_refl) as (w & Hw & Hset & _).
  exists w. exact (conj Hw Hset).
Defined.
