(* ===== verification/ScalingAdapter.v ===== *)
(** The controller of a RoleBasedGroupScalingAdapter
    (internal/controller/workloads/rolebasedgroupscalingadapter_controller.go): it
    binds the adapter to a role of a group and hands the replicas of its scale
    subresource to that role.

    A server-side apply is recorded with the configuration it sends.  Logs and events
    are left out. *)
From Stdlib Require Import ZArith Lia Bool Ascii String.
From stdpp Require Import base tactics list strings gmap.
From S2P Require Import Prelude GoStrings Types Conditions GroupTypes Effects Revisions Owners Json Requests.

Definition AdapterPhaseNotBound : string := "NotBound".
Definition AdapterPhaseBound : string := "Bound".
Definition ComponentIndexLabelKey : string := RBGPrefix +:+ "component-index".

(** * The adapter (rolebasedgroupscalingadapter_types.go) *)

Record AdapterScaleTargetRef := { ref_Name : string; ref_Role : string }.

Record AdapterStatus := {
  as_Phase : string;
  as_Replicas : option Z;
  as_Selector : string;
  as_ReadyReplicas : option Z;
  as_LastScaleTime : gotime
}.

Record ScalingAdapter := {
  adp_meta : ObjectMeta;
  adp_Replicas : option Z;
  adp_ScaleTargetRef : option AdapterScaleTargetRef;
  adp_status : AdapterStatus
}.

Definition adp_Name (a : ScalingAdapter) : string := om_Name (adp_meta a).
Definition adp_Namespace (a : ScalingAdapter) : string := om_Namespace (adp_meta a).

Definition ContainsRBGOwner (a : ScalingAdapter) (g : RoleBasedGroup) : bool :=
  existsb (fun o => bool_decide (or_UID o = om_UID (rbg_meta g))) (om_OwnerReferences (adp_meta a)).

(** pkg/scale: nobody manages an adapter for a group that was not found. *)
Definition IsScalingAdapterManagedByRBG (a : ScalingAdapter) (g : option RoleBasedGroup) : bool :=
  match g with None => false | Some g => ContainsRBGOwner a g end.

(** * Apply configurations

    An unset field is [None]; the kind and version are the same in all. *)

Record StatusApply := {
  sp_Phase : option string;
  sp_Selector : option string;
  sp_Replicas : option Z;
  sp_ReadyReplicas : option Z;
  sp_LastScaleTime : gotime
}.

Record AdapterApply := {
  ap_Name : string;
  ap_Namespace : string;
  ap_Owners : list OwnerReference;
  ap_Spec : option (AdapterScaleTargetRef * option Z);
  ap_Status : option StatusApply
}.

Definition spec_apply (ref : AdapterScaleTargetRef) (replicas : option Z) (a : ScalingAdapter) : AdapterApply :=
  {| ap_Name := adp_Name a; ap_Namespace := adp_Namespace a; ap_Owners := [];
     ap_Spec := Some (ref, replicas); ap_Status := None |}.

Definition with_owner_refs (l : list OwnerReference) (c : AdapterApply) : AdapterApply :=
  {| ap_Name := ap_Name c; ap_Namespace := ap_Namespace c; ap_Owners := l; ap_Spec := ap_Spec c; ap_Status := ap_Status c |}.

Definition status_apply (st : StatusApply) (a : ScalingAdapter) : AdapterApply :=
  {| ap_Name := adp_Name a; ap_Namespace := adp_Namespace a; ap_Owners := []; ap_Spec := None; ap_Status := Some st |}.

(** The status as it is; a scaling stamps it with [now]. *)
Definition ToStatusApplyConfiguration (st : AdapterStatus) (scaled : option Z) : StatusApply := {|
  sp_Phase := Some (as_Phase st); sp_Selector := Some (as_Selector st);
  sp_Replicas := as_Replicas st; sp_ReadyReplicas := as_ReadyReplicas st;
  sp_LastScaleTime := match scaled with Some t => Some t | None => as_LastScaleTime st end |}.

Definition WithPhase (p : string) (s : StatusApply) : StatusApply := {|
  sp_Phase := Some p; sp_Selector := sp_Selector s; sp_Replicas := sp_Replicas s;
  sp_ReadyReplicas := sp_ReadyReplicas s; sp_LastScaleTime := sp_LastScaleTime s |}.
Definition WithSelector (p : string) (s : StatusApply) : StatusApply := {|
  sp_Phase := sp_Phase s; sp_Selector := Some p; sp_Replicas := sp_Replicas s;
  sp_ReadyReplicas := sp_ReadyReplicas s; sp_LastScaleTime := sp_LastScaleTime s |}.
Definition WithReplicas (n : Z) (s : StatusApply) : StatusApply := {|
  sp_Phase := sp_Phase s; sp_Selector := sp_Selector s; sp_Replicas := Some n;
  sp_ReadyReplicas := sp_ReadyReplicas s; sp_LastScaleTime := sp_LastScaleTime s |}.
Definition WithReadyReplicas (n : Z) (s : StatusApply) : StatusApply := {|
  sp_Phase := sp_Phase s; sp_Selector := sp_Selector s; sp_Replicas := sp_Replicas s;
  sp_ReadyReplicas := Some n; sp_LastScaleTime := sp_LastScaleTime s |}.

(** * Requests *)

(** The two readers: the cache of the informers and the API server itself. *)
Inductive reader := Cached | Live.

Inductive adapter_call :=
| CallGetAdapter (from : reader) (namespace name : string)
| CallListAdapters (namespace group : string)
| CallGetGroup (namespace name : string)
| CallUpdateGroup (g : RoleBasedGroup)
| CallGetWorkload (apiVersion kind namespace name : string)
| CallApplySpec (c : AdapterApply)
| CallApplyStatus (c : AdapterApply).

Class AdapterEnv := {
  ae_clock : nat -> Z;
  (* whether the controller was given a reader of the API server *)
  ae_apiReader : bool;
  ae_get_adapter : list adapter_call -> reader -> string -> string -> result ScalingAdapter;
  ae_list_adapters : list adapter_call -> string -> string -> result (list ScalingAdapter);
  ae_get_group : list adapter_call -> string -> string -> result RoleBasedGroup;
  ae_update_group : list adapter_call -> RoleBasedGroup -> result unit;
  ae_get_workload : list adapter_call -> string -> string -> string -> string -> result json;
  ae_apply_spec : list adapter_call -> AdapterApply -> result unit;
  ae_apply_status : list adapter_call -> AdapterApply -> result unit
}.

Abbreviation M := (ST (world adapter_call)).

Section controller.
Context {ENV : AdapterEnv}.

Definition GetAdapter (from : reader) (ns name : string) : M ScalingAdapter :=
  request (CallGetAdapter from ns name) (fun t => ae_get_adapter t from ns name).
Definition ListAdapters (ns group : string) : M (list ScalingAdapter) :=
  request (CallListAdapters ns group) (fun t => ae_list_adapters t ns group).
Definition GetGroup (ns name : string) : M RoleBasedGroup :=
  request (CallGetGroup ns name) (fun t => ae_get_group t ns name).
Definition UpdateGroup (g : RoleBasedGroup) : M unit := request (CallUpdateGroup g) (fun t => ae_update_group t g).
Definition GetWorkload (apiVersion kind ns name : string) : M json :=
  request (CallGetWorkload apiVersion kind ns name) (fun t => ae_get_workload t apiVersion kind ns name).
Definition ApplySpec (c : AdapterApply) : M unit := request (CallApplySpec c) (fun t => ae_apply_spec t c).
Definition ApplyStatus (c : AdapterApply) : M unit := request (CallApplyStatus c) (fun t => ae_apply_status t c).

(** * Writing the status *)

Definition getLatestAdapterStatus (a : ScalingAdapter) : M AdapterStatus :=
  latest ← GetAdapter (if ae_apiReader then Live else Cached) (adp_Namespace a) (adp_Name a); mret (adp_status latest).

(** The latest status, stamped when it records a scaling, and changed by [mutate]. *)
Definition patchAdapterStatus (a : ScalingAdapter) (scale : bool) (mutate : StatusApply -> StatusApply) : M unit :=
  status ← getLatestAdapterStatus a;
  stamp ← (if scale then t ← read_clock ae_clock; mret (Some t) else mret None);
  ApplyStatus (status_apply (mutate (ToStatusApplyConfiguration status stamp)) a).

(** * The owner reference *)

Definition rbg_owner (g : RoleBasedGroup) : OwnerReference := {|
  or_APIVersion := GroupAPIVersion; or_Kind := GroupKind; or_Name := rbg_Name g; or_UID := om_UID (rbg_meta g);
  or_Controller := None; or_BlockOwnerDeletion := Some true |}.

Definition UpdateAdapterOwnerReference (a : ScalingAdapter) (ref : AdapterScaleTargetRef) (g : RoleBasedGroup) : M unit :=
  ApplySpec (with_owner_refs [rbg_owner g] (spec_apply ref (adp_Replicas a) a)).

(** * Scaling *)

(** The first role of the name gets the replicas. *)
Fixpoint set_replicas (name : string) (n : Z) (roles : list RoleSpec) : list RoleSpec :=
  match roles with
  | [] => []
  | r :: roles' =>
      if bool_decide (role_Name r = name) then with_Replicas (Some n) r :: roles' else r :: set_replicas name n roles'
  end.

Definition scaled (name : string) (n : Z) (g : RoleBasedGroup) : RoleBasedGroup :=
  rbg_with_roles (set_replicas name n (rbg_Roles g)) g.

(** One attempt: on a conflict the group is read again for the next. *)
Definition scale_attempt (name : string) (n : Z) (g : RoleBasedGroup) : M (result unit * RoleBasedGroup) :=
  let g' := scaled name n g in
  r ← outcome (UpdateGroup g');
  match r with
  | Ok _ => mret (Ok tt, g')
  | Err e =>
      if IsConflict e then
        fresh ← outcome (GetGroup (om_Namespace (rbg_meta g')) (rbg_Name g'));
        mret (match fresh with Ok g'' => (Err e, g'') | Err e' => (Err e', g') end)
      else mret (Err e, g')
  end.

Definition updateRoleReplicas (g : RoleBasedGroup) (targetRoleName : string) (newReplicas : Z) : M unit :=
  retry_with DefaultBackoff (scale_attempt targetRoleName newReplicas) g.

(** The selector the workload publishes in its status. *)
Definition extractLabelSelectorDefault (g : RoleBasedGroup) (role : RoleSpec) : M string :=
  let spec := GetWorkloadSpec role in
  match ParseGroupVersion (ws_APIVersion spec) with
  | None => fail "unexpected GroupVersion string"
  | Some _ =>
      r ← outcome (GetWorkload (ws_APIVersion spec) (ws_Kind spec) (om_Namespace (rbg_meta g)) (GetWorkloadName (Some g) role));
      match r with
      | Err e => fail ("failed to get workload: " +:+ e)
      | Ok scaleObj =>
          let selectorField := if bool_decide (ws_Kind spec = "LeaderWorkerSet"%string) then "hpaPodSelector"%string
                               else "labelSelector"%string in
          match NestedString scaleObj ["status"; selectorField] with
          | Err e => fail ("failed to get selectore field in status: " +:+ e)
          | Ok (selectorStr, _) =>
              mret (if bool_decide (ws_Kind spec = "RoleInstanceSet"%string) && IsLeaderWorkerPattern role
                    then selectorStr +:+ "," +:+ ComponentIndexLabelKey +:+ "=0" else selectorStr)
          end
      end
  end.

(** * The reconcile

    The result is the delay after which to come back, 0 for none. *)

Definition find_target (a : ScalingAdapter) (ref : AdapterScaleTargetRef)
    : M (option RoleBasedGroup * option RoleSpec) :=
  r ← outcome (GetGroup (adp_Namespace a) (ref_Name ref));
  mret (match r with
        | Err _ => (None, None)
        | Ok g => (Some g, match GetRole (ref_Role ref) g with Ok role => Some role | Err _ => None end)
        end).

Definition unbind (a : ScalingAdapter) : M Z :=
  if bool_decide (as_Phase (adp_status a) <> AdapterPhaseNotBound) then
    outcome (patchAdapterStatus a false (WithPhase AdapterPhaseNotBound)) ≫= fun _ => mret (10 * second)
  else mret (10 * second).

Definition bound_status (role : RoleSpec) (status : option RoleStatus) (selector : string) (s : StatusApply) : StatusApply :=
  let s := match role_Replicas role with Some n => WithReplicas n s | None => s end in
  let s := WithReadyReplicas (match status with Some rs => rst_ReadyReplicas rs | None => 0 end) s in
  WithSelector selector (WithPhase AdapterPhaseBound s).

Definition bind (a : ScalingAdapter) (ref : AdapterScaleTargetRef) (g : RoleBasedGroup) (role : RoleSpec) : M Z :=
  let replicas := match role_Replicas role with Some n => Some n | None => adp_Replicas a end in
  ApplySpec (spec_apply ref replicas a) ≫= fun _ =>
  selector ← extractLabelSelectorDefault g role;
  patchAdapterStatus a false (bound_status role (GetRoleStatus (ref_Role ref) g) selector) ≫= fun _ =>
  mret second.

Definition sync_ready (a : ScalingAdapter) (status : option RoleStatus) : M unit :=
  match status with
  | Some rs =>
      if bool_decide (as_ReadyReplicas (adp_status a) = Some (rst_ReadyReplicas rs)) then mret tt
      else patchAdapterStatus a false (WithReadyReplicas (rst_ReadyReplicas rs))
  | None => mret tt
  end.

Definition sync_replicas (a : ScalingAdapter) (ref : AdapterScaleTargetRef) (g : RoleBasedGroup) (role : RoleSpec) : M Z :=
  match adp_Replicas a, role_Replicas role with
  | Some desired, Some current =>
      if desired =? current then mret 0
      else
        updateRoleReplicas g (ref_Role ref) desired ≫= fun _ =>
        patchAdapterStatus a true (WithReplicas desired) ≫= fun _ => mret 0
  | _, _ => mret 0
  end.

Definition reconcile_adapter (a : ScalingAdapter) (ref : AdapterScaleTargetRef) : M Z :=
  '(group, target) ← find_target a ref;
  if negb (IsScalingAdapterManagedByRBG a group) then mret 0
  else match group, target with
  | Some g, Some role =>
      if negb (ContainsRBGOwner a g) then UpdateAdapterOwnerReference a ref g ≫= fun _ => mret second
      else if bool_decide (as_Phase (adp_status a) <> AdapterPhaseBound) then bind a ref g role
      else sync_ready a (GetRoleStatus (ref_Role ref) g) ≫= fun _ => sync_replicas a ref g role
  | _, _ => unbind a
  end.

Definition Reconcile (ns name : string) : M Z :=
  r ← outcome (GetAdapter Cached ns name);
  match r with
  | Err e => match IgnoreNotFound e with None => mret 0 | Some e => fail e end
  | Ok a =>
      if bool_decide (is_Some (om_DeletionTimestamp (adp_meta a))) then mret 0
      else match adp_ScaleTargetRef a with
      | None => fail "RoleBasedGroupScalingAdapter.Spec.ScaleTargetRef is nil"
      | Some ref => reconcile_adapter a ref
      end
  end.

(** The adapters to reconcile when a group changes. *)
Definition mapRBGToScalingAdapters (g : RoleBasedGroup) : M (list (string * string)) :=
  r ← outcome (ListAdapters (om_Namespace (rbg_meta g)) (rbg_Name g));
  mret (match r with Err _ => [] | Ok items => map (fun a => (adp_Namespace a, adp_Name a)) items end).
End controller.

(** Which events are worth a reconcile: of an adapter, a change of its spec; of a
    group, a change of its role statuses. *)
Definition adapter_updated (old new : ScalingAdapter) : bool :=
  negb (bool_decide (adp_Replicas old = adp_Replicas new)
        && match adp_ScaleTargetRef old, adp_ScaleTargetRef new with
           | Some r, Some r' => bool_decide (ref_Name r = ref_Name r') && bool_decide (ref_Role r = ref_Role r')
           | None, None => true
           | _, _ => false
           end).

Definition RBGRoleStatus_updated (old new : RoleBasedGroup) : bool :=
  negb (bool_decide (rbg_RoleStatuses old = rbg_RoleStatuses new)).
