(* ===== verification/ScalingAdapterPass.v ===== *)
(** What a reconcile of a scaling adapter does (ScalingAdapter.v): the requests of a pass,
    whatever the API server answers, and the state a server that does what it is asked
    ends in. *)
From Stdlib Require Import ZArith Lia Bool Ascii String.
From stdpp Require Import base tactics list strings gmap.
From S2P Require Import Prelude GoStrings Types Conditions GroupTypes Effects Revisions Owners Json Requests.
From S2P Require Import ScalingAdapter.

(** * Scaling a role of a group *)

Lemma set_replicas_idem name n m roles : set_replicas name n (set_replicas name m roles) = set_replicas name n roles.
Proof.
  induction roles as [|r roles IH]; cbn [set_replicas]; [done|].
  destruct (bool_decide (role_Name r = name)) eqn:E; cbn [set_replicas].
  - by replace (role_Name (with_Replicas (Some m) r)) with (role_Name r) by done; rewrite E.
  - by rewrite E, IH.
Qed.

Lemma scaled_idem name n m g : scaled name n (scaled name m g) = scaled name n g.
Proof. unfold scaled. cbn. by rewrite set_replicas_idem. Qed.

Lemma GetRole_scaled name n g role :
  GetRole name g = Ok role -> GetRole name (scaled name n g) = Ok (with_Replicas (Some n) role).
Proof.
  unfold GetRole. case_bool_decide; [done|]. unfold scaled. cbn [rbg_Roles rbg_with_roles].
  induction (rbg_Roles g) as [|r roles IH]; cbn [List.find set_replicas]; [done|].
  destruct (bool_decide (role_Name r = name)) eqn:E; cbn [List.find].
  - intros [= ->]. cbn [role_Name with_Replicas]. by rewrite E.
  - by rewrite E.
Qed.

(** * What a reconcile may ask for *)

Definition read_call (c : adapter_call) : Prop :=
  match c with
  | CallGetAdapter _ _ _ | CallListAdapters _ _ | CallGetGroup _ _ | CallGetWorkload _ _ _ _ => True
  | _ => False
  end.

Section pass.
Context {ENV : AdapterEnv} (a : ScalingAdapter) (ref : AdapterScaleTargetRef) (g : RoleBasedGroup).

(** The group as it was read, first or after a conflict. *)
Definition group_read (base : RoleBasedGroup) : Prop := base = g \/ exists t ns name, ae_get_group t ns name = Ok base.

(** A group is only written with the replicas of its target role changed, for a bound
    adapter that wants others than the role has; a spec is only applied to bind, with
    the replicas of the role; the phase follows whether the role is there. *)
Definition pass_call (c : adapter_call) : Prop :=
  match c with
  | CallUpdateGroup g' => as_Phase (adp_status a) = AdapterPhaseBound /\
      exists role current desired base, GetRole (ref_Role ref) g = Ok role /\ role_Replicas role = Some current /\
        adp_Replicas a = Some desired /\ desired <> current /\ group_read base /\ g' = scaled (ref_Role ref) desired base
  | CallApplySpec c => as_Phase (adp_status a) <> AdapterPhaseBound /\
      exists role, GetRole (ref_Role ref) g = Ok role /\
        c = spec_apply ref (match role_Replicas role with Some n => Some n | None => adp_Replicas a end) a
  | CallApplyStatus c => exists st, c = status_apply st a /\
      (sp_Phase st = Some AdapterPhaseNotBound /\ (forall role, GetRole (ref_Role ref) g <> Ok role) \/
       is_ok (GetRole (ref_Role ref) g) = true)
  | _ => True
  end.

Lemma calls_patch scale mutate :
  (forall st, pass_call (CallApplyStatus (status_apply (mutate st) a))) ->
  calls w_trace pass_call (patchAdapterStatus a scale mutate).
Proof.
  intros Hm. unfold patchAdapterStatus, getLatestAdapterStatus, GetAdapter, ApplyStatus. calling.
  - by apply calls_ask.
  - apply calls_ask. apply Hm.
Qed.

Lemma calls_updateRoleReplicas role current desired :
  as_Phase (adp_status a) = AdapterPhaseBound -> GetRole (ref_Role ref) g = Ok role -> role_Replicas role = Some current ->
  adp_Replicas a = Some desired -> desired <> current ->
  calls w_trace pass_call (updateRoleReplicas g (ref_Role ref) desired).
Proof.
  intros Hp Hr Hc Hd Hne. unfold updateRoleReplicas.
  apply calls_retry_with with (P := fun s => exists base, group_read base /\ (s = base \/ s = scaled (ref_Role ref) desired base)).
  - intros s (base & Hb & Hs). unfold scale_attempt, UpdateGroup, GetGroup. calling.
    + apply calls_ask. cbn [pass_call]. split; [done|]. exists role, current, desired, base.
      split_and!; try done. destruct Hs as [->| ->]; [done|by rewrite scaled_idem].
    + by apply calls_ask.
  - intros s w x s' w' (base & Hb & Hs). unfold scale_attempt.
    assert (scaled (ref_Role ref) desired s = scaled (ref_Role ref) desired base) as Hsc
      by (destruct Hs as [->| ->]; [done|by rewrite scaled_idem]).
    rewrite Hsc. intros [(e & He & [=])|(r & w1 & He & Hr')]%bind_inv.
    destruct r as [[]|e]; [apply ret_inv in Hr' as [[= _ ->] _]; eauto|].
    destruct (IsConflict e); [|apply ret_inv in Hr' as [[= _ ->] _]; eauto].
    apply bind_inv in Hr' as [(e' & _ & [=])|(f & w2 & Hf & Hr')].
    apply ret_inv in Hr' as [Hr' _]. destruct f as [g''|e']; [|injection Hr' as _ ->; eauto].
    injection Hr' as _ ->. unfold outcome in Hf. apply attempt_inv in Hf as (y & w3 & Hy & [Heq _]%ret_inv).
    injection Heq as <-. apply request_eq in Hy as [Hy _]. exists g''. split; [right; eauto|by left].
  - exists g. split; [by left|by left].
Qed.

Lemma calls_selector role : calls w_trace pass_call (extractLabelSelectorDefault g role).
Proof.
  unfold extractLabelSelectorDefault, GetWorkload. calling. by apply calls_ask.
Qed.

Lemma calls_managed role :
  GetRole (ref_Role ref) g = Ok role ->
  calls w_trace pass_call
    (if bool_decide (as_Phase (adp_status a) <> AdapterPhaseBound) then bind a ref g role
     else sync_ready a (GetRoleStatus (ref_Role ref) g) ≫= fun _ => sync_replicas a ref g role).
Proof.
  intros Hrole. assert (forall scale mutate, calls w_trace pass_call (patchAdapterStatus a scale mutate)) as Hpatch.
  { intros. apply calls_patch. intros st. exists (mutate st). split; [done|]. right. by rewrite Hrole. }
  case_bool_decide as Hp.
  - unfold bind. apply calls_bind; [apply calls_ask; cbn [pass_call]; eauto|intros _].
    apply calls_bind; [apply calls_selector|intros sel]. apply calls_bind; [apply Hpatch|intros _; apply calls_ret].
  - assert (as_Phase (adp_status a) = AdapterPhaseBound) as Hb.
    { destruct (decide (as_Phase (adp_status a) = AdapterPhaseBound)); [done|by destruct Hp]. }
    apply calls_bind; [|intros _].
    + unfold sync_ready. destruct (GetRoleStatus _ _); [|apply calls_ret]. case_bool_decide; [apply calls_ret|apply Hpatch].
    + unfold sync_replicas. destruct (adp_Replicas a) as [desired|] eqn:Hd; [|apply calls_ret].
      destruct (role_Replicas role) as [current|] eqn:Hc; [|apply calls_ret].
      destruct (Z.eqb_spec desired current) as [|Hne]; [apply calls_ret|].
      apply calls_bind; [by eapply calls_updateRoleReplicas|intros _].
      apply calls_bind; [apply Hpatch|intros _; apply calls_ret].
Qed.
End pass.

Lemma calls_reads {ENV : AdapterEnv} a ref g (m : M Z) :
  calls w_trace read_call m -> calls w_trace (pass_call a ref g) m.
Proof. apply calls_mono. by intros []. Qed.

(** Taking the two reads at the start of a reconcile apart. *)
Section start.
Context {ENV : AdapterEnv}.

Lemma outcome_request {A} c (answer : list adapter_call -> result A) {B} (k : result A -> M B) w :
  (outcome (request c answer) ≫= k) w =
  k (answer (w_trace w)) {| w_trace := c :: w_trace w; w_clock := w_clock w |}.
Proof. done. Qed.

Definition after_get (ns name : string) (w : world adapter_call) : world adapter_call :=
  {| w_trace := CallGetAdapter Cached ns name :: w_trace w; w_clock := w_clock w |}.

Lemma Reconcile_found ns name w a ref :
  ae_get_adapter (w_trace w) Cached ns name = Ok a -> om_DeletionTimestamp (adp_meta a) = None ->
  adp_ScaleTargetRef a = Some ref ->
  Reconcile ns name w = reconcile_adapter a ref (after_get ns name w).
Proof.
  intros Ha Hd Hr. unfold Reconcile. unfold GetAdapter. rewrite outcome_request, Ha, Hd, Hr.
  by rewrite bool_decide_eq_false_2 by (by intros [? [=]]).
Qed.

Lemma reconcile_adapter_found a ref w g :
  ae_get_group (w_trace w) (adp_Namespace a) (ref_Name ref) = Ok g ->
  reconcile_adapter a ref w =
  (let w1 := {| w_trace := CallGetGroup (adp_Namespace a) (ref_Name ref) :: w_trace w; w_clock := w_clock w |} in
   if negb (ContainsRBGOwner a g) then (Ok 0, w1)
   else match GetRole (ref_Role ref) g with
   | Ok role =>
       (if bool_decide (as_Phase (adp_status a) <> AdapterPhaseBound) then bind a ref g role
        else sync_ready a (GetRoleStatus (ref_Role ref) g) ≫= fun _ => sync_replicas a ref g role) w1
   | Err _ => unbind a w1
   end).
Proof.
  intros Hg. unfold reconcile_adapter, find_target, GetGroup.
  erewrite bind_ok by (rewrite outcome_request, Hg; reflexivity). cbn [IsScalingAdapterManagedByRBG].
  destruct (ContainsRBGOwner a g); cbn [negb]; [|done]. by destruct (GetRole _ _).
Qed.

Lemma reconcile_adapter_missing a ref w e :
  ae_get_group (w_trace w) (adp_Namespace a) (ref_Name ref) = Err e ->
  reconcile_adapter a ref w =
  (Ok 0, {| w_trace := CallGetGroup (adp_Namespace a) (ref_Name ref) :: w_trace w; w_clock := w_clock w |}).
Proof.
  intros Hg. unfold reconcile_adapter, find_target, GetGroup.
  by erewrite bind_ok by (rewrite outcome_request, Hg; reflexivity).
Qed.
End start.

Lemma only_cons {C} (ok : C -> Prop) c w (w' : world C) k :
  ok c -> only w_trace ok {| w_trace := c :: w_trace w; w_clock := k |} w' -> only w_trace ok w w'.
Proof.
  intros Hc. apply only_trans. exists [c]. split; [done|]. by intros ? ->%list_elem_of_singleton.
Qed.

(** A reconcile of an adapter that owns nothing of the group writes nothing; of a
    managed one, it writes the group only to give the target role the replicas of a
    bound adapter, applies a spec only to bind, never an owner reference, and says
    NotBound only when the role is not there. *)
Theorem Reconcile_scales_only_its_role {ENV : AdapterEnv} ns name w a ref g r w' :
  ae_get_adapter (w_trace w) Cached ns name = Ok a -> adp_ScaleTargetRef a = Some ref ->
  ae_get_group (CallGetAdapter Cached ns name :: w_trace w) (adp_Namespace a) (ref_Name ref) = Ok g ->
  Reconcile ns name w = (r, w') ->
  only w_trace (if ContainsRBGOwner a g then pass_call a ref g else read_call) w w'.
Proof.
  intros Ha Href Hg. destruct (om_DeletionTimestamp (adp_meta a)) as [t|] eqn:Hd.
  { unfold Reconcile, GetAdapter. rewrite outcome_request, Ha, Hd. rewrite bool_decide_eq_true_2 by eauto.
    intros [-> ->]%ret_inv. eapply only_cons; [|apply only_refl]. by destruct (ContainsRBGOwner a g). }
  rewrite (Reconcile_found ns name w a ref) by done. erewrite reconcile_adapter_found by exact Hg.
  intros Hr. eapply (only_cons _ (CallGetAdapter Cached ns name)); [by destruct (ContainsRBGOwner a g)|].
  eapply (only_cons _ (CallGetGroup (adp_Namespace a) (ref_Name ref)) (after_get ns name w));
    [by destruct (ContainsRBGOwner a g)|].
  destruct (ContainsRBGOwner a g); cbn [negb] in Hr; [|injection Hr as <- <-; apply only_refl].
  destruct (GetRole (ref_Role ref) g) as [role|e] eqn:Hrole; [by eapply calls_managed|].
  revert Hr. unfold unbind. assert (calls w_trace (pass_call a ref g) (outcome (patchAdapterStatus a false (WithPhase AdapterPhaseNotBound)))) as Hc.
  { apply calls_outcome, calls_patch. intros st. exists (WithPhase AdapterPhaseNotBound st). split; [done|]. left.
    split; [done|]. intros role. by rewrite Hrole. }
  case_bool_decide; [apply calls_bind; [exact Hc|intros; apply calls_ret]|apply calls_ret].
Qed.

(** A group that is not there changes nothing: a bound adapter stays bound, and the
    reconcile does not come back. *)
Theorem missing_group_keeps_the_phase {ENV : AdapterEnv} ns name w a ref e :
  ae_get_adapter (w_trace w) Cached ns name = Ok a -> om_DeletionTimestamp (adp_meta a) = None ->
  adp_ScaleTargetRef a = Some ref ->
  ae_get_group (CallGetAdapter Cached ns name :: w_trace w) (adp_Namespace a) (ref_Name ref) = Err e ->
  exists w', Reconcile ns name w = (Ok 0, w') /\ only w_trace read_call w w'.
Proof.
  intros Ha Hd Href Hg. rewrite (Reconcile_found ns name w a ref) by done.
  erewrite reconcile_adapter_missing by exact Hg. eexists. split; [reflexivity|].
  apply (only_cons _ (CallGetAdapter Cached ns name) w _ (w_clock w)); [done|].
  eapply only_cons; [|apply only_refl]. done.
Qed.

(** * At rest *)

(** Bound, the ready replicas those of the role, and the replicas those of the role
    when both are set. *)
Definition settled (a : ScalingAdapter) (ref : AdapterScaleTargetRef) (g : RoleBasedGroup) (role : RoleSpec) : Prop :=
  as_Phase (adp_status a) = AdapterPhaseBound /\
  (forall rs, GetRoleStatus (ref_Role ref) g = Some rs -> as_ReadyReplicas (adp_status a) = Some (rst_ReadyReplicas rs)) /\
  (forall desired current, adp_Replicas a = Some desired -> role_Replicas role = Some current -> desired = current).

Lemma settled_at_rest {ENV : AdapterEnv} a ref g role w :
  settled a ref g role ->
  (if bool_decide (as_Phase (adp_status a) <> AdapterPhaseBound) then bind a ref g role
   else sync_ready a (GetRoleStatus (ref_Role ref) g) ≫= fun _ => sync_replicas a ref g role) w = (Ok 0, w).
Proof.
  intros (Hp & Hready & Heq). rewrite bool_decide_eq_false_2 by (by intros []).
  assert (sync_ready a (GetRoleStatus (ref_Role ref) g) w = (Ok tt, w)) as Hs.
  { unfold sync_ready. destruct (GetRoleStatus _ _) as [rs|]; [|done].
    by rewrite bool_decide_eq_true_2 by auto. }
  erewrite bind_ok by exact Hs. unfold sync_replicas. destruct (adp_Replicas a), (role_Replicas role); try done.
  rewrite (proj2 (Z.eqb_eq _ _)); [done|]. by apply Heq.
Qed.

Module AdapterDemo.
Definition meta (name uid : string) (owners : list OwnerReference) : ObjectMeta :=
  {| om_Name := name; om_GenerateName := ""; om_Namespace := "default"; om_UID := uid; om_ResourceVersion := "1";
     om_Generation := 1; om_CreationTimestamp := None; om_DeletionTimestamp := None; om_Labels := ∅;
     om_Annotations := ∅; om_OwnerReferences := owners; om_Finalizers := [] |}.
Definition role (n : Z) : RoleSpec := {|
  role_Name := "worker"; role_Labels := ∅; role_Annotations := ∅; role_Replicas := Some n; role_RollingUpdate := None;
  role_Dependencies := []; role_Pattern := standalone no_template; role_ScalingAdapter := None;
  role_MinReadySeconds := 0; role_rest := no_rest |}.
Definition group (n : Z) : RoleBasedGroup := {|
  rbg_meta := meta "web" "uid-web" []; rbg_Roles := [role n]; rbg_RoleTemplates := []; rbg_ObservedGeneration := 0;
  rbg_Conditions := [];
  rbg_RoleStatuses := [{| rst_Name := "worker"; rst_ReadyReplicas := 2; rst_Replicas := 2; rst_UpdatedReplicas := 2 |}] |}.
Definition target : AdapterScaleTargetRef := {| ref_Name := "web"; ref_Role := "worker" |}.
(** An adapter of the phase that asks for five workers. *)
Definition adapter (phase : string) : ScalingAdapter := {|
  adp_meta := meta "web-worker" "uid-a" [rbg_owner (group 2)]; adp_Replicas := Some 5;
  adp_ScaleTargetRef := Some target;
  adp_status := {| as_Phase := phase; as_Replicas := None; as_Selector := ""; as_ReadyReplicas := None; as_LastScaleTime := None |} |}.
Definition published : json :=
  JObject {["status"%string := JObject {["labelSelector"%string := JString "app=web"]}]}.

(** A server that always shows the same adapter and group. *)
Definition env (a : ScalingAdapter) (g : RoleBasedGroup) : AdapterEnv := {|
  ae_clock := fun _ => 0;
  ae_apiReader := true;
  ae_get_adapter := fun _ _ _ _ => Ok a;
  ae_list_adapters := fun _ _ _ => Ok [a];
  ae_get_group := fun _ _ name => if bool_decide (name = rbg_Name g) then Ok g else Err NotFoundError;
  ae_update_group := fun _ _ => Ok tt;
  ae_get_workload := fun _ _ _ _ _ => Ok published;
  ae_apply_spec := fun _ _ => Ok tt;
  ae_apply_status := fun _ _ => Ok tt |}.
End AdapterDemo.

Lemma Reconcile_scales_only_its_role_witness :
  let env := AdapterDemo.env (AdapterDemo.adapter AdapterPhaseBound) (AdapterDemo.group 2) in
  only w_trace (@pass_call env (AdapterDemo.adapter AdapterPhaseBound) AdapterDemo.target (AdapterDemo.group 2)) start
    (@Reconcile env "default" "web-worker" start).2.
Proof.
  cbv zeta. set (env := AdapterDemo.env _ _).
  destruct (@Reconcile env "default" "web-worker" start) as [r w'] eqn:Hr.
  apply (@Reconcile_scales_only_its_role env "default" "web-worker" start (AdapterDemo.adapter AdapterPhaseBound)
    AdapterDemo.target (AdapterDemo.group 2) r w'); [reflexivity|reflexivity|reflexivity|exact Hr].
Defined.

Lemma missing_group_keeps_the_phase_witness :
  let env := AdapterDemo.env (AdapterDemo.adapter AdapterPhaseBound) (rbg_with_meta (AdapterDemo.meta "other" "u" []) (AdapterDemo.group 2)) in
  exists w', @Reconcile env "default" "web-worker" start = (Ok 0, w') /\ only w_trace read_call start w'.
Proof.
  cbv zeta. set (env := AdapterDemo.env _ _).
  apply (@missing_group_keeps_the_phase env "default" "web-worker" start (AdapterDemo.adapter AdapterPhaseBound)
    AdapterDemo.target NotFoundError); reflexivity.
Defined.

(** * The server *)

Definition with_spec (ref : AdapterScaleTargetRef) (n : option Z) (a : ScalingAdapter) : ScalingAdapter := {|
  adp_meta := adp_meta a; adp_Replicas := match n with Some _ => n | None => adp_Replicas a end;
  adp_ScaleTargetRef := Some ref; adp_status := adp_status a |}.

Definition with_status (st : StatusApply) (a : ScalingAdapter) : ScalingAdapter := {|
  adp_meta := adp_meta a; adp_Replicas := adp_Replicas a; adp_ScaleTargetRef := adp_ScaleTargetRef a;
  adp_status := {|
    as_Phase := default (as_Phase (adp_status a)) (sp_Phase st);
    as_Replicas := match sp_Replicas st with Some n => Some n | None => as_Replicas (adp_status a) end;
    as_Selector := default (as_Selector (adp_status a)) (sp_Selector st);
    as_ReadyReplicas := match sp_ReadyReplicas st with Some n => Some n | None => as_ReadyReplicas (adp_status a) end;
    as_LastScaleTime := match sp_LastScaleTime st with Some t => Some t | None => as_LastScaleTime (adp_status a) end |} |}.

Definition serve (c : adapter_call) (s : ScalingAdapter * RoleBasedGroup) : ScalingAdapter * RoleBasedGroup :=
  match c with
  | CallUpdateGroup g => (s.1, g)
  | CallApplySpec c => match ap_Spec c with Some (ref, n) => (with_spec ref n s.1, s.2) | None => s end
  | CallApplyStatus c => match ap_Status c with Some st => (with_status st s.1, s.2) | None => s end
  | _ => s
  end.

Section server.
Context (a0 : ScalingAdapter) (g0 : RoleBasedGroup) (workload : json) (clock : nat -> Z) (live : bool).

(** The adapter and the group after the requests of a trace. *)
Definition stored (t : list adapter_call) : ScalingAdapter * RoleBasedGroup := foldr serve (a0, g0) t.

#[local] Instance keeping : AdapterEnv := {|
  ae_clock := clock;
  ae_apiReader := live;
  ae_get_adapter t _ ns name :=
    if bool_decide (ns = adp_Namespace a0) && bool_decide (name = adp_Name a0) then Ok (stored t).1 else Err NotFoundError;
  ae_list_adapters t ns group := Ok [(stored t).1];
  ae_get_group t ns name :=
    if bool_decide (ns = om_Namespace (rbg_meta g0)) && bool_decide (name = rbg_Name g0) then Ok (stored t).2 else Err NotFoundError;
  ae_update_group _ _ := Ok tt;
  ae_get_workload _ _ _ _ _ := Ok workload;
  ae_apply_spec _ _ := Ok tt;
  ae_apply_status _ _ := Ok tt |}.

(** An adapter stored under the name of the first. *)
Definition same_adapter (a : ScalingAdapter) : Prop := adp_meta a = adp_meta a0.

Lemma get_adapter_stored t from a :
  same_adapter a -> ae_get_adapter t from (adp_Namespace a) (adp_Name a) = Ok (stored t).1.
Proof. intros Ha. unfold adp_Namespace, adp_Name. rewrite Ha. cbn. by rewrite !bool_decide_eq_true_2. Qed.

Lemma patch_served a scale mutate w :
  same_adapter a -> exists w' stamp, patchAdapterStatus a scale mutate w = (Ok tt, w') /\
    stored (w_trace w') =
      (with_status (mutate (ToStatusApplyConfiguration (adp_status (stored (w_trace w)).1) stamp)) (stored (w_trace w)).1,
       (stored (w_trace w)).2).
Proof.
  intros Ha. unfold patchAdapterStatus. set (from := if live then Live else Cached).
  assert (getLatestAdapterStatus a w = (Ok (adp_status (stored (w_trace w)).1),
    {| w_trace := CallGetAdapter from (adp_Namespace a) (adp_Name a) :: w_trace w; w_clock := w_clock w |})) as Hl.
  { unfold getLatestAdapterStatus, GetAdapter. cbn [ae_apiReader]. fold from.
    unfold mbind, ST_bind, request. by rewrite get_adapter_stored. }
  erewrite bind_ok by exact Hl. destruct scale; eexists _, _; (split; [reflexivity|reflexivity]).
Qed.

Lemma updateRoleReplicas_served g name n w :
  exists w', updateRoleReplicas g name n w = (Ok tt, w') /\ stored (w_trace w') = ((stored (w_trace w)).1, scaled name n g).
Proof. eexists. split; [reflexivity|reflexivity]. Qed.

Context (ref : AdapterScaleTargetRef) (sel : string) (found : bool) (gv : string * string).

(** What the adapter needs to be bound and scaled. *)
Definition bindable (a : ScalingAdapter) (g : RoleBasedGroup) (role : RoleSpec) : Prop :=
  same_adapter a /\ om_DeletionTimestamp (adp_meta a0) = None /\ adp_ScaleTargetRef a = Some ref /\
  ref_Name ref = rbg_Name g0 /\ adp_Namespace a0 = om_Namespace (rbg_meta g0) /\
  rbg_meta g = rbg_meta g0 /\ ContainsRBGOwner a0 g0 = true /\ GetRole (ref_Role ref) g = Ok role.

Lemma reconcile_served a g role w :
  stored (w_trace w) = (a, g) -> bindable a g role ->
  exists w1, stored (w_trace w1) = (a, g) /\ only w_trace read_call w w1 /\
  Reconcile (adp_Namespace a0) (adp_Name a0) w =
    (if bool_decide (as_Phase (adp_status a) <> AdapterPhaseBound) then bind a ref g role
     else sync_ready a (GetRoleStatus (ref_Role ref) g) ≫= fun _ => sync_replicas a ref g role) w1.
Proof.
  intros Hw (Ha & Hd & Href & Hname & Hns & Hg & Hown & Hrole).
  pose (w1 := {| w_trace := CallGetGroup (adp_Namespace a) (ref_Name ref)
                   :: CallGetAdapter Cached (adp_Namespace a0) (adp_Name a0) :: w_trace w; w_clock := w_clock w |}).
  exists w1. split; [done|]. split.
  { apply (only_cons _ (CallGetAdapter Cached (adp_Namespace a0) (adp_Name a0)) w _ (w_clock w)); [done|].
    eapply only_cons; [|apply only_refl]. done. }
  rewrite (Reconcile_found _ _ _ a ref); [|by cbn; rewrite !bool_decide_eq_true_2, Hw by done|by rewrite Ha|done].
  erewrite reconcile_adapter_found.
  2: { cbn. assert (adp_Namespace a = adp_Namespace a0) as -> by (unfold adp_Namespace; by rewrite Ha).
       rewrite !bool_decide_eq_true_2 by done. cbn. fold (stored (w_trace w)). rewrite Hw. reflexivity. }
  cbn [fst snd]. assert (ContainsRBGOwner a g = true) as ->.
  { unfold ContainsRBGOwner in *. by rewrite Ha, Hg. }
  cbn [negb]. by rewrite Hrole.
Qed.

Lemma bind_served a g role w :
  stored (w_trace w) = (a, g) -> bindable a g role ->
  ParseGroupVersion (ws_APIVersion (GetWorkloadSpec role)) = Some gv ->
  NestedString workload ["status"; if bool_decide (ws_Kind (GetWorkloadSpec role) = "LeaderWorkerSet"%string)
                                   then "hpaPodSelector"%string else "labelSelector"%string] = Ok (sel, found) ->
  exists w' a', bind a ref g role w = (Ok second, w') /\ stored (w_trace w') = (a', g) /\ bindable a' g role /\
    settled a' ref g role /\ adp_Replicas a' = match role_Replicas role with Some n => Some n | None => adp_Replicas a end.
Proof.
  intros Hw Hb Hgv Hsel. unfold bind.
  set (w1 := {| w_trace := CallApplySpec (spec_apply ref (match role_Replicas role with Some n => Some n | None => adp_Replicas a end) a)
                  :: w_trace w; w_clock := w_clock w |}).
  erewrite bind_ok by (unfold ApplySpec, request; reflexivity). fold w1.
  assert (stored (w_trace w1) =
    (with_spec ref (match role_Replicas role with Some n => Some n | None => adp_Replicas a end) a, g)) as Hw1.
  { cbn. fold (stored (w_trace w)). by rewrite Hw. }
  assert (exists sel' w2, extractLabelSelectorDefault g role w1 = (Ok sel', w2) /\ stored (w_trace w2) = stored (w_trace w1)) as (sel' & w2 & Hs & Hw2).
  { unfold extractLabelSelectorDefault, GetWorkload. rewrite Hgv. setoid_rewrite outcome_request. cbn [ae_get_workload keeping].
    rewrite Hsel. eexists _, _. split; [reflexivity|]. done. }
  erewrite bind_ok by exact Hs. rewrite Hw1 in Hw2. destruct Hb as (Ha & Hd & Href & Hname & Hns & Hg & Hown & Hrole).
  destruct (patch_served a false (bound_status role (GetRoleStatus (ref_Role ref) g) sel') w2 Ha) as (w3 & stamp & Hp & Hw3).
  erewrite bind_ok by exact Hp. rewrite Hw2 in Hw3. cbn [fst snd] in Hw3.
  eexists w3, _. split; [reflexivity|]. split; [exact Hw3|]. split; [by split_and!|]. split.
  - split; [by unfold bound_status; destruct (role_Replicas role)|]. split.
    + intros rs Hrs. unfold bound_status. rewrite Hrs. by destruct (role_Replicas role).
    + intros desired current. cbn. destruct (role_Replicas role); cbn; congruence.
  - cbn. by destruct (role_Replicas role), (adp_Replicas a).
Qed.

Lemma sync_served a g role w :
  stored (w_trace w) = (a, g) -> bindable a g role -> as_Phase (adp_status a) = AdapterPhaseBound ->
  exists w' a' g' role', (sync_ready a (GetRoleStatus (ref_Role ref) g) ≫= fun _ => sync_replicas a ref g role) w = (Ok 0, w') /\
    stored (w_trace w') = (a', g') /\ bindable a' g' role' /\ settled a' ref g' role' /\ adp_Replicas a' = adp_Replicas a /\
    role_Replicas role' = match adp_Replicas a, role_Replicas role with Some d, Some _ => Some d | _, n => n end.
Proof.
  intros Hw Hb Hphase. pose proof Hb as (Ha & Hd & Href & Hname & Hns & Hg & Hown & Hrole).
  (* the ready replicas *)
  assert (exists w1 a1, sync_ready a (GetRoleStatus (ref_Role ref) g) w = (Ok tt, w1) /\ stored (w_trace w1) = (a1, g) /\
    adp_meta a1 = adp_meta a /\ adp_ScaleTargetRef a1 = adp_ScaleTargetRef a /\ adp_Replicas a1 = adp_Replicas a /\
    as_Phase (adp_status a1) = AdapterPhaseBound /\
    (forall rs, GetRoleStatus (ref_Role ref) g = Some rs -> as_ReadyReplicas (adp_status a1) = Some (rst_ReadyReplicas rs)))
    as (w1 & a1 & H1 & Hw1 & Hm1 & Hr1 & Hn1 & Hp1 & Hrs1).
  { unfold sync_ready. destruct (GetRoleStatus _ _) as [rs|]; [|by exists w, a].
    case_bool_decide as Hready; [exists w, a; split_and!; try done; by intros ? [= <-]|].
    destruct (patch_served a false (WithReadyReplicas (rst_ReadyReplicas rs)) w Ha) as (w1 & stamp & Hp & Hw1).
    rewrite Hw in Hw1. exists w1. eexists. split; [exact Hp|]. split; [exact Hw1|]. split_and!; try done.
    by intros ? [= <-]. }
  erewrite bind_ok by exact H1.
  assert (bindable a1 g role) as Hb1 by (split_and!; try done; [exact (eq_trans Hm1 Ha)|by rewrite Hr1]).
  unfold sync_replicas. destruct (adp_Replicas a) as [d|] eqn:Hda.
  2: { exists w1, a1, g, role. split_and!; try done. split; [done|]. split; [done|]. intros d c. by rewrite Hn1. }
  destruct (role_Replicas role) as [c|] eqn:Hc.
  2: { exists w1, a1, g, role. split_and!; try done. split; [done|]. split; [done|]. intros d' c'. by rewrite Hc. }
  destruct (Z.eqb_spec d c) as [->|Hne].
  { exists w1, a1, g, role. split_and!; try done. split; [done|]. split; [done|]. intros d' c'. rewrite Hn1, Hc. congruence. }
  destruct (updateRoleReplicas_served g (ref_Role ref) d w1) as (w2 & H2 & Hw2).
  erewrite bind_ok by exact H2.
  destruct (patch_served a true (WithReplicas d) w2 Ha) as (w3 & stamp & H3 & Hw3).
  erewrite bind_ok by exact H3. rewrite Hw2, Hw1 in Hw3. cbn [fst snd] in Hw3.
  eexists w3, _, _, (with_Replicas (Some d) role). split; [reflexivity|]. split; [exact Hw3|].
  split; [split_and!; try done; [exact (eq_trans Hm1 Ha)|by cbn; rewrite Hr1|by apply GetRole_scaled]|].
  split; [|split; [by cbn|done]]. split; [by cbn; rewrite ?Hp1|]. split.
  - intros rs Hrs. cbn. rewrite (Hrs1 rs Hrs). done.
  - intros d' c'. cbn. rewrite Hn1. congruence.
Qed.
End server.

(** C10: Served by a server that keeps what it is told, with its role there and a workload
    that publishes a selector, an adapter owned by its group settles in one pass: bound,
    with its ready replicas those of the role. An adapter that was not bound gets the
    replicas of the role and the group is left as it is; the role of a bound adapter
    gets the replicas the adapter asks for. The pass after that only reads. *)
Theorem Reconcile_settles (a0 : ScalingAdapter) (g0 : RoleBasedGroup) (workload : json) (clock : nat -> Z) (live : bool)
    ref sel found gv role :
  let env := keeping a0 g0 workload clock live in
  let pass := @Reconcile env (adp_Namespace a0) (adp_Name a0) in
  let w1 := (pass start).2 in
  bindable a0 g0 ref a0 g0 role -> ParseGroupVersion (ws_APIVersion (GetWorkloadSpec role)) = Some gv ->
  NestedString workload ["status"; if bool_decide (ws_Kind (GetWorkloadSpec role) = "LeaderWorkerSet"%string)
                                   then "hpaPodSelector"%string else "labelSelector"%string] = Ok (sel, found) ->
  exists delay a1 g1 role1, (pass start).1 = Ok delay /\ stored a0 g0 (w_trace w1) = (a1, g1) /\
    GetRole (ref_Role ref) g1 = Ok role1 /\ settled a1 ref g1 role1 /\
    (if bool_decide (as_Phase (adp_status a0) = AdapterPhaseBound)
     then adp_Replicas a1 = adp_Replicas a0 /\
          role_Replicas role1 = match adp_Replicas a0, role_Replicas role with Some d, Some _ => Some d | _, n => n end
     else g1 = g0 /\ adp_Replicas a1 = match role_Replicas role with Some n => Some n | None => adp_Replicas a0 end) /\
    (pass w1).1 = Ok 0 /\ only w_trace read_call w1 (pass w1).2.
Proof.
  cbv zeta. intros Hb Hgv Hsel. set (pass := @Reconcile (keeping a0 g0 workload clock live) (adp_Namespace a0) (adp_Name a0)).
  (* once settled, a pass reads *)
  assert (forall a g r w, stored a0 g0 (w_trace w) = (a, g) -> bindable a0 g0 ref a g r -> settled a ref g r ->
    (pass w).1 = Ok 0 /\ only w_trace read_call w (pass w).2) as Hrest.
  { intros a g r w Hw Hbr Hs. destruct (reconcile_served a0 g0 workload clock live ref a g r w Hw Hbr) as (w2 & _ & Ho & Hr).
    unfold pass. rewrite Hr, settled_at_rest by done. done. }
  destruct (reconcile_served a0 g0 workload clock live ref a0 g0 role start eq_refl Hb) as (w & Hw & _ & Hr).
  fold pass in Hr. rewrite Hr.
  destruct (decide (as_Phase (adp_status a0) = AdapterPhaseBound)) as [Hp|Hp].
  - rewrite (bool_decide_eq_true_2 _ Hp), bool_decide_eq_false_2 by (by intros []).
    destruct (sync_served a0 g0 workload clock live ref a0 g0 role w Hw Hb Hp)
      as (w' & a1 & g1 & role1 & Hs & Hw' & Hb1 & Hset & Hn & Hrn).
    rewrite Hs. cbn [fst snd].
    exists 0, a1, g1, role1. destruct (Hrest a1 g1 role1 w' Hw' Hb1 Hset).
    split_and!; try done. by destruct Hb1 as (? & ? & ? & ? & ? & ? & ? & ?).
  - rewrite (bool_decide_eq_false_2 _ Hp), bool_decide_eq_true_2 by done.
    destruct (bind_served a0 g0 workload clock live ref sel found gv a0 g0 role w Hw Hb Hgv Hsel)
      as (w' & a1 & Hbind & Hw' & Hb1 & Hset & Hn).
    rewrite Hbind. cbn [fst snd]. exists second, a1, g0, role. destruct (Hrest a1 g0 role w' Hw' Hb1 Hset).
    split_and!; try done. by destruct Hb1 as (? & ? & ? & ? & ? & ? & ? & ?).
Qed.

Example scaled_to_five :
  rbg_Roles (stored (AdapterDemo.adapter AdapterPhaseBound) (AdapterDemo.group 2)
    (w_trace (@Reconcile (keeping (AdapterDemo.adapter AdapterPhaseBound) (AdapterDemo.group 2) JNull (fun _ => 0) true)
                "default" "web-worker" start).2)).2 = [AdapterDemo.role 5].
Proof. vm_compute. reflexivity. Qed.

Lemma Reconcile_settles_witness :
  exists delay a1 g1 role1,
    (@Reconcile (keeping (AdapterDemo.adapter "") (AdapterDemo.group 2) AdapterDemo.published (fun _ => 0) true)
       "default" "web-worker" start).1 = Ok delay /\
    settled a1 AdapterDemo.target g1 role1 /\ adp_Replicas a1 = Some 2.
Proof.
  pose proof (Reconcile_settles (AdapterDemo.adapter "") (AdapterDemo.group 2) AdapterDemo.published (fun _ => 0) true
    AdapterDemo.target "app=web" true ("workloads.x-k8s.io", "v1alpha2") (AdapterDemo.role 2)) as H.
  destruct H as (d & a1 & g1 & r1 & Hd & _ & _ & Hs & Hn & _).
  - split; [reflexivity|]. split; [reflexivity|]. split; [reflexivity|]. split; [reflexivity|]. split; [reflexivity|].
    split; [reflexivity|]. split; [vm_compute; reflexivity|reflexivity].
  - vm_compute. reflexivity.
  - vm_compute. reflexivity.
  - exists d, a1, g1, r1. split; [exact Hd|]. split; [exact Hs|]. exact (proj2 Hn).
Defined.
