(* ===== verification/Admission.v ===== *)
(** Admission of the custom resources (api/workloads/v1alpha2): what the webhooks
    refuse - rollouts that cannot progress, dependency cycles, replicas against a
    scaling adapter, new uses of deprecated workload types, gang minimums that cannot
    hold - and the update types the defaulters rewrite; the checks of role templates
    that the group controller makes.

    A validator returns its error, if any; objects of another Go type do not arise. *)
From Stdlib Require Import ZArith Lia Bool Ascii String.
From stdpp Require Import base tactics list strings gmap sets.
From S2P Require Import Prelude GoStrings IntOrString Types Conditions GroupTypes Effects Revisions Dependency GroupSet ScalingAdapter.

(** [name[i]] *)
Definition at_index (name : string) (i : nat) : string := name +:+ "[" +:+ Itoa (Z.of_nat i) +:+ "]".

(** * Labels of DNS names (k8s.io/apimachinery/pkg/util/validation) *)

Definition lower_alphanumeric (c : ascii) : bool :=
  let n := Z.of_nat (nat_of_ascii c) in is_digit c || (97 <=? n) && (n <=? 122).

(** [[a-z0-9]([-a-z0-9]*[a-z0-9])?] *)
Definition dns1123Label (l : list ascii) : bool :=
  match l, rev l with
  | first :: _, last :: _ =>
      lower_alphanumeric first && lower_alphanumeric last
      && forallb (fun c => lower_alphanumeric c || bool_decide (c = "-"%char)) l
  | _, _ => false
  end.

Definition dns1123Subdomain (s : string) : bool := forallb (fun l => dns1123Label (chars l)) (Split s ".").

Definition DNS1123LabelMaxLength : nat := 63.

Definition IsDNS1123Label (value : string) : list error :=
  (if (DNS1123LabelMaxLength <? String.length value)%nat then ["must be no more than 63 characters"%string] else [])
  ++ (if dns1123Label (chars value) then []
      else if dns1123Subdomain value then ["must not contain dots"%string]
      else ["a lowercase RFC 1123 label must consist of lower case alphanumeric characters or '-', and must start and end with an alphanumeric character (e.g. 'my-name',  or '123-abc', regex used for validation is '[a-z0-9]([-a-z0-9]*[a-z0-9])?')"%string]).

Definition ValidateRoleBasedGroupName (g : RoleBasedGroup) : option error :=
  match IsDNS1123Label (rbg_Name g) with
  | e :: _ => Some ("metadata.name: " +:+ quoted (rbg_Name g) +:+ " is not a valid DNS label: " +:+ e)
  | [] => None
  end.

(** * Rollouts *)

Definition scaledIntOrPercent (v : option IntOrString) (replicas : Z) (roundUp : bool) (defaultVal : Z) : result Z :=
  match v with None => Ok defaultVal | Some _ => GetScaledValueFromIntOrPercent v replicas roundUp end.

Definition invalid_value (path : string) (v : option IntOrString) : error :=
  path +:+ ": invalid value " +:+ quoted (IntOrString_String v).

Definition validateRoleRollingUpdate (index : nat) (ru : RollingUpdate) (replicas : Z) : list error :=
  let path := at_index "spec.roles" index +:+ ".rolloutStrategy.rollingUpdate" in
  let maxSurge := scaledIntOrPercent (ru_MaxSurge ru) replicas true 0 in
  let maxUnavailable := scaledIntOrPercent (ru_MaxUnavailable ru) replicas false 1 in
  (if is_ok maxSurge then [] else [invalid_value (path +:+ ".maxSurge") (ru_MaxSurge ru)])
  ++ (if is_ok maxUnavailable then [] else [invalid_value (path +:+ ".maxUnavailable") (ru_MaxUnavailable ru)])
  ++ match maxSurge, maxUnavailable with
     | Ok s, Ok u => if (s =? 0) && (u =? 0) then [path +:+ ": maxSurge and maxUnavailable cannot both be 0"] else []
     | _, _ => []
     end
  ++ match ru_Partition ru with
     | None => []
     | Some _ =>
         match GetScaledValueFromIntOrPercent (ru_Partition ru) replicas true with
         | Err _ => [invalid_value (path +:+ ".partition") (ru_Partition ru)]
         | Ok partition =>
             if int32 partition >=? replicas then
               [path +:+ ".partition: " +:+ Itoa partition +:+ " must be less than replicas " +:+ Itoa replicas]
             else []
         end
     end.

Definition ValidateRollingUpdate (g : RoleBasedGroup) : option error :=
  NewAggregate (concat (imap (fun i role =>
    match role_RollingUpdate role, role_Replicas role with
    | Some ru, Some n => if n =? 0 then [] else validateRoleRollingUpdate i ru n
    | _, _ => []
    end) (rbg_Roles g))).

(** * Dependencies *)

Definition known_dependency (roles : list RoleSpec) (role : RoleSpec) (dependency : string) : bool :=
  negb (bool_decide (dependency = role_Name role)) && bool_decide (dependency ∈ map role_Name roles).

Definition add_edge (name dependency : string) (g : graph) : graph :=
  <[name := default [] (g !! name) ++ [dependency]]> g.

(** The dependencies on other roles of the group. *)
Definition dependency_graph (roles : list RoleSpec) : graph :=
  fold_left (fun g role =>
    fold_left (fun g d => if known_dependency roles role d then add_edge (role_Name role) d g else g)
      (role_Dependencies role) g) roles ∅.

Definition dependency_errors (fieldPath : string) (roles : list RoleSpec) : list error :=
  concat (imap (fun i role => concat (imap (fun j d =>
    let path := at_index fieldPath i +:+ at_index ".dependencies" j in
    if bool_decide (d = role_Name role) then [path +:+ ": role " +:+ quoted (role_Name role) +:+ " cannot depend on itself"]
    else if bool_decide (d ∈ map role_Name roles) then []
    else [path +:+ ": role " +:+ quoted (role_Name role) +:+ " depends on unknown role " +:+ quoted d])
    (role_Dependencies role))) roles).

Inductive mark := Visiting | Visited.
Abbreviation marks := (gmap string mark).

(** The path from the first occurrence of the name on, closed by the name. *)
Fixpoint appendCycle (path : list string) (roleName : string) : list string :=
  match path with
  | [] => [roleName]
  | x :: path' => if bool_decide (x = roleName) then path ++ [roleName] else appendCycle path' roleName
  end.

Section search.
Context (deps : graph).

(** A cycle, or the marks after the search; [visit] is the closure. *)
Fixpoint visit_each (visit : marks -> string -> option (list string + marks)) (ds : list string) (st : marks)
    : option (list string + marks) :=
  match ds with
  | [] => Some (inr st)
  | d :: ds' =>
      match visit st d with
      | Some (inr st') => visit_each visit ds' st'
      | r => r
      end
  end.

(** [None] is running out of fuel. *)
Fixpoint search (fuel : nat) (path : list string) (st : marks) (roleName : string) : option (list string + marks) :=
  match fuel with
  | O => None
  | S fuel' =>
      match st !! roleName with
      | Some Visiting => Some (inl (appendCycle path roleName))
      | Some Visited => Some (inr st)
      | None =>
          match visit_each (search fuel' (path ++ [roleName])) (default [] (deps !! roleName)) (<[roleName := Visiting]> st) with
          | Some (inr st') => Some (inr (<[roleName := Visited]> st'))
          | r => r
          end
      end
  end.

(** The loop over the roles skips the marked ones. *)
Definition search_roles (fuel : nat) (names : list string) (st : marks) : option (list string + marks) :=
  visit_each (fun st name => if bool_decide (st !! name = None) then search fuel [] st name else Some (inr st)) names st.
End search.

(** One more than the number of roles is fuel enough. *)
Definition find_cycle (roles : list RoleSpec) (deps : graph) : option (list string + marks) :=
  search_roles deps (S (length roles)) (map role_Name roles) ∅.

Definition validateNoRoleDependencyCycle (fieldPath : string) (roles : list RoleSpec) (deps : graph) : list error :=
  match find_cycle roles deps with
  | Some (inl cycle) => [fieldPath +:+ ": dependency cycle detected: " +:+ Join cycle " -> "]
  | _ => []
  end.

Definition validateRoleDependencies (fieldPath : string) (roles : list RoleSpec) : option error :=
  NewAggregate (dependency_errors fieldPath roles
                ++ validateNoRoleDependencyCycle fieldPath roles (dependency_graph roles)).

Definition ValidateRoleDependencies (g : RoleBasedGroup) : option error :=
  validateRoleDependencies "spec.roles" (rbg_Roles g).

(** * Deprecated workload types *)

Definition isDeprecatedWorkloadType (wt : string) : bool :=
  bool_decide (wt = DeploymentWorkloadType) || bool_decide (wt = StatefulSetWorkloadType)
  || bool_decide (wt = LeaderWorkerSetWorkloadType).

Definition deprecatedWorkloadTypeHint : string := "note: the v1alpha1 schema defaults spec.roles[].workload to apps/v1 StatefulSet, so a role submitted via the v1alpha1 API carries a deprecated workload type even if you never set one; fix: set workload.apiVersion=workloads.x-k8s.io/v1alpha2 and workload.kind=RoleInstanceSet on the role (or submit the object as v1alpha2, where RoleInstanceSet is the default), or re-enable the deprecated workload types (Helm: controller.deprecatedWorkloadTypes.enabled=true, controller: --enable-deprecated-workload-types=true)".

Definition deprecatedWorkloadTypeCompatHint : string := "note: the v1alpha1 schema defaults spec.roles[].workload to apps/v1 StatefulSet, so a role submitted via the v1alpha1 API carries a deprecated workload type even if you never set one; fix: migrate this role to RoleInstanceSet (set workload.apiVersion=workloads.x-k8s.io/v1alpha2 and workload.kind=RoleInstanceSet, or submit the object as v1alpha2, where RoleInstanceSet is the default); roles that already used the deprecated workload type before the upgrade remain accepted while the compatibility flag is enabled (Helm: controller.deprecatedWorkloadTypes.enabled=true, controller: --enable-deprecated-workload-types=true)".

Definition hinted (allErrs : list error) (hint : string) : option error :=
  match allErrs with [] => None | _ => Some (aggregate_message allErrs +:+ "; " +:+ hint) end.

Definition role_error (fieldPath : string) (i : nat) (role : RoleSpec) (what : string) : error :=
  at_index fieldPath i +:+ " (role " +:+ quoted (role_Name role) +:+ "): workload type "
    +:+ quoted (GetWorkloadType role) +:+ what.

Definition validateNoDeprecatedWorkloadTypes (fieldPath : string) (roles : list RoleSpec) : option error :=
  hinted (concat (imap (fun i role =>
    if isDeprecatedWorkloadType (GetWorkloadType role)
    then [role_error fieldPath i role " is deprecated and not enabled on this cluster"] else []) roles))
    deprecatedWorkloadTypeHint.

(** The last role of a name counts. *)
Definition workload_types (roles : list RoleSpec) : gmap string string :=
  fold_left (fun m role => <[role_Name role := GetWorkloadType role]> m) roles ∅.

Definition validateNoNewDeprecatedWorkloadTypes (fieldPath : string) (roles oldRoles : list RoleSpec) : option error :=
  let oldWorkloadTypes := workload_types oldRoles in
  hinted (concat (imap (fun i role =>
    let wt := GetWorkloadType role in
    if isDeprecatedWorkloadType wt && negb (bool_decide (oldWorkloadTypes !! role_Name role = Some wt))
    then [role_error fieldPath i role " is deprecated; new uses are not accepted"] else []) roles))
    deprecatedWorkloadTypeCompatHint.

Definition containsDeprecatedWorkloadType (roles : list RoleSpec) : bool :=
  existsb (fun role => isDeprecatedWorkloadType (GetWorkloadType role)) roles.

(** * The validator of groups *)

Record api_reader := {
  read_adapter : string -> string -> result ScalingAdapter;
  read_set : string -> string -> result RoleBasedGroupSet
}.

Record RoleBasedGroupValidator := {
  v_Client : option api_reader;
  v_APIReader : option api_reader;
  v_EnableDeprecatedWorkloadTypes : bool
}.

Definition wanted_types (roles : list RoleSpec) : gmap string string :=
  workload_types (List.filter (fun role => isDeprecatedWorkloadType (GetWorkloadType role)) roles).

Definition exempt_roles (g : RoleBasedGroup) (templateRoles : list RoleSpec) : list RoleSpec :=
  List.filter (fun role => bool_decide (wanted_types (rbg_Roles g) !! role_Name role = Some (GetWorkloadType role))) templateRoles.

(** The roles of the template of the set that controls the group, as far as they
    have the deprecated types the group uses. *)
Definition legacySetTemplateRoles (v : RoleBasedGroupValidator) (g : RoleBasedGroup) : result (list RoleSpec) :=
  if negb (containsDeprecatedWorkloadType (rbg_Roles g)) then Ok []
  else match (match v_APIReader v with Some r => Some r | None => v_Client v end), GetControllerOf (rbg_meta g) with
  | Some reader, Some owner =>
      if bool_decide (or_Kind owner <> SetKind) || bool_decide (or_APIVersion owner <> GroupAPIVersion) then Ok []
      else match read_set reader (om_Namespace (rbg_meta g)) (or_Name owner) with
      | Err e =>
          if IsNotFound e then Ok []
          else Err ("unable to verify RoleBasedGroupSet owner " +:+ om_Namespace (rbg_meta g) +:+ "/" +:+ or_Name owner +:+ ": " +:+ e)
      | Ok parent =>
          if bool_decide (rbgs_UID parent <> or_UID owner) then Ok []
          else Ok (exempt_roles g (gt_Roles (rbgs_Template parent)))
      end
  | _, _ => Ok []
  end.

Definition roles_by_name (roles : list RoleSpec) : gmap string RoleSpec :=
  fold_left (fun m role => <[role_Name role := role]> m) roles ∅.

Definition adapter_conflict (reader : api_reader) (newRBG : RoleBasedGroup) (oldRoles : gmap string RoleSpec)
    (i : nat) (newRole : RoleSpec) : option error :=
  if negb (IsScalingAdapterEnable (Some newRole)) then None
  else match oldRoles !! role_Name newRole with
  | None => None
  | Some oldRole =>
      if bool_decide (role_Replicas oldRole = role_Replicas newRole) then None
      else
        let adapterName := GenerateScalingAdapterName (rbg_Name newRBG) (role_Name newRole) in
        let ns := om_Namespace (rbg_meta newRBG) in
        match read_adapter reader ns adapterName with
        | Err e => if IsNotFound e then None
                   else Some ("failed to get ScalingAdapter " +:+ ns +:+ "/" +:+ adapterName +:+ ": " +:+ e)
        | Ok adapter =>
            match adp_Replicas adapter, role_Replicas newRole with
            | Some wanted, Some n =>
                if wanted =? n then None
                else Some (at_index "spec.roles" i +:+ ".replicas (role " +:+ quoted (role_Name newRole)
                  +:+ "): cannot be changed to " +:+ Itoa n +:+ " while scalingAdapter.enable is true and ScalingAdapter "
                  +:+ quoted adapterName +:+ " has spec.replicas " +:+ Itoa wanted)
            | _, _ => None
            end
        end
  end.

Definition ValidateScalingAdapterReplicas (reader : option api_reader) (oldRBG newRBG : RoleBasedGroup) : option error :=
  match reader with
  | None => Some "RoleBasedGroup validator requires a Kubernetes client"%string
  | Some reader =>
      NewAggregate (omap id (imap (adapter_conflict reader newRBG (roles_by_name (rbg_Roles oldRBG))) (rbg_Roles newRBG)))
  end.

(** Creating a group. *)
Definition ValidateCreate (v : RoleBasedGroupValidator) (g : RoleBasedGroup) : option error :=
  NewAggregate (omap id [
    ValidateRoleBasedGroupName g;
    ValidateRollingUpdate g;
    ValidateRoleDependencies g;
    if v_EnableDeprecatedWorkloadTypes v then
      match legacySetTemplateRoles v g with
      | Err e => Some e
      | Ok oldRoles => validateNoNewDeprecatedWorkloadTypes "spec.roles" (rbg_Roles g) oldRoles
      end
    else validateNoDeprecatedWorkloadTypes "spec.roles" (rbg_Roles g)]).

(** Updating a group. *)
Definition ValidateUpdate (v : RoleBasedGroupValidator) (oldRBG g : RoleBasedGroup) : option error :=
  NewAggregate (omap id [
    ValidateRollingUpdate g;
    ValidateRoleDependencies g;
    ValidateScalingAdapterReplicas (v_Client v) oldRBG g;
    if v_EnableDeprecatedWorkloadTypes v
    then validateNoNewDeprecatedWorkloadTypes "spec.roles" (rbg_Roles g) (rbg_Roles oldRBG)
    else validateNoDeprecatedWorkloadTypes "spec.roles" (rbg_Roles g)]).

(** * The validator of group sets *)

Definition set_roles_path : string := "spec.groupTemplate.spec.roles".

Definition validate_set (enabled : bool) (oldRoles : list RoleSpec) (set : RoleBasedGroupSet) : option error :=
  let roles := gt_Roles (rbgs_Template set) in
  NewAggregate (omap id [
    validateRoleDependencies set_roles_path roles;
    if enabled then validateNoNewDeprecatedWorkloadTypes set_roles_path roles oldRoles
    else validateNoDeprecatedWorkloadTypes set_roles_path roles]).

Definition ValidateCreateSet (enabled : bool) (set : RoleBasedGroupSet) : option error := validate_set enabled [] set.

Definition ValidateUpdateSet (enabled : bool) (oldSet set : RoleBasedGroupSet) : option error :=
  validate_set enabled (gt_Roles (rbgs_Template oldSet)) set.

(** * Role templates (roletemplate_validation.go) *)

Fixpoint template_errors (i : nat) (templateNames : gset string) (templates : list RoleTemplate) : list error :=
  match templates with
  | [] => []
  | rt :: templates' =>
      let path := at_index "spec.roleTemplates" i in
      if bool_decide (rt_Name rt = ""%string) then (path +:+ ".name: must not be empty") :: template_errors (S i) templateNames templates'
      else
        match IsDNS1123Label (rt_Name rt) with
        | e :: _ => [path +:+ ".name: " +:+ quoted (rt_Name rt) +:+ " is not a valid DNS label: " +:+ e]
        | [] => []
        end
        ++ (if bool_decide (rt_Name rt ∈ templateNames) then [path +:+ ": duplicate template name " +:+ quoted (rt_Name rt)] else [])
        ++ (if bool_decide (ps_Containers (tmpl_spec (rt_Template rt)) = [])
            then [path +:+ ".template.spec.containers: must have at least one container"] else [])
        ++ template_errors (S i) ({[rt_Name rt]} ∪ templateNames) templates'
  end.

Definition ValidateRoleTemplates (g : RoleBasedGroup) : option error :=
  NewAggregate (template_errors 0 ∅ (rbg_RoleTemplates g)).

Definition validateRoleTemplateFields (index : nat) (role : RoleSpec) (validTemplateNames : list string) : option error :=
  let path := at_index "spec.roles" index in
  match GetTemplateRef role with
  | Some templateRef =>
      if bool_decide (is_Some (GetTemplate role)) then
        Some (path +:+ ": templateRef and template are mutually exclusive, only one can be set")
      else if bool_decide (ws_Kind (GetWorkloadSpec role) = "InstanceSet"%string) then
        Some (path +:+ ".templateRef: not supported for InstanceSet workloads")
      else if bool_decide (ws_Kind (GetWorkloadSpec role) = "LeaderWorkerSet"%string) then
        Some (path +:+ ".templateRef: not supported for LeaderWorkerSet workloads (use RoleInstanceSet with LeaderWorkerPattern instead)")
      else if bool_decide (tr_Name templateRef ∈ validTemplateNames) then None
      else Some (path +:+ ".templateRef.name: template " +:+ quoted (tr_Name templateRef) +:+ " not found in spec.roleTemplates")
  | None =>
      if bool_decide (default ""%string (GetTemplatePatch role) <> ""%string) then
        Some (path +:+ ": templateRef.patch is only valid when templateRef is set")
      else None
  end.

Definition ValidateRoleTemplateReferences (g : RoleBasedGroup) : option error :=
  NewAggregate (omap id (imap (fun i role =>
    validateRoleTemplateFields i role (map rt_Name (rbg_RoleTemplates g))) (rbg_Roles g))).

(** * Coordinated policies *)

Section policy.
Context `{SortSlice}.

Definition sortedKeys (m : gmap string Z) : list string := sort_slice String.ltb (map fst (map_to_list m)).

Definition gang_errors (perRoleMinimumsSupported : bool) (i : nat) (rule : CoordinatedPolicyRule) : list error :=
  match rule_Gang rule with
  | None => []
  | Some minReplicas =>
      if bool_decide (minReplicas = ∅) then []
      else
        let path := at_index "spec.policies" i +:+ ".strategy.scheduling.gang.minReplicas" in
        if negb perRoleMinimumsSupported then
          [path +:+ ": per-role gang minimums require --scheduler-name=volcano with Volcano >= 1.14; omit minReplicas for basic whole-group gang scheduling"]
        else flat_map (fun roleName =>
          let n := default 0 (minReplicas !! roleName) in
          if bool_decide (roleName ∈ rule_Roles rule) then
            if n <? 1 then [path +:+ "[" +:+ roleName +:+ "]: must be at least 1, got " +:+ Itoa n] else []
          else [path +:+ "[" +:+ roleName +:+ "]: role is not listed in " +:+ at_index "spec.policies" i +:+ ".roles ["
                +:+ Join (rule_Roles rule) " " +:+ "], so the minimum would be silently ignored"])
          (sortedKeys minReplicas)
  end.

Definition ValidateCoordinatedPolicyGang (policy : CoordinatedPolicy) (perRoleMinimumsSupported : bool) : option error :=
  NewAggregate (concat (imap (gang_errors perRoleMinimumsSupported) (cp_Policies policy))).
End policy.

(** * Defaulters *)

Definition DefaultGroup (g : RoleBasedGroup) : RoleBasedGroup :=
  rbg_with_roles (map normalizeRolloutUpdateType (rbg_Roles g)) g.

Definition DefaultSet (set : RoleBasedGroupSet) : RoleBasedGroupSet := {|
  rbgs_meta := rbgs_meta set; rbgs_Replicas := rbgs_Replicas set;
  rbgs_Template := {| gt_Labels := gt_Labels (rbgs_Template set); gt_Annotations := gt_Annotations (rbgs_Template set);
                      gt_Roles := map normalizeRolloutUpdateType (gt_Roles (rbgs_Template set));
                      gt_RoleTemplates := gt_RoleTemplates (rbgs_Template set) |};
  rbgs_status := rbgs_status set |}.

Definition DefaultInstanceSetType (u : UpdateStrategy) : UpdateStrategy := {|
  us_Type := NormalizeUpdateStrategyType (us_Type u); us_Partition := us_Partition u;
  us_MaxUnavailable := us_MaxUnavailable u; us_MaxSurge := us_MaxSurge u; us_Paused := us_Paused u;
  us_InPlaceUpdateStrategy := us_InPlaceUpdateStrategy u |}.
