(* ===== verification/AdmissionDependencies.v ===== *)
(** The dependency check at admission (Admission.v): the search of a cycle ends with
    a shortest closed path or with every role marked, and a group is refused exactly
    when [SortRoles] (Dependency.v) could not order it. *)
From Stdlib Require Import ZArith Lia Bool Ascii String.
From stdpp Require Import base tactics list strings gmap sets relations.
From S2P Require Import Prelude GoStrings IntOrString Types GroupTypes Effects Dependency Admission.

(** * Chains of edges *)

Section chains.
Context (deps : graph).

Fixpoint chain (l : list string) : Prop :=
  match l with
  | a :: l' => match l' with b :: _ => edge deps a b | [] => True end /\ chain l'
  | [] => True
  end.

Lemma chain_app_r l1 l2 : chain (l1 ++ l2) -> chain l2.
Proof. induction l1 as [|a l1 IH]; cbn; [done|]. intros [_ H]. auto. Qed.

Lemma chain_snoc l a b : chain (l ++ [a]) -> edge deps a b -> chain ((l ++ [a]) ++ [b]).
Proof.
  intros Hc He. induction l as [|x l IH]; cbn in *; [done|].
  destruct Hc as [Hx Hc]. split; [by destruct l|auto].
Qed.

Lemma chain_tc a l b : chain (a :: l ++ [b]) -> tc (edge deps) a b.
Proof.
  revert a. induction l as [|x l IH]; intros a; cbn; [intros [He _]; by apply tc_once|].
  intros [He Hc]. eapply tc_l; [exact He|]. by apply IH.
Qed.

(** A closed path that visits no role twice. *)
Definition simple_cycle (c : list string) : Prop :=
  exists name l, c = name :: l ++ [name] /\ NoDup (name :: l) /\ chain c.

Lemma simple_cycle_tc c : simple_cycle c -> exists x, tc (edge deps) x x.
Proof. intros (name & l & -> & _ & Hc). exists name. by eapply chain_tc. Qed.

Lemma appendCycle_spec path name :
  name ∈ path -> exists p1 p2, path = p1 ++ name :: p2 /\ appendCycle path name = name :: p2 ++ [name].
Proof.
  induction path as [|x path IH]; [by intros ?%elem_of_nil|]. cbn [appendCycle]. case_bool_decide as Hx.
  - subst. intros _. by exists [], path.
  - intros [->|Hin]%elem_of_cons; [done|]. destruct (IH Hin) as (p1 & p2 & -> & ->). by exists (x :: p1), p2.
Qed.

Lemma tc_first a b : tc (edge deps) a b -> exists d, edge deps a d /\ rtc (edge deps) d b.
Proof. intros [x y He|x y z He Ht]; eexists; (split; [exact He|]); [done|by apply tc_rtc]. Qed.

(** * The search *)

(** Every edge stays in the universe of names. *)
Context (names : list string) (Hclosed : forall a b, edge deps a b -> b ∈ names).

Definition unmarked (st : marks) : nat := length (filter (fun n => st !! n = None) (remove_dups names)).

Definition extends_marks (st st' : marks) : Prop := forall n m, st !! n = Some m -> st' !! n = Some m.

(** The roles being visited are those of the path; what was visited is closed and on no cycle. *)
Definition search_inv (path : list string) (st : marks) : Prop :=
  NoDup path /\ (forall n, st !! n = Some Visiting <-> n ∈ path) /\
  (forall n, st !! n = Some Visited -> ~ tc (edge deps) n n /\ forall d, edge deps n d -> st !! d = Some Visited).

Lemma extends_refl_marks st : extends_marks st st.
Proof. by intros n. Qed.

Lemma extends_trans_marks st1 st2 st3 : extends_marks st1 st2 -> extends_marks st2 st3 -> extends_marks st1 st3.
Proof. intros H1 H2 n m Hn. auto. Qed.

Lemma unmarked_extends st st' : extends_marks st st' -> (unmarked st' <= unmarked st)%nat.
Proof.
  intros He. unfold unmarked. induction (remove_dups names) as [|x l IH]; [done|]. rewrite !filter_cons.
  destruct (decide (st' !! x = None)) as [H'|H'], (decide (st !! x = None)) as [H|H]; cbn; try lia.
  destruct (st !! x) as [m|] eqn:E; [|done]. by rewrite (He x m E) in H'.
Qed.

Lemma unmarked_start st n m : n ∈ names -> st !! n = None -> (unmarked (<[n := m]> st) < unmarked st)%nat.
Proof.
  intros Hn Hst. unfold unmarked. assert (n ∈ remove_dups names) as Hn' by by apply elem_of_remove_dups.
  assert (forall l, (length (filter (fun k => <[n := m]> st !! k = None) l) <= length (filter (fun k => st !! k = None) l))%nat) as Hle.
  { induction l as [|x l IH]; [done|]. rewrite !filter_cons. destruct (decide (x = n)) as [->|Hx].
    - rewrite lookup_insert_eq, Hst. rewrite decide_False by done. rewrite decide_True by done. cbn. lia.
    - rewrite lookup_insert_ne by done. destruct (decide _); cbn; lia. }
  induction (remove_dups names) as [|x l IH]; [by apply elem_of_nil in Hn'|]. rewrite !filter_cons.
  destruct (decide (x = n)) as [->|Hx].
  - rewrite lookup_insert_eq, Hst. rewrite decide_False by done. rewrite decide_True by done. cbn. specialize (Hle l). lia.
  - apply elem_of_cons in Hn' as [->|Hn']; [done|]. rewrite lookup_insert_ne by done.
    specialize (IH Hn'). destruct (decide _); cbn; lia.
Qed.

Definition search_post (path : list string) (st : marks) (done_names : list string) (r : option (list string + marks)) : Prop :=
  match r with
  | None => False
  | Some (inl c) => simple_cycle c
  | Some (inr st') => search_inv path st' /\ extends_marks st st' /\ forall n, n ∈ done_names -> st' !! n = Some Visited
  end.

Lemma visit_each_spec (V : marks -> string -> option (list string + marks)) path ds st :
  (forall st' d, d ∈ ds -> search_inv path st' -> extends_marks st st' -> search_post path st' [d] (V st' d)) ->
  search_inv path st -> search_post path st ds (visit_each V ds st).
Proof.
  revert st. induction ds as [|d ds IH]; intros st HV Hst; cbn [visit_each].
  - split; [done|]. split; [apply extends_refl_marks|]. by intros n ?%elem_of_nil.
  - pose proof (HV st d ltac:(by left) Hst (extends_refl_marks st)) as Hd. destruct (V st d) as [[c|st1]|]; [done| |done].
    destruct Hd as (Hinv & Hext & Hd).
    assert (search_post path st1 ds (visit_each V ds st1)) as Hr.
    { apply IH; [|done]. intros st' d' Hd' Hinv' Hext'. apply HV; [by right|done|by eapply extends_trans_marks]. }
    destruct (visit_each V ds st1) as [[c|st2]|]; [done| |done]. destruct Hr as (? & Hext2 & Hall).
    split; [done|]. split; [by eapply extends_trans_marks|]. intros n [->|Hn]%elem_of_cons; [|auto].
    apply Hext2, Hd. by left.
Qed.

Lemma search_spec fuel path st name :
  name ∈ names -> search_inv path st -> chain (path ++ [name]) -> (unmarked st < fuel)%nat ->
  search_post path st [name] (search deps fuel path st name).
Proof.
  revert path st name. induction fuel as [|fuel IH]; intros path st name Hname Hst Hchain Hfuel; [lia|]. cbn [search].
  pose proof Hst as (Hnd & Hvg & Hvd). destruct (st !! name) as [[]|] eqn:Hm.
  - apply Hvg in Hm. destruct (appendCycle_spec _ _ Hm) as (p1 & p2 & -> & ->). exists name, p2. split; [done|].
    split; [by apply NoDup_app in Hnd as (_ & _ & ?)|]. rewrite <- (app_assoc p1 (name :: p2) [name]) in Hchain.
    by apply chain_app_r in Hchain.
  - split; [done|]. split; [apply extends_refl_marks|]. by intros n ->%list_elem_of_singleton.
  - assert (name ∉ path) as Hnew by (intros Hin%Hvg; congruence).
    assert (extends_marks st (<[name := Visiting]> st)) as Hext0.
    { intros n m Hn. rewrite lookup_insert_ne; [done|congruence]. }
    assert (search_inv (path ++ [name]) (<[name := Visiting]> st)) as Hinv0.
    { split; [apply NoDup_app; split; [done|]; split; [by intros x Hx ->%list_elem_of_singleton|apply NoDup_singleton]|].
      split.
      - intros n. rewrite elem_of_app, list_elem_of_singleton. destruct (decide (n = name)) as [->|Hn].
        + rewrite lookup_insert_eq. tauto.
        + rewrite lookup_insert_ne by done. rewrite Hvg. tauto.
      - intros n Hn. destruct (decide (n = name)) as [->|Hne]; [by rewrite lookup_insert_eq in Hn|].
        rewrite lookup_insert_ne in Hn by done. destruct (Hvd n Hn) as [Hc Hd]. split; [done|].
        intros d He. rewrite lookup_insert_ne; [auto|]. intros <-. specialize (Hd name He). congruence. }
    assert (search_post (path ++ [name]) (<[name := Visiting]> st) (default [] (deps !! name))
      (visit_each (search deps fuel (path ++ [name])) (default [] (deps !! name)) (<[name := Visiting]> st))) as Hpost.
    { apply visit_each_spec; [|done]. intros st' d Hd Hst' Hext'. apply IH; [by eapply Hclosed|done| |].
      - by apply chain_snoc.
      - pose proof (unmarked_start st name Visiting Hname Hm). pose proof (unmarked_extends _ _ Hext'). lia. }
    destruct (visit_each _ _ _) as [[c|st']|]; [done| |done]. destruct Hpost as ((Hnd' & Hvg' & Hvd') & Hext' & Hdeps).
    assert (st' !! name = Some Visiting) as Hst'n by (apply Hext', lookup_insert_eq).
    split; [|split].
    + split; [done|]. split.
      * intros n. destruct (decide (n = name)) as [->|Hn].
        { rewrite lookup_insert_eq. split; [intros [=]|done]. }
        rewrite lookup_insert_ne, Hvg', elem_of_app, list_elem_of_singleton by done. tauto.
      * assert (forall d, edge deps name d -> st' !! d = Some Visited) as Hed by (intros d; apply Hdeps).
        (* from a visited role only visited ones are reached *)
        assert (forall x y, rtc (edge deps) x y -> st' !! x = Some Visited -> st' !! y = Some Visited) as Hreach.
        { intros x y Hxy. induction Hxy as [|x z y He _ IHr]; [done|]. intros Hx. apply IHr. by apply (Hvd' x Hx). }
        intros n Hn. destruct (decide (n = name)) as [->|Hne].
        { split.
          - intros (d & He & Hr)%tc_first. specialize (Hreach d name Hr (Hed d He)). congruence.
          - intros d He. destruct (decide (d = name)) as [->|]; [by rewrite lookup_insert_eq|]. rewrite lookup_insert_ne; auto. }
        rewrite lookup_insert_ne in Hn by done. destruct (Hvd' n Hn) as [Hc Hd]. split; [done|].
        intros d He. destruct (decide (d = name)) as [->|]; [by rewrite lookup_insert_eq|]. rewrite lookup_insert_ne; auto.
    + intros n m Hn. rewrite lookup_insert_ne; [by apply Hext', Hext0|congruence].
    + intros n ->%list_elem_of_singleton. apply lookup_insert_eq.
Qed.

Lemma search_roles_spec fuel :
  (unmarked ∅ < fuel)%nat -> search_post [] ∅ names (search_roles deps fuel names ∅).
Proof.
  intros Hfuel. unfold search_roles. assert (search_inv [] (∅ : marks)) as Hinv.
  { split; [by apply NoDup_nil_2|]. split; [|by intros n]. intros n. by rewrite lookup_empty, elem_of_nil. }
  apply visit_each_spec; [|done]. intros st d Hd Hst Hext. case_bool_decide as Hn.
  - apply search_spec; [done|done|done|]. pose proof (unmarked_extends _ _ Hext). lia.
  - split; [done|]. split; [apply extends_refl_marks|]. intros n ->%list_elem_of_singleton.
    destruct (st !! d) as [[]|] eqn:E; [|done|done]. apply Hst in E. by apply elem_of_nil in E.
Qed.
End chains.

(** * The graph of a group *)

Lemma NewAggregate_None errs : NewAggregate errs = None <-> errs = [].
Proof. by destruct errs. Qed.

Lemma tc_mono {A} (R R' : A -> A -> Prop) x y : (forall a b, R a b -> R' a b) -> tc R x y -> tc R' x y.
Proof. intros H Ht. induction Ht as [x y Hx|x y z Hx _ IH]; [apply tc_once; auto|eapply tc_l; eauto]. Qed.

(** A list of errors made from a list is empty when each part is. *)
Lemma concat_imap_nil {A B} (f : nat -> A -> list B) l :
  concat (imap f l) = [] <-> forall i x, l !! i = Some x -> f i x = [].
Proof.
  revert f. induction l as [|x l IH]; intros f; cbn [imap concat]; [by split|]. rewrite app_nil, IH. split.
  - intros [Hx Hl] [|i] y; cbn; [by intros [= <-]|apply Hl].
  - intros H. split; [by apply (H 0%nat)|]. intros i y Hi. by apply (H (S i)).
Qed.

Lemma add_edge_edge name d g a b : edge (add_edge name d g) a b <-> edge g a b \/ (a = name /\ b = d).
Proof.
  unfold edge, add_edge. destruct (decide (a = name)) as [->|Ha].
  - rewrite lookup_insert_eq. cbn. rewrite elem_of_app, list_elem_of_singleton. tauto.
  - rewrite lookup_insert_ne by done. tauto.
Qed.

Section graph.
Context (roles : list RoleSpec).

Lemma role_edges_fold role ds g a b :
  edge (fold_left (fun g d => if known_dependency roles role d then add_edge (role_Name role) d g else g) ds g) a b <->
  edge g a b \/ (a = role_Name role /\ b ∈ ds /\ known_dependency roles role b = true).
Proof.
  revert g. induction ds as [|d ds IH]; intros g; cbn [fold_left]; [set_solver|]. rewrite IH, elem_of_cons.
  destruct (known_dependency roles role d) eqn:Hk.
  - rewrite add_edge_edge. split.
    + intros [[?|[-> ->]]|(-> & ? & ?)]; [by left|right; tauto..].
    + intros [?|(-> & [->|?] & ?)]; [by left; left|by left; right|right; tauto].
  - split; [intros [?|(-> & ? & ?)]; [by left|right; tauto]|].
    intros [?|(-> & [->|?] & ?)]; [by left|congruence|right; tauto].
Qed.

Lemma dependency_graph_edge a b :
  edge (dependency_graph roles) a b <-> depends roles a b /\ a <> b /\ b ∈ role_names roles.
Proof.
  unfold dependency_graph. assert (forall l g,
    edge (fold_left (fun g role => fold_left (fun g d => if known_dependency roles role d then add_edge (role_Name role) d g else g)
      (role_Dependencies role) g) l g) a b <->
    edge g a b \/ (exists role, role ∈ l /\ a = role_Name role /\ b ∈ role_Dependencies role /\ known_dependency roles role b = true)) as Hf.
  { induction l as [|role l IH]; intros g; cbn [fold_left]; [set_solver|]. rewrite IH, role_edges_fold.
    setoid_rewrite elem_of_cons. naive_solver. }
  rewrite Hf. unfold edge at 1. rewrite lookup_empty. cbn. unfold depends, known_dependency, role_names.
  setoid_rewrite andb_true_iff. setoid_rewrite negb_true_iff. setoid_rewrite bool_decide_eq_false.
  setoid_rewrite bool_decide_eq_true. split.
  - intros [[]%elem_of_nil|(role & Hr & -> & Hb & Hne & Hin)]. naive_solver.
  - intros ((role & Hr & <- & Hb) & Hne & Hin). right. naive_solver.
Qed.

Lemma graph_closed a b : edge (dependency_graph roles) a b -> b ∈ role_names roles.
Proof. by intros (_ & _ & ?)%dependency_graph_edge. Qed.

Lemma graph_source a b : edge (dependency_graph roles) a b -> a ∈ role_names roles.
Proof. intros ((r & Hr & <- & _) & _)%dependency_graph_edge. apply list_elem_of_fmap. eauto. Qed.

(** The search finds a cycle when there is one, and only then. *)
Lemma find_cycle_spec :
  match find_cycle roles (dependency_graph roles) with
  | None => False
  | Some (inl c) => simple_cycle (dependency_graph roles) c
  | Some (inr _) => forall x, ~ tc (edge (dependency_graph roles)) x x
  end.
Proof.
  pose proof (search_roles_spec (dependency_graph roles) (role_names roles) graph_closed (S (length roles))) as H.
  unfold find_cycle. change (map role_Name roles) with (role_names roles).
  assert (unmarked (role_names roles) ∅ < S (length roles))%nat as Hfuel.
  { unfold unmarked. apply Nat.lt_succ_r. etrans; [apply length_filter|]. unfold role_names.
    rewrite <- (length_map role_Name roles). apply submseteq_length, NoDup_submseteq; [apply NoDup_remove_dups|].
    intros x. by rewrite elem_of_remove_dups. }
  specialize (H Hfuel). destruct (search_roles _ _ _ _) as [[c|st]|]; [done| |done].
  destruct H as ((_ & _ & Hvd) & _ & Hall). intros x Hx.
  destruct (tc_first _ _ _ Hx) as (d & He & _). apply (Hvd x); [|done]. apply Hall. by eapply graph_source.
Qed.

Lemma dependency_errors_nil fieldPath :
  dependency_errors fieldPath roles = [] <-> (forall a b, depends roles a b -> a <> b /\ b ∈ role_names roles).
Proof.
  unfold dependency_errors. rewrite concat_imap_nil. setoid_rewrite concat_imap_nil. split.
  - intros H a b (r & Hr & <- & Hb). apply list_elem_of_lookup in Hr as [i Hi], Hb as [j Hj].
    specialize (H i r Hi j b Hj). cbn zeta in H. case_bool_decide as H1; [done|]. case_bool_decide as H2; [done|].
    destruct (decide (role_Name r = b)); [congruence|]. by destruct H2.
  - intros H i r Hi j b Hj. cbn zeta. destruct (H (role_Name r) b) as [Hne Hin].
    { exists r. split; [by eapply list_elem_of_lookup_2|]. split; [done|by eapply list_elem_of_lookup_2]. }
    rewrite bool_decide_eq_false_2 by congruence. by rewrite bool_decide_eq_true_2.
Qed.

Lemma validateRoleDependencies_iff fieldPath :
  validateRoleDependencies fieldPath roles = None <->
  ~ unknown_role roles /\ ~ (exists x, tc (depends roles) x x).
Proof.
  unfold validateRoleDependencies, validateNoRoleDependencyCycle. rewrite NewAggregate_None, app_nil, dependency_errors_nil.
  pose proof find_cycle_spec as Hf.
  assert ((forall a b, depends roles a b -> a <> b /\ b ∈ role_names roles) ->
          forall a b, edge (dependency_graph roles) a b <-> depends roles a b) as Hedge.
  { intros H a b. rewrite dependency_graph_edge. naive_solver. }
  split.
  - intros [Hok Hc]. split; [intros (a & d & Hd & Hn); by destruct (Hok a d Hd)|].
    destruct (find_cycle _ _) as [[c|st]|]; [done| |done]. intros [x Hx]. apply (Hf x).
    eapply tc_mono; [|exact Hx]. intros a b. by apply Hedge.
  - intros [Hu Hacyc]. assert (forall a b, depends roles a b -> a <> b /\ b ∈ role_names roles) as Hok.
    { intros a b Hab. split.
      - intros ->. apply Hacyc. exists b. by apply tc_once.
      - destruct (decide (b ∈ role_names roles)); [done|]. destruct Hu. by exists a, b. }
    split; [done|]. destruct (find_cycle _ _) as [[c|st]|]; [|done|done].
    apply simple_cycle_tc in Hf as [x Hx]. destruct Hacyc. exists x.
    eapply tc_mono; [|exact Hx]. intros a b. by apply Hedge.
Qed.
End graph.

(** C17: The webhook refuses the dependencies of a group exactly when the group controller
    could not order its roles: with distinct names, it accepts them if and only if
    [SortRoles] returns levels. *)
Theorem ValidateRoleDependencies_iff_SortRoles `{SortSlice} (g : RoleBasedGroup) :
  NoDup (role_names (rbg_Roles g)) ->
  ValidateRoleDependencies g = None <-> exists levels, SortRoles g = Some (Ok levels).
Proof.
  intros Hnd. unfold ValidateRoleDependencies. rewrite validateRoleDependencies_iff.
  destruct (SortRoles_cases g Hnd) as [(e & -> & Hbad)|(names & deps & -> & Hc & Hu & _)].
  - split; [intros [Hu Hc]; by destruct Hbad|]. by intros [levels [=]].
  - split; [by eexists|done].
Qed.

(** The search for a cycle ends, and the cycle it reports is one of the group: each
    role depends on the next, the last on the first, and none is visited twice. When
    it reports none there is none. *)
Theorem find_cycle_reports (roles : list RoleSpec) :
  (exists name l, find_cycle roles (dependency_graph roles) = Some (inl (name :: l ++ [name])) /\
     NoDup (name :: l) /\
     forall i a b, (name :: l ++ [name]) !! i = Some a -> (name :: l ++ [name]) !! S i = Some b -> depends roles a b) \/
  (exists st, find_cycle roles (dependency_graph roles) = Some (inr st) /\
     forall x, ~ tc (edge (dependency_graph roles)) x x).
Proof.
  pose proof (find_cycle_spec roles) as Hf. destruct (find_cycle _ _) as [[c|st]|]; [left|right; by exists st|done].
  destruct Hf as (name & l & -> & Hnd & Hc). exists name, l. split; [done|]. split; [done|].
  revert Hc. generalize (name :: l ++ [name]). intros c Hc i a b Ha Hb.
  revert i Ha Hb. induction c as [|x c IH]; intros i; [done|]. destruct Hc as [Hx Hc]. destruct i as [|i]; cbn.
  - intros [= ->]. destruct c as [|y c]; [done|]. intros [= ->]. by apply dependency_graph_edge in Hx as [? _].
  - apply (IH Hc).
Qed.

(** Three roles in a cycle behind a fourth: the report leaves the fourth out. *)
Definition demo_role (name : string) (deps : list string) : RoleSpec := {|
  role_Name := name; role_Labels := ∅; role_Annotations := ∅; role_Replicas := Some 2; role_RollingUpdate := None;
  role_Dependencies := deps; role_Pattern := standalone no_template; role_ScalingAdapter := None;
  role_MinReadySeconds := 0; role_rest := no_rest |}.

Example cycle_reported :
  let roles := [demo_role "a" ["b"%string]; demo_role "b" ["c"%string]; demo_role "c" ["b"%string]] in
  validateRoleDependencies "spec.roles" roles = Some "spec.roles: dependency cycle detected: b -> c -> b"%string.
Proof. vm_compute. reflexivity. Qed.

Lemma ValidateRoleDependencies_iff_SortRoles_witness :
  let g := {| rbg_meta := empty_meta; rbg_Roles := [demo_role "a" ["b"%string]; demo_role "b" []]; rbg_RoleTemplates := [];
              rbg_ObservedGeneration := 0; rbg_Conditions := []; rbg_RoleStatuses := [] |} in
  ValidateRoleDependencies g = None <-> exists levels, SortRoles g = Some (Ok levels).
Proof.
  apply ValidateRoleDependencies_iff_SortRoles. cbn. apply NoDup_cons_2; [|apply NoDup_singleton].
  intros Hin. apply list_elem_of_singleton in Hin. discriminate Hin.
Defined.
