(* ===== verification/AdmissionRules.v ===== *)
(** What admission (Admission.v) guarantees the controllers: a rollout it accepts can
    progress, deprecated workload types only leave, a template reference resolves, a
    gang minimum is one of the rule's roles, the scaling adapter's own writes pass, and
    the defaulters change nothing a group set looks at. *)
From Stdlib Require Import ZArith Lia Bool Ascii String.
From stdpp Require Import base tactics list strings gmap sets relations sorting.
From S2P Require Import Prelude GoStrings IntOrString Types GroupTypes Effects Revisions Dependency GroupSet GroupSetTemplate ScalingAdapter ScalingAdapterPass.
From S2P Require Import Admission AdmissionDependencies.

Lemma omap_id_nil {A} (l : list (option A)) : omap id l = [] <-> Forall (fun x => x = None) l.
Proof.
  induction l as [|[x|] l IH]; cbn; [done|split; [done|by intros [? _]%Forall_cons]|]. rewrite Forall_cons. tauto.
Qed.

Lemma imap_None {A B} (f : nat -> A -> option B) l :
  omap id (imap f l) = [] <-> forall i x, l !! i = Some x -> f i x = None.
Proof.
  rewrite omap_id_nil, Forall_lookup. split.
  - intros H i x Hi. apply (H i). by rewrite list_lookup_imap, Hi.
  - intros H i o. rewrite list_lookup_imap. destruct (l !! i) as [x|] eqn:E; [|done]. intros [= <-]. by apply H.
Qed.

(** * Rollouts *)

(** At least one of the two resolves to something other than 0, and the partition to
    less than the replicas. *)
Definition rollout_ok (ru : RollingUpdate) (n : Z) : Prop :=
  (exists s u, scaledIntOrPercent (ru_MaxSurge ru) n true 0 = Ok s /\ scaledIntOrPercent (ru_MaxUnavailable ru) n false 1 = Ok u /\
     (s <> 0 \/ u <> 0)) /\
  (ru_Partition ru <> None -> exists p, GetScaledValueFromIntOrPercent (ru_Partition ru) n true = Ok p /\ int32 p < n).

Lemma validateRoleRollingUpdate_nil i ru n : validateRoleRollingUpdate i ru n = [] <-> rollout_ok ru n.
Proof.
  unfold validateRoleRollingUpdate, rollout_ok. rewrite !app_nil.
  destruct (scaledIntOrPercent (ru_MaxSurge ru) n true 0) as [s|]; cbn [is_ok]; [|split; [intros (? & _); done|intros ((? & ? & [=] & _) & _)]].
  destruct (scaledIntOrPercent (ru_MaxUnavailable ru) n false 1) as [u|]; cbn [is_ok];
    [|split; [intros (_ & ? & _); done|intros ((? & ? & _ & [=] & _) & _)]].
  assert ((if (s =? 0) && (u =? 0) then [(at_index "spec.roles" i +:+ ".rolloutStrategy.rollingUpdate") +:+ ": maxSurge and maxUnavailable cannot both be 0"] else []) = []
    <-> s <> 0 \/ u <> 0) as ->.
  { destruct (Z.eqb_spec s 0), (Z.eqb_spec u 0); cbn; split; try done; lia. }
  destruct (ru_Partition ru) as [p|]; [|naive_solver].
  destruct (GetScaledValueFromIntOrPercent (Some p) n true) as [v|].
  - destruct (Z.geb_spec (int32 v) n) as [Hge|Hlt].
    + split; [intros (_ & _ & _ & [=])|]. intros (_ & Hp). destruct Hp as (v' & [= <-] & Hv); [done|lia].
    + split; [|intros ((s' & u' & [= <-] & [= <-] & Hsu) & _); naive_solver]. intros (_ & _ & Hsu & _). split; eauto.
  - split; [intros (_ & _ & _ & [=])|]. intros (_ & Hp). destruct Hp as (v' & [=] & _). done.
Qed.

Lemma ValidateRollingUpdate_None g :
  ValidateRollingUpdate g = None <->
  forall role ru n, role ∈ rbg_Roles g -> role_RollingUpdate role = Some ru -> role_Replicas role = Some n -> n <> 0 -> rollout_ok ru n.
Proof.
  unfold ValidateRollingUpdate. rewrite NewAggregate_None, concat_imap_nil. split.
  - intros H role ru n [i Hi]%list_elem_of_lookup Hru Hn Hnz. specialize (H i role Hi). rewrite Hru, Hn in H.
    destruct (Z.eqb_spec n 0); [done|]. by apply validateRoleRollingUpdate_nil in H.
  - intros H i role Hi. destruct (role_RollingUpdate role) as [ru|] eqn:Hru; [|done].
    destruct (role_Replicas role) as [n|] eqn:Hn; [|done]. destruct (Z.eqb_spec n 0); [done|].
    apply validateRoleRollingUpdate_nil, (H role); [by eapply list_elem_of_lookup_2|done..].
Qed.

(** An accepted rollout updates at least one replica: the partition the controllers
    compute from it ([CalculatePartitionReplicas]) is less than the replicas, and not
    both of maxSurge and maxUnavailable are 0. A partition beyond int32 escapes. *)
Theorem accepted_rollout_updates_one (g : RoleBasedGroup) (role : RoleSpec) (ru : RollingUpdate) (n : Z) :
  ValidateRollingUpdate g = None -> role ∈ rbg_Roles g -> role_RollingUpdate role = Some ru ->
  role_Replicas role = Some n -> 0 < n ->
  (forall v, GetScaledValueFromIntOrPercent (ru_Partition ru) n true = Ok v -> is_int32 v) ->
  (exists p, CalculatePartitionReplicas (ru_Partition ru) (Some n) = Ok p /\ 0 <= p < n) /\
  (exists s u, scaledIntOrPercent (ru_MaxSurge ru) n true 0 = Ok s /\ scaledIntOrPercent (ru_MaxUnavailable ru) n false 1 = Ok u /\
     (s <> 0 \/ u <> 0)).
Proof.
  intros Hv Hin Hru Hn Hpos H32. rewrite ValidateRollingUpdate_None in Hv.
  destruct (Hv role ru n Hin Hru Hn ltac:(lia)) as [Hsu Hp]. split; [|done]. clear Hsu.
  unfold CalculatePartitionReplicas. destruct (ru_Partition ru) as [i|]; [|exists 0; split; [done|lia]].
  destruct Hp as (p & Hp & Hlt); [done|]. rewrite (int32_id p (H32 p Hp)) in Hlt. rewrite Hp. cbn.
  eexists. split; [reflexivity|]. destruct i as [v|s]; [lia|].
  destruct ((1 <=? n) && (p =? n) && _); lia.
Qed.

(** 2^32 percent of 100 replicas reads as partition 0 to the webhook and as all of
    them to the controllers. *)
Example partition_wraps :
  let ru := with_Partition (Some (FromString "4294967296%")) empty_RollingUpdate in
  validateRoleRollingUpdate 0 ru 100 = [] /\
  CalculatePartitionReplicas (ru_Partition ru) (Some 100) = Ok 100.
Proof. vm_compute. split; reflexivity. Qed.

(** * Deprecated workload types *)

(** The role of the group has the deprecated type. *)
Definition deprecated_use (roles : list RoleSpec) (name wt : string) : Prop :=
  isDeprecatedWorkloadType wt = true /\ exists role, role ∈ roles /\ role_Name role = name /\ GetWorkloadType role = wt.

Lemma fold_insert_lookup {A B} (key : A -> string) (value : A -> B) (l : list A) (m : gmap string B) k v :
  fold_left (fun m x => <[key x := value x]> m) l m !! k = Some v ->
  m !! k = Some v \/ exists x, x ∈ l /\ key x = k /\ value x = v.
Proof.
  revert m. induction l as [|x l IH]; intros m; cbn [fold_left]; [by left|].
  intros [Hk|(y & ? & ?)]%IH; [|right; exists y; split; [by right|done]].
  apply lookup_insert_Some in Hk as [[<- <-]|[_ Hk]]; [right; exists x; split; [by left|done]|by left].
Qed.

Lemma workload_types_Some roles name wt :
  workload_types roles !! name = Some wt -> exists role, role ∈ roles /\ role_Name role = name /\ GetWorkloadType role = wt.
Proof. intros [Hk|?]%fold_insert_lookup; [by rewrite lookup_empty in Hk|done]. Qed.

Lemma hinted_None errs hint : hinted errs hint = None <-> errs = [].
Proof. by destruct errs. Qed.

Lemma validateNoDeprecated_None path roles :
  validateNoDeprecatedWorkloadTypes path roles = None <-> forall name wt, ~ deprecated_use roles name wt.
Proof.
  unfold validateNoDeprecatedWorkloadTypes. rewrite hinted_None, concat_imap_nil. split.
  - intros H name wt (Hd & role & [i Hi]%list_elem_of_lookup & _ & <-). specialize (H i role Hi). cbn beta in H.
    by rewrite Hd in H.
  - intros H i role Hi. destruct (isDeprecatedWorkloadType (GetWorkloadType role)) eqn:Hd; [|done].
    destruct (H (role_Name role) (GetWorkloadType role)). split; [done|]. exists role.
    split; [by eapply list_elem_of_lookup_2|done].
Qed.

Lemma validateNoNewDeprecated_None path roles oldRoles :
  validateNoNewDeprecatedWorkloadTypes path roles oldRoles = None <->
  forall name wt, deprecated_use roles name wt -> workload_types oldRoles !! name = Some wt.
Proof.
  unfold validateNoNewDeprecatedWorkloadTypes. rewrite hinted_None, concat_imap_nil. split.
  - intros H name wt (Hd & role & [i Hi]%list_elem_of_lookup & <- & <-). specialize (H i role Hi). cbn zeta in H.
    rewrite Hd in H. cbn [andb] in H. by case_bool_decide.
  - intros H i role Hi. cbn zeta. destruct (isDeprecatedWorkloadType (GetWorkloadType role)) eqn:Hd; [|done]. cbn [andb].
    rewrite bool_decide_eq_true_2; [done|]. apply H. split; [done|]. exists role.
    split; [by eapply list_elem_of_lookup_2|done].
Qed.

Lemma validateNoNewDeprecated_old path roles oldRoles name wt :
  validateNoNewDeprecatedWorkloadTypes path roles oldRoles = None -> deprecated_use roles name wt -> deprecated_use oldRoles name wt.
Proof.
  rewrite validateNoNewDeprecated_None. intros H Hu. split; [by destruct Hu|]. by apply workload_types_Some, H.
Qed.

Lemma ValidateUpdate_None v old g :
  ValidateUpdate v old g = None <->
  ValidateRollingUpdate g = None /\ ValidateRoleDependencies g = None /\ ValidateScalingAdapterReplicas (v_Client v) old g = None /\
  (if v_EnableDeprecatedWorkloadTypes v then validateNoNewDeprecatedWorkloadTypes "spec.roles" (rbg_Roles g) (rbg_Roles old)
   else validateNoDeprecatedWorkloadTypes "spec.roles" (rbg_Roles g)) = None.
Proof. unfold ValidateUpdate. rewrite NewAggregate_None, omap_id_nil, !Forall_cons. rewrite Forall_nil. tauto. Qed.

Lemma ValidateCreate_None v g :
  ValidateCreate v g = None <->
  ValidateRoleBasedGroupName g = None /\ ValidateRollingUpdate g = None /\ ValidateRoleDependencies g = None /\
  (if v_EnableDeprecatedWorkloadTypes v then
     match legacySetTemplateRoles v g with
     | Err e => Some e
     | Ok oldRoles => validateNoNewDeprecatedWorkloadTypes "spec.roles" (rbg_Roles g) oldRoles
     end
   else validateNoDeprecatedWorkloadTypes "spec.roles" (rbg_Roles g)) = None.
Proof. unfold ValidateCreate. rewrite NewAggregate_None, omap_id_nil, !Forall_cons. rewrite Forall_nil. tauto. Qed.

(** [g'] is [g] after an update some validator accepted. *)
Definition updated_to (g g' : RoleBasedGroup) : Prop := exists v, ValidateUpdate v g g' = None.

(** C28: Along any sequence of accepted updates, with the flag on or off, no role gets a
    deprecated workload type it did not have at the start. *)
Theorem deprecated_uses_never_grow (g g' : RoleBasedGroup) (name wt : string) :
  rtc updated_to g g' -> deprecated_use (rbg_Roles g') name wt -> deprecated_use (rbg_Roles g) name wt.
Proof.
  induction 1 as [|x y z [v Hv] _ IH]; [done|]. intros Hu. specialize (IH Hu).
  apply ValidateUpdate_None in Hv as (_ & _ & _ & Hd). destruct (v_EnableDeprecatedWorkloadTypes v).
  - by eapply validateNoNewDeprecated_old.
  - rewrite validateNoDeprecated_None in Hd. by destruct (Hd name wt).
Qed.

(** A group may be created with a deprecated workload type only while the types are
    enabled, and only when a group set controls it that the reader shows with the UID
    of the owner reference and with that type under that role in its template. *)
Theorem created_deprecated_use_is_the_sets (v : RoleBasedGroupValidator) (g : RoleBasedGroup) (name wt : string) :
  ValidateCreate v g = None -> deprecated_use (rbg_Roles g) name wt ->
  v_EnableDeprecatedWorkloadTypes v = true /\
  exists reader owner parent, (v_APIReader v = Some reader \/ v_APIReader v = None /\ v_Client v = Some reader) /\
    GetControllerOf (rbg_meta g) = Some owner /\ or_Kind owner = SetKind /\ or_APIVersion owner = GroupAPIVersion /\
    read_set reader (om_Namespace (rbg_meta g)) (or_Name owner) = Ok parent /\ rbgs_UID parent = or_UID owner /\
    deprecated_use (gt_Roles (rbgs_Template parent)) name wt.
Proof.
  intros (_ & _ & _ & Hd)%ValidateCreate_None Hu. destruct (v_EnableDeprecatedWorkloadTypes v); [|].
  2: { rewrite validateNoDeprecated_None in Hd. by destruct (Hd name wt). }
  split; [done|]. destruct (legacySetTemplateRoles v g) as [oldRoles|e] eqn:Hl; [|done].
  apply (validateNoNewDeprecated_old _ _ _ name wt) in Hd; [|done]. clear Hu.
  assert (oldRoles <> []) as Hne by (intros ->; destruct Hd as (_ & r & []%elem_of_nil & _)).
  unfold legacySetTemplateRoles in Hl. destruct (negb _); [congruence|].
  destruct (match v_APIReader v with Some r => Some r | None => v_Client v end) as [reader|] eqn:Hreader; [|congruence].
  destruct (GetControllerOf (rbg_meta g)) as [owner|] eqn:Howner; [|congruence].
  destruct (bool_decide (or_Kind owner <> SetKind)) eqn:Hk; [cbn in Hl; congruence|].
  destruct (bool_decide (or_APIVersion owner <> GroupAPIVersion)) eqn:Ha; [cbn in Hl; congruence|]. cbn in Hl.
  destruct (read_set _ _ _) as [parent|e] eqn:Hp; [|destruct (IsNotFound e); congruence].
  destruct (bool_decide (rbgs_UID parent <> or_UID owner)) eqn:Hid; [congruence|].
  injection Hl as <-. exists reader, owner, parent. split; [destruct (v_APIReader v); [left; congruence|by right]|].
  apply bool_decide_eq_false, dec_stable in Hk, Ha, Hid. split_and!; try done.
  destruct Hd as (Hdep & role & Hin & Hn & Ht). split; [done|]. exists role. split; [|done].
  apply list_elem_of_In in Hin. apply filter_In in Hin as [Hin _]. by apply list_elem_of_In.
Qed.

(** * Replicas of a role with a scaling adapter *)

Lemma fold_insert_NoDup {A B} (key : A -> string) (value : A -> B) (l : list A) (m : gmap string B) x :
  NoDup (map key l) -> x ∈ l -> fold_left (fun m x => <[key x := value x]> m) l m !! key x = Some (value x).
Proof.
  revert m. induction l as [|y l IH]; intros m Hnd Hx; [by apply elem_of_nil in Hx|]. cbn [fold_left].
  apply NoDup_cons in Hnd as [Hy Hnd]. apply elem_of_cons in Hx as [->|Hx]; [|by apply IH].
  assert (forall m : gmap string B, key y ∉ map key l -> fold_left (fun m x => <[key x := value x]> m) l m !! key y = m !! key y) as Hskip.
  { clear. induction l as [|z l IH]; intros m Hn; [done|]. cbn [fold_left map] in *. apply not_elem_of_cons in Hn as [Hz Hn].
    rewrite IH by done. by rewrite lookup_insert_ne. }
  rewrite Hskip by done. apply lookup_insert_eq.
Qed.

Lemma set_replicas_lookup name n roles i role :
  NoDup (map role_Name roles) -> set_replicas name n roles !! i = Some role ->
  exists old, roles !! i = Some old /\ role = (if bool_decide (role_Name old = name) then with_Replicas (Some n) old else old).
Proof.
  revert i. induction roles as [|r roles IH]; intros i Hnd; [done|]. cbn [set_replicas].
  apply NoDup_cons in Hnd as [Hr Hnd]. case_bool_decide as Hname.
  - destruct i as [|i]; cbn; [intros [= <-]; exists r; by rewrite bool_decide_eq_true_2|]. intros Hi. exists role.
    split; [done|]. rewrite bool_decide_eq_false_2; [done|]. intros Hrole. apply Hr. rewrite Hname, <- Hrole.
    apply list_elem_of_fmap_2. by eapply list_elem_of_lookup_2.
  - destruct i as [|i]; cbn; [intros [= <-]; exists r; by rewrite bool_decide_eq_false_2|]. by apply IH.
Qed.

Lemma set_replicas_lookup_rev name n roles i old :
  NoDup (map role_Name roles) -> roles !! i = Some old ->
  set_replicas name n roles !! i = Some (if bool_decide (role_Name old = name) then with_Replicas (Some n) old else old).
Proof.
  revert i. induction roles as [|r roles IH]; intros i Hnd; [done|]. cbn [set_replicas].
  apply NoDup_cons in Hnd as [Hr Hnd]. destruct (bool_decide_reflect (role_Name r = name)) as [Hname|Hname].
  - destruct i as [|i]; cbn; [intros [= <-]; by rewrite bool_decide_eq_true_2|]. intros Hi.
    rewrite (bool_decide_eq_false_2 (role_Name old = name)); [done|]. intros Hrole. apply Hr. rewrite Hname, <- Hrole.
    apply list_elem_of_fmap_2. by eapply list_elem_of_lookup_2.
  - destruct i as [|i]; cbn; [intros [= <-]; by rewrite bool_decide_eq_false_2|]. by apply IH.
Qed.

(** C29: Giving a role of an accepted group other replicas: with the scaling adapter of the
    role enabled and asking for [wanted], the webhook accepts exactly [wanted] (and
    what the role has already). So it never refuses the adapter controller, which
    writes what the adapter asks for, and refuses everybody else. *)
Theorem only_the_adapter_scales (reader : api_reader) (g : RoleBasedGroup) (role : RoleSpec) (adapter : ScalingAdapter) (wanted n : Z) :
  NoDup (map role_Name (rbg_Roles g)) -> role ∈ rbg_Roles g -> IsScalingAdapterEnable (Some role) = true ->
  read_adapter reader (om_Namespace (rbg_meta g)) (GenerateScalingAdapterName (rbg_Name g) (role_Name role)) = Ok adapter ->
  adp_Replicas adapter = Some wanted ->
  ValidateScalingAdapterReplicas (Some reader) g (scaled (role_Name role) n g) = None <->
  n = wanted \/ role_Replicas role = Some n.
Proof.
  intros Hnd Hin Hen Hread Hw. unfold ValidateScalingAdapterReplicas. rewrite NewAggregate_None, imap_None.
  assert (forall r, r ∈ rbg_Roles g -> roles_by_name (rbg_Roles g) !! role_Name r = Some r) as Hold
    by (intros r; by apply (fold_insert_NoDup role_Name (fun x => x))).
  assert (forall i, adapter_conflict reader (scaled (role_Name role) n g) (roles_by_name (rbg_Roles g)) i (with_Replicas (Some n) role) = None
                    <-> n = wanted \/ role_Replicas role = Some n) as Hrole.
  { intros i. unfold adapter_conflict. cbn [IsScalingAdapterEnable role_ScalingAdapter with_Replicas].
    cbn [IsScalingAdapterEnable] in Hen. rewrite Hen. cbn [negb role_Name role_Replicas with_Replicas].
    rewrite (Hold role Hin). unfold scaled, rbg_Name. cbn [rbg_meta rbg_with_roles]. fold (rbg_Name g). rewrite Hread, Hw.
    case_bool_decide as He; [rewrite He; tauto|]. destruct (Z.eqb_spec wanted n) as [->|Hne]; [tauto|].
    split; [done|]. intros [->|?]; done. }
  cbn [rbg_Roles scaled rbg_with_roles]. split.
  - intros H. apply list_elem_of_lookup in Hin as [i Hi].
    pose proof (set_replicas_lookup_rev (role_Name role) n _ _ _ Hnd Hi) as Hi'. rewrite bool_decide_eq_true_2 in Hi' by done.
    specialize (H i _ Hi'). by apply Hrole in H.
  - intros Hok i r Hi. apply set_replicas_lookup in Hi as (old & Hi & ->); [|done].
    assert (old ∈ rbg_Roles g) as Hold_in by by eapply list_elem_of_lookup_2.
    case_bool_decide as Hn; [|].
    + assert (old = role) as -> by by apply (role_name_inj (rbg_Roles g)). by apply Hrole.
    + unfold adapter_conflict. destruct (negb _); [done|]. rewrite (Hold old Hold_in). by rewrite bool_decide_eq_true_2.
Qed.

(** * Role templates *)

Lemma template_errors_nil i names templates :
  template_errors i names templates = [] ->
  NoDup (map rt_Name templates) /\ (forall rt, rt ∈ templates -> rt_Name rt ∉ names /\ IsDNS1123Label (rt_Name rt) = [] /\
    ps_Containers (tmpl_spec (rt_Template rt)) <> []).
Proof.
  revert i names. induction templates as [|rt templates IH]; intros i names; cbn [template_errors].
  - intros _. split; [apply NoDup_nil_2|]. by intros rt ?%elem_of_nil.
  - cbn zeta. case_bool_decide; [done|]. rewrite !app_nil. intros (Hdns & Hdup & Hcont & Hrest).
    apply IH in Hrest as [Hnd Hall].
    assert (IsDNS1123Label (rt_Name rt) = []) as Hd by (by destruct (IsDNS1123Label (rt_Name rt))).
    case_bool_decide as Hin; [done|]. case_bool_decide as Hc; [done|]. split.
    + apply NoDup_cons. split; [|done]. intros (rt' & Heq & Hrt')%list_elem_of_fmap.
      apply Hall in Hrt' as [Hn _]. set_solver.
    + intros rt' [->|Hrt']%elem_of_cons; [done|]. apply Hall in Hrt' as (Hn & ? & ?). split; [set_solver|done].
Qed.

(** C27: A group whose role templates and references are accepted is well formed: the
    templates have distinct names, and every reference of a role names exactly one of
    them, which has a container, and stands without an inline template. *)
Theorem accepted_references_resolve (g : RoleBasedGroup) :
  ValidateRoleTemplates g = None -> ValidateRoleTemplateReferences g = None ->
  NoDup (map rt_Name (rbg_RoleTemplates g)) /\
  forall role ref, role ∈ rbg_Roles g -> GetTemplateRef role = Some ref ->
    GetTemplate role = None /\
    exists rt, rt ∈ rbg_RoleTemplates g /\ rt_Name rt = tr_Name ref /\ ps_Containers (tmpl_spec (rt_Template rt)) <> [] /\
      forall rt', rt' ∈ rbg_RoleTemplates g -> rt_Name rt' = tr_Name ref -> rt' = rt.
Proof.
  unfold ValidateRoleTemplates, ValidateRoleTemplateReferences. rewrite !NewAggregate_None, imap_None.
  intros [Hnd Hall]%template_errors_nil Href. split; [done|]. intros role ref [i Hi]%list_elem_of_lookup Hr.
  specialize (Href i role Hi). unfold validateRoleTemplateFields in Href. rewrite Hr in Href.
  case_bool_decide as Ht; [done|]. case_bool_decide; [done|]. case_bool_decide; [done|].
  case_bool_decide as Hin; [|done]. split; [by apply eq_None_not_Some|].
  apply list_elem_of_fmap in Hin as (rt & Hname & Hrt). exists rt. split; [done|]. split; [done|].
  split; [by apply Hall|]. intros rt' Hrt' Hname'.
  apply list_elem_of_lookup in Hrt as [j Hj], Hrt' as [k Hk].
  assert (j = k) as -> by (apply (NoDup_lookup _ _ _ (tr_Name ref) Hnd); rewrite list_lookup_fmap; [rewrite Hj|rewrite Hk]; cbn; congruence).
  congruence.
Qed.

(** C40: A group set copies the roles of its template and not its role templates: a child
    of a template that uses a reference fails the check of its references that the
    group controller makes before it reconciles. *)
Theorem set_children_lose_role_templates (set : RoleBasedGroupSet) (i : Z) (role : RoleSpec) (ref : TemplateRef) :
  role ∈ gt_Roles (rbgs_Template set) -> GetTemplateRef role = Some ref ->
  ValidateRoleTemplateReferences (newRBGForSet set i) <> None.
Proof.
  intros Hin Href. unfold ValidateRoleTemplateReferences. rewrite NewAggregate_None, imap_None. intros H.
  apply list_elem_of_lookup in Hin as [j Hj]. specialize (H j (normalizeRolloutUpdateType role)). cbn [rbg_Roles rbg_RoleTemplates newRBGForSet] in H.
  unfold normalizedGroupTemplateRoles, normalizeRolloutUpdateTypes in H. rewrite list_lookup_fmap, Hj in H. specialize (H eq_refl).
  unfold validateRoleTemplateFields in H.
  assert (GetTemplateRef (normalizeRolloutUpdateType role) = Some ref) as Hr
    by (rewrite <- Href; unfold normalizeRolloutUpdateType; by destruct (role_RollingUpdate role)).
  rewrite Hr in H. repeat (case_bool_decide; [done|]). case_bool_decide as Hin; [|done]. by apply elem_of_nil in Hin.
Qed.

(** * Gang minimums *)

(** A policy is accepted exactly when every minimum it sets is of a role of its rule
    and at least one, and the scheduler supports minimums at all. *)
Theorem ValidateCoordinatedPolicyGang_iff `{SortSlice} (policy : CoordinatedPolicy) (supported : bool) :
  ValidateCoordinatedPolicyGang policy supported = None <->
  forall rule minReplicas role n, rule ∈ cp_Policies policy -> rule_Gang rule = Some minReplicas ->
    minReplicas !! role = Some n -> supported = true /\ role ∈ rule_Roles rule /\ 1 <= n.
Proof.
  unfold ValidateCoordinatedPolicyGang. rewrite NewAggregate_None, concat_imap_nil.
  assert (forall i rule, gang_errors supported i rule = [] <->
    forall minReplicas role n, rule_Gang rule = Some minReplicas -> minReplicas !! role = Some n ->
      supported = true /\ role ∈ rule_Roles rule /\ 1 <= n) as Hrule.
  { intros i rule. unfold gang_errors. destruct (rule_Gang rule) as [m|]; [|by split].
    case_bool_decide as Hm; [subst; split; [by intros _ ? r n [= <-]|done]|]. cbn zeta.
    apply map_choose in Hm as (k & x & Hk). destruct supported; cbn [negb].
    2: { split; [done|]. intros Hs. by destruct (Hs m k x). }
    assert (forall r n, m !! r = Some n -> r ∈ sortedKeys m) as Hkeys.
    { intros r n Hr. unfold sortedKeys. rewrite sort_slice_perm. apply list_elem_of_fmap. exists (r, n).
      split; [done|]. by apply elem_of_map_to_list. }
    assert (forall r, r ∈ sortedKeys m -> exists n, m !! r = Some n) as Hkeys'.
    { intros r. unfold sortedKeys. rewrite sort_slice_perm. intros ([r' n] & -> & Hr)%list_elem_of_fmap. exists n.
      by apply elem_of_map_to_list in Hr. }
    split.
    - intros Hs m' r n [= <-] Hr. split; [done|]. specialize (Hkeys r n Hr). clear -Hs Hkeys Hr.
      induction (sortedKeys m) as [|r' l IH]; [by apply elem_of_nil in Hkeys|]. cbn [flat_map] in Hs.
      apply app_nil in Hs as [Hs1 Hs2]. apply elem_of_cons in Hkeys as [<-|Hin]; [|by apply IH]. rewrite Hr in Hs1.
      cbn in Hs1. case_bool_decide; [|done]. split; [done|]. destruct (Z.ltb_spec n 1); [done|lia].
    - intros Hs. assert (forall r, r ∈ sortedKeys m -> r ∈ rule_Roles rule /\ 1 <= default 0 (m !! r)) as Hs'.
      { intros r [n Hr]%Hkeys'. rewrite Hr. by destruct (Hs m r n eq_refl Hr) as (_ & ? & ?). }
      clear -Hs'. induction (sortedKeys m) as [|r l IH]; [done|]. cbn [flat_map].
      destruct (Hs' r) as [Hin Hle]; [by left|]. rewrite bool_decide_eq_true_2 by done.
      destruct (Z.ltb_spec (default 0 (m !! r)) 1); [lia|]. apply IH. intros r' Hr'. apply Hs'. by right. }
  setoid_rewrite Hrule. split.
  - intros Hall rule m r n [i Hi]%list_elem_of_lookup. by apply (Hall i).
  - intros Hall i rule Hi m r n. apply Hall. by eapply list_elem_of_lookup_2.
Qed.

(** * Defaulters *)

Lemma DefaultGroup_idem g : DefaultGroup (DefaultGroup g) = DefaultGroup g.
Proof. unfold DefaultGroup, rbg_with_roles. cbn. f_equal. apply normalizeRolloutUpdateTypes_idem. Qed.

(** The defaulters and the group set agree: the webhook leaves the groups the set
    creates and updates as they are, and rewriting the types of a stored group or of
    the set itself never makes the set update a group, nor keeps it from it. *)
Theorem defaulters_cause_no_update `{SortSlice} (set : RoleBasedGroupSet) (g : RoleBasedGroup) (i : Z) :
  NoDup (map role_Name (rbg_Roles g)) -> NoDup (map role_Name (gt_Roles (rbgs_Template set))) ->
  DefaultGroup (newRBGForSet set i) = newRBGForSet set i /\
  DefaultGroup (updated_group set g) = updated_group set g /\
  needsUpdate set (DefaultGroup g) = needsUpdate set g /\
  needsUpdate (DefaultSet set) g = needsUpdate set g.
Proof.
  intros Hg Hs. split_and!.
  - unfold DefaultGroup, newRBGForSet, rbg_with_roles. cbn. f_equal. apply normalizeRolloutUpdateTypes_idem.
  - unfold DefaultGroup, updated_group, rbg_with_roles, rbg_with_meta. cbn. f_equal. apply normalizeRolloutUpdateTypes_idem.
  - unfold needsUpdate. do 3 f_equal. unfold rolesEqual, DefaultGroup. cbn [rbg_Roles rbg_with_roles]. rewrite length_map.
    change (map normalizeRolloutUpdateType (rbg_Roles g)) with (normalizeRolloutUpdateTypes (rbg_Roles g)).
    by rewrite sort_normalized, normalizeRolloutUpdateTypes_idem.
  - unfold needsUpdate. do 3 f_equal. unfold rolesEqual, DefaultSet. cbn [rbgs_Template gt_Roles]. rewrite length_map.
    change (map normalizeRolloutUpdateType (gt_Roles (rbgs_Template set))) with (normalizeRolloutUpdateTypes (gt_Roles (rbgs_Template set))).
    by rewrite sort_normalized, normalizeRolloutUpdateTypes_idem.
Qed.

(** * Concrete instances *)
Module AdmissionDemo.
Definition rolling (p : string) : RollingUpdate := with_Partition (Some (FromString p)) empty_RollingUpdate.
Definition role (name : string) (annotations : labels) (src : TemplateSource) (ru : RollingUpdate) : RoleSpec := {|
  role_Name := name; role_Labels := ∅; role_Annotations := annotations; role_Replicas := Some 4; role_RollingUpdate := Some ru;
  role_Dependencies := []; role_Pattern := standalone src;
  role_ScalingAdapter := Some {| sa_Enable := true; sa_Labels := ∅ |}; role_MinReadySeconds := 0; role_rest := no_rest |}.
Definition legacy : labels := {[RoleWorkloadTypeAnnotationKey := StatefulSetWorkloadType]}.
Definition group (r : RoleSpec) (ts : list RoleTemplate) (owners : list OwnerReference) : RoleBasedGroup := {|
  rbg_meta := AdapterDemo.meta "web-0" "uid-0" owners; rbg_Roles := [r]; rbg_RoleTemplates := ts; rbg_ObservedGeneration := 0;
  rbg_Conditions := []; rbg_RoleStatuses := [] |}.
Definition set (r : RoleSpec) : RoleBasedGroupSet := {|
  rbgs_meta := AdapterDemo.meta "web" "uid-web" []; rbgs_Replicas := Some 1;
  rbgs_Template := {| gt_Labels := ∅; gt_Annotations := ∅; gt_Roles := [r]; gt_RoleTemplates := [] |};
  rbgs_status := {| gss_ObservedGeneration := 0; gss_Replicas := 0; gss_ReadyReplicas := 0; gss_Conditions := [] |} |}.
Definition reader (r : RoleSpec) : api_reader := {|
  read_adapter := fun _ _ => Ok (AdapterDemo.adapter AdapterPhaseBound);
  read_set := fun _ _ => Ok (set r) |}.
Definition validator (r : RoleSpec) : RoleBasedGroupValidator :=
  {| v_Client := Some (reader r); v_APIReader := None; v_EnableDeprecatedWorkloadTypes := true |}.
Definition owned : list OwnerReference := [NewControllerRef GroupAPIVersion SetKind (rbgs_meta (set (role "db" legacy no_template (rolling "50%"))))].
Definition template : PodTemplateSpec := {| tmpl_Labels := ∅; tmpl_Annotations := ∅; tmpl_Finalizers := [];
  tmpl_spec := {| ps_NodeName := ""; ps_Hostname := ""; ps_Subdomain := ""; ps_HostNetwork := false; ps_ReadinessGates := [];
                  ps_Affinity := None; ps_InitContainers := []; ps_rest := "";
                  ps_Containers := [{| ct_Name := "main"; ct_Image := "app"; ct_Env := []; ct_Ports := []; ct_rest := "" |}] |} |}.
Definition by_reference (name : string) : TemplateSource :=
  {| ts_Template := None; ts_TemplateRef := Some {| tr_Name := name; tr_Patch := None |} |}.
End AdmissionDemo.
Import AdmissionDemo.

Lemma accepted_rollout_updates_one_witness :
  exists p, CalculatePartitionReplicas (Some (FromString "50%")) (Some 4) = Ok p /\ 0 <= p < 4.
Proof.
  apply (accepted_rollout_updates_one (group (role "db" ∅ no_template (rolling "50%")) [] []) (role "db" ∅ no_template (rolling "50%")) (rolling "50%") 4).
  - vm_compute. reflexivity.
  - apply list_elem_of_singleton. reflexivity.
  - reflexivity.
  - reflexivity.
  - reflexivity.
  - intros v Hv. vm_compute in Hv. injection Hv as <-. vm_compute. split; discriminate.
Defined.

Lemma deprecated_uses_never_grow_witness :
  let r := role "db" legacy no_template (rolling "50%") in
  let g := group r [] [] in let g' := group (with_RollingUpdate None r) [] [] in
  deprecated_use (rbg_Roles g) "db" StatefulSetWorkloadType.
Proof.
  intros r g g'. apply (deprecated_uses_never_grow g g').
  - apply rtc_once. exists (validator r). vm_compute. reflexivity.
  - split; [reflexivity|]. exists (with_RollingUpdate None r). split; [apply list_elem_of_singleton; reflexivity|].
    split; [reflexivity|vm_compute; reflexivity].
Defined.

Lemma created_deprecated_use_is_the_sets_witness :
  let r := role "db" legacy no_template (rolling "50%") in
  exists reader owner parent, (v_APIReader (validator r) = Some reader \/ v_APIReader (validator r) = None /\ v_Client (validator r) = Some reader) /\
    GetControllerOf (rbg_meta (group r [] owned)) = Some owner /\ read_set reader "default" (or_Name owner) = Ok parent /\
    deprecated_use (gt_Roles (rbgs_Template parent)) "db" StatefulSetWorkloadType.
Proof.
  intros r. destruct (created_deprecated_use_is_the_sets (validator r) (group r [] owned) "db" StatefulSetWorkloadType) as
    (_ & reader & owner & parent & Hr & Ho & _ & _ & Hp & _ & Hu).
  - vm_compute. reflexivity.
  - split; [reflexivity|]. exists r. split; [apply list_elem_of_singleton; reflexivity|]. split; [reflexivity|vm_compute; reflexivity].
  - exists reader, owner, parent. split; [exact Hr|]. split; [exact Ho|]. split; [exact Hp|exact Hu].
Defined.

Lemma only_the_adapter_scales_witness :
  let r := role "worker" ∅ no_template (rolling "50%") in
  ValidateScalingAdapterReplicas (Some (reader r)) (group r [] []) (scaled "worker" 5 (group r [] [])) = None <->
  5 = 5 \/ role_Replicas r = Some 5.
Proof.
  intros r. apply (only_the_adapter_scales (reader r) (group r [] []) r (AdapterDemo.adapter AdapterPhaseBound) 5 5).
  - apply NoDup_singleton.
  - apply list_elem_of_singleton. reflexivity.
  - reflexivity.
  - reflexivity.
  - reflexivity.
Defined.

Lemma accepted_references_resolve_witness :
  let g := group (role "db" ∅ (by_reference "base") (rolling "50%")) [{| rt_Name := "base"; rt_Template := template |}] [] in
  NoDup (map rt_Name (rbg_RoleTemplates g)).
Proof.
  intros g. apply (accepted_references_resolve g); vm_compute; reflexivity.
Defined.

Lemma set_children_lose_role_templates_witness :
  ValidateRoleTemplateReferences (newRBGForSet (set (role "db" ∅ (by_reference "base") (rolling "50%"))) 0) <> None.
Proof.
  apply (set_children_lose_role_templates _ 0 (role "db" ∅ (by_reference "base") (rolling "50%")) {| tr_Name := "base"; tr_Patch := None |});
    [apply list_elem_of_singleton; reflexivity|reflexivity].
Defined.

Lemma defaulters_cause_no_update_witness :
  let r := role "db" ∅ no_template empty_RollingUpdate in
  DefaultGroup (newRBGForSet (set r) 0) = newRBGForSet (set r) 0.
Proof.
  intros r. apply (defaulters_cause_no_update (set r) (group r [] []) 0); apply NoDup_singleton.
Defined.
