(* ===== verification/GroupRevisions.v ===== *)
(** The revisions of a RoleBasedGroup (pkg/utils/revision_utils.go): what a revision
    records of a group, its name, the hash it gives each role, which revision is the
    current one, and when two of them mean the same.

    The encoding of roles and templates as JSON objects and the strategic merge of a
    patch are the class [GroupCodec]; the patch and the hashes are built from the
    objects as the code builds them.  The schema refuses a group without roles, on whose
    encoding getRBGPatch would panic. *)
From Stdlib Require Import ZArith Lia Bool Ascii String.
From stdpp Require Import base tactics list strings gmap sets countable pretty.
From S2P Require Import Prelude GoStrings Types GroupTypes Effects Revisions Json ScalingAdapter ScalingAdapterPass Admission.
From S2P Require Import AdmissionDependencies AdmissionRules.

Definition GroupRevisionLabelKey : string := RBGPrefix +:+ "group-revision".
Definition DefaultRevisionHistoryLimit : Z := 5.
Definition replacePatchDirective : string := "replace".

(** [hash/fnv.New32a]. *)
Definition fnv32a (s : string) : Z :=
  fold_left (fun h c => (Z.lxor h (Z.of_nat (nat_of_ascii c)) * 16777619) mod 4294967296) (chars s) 2166136261.

Definition hash_text (s : string) : string := SafeEncodeString (Itoa (fnv32a s)).

(** The fields of the JSON object of a role and of a role template, the text of a
    value and back, and the group a patch makes of another. *)
Class GroupCodec := {
  role_fields : RoleSpec -> result (gmap string json);
  role_template_fields : RoleTemplate -> result (gmap string json);
  marshal_json : json -> string;
  unmarshal_json : string -> result json;
  merge_group : RoleBasedGroup -> string -> result RoleBasedGroup
}.

Fixpoint encode_all {A} (f : A -> result (gmap string json)) (l : list A) : result (list json) :=
  match l with
  | [] => Ok []
  | x :: l' =>
      match f x, encode_all f l' with
      | Ok m, Ok js => Ok (JObject m :: js)
      | Err e, _ => Err e
      | _, Err e => Err e
      end
  end.

Section patch.
Context `{GroupCodec}.

Definition replace_marker : json := JObject {["$patch"%string := JString replacePatchDirective]}.

(** The roles without their replicas, and the templates, each list behind the marker
    that replaces what was there. *)
Definition patch_value (roles templates : list json) : json :=
  JObject {["spec"%string := JObject (<["roles"%string := JArray (replace_marker :: roles)]>
    {["roleTemplates"%string := JArray (replace_marker :: templates)]})]}.

Definition getRBGPatch (g : RoleBasedGroup) : result string :=
  match encode_all role_fields (map (with_Replicas None) (rbg_Roles g)),
        encode_all role_template_fields (rbg_RoleTemplates g) with
  | Ok roles, Ok templates => Ok (marshal_json (patch_value roles templates))
  | Err e, _ => Err e
  | _, Err e => Err e
  end.

Definition hashRevision (data : string) : string := hash_text data.

Definition revisionName (prefix hash : string) (revisionNumber : Z) : string :=
  (if (220 <? String.length prefix)%nat then of_chars (take 220 (chars prefix)) else prefix)
    +:+ "-" +:+ hash +:+ "-" +:+ Itoa revisionNumber.

Definition NewRevision (g : RoleBasedGroup) (currentRevision : option ControllerRevision) : result ControllerRevision :=
  let revision := match currentRevision with Some r => int64 (cr_Revision r + 1) | None => 1 end in
  match getRBGPatch g with
  | Err e => Err e
  | Ok rawPatch =>
      let hash := hashRevision rawPatch in
      Ok {| cr_meta := with_owners [NewControllerRef GroupAPIVersion GroupKind (rbg_meta g)]
              (with_labels (<[GroupRevisionLabelKey := hash]> {[GroupNameLabelKey := rbg_Name g]})
                 (with_name (revisionName (rbg_Name g) hash revision) (om_Namespace (rbg_meta g)) empty_meta));
            cr_Revision := revision; cr_Data := rawPatch |}
  end.

(** * Which revision *)

(** Listed revisions of no other controller. *)
Definition owned_revisions (g : RoleBasedGroup) (history : list ControllerRevision) : list ControllerRevision :=
  List.filter (fun r => match GetControllerOf (cr_meta r) with
                        | None => true
                        | Some ref => bool_decide (or_UID ref = om_UID (rbg_meta g))
                        end) history.

Fixpoint highest (max : Z) (maxRevision : option ControllerRevision) (revisions : list ControllerRevision)
    : option ControllerRevision :=
  match revisions with
  | [] => maxRevision
  | r :: revisions' =>
      if max <=? cr_Revision r then highest (cr_Revision r) (Some r) revisions' else highest max maxRevision revisions'
  end.

Definition GetHighestRevision (revisions : list ControllerRevision) : option ControllerRevision := highest 0 None revisions.

Definition EqualRevision (lhs rhs : option ControllerRevision) : bool :=
  match lhs, rhs with
  | Some l, Some r => bool_decide (cr_Data l = cr_Data r)
  | None, None => true
  | _, _ => false
  end.

(** Those beyond the limit, the oldest first. *)
Definition expired_revisions (revisions : list ControllerRevision) : list ControllerRevision :=
  let exceedNum := Z.of_nat (length revisions) - DefaultRevisionHistoryLimit in
  if exceedNum <=? 0 then [] else take (Z.to_nat exceedNum) (SortControllerRevisions revisions).

(** * When two revisions mean the same *)

Definition restore_replicas (current : gmap string Z) (r : RoleSpec) : RoleSpec :=
  with_Replicas (Some (default 1 (current !! role_Name r))) r.

(** The replicas of the current roles; a nil one is dereferenced. *)
Fixpoint current_replicas (roles : list RoleSpec) (acc : gmap string Z) : option (gmap string Z) :=
  match roles with
  | [] => Some acc
  | r :: roles' => match role_Replicas r with None => None | Some n => current_replicas roles' (<[role_Name r := n]> acc) end
  end.

(** [None] is the nil dereference. *)
Definition ApplyRevision (g : RoleBasedGroup) (revision : ControllerRevision) : option (result RoleBasedGroup) :=
  match current_replicas (rbg_Roles g) ∅ with
  | None => None
  | Some current =>
      Some (match merge_group g (cr_Data revision) with
            | Err e => Err e
            | Ok restored => Ok (rbg_with_roles (map (restore_replicas current) (rbg_Roles restored)) restored)
            end)
  end.

(** Applied and encoded again the existing revision gives the proposed data. *)
Definition semantic_match (g : RoleBasedGroup) (proposed existing : ControllerRevision) : option bool :=
  match ApplyRevision g existing with
  | None => None
  | Some (Err _) => Some false
  | Some (Ok restored) =>
      Some (match getRBGPatch restored with Ok patch => bool_decide (cr_Data proposed = patch) | Err _ => false end)
  end.

Definition group_cache_key (g : RoleBasedGroup) (existing : ControllerRevision) : revisionEqualityCacheKey := {|
  setUID := om_UID (rbg_meta g); setGeneration := om_Generation (rbg_meta g);
  revisionResourceVersion := om_ResourceVersion (cr_meta existing) |}.

(** * The hash of each role *)

Definition as_object (v : option json) : option (gmap string json) := match v with Some (JObject m) => Some m | _ => None end.
Definition as_array (v : option json) : option (list json) := match v with Some (JArray l) => Some l | _ => None end.
Definition as_string (v : option json) : option string := match v with Some (JString s) => Some s | _ => None end.

(** A present text other than the empty one. *)
Definition as_name (v : option json) : option string :=
  match as_string v with Some s => if bool_decide (s = ""%string) then None else Some s | None => None end.

Fixpoint template_lookup (templates : list json) (acc : gmap string (gmap string json)) : result (gmap string (gmap string json)) :=
  match templates with
  | [] => Ok acc
  | t :: templates' =>
      match as_object (Some t) with
      | None => Err "invalid roleTemplate structure"
      | Some m =>
          if bool_decide (as_string (m !! "$patch"%string) = Some replacePatchDirective) then template_lookup templates' acc
          else match as_name (m !! "name"%string) with
          | None => Err "roleTemplate missing name field"
          | Some name => template_lookup templates' (<[name := m]> acc)
          end
      end
  end.

(** The reference of the standalone pattern, or else of the leader-worker one. *)
Definition template_ref (role : gmap string json) : option (gmap string json) :=
  match as_object (role !! "standalonePattern"%string) ≫= fun sp => as_object (sp !! "templateRef"%string) with
  | Some ref => Some ref
  | None => as_object (role !! "leaderWorkerPattern"%string) ≫= fun lw => as_object (lw !! "templateRef"%string)
  end.

(** What is hashed for a role: its object, and the template it refers to. *)
Definition hashed_text (lookup : gmap string (gmap string json)) (role : gmap string json) : result string :=
  let roleBytes := marshal_json (JObject role) in
  match template_ref role ≫= fun ref => as_name (ref !! "name"%string) with
  | None => Ok roleBytes
  | Some templateName =>
      match lookup !! templateName with
      | None => Err "role references unknown roleTemplate"
      | Some template =>
          Ok (roleBytes +:+ match template !! "template"%string with Some spec => marshal_json spec | None => "" end)
      end
  end.

Fixpoint role_hashes (lookup : gmap string (gmap string json)) (roles : list json) (acc : gmap string string)
    : result (gmap string string) :=
  match roles with
  | [] => Ok acc
  | r :: roles' =>
      match as_object (Some r) with
      | None => Err "invalid role structure"
      | Some m =>
          match as_name (m !! "name"%string) with
          | None =>
              if bool_decide (as_string (m !! "$patch"%string) = Some replacePatchDirective) then role_hashes lookup roles' acc
              else Err "role missing name field"
          | Some name =>
              match hashed_text lookup m with
              | Err e => Err e
              | Ok text => role_hashes lookup roles' (<[name := hash_text text]> acc)
              end
          end
      end
  end.

Definition GetRolesRevisionHash (revision : ControllerRevision) : result (gmap string string) :=
  if bool_decide (cr_Data revision = ""%string) then Ok ∅
  else match unmarshal_json (cr_Data revision) with
  | Err e => Err ("failed to unmarshal ControllerRevision data: " +:+ e)
  | Ok v =>
      match v with
      | JNull => Err "spec not found or wrong type"
      | JObject obj =>
          match as_object (obj !! "spec"%string) with
          | None => Err "spec not found or wrong type"
          | Some spec =>
              match as_array (spec !! "roles"%string) with
              | None => Err "roles not found or wrong type"
              | Some roles =>
                  match spec !! "roleTemplates"%string with
                  | None => role_hashes ∅ roles ∅
                  | Some rawTemplates =>
                      match as_array (Some rawTemplates) with
                      | None => Err "roleTemplates not found or wrong type"
                      | Some templates =>
                          match template_lookup templates ∅ with
                          | Err e => Err e
                          | Ok lookup => role_hashes lookup roles ∅
                          end
                      end
                  end
              end
          end
      | _ => Err "failed to unmarshal ControllerRevision data: not an object"
      end
  end.
End patch.

(** The reference the hash follows. *)
Definition role_ref (r : RoleSpec) : option TemplateRef :=
  match pat_Standalone (role_Pattern r) ≫= ts_TemplateRef with
  | Some t => Some t
  | None => pat_LeaderWorker (role_Pattern r) ≫= (fun lw => ts_TemplateRef (lw_Source lw))
  end.

(** What the standard library promises of the codec: a text reads back, and the fields
    of a struct are those its tags name. *)
Class GroupCodecLaws `{GroupCodec} : Prop := {
  unmarshal_marshal : forall v, unmarshal_json (marshal_json v) = Ok v;
  marshal_nonempty : forall v, marshal_json v <> ""%string;
  role_fields_name : forall r m, role_fields r = Ok m -> m !! "name"%string = Some (JString (role_Name r));
  role_fields_ref : forall r m, role_fields r = Ok m ->
    match role_ref r with
    | None => template_ref m = None
    | Some t => exists ref, template_ref m = Some ref /\ ref !! "name"%string = Some (JString (tr_Name t))
    end;
  role_template_fields_name : forall t m, role_template_fields t = Ok m -> m !! "name"%string = Some (JString (rt_Name t));
  role_template_fields_marker : forall t m, role_template_fields t = Ok m -> m !! "$patch"%string = None
}.

(** * Scaling *)

Lemma getRBGPatch_replicas `{GroupCodec} g g' :
  map (with_Replicas None) (rbg_Roles g) = map (with_Replicas None) (rbg_Roles g') ->
  rbg_RoleTemplates g = rbg_RoleTemplates g' -> getRBGPatch g = getRBGPatch g'.
Proof. intros Hr Ht. unfold getRBGPatch. by rewrite Hr, Ht. Qed.

Lemma set_replicas_forgotten name n roles :
  map (with_Replicas None) (set_replicas name n roles) = map (with_Replicas None) roles.
Proof.
  induction roles as [|r roles IH]; cbn [set_replicas map]; [done|]. case_bool_decide; cbn [map]; [done|by rewrite IH].
Qed.

(** A scaling by the adapter controller makes no revision: the group proposes the data
    it proposed before, under the same name and number, and the same role hashes. *)
Theorem scaling_makes_no_revision `{GroupCodec} (g : RoleBasedGroup) (name : string) (n : Z) (current : option ControllerRevision) :
  NewRevision (scaled name n g) current = NewRevision g current.
Proof.
  unfold NewRevision. rewrite (getRBGPatch_replicas (scaled name n g) g); [done|apply set_replicas_forgotten|done].
Qed.

(** * The hash of a role *)

Section hashes.
Context `{GroupCodecLaws}.

(** What is hashed for a role of the group. *)
Definition role_text (g : RoleBasedGroup) (r : RoleSpec) : result string :=
  m ← role_fields (with_Replicas None r);
  match role_ref r with
  | None => Ok (marshal_json (JObject m))
  | Some t =>
      if bool_decide (tr_Name t = ""%string) then Ok (marshal_json (JObject m))
      else match List.find (fun rt => bool_decide (rt_Name rt = tr_Name t)) (rbg_RoleTemplates g) with
      | None => Err "role references unknown roleTemplate"
      | Some rt =>
          tm ← role_template_fields rt;
          Ok (marshal_json (JObject m) +:+ match tm !! "template"%string with Some spec => marshal_json spec | None => "" end)
      end
  end.

Lemma encode_all_inv {A} (f : A -> result (gmap string json)) l js :
  encode_all f l = Ok js -> exists ms, js = map JObject ms /\ Forall2 (fun x m => f x = Ok m) l ms.
Proof.
  revert js. induction l as [|x l IH]; intros js; cbn [encode_all]; [intros [= <-]; by exists []|].
  destruct (f x) as [m|] eqn:Hx; [|done]. destruct (encode_all f l) as [js'|]; [|done]. intros [= <-].
  destruct (IH js' eq_refl) as (ms & -> & Hms). exists (m :: ms). split; [done|by constructor].
Qed.

Lemma as_name_string s : s <> ""%string -> as_name (Some (JString s)) = Some s.
Proof. intros Hs. unfold as_name. cbn. by rewrite bool_decide_eq_false_2. Qed.

(** The templates by name. *)
Lemma template_lookup_spec ts ms acc :
  Forall2 (fun t m => role_template_fields t = Ok m) ts ms -> NoDup (map rt_Name ts) -> (forall t, t ∈ ts -> rt_Name t <> ""%string) ->
  exists lookup, template_lookup (map JObject ms) acc = Ok lookup /\
    forall name, match List.find (fun t => bool_decide (rt_Name t = name)) ts with
                 | Some t => exists m, lookup !! name = Some m /\ role_template_fields t = Ok m
                 | None => lookup !! name = acc !! name
                 end.
Proof.
  intros Hf. revert acc. induction Hf as [|t m ts ms Ht Hf IH]; intros acc Hnd Hne; cbn [map template_lookup List.find].
  { exists acc. split; [done|]. by intros name. }
  apply NoDup_cons in Hnd as [Hn Hnd]. cbn [as_object]. rewrite (role_template_fields_marker t m Ht). cbn [as_string].
  rewrite bool_decide_eq_false_2 by done. rewrite (role_template_fields_name t m Ht), as_name_string by (apply Hne; by left).
  destruct (IH (<[rt_Name t := m]> acc) Hnd ltac:(intros; apply Hne; by right)) as (lookup & Hl & Hspec).
  exists lookup. split; [done|]. intros name. specialize (Hspec name).
  destruct (bool_decide_reflect (rt_Name t = name)) as [Heq|Hneq].
  - assert (List.find (fun t => bool_decide (rt_Name t = name)) ts = None) as Hnone.
    { destruct (List.find _ ts) as [t'|] eqn:E; [|done]. apply List.find_some in E as [Hin He%bool_decide_eq_true].
      destruct Hn. apply list_elem_of_fmap. exists t'. split; [congruence|by apply list_elem_of_In]. }
    rewrite Hnone in Hspec. exists m. split; [|done]. by rewrite Hspec, <- Heq, lookup_insert_eq.
  - destruct (List.find _ ts); [done|]. by rewrite Hspec, lookup_insert_ne.
Qed.

(** The hashes by name, when every text is there. *)
Lemma role_hashes_spec lookup (rs : list RoleSpec) ms texts acc :
  Forall2 (fun r m => role_fields (with_Replicas None r) = Ok m) rs ms ->
  Forall2 (fun m t => hashed_text lookup m = Ok t) ms texts ->
  NoDup (map role_Name rs) -> (forall r, r ∈ rs -> role_Name r <> ""%string) ->
  exists hashes, role_hashes lookup (map JObject ms) acc = Ok hashes /\
    (forall i r t, rs !! i = Some r -> texts !! i = Some t -> hashes !! role_Name r = Some (hash_text t)) /\
    (forall name, name ∉ map role_Name rs -> hashes !! name = acc !! name).
Proof.
  intros Hf. revert texts acc. induction Hf as [|r m rs ms Hr Hf IH]; intros texts acc Ht Hnd Hne; cbn [map role_hashes].
  { inversion Ht; subst. exists acc. by split_and!. }
  inversion Ht as [|? t ? texts' Htm Ht']; subst. apply NoDup_cons in Hnd as [Hn Hnd]. cbn [as_object].
  rewrite (role_fields_name _ m Hr). cbn [role_Name with_Replicas]. rewrite as_name_string by (apply Hne; by left). rewrite Htm.
  destruct (IH texts' (<[role_Name r := hash_text t]> acc) Ht' Hnd ltac:(intros; apply Hne; by right)) as (hashes & Hh & Hin & Hout).
  exists hashes. split; [done|]. split.
  - intros [|i] r' t'; cbn; [|by apply Hin]. intros [= <-] [= <-]. rewrite Hout by done. apply lookup_insert_eq.
  - intros name Hname. apply not_elem_of_cons in Hname as [Hne' Hname]. rewrite Hout by done. by rewrite lookup_insert_ne.
Qed.

(** A group as admission leaves it: names that tell roles and templates apart, and
    references that resolve. *)
Definition revisable (g : RoleBasedGroup) : Prop :=
  NoDup (map role_Name (rbg_Roles g)) /\ (forall r, r ∈ rbg_Roles g -> role_Name r <> ""%string) /\
  NoDup (map rt_Name (rbg_RoleTemplates g)) /\ (forall t, t ∈ rbg_RoleTemplates g -> rt_Name t <> ""%string) /\
  (forall r t, r ∈ rbg_Roles g -> role_ref r = Some t -> tr_Name t = ""%string \/ tr_Name t ∈ map rt_Name (rbg_RoleTemplates g)).

Lemma hashed_text_role_text g lookup tms r m :
  (forall name, match List.find (fun t => bool_decide (rt_Name t = name)) (rbg_RoleTemplates g) with
                | Some t => exists m, lookup !! name = Some m /\ role_template_fields t = Ok m
                | None => lookup !! name = None
                end) ->
  Forall2 (fun t m => role_template_fields t = Ok m) (rbg_RoleTemplates g) tms ->
  role_fields (with_Replicas None r) = Ok m -> hashed_text lookup m = role_text g r.
Proof.
  intros Hl Htm Hm. unfold hashed_text, role_text. rewrite Hm. cbn [mbind result_bind].
  pose proof (role_fields_ref _ m Hm) as Href. change (role_ref (with_Replicas None r)) with (role_ref r) in Href.
  destruct (role_ref r) as [t|]; [|by rewrite Href]. destruct Href as (ref & -> & Hname). cbn [mbind option_bind].
  rewrite Hname. unfold as_name. cbn [as_string]. case_bool_decide as Hempty; [done|]. specialize (Hl (tr_Name t)).
  destruct (List.find _ _) as [rt|].
  - destruct Hl as (tm & -> & ->). done.
  - by rewrite Hl.
Qed.

Lemma Forall2_texts {A B} (F : A -> result B) (P : B -> string -> Prop) (Q : A -> string -> Prop) l ms :
  Forall2 (fun r m => F r = Ok m) l ms ->
  (forall r m, r ∈ l -> F r = Ok m -> exists text, P m text /\ Q r text) ->
  exists texts, Forall2 P ms texts /\ Forall2 Q l texts.
Proof.
  induction 1 as [|r m l ms Hr Hf IH]; intros Htext; [by exists []|].
  destruct (Htext r m ltac:(by left) Hr) as (text & Hp & Hq).
  destruct IH as (texts & Hps & Hqs); [intros r' m' Hr'; apply Htext; by right|].
  exists (text :: texts). by split; constructor.
Qed.

(** C32: The hashes of a revision: every role of the group has one, no other name has, and
    it is the hash of the role's own text. *)
Theorem role_hash_is_its_own (g : RoleBasedGroup) (current : option ControllerRevision) (cr : ControllerRevision) :
  revisable g -> NewRevision g current = Ok cr ->
  exists hashes, GetRolesRevisionHash cr = Ok hashes /\
    (forall r, r ∈ rbg_Roles g -> exists text, role_text g r = Ok text /\ hashes !! role_Name r = Some (hash_text text)) /\
    (forall name, name ∉ map role_Name (rbg_Roles g) -> hashes !! name = None).
Proof.
  intros (Hnd & Hne & Hnd' & Hne' & Href) Hnew. unfold NewRevision in Hnew. destruct (getRBGPatch g) as [raw|] eqn:Hraw; [|done].
  injection Hnew as <-. unfold getRBGPatch in Hraw.
  destruct (encode_all role_fields _) as [roles|] eqn:Hroles; [|done].
  destruct (encode_all role_template_fields _) as [templates|] eqn:Htemplates; [|done]. injection Hraw as <-.
  apply encode_all_inv in Hroles as (ms & -> & Hms). apply encode_all_inv in Htemplates as (tms & -> & Htms).
  apply Forall2_fmap_l in Hms.
  unfold GetRolesRevisionHash. cbn [cr_Data]. rewrite bool_decide_eq_false_2 by apply marshal_nonempty.
  rewrite unmarshal_marshal. unfold patch_value. rewrite lookup_singleton_eq. cbn [as_object].
  rewrite lookup_insert_eq. cbn [as_array]. rewrite lookup_insert_ne by done. rewrite lookup_singleton_eq. cbn [as_array].
  cbn [template_lookup as_object replace_marker]. rewrite lookup_singleton_eq. cbn [as_string].
  rewrite bool_decide_eq_true_2 by done.
  destruct (template_lookup_spec (rbg_RoleTemplates g) tms ∅ Htms Hnd' Hne') as (lookup & -> & Hl).
  cbn [role_hashes as_object replace_marker]. rewrite lookup_singleton_ne by done. cbn [as_name as_string].
  rewrite lookup_singleton_eq. cbn [as_string]. rewrite bool_decide_eq_true_2 by done.
  assert (forall r m, r ∈ rbg_Roles g -> role_fields (with_Replicas None r) = Ok m -> exists text,
    hashed_text lookup m = Ok text /\ role_text g r = Ok text) as Htext.
  { intros r m Hr Hm. rewrite (hashed_text_role_text g lookup tms r m Hl Htms Hm). unfold role_text. rewrite Hm. cbn [mbind result_bind].
    destruct (role_ref r) as [t|] eqn:Et; [|eauto]. case_bool_decide as He; [eauto|].
    destruct (Href r t Hr Et) as [?|(rt & Hrt & Hin)%list_elem_of_fmap]; [done|]. specialize (Hl (tr_Name t)).
    destruct (List.find _ _) as [rt'|] eqn:Ef.
    - destruct Hl as (tm & _ & ->). cbn [mbind result_bind]. eauto.
    - exfalso. apply list_elem_of_In, (List.find_none _ _ Ef rt), bool_decide_eq_false in Hin. congruence. }
  assert (exists texts, Forall2 (fun m t => hashed_text lookup m = Ok t) ms texts /\
    Forall2 (fun r t => role_text g r = Ok t) (rbg_Roles g) texts) as (texts & Ht1 & Ht2).
  { by apply (Forall2_texts (fun r => role_fields (with_Replicas None r)) _ _ (rbg_Roles g)). }
  destruct (role_hashes_spec lookup (rbg_Roles g) ms texts ∅ Hms Ht1 Hnd Hne) as (hashes & Hh & Hin & Hout).
  exists hashes. split; [done|]. split; [|by intros name Hname; rewrite Hout].
  intros r [i Hi]%list_elem_of_lookup. destruct (Forall2_lookup_l _ _ _ _ _ Ht2 Hi) as (text & Hti & Htr).
  exists text. split; [done|]. by apply (Hin i).
Qed.
End hashes.

(** * A codec *)

Module GroupDemo.
Definition ref_fields (t : TemplateRef) : gmap string json := {["name"%string := JString (tr_Name t)]}.

Definition pattern_fields (src : option TemplateSource) : json :=
  match src with
  | None => JNull
  | Some s => JObject (match ts_TemplateRef s with Some t => {["templateRef"%string := JObject (ref_fields t)]} | None => ∅ end)
  end.

(** The name, the dependencies, the replicas and the references of a role. *)
#[export] Instance group_codec : GroupCodec := {|
  role_fields := fun r => Ok (<["name"%string := JString (role_Name r)]>
    (<["dependencies"%string := JArray (map JString (role_Dependencies r))]>
      (<["replicas"%string := match role_Replicas r with Some n => JNumber n | None => JNull end]>
        (<["standalonePattern"%string := pattern_fields (pat_Standalone (role_Pattern r))]>
          {["leaderWorkerPattern"%string := pattern_fields (lw_Source <$> pat_LeaderWorker (role_Pattern r))]}))));
  role_template_fields := fun t => Ok (<["name"%string := JString (rt_Name t)]>
    {["template"%string := JArray (map JString (map ct_Image (ps_Containers (tmpl_spec (rt_Template t)))))]});
  marshal_json := marshal_text;
  unmarshal_json := unmarshal_text;
  merge_group := fun g _ => Ok g
|}.

#[export] Instance group_codec_laws : GroupCodecLaws.
Proof.
  split.
  - apply unmarshal_marshal_text.
  - apply marshal_text_nonempty.
  - intros r m [= <-]. apply lookup_insert_eq.
  - intros r m [= <-]. unfold template_ref, role_ref. rewrite !lookup_insert_ne by done. rewrite lookup_insert_eq.
    rewrite !lookup_insert_ne by done. rewrite lookup_singleton_eq.
    destruct (role_Pattern r) as [[[tmpl [t|]]|] [lw|] cc]; cbn; try (by eexists);
      destruct lw as [size [tmpl' [t'|]] a b c d e]; cbn; by eexists || done.
  - intros t m [= <-]. apply lookup_insert_eq.
  - intros t m [= <-]. rewrite lookup_insert_ne by done. by rewrite lookup_singleton_ne.
Qed.

(** Two roles from one template. *)
Definition web (n : Z) : RoleBasedGroup := {|
  rbg_meta := AdapterDemo.meta "web" "uid-web" [];
  rbg_Roles := [with_Replicas (Some n) (AdmissionDemo.role "api" ∅ (AdmissionDemo.by_reference "base") empty_RollingUpdate);
                AdmissionDemo.role "db" ∅ no_template empty_RollingUpdate];
  rbg_RoleTemplates := [{| rt_Name := "base"; rt_Template := AdmissionDemo.template |}];
  rbg_ObservedGeneration := 0; rbg_Conditions := []; rbg_RoleStatuses := [] |}.

Lemma web_revisable n : revisable (web n).
Proof.
  split; [|split; [|split; [|split]]].
  - apply NoDup_cons_2; [|apply NoDup_singleton]. intros Hin%list_elem_of_singleton. discriminate Hin.
  - intros r [->| ->%list_elem_of_singleton]%elem_of_cons; discriminate.
  - apply NoDup_singleton.
  - intros t ->%list_elem_of_singleton. discriminate.
  - intros r t [->| ->%list_elem_of_singleton]%elem_of_cons; [|discriminate]. intros [= <-]. right. apply list_elem_of_singleton. reflexivity.
Qed.
End GroupDemo.
Import GroupDemo.

Lemma role_hash_is_its_own_witness :
  exists cr hashes text, NewRevision (GroupDemo.web 3) None = Ok cr /\ GetRolesRevisionHash cr = Ok hashes /\
    hashes !! "db"%string = Some (hash_text text).
Proof.
  destruct (NewRevision (GroupDemo.web 3) None) as [cr|e] eqn:Hn; [|discriminate Hn].
  destruct (role_hash_is_its_own (GroupDemo.web 3) None cr (GroupDemo.web_revisable 3) Hn) as (hashes & Hh & Hin & _).
  destruct (Hin (AdmissionDemo.role "db" ∅ no_template empty_RollingUpdate)) as (text & _ & Ht).
  - apply elem_of_cons. right. apply list_elem_of_singleton. reflexivity.
  - exists cr, hashes, text. split; [reflexivity|]. split; [exact Hh|exact Ht].
Defined.
