(* ===== verification/PolicyMigration.v ===== *)
(** The CoordinatedPolicy of a group that comes from the v1alpha1 API
    (internal/controller/workloads/coordinatedpolicy_migration_controller.go): the
    annotation the conversion wrote, the apply configuration it becomes, and what is
    left of a v1alpha1 coordination in it.

    The JSON of the annotation is the class [CoordinationCodec]. *)
From Stdlib Require Import ZArith Lia Bool Ascii String.
From stdpp Require Import base tactics list strings gmap.
From S2P Require Import Prelude GoStrings IntOrString Types GroupTypes.

(** * v1alpha1 (api/workloads/v1alpha1/rolebasedgroup_types.go) *)

Definition OrderScheduled : string := "OrderScheduled".
Definition OrderReady : string := "OrderReady".

Record CoordinationRollingUpdate := {
  cru_MaxSkew : option string;
  cru_Partition : option string;
  cru_MaxUnavailable : option string
}.

Record CoordinationScaling := { cs_MaxSkew : option string; cs_Progression : option string }.

Record CoordinationStrategy := {
  cst_RollingUpdate : option CoordinationRollingUpdate;
  cst_Scaling : option CoordinationScaling
}.

Record Coordination := {
  coord_Name : string;
  coord_Roles : list string;
  coord_Strategy : option CoordinationStrategy
}.

(** * Apply configurations: what is set, [None] for what is not *)

Record ScalingApply := { sca_MaxSkew : option IntOrString; sca_Progression : option string }.

Record StrategyApply := {
  sta_RollingUpdate : option RollingUpdateCoordination;
  sta_Scaling : option ScalingApply
}.

Record RuleApply := {
  rla_Name : string;
  rla_Roles : list string;
  rla_Strategy : option StrategyApply
}.

Record PolicyApply := {
  pa_Name : string;
  pa_Namespace : string;
  pa_Owners : list OwnerReference;
  pa_Policies : list RuleApply
}.

Definition convert_rolling (src : CoordinationRollingUpdate) : RollingUpdateCoordination := {|
  rc_MaxSkew := FromString <$> cru_MaxSkew src;
  rc_Partition := FromString <$> cru_Partition src;
  rc_MaxUnavailable := FromString <$> cru_MaxUnavailable src |}.

Definition convert_scaling (src : CoordinationScaling) : ScalingApply := {|
  sca_MaxSkew := FromString <$> cs_MaxSkew src;
  sca_Progression := match cs_Progression src with
                     | Some p => if bool_decide (p = OrderScheduled) then Some OrderScheduledProgression else None
                     | None => None
                     end |}.

Definition convertCoordinationStrategyApplyConfiguration (src : option CoordinationStrategy) : option StrategyApply :=
  match src with
  | None => None
  | Some s => Some {| sta_RollingUpdate := convert_rolling <$> cst_RollingUpdate s;
                      sta_Scaling := convert_scaling <$> cst_Scaling s |}
  end.

Definition group_owner (g : RoleBasedGroup) : OwnerReference := {|
  or_APIVersion := GroupAPIVersion; or_Kind := GroupKind; or_Name := rbg_Name g; or_UID := om_UID (rbg_meta g);
  or_Controller := None; or_BlockOwnerDeletion := Some true |}.

Definition rule_apply (c : Coordination) : RuleApply := {|
  rla_Name := coord_Name c; rla_Roles := coord_Roles c;
  rla_Strategy := convertCoordinationStrategyApplyConfiguration (coord_Strategy c) |}.

Definition buildCoordinatedPolicyApplyConfiguration (g : RoleBasedGroup) (coords : list Coordination) : PolicyApply := {|
  pa_Name := rbg_Name g; pa_Namespace := om_Namespace (rbg_meta g); pa_Owners := [group_owner g];
  pa_Policies := map rule_apply coords |}.

Definition annotationCoordMigration : string := "conversion.workloads.x-k8s.io/v1alpha1-coordination".

Class CoordinationCodec := unmarshal_coordinations : string -> result (list Coordination).

(** What is applied for a group, if anything. *)
Definition migrated_policy `{CoordinationCodec} (g : RoleBasedGroup) : result (option PolicyApply) :=
  match om_Annotations (rbg_meta g) !! annotationCoordMigration with
  | None => Ok None
  | Some raw =>
      if bool_decide (raw = ""%string) then Ok None
      else match unmarshal_coordinations raw with
      | Err e => Err ("unmarshal v1alpha1 coordination annotation on " +:+ om_Namespace (rbg_meta g) +:+ "/" +:+ rbg_Name g
                        +:+ ": " +:+ e)
      | Ok coords => Ok (Some (buildCoordinatedPolicyApplyConfiguration g coords))
      end
  end.

(** * What is left of a coordination *)

(** What the policy says once the defaults of its schema are filled in
    (coordinatedpolicy_types.go: the progression is OrderScheduled unless set). *)
Definition stored_progression (a : ScalingApply) : string := default OrderScheduledProgression (sca_Progression a).

(** Waiting for readiness does not survive the migration: every progression is stored
    as OrderScheduled, although OrderReady is a progression of the new API too. *)
Lemma migrated_progression (src : CoordinationScaling) : stored_progression (convert_scaling src) = OrderScheduledProgression.
Proof. unfold stored_progression. cbn. destruct (cs_Progression src); [case_bool_decide|]; done. Qed.

(** The rules of the policy are the coordinations, in their order, with their names and roles. *)
Lemma migrated_rules g coords :
  map (fun r => (rla_Name r, rla_Roles r)) (pa_Policies (buildCoordinatedPolicyApplyConfiguration g coords))
  = map (fun c => (coord_Name c, coord_Roles c)) coords.
Proof. cbn [pa_Policies buildCoordinatedPolicyApplyConfiguration]. rewrite map_map. by apply map_ext. Qed.
