(* ===== verification/GroupWorld.v ===== *)
(** What the controller of a RoleBasedGroup
    (internal/controller/workloads/rolebasedgroup_controller.go) asks of the outside:
    the requests to the API server and the calls of the workload reconcilers and of
    the gang scheduler, each an element of the trace, with the class of their answers.

    A server-side apply is recorded with the configuration it sends.  The reads that
    the coordination and the discovery configuration make on their way (pods,
    services) are answered but not recorded. *)
From Stdlib Require Import ZArith Lia Bool Ascii String.
From stdpp Require Import base tactics list strings gmap sets.
From S2P Require Import Prelude GoStrings IntOrString Types Conditions GroupTypes Effects Revisions Owners Requests.
From S2P Require Import Gang Float64 Coordination ScalingAdapter PolicyMigration.

(** * The workload reconcilers (pkg/reconciler/workload_reconciler.go) *)

Inductive WorkloadReconciler :=
  DeploymentReconciler | StatefulSetReconciler | LeaderWorkerSetReconciler | RoleInstanceSetReconciler.

#[export] Instance WorkloadReconciler_eq_dec : EqDecision WorkloadReconciler.
Proof. solve_decision. Defined.

Definition WorkloadSpec_String (w : WorkloadSpec) : string := ws_APIVersion w +:+ "/" +:+ ws_Kind w.

Definition NewWorkloadReconciler (workload : WorkloadSpec) : result WorkloadReconciler :=
  let t := WorkloadSpec_String workload in
  if bool_decide (t = DeploymentWorkloadType) then Ok DeploymentReconciler
  else if bool_decide (t = StatefulSetWorkloadType) then Ok StatefulSetReconciler
  else if bool_decide (t = LeaderWorkerSetWorkloadType) then Ok LeaderWorkerSetReconciler
  else if bool_decide (t = RoleInstanceSetWorkloadType) then Ok RoleInstanceSetReconciler
  else Err ("unsupported workload type: " +:+ t).

(** * Apply configurations *)

Record ConfigMapApply := {
  cma_Name : string;
  cma_Namespace : string;
  cma_Data : gmap string string;
  cma_Owners : list OwnerReference
}.

Record GroupStatusApply := {
  gsa_Name : string;
  gsa_Namespace : string;
  gsa_ObservedGeneration : Z;
  gsa_RoleStatuses : list RoleStatus;
  gsa_Conditions : list Condition
}.

Definition toRBGApplyConfigurationForStatus (g : RoleBasedGroup) : GroupStatusApply := {|
  gsa_Name := rbg_Name g; gsa_Namespace := om_Namespace (rbg_meta g);
  gsa_ObservedGeneration := rbg_ObservedGeneration g; gsa_RoleStatuses := rbg_RoleStatuses g;
  gsa_Conditions := rbg_Conditions g |}.

(** * Requests *)

(** A gang configuration that cannot be satisfied, or a failure that may pass
    (pkg/scheduler/common/errors.go). *)
Inductive gang_error := Incompatible (e : error) | Transient (e : error).

Inductive group_call :=
| CallGetGroup (namespace name : string)
| CallPatchMode (namespace name mode : string)
| CallApplyGroupStatus (c : GroupStatusApply)
| CallGetAdapter (namespace name : string)
| CallListAdapters (namespace group : string)
| CallCreateAdapter (a : ScalingAdapter)
| CallUpdateAdapter (a : ScalingAdapter)
| CallDeleteAdapter (a : ScalingAdapter) (uid : option string)
| CallListRevisions (namespace group : string)
| CallCreateRevision (r : ControllerRevision)
| CallDeleteRevision (r : ControllerRevision)
| CallGetConfigMap (namespace name : string)
| CallApplyConfigMap (c : ConfigMapApply)
| CallApplyPolicy (p : PolicyApply)
| CallGetPolicy (namespace name : string)
| CallReconcilePodGroup (g : RoleBasedGroup) (strategy : option GangStrategy)
| CallValidateRole (w : WorkloadReconciler) (role : RoleSpec)
| CallReconcileRole (w : WorkloadReconciler) (g : RoleBasedGroup) (role : RoleSpec) (rollout : option RollingUpdate) (hash : string)
| CallRoleStatus (w : WorkloadReconciler) (g : RoleBasedGroup) (role : RoleSpec)
| CallWorkloadReady (w : WorkloadReconciler) (g : RoleBasedGroup) (role : RoleSpec)
| CallCleanupWorkloads (w : WorkloadReconciler) (g : RoleBasedGroup).

Class GroupEnv := {
  ge_clock : nat -> Z;
  (* --enable-deprecated-workload-types, and whether there is a gang scheduler *)
  ge_deprecated : bool;
  ge_gangScheduler : bool;
  (* what the client writes into the type of the object it read *)
  ge_APIVersion : string;
  ge_Kind : string;
  ge_get_group : list group_call -> string -> string -> result RoleBasedGroup;
  ge_patch_mode : list group_call -> string -> string -> string -> result RoleBasedGroup;
  ge_apply_status : list group_call -> GroupStatusApply -> result unit;
  ge_get_adapter : list group_call -> string -> string -> result ScalingAdapter;
  ge_list_adapters : list group_call -> string -> string -> result (list ScalingAdapter);
  ge_create_adapter : list group_call -> ScalingAdapter -> result unit;
  ge_update_adapter : list group_call -> ScalingAdapter -> result unit;
  ge_delete_adapter : list group_call -> ScalingAdapter -> option string -> result unit;
  ge_list_revisions : list group_call -> string -> string -> result (list ControllerRevision);
  ge_create_revision : list group_call -> ControllerRevision -> result ControllerRevision;
  ge_delete_revision : list group_call -> ControllerRevision -> result unit;
  ge_get_config_map : list group_call -> string -> string -> result unit;
  ge_apply_config_map : list group_call -> ConfigMapApply -> result unit;
  ge_apply_policy : list group_call -> PolicyApply -> result unit;
  ge_get_policy : list group_call -> string -> string -> result CoordinatedPolicy;
  ge_pod_group : list group_call -> RoleBasedGroup -> option GangStrategy -> option gang_error;
  ge_validate_role : list group_call -> WorkloadReconciler -> RoleSpec -> result unit;
  ge_reconcile_role : list group_call -> WorkloadReconciler -> RoleBasedGroup -> RoleSpec -> option RollingUpdate -> string -> result unit;
  (* a status comes with an error too *)
  ge_role_status : list group_call -> WorkloadReconciler -> RoleBasedGroup -> RoleSpec -> RoleStatus * option error;
  ge_workload_ready : list group_call -> WorkloadReconciler -> RoleBasedGroup -> RoleSpec -> result bool;
  ge_cleanup_workloads : list group_call -> WorkloadReconciler -> RoleBasedGroup -> result unit;
  (* not recorded: the text of the discovery configuration, the pods of a role *)
  ge_build_config : list group_call -> RoleBasedGroup -> result string;
  ge_list_pods : list group_call -> string -> labels -> result (list Pod);
  ge_ParseFloat : string -> result float64
}.

Abbreviation M := (ST (world group_call)).

Section requests.
Context {ENV : GroupEnv}.

Definition GetGroup (ns name : string) : M RoleBasedGroup :=
  request (CallGetGroup ns name) (fun t => ge_get_group t ns name).
Definition PatchMode (ns name mode : string) : M RoleBasedGroup :=
  request (CallPatchMode ns name mode) (fun t => ge_patch_mode t ns name mode).
Definition ApplyGroupStatus (c : GroupStatusApply) : M unit :=
  request (CallApplyGroupStatus c) (fun t => ge_apply_status t c).
Definition GetAdapter (ns name : string) : M ScalingAdapter :=
  request (CallGetAdapter ns name) (fun t => ge_get_adapter t ns name).
Definition ListAdapters (ns group : string) : M (list ScalingAdapter) :=
  request (CallListAdapters ns group) (fun t => ge_list_adapters t ns group).
Definition CreateAdapter (a : ScalingAdapter) : M unit := request (CallCreateAdapter a) (fun t => ge_create_adapter t a).
Definition UpdateAdapter (a : ScalingAdapter) : M unit := request (CallUpdateAdapter a) (fun t => ge_update_adapter t a).
Definition DeleteAdapter (a : ScalingAdapter) (uid : option string) : M unit :=
  request (CallDeleteAdapter a uid) (fun t => ge_delete_adapter t a uid).
Definition ListAllRevisions (ns group : string) : M (list ControllerRevision) :=
  request (CallListRevisions ns group) (fun t => ge_list_revisions t ns group).
Definition CreateRevision (r : ControllerRevision) : M ControllerRevision :=
  request (CallCreateRevision r) (fun t => ge_create_revision t r).
Definition DeleteRevision (r : ControllerRevision) : M unit := request (CallDeleteRevision r) (fun t => ge_delete_revision t r).
Definition GetConfigMap (ns name : string) : M unit :=
  request (CallGetConfigMap ns name) (fun t => ge_get_config_map t ns name).
Definition ApplyConfigMap (c : ConfigMapApply) : M unit := request (CallApplyConfigMap c) (fun t => ge_apply_config_map t c).
Definition ApplyPolicy (p : PolicyApply) : M unit := request (CallApplyPolicy p) (fun t => ge_apply_policy t p).
Definition GetPolicy (ns name : string) : M CoordinatedPolicy :=
  request (CallGetPolicy ns name) (fun t => ge_get_policy t ns name).
(** The error of the scheduler is a value: it decides what the reconcile does next. *)
Definition SchedulerPodGroup (g : RoleBasedGroup) (strategy : option GangStrategy) : M (option gang_error) :=
  request (CallReconcilePodGroup g strategy) (fun t => Ok (ge_pod_group t g strategy)).
Definition ValidateRole (w : WorkloadReconciler) (role : RoleSpec) : M unit :=
  request (CallValidateRole w role) (fun t => ge_validate_role t w role).
Definition ReconcileRole (w : WorkloadReconciler) (g : RoleBasedGroup) (role : RoleSpec) (rollout : option RollingUpdate)
    (hash : string) : M unit :=
  request (CallReconcileRole w g role rollout hash) (fun t => ge_reconcile_role t w g role rollout hash).
Definition RoleStatusOf (w : WorkloadReconciler) (g : RoleBasedGroup) (role : RoleSpec) : M (RoleStatus * option error) :=
  request (CallRoleStatus w g role) (fun t => Ok (ge_role_status t w g role)).
Definition WorkloadReady (w : WorkloadReconciler) (g : RoleBasedGroup) (role : RoleSpec) : M bool :=
  request (CallWorkloadReady w g role) (fun t => ge_workload_ready t w g role).
Definition CleanupWorkloads (w : WorkloadReconciler) (g : RoleBasedGroup) : M unit :=
  request (CallCleanupWorkloads w g) (fun t => ge_cleanup_workloads t w g).

(** What the reader of a policy makes of the answer. *)
Definition policy_read (r : result CoordinatedPolicy) : get_result CoordinatedPolicy :=
  match r with Ok p => Found p | Err e => if IsNotFound e then NotFound else GetError e end.
End requests.
