(* ===== verification/GroupReconcile.v ===== *)
(** The reconcile of a RoleBasedGroup
    (internal/controller/workloads/rolebasedgroup_controller.go), step by step as the
    code takes them: the replicas of bound adapters, the checks, the revision, the
    discovery mode and configuration, the role statuses, the migrated policy, the
    coordination, the gang, the roles in dependency order, and the cleanup.

    The group in memory is passed along: the steps that change it return it.  Events
    and logs are left out, and the watches a workload type adds the first time. *)
From Stdlib Require Import ZArith Lia Bool Ascii String.
From stdpp Require Import base tactics list strings gmap sets.
From S2P Require Import Prelude GoStrings IntOrString Types Conditions GroupTypes Effects Revisions Owners Requests.
From S2P Require Import Gang Float64 Coordination Dependency ScalingAdapter Admission GroupRevisions PolicyMigration GroupWorld.

Definition incompatibleGangConfigRequeue : Z := 5 * (60 * second).

Definition RoleInstanceGangSchedulingAnnotationKey : string := RBGPrefix +:+ "role-instance-gang-scheduling".
Definition DiscoveryConfigModeAnnotationKey : string := RBGPrefix +:+ "discovery-config-mode".
Definition LegacyDiscoveryConfigMode : string := "legacy".
Definition RefineDiscoveryConfigMode : string := "refine".

Definition RoleBasedGroupReady : string := "Ready".
Definition RoleBasedGroupGangConfigured : string := "GangConfigured".
Definition IncompatibleGangConfig : string := "IncompatibleGangConfig".

Definition GetDiscoveryConfigMode (g : RoleBasedGroup) : string :=
  label_of (om_Annotations (rbg_meta g)) DiscoveryConfigModeAnnotationKey.

(** [errors.Join] of the errors of a level. *)
Definition join_errors (errs : list error) : option error :=
  match errs with [] => None | _ => Some (Join errs (String "010"%char EmptyString)) end.

Section reconcile.
Context `{SortSlice} `{GroupCodec} `{CoordinationCodec} {ENV : GroupEnv}.

Definition g_ns (g : RoleBasedGroup) : string := om_Namespace (rbg_meta g).

(** * Replicas of bound adapters *)

Definition adapter_override (g : RoleBasedGroup) (role : RoleSpec) : M RoleSpec :=
  if negb (IsScalingAdapterEnable (Some role)) then mret role
  else
    let adapterName := GenerateScalingAdapterName (rbg_Name g) (role_Name role) in
    r ← outcome (GetAdapter (g_ns g) adapterName);
    match r with
    | Err e => if IsNotFound e then mret role
               else fail ("get scaling adapter " +:+ g_ns g +:+ "/" +:+ adapterName +:+ ": " +:+ e)
    | Ok adapter =>
        if negb (ContainsRBGOwner adapter g) then mret role
        else if bool_decide (as_Phase (adp_status adapter) <> AdapterPhaseBound) then mret role
        else mret (match adp_Replicas adapter with None => role | Some n => with_Replicas (Some n) role end)
    end.

Fixpoint override_roles (g : RoleBasedGroup) (roles : list RoleSpec) : M (list RoleSpec) :=
  match roles with
  | [] => mret []
  | r :: roles' => r ← adapter_override g r; roles' ← override_roles g roles'; mret (r :: roles')
  end.

Definition applyRBGSAReplicasOverride (g : RoleBasedGroup) : M RoleBasedGroup :=
  roles ← override_roles g (rbg_Roles g); mret (rbg_with_roles roles g).

(** * Checks *)

Definition annotated_true (g : RoleBasedGroup) (key : string) : bool :=
  bool_decide (label_of (om_Annotations (rbg_meta g)) key = "true"%string).

Definition check_role (role : RoleSpec) : M (option error) :=
  match NewWorkloadReconciler (GetWorkloadSpec role) with
  | Err e => mret (Some ("role " +:+ role_Name role +:+ ": " +:+ e))
  | Ok w =>
      r ← outcome (ValidateRole w role);
      mret (match r with Ok _ => None | Err e => Some ("role " +:+ role_Name role +:+ ": " +:+ e) end)
  end.

Definition preCheck (g : RoleBasedGroup) : M unit :=
  if annotated_true g GangSchedulingAnnotationKey && annotated_true g RoleInstanceGangSchedulingAnnotationKey
  then fail "annotations cannot be set simultaneously on the same RoleBasedGroup"
  else match ValidateRoleTemplates g with
  | Some e => fail ("invalid role templates: " +:+ e)
  | None =>
      match ValidateRoleTemplateReferences g with
      | Some e => fail ("invalid template references: " +:+ e)
      | None =>
          errs ← collect check_role (rbg_Roles g);
          match NewAggregate errs with
          | None => mret tt
          | Some e => fail ("invalid role workload declarations: " +:+ e)
          end
      end
  end.

(** * The revision *)

(** The world, and the cache of revisions known to be equal. *)
Abbreviation MC := (ST (world group_call * list revisionEqualityCacheKey)).

Definition ListRevisions (g : RoleBasedGroup) : M (list ControllerRevision) :=
  history ← ListAllRevisions (g_ns g) (rbg_Name g); mret (owned_revisions g history).

Definition getCurrentRevision (g : RoleBasedGroup) : M (option ControllerRevision) :=
  revisions ← ListRevisions g; mret (GetHighestRevision revisions).

Definition SetMatchesRevision (g : RoleBasedGroup) (proposed : ControllerRevision) (existing : option ControllerRevision)
    : MC bool :=
  match existing with
  | None => mret false
  | Some existing =>
      cache ← gets snd;
      let key := group_cache_key g existing in
      match lru_get key cache with
      | Some cache => modify (fun w => (w.1, cache)) ≫= fun _ => mret true
      | None =>
          match semantic_match g proposed existing with
          | None => fail NilDereference
          | Some false => mret false
          | Some true =>
              modify (fun w => (w.1, lru_add MaxRevisionEqualityCacheEntries key cache)) ≫= fun _ => mret true
          end
      end
  end.

Definition handleRevisions (g : RoleBasedGroup) : MC (gmap string string) :=
  currentRevision ← on_world (getCurrentRevision g);
  expectedRevision ← lift (NewRevision g currentRevision);
  expectedRevision ←
    (if EqualRevision currentRevision (Some expectedRevision) then mret expectedRevision
     else
       same ← SetMatchesRevision g expectedRevision currentRevision;
       if (same : bool) then mret (default expectedRevision currentRevision)
       else on_world (CreateRevision expectedRevision));
  lift (GetRolesRevisionHash expectedRevision).

(** * The discovery mode *)

Fixpoint some_config_map (g : RoleBasedGroup) (roles : list RoleSpec) : M bool :=
  match roles with
  | [] => mret false
  | role :: roles' =>
      r ← outcome (GetConfigMap (g_ns g) (GetWorkloadName (Some g) role));
      match r with
      | Ok _ => mret true
      | Err e => if IsNotFound e then some_config_map g roles' else fail e
      end
  end.

Definition shouldUseLegacyDiscoveryConfig (g : RoleBasedGroup) : M bool :=
  if (0 <? rbg_ObservedGeneration g) || bool_decide (rbg_RoleStatuses g <> []) then mret true
  else some_config_map g (rbg_Roles g).

(** The group as the server has it once the mode is written: what was changed in
    memory before is gone. *)
Definition ensureDiscoveryConfigMode (g : RoleBasedGroup) : M RoleBasedGroup :=
  let mode := GetDiscoveryConfigMode g in
  if bool_decide (mode = LegacyDiscoveryConfigMode) || bool_decide (mode = RefineDiscoveryConfigMode) then mret g
  else
    legacy ← shouldUseLegacyDiscoveryConfig g;
    PatchMode (g_ns g) (rbg_Name g) (if (legacy : bool) then LegacyDiscoveryConfigMode else RefineDiscoveryConfigMode).

Definition reconcileRefinedDiscoveryConfigMap (g : RoleBasedGroup) : M unit :=
  if bool_decide (GetDiscoveryConfigMode g <> RefineDiscoveryConfigMode) then mret tt
  else if negb (HasStatefulRole g) then mret tt
  else
    configData ← (fun w => (ge_build_config (w_trace w) (rbg_with_roles (List.filter IsStatefulRole (rbg_Roles g)) g), w));
    ApplyConfigMap {|
      cma_Name := rbg_Name g; cma_Namespace := g_ns g; cma_Data := {["config.yaml"%string := configData]};
      cma_Owners := [{| or_APIVersion := ge_APIVersion; or_Kind := ge_Kind; or_Name := rbg_Name g;
                        or_UID := om_UID (rbg_meta g); or_Controller := Some true; or_BlockOwnerDeletion := Some true |}] |}.

(** * The status *)

Definition role_ready (statusMap : gmap string RoleStatus) (role : RoleSpec) : bool :=
  match statusMap !! role_Name role, role_Replicas role with
  | Some rs, Some n => (n =? rst_Replicas rs) && (rst_Replicas rs =? rst_ReadyReplicas rs)
  | _, _ => false
  end.

(** Of two statuses of one name the last counts. *)
Definition status_map (statuses : list RoleStatus) : gmap string RoleStatus :=
  fold_left (fun m rs => <[rst_Name rs := rs]> m) statuses ∅.

Definition ready_condition (ready : bool) (generation now : Z) : Condition :=
  if ready then {| c_Type := RoleBasedGroupReady; c_Status := ConditionTrue; c_ObservedGeneration := generation;
                   c_LastTransitionTime := Some now; c_Reason := "AllRolesReady"; c_Message := "All roles are ready" |}
  else {| c_Type := RoleBasedGroupReady; c_Status := ConditionFalse; c_ObservedGeneration := generation;
          c_LastTransitionTime := Some now; c_Reason := "RoleNotReady"; c_Message := "Not all role ready" |}.

(** The first status of the name is replaced, a new name comes last. *)
Fixpoint put_status (rs : RoleStatus) (l : list RoleStatus) : list RoleStatus :=
  match l with
  | [] => [rs]
  | old :: l' => if bool_decide (rst_Name rs = rst_Name old) then rs :: l' else old :: put_status rs l'
  end.

Definition put_statuses (l : list RoleStatus) (statuses : list RoleStatus) : list RoleStatus :=
  fold_left (fun l rs => put_status rs l) statuses l.

(** The group with its new status. *)
Definition updated_status (g : RoleBasedGroup) (roleStatuses : list RoleStatus) (now : Z) : RoleBasedGroup :=
  let rbgReady := forallb (role_ready (status_map roleStatuses)) (rbg_Roles g) in
  let generation := om_Generation (rbg_meta g) in
  rbg_with_status generation (SetStatusCondition now (ready_condition rbgReady generation now) (rbg_Conditions g)).1
    (put_statuses (rbg_RoleStatuses g) roleStatuses) g.

Definition same_status (g g' : RoleBasedGroup) : bool :=
  bool_decide (rbg_ObservedGeneration g = rbg_ObservedGeneration g')
  && bool_decide (rbg_Conditions g = rbg_Conditions g')
  && bool_decide (rbg_RoleStatuses g = rbg_RoleStatuses g').

Definition updateRBGStatus (g : RoleBasedGroup) (roleStatuses : list RoleStatus) : M RoleBasedGroup :=
  now ← read_clock ge_clock;
  let g' := updated_status g roleStatuses now in
  if same_status g g' then mret g'
  else ApplyGroupStatus (toRBGApplyConfigurationForStatus g') ≫= fun _ => mret g'.

Fixpoint role_statuses (g : RoleBasedGroup) (roles : list RoleSpec) : M (list RoleStatus) :=
  match roles with
  | [] => mret []
  | role :: roles' =>
      w ← lift (NewWorkloadReconciler (GetWorkloadSpec role));
      '(rs, err) ← RoleStatusOf w g role;
      match err with
      | Some e => if IsNotFound e then rest ← role_statuses g roles'; mret (rs :: rest) else fail e
      | None => rest ← role_statuses g roles'; mret (rs :: rest)
      end
  end.

Definition constructAndUpdateRoleStatuses (g : RoleBasedGroup) : M (list RoleStatus * RoleBasedGroup) :=
  roleStatuses ← role_statuses g (rbg_Roles g);
  g' ← updateRBGStatus g roleStatuses;
  mret (roleStatuses, g').

(** * The policy and the coordination *)

Definition EnsureV1alpha1CoordinatedPolicy (g : RoleBasedGroup) : M unit :=
  policy ← lift (migrated_policy g);
  match policy with
  | None => mret tt
  | Some p =>
      r ← outcome (ApplyPolicy p);
      match r with
      | Ok _ => mret tt
      | Err e => fail ("apply CoordinatedPolicy " +:+ g_ns g +:+ "/" +:+ rbg_Name g +:+ ": " +:+ e)
      end
  end.

Definition coordinate (g : RoleBasedGroup) (roleStatuses : list RoleStatus) : M (gmap string Z * gmap string RollingUpdate) :=
  r ← outcome (GetPolicy (g_ns g) (rbg_Name g));
  t ← gets w_trace;
  match handleCoordinationStrategies ge_ParseFloat (ge_list_pods t) (policy_read r) g roleStatuses with
  | None => fail "recovered panic"
  | Some res => lift res
  end.

(** * The gang *)

Definition ResolveGangStrategy (g : RoleBasedGroup) : M (option GangStrategy * option gang_error) :=
  r ← outcome (GetPolicy (g_ns g) (rbg_Name g));
  mret (match getGangStrategy (policy_read r) g with
        | Ok s => (s, None)
        | Err e => (None, Some (match policy_read r with Found _ => Incompatible e | _ => Transient e end))
        end).

Definition reconcilePodGroup (g : RoleBasedGroup) (gangStrategy : option GangStrategy) : M (option gang_error) :=
  if negb ge_gangScheduler then mret None else SchedulerPodGroup g gangStrategy.

Definition gang_condition (ok : bool) (message : string) (generation now : Z) : Condition := {|
  c_Type := RoleBasedGroupGangConfigured; c_Status := if ok then ConditionTrue else ConditionFalse;
  c_ObservedGeneration := generation; c_LastTransitionTime := Some now;
  c_Reason := if ok then "GangConfigured"%string else IncompatibleGangConfig; c_Message := message |}.

Definition with_conditions (l : list Condition) (g : RoleBasedGroup) : RoleBasedGroup :=
  rbg_with_status (rbg_ObservedGeneration g) l (rbg_RoleStatuses g) g.

(** The conditions after the outcome of the gang, and whether they changed. *)
Definition gang_conditions (g : RoleBasedGroup) (gangStrategy : option GangStrategy) (cause : option error)
    : M (list Condition * bool) :=
  match cause, gangStrategy with
  | Some e, _ =>
      now ← read_clock ge_clock;
      mret (SetStatusCondition now (gang_condition false e (om_Generation (rbg_meta g)) now) (rbg_Conditions g))
  | None, None => mret (RemoveStatusCondition RoleBasedGroupGangConfigured (rbg_Conditions g))
  | None, Some _ =>
      now ← read_clock ge_clock;
      mret (SetStatusCondition now (gang_condition true "Gang scheduling configuration is satisfiable"
                                      (om_Generation (rbg_meta g)) now) (rbg_Conditions g))
  end.

Definition setGangConfiguredCondition (g : RoleBasedGroup) (gangStrategy : option GangStrategy) (cause : option error)
    : M RoleBasedGroup :=
  '(conditions, changed) ← gang_conditions g gangStrategy cause;
  let g' := with_conditions conditions g in
  if negb (changed : bool) then mret g'
  else ApplyGroupStatus (toRBGApplyConfigurationForStatus g') ≫= fun _ => mret g'.

(** * The roles *)

(** pkg/dependency: whether the workload of each dependency is ready. *)
Fixpoint dependencies_ready (g : RoleBasedGroup) (deps : list string) : M bool :=
  match deps with
  | [] => mret true
  | dep :: deps' =>
      depRole ← lift (GetRole dep g);
      w ← lift (NewWorkloadReconciler (GetWorkloadSpec depRole));
      ready ← WorkloadReady w g depRole;
      if negb (ready : bool) then mret false else dependencies_ready g deps'
  end.

Definition buildScalingAdapterLabels (role : RoleSpec) (rbgName roleName : string) : labels :=
  <[RoleNameLabelKey := roleName]> (<[GroupNameLabelKey := rbgName]>
    match role_ScalingAdapter role with Some sa => sa_Labels sa | None => ∅ end).

Definition new_adapter (g : RoleBasedGroup) (role : RoleSpec) : ScalingAdapter := {|
  adp_meta := with_owners [{| or_APIVersion := ge_APIVersion; or_Kind := ge_Kind; or_Name := rbg_Name g;
                              or_UID := om_UID (rbg_meta g); or_Controller := None; or_BlockOwnerDeletion := Some true |}]
                (with_labels (buildScalingAdapterLabels role (rbg_Name g) (role_Name role))
                   (with_name (GenerateScalingAdapterName (rbg_Name g) (role_Name role)) (g_ns g) empty_meta));
  adp_Replicas := None;
  adp_ScaleTargetRef := Some {| ref_Name := rbg_Name g; ref_Role := role_Name role |};
  adp_status := {| as_Phase := ""; as_Replicas := None; as_Selector := ""; as_ReadyReplicas := None; as_LastScaleTime := None |} |}.

Definition relabelled (l : labels) (a : ScalingAdapter) : ScalingAdapter := {|
  adp_meta := with_labels l (adp_meta a); adp_Replicas := adp_Replicas a;
  adp_ScaleTargetRef := adp_ScaleTargetRef a; adp_status := adp_status a |}.

Definition ReconcileScalingAdapter (g : RoleBasedGroup) (role : RoleSpec) : M unit :=
  let enabled := IsScalingAdapterEnable (Some role) in
  let create := if negb enabled then mret tt else CreateAdapter (new_adapter g role) in
  r ← outcome (GetAdapter (g_ns g) (GenerateScalingAdapterName (rbg_Name g) (role_Name role)));
  match r with
  | Ok adapter =>
      if negb enabled then DeleteAdapter adapter None
      else if IsScalingAdapterManagedByRBG adapter (Some g) then
        let desiredLabels := buildScalingAdapterLabels role (rbg_Name g) (role_Name role) in
        if bool_decide (om_Labels (adp_meta adapter) = desiredLabels) then mret tt
        else UpdateAdapter (relabelled desiredLabels adapter)
      else
        d ← outcome (DeleteAdapter adapter (Some (om_UID (adp_meta adapter))));
        match d with
        | Err e => if IsNotFound e then create else fail e
        | Ok _ => create
        end
  | Err e => if IsNotFound e then create else fail e
  end.

Section roles.
Context (g : RoleBasedGroup) (hashes : gmap string string) (scalingTargets : gmap string Z)
  (rollingUpdateStrategies : gmap string RollingUpdate).

Definition role_to_reconcile (role : RoleSpec) : RoleSpec :=
  match scalingTargets !! role_Name role with Some n => with_Replicas (Some n) role | None => role end.

Definition reconcileSingleRole (role : RoleSpec) : M unit :=
  w ← lift (NewWorkloadReconciler (GetWorkloadSpec role));
  ReconcileRole w g (role_to_reconcile role) (rollingUpdateStrategies !! role_Name role)
    (label_of hashes (role_Name role)) ≫= fun _ =>
  ReconcileScalingAdapter g role.

(** The errors of the roles of a level; a dependency that is not ready ends the pass. *)
Fixpoint reconcile_level (level : list RoleSpec) : M (list error) :=
  match level with
  | [] => mret []
  | role :: level' =>
      ready ← dependencies_ready g (role_Dependencies role);
      if negb (ready : bool) then fail ("dependencies not met for role '" +:+ role_Name role +:+ "'")
      else
        r ← outcome (reconcileSingleRole role);
        errs ← reconcile_level level';
        mret (match r with Ok _ => errs | Err e => e :: errs end)
  end.

Definition reconcile_one_level (level : list RoleSpec) : M unit :=
  errs ← reconcile_level level;
  match join_errors errs with None => mret tt | Some e => fail e end.

(** On distinct role names the order is always found (SortRoles_error_iff). *)
Definition reconcileRoles : M unit :=
  match SortRoles g with
  | None => fail "the order of the roles was not found"
  | Some (Err e) => fail e
  | Some (Ok sortedRoles) => for_each reconcile_one_level sortedRoles
  end.
End roles.

(** * Cleanup *)

Definition orphaned_adapter (g : RoleBasedGroup) (a : ScalingAdapter) : bool :=
  IsScalingAdapterManagedByRBG a (Some g)
  && match adp_ScaleTargetRef a with
     | None => false
     | Some ref => bool_decide (ref_Name ref = rbg_Name g)
                   && negb (existsb (fun r => bool_decide (role_Name r = ref_Role ref)) (rbg_Roles g))
     end.

Definition CleanupOrphanedScalingAdapters (g : RoleBasedGroup) : M unit :=
  items ← ListAdapters (g_ns g) (rbg_Name g);
  for_each (fun a =>
    r ← outcome (DeleteAdapter a None);
    match r with Ok _ => mret tt | Err e => fail ("delete scalingAdapter " +:+ adp_Name a +:+ " error: " +:+ e) end)
    (List.filter (orphaned_adapter g) items).

Definition error_of {A} (m : M A) : M (option error) :=
  r ← outcome m; mret (match r with Ok _ => None | Err e => Some e end).

Definition cleanup_types : list WorkloadReconciler :=
  (if ge_deprecated then [DeploymentReconciler; StatefulSetReconciler; LeaderWorkerSetReconciler] else [])
  ++ [RoleInstanceSetReconciler].

Definition deleteOrphanRoles (g : RoleBasedGroup) : M unit :=
  errs ← collect (fun w => error_of (CleanupWorkloads w g)) cleanup_types;
  e ← error_of (CleanupOrphanedScalingAdapters g);
  fail_all (errs ++ option_list e).

Definition CleanExpiredRevision (g : RoleBasedGroup) : M unit :=
  revisions ← ListRevisions g; for_each DeleteRevision (expired_revisions revisions).

Definition cleanup (g : RoleBasedGroup) : M unit :=
  deleteOrphanRoles g ≫= fun _ => CleanExpiredRevision g.

(** * The reconcile

    The result is the delay after which to come back, 0 for none. *)

Definition first_error (e : option gang_error) (m : M (option gang_error)) : M (option gang_error) :=
  match e with Some _ => mret e | None => m end.

(** Everything behind the revision. *)
Definition reconcile_group (g : RoleBasedGroup) (hashes : gmap string string) : M Z :=
  g ← ensureDiscoveryConfigMode g;
  reconcileRefinedDiscoveryConfigMap g ≫= fun _ =>
  '(roleStatuses, g) ← constructAndUpdateRoleStatuses g;
  EnsureV1alpha1CoordinatedPolicy g ≫= fun _ =>
  '(scalingTargets, rollingUpdateStrategies) ← coordinate g roleStatuses;
  '(gangStrategy, resolveErr) ← ResolveGangStrategy g;
  gangErr ← first_error resolveErr (reconcilePodGroup g gangStrategy);
  match gangErr with
  | Some (Transient e) => fail e
  | Some (Incompatible e) =>
      g ← setGangConfiguredCondition g gangStrategy (Some e);
      cleanup g ≫= fun _ => mret incompatibleGangConfigRequeue
  | None =>
      g ← setGangConfiguredCondition g gangStrategy None;
      reconcileRoles g hashes (raiseScalingTargetsToGangMinimum scalingTargets g gangStrategy).1 rollingUpdateStrategies ≫= fun _ =>
      cleanup g ≫= fun _ => mret 0
  end.

(** The group to reconcile, checked, if there is one. *)
Definition read_group (ns name : string) : M (option RoleBasedGroup) :=
  r ← outcome (GetGroup ns name);
  match r with
  | Err e => if IsNotFound e then mret None else fail e
  | Ok g =>
      if bool_decide (is_Some (om_DeletionTimestamp (rbg_meta g))) then mret None
      else
        g ← applyRBGSAReplicasOverride g;
        preCheck g ≫= fun _ => mret (Some g)
  end.

Definition Reconcile (ns name : string) : MC Z :=
  found ← on_world (read_group ns name);
  match found with
  | None => mret 0
  | Some g => hashes ← handleRevisions g; on_world (reconcile_group g hashes)
  end.
End reconcile.

(** * Events *)

(** A change of the group is one of its spec. *)
Definition RBGPredicate_update (old new : RoleBasedGroup) : bool :=
  negb (bool_decide (rbg_Roles old = rbg_Roles new) && bool_decide (rbg_RoleTemplates old = rbg_RoleTemplates new)).

(** pkg/utils/crds.go: some reference is of the kind, of its group and version. *)
Definition CheckOwnerReference (refs : list OwnerReference) (group version kind : string) : bool :=
  existsb (fun ref => match ParseGroupVersion (or_APIVersion ref) with
                      | Some (g, v) => bool_decide (g = group) && bool_decide (v = version) && bool_decide (or_Kind ref = kind)
                      | None => false
                      end) refs.

Definition hasValidOwnerRef (refs : list OwnerReference) : bool :=
  match refs with [] => false | _ => CheckOwnerReference refs "workloads.x-k8s.io" "v1alpha2" GroupKind end.

(** [equal] is the comparison of the two workloads. *)
Definition WorkloadPredicate_update (oldRefs newRefs : list OwnerReference) (equal : bool) : bool :=
  if negb (hasValidOwnerRef oldRefs) || negb (hasValidOwnerRef newRefs) then false else negb equal.

Definition WorkloadPredicate_delete (refs : list OwnerReference) : bool := hasValidOwnerRef refs.
