(* ===== verification/Histories.v ===== *)
(** Reasoning about the order of the requests of a computation: each request of a
    trace is explained by the requests before it.

    The trace is newest first, so what stands behind a request in the list came before
    it in time.  [keeps P m Q]: started where [P] holds of the trace, [m] leaves every
    request of the trace explained, and [Q] of its result and the trace it ends with. *)
From Stdlib Require Import ZArith Lia Bool.
From stdpp Require Import base tactics list strings.
From S2P Require Import Prelude GoStrings Effects Requests.

Lemma bind_ok_inv {W A B} (m : ST W A) (f : A -> ST W B) w b w' :
  (m ≫= f) w = (Ok b, w') -> exists a w1, m w = (Ok a, w1) /\ f a w1 = (Ok b, w').
Proof. intros [(e & _ & [=])|(a & w1 & Hm & Hf)]%bind_inv. eauto. Qed.

Section histories.
Context {W C : Type} (trace : W -> list C) (ok : list C -> C -> Prop).

Fixpoint explained (t : list C) : Prop :=
  match t with [] => True | c :: t' => ok t' c /\ explained t' end.

Lemma explained_at t2 c t1 : explained (t2 ++ c :: t1) -> ok t1 c.
Proof. induction t2 as [|c' t2 IH]; [by intros []|]. intros [_ Ht]. by apply IH. Qed.

(** [t'] is [t] some requests later. *)
Definition later (t t' : list C) : Prop := exists new, t' = new ++ t.

Lemma later_refl t : later t t.
Proof. by exists []. Qed.

Lemma later_trans t1 t2 t3 : later t1 t2 -> later t2 t3 -> later t1 t3.
Proof. intros [n1 ->] [n2 ->]. exists (n2 ++ n1). by rewrite app_assoc. Qed.

Lemma later_cons c t : later t (c :: t).
Proof. by exists [c]. Qed.

(** Some earlier request was made, and answered so. *)
Definition once (made : list C -> C -> Prop) (t : list C) : Prop :=
  exists t2 c t1, t = t2 ++ c :: t1 /\ made t1 c.

Lemma once_now made c t : made t c -> once made (c :: t).
Proof. intros Hm. by exists [], c, t. Qed.

Lemma once_later made t t' : later t t' -> once made t -> once made t'.
Proof. intros [new ->] (t2 & c & t1 & -> & Hm). exists (new ++ t2), c, t1. by rewrite app_assoc. Qed.

(** The same, since the requests [t0]. *)
Definition within (t0 : list C) (made : list C -> C -> Prop) (t : list C) : Prop :=
  exists t2 c t1, t = t2 ++ c :: t1 /\ later t0 t1 /\ made t1 c.

Lemma within_now t0 made c t : later t0 t -> made t c -> within t0 made (c :: t).
Proof. intros Hl Hm. by exists [], c, t. Qed.

Lemma within_later t0 made t t' : later t t' -> within t0 made t -> within t0 made t'.
Proof. intros [new ->] (t2 & c & t1 & -> & Hm). exists (new ++ t2), c, t1. by rewrite app_assoc. Qed.

Lemma within_since t0 t0' made t : later t0 t0' -> within t0' made t -> within t0 made t.
Proof. intros Hl (t2 & c & t1 & -> & Hl' & Hm). exists t2, c, t1. split; [done|]. split; [by eapply later_trans|done]. Qed.

Definition keeps {A} (P : list C -> Prop) (m : ST W A) (Q : A -> list C -> Prop) : Prop :=
  forall w r w', explained (trace w) -> P (trace w) -> m w = (r, w') ->
    explained (trace w') /\ later (trace w) (trace w') /\
    match r with Ok a => Q a (trace w') | Err _ => True end.

Lemma keeps_conseq {A} (P P' : list C -> Prop) (m : ST W A) (Q Q' : A -> list C -> Prop) :
  (forall t, P' t -> P t) -> (forall a t, Q a t -> Q' a t) -> keeps P m Q -> keeps P' m Q'.
Proof.
  intros HP HQ Hm w r w' He Hw Hr. destruct (Hm w r w' He (HP _ Hw) Hr) as (He' & Hl & Hq).
  split_and!; [done..|]. destruct r; [by apply HQ|done].
Qed.

Lemma keeps_ret {A} (P : list C -> Prop) (a : A) (Q : A -> list C -> Prop) :
  (forall t, P t -> Q a t) -> keeps P (mret a) Q.
Proof. intros HQ w r w' He Hw [-> ->]%ret_inv. split_and!; [done|apply later_refl|by apply HQ]. Qed.

Lemma keeps_fail {A} P e (Q : A -> list C -> Prop) : keeps P (fail e) Q.
Proof. intros w r w' He Hw [= <- <-]. split_and!; [done|apply later_refl|done]. Qed.

Lemma keeps_lift {A} (P : list C -> Prop) (x : result A) (Q : A -> list C -> Prop) :
  (forall a t, x = Ok a -> P t -> Q a t) -> keeps P (lift x) Q.
Proof.
  intros HQ w r w' He Hw [= <- <-]. split_and!; [done|apply later_refl|]. destruct x; [by apply HQ|done].
Qed.

Lemma keeps_bind {A B} P (m : ST W A) (f : A -> ST W B) (Q : A -> list C -> Prop) R :
  keeps P m Q -> (forall a, keeps (Q a) (f a) R) -> keeps P (m ≫= f) R.
Proof.
  intros Hm Hf w r w' He Hw [(e & Hr & ->)|(a & w1 & Hr & Hr')]%bind_inv.
  - destruct (Hm _ _ _ He Hw Hr) as (? & ? & _). done.
  - destruct (Hm _ _ _ He Hw Hr) as (He1 & Hl1 & Hq). destruct (Hf a _ _ _ He1 Hq Hr') as (He2 & Hl2 & Hr2).
    split_and!; [done| |done]. by eapply later_trans.
Qed.

Lemma keeps_attempt {A B} P (m : ST W A) (k : result A -> ST W B) (Q : result A -> list C -> Prop) R :
  keeps P (attempt m mret) Q -> (forall x, keeps (Q x) (k x) R) -> keeps P (attempt m k) R.
Proof.
  intros Hm Hk w r w' He Hw (x & w1 & Hx & Hr)%attempt_inv.
  assert (attempt m mret w = (Ok x, w1)) as Ha by (unfold attempt; by rewrite Hx).
  destruct (Hm _ _ _ He Hw Ha) as (He1 & Hl1 & Hq). destruct (Hk x _ _ _ He1 Hq Hr) as (He2 & Hl2 & Hr2).
  split_and!; [done| |done]. by eapply later_trans.
Qed.

(** What held before and cannot be lost still holds. *)
Definition lasting (P : list C -> Prop) : Prop := forall t t', later t t' -> P t -> P t'.

Lemma keeps_frame {A} (F P : list C -> Prop) (m : ST W A) (Q : A -> list C -> Prop) :
  lasting F -> (keeps (fun t => F t /\ P t) m Q) -> keeps (fun t => F t /\ P t) m (fun a t => F t /\ Q a t).
Proof.
  intros HF Hm w r w' He Hw Hr. destruct (Hm _ _ _ He Hw Hr) as (He' & Hl & Hq).
  split_and!; [done..|]. destruct r; [|done]. split; [|done]. eapply HF; [done|]. apply Hw.
Qed.

Lemma keeps_for_each {A} P (f : A -> ST W unit) l :
  (forall x, x ∈ l -> keeps P (f x) (fun _ => P)) -> keeps P (for_each f l) (fun _ => P).
Proof.
  induction l as [|x l IH]; intros Hf; cbn [for_each]; [by apply keeps_ret|].
  apply (keeps_bind P _ _ (fun _ => P)); [apply Hf; by left|intros _]. apply IH. intros y Hy. apply Hf. by right.
Qed.

(** A computation whose requests are allowed whatever came before keeps a lasting fact. *)
Lemma keeps_calls {A} (P : list C -> Prop) (allowed : C -> Prop) (m : ST W A) :
  lasting P -> (forall c t, allowed c -> P t -> ok t c) -> calls trace allowed m -> keeps P m (fun _ => P).
Proof.
  intros HP Hok Hm w r w' He Hw Hr. destruct (Hm _ _ _ Hr) as (new & Ht & Hall).
  assert (later (trace w) (trace w')) as Hl by (by exists new).
  split_and!; [|done|destruct r; [by eapply HP|done]]. clear Hr. rewrite Ht. clear Hl Ht.
  induction new as [|c new IH]; [done|]. cbn. split.
  - apply Hok; [apply Hall; by left|]. eapply HP; [|exact Hw]. by exists new.
  - apply IH. intros c' Hc'. apply Hall. by right.
Qed.

(** The same, with what is known of the result. *)
Lemma keeps_calls_spec {A} (P : list C -> Prop) (allowed : C -> Prop) (m : ST W A) (R : A -> Prop) :
  lasting P -> (forall c t, allowed c -> P t -> ok t c) ->
  (forall w r w', m w = (r, w') -> only trace allowed w w' /\ match r with Ok a => R a | Err _ => True end) ->
  keeps P m (fun a t => P t /\ R a).
Proof.
  intros HP Hok Hm w r w' He Hw Hr.
  assert (keeps P m (fun _ => P)) as Hk by (eapply keeps_calls; [done..|]; intros w1 r1 w1' Hr1; by apply (Hm _ _ _ Hr1)).
  destruct (Hk _ _ _ He Hw Hr) as (He' & Hl & Hq). split_and!; [done..|].
  destruct (Hm _ _ _ Hr) as [_ Hres]. by destruct r.
Qed.
End histories.

Section asking.
Context {C : Type} (ok : list C -> C -> Prop).

(** One request: it is explained, and its answer is known afterwards. *)
Lemma keeps_request {A} (P : list C -> Prop) c (answer : list C -> result A) (Q : A -> list C -> Prop) :
  (forall t, P t -> ok t c) -> (forall a t, P t -> answer t = Ok a -> Q a (c :: t)) ->
  keeps w_trace ok P (request c answer) Q.
Proof.
  intros Hok HQ w r w' He Hw [Hr Ht]%request_eq. rewrite Ht. split_and!; [split; auto|apply later_cons|].
  subst r. destruct (answer (w_trace w)) eqn:Ha; [by apply HQ|done].
Qed.

Lemma keeps_outcome {A} (P : list C -> Prop) c (answer : list C -> result A) (Q : result A -> list C -> Prop) :
  (forall t, P t -> ok t c) -> (forall t, P t -> Q (answer t) (c :: t)) ->
  keeps w_trace ok P (outcome (request c answer)) Q.
Proof.
  intros Hok HQ w r w' He Hw (x & w1 & [-> Ht]%request_eq & [-> ->]%ret_inv)%attempt_inv. rewrite Ht.
  split_and!; [split; auto|apply later_cons|by apply HQ].
Qed.

Lemma keeps_on_world {S A} (P : list C -> Prop) (m : ST (world C) A) (Q : A -> list C -> Prop) :
  keeps w_trace ok P m Q -> keeps (fun w : world C * S => w_trace w.1) ok P (on_world m) Q.
Proof. intros Hm w r w' He Hw (w1 & Hr & ->)%on_world_inv. exact (Hm _ _ _ He Hw Hr). Qed.

Lemma keeps_read_clock (P : list C -> Prop) clock (Q : Z -> list C -> Prop) :
  (forall n t, P t -> Q n t) -> keeps w_trace ok P (read_clock clock) Q.
Proof. intros HQ w r w' He Hw [= <- <-]. split_and!; [done|apply later_refl|by apply HQ]. Qed.
End asking.
