(* ===== verification/GroupReconcilePass.v ===== *)
(** A whole reconcile of a RoleBasedGroup (GroupReconcile.v), whatever the server, the
    workload reconcilers and the gang scheduler answer: what each of its writes needs
    to have seen before.  A role waits for its dependencies, for the gang and for the
    discovery configuration; adapters and revisions are deleted only when they are the
    group's and superfluous. *)
From Stdlib Require Import ZArith Lia Bool Ascii String.
From stdpp Require Import base tactics list strings gmap sets.
From S2P Require Import Prelude GoStrings IntOrString Types Conditions GroupTypes Effects Revisions Owners Requests Histories.
From S2P Require Import Gang Float64 Coordination Dependency ScalingAdapter Admission GroupRevisions PolicyMigration GroupWorld GroupReconcile.

Section pass.
Context `{SortSlice} `{GroupCodec} `{CoordinationCodec} {ENV : GroupEnv}.

(** [g'] is [g] but for the replicas of its roles and its status. *)
Definition same_object (g' g : RoleBasedGroup) : Prop :=
  rbg_meta g' = rbg_meta g /\ map (with_Replicas None) (rbg_Roles g') = map (with_Replicas None) (rbg_Roles g)
  /\ rbg_RoleTemplates g' = rbg_RoleTemplates g.

(** The server answered with the group. *)
Definition answered_group (g : RoleBasedGroup) (t : list group_call) (c : group_call) : Prop :=
  exists g', same_object g' g /\
    match c with
    | CallGetGroup ns name => ge_get_group t ns name = Ok g'
    | CallPatchMode ns name mode => ge_patch_mode t ns name mode = Ok g'
    | _ => False
    end.

Abbreviation known g := (once (answered_group g)).

(** The workload of the dependency was reported ready. *)
Definition reported_ready (g : RoleBasedGroup) (dep : string) (t : list group_call) (c : group_call) : Prop :=
  exists w depRole, c = CallWorkloadReady w g depRole /\ GetRole dep g = Ok depRole
    /\ NewWorkloadReconciler (GetWorkloadSpec depRole) = Ok w /\ ge_workload_ready t w g depRole = Ok true.

(** The gang was resolved, and its PodGroup is as it should be. *)
Definition gang_resolved (g : RoleBasedGroup) (strategy : option GangStrategy) (t : list group_call) (c : group_call) : Prop :=
  c = CallGetPolicy (g_ns g) (rbg_Name g) /\
  getGangStrategy (policy_read (ge_get_policy t (g_ns g) (rbg_Name g))) g = Ok strategy.

Definition pod_group_made (g : RoleBasedGroup) (strategy : option GangStrategy) (t : list group_call) (c : group_call) : Prop :=
  exists g', same_object g' g /\ c = CallReconcilePodGroup g' strategy /\ ge_pod_group t g' strategy = None.

Definition gang_cleared (g : RoleBasedGroup) (t : list group_call) : Prop :=
  exists strategy, once (gang_resolved g strategy) t /\
    (ge_gangScheduler = true -> once (pod_group_made g strategy) t).

(** The discovery configuration of the group was applied. *)
Definition config_applied (g : RoleBasedGroup) (t : list group_call) (c : group_call) : Prop :=
  exists m, c = CallApplyConfigMap m /\ cma_Name m = rbg_Name g /\ cma_Namespace m = g_ns g /\ ge_apply_config_map t m = Ok tt.

Definition config_published (g : RoleBasedGroup) (t : list group_call) : Prop :=
  GetDiscoveryConfigMode g = RefineDiscoveryConfigMode -> HasStatefulRole g = true -> once (config_applied g) t.

(** Revisions of the group, as the server listed them. *)
Definition listed_revisions (g : RoleBasedGroup) (l : list ControllerRevision) (t : list group_call) (c : group_call) : Prop :=
  c = CallListRevisions (g_ns g) (rbg_Name g) /\
  exists history, ge_list_revisions t (g_ns g) (rbg_Name g) = Ok history /\ l = owned_revisions g history.

Definition read_adapter (g : RoleBasedGroup) (role : RoleSpec) (a : ScalingAdapter) (t : list group_call) (c : group_call) : Prop :=
  let name := GenerateScalingAdapterName (rbg_Name g) (role_Name role) in
  c = CallGetAdapter (g_ns g) name /\ ge_get_adapter t (g_ns g) name = Ok a.

Definition listed_adapter (g : RoleBasedGroup) (a : ScalingAdapter) (t : list group_call) (c : group_call) : Prop :=
  c = CallListAdapters (g_ns g) (rbg_Name g) /\
  exists items, ge_list_adapters t (g_ns g) (rbg_Name g) = Ok items /\ a ∈ items.

(** The adapter was read under the name of a role of the group. *)
Definition read_of_role (g : RoleBasedGroup) (role : RoleSpec) (a : ScalingAdapter) (t : list group_call) : Prop :=
  role ∈ rbg_Roles g /\ once (read_adapter g role a) t.

(** Why a role is given to its workload reconciler. *)
Definition role_explained (t : list group_call) (g : RoleBasedGroup) (role : RoleSpec) : Prop :=
  known g t /\ (forall dep, dep ∈ role_Dependencies role -> once (reported_ready g dep) t) /\
  gang_cleared g t /\ config_published g t.

Definition adapter_explained (t : list group_call) (c : group_call) : Prop :=
  exists g, known g t /\
  match c with
  | CallCreateAdapter a => exists role, role ∈ rbg_Roles g /\ IsScalingAdapterEnable (Some role) = true /\ a = new_adapter g role
  | CallUpdateAdapter a' => exists role a, a' = relabelled (buildScalingAdapterLabels role (rbg_Name g) (role_Name role)) a /\
      read_of_role g role a t /\ ContainsRBGOwner a g = true /\ IsScalingAdapterEnable (Some role) = true
  | CallDeleteAdapter a (Some uid) => exists role, read_of_role g role a t /\ ContainsRBGOwner a g = false /\
      uid = om_UID (adp_meta a) /\ IsScalingAdapterEnable (Some role) = true
  | CallDeleteAdapter a None =>
      (exists role, read_of_role g role a t /\ IsScalingAdapterEnable (Some role) = false) \/
      (once (listed_adapter g a) t /\ orphaned_adapter g a = true)
  | _ => True
  end.

Definition revision_explained (t : list group_call) (c : group_call) : Prop :=
  exists g l, known g t /\ once (listed_revisions g l) t /\
  match c with
  | CallCreateRevision r => NewRevision g (GetHighestRevision l) = Ok r /\ EqualRevision (GetHighestRevision l) (Some r) = false
  | CallDeleteRevision r => r ∈ expired_revisions l
  | _ => True
  end.

Definition mode_explained (t : list group_call) (mode : string) : Prop :=
  exists g, known g t /\ GetDiscoveryConfigMode g ∉ [LegacyDiscoveryConfigMode; RefineDiscoveryConfigMode] /\
    mode ∈ [LegacyDiscoveryConfigMode; RefineDiscoveryConfigMode] /\
    (mode = RefineDiscoveryConfigMode -> rbg_ObservedGeneration g <= 0 /\ rbg_RoleStatuses g = []).

Definition pass_ok (t : list group_call) (c : group_call) : Prop :=
  match c with
  | CallReconcileRole _ g role _ _ => role_explained t g role
  | CallCreateAdapter _ | CallUpdateAdapter _ | CallDeleteAdapter _ _ => adapter_explained t c
  | CallCreateRevision _ | CallDeleteRevision _ => revision_explained t c
  | CallPatchMode _ _ mode => mode_explained t mode
  | CallCleanupWorkloads _ g => known g t
  | _ => True
  end.

(** Calls that need no explanation. *)
Definition free_call (c : group_call) : Prop :=
  match c with
  | CallReconcileRole _ _ _ _ _ | CallCreateAdapter _ | CallUpdateAdapter _ | CallDeleteAdapter _ _
  | CallCreateRevision _ | CallDeleteRevision _ | CallPatchMode _ _ _ | CallCleanupWorkloads _ _ => False
  | _ => True
  end.

Lemma free_ok c t : free_call c -> pass_ok t c.
Proof. by destruct c. Qed.

(** * Facts that last *)

Lemma lasting_once made : lasting (once (C := group_call) made).
Proof. intros t t' Hl. by apply once_later. Qed.

Lemma lasting_and (P Q : list group_call -> Prop) : lasting P -> lasting Q -> lasting (fun t => P t /\ Q t).
Proof. intros HP HQ t t' Hl [Hp Hq]. split; [by eapply HP|by eapply HQ]. Qed.

Lemma lasting_gang g : lasting (gang_cleared g).
Proof.
  intros t t' Hl (s & Hs & Hp). exists s. split; [by eapply once_later|]. intros Hg. eapply once_later; [done|auto].
Qed.

Lemma lasting_config g : lasting (config_published g).
Proof. intros t t' Hl Hc Hm Hs. eapply once_later; [done|auto]. Qed.

Lemma lasting_deps g (deps : list string) : lasting (fun t => forall dep, dep ∈ deps -> once (reported_ready g dep) t).
Proof. intros t t' Hl Hd dep Hin. eapply once_later; [done|auto]. Qed.

Lemma lasting_True : lasting (fun _ : list group_call => True).
Proof. done. Qed.

Create HintDb lasting discriminated.
#[local] Hint Resolve lasting_once lasting_and lasting_gang lasting_config lasting_deps lasting_True : lasting.

(** A step of free calls keeps what lasts. *)
Lemma keeps_free {A} (P : list group_call -> Prop) (m : M A) :
  lasting P -> calls w_trace free_call m -> keeps w_trace pass_ok P m (fun _ => P).
Proof. intros HP Hm. eapply keeps_calls; [done| |done]. intros. by apply free_ok. Qed.

(** * Step by step *)

Lemma calls_free {A} c (answer : list group_call -> result A) : free_call c -> calls w_trace free_call (request c answer).
Proof. apply calls_ask. Qed.
#[local] Hint Extern 1 (calls _ _ (request _ _)) => (apply calls_free; exact I) : calls.
#[local] Hint Extern 2 (calls _ _ _) =>
  (progress unfold GetGroup, ApplyGroupStatus, GetAdapter, ListAdapters, ListAllRevisions, GetConfigMap, ApplyConfigMap,
     ApplyPolicy, GetPolicy, SchedulerPodGroup, ValidateRole, RoleStatusOf, WorkloadReady; apply calls_free; exact I) : calls.

Lemma same_object_refl g : same_object g g.
Proof. done. Qed.

Lemma same_object_trans g1 g2 g3 : same_object g1 g2 -> same_object g2 g3 -> same_object g1 g3.
Proof. intros (? & ? & ?) (? & ? & ?). split_and!; congruence. Qed.

Lemma known_same g g' t : same_object g g' -> known g t -> known g' t.
Proof.
  intros Hs (t2 & c & t1 & -> & g0 & Hg0 & Hc). exists t2, c, t1. split; [done|]. exists g0.
  split; [by eapply same_object_trans|done].
Qed.

(** ** The replicas of bound adapters *)

Lemma override_roles_spec g roles w r w' :
  override_roles g roles w = (r, w') ->
  only w_trace free_call w w' /\
  match r with Ok roles' => map (with_Replicas None) roles' = map (with_Replicas None) roles | Err _ => True end.
Proof.
  revert w r w'. induction roles as [|role roles IH]; intros w r w'; cbn [override_roles].
  { intros [-> ->]%ret_inv. split; [apply only_refl|done]. }
  intros Hr. apply bind_inv in Hr as [(e & Hx & ->)|(role' & w1 & Hx & Hr)].
  - split; [|done]. assert (calls w_trace free_call (adapter_override g role)) as Hc; [|by eapply Hc].
    unfold adapter_override. calling.
  - assert (only w_trace free_call w w1 /\ with_Replicas None role' = with_Replicas None role) as [Ho Hrole].
    { split.
      - assert (calls w_trace free_call (adapter_override g role)) as Hc; [|by eapply Hc]. unfold adapter_override. calling.
      - revert Hx. unfold adapter_override. destruct (negb _); [by intros [[= ->] _]%ret_inv|].
        intros (x & w2 & _ & Hx)%bind_ok_inv. destruct x as [a|e].
        + destruct (negb _); [by apply ret_inv in Hx as [[= ->] _]|].
          case_bool_decide; [by apply ret_inv in Hx as [[= ->] _]|].
          apply ret_inv in Hx as [[= ->] _]. by destruct (adp_Replicas a).
        + destruct (IsNotFound e); [by apply ret_inv in Hx as [[= ->] _]|done]. }
    apply bind_inv in Hr as [(e & Hy & ->)|(roles' & w2 & Hy & [-> ->]%ret_inv)].
    + split; [|done]. eapply only_trans; [done|]. by apply IH in Hy as [? _].
    + apply IH in Hy as [Ho' Hroles]. split; [by eapply only_trans|]. cbn [map]. by rewrite Hrole, Hroles.
Qed.

Lemma keeps_free_spec {A} (P : list group_call -> Prop) (m : M A) (R : A -> Prop) :
  lasting P -> (forall w r w', m w = (r, w') -> only w_trace free_call w w' /\ match r with Ok a => R a | Err _ => True end) ->
  keeps w_trace pass_ok P m (fun a t => P t /\ R a).
Proof. intros HP Hm. eapply keeps_calls_spec; [done| |done]. intros. by apply free_ok. Qed.

Lemma applyRBGSAReplicasOverride_spec g w r w' :
  applyRBGSAReplicasOverride g w = (r, w') ->
  only w_trace free_call w w' /\ match r with Ok g' => same_object g g' | Err _ => True end.
Proof.
  intros [(e & (Ho & _)%override_roles_spec & ->)|(roles & w1 & [Ho Hr]%override_roles_spec & [-> ->]%ret_inv)]%bind_inv;
    (split; [done|]); done.
Qed.

(** ** Reading the group *)

Definition known_if (r : option RoleBasedGroup) (t : list group_call) : Prop :=
  match r with Some g => known g t | None => True end.

Lemma keeps_preCheck g : keeps w_trace pass_ok (known g) (preCheck g) (fun _ => known g).
Proof.
  apply keeps_free; [auto with lasting|]. unfold preCheck. destruct (_ && _); [apply calls_fail|].
  destruct (ValidateRoleTemplates g); [apply calls_fail|]. destruct (ValidateRoleTemplateReferences g); [apply calls_fail|].
  apply calls_bind; [|calling]. apply calls_collect. intros role _. unfold check_role. calling.
Qed.

Lemma keeps_read_group ns name : keeps w_trace pass_ok (fun _ => True) (read_group ns name) known_if.
Proof.
  unfold read_group. eapply (keeps_bind _ _ _ _ _ (fun r t => match r with Ok g => known g t | Err _ => True end)).
  { apply keeps_outcome; [done|]. intros t _. destruct (ge_get_group t ns name) as [g|] eqn:Hg; [|done].
    apply once_now. by exists g. }
  intros [g|e]; [|destruct (IsNotFound e); [by apply keeps_ret|apply keeps_fail]].
  case_bool_decide; [by apply keeps_ret|].
  eapply keeps_bind; [eapply keeps_free_spec, applyRBGSAReplicasOverride_spec; auto with lasting|intros g'].
  apply (keeps_conseq w_trace pass_ok (known g') _ _ known_if known_if); [by intros t [Hk Hs]; eapply known_same|done|].
  eapply keeps_bind; [apply keeps_preCheck|]. cbv beta. intros ?. by apply keeps_ret.
Qed.

(** ** The revision *)

Lemma keeps_ListRevisions g (P : list group_call -> Prop) : lasting P ->
  keeps w_trace pass_ok P (ListRevisions g) (fun l t => P t /\ once (listed_revisions g l) t).
Proof.
  intros HP. unfold ListRevisions.
  eapply (keeps_bind _ _ _ _ _ (fun h t => P t /\ once (listed_revisions g (owned_revisions g h)) t)).
  { apply keeps_request; [done|]. intros h t Ht Ha. split; [eapply HP; [apply later_cons|done]|].
    apply once_now. split; [done|]. by exists h. }
  intros h. by apply keeps_ret.
Qed.

Lemma keeps_match {P : list group_call -> Prop} g proposed existing :
  lasting P -> keeps (fun w : world group_call * _ => w_trace w.1) pass_ok P (SetMatchesRevision g proposed existing) (fun _ => P).
Proof.
  intros HP. eapply keeps_calls; [done|intros c t Hc _; exact (free_ok c t Hc)|].
  unfold SetMatchesRevision. destruct existing; [|apply calls_ret].
  apply calls_bind; [apply calls_gets|intros cache]. destruct (lru_get _ cache).
  - apply calls_bind; [by apply calls_modify|intros; apply calls_ret].
  - destruct (semantic_match _ _ _) as [[]|]; [|apply calls_ret|apply calls_fail].
    apply calls_bind; [by apply calls_modify|intros; apply calls_ret].
Qed.

Lemma keeps_handleRevisions g :
  keeps (fun w : world group_call * _ => w_trace w.1) pass_ok (known g) (handleRevisions g) (fun _ => known g).
Proof.
  unfold handleRevisions.
  eapply (keeps_bind _ _ _ _ _ (fun cur t => known g t /\ exists l, once (listed_revisions g l) t /\ cur = GetHighestRevision l)).
  { apply keeps_on_world. unfold getCurrentRevision. eapply keeps_bind; [apply keeps_ListRevisions; auto with lasting|].
    intros l. apply keeps_ret. intros t [Hk Hl]. eauto. }
  intros cur.
  eapply (keeps_bind _ _ _ _ _ (fun new t => (known g t /\ exists l, once (listed_revisions g l) t /\ cur = GetHighestRevision l)
            /\ NewRevision g cur = Ok new)); [by apply keeps_lift|].
  intros new. apply (keeps_bind _ _ _ _ _ (fun _ => known g)).
  2: { intros expected. by apply keeps_lift. }
  destruct (EqualRevision cur (Some new)) eqn:Heq; [apply keeps_ret; tauto|].
  eapply keeps_bind.
  { apply keeps_match. intros t t' Hl ((Hk & l & Hls & Hc) & Hn). split; [split|]; [by eapply once_later| |done].
    exists l. split; [by eapply once_later|done]. }
  intros []; [apply keeps_ret; tauto|]. apply keeps_on_world. apply keeps_request.
  - intros t ((Hk & l & Hls & ->) & Hn). exists g, l. done.
  - intros a t ((Hk & _) & _) _. eapply once_later; [apply later_cons|done].
Qed.

(** ** The discovery configuration *)

Lemma some_config_map_spec g roles w r w' : some_config_map g roles w = (r, w') -> only w_trace free_call w w'.
Proof.
  intros Hr. assert (calls w_trace free_call (some_config_map g roles)) as Hc; [|by eapply Hc].
  clear Hr. induction roles as [|role roles IH]; cbn [some_config_map]; [apply calls_ret|].
  apply calls_bind; [calling|]. intros [u|e]; [apply calls_ret|]. destruct (IsNotFound e); [done|apply calls_fail].
Qed.

(** Only a group that shows no trace of an earlier pass is new. *)
Lemma keeps_legacy g (P : list group_call -> Prop) : lasting P ->
  keeps w_trace pass_ok P (shouldUseLegacyDiscoveryConfig g)
    (fun legacy t => P t /\ (legacy = false -> rbg_ObservedGeneration g <= 0 /\ rbg_RoleStatuses g = [])).
Proof.
  intros HP. apply keeps_free_spec; [done|]. intros w r w'. unfold shouldUseLegacyDiscoveryConfig.
  destruct (0 <? rbg_ObservedGeneration g) eqn:Hgen; [intros [-> ->]%ret_inv; by split; [apply only_refl|]|].
  cbn [orb]. case_bool_decide as Hst; [intros [-> ->]%ret_inv; by split; [apply only_refl|]|].
  intros Hr. split; [by eapply some_config_map_spec|]. destruct r; [|done]. intros _. split; [lia|]. destruct (rbg_RoleStatuses g); [done|by destruct Hst].
Qed.

Lemma keeps_mode g : keeps w_trace pass_ok (known g) (ensureDiscoveryConfigMode g) (fun g' => known g').
Proof.
  unfold ensureDiscoveryConfigMode. destruct (_ || _) eqn:Hset; [by apply keeps_ret|].
  eapply keeps_bind; [apply keeps_legacy; auto with lasting|]. intros legacy. cbv beta.
  apply keeps_request.
  - intros t [Hk Hl]. exists g. split; [done|]. breflect. split_and!.
    + rewrite !not_elem_of_cons. split_and!; [done..|by intros ?%elem_of_nil].
    + destruct legacy; [by left|by right; left].
    + destruct legacy; [done|auto].
  - intros g' t _ Ha. apply once_now. exists g'. by split; [apply same_object_refl|].
Qed.

Definition published g t := known g t /\ config_published g t.

Lemma lasting_published g : lasting (published g).
Proof. apply lasting_and; auto with lasting. Qed.
#[local] Hint Resolve lasting_published : lasting.

Lemma keeps_config_map g :
  keeps w_trace pass_ok (known g) (reconcileRefinedDiscoveryConfigMap g) (fun _ => published g).
Proof.
  unfold reconcileRefinedDiscoveryConfigMap. case_bool_decide as Hm; [apply keeps_ret; intros t Hk; split; [done|by intros ?]|].
  destruct (HasStatefulRole g) eqn:Hs; cbn [negb]; [|apply keeps_ret; intros t Hk; split; [done|]; intros ? ?; congruence].
  apply (keeps_bind _ _ _ _ _ (fun _ => known g)).
  { intros w r w' He Hw [= <- <-]. split_and!; [done|apply later_refl|by destruct (ge_build_config _ _)]. }
  intros data. apply keeps_request; [done|]. intros [] t Hk Ha. split; [eapply once_later; [apply later_cons|done]|].
  intros _ _. apply once_now. eexists. done.
Qed.

(** ** The status *)

Definition restatus (g g' : RoleBasedGroup) : Prop := exists generation conditions statuses, g' = rbg_with_status generation conditions statuses g.

Lemma published_restatus g g' t : published g t -> restatus g g' -> published g' t.
Proof. intros [Hk Hc] (n & conds & sts & ->). split; [by eapply known_same|exact Hc]. Qed.

Lemma role_statuses_free g roles : calls w_trace free_call (role_statuses g roles).
Proof.
  induction roles as [|role roles IH]; cbn [role_statuses]; [apply calls_ret|].
  apply calls_bind; [apply calls_lift|intros k]. apply calls_bind; [calling|]. intros [rs [e|]].
  - destruct (IsNotFound e); [|apply calls_fail]. apply calls_bind; [done|intros; apply calls_ret].
  - apply calls_bind; [done|intros; apply calls_ret].
Qed.

Lemma updateRBGStatus_spec g sts w r w' :
  updateRBGStatus g sts w = (r, w') ->
  only w_trace free_call w w' /\ match r with Ok g' => restatus g g' | Err _ => True end.
Proof.
  intros Hr. split.
  - assert (calls w_trace free_call (updateRBGStatus g sts)) as Hc; [|by eapply Hc]. unfold updateRBGStatus. calling.
  - destruct r as [g'|]; [|done]. apply bind_ok_inv in Hr as (now & w1 & _ & Hr). cbv zeta in Hr.
    destruct (same_status _ _); [apply ret_inv in Hr as [[= ->] _]; by eexists _, _, _|].
    apply bind_ok_inv in Hr as (u & w2 & _ & [[= ->] _]%ret_inv). by eexists _, _, _.
Qed.

Lemma keeps_statuses g :
  keeps w_trace pass_ok (published g) (constructAndUpdateRoleStatuses g) (fun r => published r.2).
Proof.
  eapply (keeps_bind _ _ _ _ _ (fun _ => published g)); [apply keeps_free; [auto with lasting|apply role_statuses_free]|].
  intros sts. eapply keeps_bind; [eapply keeps_free_spec, updateRBGStatus_spec; auto with lasting|].
  intros g'. apply keeps_ret. intros t [Hp Hs]. by eapply published_restatus.
Qed.

(** ** The gang *)

Lemma keeps_policy g : keeps w_trace pass_ok (published g) (EnsureV1alpha1CoordinatedPolicy g) (fun _ => published g).
Proof. apply keeps_free; [auto with lasting|]. unfold EnsureV1alpha1CoordinatedPolicy. calling. Qed.

Lemma keeps_coordinate g sts : keeps w_trace pass_ok (published g) (coordinate g sts) (fun _ => published g).
Proof. apply keeps_free; [auto with lasting|]. unfold coordinate. calling. Qed.

Definition resolved (g : RoleBasedGroup) (r : option GangStrategy * option gang_error) (t : list group_call) : Prop :=
  r.2 = None -> once (gang_resolved g r.1) t.

Lemma keeps_resolve g :
  keeps w_trace pass_ok (published g) (ResolveGangStrategy g) (fun r t => published g t /\ resolved g r t).
Proof.
  eapply (keeps_bind _ _ _ _ _ (fun r t => published g t /\ forall s, getGangStrategy (policy_read r) g = Ok s -> once (gang_resolved g s) t)).
  { apply keeps_outcome; [done|]. intros t Hp. split; [eapply lasting_published; [apply later_cons|done]|].
    intros s Hs. by apply once_now. }
  intros r. apply keeps_ret. intros t [Hp Hs]. split; [done|]. unfold resolved.
  destruct (getGangStrategy _ _) as [s|e]; [|done]. intros _. by apply Hs.
Qed.

Lemma keeps_pod_group g r :
  keeps w_trace pass_ok (fun t => published g t /\ resolved g r t) (first_error r.2 (reconcilePodGroup g r.1))
    (fun e t => published g t /\ (e = None -> gang_cleared g t)).
Proof.
  unfold first_error. destruct r as [s [e|]]; cbn [fst snd]; [by apply keeps_ret; intros t []|].
  unfold reconcilePodGroup. destruct ge_gangScheduler eqn:Hg; cbn [negb].
  - apply keeps_request; [done|]. intros e t [Hp Hr] [= He]. split; [eapply lasting_published; [apply later_cons|done]|].
    intros ->. exists s. split; [eapply once_later; [apply later_cons|by apply Hr]|].
    intros _. apply once_now. exists g. by split; [apply same_object_refl|].
  - apply keeps_ret. intros t [Hp Hr]. split; [done|]. intros _. exists s. split; [by apply Hr|]. congruence.
Qed.

Lemma setGang_spec g s cause w r w' :
  setGangConfiguredCondition g s cause w = (r, w') ->
  only w_trace free_call w w' /\ match r with Ok g' => restatus g g' | Err _ => True end.
Proof.
  intros Hr. split.
  - assert (calls w_trace free_call (setGangConfiguredCondition g s cause)) as Hc; [|by eapply Hc].
    unfold setGangConfiguredCondition, gang_conditions. calling.
  - destruct r as [g'|]; [|done]. apply bind_ok_inv in Hr as ([conds changed] & w1 & _ & Hr).
    destruct (negb changed); [apply ret_inv in Hr as [[= ->] _]; by eexists _, _, _|].
    apply bind_ok_inv in Hr as (u & w2 & _ & [[= ->] _]%ret_inv). by eexists _, _, _.
Qed.

(** A group ready for its roles. *)
Definition cleared g t := published g t /\ gang_cleared g t.

Lemma lasting_cleared g : lasting (cleared g).
Proof. apply lasting_and; auto with lasting. Qed.
#[local] Hint Resolve lasting_cleared : lasting.

Lemma cleared_restatus g g' t : cleared g t -> restatus g g' -> cleared g' t.
Proof.
  intros [Hp Hg] Hs. split; [by eapply published_restatus|]. destruct Hs as (n & conds & sts & ->). exact Hg.
Qed.

(** ** The roles *)

Lemma keeps_dependencies g (P : list group_call -> Prop) deps : lasting P ->
  keeps w_trace pass_ok P (dependencies_ready g deps)
    (fun b t => P t /\ (b = true -> forall dep, dep ∈ deps -> once (reported_ready g dep) t)).
Proof.
  intros HP. induction deps as [|dep deps IH]; cbn [dependencies_ready].
  { apply keeps_ret. intros t Ht. split; [done|]. by intros _ dep ?%elem_of_nil. }
  eapply (keeps_bind _ _ _ _ _ (fun r t => P t /\ GetRole dep g = Ok r)); [by apply keeps_lift|]. intros depRole.
  eapply (keeps_bind _ _ _ _ _ (fun k t => (P t /\ GetRole dep g = Ok depRole) /\ NewWorkloadReconciler (GetWorkloadSpec depRole) = Ok k));
    [by apply keeps_lift|]. intros k.
  eapply (keeps_bind _ _ _ _ _ (fun b t => P t /\ (b = true -> once (reported_ready g dep) t))).
  { apply keeps_request; [done|]. intros b t [[Ht Hd] Hk] Ha. split; [eapply HP; [apply later_cons|done]|].
    intros ->. apply once_now. by exists k, depRole. }
  intros []; cbn [negb]; [|by apply keeps_ret; intros t [Ht _]].
  eapply keeps_conseq; [| |apply (keeps_frame _ _ (once (reported_ready g dep)) P _ (fun b t => P t /\ (b = true -> forall d, d ∈ deps -> once (reported_ready g d) t))); [apply lasting_once|]].
  - intros t [Ht Hd]. split; [by apply Hd|exact Ht].
  - intros b t [Hd [Ht Hrest]]. split; [exact Ht|]. intros Hb x [->|Hx]%elem_of_cons; [done|by apply Hrest].
  - eapply keeps_conseq; [| |apply IH]; [by intros t [_ Ht]|by intros b t Hq].
Qed.

Lemma keeps_create g role : role ∈ rbg_Roles g -> IsScalingAdapterEnable (Some role) = true ->
  keeps w_trace pass_ok (cleared g) (CreateAdapter (new_adapter g role)) (fun _ => cleared g).
Proof.
  intros Hin He. apply keeps_request; [|intros a t Ht _; by eapply lasting_cleared; [apply later_cons|]].
  intros t [[Hk _] _]. exists g. split; [done|]. by exists role.
Qed.

Lemma keeps_adapter g role : role ∈ rbg_Roles g ->
  keeps w_trace pass_ok (cleared g) (ReconcileScalingAdapter g role) (fun _ => cleared g).
Proof.
  intros Hin. unfold ReconcileScalingAdapter. cbv zeta.
  assert (keeps w_trace pass_ok (cleared g) (if negb (IsScalingAdapterEnable (Some role)) then mret tt else CreateAdapter (new_adapter g role))
            (fun _ => cleared g)) as Hcreate.
  { destruct (IsScalingAdapterEnable (Some role)) eqn:He; cbn [negb]; [by apply keeps_create|by apply keeps_ret]. }
  eapply (keeps_bind _ _ _ _ _ (fun r t => cleared g t /\ forall a, r = Ok a -> once (read_adapter g role a) t)).
  { apply keeps_outcome; [done|]. intros t Ht. split; [by eapply lasting_cleared; [apply later_cons|]|].
    intros a Ha. by apply once_now. }
  assert (forall a (answer : list group_call -> result unit) c,
    (forall t, known g t -> read_of_role g role a t -> pass_ok t c) ->
    keeps w_trace pass_ok (fun t => cleared g t /\ forall a', Ok a = Ok a' -> once (read_adapter g role a') t) (request c answer)
      (fun _ => cleared g)) as Hwrite.
  { intros a answer c Hok. apply keeps_request.
    - intros t [[[Hk _] _] Ha]. apply Hok; [done|]. split; [done|by apply Ha].
    - intros u t [Ht _] _. by eapply lasting_cleared; [apply later_cons|]. }
  intros [a|e].
  2: { destruct (IsNotFound e); [|apply keeps_fail]. eapply keeps_conseq; [| |exact Hcreate]; [by intros t []|done]. }
  destruct (IsScalingAdapterEnable (Some role)) eqn:He; cbn [negb].
  2: { apply Hwrite. intros t Hk Ha. exists g. split; [done|]. left. by exists role. }
  destruct (IsScalingAdapterManagedByRBG a (Some g)) eqn:Hm; cbn in Hm.
  - case_bool_decide; [by apply keeps_ret; intros t []|]. apply Hwrite. intros t Hk Ha. exists g. split; [done|]. by exists role, a.
  - eapply (keeps_bind _ _ _ _ _ (fun _ => cleared g)).
    { apply keeps_outcome; [|intros t [Ht _]; by eapply lasting_cleared; [apply later_cons|]].
      intros t [[[Hk _] _] Ha]. exists g. split; [done|]. exists role. by split_and!; [split; [done|apply Ha]|..]. }
    intros [u|e]; [exact Hcreate|]. destruct (IsNotFound e); [exact Hcreate|apply keeps_fail].
Qed.

Section roles.
Context (g : RoleBasedGroup) (hashes : gmap string string) (targets : gmap string Z) (rollouts : gmap string RollingUpdate).

Lemma keeps_single role : role ∈ rbg_Roles g ->
  keeps w_trace pass_ok (fun t => cleared g t /\ forall dep, dep ∈ role_Dependencies role -> once (reported_ready g dep) t)
    (reconcileSingleRole g hashes targets rollouts role) (fun _ => cleared g).
Proof.
  intros Hin. unfold reconcileSingleRole.
  eapply (keeps_bind _ _ _ _ _ (fun _ t => cleared g t /\ forall dep, dep ∈ role_Dependencies role -> once (reported_ready g dep) t));
    [by apply keeps_lift|]. intros k.
  apply (keeps_bind _ _ _ _ _ (fun _ => cleared g)); [|intros _; by apply keeps_adapter].
  apply keeps_request; [|intros u t [Ht _] _; by eapply lasting_cleared; [apply later_cons|]].
  intros t [[[Hk Hc] Hg] Hd]. split_and!; [done| |done..]. intros dep. unfold role_to_reconcile.
  destruct (targets !! role_Name role); apply Hd.
Qed.

Lemma keeps_outcome_of {A} (P Q : list group_call -> Prop) (m : M A) :
  (forall w r w', P (w_trace w) -> explained pass_ok (w_trace w) -> m w = (r, w') -> Q (w_trace w')) ->
  keeps w_trace pass_ok P m (fun _ => Q) -> keeps w_trace pass_ok P (outcome m) (fun _ => Q).
Proof.
  intros HQ Hm w r w' He Hw (x & w1 & Hx & [-> ->]%ret_inv)%attempt_inv.
  destruct (Hm _ _ _ He Hw Hx) as (He' & Hl & _). split_and!; [done..|by eapply HQ].
Qed.

Lemma keeps_level level : (forall role, role ∈ level -> role ∈ rbg_Roles g) ->
  keeps w_trace pass_ok (cleared g) (reconcile_level g hashes targets rollouts level) (fun _ => cleared g).
Proof.
  induction level as [|role level IH]; intros Hin; cbn [reconcile_level]; [by apply keeps_ret|].
  eapply keeps_bind; [apply keeps_dependencies; auto with lasting|]. intros []; cbn [negb]; [|apply keeps_fail].
  apply (keeps_bind _ _ _ _ _ (fun _ => cleared g)).
  { eapply keeps_conseq; [| |apply keeps_outcome_of; [|apply (keeps_single role); apply Hin; by left]].
    - intros t [Ht Hd]. split; [done|by apply Hd].
    - done.
    - intros w r w' Hw He Hr. destruct (keeps_single role ltac:(apply Hin; by left) _ _ _ He Hw Hr) as (_ & Hl & _).
      eapply lasting_cleared; [done|]. apply Hw. }
  intros r. apply (keeps_bind _ _ _ _ _ (fun _ => cleared g)); [apply IH; intros x Hx; apply Hin; by right|].
  intros errs. by apply keeps_ret.
Qed.

Lemma SortRoles_members levels level role :
  SortRoles g = Some (Ok levels) -> level ∈ levels -> role ∈ level -> role ∈ rbg_Roles g.
Proof.
  unfold SortRoles. intros Hs Hl Hr. destruct (rbg_Roles g) as [|r0 rs] eqn:Hroles.
  { injection Hs as <-. by apply elem_of_nil in Hl. }
  destruct (roleDependency _ _ _) as [deps|]; [|done]. destruct (dependencyOrder deps) as [[order|]|]; [|done..].
  injection Hs as <-. apply list_elem_of_fmap in Hl as (names & -> & _).
  apply list_elem_of_omap in Hr as (n & _ & Hf). by apply List.find_some in Hf as [Hf%list_elem_of_In _].
Qed.

Lemma keeps_roles : keeps w_trace pass_ok (cleared g) (reconcileRoles g hashes targets rollouts) (fun _ => cleared g).
Proof.
  unfold reconcileRoles. destruct (SortRoles g) as [[levels|e]|] eqn:Hs; [|apply keeps_fail..].
  apply keeps_for_each. intros level Hlevel. unfold reconcile_one_level.
  apply (keeps_bind _ _ _ _ _ (fun _ => cleared g)); [apply keeps_level; intros role; by eapply SortRoles_members|]. intros errs.
  destruct (join_errors errs); [apply keeps_fail|by apply keeps_ret].
Qed.
End roles.

(** ** Cleanup *)

Lemma keeps_collect {A} (P : list group_call -> Prop) (f : A -> M (option error)) l :
  (forall x, x ∈ l -> keeps w_trace pass_ok P (f x) (fun _ => P)) -> keeps w_trace pass_ok P (collect f l) (fun _ => P).
Proof.
  induction l as [|x l IH]; intros Hf; cbn [collect]; [by apply keeps_ret|].
  apply (keeps_bind _ _ _ _ _ (fun _ => P)); [apply Hf; by left|intros e].
  apply (keeps_bind _ _ _ _ _ (fun _ => P)); [apply IH; intros y Hy; apply Hf; by right|intros errs; by apply keeps_ret].
Qed.

Lemma keeps_error_of {A} (P : list group_call -> Prop) (m : M A) :
  lasting P -> keeps w_trace pass_ok P m (fun _ => P) -> keeps w_trace pass_ok P (error_of m) (fun _ => P).
Proof.
  intros HP Hm. apply (keeps_bind _ _ _ _ _ (fun _ => P)); [|intros []; by apply keeps_ret].
  apply keeps_outcome_of; [|done]. intros w r w' Hw He Hr. destruct (Hm _ _ _ He Hw Hr) as (_ & Hl & _). by eapply HP.
Qed.

Lemma keeps_orphan_adapters g :
  keeps w_trace pass_ok (known g) (CleanupOrphanedScalingAdapters g) (fun _ => known g).
Proof.
  unfold CleanupOrphanedScalingAdapters.
  eapply (keeps_bind _ _ _ _ _ (fun l t => known g t /\ forall a, a ∈ l -> once (listed_adapter g a) t)).
  { apply keeps_request; [done|]. intros l t Hk Hl. split; [eapply once_later; [apply later_cons|done]|].
    intros a Ha. apply once_now. split; [done|]. by exists l. }
  intros items. apply (keeps_conseq w_trace pass_ok (fun t => known g t /\ forall a, a ∈ items -> once (listed_adapter g a) t) _ _
    (fun _ t => known g t /\ forall a, a ∈ items -> once (listed_adapter g a) t)); [done|by intros ? t []|].
  assert (lasting (fun t => known g t /\ forall a, a ∈ items -> once (listed_adapter g a) t)) as Hlast.
  { intros t t' Hl [Hk Ha]. split; [by eapply once_later|]. intros a Hin. eapply once_later; [done|auto]. }
  apply keeps_for_each. intros a [Ha Horph]%list_elem_of_In%List.filter_In. apply list_elem_of_In in Ha.
  eapply (keeps_bind _ _ _ _ _ (fun _ t => known g t /\ forall a, a ∈ items -> once (listed_adapter g a) t)).
  { apply keeps_outcome; [|intros t Ht; by eapply Hlast; [apply later_cons|]].
    intros t [Hk Hl]. exists g. split; [done|]. right. split; [by apply Hl|done]. }
  intros [u|e]; [by apply keeps_ret|apply keeps_fail].
Qed.

Lemma keeps_expired g : keeps w_trace pass_ok (known g) (CleanExpiredRevision g) (fun _ => known g).
Proof.
  unfold CleanExpiredRevision. eapply keeps_bind; [apply keeps_ListRevisions; auto with lasting|]. intros l. cbv beta.
  apply (keeps_conseq w_trace pass_ok (fun t => known g t /\ once (listed_revisions g l) t) _ _
    (fun _ t => known g t /\ once (listed_revisions g l) t)); [done|by intros ? t []|].
  apply keeps_for_each. intros r Hr. apply keeps_request.
  - intros t [Hk Hl]. by exists g, l.
  - intros u t Ht _. eapply lasting_and; [apply lasting_once..|apply later_cons|done].
Qed.

Lemma keeps_cleanup g : keeps w_trace pass_ok (known g) (cleanup g) (fun _ => known g).
Proof.
  unfold cleanup. apply (keeps_bind _ _ _ _ _ (fun _ => known g)); [|intros _; apply keeps_expired].
  unfold deleteOrphanRoles. apply (keeps_bind _ _ _ _ _ (fun _ => known g)).
  { apply keeps_collect. intros k _. apply keeps_error_of; [auto with lasting|].
    apply keeps_request; [done|]. intros u t Ht _. eapply once_later; [apply later_cons|done]. }
  intros errs. apply (keeps_bind _ _ _ _ _ (fun _ => known g)); [apply keeps_error_of; [auto with lasting|apply keeps_orphan_adapters]|].
  intros e. unfold fail_all. destruct (NewAggregate _); [apply keeps_fail|by apply keeps_ret].
Qed.

(** ** The pass *)

Lemma keeps_group g hashes :
  keeps w_trace pass_ok (known g) (reconcile_group g hashes) (fun _ _ => True).
Proof.
  unfold reconcile_group. eapply keeps_bind; [apply keeps_mode|]. clear g. intros g.
  eapply keeps_bind; [apply keeps_config_map|]. intros ?; cbv beta.
  eapply keeps_bind; [apply keeps_statuses|]. intros [sts g']. cbn [snd]. clear g. rename g' into g.
  eapply keeps_bind; [apply keeps_policy|]. intros ?; cbv beta.
  eapply keeps_bind; [apply keeps_coordinate|]. intros [targets rollouts].
  eapply keeps_bind; [apply keeps_resolve|]. intros [s rerr].
  eapply keeps_bind; [apply (keeps_pod_group g (s, rerr))|]. intros gerr.
  assert (forall cause, keeps w_trace pass_ok (fun t => published g t /\ (gerr = None -> gang_cleared g t)) (setGangConfiguredCondition g s cause)
    (fun g' t => published g' t /\ (gerr = None -> cleared g' t))) as Hset.
  { intros cause. eapply (keeps_conseq _ _ (fun t => published g t /\ (gerr = None -> gang_cleared g t)) _ _
      (fun g' t => (published g t /\ (gerr = None -> gang_cleared g t)) /\ restatus g g')); [done| |].
    - intros g' t [[Hp Hg] Hs]. split; [by eapply published_restatus|]. intros He. eapply cleared_restatus; [|exact Hs]. split; auto.
    - eapply keeps_free_spec; [|apply setGang_spec]. intros t t' Hl [Hp Hg]. split; [by eapply lasting_published|].
      intros He. eapply lasting_gang; [done|auto]. }
  destruct gerr as [[e|e]|].
  - eapply keeps_bind; [apply Hset|]. intros g'. apply (keeps_bind _ _ _ _ _ (fun _ _ => True)).
    + eapply keeps_conseq; [| |apply keeps_cleanup]; [by intros t [[Hk _] _]|done].
    + intros _. by apply keeps_ret.
  - apply keeps_fail.
  - eapply keeps_bind; [apply Hset|]. intros g'. apply (keeps_bind _ _ _ _ _ (fun _ => known g')).
    + eapply keeps_conseq; [| |apply keeps_roles]; [by intros t [_ Hc]; apply Hc|by intros ? t [[Hk _] _]].
    + intros _. apply (keeps_bind _ _ _ _ _ (fun _ => known g')); [apply keeps_cleanup|intros _; by apply keeps_ret].
Qed.

(** Every request of a pass is explained by the answers before it. *)
Lemma Reconcile_explained ns name cache r w' :
  Reconcile ns name (start, cache) = (r, w') -> explained pass_ok (w_trace w'.1).
Proof.
  intros Hr. assert (keeps (fun w : world group_call * _ => w_trace w.1) pass_ok (fun _ => True) (Reconcile ns name) (fun _ _ => True)) as Hk.
  { unfold Reconcile. eapply keeps_bind; [apply keeps_on_world, keeps_read_group|]. intros [g|]; [|by apply keeps_ret].
    eapply keeps_bind; [apply keeps_handleRevisions|]. intros hashes. apply keeps_on_world, keeps_group. }
  by eapply (Hk (start, cache)) in Hr as (He & _).
Qed.
End pass.
