(* ===== verification/GroupReconcileDemo.v ===== *)
(** A pass over a concrete group (GroupReconcile.v): a worker that depends on a router,
    a leftover adapter in the way of the worker's, an adapter of a role that is gone,
    and seven revisions. *)
From Stdlib Require Import ZArith Lia Bool Ascii String.
From stdpp Require Import base tactics list strings gmap sets countable pretty.
From S2P Require Import Prelude GoStrings IntOrString Types Conditions GroupTypes Effects Revisions Owners Json Requests Histories.
From S2P Require Import Gang Float64 Coordination Dependency ScalingAdapter ScalingAdapterPass Admission AdmissionDependencies AdmissionRules.
From S2P Require Import GroupRevisions PolicyMigration GroupWorld GroupReconcile GroupReconcilePass.

Module PassDemo.
Definition router : RoleSpec := {|
  role_Name := "router"; role_Labels := ∅; role_Annotations := ∅; role_Replicas := Some 1; role_RollingUpdate := None;
  role_Dependencies := []; role_Pattern := standalone (AdmissionDemo.by_reference "base"); role_ScalingAdapter := None;
  role_MinReadySeconds := 0; role_rest := no_rest |}.
Definition worker : RoleSpec := {|
  role_Name := "worker"; role_Labels := ∅; role_Annotations := ∅; role_Replicas := Some 2; role_RollingUpdate := None;
  role_Dependencies := ["router"]; role_Pattern := standalone (AdmissionDemo.by_reference "base");
  role_ScalingAdapter := Some {| sa_Enable := true; sa_Labels := ∅ |}; role_MinReadySeconds := 0; role_rest := no_rest |}.

Definition with_mode (mode : labels) : RoleBasedGroup := {|
  rbg_meta := with_annotations mode (AdapterDemo.meta "web" "uid-web" []); rbg_Roles := [worker; router];
  rbg_RoleTemplates := [{| rt_Name := "base"; rt_Template := AdmissionDemo.template |}];
  rbg_ObservedGeneration := 0; rbg_Conditions := []; rbg_RoleStatuses := [] |}.
Definition fresh : RoleBasedGroup := with_mode ∅.
Definition refined : RoleBasedGroup := with_mode {[DiscoveryConfigModeAnnotationKey := RefineDiscoveryConfigMode]}.

(** An adapter of the name of the worker's that belongs to nobody, and one of a role that is gone. *)
Definition leftover : ScalingAdapter := {|
  adp_meta := AdapterDemo.meta "web-worker" "uid-old" []; adp_Replicas := Some 5; adp_ScaleTargetRef := None;
  adp_status := {| as_Phase := ""; as_Replicas := None; as_Selector := ""; as_ReadyReplicas := None; as_LastScaleTime := None |} |}.
Definition orphan : ScalingAdapter := {|
  adp_meta := AdapterDemo.meta "web-gone" "uid-gone" [rbg_owner fresh]; adp_Replicas := Some 5;
  adp_ScaleTargetRef := Some {| ref_Name := "web"; ref_Role := "gone" |};
  adp_status := {| as_Phase := ""; as_Replicas := None; as_Selector := ""; as_ReadyReplicas := None; as_LastScaleTime := None |} |}.

Definition revision (n : Z) : ControllerRevision := {|
  cr_meta := AdapterDemo.meta ("web-" +:+ Itoa n) ("uid-r" +:+ Itoa n) []; cr_Revision := n; cr_Data := "old" |}.
Definition history : list ControllerRevision := map revision [3; 1; 2; 7; 4; 6; 5].

(** [gang]: what the gang scheduler says. *)
Definition env (gang : option gang_error) : GroupEnv := {|
  ge_clock := fun n => Z.of_nat n;
  ge_deprecated := true;
  ge_gangScheduler := true;
  ge_APIVersion := GroupAPIVersion;
  ge_Kind := GroupKind;
  ge_get_group := fun _ _ name => if bool_decide (name = "web"%string) then Ok fresh else Err NotFoundError;
  ge_patch_mode := fun _ _ _ mode => Ok (with_mode {[DiscoveryConfigModeAnnotationKey := mode]});
  ge_apply_status := fun _ _ => Ok tt;
  ge_get_adapter := fun _ _ name => if bool_decide (name = "web-worker"%string) then Ok leftover else Err NotFoundError;
  ge_list_adapters := fun _ _ _ => Ok [orphan];
  ge_create_adapter := fun _ _ => Ok tt;
  ge_update_adapter := fun _ _ => Ok tt;
  ge_delete_adapter := fun _ _ _ => Ok tt;
  ge_list_revisions := fun _ _ _ => Ok history;
  ge_create_revision := fun _ r => Ok r;
  ge_delete_revision := fun _ _ => Ok tt;
  ge_get_config_map := fun _ _ _ => Err NotFoundError;
  ge_apply_config_map := fun _ _ => Ok tt;
  ge_apply_policy := fun _ _ => Ok tt;
  ge_get_policy := fun _ _ _ => Err NotFoundError;
  ge_pod_group := fun _ _ _ => gang;
  ge_validate_role := fun _ _ _ => Ok tt;
  ge_reconcile_role := fun _ _ _ _ _ _ => Ok tt;
  ge_role_status := fun _ _ _ r =>
    ({| rst_Name := role_Name r; rst_ReadyReplicas := 0; rst_Replicas := 0; rst_UpdatedReplicas := 0 |}, Some NotFoundError);
  ge_workload_ready := fun _ _ _ _ => Ok true;
  ge_cleanup_workloads := fun _ _ _ => Ok tt;
  ge_build_config := fun _ _ => Ok "group: web";
  ge_list_pods := fun _ _ _ => Ok [];
  ge_ParseFloat := Coordination.Witness.ParseFloat
|}.

(** Nothing is made of the old data. *)
Definition codec : GroupCodec := {|
  role_fields := @role_fields GroupDemo.group_codec; role_template_fields := @role_template_fields GroupDemo.group_codec;
  marshal_json := @marshal_json GroupDemo.group_codec; unmarshal_json := @unmarshal_json GroupDemo.group_codec;
  merge_group := fun _ _ => Err "not a patch" |}.

#[export] Instance coordination_codec : CoordinationCodec := fun _ => Ok [].

Definition pass (gang : option gang_error) : result Z * (world group_call * list revisionEqualityCacheKey) :=
  @Reconcile insertion_sort_slice codec coordination_codec (env gang) "default" "web" (start, []).

Definition trace : list group_call := w_trace (pass None).2.1.

(** The call of a place of the trace, and the calls before it. *)
Lemma trace_at n c : trace !! n = Some c -> trace = take n trace ++ c :: drop (S n) trace.
Proof. intros Hc. symmetry. by apply take_drop_middle. Qed.

Lemma pass_runs gang :
  @Reconcile insertion_sort_slice codec coordination_codec (env gang) "default" "web" (start, []) = ((pass gang).1, (pass gang).2).
Proof. apply surjective_pairing. Qed.
End PassDemo.
