(* ===== verification/GroupReconcileRules.v ===== *)
(** What a reconcile of a RoleBasedGroup promises: when its status is ready and when
    it is written, which revisions come and go, and in which order its roles, its
    gang and its adapters are dealt with. *)
From Stdlib Require Import ZArith Lia Bool Ascii String.
From stdpp Require Import base tactics list strings gmap sets relations.
From S2P Require Import Prelude GoStrings IntOrString Types Conditions GroupTypes Effects Revisions Owners Json Requests Histories.
From S2P Require Import Gang Float64 Coordination Dependency ScalingAdapter ScalingAdapterPass Admission AdmissionDependencies AdmissionRules.
From S2P Require Import GroupRevisions PolicyMigration GroupWorld GroupReconcile GroupReconcilePass GroupReconcileDemo.

(** * The status *)

(** The last status of a name. *)
Definition last_status (statuses : list RoleStatus) (name : string) : option RoleStatus :=
  last (List.filter (fun rs => bool_decide (rst_Name rs = name)) statuses).

Lemma status_map_lookup statuses name : status_map statuses !! name = last_status statuses name.
Proof.
  unfold status_map, last_status. induction statuses as [|rs l IH] using rev_ind; [done|].
  rewrite fold_left_app, List.filter_app. cbn [fold_left List.filter].
  destruct (bool_decide_reflect (rst_Name rs = name)) as [<-|Hne].
  - by rewrite lookup_insert_eq, last_snoc.
  - by rewrite lookup_insert_ne, app_nil_r.
Qed.

Lemma role_ready_iff statuses role :
  role_ready (status_map statuses) role = true <->
  exists rs, last_status statuses (role_Name role) = Some rs /\
    role_Replicas role = Some (rst_Replicas rs) /\ rst_ReadyReplicas rs = rst_Replicas rs.
Proof.
  unfold role_ready. rewrite status_map_lookup. destruct (last_status _ _) as [rs|]; [|split; [done|by intros (? & [=] & _)]].
  destruct (role_Replicas role) as [n|]; [|split; [done|by intros (? & _ & [=] & _)]].
  rewrite andb_true_iff, !Z.eqb_eq. split; [intros [-> Heq]; by exists rs|]. by intros (? & [= <-] & [= ->] & ->).
Qed.

(** C21: The group is reported ready exactly when every role has a status, the last one of
    its name, that counts the replicas the role asks for, all of them ready. *)
Theorem ready_condition_is_readiness (g : RoleBasedGroup) (statuses : list RoleStatus) (now : Z) :
  IsStatusConditionTrue (rbg_Conditions (updated_status g statuses now)) RoleBasedGroupReady = true <->
  forall role, role ∈ rbg_Roles g ->
    exists rs, last_status statuses (role_Name role) = Some rs /\
      role_Replicas role = Some (rst_Replicas rs) /\ rst_ReadyReplicas rs = rst_Replicas rs.
Proof.
  setoid_rewrite <-role_ready_iff. unfold updated_status. cbn [rbg_Conditions rbg_with_status fst SetStatusCondition].
  set (ready := forallb _ _). set (new := ready_condition _ _ _).
  assert (IsStatusConditionTrue (set_status_condition now new (rbg_Conditions g)) RoleBasedGroupReady = ready) as ->.
  { unfold IsStatusConditionTrue, IsStatusConditionPresentAndEqual.
    destruct (find_set_status_condition now new (rbg_Conditions g)) as (c & Hf & Hs & _).
    replace (c_Type new) with RoleBasedGroupReady in Hf by (subst new; by destruct ready).
    rewrite Hf, Hs. subst new. by destruct ready. }
  subst ready. rewrite List.forallb_forall. by setoid_rewrite <-list_elem_of_In.
Qed.

(** ** Writing it once *)

Definition first_status (l : list RoleStatus) (name : string) : option RoleStatus :=
  List.find (fun rs => bool_decide (name = rst_Name rs)) l.

Lemma put_status_same rs l : first_status l (rst_Name rs) = Some rs -> put_status rs l = l.
Proof.
  unfold first_status. induction l as [|old l IH]; cbn [List.find put_status]; [done|].
  case_bool_decide; [by intros [= ->]|]. intros Hf. by rewrite IH.
Qed.

Lemma first_put rs l name :
  first_status (put_status rs l) name = if bool_decide (name = rst_Name rs) then Some rs else first_status l name.
Proof.
  unfold first_status. induction l as [|old l IH]; cbn [put_status List.find].
  - by case_bool_decide.
  - destruct (bool_decide_reflect (rst_Name rs = rst_Name old)) as [Heq|Hne]; cbn [List.find].
    + rewrite Heq. by repeat case_bool_decide.
    + rewrite IH. repeat case_bool_decide; congruence.
Qed.

Lemma first_put_statuses statuses l name rs :
  NoDup (map rst_Name statuses) -> rs ∈ statuses -> rst_Name rs = name -> first_status (put_statuses l statuses) name = Some rs.
Proof.
  unfold put_statuses. revert l. induction statuses as [|s statuses IH] using rev_ind; intros l Hnd Hin Hname; [by apply elem_of_nil in Hin|].
  rewrite fold_left_app. cbn [fold_left]. rewrite first_put.
  rewrite map_app in Hnd. apply NoDup_app in Hnd as (Hnd & Hdis & _).
  apply elem_of_snoc in Hin as [Hin| ->]; [|by rewrite bool_decide_eq_true_2].
  rewrite bool_decide_eq_false_2; [by apply IH|]. intros Heq. apply (Hdis (rst_Name rs)); [by apply list_elem_of_fmap_2|].
  rewrite Hname, Heq. by left.
Qed.

Lemma put_statuses_again statuses l :
  NoDup (map rst_Name statuses) -> put_statuses (put_statuses l statuses) statuses = put_statuses l statuses.
Proof.
  intros Hnd. set (l' := put_statuses l statuses).
  assert (forall rs, rs ∈ statuses -> put_status rs l' = l') as Hput.
  { intros rs Hrs. apply put_status_same. by eapply first_put_statuses. }
  clearbody l'. clear Hnd. unfold put_statuses. induction statuses as [|rs statuses IH]; [done|]. cbn [fold_left].
  rewrite Hput by (by left). apply IH. intros x Hx. apply Hput. by right.
Qed.

(** A condition set again later stays as it was. *)
Lemma set_status_condition_again now now' new new' l :
  c_Type new = c_Type new' -> c_Status new = c_Status new' -> c_Reason new = c_Reason new' ->
  c_Message new = c_Message new' -> c_ObservedGeneration new = c_ObservedGeneration new' ->
  set_status_condition now' new' (set_status_condition now new l) = set_status_condition now new l.
Proof.
  intros Ht Hs Hr Hm Hg. induction l as [|c l IH]; cbn [set_status_condition].
  - cbn [c_Type]. rewrite bool_decide_eq_true_2 by done. unfold merge_condition. cbn.
    rewrite bool_decide_eq_false_2 by (by intros ?). by rewrite Hs, Hr, Hm, Hg.
  - destruct (bool_decide_reflect (c_Type c = c_Type new)) as [Hc|Hc]; cbn [set_status_condition].
    + cbn [c_Type merge_condition]. rewrite bool_decide_eq_true_2 by congruence. unfold merge_condition. cbn.
      rewrite (bool_decide_eq_false_2 (c_Status new <> c_Status new')) by (by intros ?). by rewrite Hs, Hr, Hm, Hg.
    + rewrite bool_decide_eq_false_2 by congruence. by rewrite IH.
Qed.

Section status.
Context {ENV : GroupEnv}.

(** Once its status is written, a group whose roles report the same is not written
    again, whatever the time: the status is a fixed point. *)
Theorem status_write_settles (g g' : RoleBasedGroup) (statuses : list RoleStatus) (w w1 w2 : world group_call) :
  NoDup (map rst_Name statuses) -> updateRBGStatus g statuses w = (Ok g', w1) ->
  exists w', updateRBGStatus g' statuses w2 = (Ok g', w') /\ w_trace w' = w_trace w2.
Proof.
  intros Hnd Hr. assert (exists now, g' = updated_status g statuses now) as [now ->].
  { apply bind_ok_inv in Hr as (now & w3 & _ & Hr). exists now. cbv zeta in Hr.
    destruct (same_status _ _); [by apply ret_inv in Hr as [[= ->] _]|].
    by apply bind_ok_inv in Hr as (u & w4 & _ & [[= ->] _]%ret_inv). }
  eexists. split.
  - unfold updateRBGStatus. erewrite bind_ok by done. cbv zeta.
    assert (updated_status (updated_status g statuses now) statuses (ge_clock (w_clock w2)) = updated_status g statuses now) as ->.
    { unfold updated_status, SetStatusCondition. cbn [rbg_Conditions rbg_RoleStatuses rbg_with_status rbg_Roles rbg_meta fst].
      rewrite put_statuses_again by done. rewrite set_status_condition_again by (by destruct (forallb _ _)). done. }
    unfold same_status. rewrite !bool_decide_eq_true_2 by done. done.
  - done.
Qed.
End status.

(** * Revisions *)

Lemma highest_spec l : forall max cur,
  (match cur with Some c => cr_Revision c = max | None => max = 0 end) ->
  match highest max cur l with
  | Some h => (cur = Some h \/ h ∈ l) /\ max <= cr_Revision h /\ forall r, r ∈ l -> cr_Revision r <= cr_Revision h
  | None => cur = None /\ forall r, r ∈ l -> cr_Revision r < max
  end.
Proof.
  induction l as [|x l IH]; intros max cur Hc; cbn [highest].
  { destruct cur as [c|]; [|split; [done|by intros r ?%elem_of_nil]].
    split; [by left|]. split; [lia|by intros r ?%elem_of_nil]. }
  destruct (Z.leb_spec max (cr_Revision x)) as [Hx|Hx].
  - specialize (IH (cr_Revision x) (Some x) eq_refl). destruct (highest _ _ l) as [h|]; [|by destruct IH].
    destruct IH as (Hin & Hm & Hall). split; [destruct Hin as [[= ->]|Hin]; right; [by left|by right]|].
    split; [lia|]. intros r [->|Hr]%elem_of_cons; [lia|by apply Hall].
  - specialize (IH max cur Hc). destruct (highest max cur l) as [h|].
    + destruct IH as (Hin & Hm & Hall). split; [destruct Hin as [?|Hin]; [by left|right; by right]|].
      split; [done|]. intros r [->|Hr]%elem_of_cons; [lia|by apply Hall].
    + destruct IH as [-> Hall]. split; [done|]. intros r [->|Hr]%elem_of_cons; [lia|by apply Hall].
Qed.

Lemma NewRevision_newer `{GroupCodec} g l r :
  NewRevision g (GetHighestRevision l) = Ok r -> (forall x, x ∈ l -> cr_Revision x < 2^63 - 1) ->
  forall x, x ∈ l -> cr_Revision x < cr_Revision r.
Proof.
  unfold NewRevision. destruct (getRBGPatch g); [|done]. intros [= <-] Hb x Hx. cbn [cr_Revision].
  pose proof (highest_spec l 0 None eq_refl) as Hh. unfold GetHighestRevision. destruct (highest 0 None l) as [h|].
  - destruct Hh as ([?|Hin] & H0 & Hall); [done|]. specialize (Hb _ Hin). specialize (Hall _ Hx).
    rewrite int64_id; [lia|]. unfold is_int64, int64_min, int64_max; lia.
  - destruct Hh as [_ Hall]. specialize (Hall _ Hx). lia.
Qed.

Lemma byRevision_le x y : byRevision_Less y x = false -> cr_Revision x <= cr_Revision y.
Proof. unfold byRevision_Less. destruct (Z.eqb_spec (cr_Revision y) (cr_Revision x)); [lia|]. intros ?. lia. Qed.

Lemma SortControllerRevisions_perm l : SortControllerRevisions l ≡ₚ l.
Proof. apply insertion_sort_perm. Qed.

Lemma StronglySorted_app_rel {A} (R : A -> A -> Prop) l1 l2 x y :
  Sorted.StronglySorted R (l1 ++ l2) -> x ∈ l1 -> y ∈ l2 -> R x y.
Proof.
  induction l1 as [|z l1 IH]; intros Hs Hx Hy; [by apply elem_of_nil in Hx|].
  apply Sorted.StronglySorted_inv in Hs as [Hs Hall]. apply elem_of_cons in Hx as [->|Hx]; [|by apply IH].
  rewrite List.Forall_forall in Hall. apply Hall, list_elem_of_In. apply elem_of_app. by right.
Qed.

(** Behind an expired revision stand five that are at least as new. *)
Lemma expired_spec l r :
  r ∈ expired_revisions l ->
  exists kept, length kept = 5%nat /\ r :: kept ⊆+ l /\ forall k, k ∈ kept -> cr_Revision r <= cr_Revision k.
Proof.
  unfold expired_revisions. cbv zeta. destruct (Z.leb_spec (Z.of_nat (length l) - DefaultRevisionHistoryLimit) 0) as [?|Hn];
    [by intros ?%elem_of_nil|]. unfold DefaultRevisionHistoryLimit in *.
  set (sorted := SortControllerRevisions l). set (n := Z.to_nat (Z.of_nat (length l) - 5)). intros Hr.
  assert (length sorted = length l) as Hlen by (unfold sorted; by rewrite SortControllerRevisions_perm).
  exists (drop n sorted). split; [rewrite length_drop, Hlen; lia|]. split.
  - rewrite <-(SortControllerRevisions_perm l). fold sorted. rewrite <-(take_drop n sorted) at 2.
    change (r :: drop n sorted) with ([r] ++ drop n sorted). apply submseteq_skips_r. by apply singleton_submseteq_l.
  - intros k Hk. apply byRevision_le. eapply (StronglySorted_app_rel (fun x y => byRevision_Less y x = false) (take n sorted)); [|done..].
    rewrite take_drop. apply SortControllerRevisions_sorted.
Qed.

(** * The order of a pass *)

Section pass.
Context `{SortSlice} `{GroupCodec} `{CoordinationCodec} {ENV : GroupEnv}.
Context (ns name : string) (cache : list revisionEqualityCacheKey).

(** C3: A role is given to its workload reconciler only after, in this very pass, the
    workload of each of its dependencies was reported ready. *)
Theorem roles_wait_for_their_dependencies (r : result Z) (w' : world group_call * list revisionEqualityCacheKey)
    (t2 t1 : list group_call) (k : WorkloadReconciler) (g : RoleBasedGroup) (role : RoleSpec) (rollout : option RollingUpdate) (hash dep : string) :
  Reconcile ns name (start, cache) = (r, w') ->
  w_trace w'.1 = t2 ++ CallReconcileRole k g role rollout hash :: t1 -> dep ∈ role_Dependencies role ->
  once (reported_ready g dep) t1.
Proof.
  intros Hr Ht Hdep. apply Reconcile_explained in Hr. rewrite Ht in Hr. apply explained_at in Hr as (_ & Hd & _). by apply Hd.
Qed.

(** C13: A role is given to its workload reconciler only after the gang of its group was
    resolved and its PodGroup reconciled without an error, and, in the refined mode,
    after the discovery configuration of the group was applied. *)
Theorem roles_wait_for_gang_and_config (r : result Z) (w' : world group_call * list revisionEqualityCacheKey)
    (t2 t1 : list group_call) (k : WorkloadReconciler) (g : RoleBasedGroup) (role : RoleSpec) (rollout : option RollingUpdate) (hash : string) :
  Reconcile ns name (start, cache) = (r, w') ->
  w_trace w'.1 = t2 ++ CallReconcileRole k g role rollout hash :: t1 ->
  gang_cleared g t1 /\ config_published g t1.
Proof. intros Hr Ht. apply Reconcile_explained in Hr. rewrite Ht in Hr. by apply explained_at in Hr as (_ & _ & Hg & Hc). Qed.

(** C20: An adapter is deleted only when it was read in this pass under the name of a role
    of the group that has adapters switched off, when it was listed, is the group's and
    its role is gone, or when it is not the group's and stands in the way of the
    adapter of a role of the group that has them switched on; in the last case the
    deletion is conditional on the identity that was read.  The group is the one the
    server answered in this pass, but for the replicas of its roles. *)
Theorem adapters_are_deleted_for_a_reason (r : result Z) (w' : world group_call * list revisionEqualityCacheKey)
    (t2 t1 : list group_call) (a : ScalingAdapter) (uid : option string) :
  Reconcile ns name (start, cache) = (r, w') -> w_trace w'.1 = t2 ++ CallDeleteAdapter a uid :: t1 ->
  exists g, once (answered_group g) t1 /\
  match uid with
  | None =>
      (exists role, role ∈ rbg_Roles g /\ IsScalingAdapterEnable (Some role) = false /\ once (read_adapter g role a) t1) \/
      (once (listed_adapter g a) t1 /\ ContainsRBGOwner a g = true /\
       exists ref, adp_ScaleTargetRef a = Some ref /\ ref_Name ref = rbg_Name g /\ ref_Role ref ∉ map role_Name (rbg_Roles g))
  | Some uid => uid = om_UID (adp_meta a) /\ ContainsRBGOwner a g = false /\
      exists role, role ∈ rbg_Roles g /\ IsScalingAdapterEnable (Some role) = true /\ once (read_adapter g role a) t1
  end.
Proof.
  intros Hr Ht. apply Reconcile_explained in Hr. rewrite Ht in Hr. apply explained_at in Hr as (g & Hk & Hc). exists g.
  split; [done|]. destruct uid as [uid|].
  { destruct Hc as (role & [Hin Hread] & Ho & -> & He). split_and!; [done..|]. by exists role. }
  destruct Hc as [(role & [Hin Hread] & He)|[Hl Ho]]; [left; by exists role|right]. split; [done|]. unfold orphaned_adapter in Ho.
  apply andb_true_iff in Ho as [Hm Ho]. split; [done|]. destruct (adp_ScaleTargetRef a) as [ref|]; [|done].
  apply andb_true_iff in Ho as [Hn Hx]. exists ref. split; [done|]. breflect. split; [done|].
  intros (role & Heq & Hin)%list_elem_of_fmap. apply not_true_iff_false in Hx. apply Hx.
  apply List.existsb_exists. exists role. split; [by apply list_elem_of_In|]. by apply bool_decide_eq_true_2.
Qed.

(** C19: The revisions of the group the server answered in this pass move forward, given
    those of its revisions that the server listed: one is created only with the data
    of the group, different from those of the highest one listed, and its number is
    above all that were listed; one is deleted only while five at least as new
    remain. *)
Theorem revisions_move_forward (r : result Z) (w' : world group_call * list revisionEqualityCacheKey)
    (t2 t1 : list group_call) (c : group_call) :
  Reconcile ns name (start, cache) = (r, w') -> w_trace w'.1 = t2 ++ c :: t1 ->
  match c with
  | CallCreateRevision x => exists g l, once (answered_group g) t1 /\ once (listed_revisions g l) t1 /\
      getRBGPatch g = Ok (cr_Data x) /\
      (forall h, GetHighestRevision l = Some h -> cr_Data h <> cr_Data x) /\
      ((forall y, y ∈ l -> cr_Revision y < 2^63 - 1) -> forall y, y ∈ l -> cr_Revision y < cr_Revision x)
  | CallDeleteRevision x => exists g l kept, once (answered_group g) t1 /\ once (listed_revisions g l) t1 /\
      length kept = 5%nat /\ x :: kept ⊆+ l /\ forall k, k ∈ kept -> cr_Revision x <= cr_Revision k
  | _ => True
  end.
Proof.
  intros Hr Ht. apply Reconcile_explained in Hr. rewrite Ht in Hr. apply explained_at in Hr.
  destruct c; try done.
  - destruct Hr as (g & l & Hk & Hl & Hn & He). exists g, l. split; [done|]. split; [done|]. split.
    { unfold NewRevision in Hn. destruct (getRBGPatch g); [|done]. by injection Hn as <-. }
    split; [|by eapply NewRevision_newer].
    intros h Hh Heq. rewrite Hh in He. unfold GroupRevisions.EqualRevision in He. by rewrite bool_decide_eq_true_2 in He.
  - destruct Hr as (g & l & Hk & Hl & Hx). apply expired_spec in Hx as (kept & ? & ? & ?). by exists g, l, kept.
Qed.

(** The discovery mode is written only to a group that has none, and a group that
    shows signs of an earlier pass does not become a refined one. *)
Theorem discovery_mode_is_decided_once (r : result Z) (w' : world group_call * list revisionEqualityCacheKey)
    (t2 t1 : list group_call) (ns' name' mode : string) :
  Reconcile ns name (start, cache) = (r, w') -> w_trace w'.1 = t2 ++ CallPatchMode ns' name' mode :: t1 ->
  exists g, once (answered_group g) t1 /\
    GetDiscoveryConfigMode g ∉ [LegacyDiscoveryConfigMode; RefineDiscoveryConfigMode] /\
    (mode = LegacyDiscoveryConfigMode \/
     mode = RefineDiscoveryConfigMode /\ rbg_ObservedGeneration g <= 0 /\ rbg_RoleStatuses g = []).
Proof.
  intros Hr Ht. apply Reconcile_explained in Hr. rewrite Ht in Hr. apply explained_at in Hr as (g & Hk & Hn & Hm & Href).
  exists g. split; [done|]. split; [done|]. apply elem_of_cons in Hm as [->|Hm%list_elem_of_singleton]; [by left|right].
  split; [done|]. by apply Href.
Qed.
End pass.

(** * How a pass ends *)

Section result.
Context `{SortSlice} `{GroupCodec} `{CoordinationCodec} {ENV : GroupEnv}.


#[local] Hint Extern 1 (calls _ _ (request _ _)) => (apply calls_ask; exact I) : calls.
#[local] Hint Extern 2 (calls _ _ _) =>
  (progress unfold GetGroup, PatchMode, ApplyGroupStatus, GetAdapter, ListAdapters, CreateAdapter, UpdateAdapter, DeleteAdapter,
     ListAllRevisions, CreateRevision, DeleteRevision, GetConfigMap, ApplyConfigMap, ApplyPolicy, GetPolicy, SchedulerPodGroup,
     ValidateRole, RoleStatusOf, WorkloadReady, CleanupWorkloads; apply calls_ask; exact I) : calls.












Section roles.
Context (g : RoleBasedGroup) (hashes : gmap string string) (targets : gmap string Z) (rollouts : gmap string RollingUpdate).








End roles.





(** ** Targets and rollouts *)













End result.

(** * Witnesses *)

#[local] Existing Instance insertion_sort_slice.
#[local] Existing Instance PassDemo.codec.

Lemma status_write_settles_witness :
  exists g' w1 w', @updateRBGStatus (PassDemo.env None) PassDemo.refined [] start = (Ok g', w1) /\
    @updateRBGStatus (PassDemo.env None) g' [] w1 = (Ok g', w') /\ w_trace w' = w_trace w1.
Proof.
  assert (exists g' w1, @updateRBGStatus (PassDemo.env None) PassDemo.refined [] start = (Ok g', w1)) as (g' & w1 & Hr)
    by (vm_compute; eexists _, _; reflexivity).
  destruct (@status_write_settles (PassDemo.env None) PassDemo.refined g' [] start w1 w1 (NoDup_nil_2) Hr) as (w' & Hw & Ht).
  exists g', w1, w'. split; [exact Hr|]. split; [exact Hw|exact Ht].
Defined.

Lemma roles_wait_for_their_dependencies_witness :
  exists n k g role rollout hash, PassDemo.trace !! n = Some (CallReconcileRole k g role rollout hash) /\
    once (@reported_ready (PassDemo.env None) g "router") (drop (S n) PassDemo.trace).
Proof.
  assert (exists k g role rollout hash, PassDemo.trace !! 12%nat = Some (CallReconcileRole k g role rollout hash) /\
    role_Dependencies role = ["router"%string]) as (k & g & role & rollout & hash & Hc & Hd)
    by (vm_compute; do 5 eexists; split; reflexivity).
  exists 12%nat, k, g, role, rollout, hash. split; [exact Hc|].
  eapply (roles_wait_for_their_dependencies "default" "web" []); [exact (PassDemo.pass_runs None)|exact (PassDemo.trace_at _ _ Hc)|].
  rewrite Hd. apply list_elem_of_singleton. reflexivity.
Defined.

Lemma roles_wait_for_gang_and_config_witness :
  exists n k g role rollout hash, PassDemo.trace !! n = Some (CallReconcileRole k g role rollout hash) /\
    @gang_cleared (PassDemo.env None) g (drop (S n) PassDemo.trace) /\ @config_published (PassDemo.env None) g (drop (S n) PassDemo.trace).
Proof.
  assert (exists k g role rollout hash, PassDemo.trace !! 12%nat = Some (CallReconcileRole k g role rollout hash))
    as (k & g & role & rollout & hash & Hc) by (vm_compute; do 5 eexists; reflexivity).
  exists 12%nat, k, g, role, rollout, hash. split; [exact Hc|].
  eapply (roles_wait_for_gang_and_config "default" "web" []); [exact (PassDemo.pass_runs None)|exact (PassDemo.trace_at _ _ Hc)].
Defined.

Lemma adapters_are_deleted_for_a_reason_witness :
  PassDemo.trace !! 3%nat = Some (CallDeleteAdapter PassDemo.orphan None) /\
  exists g, once (@answered_group (PassDemo.env None) g) (drop 4 PassDemo.trace).
Proof.
  assert (PassDemo.trace !! 3%nat = Some (CallDeleteAdapter PassDemo.orphan None)) as Hc by (vm_compute; reflexivity).
  split; [exact Hc|].
  destruct (adapters_are_deleted_for_a_reason "default" "web" [] _ _ _ _ _ _ (PassDemo.pass_runs None) (PassDemo.trace_at _ _ Hc)) as (g & Hg & _).
  exists g. exact Hg.
Defined.

Lemma revisions_move_forward_witness :
  exists r, PassDemo.trace !! 26%nat = Some (CallCreateRevision r) /\
    exists g l, once (@listed_revisions (PassDemo.env None) g l) (drop 27 PassDemo.trace).
Proof.
  assert (exists r, PassDemo.trace !! 26%nat = Some (CallCreateRevision r)) as [r Hc] by (vm_compute; eexists; reflexivity).
  exists r. split; [exact Hc|].
  destruct (revisions_move_forward "default" "web" [] _ _ _ _ _ (PassDemo.pass_runs None) (PassDemo.trace_at _ _ Hc)) as (g & l & _ & Hl & _).
  exists g, l. exact Hl.
Defined.

Lemma discovery_mode_is_decided_once_witness :
  exists ns name mode, PassDemo.trace !! 23%nat = Some (CallPatchMode ns name mode) /\
    (mode = LegacyDiscoveryConfigMode \/ mode = RefineDiscoveryConfigMode).
Proof.
  assert (exists ns name mode, PassDemo.trace !! 23%nat = Some (CallPatchMode ns name mode)) as (ns & name & mode & Hc)
    by (vm_compute; do 3 eexists; reflexivity).
  exists ns, name, mode. split; [exact Hc|].
  destruct (discovery_mode_is_decided_once "default" "web" [] _ _ _ _ _ _ _ (PassDemo.pass_runs None) (PassDemo.trace_at _ _ Hc))
    as (g & _ & _ & [Hm|[Hm _]]); [left; exact Hm|right; exact Hm].
Defined.

