(* ===== verification/Utf8.v ===== *)
(** UTF-8 text as Go sees it: a string is bytes, [range] over it decodes one rune at a
    time and turns a byte that starts none into U+FFFD (unicode/utf8), and writing a
    rune appends its encoding. *)
From Stdlib Require Import ZArith Lia Bool Ascii String.
From stdpp Require Import base tactics list strings.
From S2P Require Import Prelude GoStrings.

Definition byte_of (c : ascii) : Z := Z.of_nat (nat_of_ascii c).
Definition within (lo hi : Z) (c : ascii) : bool := (lo <=? byte_of c) && (byte_of c <=? hi).
Definition continuation : ascii -> bool := within 128 191.

(** How many bytes the rune at the front takes, if there is one. *)
Definition rune_width (l : list ascii) : option nat :=
  match l with
  | [] => None
  | b0 :: r =>
      if byte_of b0 <? 128 then Some 1%nat
      else if within 194 223 b0 then
        match r with b1 :: _ => if continuation b1 then Some 2%nat else None | _ => None end
      else if within 224 239 b0 then
        let lo := if byte_of b0 =? 224 then 160 else 128 in
        let hi := if byte_of b0 =? 237 then 159 else 191 in
        match r with b1 :: b2 :: _ => if within lo hi b1 && continuation b2 then Some 3%nat else None | _ => None end
      else if within 240 244 b0 then
        let lo := if byte_of b0 =? 240 then 144 else 128 in
        let hi := if byte_of b0 =? 244 then 143 else 191 in
        match r with
        | b1 :: b2 :: b3 :: _ => if within lo hi b1 && continuation b2 && continuation b3 then Some 4%nat else None
        | _ => None
        end
      else None
  end.

(** The encoding of U+FFFD, and of the ellipsis U+2026. *)
Definition RuneError : list ascii := [ascii_of_nat 239; ascii_of_nat 191; ascii_of_nat 189].
Definition ellipsis : list ascii := [ascii_of_nat 226; ascii_of_nat 128; ascii_of_nat 166].

(** The encodings of the runes of a text; every step takes a byte at least, so its
    length is fuel enough. *)
Fixpoint runes_from (fuel : nat) (l : list ascii) : list (list ascii) :=
  match fuel, l with
  | S fuel', _ :: _ =>
      match rune_width l with
      | Some w => take w l :: runes_from fuel' (drop w l)
      | None => RuneError :: runes_from fuel' (drop 1 l)
      end
  | _, _ => []
  end.

Definition runes (s : string) : list (list ascii) := runes_from (length (chars s)) (chars s).

(** Runes as long as they fit into [limit] bytes. *)
Fixpoint fitting_runes (limit used : nat) (rs : list (list ascii)) : list ascii :=
  match rs with
  | [] => []
  | r :: rs' => if (limit <? used + length r)%nat then [] else r ++ fitting_runes limit (used + length r) rs'
  end.

(** [unicode.IsSpace] of an encoded rune. *)
Definition space_codes : list (list Z) :=
  [[9]; [10]; [11]; [12]; [13]; [32]; [194; 133]; [194; 160]; [225; 154; 128]]
  ++ map (fun k => [226; 128; 128 + k]) (seqZ 0 11)
  ++ [[226; 128; 168]; [226; 128; 169]; [226; 128; 175]; [226; 129; 159]; [227; 128; 128]].

Definition is_space (r : list ascii) : bool := bool_decide (map byte_of r ∈ space_codes).

(** [strings.TrimSpace(s) == ""]. *)
Definition blank (s : string) : bool := forallb is_space (runes s).

(** * Lemmas *)

Lemma fitting_length limit rs : forall used, (used <= limit)%nat -> (used + length (fitting_runes limit used rs) <= limit)%nat.
Proof.
  induction rs as [|r rs IH]; intros used Hu; cbn [fitting_runes length]; [lia|].
  destruct (Nat.ltb_spec limit (used + length r)); cbn [length]; [lia|]. rewrite length_app. specialize (IH (used + length r)%nat). lia.
Qed.

(** A text of ASCII characters is its own runes. *)
Lemma runes_from_ascii l : forall fuel, (length l <= fuel)%nat -> Forall (fun c => byte_of c < 128) l ->
  runes_from fuel l = map (fun c => [c]) l.
Proof.
  induction l as [|c l IH]; intros fuel Hf Ha; destruct fuel as [|fuel]; cbn [length] in Hf; try done; try lia.
  apply Forall_cons in Ha as [Hc Ha]. cbn [runes_from rune_width]. rewrite (proj2 (Z.ltb_lt _ _) Hc). cbn [take drop map].
  rewrite IH; [done|lia|done].
Qed.

Example runes_mixed : length (runes (of_chars ([ascii_of_nat 255; "a"%char] ++ ellipsis))) = 3%nat.
Proof. reflexivity. Qed.
