(* ===== verification/WarmupActions.v ===== *)
(** Warmups (api/workloads/v1alpha2/rolebasedgroupwarmup_types.go) and the diagnostics
    of their customized actions
    (internal/controller/workloads/rolebasedgroupwarmup_customized_action.go): what the
    pod of an action says about it, which pod of a node counts, which older results are
    kept, how the results fit into the status, and the conditions they make.

    The JSON of the container mappings and the size of an encoded result are the class
    [WarmupCodec]; events are left out. *)
From Stdlib Require Import ZArith Lia Bool Ascii String.
From stdpp Require Import base tactics list strings gmap sets.
From S2P Require Import Prelude GoStrings Types Conditions Revisions Utf8.

(** * The API *)

Record WarmupContainer := {
  wc_Name : string;
  wc_Image : string;
  wc_Command : list string;
  wc_ImagePullPolicy : string;
  wc_rest : string
}.

(** The source of a volume is opaque. *)
Record WarmupVolume := { wv_Name : string; wv_Source : string }.

Record ImagePreloadAction := { ip_Images : list string; ip_PullSecrets : list string }.

Record CustomizedAction := {
  ca_Containers : list WarmupContainer;
  ca_Volumes : list WarmupVolume;
  ca_TimeoutSeconds : option Z;
  ca_CompletionPolicy : string
}.

Record WarmupAction := {
  wa_ImagePreload : option ImagePreloadAction;
  wa_CustomizedAction : option CustomizedAction
}.

Definition CustomizedActionStatePending : string := "Pending".
Definition CustomizedActionStateRunning : string := "Running".
Definition CustomizedActionStateSucceeded : string := "Succeeded".
Definition CustomizedActionStateFailed : string := "Failed".
Definition ContainerStateWaiting : string := "Waiting".
Definition ContainerStateRunning : string := "Running".
Definition ContainerStateSucceeded : string := "Succeeded".
Definition ContainerStateFailed : string := "Failed".

Record CustomizedActionContainerResult := {
  ccr_ContainerName : string;
  ccr_PodContainerName : string;
  ccr_State : string;
  ccr_ExitCode : option Z;
  ccr_TerminationReason : string;
  ccr_TerminationMessage : string
}.

Record CustomizedActionResult := {
  car_NodeName : string;
  car_PodName : string;
  car_State : string;
  car_Reason : string;
  car_Message : string;
  car_TimeoutSeconds : option Z;
  car_Containers : list CustomizedActionContainerResult
}.

#[export] Instance CustomizedActionContainerResult_eq_dec : EqDecision CustomizedActionContainerResult.
Proof. solve_decision. Defined.
#[export] Instance CustomizedActionResult_eq_dec : EqDecision CustomizedActionResult.
Proof. solve_decision. Defined.

(** * Pods, as far as a warmup looks at them *)

(** The state of a container is one of three structs, if any. *)
Inductive ContainerState :=
| StateRunning
| StateWaiting (reason message : string)
| StateTerminated (exitCode : Z) (reason message : string)
| StateUnset.

Record ContainerStatus := { cs_Name : string; cs_State : ContainerState }.

Record WarmupPodCondition := { wpc_Type : string; wpc_Status : string; wpc_Reason : string; wpc_Message : string }.

Record WarmupPod := {
  wp_meta : ObjectMeta;
  wp_Containers : list WarmupContainer;
  wp_Volumes : list WarmupVolume;
  wp_ImagePullSecrets : list string;
  wp_NodeName : string;
  wp_NodeSelector : labels;
  wp_Tolerations : string;
  wp_RestartPolicy : string;
  wp_ActiveDeadlineSeconds : option Z;
  wp_Phase : string;
  wp_Reason : string;
  wp_Message : string;
  wp_Conditions : list WarmupPodCondition;
  wp_ContainerStatuses : list ContainerStatus
}.

Definition wp_Name (p : WarmupPod) : string := om_Name (wp_meta p).
Definition wp_Labels (p : WarmupPod) : labels := om_Labels (wp_meta p).

Definition PodSucceeded : string := "Succeeded".
Definition PodFailed : string := "Failed".

Definition LabelWarmupName : string := "workloads.x-k8s.io/warmup-name".
Definition LabelWarmupUID : string := "workloads.x-k8s.io/warmup-uid".
Definition LabelNodeName : string := "workloads.x-k8s.io/node-name".
Definition LabelWarmupAttempt : string := "workloads.x-k8s.io/warmup-attempt".
Definition AnnotationCustomizedActionContainers : string := "workloads.x-k8s.io/customized-action-containers".

Definition CustomizedActionReasonCompleted : string := "Completed".
Definition CustomizedActionReasonContainerExitCode : string := "ContainerExitCode".
Definition CustomizedActionReasonContainerStartFailed : string := "ContainerStartFailed".
Definition CustomizedActionReasonImagePullFailed : string := "ImagePullFailed".
Definition CustomizedActionReasonTimeout : string := "Timeout".
Definition CustomizedActionReasonNodeNotSchedulable : string := "NodeNotSchedulable".
Definition CustomizedActionReasonPodFailed : string := "PodFailed".
Definition CustomizedActionReasonGlobalTimeout : string := "GlobalTimeoutExceeded".
Definition ConditionCustomizedActionComplete : string := "CustomizedActionComplete".
Definition ConditionCustomizedActionFailed : string := "CustomizedActionFailed".

Definition customizedActionTerminationMessageLimit : nat := 1024.
Definition customizedActionTerminationReasonLimit : nat := 128.
Definition customizedActionSummaryMessageLimit : nat := 256.
Definition customizedActionResultsMaxItems : Z := 1024.
Definition customizedActionContainersMaxItems : Z := 1024.
Definition customizedActionResultsStatusBudget : Z := 512 * 1024.

Record customizedActionContainerMapping := { map_PodContainerName : string; map_ContainerNames : list string }.

Class WarmupCodec := {
  marshal_mappings : list customizedActionContainerMapping -> result string;
  unmarshal_mappings : string -> result (list customizedActionContainerMapping);
  (* how many bytes json.Marshal makes of a result *)
  marshal_size : CustomizedActionResult -> option Z;
  (* what utils.HashContainer hashes of a container *)
  container_text : WarmupContainer -> string
}.

(** * Texts *)

Definition truncateCustomizedActionMessageTo (message : string) (maxBytes : nat) : string :=
  if (String.length message <=? maxBytes)%nat then message
  else of_chars (fitting_runes (maxBytes - length ellipsis) 0 (runes message) ++ ellipsis).

Definition truncateCustomizedActionMessage (message : string) : string :=
  truncateCustomizedActionMessageTo message customizedActionTerminationMessageLimit.

(** * The timeout of a pod *)

Definition minimum_step (minimum : option Z) (action : WarmupAction) : option Z :=
  match wa_CustomizedAction action ≫= ca_TimeoutSeconds with
  | None => minimum
  | Some t => match minimum with None => Some t | Some m => if t <? m then Some t else minimum end
  end.

Definition minimumCustomizedActionTimeout (actions : list WarmupAction) : option Z := fold_left minimum_step actions None.

(** * What a pod says *)

Section results.
Context `{SortSlice} `{WarmupCodec}.

Definition customizedActionMappingsFromPod (p : WarmupPod) : result (list customizedActionContainerMapping) :=
  let raw := label_of (om_Annotations (wp_meta p)) AnnotationCustomizedActionContainers in
  if bool_decide (raw = ""%string) then Ok []
  else match unmarshal_mappings raw with
       | Ok m => Ok m
       | Err e => Err ("decode customized action mappings: " +:+ e)
       end.

Definition is_custom (name : string) : bool := HasPrefix name "custom-".

Definition fallbackCustomizedActionMappings (p : WarmupPod) : list customizedActionContainerMapping :=
  map (fun c => {| map_PodContainerName := wc_Name c; map_ContainerNames := [wc_Name c] |})
    (List.filter (fun c => is_custom (wc_Name c)) (wp_Containers p)).

Definition status_by_name (p : WarmupPod) : gmap string ContainerState :=
  fold_left (fun m s => <[cs_Name s := cs_State s]> m) (wp_ContainerStatuses p) ∅.

Definition container_result (podName : string) (s : option ContainerState) (name : string) : CustomizedActionContainerResult :=
  let '(state, exitCode, reason, message) :=
    match s with
    | Some StateRunning => (ContainerStateRunning, None, "", "")%string
    | Some (StateWaiting reason message) =>
        (ContainerStateWaiting, None, truncateCustomizedActionMessageTo reason customizedActionTerminationReasonLimit,
         truncateCustomizedActionMessage message)
    | Some (StateTerminated code reason message) =>
        (if code =? 0 then ContainerStateSucceeded else ContainerStateFailed, Some code,
         truncateCustomizedActionMessageTo reason customizedActionTerminationReasonLimit, truncateCustomizedActionMessage message)
    | Some StateUnset | None => (ContainerStateWaiting, None, "", "")%string
    end in
  {| ccr_ContainerName := name; ccr_PodContainerName := podName; ccr_State := state; ccr_ExitCode := exitCode;
     ccr_TerminationReason := reason; ccr_TerminationMessage := message |}.

Definition evaluateCustomizedActionContainer (mapping : customizedActionContainerMapping) (statuses : gmap string ContainerState)
    : list CustomizedActionContainerResult :=
  map (container_result (map_PodContainerName mapping) (statuses !! map_PodContainerName mapping)) (map_ContainerNames mapping).

Definition unschedulable (c : WarmupPodCondition) : bool :=
  bool_decide (wpc_Type c = "PodScheduled"%string) && bool_decide (wpc_Status c = ConditionFalse)
  && bool_decide (wpc_Reason c = "Unschedulable"%string).

(** The first container of the mappings that waits for a reason that counts. *)
Fixpoint waiting_failure (p : WarmupPod) (statuses : gmap string ContainerState) (mappings : list customizedActionContainerMapping)
    : option (string * string * string) :=
  match mappings with
  | [] => None
  | m :: mappings' =>
      match statuses !! map_PodContainerName m with
      | Some (StateWaiting reason message) =>
          let containerName := match map_ContainerNames m with [] => map_PodContainerName m | names => Join names "," end in
          let text := truncateCustomizedActionMessage
            ("container=" +:+ containerName +:+ (if bool_decide (message = ""%string) then "" else ": " +:+ message)) in
          let state := if bool_decide (wp_Phase p = PodFailed) then CustomizedActionStateFailed else CustomizedActionStatePending in
          if bool_decide (reason ∈ ["ErrImagePull"; "ImagePullBackOff"]%string)
          then Some (state, CustomizedActionReasonImagePullFailed, text)
          else if bool_decide (reason ∈ ["CreateContainerConfigError"; "CreateContainerError"; "RunContainerError"]%string)
          then Some (state, CustomizedActionReasonContainerStartFailed, text)
          else waiting_failure p statuses mappings'
      | _ => waiting_failure p statuses mappings'
      end
  end.

Definition in_state (state : string) (c : CustomizedActionContainerResult) : bool := bool_decide (ccr_State c = state).

(** State, reason and message. *)
Definition aggregateCustomizedActionState (p : WarmupPod) (mappings : list customizedActionContainerMapping)
    (containers : list CustomizedActionContainerResult) (statuses : gmap string ContainerState) : string * string * string :=
  match List.find unschedulable (wp_Conditions p) with
  | Some c => (CustomizedActionStatePending, CustomizedActionReasonNodeNotSchedulable, truncateCustomizedActionMessage (wpc_Message c))
  | None =>
      if bool_decide (containers <> []) && forallb (in_state ContainerStateSucceeded) containers
      then (CustomizedActionStateSucceeded, CustomizedActionReasonCompleted, ""%string)
      else if bool_decide (wp_Reason p = "DeadlineExceeded"%string)
      then (CustomizedActionStateFailed, CustomizedActionReasonTimeout, truncateCustomizedActionMessage (wp_Message p))
      else match List.find (fun c => bool_decide (ccr_TerminationReason c ∈ ["ContainerCannotRun"; "StartError"]%string)) containers with
      | Some c => (CustomizedActionStateFailed, CustomizedActionReasonContainerStartFailed, ccr_TerminationMessage c)
      | None =>
          match List.find (in_state ContainerStateFailed) containers with
          | Some c => (CustomizedActionStateFailed, CustomizedActionReasonContainerExitCode, ccr_TerminationMessage c)
          | None =>
              match waiting_failure p statuses mappings with
              | Some r => r
              | None =>
                  if bool_decide (wp_Phase p = PodFailed)
                  then (CustomizedActionStateFailed, CustomizedActionReasonPodFailed,
                        truncateCustomizedActionMessage (if bool_decide (wp_Message p = ""%string) then wp_Reason p else wp_Message p))
                  else if existsb (in_state ContainerStateRunning) containers then (CustomizedActionStateRunning, "", "")%string
                  else (CustomizedActionStatePending, "", "")%string
              end
          end
      end
  end.

Definition evaluateCustomizedActionPod (p : WarmupPod) : CustomizedActionResult :=
  let read := customizedActionMappingsFromPod p in
  let mappings := match read with Ok (m :: ms) => m :: ms | _ => fallbackCustomizedActionMappings p end in
  let statuses := status_by_name p in
  let containers := concat (map (fun m => evaluateCustomizedActionContainer m statuses) mappings) in
  let '(state, reason, message) := aggregateCustomizedActionState p mappings containers statuses in
  {| car_NodeName := label_of (wp_Labels p) LabelNodeName; car_PodName := wp_Name p; car_State := state; car_Reason := reason;
     car_Message := match read with
                    | Err e => if bool_decide (message = ""%string) then e else message
                    | Ok _ => message
                    end;
     car_TimeoutSeconds := wp_ActiveDeadlineSeconds p; car_Containers := containers |}.

(** * Which nodes, which pods *)

Definition has_customized (a : WarmupAction) : bool := bool_decide (is_Some (const () <$> wa_CustomizedAction a)).

Definition customizedActionNodesFromDesired (desiredNodes : gmap string (list WarmupAction)) : gset string :=
  dom (filter (fun kv : string * list WarmupAction => existsb has_customized kv.2 = true) desiredNodes).

Definition podHasCustomizedAction (p : WarmupPod) : bool :=
  bool_decide (label_of (om_Annotations (wp_meta p)) AnnotationCustomizedActionContainers <> ""%string)
  || existsb (fun c => is_custom (wc_Name c)) (wp_Containers p).

Definition customizedActionDiagnosticNodes (desiredNodes : gmap string (list WarmupAction)) (pods : list WarmupPod)
    (previous : list CustomizedActionResult) : gset string :=
  customizedActionNodesFromDesired desiredNodes
  ∪ list_to_set (List.filter (fun n => negb (bool_decide (n = ""%string)))
      (map (fun p => label_of (wp_Labels p) LabelNodeName) (List.filter podHasCustomizedAction pods)
       ++ map car_NodeName previous)).

(** The attempt of a pod, when its label is a positive number. *)
Definition warmupPodAttempt (p : WarmupPod) : option Z :=
  match ParseInt (label_of (wp_Labels p) LabelWarmupAttempt) 64 with
  | Ok attempt => if 0 <? attempt then Some attempt else None
  | Err _ => None
  end.

Definition by_creation (candidate current : WarmupPod) : bool :=
  let c := om_CreationTimestamp (wp_meta candidate) in
  let d := om_CreationTimestamp (wp_meta current) in
  time_after c d || (time_equal c d && String.ltb (wp_Name current) (wp_Name candidate)).

Definition customizedActionPodIsNewer (candidate current : WarmupPod) : bool :=
  match warmupPodAttempt candidate, warmupPodAttempt current with
  | Some a, Some b => if a =? b then by_creation candidate current else b <? a
  | Some _, None => true
  | None, Some _ => false
  | None, None => by_creation candidate current
  end.

Definition latest_step (customizedNodes : gset string) (latestPods : gmap string WarmupPod) (p : WarmupPod) : gmap string WarmupPod :=
  let nodeName := label_of (wp_Labels p) LabelNodeName in
  if bool_decide (nodeName = ""%string) || negb (bool_decide (nodeName ∈ customizedNodes))
     || bool_decide (is_Some (om_DeletionTimestamp (wp_meta p))) then latestPods
  else match latestPods !! nodeName with
       | None => <[nodeName := p]> latestPods
       | Some current => if customizedActionPodIsNewer p current then <[nodeName := p]> latestPods else latestPods
       end.

Definition node_less (a b : CustomizedActionResult) : bool := String.ltb (car_NodeName a) (car_NodeName b).

Definition evaluateCustomizedActionResultsForNodes (customizedNodes : gset string) (pods : list WarmupPod) : list CustomizedActionResult :=
  sort_slice node_less
    (map (fun kv => evaluateCustomizedActionPod kv.2) (map_to_list (fold_left (latest_step customizedNodes) pods ∅))).

(** * Keeping older results *)

Definition customizedActionObservationRegressed (previous observed : CustomizedActionResult) (podsByName : gmap string WarmupPod) : bool :=
  if bool_decide (car_PodName previous = car_PodName observed) then false
  else match podsByName !! car_PodName previous, podsByName !! car_PodName observed with
       | Some previousPod, Some observedPod => negb (customizedActionPodIsNewer observedPod previousPod)
       | _, _ => bool_decide (car_State observed = CustomizedActionStateFailed)
       end.

(** An observed result, or the recorded one it would set back. *)
Definition preserved (previousByNode : gmap string CustomizedActionResult) (podsByName : gmap string WarmupPod)
    (observed : CustomizedActionResult) : CustomizedActionResult * bool :=
  match previousByNode !! car_NodeName observed with
  | Some old => if customizedActionObservationRegressed old observed podsByName then (old, true) else (observed, false)
  | None => (observed, false)
  end.

Definition preserveCustomizedActionResultsForNodes (customizedNodes : gset string) (previous observed : list CustomizedActionResult)
    (pods : list WarmupPod) : list CustomizedActionResult * bool :=
  let previousByNode := fold_left (fun m r => <[car_NodeName r := r]> m) previous ∅ in
  let podsByName := fold_left (fun m p => <[wp_Name p := p]> m) pods ∅ in
  let kept := map (preserved previousByNode podsByName) observed in
  let observedNodes := map car_NodeName observed in
  let unseen := List.filter (fun r => bool_decide (car_NodeName r ∈ customizedNodes)
                                      && negb (bool_decide (car_NodeName r ∈ observedNodes))) previous in
  let results := map fst kept ++ unseen in
  match results with
  | [] => ([], false)
  | _ => (sort_slice node_less results, existsb snd kept || bool_decide (unseen <> []))
  end.

(** * Fitting the results into the status *)

Definition customizedActionResultSummary (r : CustomizedActionResult) : CustomizedActionResult := {|
  car_NodeName := car_NodeName r; car_PodName := car_PodName r; car_State := car_State r; car_Reason := car_Reason r;
  car_Message := if bool_decide (car_State r = CustomizedActionStateSucceeded) then ""
                 else truncateCustomizedActionMessageTo (car_Message r) customizedActionSummaryMessageLimit;
  car_TimeoutSeconds := car_TimeoutSeconds r; car_Containers := [] |}.

Definition customizedActionResultPriority (state : string) : Z :=
  if bool_decide (state = CustomizedActionStateFailed) then 0
  else if bool_decide (state = CustomizedActionStateRunning) then 1
  else if bool_decide (state = CustomizedActionStatePending) then 2
  else 3.

Definition priority_less (a b : CustomizedActionResult) : bool :=
  let l := customizedActionResultPriority (car_State a) in
  let r := customizedActionResultPriority (car_State b) in
  if l =? r then String.ltb (car_NodeName a) (car_NodeName b) else l <? r.

(** What is kept of a result, the result itself, and the size of what is kept. *)
Record entry := { en_kept : CustomizedActionResult; en_original : CustomizedActionResult; en_size : Z }.

Definition comma (limited : list entry) : Z := match limited with [] => 0 | _ => 1 end.

Fixpoint keep_summaries (ordered : list CustomizedActionResult) (limited : list entry) (usedBytes : Z) : list entry * Z :=
  match ordered with
  | [] => (limited, usedBytes)
  | r :: ordered' =>
      if Z.of_nat (length limited) =? customizedActionResultsMaxItems then (limited, usedBytes)
      else
        let summary := customizedActionResultSummary r in
        match marshal_size summary with
        | None => keep_summaries ordered' limited usedBytes
        | Some n =>
            let entrySize := n + comma limited in
            if customizedActionResultsStatusBudget <? usedBytes + entrySize then keep_summaries ordered' limited usedBytes
            else keep_summaries ordered' (limited ++ [{| en_kept := summary; en_original := r; en_size := n |}]) (usedBytes + entrySize)
        end
  end.

(** Full detail for what still fits, in order. *)
Fixpoint spend_rest (limited : list entry) (usedBytes : Z) : list entry * Z :=
  match limited with
  | [] => ([], usedBytes)
  | e :: limited' =>
      let skip := let '(l, u) := spend_rest limited' usedBytes in (e :: l, u) in
      if customizedActionContainersMaxItems <? Z.of_nat (length (car_Containers (en_original e))) then skip
      else match marshal_size (en_original e) with
      | None => skip
      | Some n =>
          let delta := n - en_size e in
          if (delta <=? 0) || (customizedActionResultsStatusBudget <? usedBytes + delta) then skip
          else let '(l, u) := spend_rest limited' (usedBytes + delta) in
               ({| en_kept := en_original e; en_original := en_original e; en_size := n |} :: l, u)
      end
  end.

Definition limitCustomizedActionResults (results : list CustomizedActionResult) : list CustomizedActionResult * bool :=
  match results with
  | [] => ([], false)
  | _ =>
      let ordered := insertion_sort priority_less results in
      let '(limited, usedBytes) := keep_summaries ordered [] 2 in
      let '(limited, _) := spend_rest limited usedBytes in
      let truncated := bool_decide (length limited <> length results)
                       || existsb (fun e => negb (bool_decide (en_kept e = en_original e))) limited in
      (sort_slice node_less (map en_kept limited), truncated)
  end.
End results.

(** * Conditions *)

Definition action_condition (type reason message : string) (generation : Z) : Condition := {|
  c_Type := type; c_Status := ConditionTrue; c_ObservedGeneration := generation; c_LastTransitionTime := None;
  c_Reason := reason; c_Message := message |}.

(** [now] is the time a condition that appears is stamped with. *)
Definition updateCustomizedActionConditions (now : Z) (conditions : list Condition) (generation : Z)
    (results : list CustomizedActionResult) (permanentlyFailedNodes : gset string) (globallyTimedOut : bool)
    (desiredCustomizedActionNodes : Z) : list Condition :=
  let without type l := (RemoveStatusCondition type l).1 in
  if (desiredCustomizedActionNodes =? 0) || (bool_decide (results = []) && negb globallyTimedOut)
  then without ConditionCustomizedActionFailed (without ConditionCustomizedActionComplete conditions)
  else
    let terminalFailure := List.find (fun r => bool_decide (car_NodeName r ∈ permanentlyFailedNodes)
                                               && bool_decide (car_State r = CustomizedActionStateFailed)) results in
    if (Z.of_nat (length results) =? desiredCustomizedActionNodes)
       && forallb (fun r => bool_decide (car_State r = CustomizedActionStateSucceeded)) results
    then (SetStatusCondition now (action_condition ConditionCustomizedActionComplete "AllActionsSucceeded"
            "All customized actions completed successfully" generation) (without ConditionCustomizedActionFailed conditions)).1
    else
      let cleared := without ConditionCustomizedActionComplete conditions in
      match globallyTimedOut, terminalFailure with
      | true, _ =>
          (SetStatusCondition now (action_condition ConditionCustomizedActionFailed CustomizedActionReasonGlobalTimeout
             "Customized action execution was terminated by the global timeout" generation) cleared).1
      | false, Some r =>
          (SetStatusCondition now (action_condition ConditionCustomizedActionFailed (car_Reason r)
             (if bool_decide (car_Message r = ""%string)
              then "Customized action permanently failed on node " +:+ car_NodeName r else car_Message r) generation) cleared).1
      | false, None => without ConditionCustomizedActionFailed cleared
      end.

(** * Texts *)

Lemma length_of_chars l : String.length (of_chars l) = length l.
Proof. induction l as [|c l IH]; [done|]. cbn. by rewrite IH. Qed.

Lemma truncate_length message maxBytes :
  (3 <= maxBytes)%nat -> (String.length (truncateCustomizedActionMessageTo message maxBytes) <= maxBytes)%nat.
Proof.
  intros Hmax. unfold truncateCustomizedActionMessageTo. destruct (Nat.leb_spec (String.length message) maxBytes); [done|].
  rewrite length_of_chars, length_app. pose proof (fitting_length (maxBytes - length ellipsis) (runes message) 0%nat ltac:(lia)).
  change (length ellipsis) with 3%nat in *. lia.
Qed.

(** * Entries *)

Section results.
Context `{SortSlice} `{WarmupCodec}.

(** The bytes of a list of entries: brackets, entries and commas. *)
Definition encoded (entries : list entry) : Z := 2 + foldr (fun e acc => en_size e + acc) 0 entries + Z.max 0 (Z.of_nat (length entries) - 1).

Definition sized (e : entry) : Prop :=
  marshal_size (en_kept e) = Some (en_size e) /\
  (en_kept e = en_original e \/ en_kept e = customizedActionResultSummary (en_original e)).

Lemma encoded_snoc entries e : encoded (entries ++ [e]) = encoded entries + en_size e + comma entries.
Proof.
  unfold encoded, comma. rewrite foldr_app, length_app. cbn [foldr length].
  assert (forall z, foldr (fun e acc => en_size e + acc) z entries = foldr (fun e acc => en_size e + acc) 0 entries + z) as ->.
  { intros z. clear. induction entries as [|x l IH]; cbn [foldr]; [|rewrite IH]; lia. }
  destruct entries; cbn [length]; lia.
Qed.

Lemma keep_summaries_spec ordered limited used limited' used' :
  keep_summaries ordered limited used = (limited', used') ->
  used = encoded limited -> used <= customizedActionResultsStatusBudget ->
  Z.of_nat (length limited) <= customizedActionResultsMaxItems -> Forall sized limited ->
  used' = encoded limited' /\ used' <= customizedActionResultsStatusBudget /\
  Z.of_nat (length limited') <= customizedActionResultsMaxItems /\ Forall sized limited' /\
  exists more, limited' = limited ++ more /\ map en_original more `sublist_of` ordered.
Proof.
  revert limited used. induction ordered as [|r ordered IH]; intros limited used; cbn [keep_summaries].
  { intros [= <- <-] Hu Hb Hl Hf. split_and!; [done..|]. exists []. rewrite app_nil_r. split; [done|constructor]. }
  destruct (Z.eqb_spec (Z.of_nat (length limited)) customizedActionResultsMaxItems) as [|Hne].
  { intros [= <- <-] Hu Hb Hl Hf. split_and!; [done..|]. exists []. rewrite app_nil_r. split; [done|apply sublist_nil_l]. }
  assert (keep_summaries ordered limited used = (limited', used') ->
            used = encoded limited -> used <= customizedActionResultsStatusBudget ->
            Z.of_nat (length limited) <= customizedActionResultsMaxItems -> Forall sized limited ->
            used' = encoded limited' /\ used' <= customizedActionResultsStatusBudget /\
            Z.of_nat (length limited') <= customizedActionResultsMaxItems /\ Forall sized limited' /\
            exists more, limited' = limited ++ more /\ map en_original more `sublist_of` r :: ordered) as Hskip.
  { intros Hk Hu Hb Hl Hf. destruct (IH _ _ Hk Hu Hb Hl Hf) as (? & ? & ? & ? & more & -> & Hs).
    split_and!; [done..|]. exists more. split; [done|]. by apply sublist_cons. }
  destruct (marshal_size _) as [n|] eqn:Hn; [|by apply Hskip].
  destruct (Z.ltb_spec customizedActionResultsStatusBudget (used + (n + comma limited))) as [|Hfit]; [by apply Hskip|].
  intros Hk Hu Hb Hl Hf. apply IH in Hk.
  - destruct Hk as (? & ? & ? & ? & more & -> & Hs). split_and!; [done..|].
    exists ({| en_kept := customizedActionResultSummary r; en_original := r; en_size := n |} :: more).
    rewrite <-app_assoc. split; [done|]. by apply sublist_skip.
  - rewrite encoded_snoc. cbn [en_size]. lia.
  - done.
  - rewrite length_app. cbn. lia.
  - apply Forall_app. split; [done|]. constructor; [|done]. split; [done|by right].
Qed.

Lemma spend_rest_spec limited used limited' used' base :
  spend_rest limited used = (limited', used') -> used = base + foldr (fun e acc => en_size e + acc) 0 limited ->
  used <= customizedActionResultsStatusBudget -> Forall sized limited ->
  used' = base + foldr (fun e acc => en_size e + acc) 0 limited' /\ used' <= customizedActionResultsStatusBudget /\
  Forall sized limited' /\ map en_original limited' = map en_original limited.
Proof.
  revert limited' used used' base. induction limited as [|e l IH]; intros limited' used used' base; cbn [spend_rest].
  { by intros [= <- <-]. }
  intros Hr Hu Hb Hf. inversion_clear Hf as [|? ? He Hl]. cbn [foldr] in Hu.
  assert (forall e' u, en_original e' = en_original e -> sized e' -> u = base + en_size e' + foldr (fun e acc => en_size e + acc) 0 l ->
            u <= customizedActionResultsStatusBudget ->
            (let '(l1, u1) := spend_rest l u in (e' :: l1, u1)) = (limited', used') ->
            used' = base + foldr (fun e acc => en_size e + acc) 0 limited' /\ used' <= customizedActionResultsStatusBudget /\
            Forall sized limited' /\ map en_original limited' = map en_original (e :: l)) as Hstep.
  { intros e' u Ho Hs Hu' Hb' Hrun. destruct (spend_rest l u) as [l1 u1] eqn:Hl1. injection Hrun as <- <-.
    destruct (IH _ _ _ (base + en_size e') Hl1) as (-> & Hub & Hfl & Hm); [lia|done|done|].
    split_and!; [cbn [foldr]; lia|done|by constructor|]. cbn [map]. by rewrite Ho, Hm. }
  destruct (_ <? Z.of_nat (length (car_Containers (en_original e)))); [eapply (Hstep e used); [done|done|lia|done|exact Hr]|].
  destruct (marshal_size (en_original e)) as [n|] eqn:Hn; [|eapply (Hstep e used); [done|done|lia|done|exact Hr]].
  destruct ((n - en_size e <=? 0) || (customizedActionResultsStatusBudget <? used + (n - en_size e))) eqn:Hd;
    [eapply (Hstep e used); [done|done|lia|done|exact Hr]|].
  apply orb_false_iff in Hd. destruct Hd as [_ Hd%Z.ltb_ge].
  eapply (Hstep {| en_kept := en_original e; en_original := en_original e; en_size := n |}); [done| | |exact Hd|exact Hr].
  - split; [done|by left].
  - cbn [en_size]. lia.
Qed.

(** The bytes of results, as the encoder measures each. *)
Definition encoded_results (l : list CustomizedActionResult) : Z :=
  2 + foldr (fun r acc => default 0 (marshal_size r) + acc) 0 l + Z.max 0 (Z.of_nat (length l) - 1).

Lemma encoded_results_perm l l' : l ≡ₚ l' -> encoded_results l = encoded_results l'.
Proof.
  intros Hp. unfold encoded_results. rewrite (Permutation_length Hp). f_equal. f_equal. induction Hp; cbn [foldr]; lia.
Qed.

(** However many results there are and however long: those kept number at most 1024 and
    take at most 512 KiB, each is a result as it is or its summary, and unless the list
    is marked as truncated it holds exactly the results. *)
Theorem results_fit_the_status results :
  let '(kept, truncated) := limitCustomizedActionResults results in
  Z.of_nat (length kept) <= 1024 /\ encoded_results kept <= 512 * 1024 /\
  (forall r, r ∈ kept -> exists r0, r0 ∈ results /\ (r = r0 \/ r = customizedActionResultSummary r0)) /\
  (truncated = false -> kept ≡ₚ results).
Proof.
  unfold limitCustomizedActionResults. destruct results as [|r0 rs] eqn:Hrs.
  { split_and!; [cbn; lia|unfold encoded_results; cbn; lia|intros r Hr; by apply elem_of_nil in Hr|done]. }
  rewrite <-Hrs. set (ordered := insertion_sort priority_less results).
  assert (ordered ≡ₚ results) as Hord by apply insertion_sort_perm.
  destruct (keep_summaries ordered [] 2) as [limited used] eqn:Hkeep.
  apply keep_summaries_spec in Hkeep; [|done|unfold customizedActionResultsStatusBudget; lia|unfold customizedActionResultsMaxItems; cbn; lia|constructor].
  destruct Hkeep as (Hu & Hb & Hl & Hf & more & Hmore & Hsub). cbn [app] in Hmore. subst more.
  destruct (spend_rest limited used) as [final used'] eqn:Hspend.
  apply (spend_rest_spec _ _ _ _ (2 + Z.max 0 (Z.of_nat (length limited) - 1))) in Hspend; [|rewrite Hu; unfold encoded; lia|done|done].
  destruct Hspend as (Hu' & Hb' & Hf' & Horig).
  assert (length final = length limited) as Hlen by (pose proof (f_equal length Horig) as E; by rewrite !length_map in E).
  assert (map en_original final ⊆+ results) as Hsubm.
  { rewrite Horig. rewrite <-Hord. by apply sublist_submseteq. }
  split_and!.
  - rewrite sort_slice_perm, length_map, Hlen. exact Hl.
  - rewrite (encoded_results_perm _ _ (sort_slice_perm node_less _)). etrans; [|exact Hb']. rewrite Hu'.
    unfold encoded_results. rewrite length_map, Hlen.
    assert (foldr (fun r acc => default 0 (marshal_size r) + acc) 0 (map en_kept final) = foldr (fun e acc => en_size e + acc) 0 final) as ->; [|lia].
    clear -Hf'. induction Hf' as [|e l [He _] _ IH]; [done|]. cbn [map foldr]. by rewrite IH, He.
  - intros r. rewrite sort_slice_perm. intros (e & -> & He)%list_elem_of_fmap. exists (en_original e). split.
    + eapply elem_of_submseteq; [|exact Hsubm]. apply list_elem_of_fmap. by exists e.
    + rewrite Forall_forall in Hf'. by apply Hf'.
  - intros [Hlen' Hsame]%orb_false_iff. apply bool_decide_eq_false, dec_stable in Hlen'. rewrite sort_slice_perm.
    assert (map en_kept final = map en_original final) as ->.
    { clear -Hsame. induction final as [|e l IH]; [done|]. cbn [existsb map] in *. apply orb_false_iff in Hsame. destruct Hsame as [He Hl].
      apply negb_false_iff, bool_decide_eq_true in He. by rewrite He, IH. }
    apply submseteq_length_Permutation; [done|]. rewrite length_map. lia.
Qed.
End results.
