(* ===== verification/Warmup.v ===== *)
(** The controller of a RoleBasedGroupWarmup
    (internal/controller/workloads/rolebasedgroupwarmup_controller.go): it runs one pod
    on every node that is to be warmed up, within the parallelism and the tolerated
    failures of its policy, and ends in a terminal phase.

    Durations are nanoseconds.  Events and logs are left out.  The status a write
    answers with is what the pass goes on with, as in the code. *)
From Stdlib Require Import ZArith Lia Bool Ascii String.
From stdpp Require Import base tactics list strings gmap sets.
From S2P Require Import Prelude GoStrings Utf8 Types Conditions GroupTypes Effects Revisions Owners Requests.
From S2P Require Import ScalingAdapter GroupRevisions WarmupActions.

(** * The API *)

Definition WarmupJobPhaseNone : string := "".
Definition WarmupJobPhaseRunning : string := "Running".
Definition WarmupJobPhasePaused : string := "Paused".
Definition WarmupJobPhaseCompleted : string := "Completed".
Definition WarmupJobPhaseFailed : string := "Failed".
Definition CompletionPolicyAllSucceeded : string := "AllSucceeded".

Record TargetNodes := {
  tn_NodeNames : list string;
  tn_NodeSelector : option labels;
  tn_Actions : WarmupAction
}.

Record TargetRoleBasedGroup := { tg_Name : string; tg_Roles : gmap string WarmupAction }.

Record WarmupPolicies := {
  pol_Parallelism : option Z;
  pol_BackoffLimitPerNode : option Z;
  pol_MaxFailedNodes : option Z;
  pol_GlobalTimeoutSeconds : option Z;
  pol_TTLSecondsAfterFinished : option Z
}.

Record WarmupSpec := {
  wsp_Paused : option bool;
  wsp_Policies : option WarmupPolicies;
  wsp_TargetNodes : option TargetNodes;
  wsp_TargetGroup : option TargetRoleBasedGroup;
  wsp_Tolerations : string
}.

Record WarmupStatus := {
  wst_StartTime : gotime;
  wst_CompletionTime : gotime;
  wst_Phase : string;
  wst_Desired : Z;
  wst_Active : Z;
  wst_Succeeded : Z;
  wst_Failed : Z;
  wst_Conditions : list Condition;
  wst_Results : list CustomizedActionResult;
  wst_Truncated : bool
}.

#[export] Instance WarmupStatus_eq_dec : EqDecision WarmupStatus.
Proof. solve_decision. Defined.

Record Warmup := { wu_meta : ObjectMeta; wu_spec : WarmupSpec; wu_status : WarmupStatus }.

Definition with_wstatus (s : WarmupStatus) (w : Warmup) : Warmup := {| wu_meta := wu_meta w; wu_spec := wu_spec w; wu_status := s |}.
Definition with_phase (phase : string) (s : WarmupStatus) : WarmupStatus := {|
  wst_StartTime := wst_StartTime s; wst_CompletionTime := wst_CompletionTime s; wst_Phase := phase; wst_Desired := wst_Desired s;
  wst_Active := wst_Active s; wst_Succeeded := wst_Succeeded s; wst_Failed := wst_Failed s; wst_Conditions := wst_Conditions s;
  wst_Results := wst_Results s; wst_Truncated := wst_Truncated s |}.
Definition with_wconditions (l : list Condition) (s : WarmupStatus) : WarmupStatus := {|
  wst_StartTime := wst_StartTime s; wst_CompletionTime := wst_CompletionTime s; wst_Phase := wst_Phase s; wst_Desired := wst_Desired s;
  wst_Active := wst_Active s; wst_Succeeded := wst_Succeeded s; wst_Failed := wst_Failed s; wst_Conditions := l;
  wst_Results := wst_Results s; wst_Truncated := wst_Truncated s |}.
Definition with_start (t : gotime) (s : WarmupStatus) : WarmupStatus := {|
  wst_StartTime := t; wst_CompletionTime := wst_CompletionTime s; wst_Phase := wst_Phase s; wst_Desired := wst_Desired s;
  wst_Active := wst_Active s; wst_Succeeded := wst_Succeeded s; wst_Failed := wst_Failed s; wst_Conditions := wst_Conditions s;
  wst_Results := wst_Results s; wst_Truncated := wst_Truncated s |}.
Definition with_completion (t : gotime) (s : WarmupStatus) : WarmupStatus := {|
  wst_StartTime := wst_StartTime s; wst_CompletionTime := t; wst_Phase := wst_Phase s; wst_Desired := wst_Desired s;
  wst_Active := wst_Active s; wst_Succeeded := wst_Succeeded s; wst_Failed := wst_Failed s; wst_Conditions := wst_Conditions s;
  wst_Results := wst_Results s; wst_Truncated := wst_Truncated s |}.
Definition with_counts (desired active succeeded failed : Z) (s : WarmupStatus) : WarmupStatus := {|
  wst_StartTime := wst_StartTime s; wst_CompletionTime := wst_CompletionTime s; wst_Phase := wst_Phase s; wst_Desired := desired;
  wst_Active := active; wst_Succeeded := succeeded; wst_Failed := failed; wst_Conditions := wst_Conditions s;
  wst_Results := wst_Results s; wst_Truncated := wst_Truncated s |}.
Definition with_results (l : list CustomizedActionResult) (truncated : bool) (s : WarmupStatus) : WarmupStatus := {|
  wst_StartTime := wst_StartTime s; wst_CompletionTime := wst_CompletionTime s; wst_Phase := wst_Phase s; wst_Desired := wst_Desired s;
  wst_Active := wst_Active s; wst_Succeeded := wst_Succeeded s; wst_Failed := wst_Failed s; wst_Conditions := wst_Conditions s;
  wst_Results := l; wst_Truncated := truncated |}.

Definition wu_Namespace (w : Warmup) : string := om_Namespace (wu_meta w).
Definition wu_Name (w : Warmup) : string := om_Name (wu_meta w).
Definition wu_Phase (w : Warmup) : string := wst_Phase (wu_status w).

Definition MaxRequeueDelay : Z := 10 * (60 * second).
Definition TargetWaitRequeuePeriod : Z := 10 * second.
Definition millisecond : Z := 1000000.

Definition ConditionTargetReady : string := "TargetReady".
Definition ConditionComplete : string := "Complete".
Definition ConditionFailed : string := "Failed".
Definition ConditionUnknown : string := "Unknown".
Definition ReasonInvalidTarget : string := "InvalidTarget".

Definition policy {A} (field : WarmupPolicies -> option A) (w : Warmup) : option A := wsp_Policies (wu_spec w) ≫= field.

(** * Time *)

(** The difference of two instants saturates. *)
Definition time_sub (a b : Z) : Z := Z.max int64_min (Z.min int64_max (a - b)).

(** A number of seconds as a duration; the product wraps. *)
Definition seconds (n : Z) : Z := int64 (n * second).

(** The deadline counts from the creation. *)
Definition globalTimeoutDeadline (w : Warmup) : option Z :=
  match policy pol_GlobalTimeoutSeconds w, om_CreationTimestamp (wu_meta w) with
  | Some n, Some t => Some (t + seconds n)
  | _, _ => None
  end.

Definition globalTimeoutExpired (now : Z) (w : Warmup) : bool :=
  match globalTimeoutDeadline w with Some d => d <=? now | None => false end.

Definition globalTimeoutRemaining (now : Z) (w : Warmup) : option Z :=
  match globalTimeoutDeadline w with Some d => Some (time_sub d now) | None => None end.

Definition finished (w : Warmup) : bool :=
  bool_decide (wu_Phase w = WarmupJobPhaseCompleted) || bool_decide (wu_Phase w = WarmupJobPhaseFailed).

Definition requeueForTimeout (now : Z) (w : Warmup) : Z :=
  if finished w then 0
  else match globalTimeoutRemaining now w with
       | None => 0
       | Some remaining => if remaining <=? 0 then 0 else Z.min remaining MaxRequeueDelay
       end.

Definition targetWaitRequeueAfter (now : Z) (w : Warmup) : Z :=
  match globalTimeoutRemaining now w with
  | None => TargetWaitRequeuePeriod
  | Some remaining => if remaining <=? 0 then millisecond else Z.min TargetWaitRequeuePeriod remaining
  end.

(** * Validation *)

(** The index of the first element that fails. *)
Fixpoint first_index {A} (f : A -> bool) (i : Z) (l : list A) : option Z :=
  match l with [] => None | x :: l' => if f x then Some i else first_index f (i + 1) l' end.

Definition validate_preload (target : string) (ip : ImagePreloadAction) : option error :=
  match ip_Images ip with
  | [] => Some (target +:+ ".imagePreload.images must contain at least one image")
  | images =>
      match first_index blank 0 images with
      | Some i => Some (target +:+ ".imagePreload.images[" +:+ Itoa i +:+ "] must not be empty")
      | None => None
      end
  end.

Definition validate_customized (target : string) (ca : CustomizedAction) : option error :=
  match ca_Containers ca with
  | [] => Some (target +:+ ".customizedAction.containers must contain at least one container")
  | containers =>
      match first_index (fun c => blank (wc_Image c)) 0 containers with
      | Some i => Some (target +:+ ".customizedAction.containers[" +:+ Itoa i +:+ "].image must not be empty")
      | None =>
          if match ca_TimeoutSeconds ca with Some t => t <=? 0 | None => false end
          then Some (target +:+ ".customizedAction.timeoutSeconds must be greater than 0")
          else if negb (bool_decide (ca_CompletionPolicy ca = ""%string))
                  && negb (bool_decide (ca_CompletionPolicy ca = CompletionPolicyAllSucceeded))
          then Some (target +:+ ".customizedAction has unsupported completionPolicy " +:+ quoted (ca_CompletionPolicy ca))
          else None
      end
  end.

Definition validateWarmupActions (target : string) (a : WarmupAction) : option error :=
  match wa_ImagePreload a ≫= validate_preload target with
  | Some e => Some e
  | None => wa_CustomizedAction a ≫= validate_customized target
  end.

Fixpoint first_some {A B} (f : A -> option B) (l : list A) : option B :=
  match l with [] => None | x :: l' => match f x with Some y => Some y | None => first_some f l' end end.

Section warmup.
Context `{MapRange} `{SortSlice} `{WarmupCodec}.

Definition validateWarmupSpec (spec : WarmupSpec) : option error :=
  match wsp_TargetNodes spec ≫= (fun tn => validateWarmupActions "spec.targetNodes" (tn_Actions tn)) with
  | Some e => Some e
  | None =>
      match wsp_TargetGroup spec with
      | None => None
      | Some tg =>
          first_some (fun roleName => tg_Roles tg !! roleName ≫= validateWarmupActions ("spec.targetRoleBasedGroup.roles[" +:+ quoted roleName +:+ "]"))
            (sort_slice String.ltb (map fst (map_range (tg_Roles tg))))
      end
  end.

(** * Nodes *)

Definition nodes_of (pods : list WarmupPod) : gset string := list_to_set (omap (fun p => wp_Labels p !! LabelNodeName) pods).

Definition countUnsucceededNodes (succeededPods failedPods : list WarmupPod) : Z :=
  int32 (Z.of_nat (size (nodes_of failedPods ∖ nodes_of succeededPods))).

(** How often each node failed. *)
Definition fail_counts (failedPods : list WarmupPod) : gmap string Z :=
  fold_left (fun m p => match wp_Labels p !! LabelNodeName with
                        | Some n => <[n := default 0 (m !! n) + 1]> m
                        | None => m
                        end) failedPods ∅.

Definition computePermanentlyFailedNodes (failedPods : list WarmupPod) (backoffLimit : option Z) : gset string :=
  match backoffLimit with
  | None => ∅
  | Some limit => dom (filter (fun kv : string * Z => limit < int32 kv.2) (fail_counts failedPods))
  end.

Definition collectPendingNodes (desiredNodes : gmap string (list WarmupAction)) (activePods succeededPods : list WarmupPod)
    (permanentlyFailedNodes : gset string) : list string :=
  sort_slice String.ltb (List.filter (fun n => negb (bool_decide (n ∈ permanentlyFailedNodes))
                                               && negb (bool_decide (n ∈ nodes_of activePods ∪ nodes_of succeededPods)))
                           (map fst (map_range desiredNodes))).

Definition warmupReachedTerminalState (desiredNodes : gmap string (list WarmupAction)) (activePods succeededPods : list WarmupPod)
    (permanentlyFailedNodes : gset string) (targetPending : Z) : bool :=
  if bool_decide (desiredNodes = ∅) then bool_decide (activePods = []) && (targetPending =? 0)
  else if negb (bool_decide (activePods = [])) then false
  else (size (dom desiredNodes) <=? size ((nodes_of succeededPods ∪ permanentlyFailedNodes) ∩ dom desiredNodes))%nat.

(** The number of the next attempt on each node that failed. *)
Definition attempt_step (maxAttempts : gmap string Z) (p : WarmupPod) : gmap string Z :=
  let nodeName := label_of (wp_Labels p) LabelNodeName in
  if bool_decide (nodeName = ""%string) then maxAttempts
  else match warmupPodAttempt p with
       | Some a => if default 0 (maxAttempts !! nodeName) <? a then <[nodeName := a]> maxAttempts else maxAttempts
       | None => maxAttempts
       end.

Definition named_fail_counts (failedPods : list WarmupPod) : gmap string Z :=
  fold_left (fun m p => let n := label_of (wp_Labels p) LabelNodeName in
                        if bool_decide (n = ""%string) then m else <[n := default 0 (m !! n) + 1]> m) failedPods ∅.

Definition nextWarmupAttempts (failedPods : list WarmupPod) : gmap string Z :=
  (fun n => int64 (n + 1)) <$>
    union_with (fun a b => Some (Z.max a b)) (fold_left attempt_step failedPods ∅) (named_fail_counts failedPods).

(** * The target *)

Definition isLiveScheduledTargetPod (p : WarmupPod) : bool :=
  bool_decide (om_DeletionTimestamp (wp_meta p) = None) && negb (bool_decide (wp_NodeName p = ""%string))
  && negb (bool_decide (wp_Phase p = PodSucceeded)) && negb (bool_decide (wp_Phase p = PodFailed)).

Definition expected_step (selectedRoles : gmap string WarmupAction) (m : gmap string Z) (role : RoleSpec) : gmap string Z :=
  match selectedRoles !! role_Name role with
  | None => m
  | Some _ => <[role_Name role := default 0 (m !! role_Name role)
                                  + ComputeSubGroupSize (Some role) * Z.max (default 1 (role_Replicas role)) 0]> m
  end.

Definition scheduled_in (pods : list WarmupPod) (roleName : string) : Z :=
  Z.of_nat (length (List.filter (fun p => isLiveScheduledTargetPod p && bool_decide (wp_Labels p !! RoleNameLabelKey = Some roleName)) pods)).

Definition countTargetPodsNotReady (g : RoleBasedGroup) (pods : list WarmupPod) (selectedRoles : gmap string WarmupAction) : Z :=
  let expectedByRole := fold_left (expected_step selectedRoles) (rbg_Roles g) ∅ in
  foldr (fun kv acc => Z.max (kv.2 - scheduled_in pods kv.1) 0 + acc) 0 (map_to_list expectedByRole).

Definition add_action (a : WarmupAction) (m : gmap string (list WarmupAction)) (node : string) : gmap string (list WarmupAction) :=
  <[node := default [] (m !! node) ++ [a]]> m.

Definition role_nodes (pods : list WarmupPod) : gmap string (list string) :=
  fold_left (fun m p =>
    let roleName := label_of (wp_Labels p) RoleNameLabelKey in
    if negb (isLiveScheduledTargetPod p) || bool_decide (roleName = ""%string) then m
    else <[roleName := default [] (m !! roleName) ++ [wp_NodeName p]]> m) pods ∅.

(** The actions of every selected role go to its nodes, role by role in the order of
    the map. *)
Definition target_nodes (tg : TargetRoleBasedGroup) (pods : list WarmupPod) (m : gmap string (list WarmupAction))
    : gmap string (list WarmupAction) :=
  fold_left (fun m kv => match tg_Roles tg !! kv.1 with
                         | None => m
                         | Some a => fold_left (add_action a) (remove_dups kv.2) m
                         end) (map_range (role_nodes pods)) m.

(** * The pod of a node *)

Definition preload_images (actions : list WarmupAction) : list string :=
  concat (map (fun a => match wa_ImagePreload a with Some ip => ip_Images ip | None => [] end) actions).
Definition pull_secrets (actions : list WarmupAction) : list string :=
  concat (map (fun a => match wa_ImagePreload a with Some ip => ip_PullSecrets ip | None => [] end) actions).

(** The first of each, in order. *)
Fixpoint firsts (seen : list string) (l : list string) : list string :=
  match l with
  | [] => []
  | x :: l' => if bool_decide (x ∈ seen) then firsts seen l' else x :: firsts (x :: seen) l'
  end.

Definition preload_container (i : nat) (image : string) : WarmupContainer := {|
  wc_Name := "image-preload-" +:+ Itoa (Z.of_nat i); wc_Image := image; wc_Command := ["sh"; "-c"; "exit 0"];
  wc_ImagePullPolicy := "IfNotPresent"; wc_rest := "" |}.

Definition renamed (name : string) (c : WarmupContainer) : WarmupContainer := {|
  wc_Name := name; wc_Image := wc_Image c; wc_Command := wc_Command c; wc_ImagePullPolicy := wc_ImagePullPolicy c; wc_rest := wc_rest c |}.

Definition container_hash (c : WarmupContainer) : Z := fnv32a (container_text (renamed "" c)).

(** The containers so far, and for each custom one its hash and its names. *)
Definition custom_step (acc : list WarmupContainer * list (Z * customizedActionContainerMapping)) (c : WarmupContainer)
    : list WarmupContainer * list (Z * customizedActionContainerMapping) :=
  let '(containers, mappings) := acc in
  let h := container_hash c in
  if existsb (fun m => m.1 =? h) mappings then
    (containers, map (fun m => if m.1 =? h then (m.1, {| map_PodContainerName := map_PodContainerName m.2;
                                                         map_ContainerNames := map_ContainerNames m.2 ++ [wc_Name c] |}) else m) mappings)
  else
    let name := "custom-" +:+ Itoa (Z.of_nat (length containers)) in
    (containers ++ [renamed name c], mappings ++ [(h, {| map_PodContainerName := name; map_ContainerNames := [wc_Name c] |})]).

Definition volume_step (acc : list WarmupVolume * bool) (v : WarmupVolume) : list WarmupVolume * bool :=
  match List.find (fun v' => bool_decide (wv_Name v' = wv_Name v)) acc.1 with
  | Some existing => (acc.1, acc.2 || negb (bool_decide (wv_Source existing = wv_Source v)))
  | None => (acc.1 ++ [v], acc.2)
  end.

Definition custom_containers (actions : list WarmupAction) : list WarmupContainer :=
  concat (map (fun a => match wa_CustomizedAction a with Some ca => ca_Containers ca | None => [] end) actions).
Definition custom_volumes (actions : list WarmupAction) : list WarmupVolume :=
  concat (map (fun a => match wa_CustomizedAction a with Some ca => ca_Volumes ca | None => [] end) actions).

Definition sorted_names (m : customizedActionContainerMapping) : customizedActionContainerMapping :=
  {| map_PodContainerName := map_PodContainerName m; map_ContainerNames := sort_slice String.ltb (map_ContainerNames m) |}.

(** The pod, and whether two of its volumes disagree. *)
Definition buildWarmupPod (w : Warmup) (nodeName : string) (actions : list WarmupAction) : WarmupPod * bool :=
  let preload := imap preload_container (firsts [] (preload_images actions)) in
  let '(containers, mappings) := fold_left custom_step (custom_containers actions) (preload, []) in
  let '(volumes, conflict) := fold_left volume_step (custom_volumes actions) ([], false) in
  let customizedMappings := map (fun m => sorted_names m.2) mappings in
  let annotations : labels :=
    match customizedMappings with
    | [] => ∅
    | _ => match marshal_mappings customizedMappings with
           | Ok s => {[AnnotationCustomizedActionContainers := s]}
           | Err _ => ∅
           end
    end in
  ({| wp_meta := {| om_Name := ""; om_GenerateName := wu_Name w +:+ "-"; om_Namespace := wu_Namespace w; om_UID := "";
                    om_ResourceVersion := ""; om_Generation := 0; om_CreationTimestamp := None; om_DeletionTimestamp := None;
                    om_Labels := <[LabelWarmupName := wu_Name w]> (<[LabelWarmupUID := om_UID (wu_meta w)]> {[LabelNodeName := nodeName]});
                    om_Annotations := annotations; om_OwnerReferences := []; om_Finalizers := [] |};
      wp_Containers := containers; wp_Volumes := volumes; wp_ImagePullSecrets := firsts [] (pull_secrets actions);
      wp_NodeName := ""; wp_NodeSelector := {["kubernetes.io/hostname"%string := nodeName]};
      wp_Tolerations := wsp_Tolerations (wu_spec w); wp_RestartPolicy := "Never";
      wp_ActiveDeadlineSeconds := minimumCustomizedActionTimeout actions; wp_Phase := ""; wp_Reason := ""; wp_Message := "";
      wp_Conditions := []; wp_ContainerStatuses := [] |}, conflict).
End warmup.
