(* ===== verification/WarmupReconcile.v ===== *)
(** The reconcile of a RoleBasedGroupWarmup
    (internal/controller/workloads/rolebasedgroupwarmup_controller.go), over the
    requests it makes.

    Every write of the status is answered with the object the server keeps, and the
    pass goes on with that one, as the client of the code does.  The clock is a
    function of how often it was read. *)
From Stdlib Require Import ZArith Lia Bool Ascii String.
From stdpp Require Import base tactics list strings gmap sets.
From S2P Require Import Prelude GoStrings Types Conditions GroupTypes Effects Revisions Owners Requests.
From S2P Require Import ScalingAdapter WarmupActions Warmup.

(** * Requests *)

Inductive warmup_call :=
| CallGetWarmup (namespace name : string)
| CallUpdateWarmupStatus (w : Warmup)
| CallDeleteWarmup (w : Warmup)
| CallListWarmups (namespace : string)
| CallListWarmupPods (namespace name uid : string)
| CallGetTarget (from : reader) (namespace name : string)
| CallListTargetPods (from : reader) (namespace group : string)
| CallGetAdapter (namespace name : string)
| CallListNodes (selector : labels)
| CallCreatePod (p : WarmupPod)
| CallDeletePod (p : WarmupPod).

Class WarmupEnv := {
  we_clock : nat -> Z;
  (* whether the controller was given a reader of the API server *)
  we_apiReader : bool;
  we_get_warmup : list warmup_call -> string -> string -> result Warmup;
  we_update_status : list warmup_call -> Warmup -> result Warmup;
  we_delete_warmup : list warmup_call -> Warmup -> result unit;
  we_list_warmups : list warmup_call -> string -> result (list Warmup);
  we_list_warmup_pods : list warmup_call -> string -> string -> string -> result (list WarmupPod);
  we_get_target : list warmup_call -> reader -> string -> string -> result RoleBasedGroup;
  we_list_target_pods : list warmup_call -> reader -> string -> string -> result (list WarmupPod);
  we_get_adapter : list warmup_call -> string -> string -> result ScalingAdapter;
  (* the names of the nodes *)
  we_list_nodes : list warmup_call -> labels -> result (list string);
  we_create_pod : list warmup_call -> WarmupPod -> result WarmupPod;
  we_delete_pod : list warmup_call -> WarmupPod -> result unit
}.

Abbreviation M := (ST (world warmup_call)).

Definition WarmupAPIVersion : string := GroupAPIVersion.
Definition WarmupKind : string := "RoleBasedGroupWarmup".
Definition AlreadyExistsError : error := "AlreadyExists".
Definition IsAlreadyExists (e : error) : bool := bool_decide (e = AlreadyExistsError).

Definition with_wpmeta (m : ObjectMeta) (p : WarmupPod) : WarmupPod := {|
  wp_meta := m; wp_Containers := wp_Containers p; wp_Volumes := wp_Volumes p; wp_ImagePullSecrets := wp_ImagePullSecrets p;
  wp_NodeName := wp_NodeName p; wp_NodeSelector := wp_NodeSelector p; wp_Tolerations := wp_Tolerations p;
  wp_RestartPolicy := wp_RestartPolicy p; wp_ActiveDeadlineSeconds := wp_ActiveDeadlineSeconds p; wp_Phase := wp_Phase p;
  wp_Reason := wp_Reason p; wp_Message := wp_Message p; wp_Conditions := wp_Conditions p;
  wp_ContainerStatuses := wp_ContainerStatuses p |}.

(** What a pass knows about the pods of the warmup. *)
Record WarmupPods := { pods_active : list WarmupPod; pods_succeeded : list WarmupPod; pods_failed : list WarmupPod }.

Definition all_pods (pods : WarmupPods) : list WarmupPod := pods_active pods ++ pods_succeeded pods ++ pods_failed pods.
Definition with_active (l : list WarmupPod) (pods : WarmupPods) : WarmupPods :=
  {| pods_active := l; pods_succeeded := pods_succeeded pods; pods_failed := pods_failed pods |}.

(** A pod that is neither terminal nor on its way out is active. *)
Definition split_pods (items : list WarmupPod) : WarmupPods :=
  let succeeded p := bool_decide (wp_Phase p = PodSucceeded) in
  let failed p := bool_decide (wp_Phase p = PodFailed) in
  {| pods_active := List.filter (fun p => negb (succeeded p) && negb (failed p)
                                          && bool_decide (om_DeletionTimestamp (wp_meta p) = None)) items;
     pods_succeeded := List.filter succeeded items;
     pods_failed := List.filter (fun p => negb (succeeded p) && failed p) items |}.

Definition pods_exist (pods : WarmupPods) (st : WarmupStatus) : bool :=
  negb (bool_decide (all_pods pods = [])) || bool_decide (is_Some (wst_StartTime st)).

(** What reconcileUnfinished learned about the target. *)
Record targetObservation := { to_deleted : bool; to_pending : Z; to_observed : WarmupStatus }.

(** The target was read, or it is not there. *)
Inductive target_state := TargetFound (g : RoleBasedGroup) (pods : list WarmupPod) | TargetMissing (e : error).

Definition set_condition (now : Z) (type status reason message : string) (w : Warmup) (st : WarmupStatus) : WarmupStatus :=
  with_wconditions
    (SetStatusCondition now {| c_Type := type; c_Status := status; c_ObservedGeneration := om_Generation (wu_meta w);
                               c_LastTransitionTime := None; c_Reason := reason; c_Message := message |}
       (wst_Conditions st)).1 st.

Definition set_target (now : Z) (status reason message : string) (w : Warmup) : Warmup :=
  with_wstatus (set_condition now ConditionTargetReady status reason message w (wu_status w)) w.

Section controller.
Context `{MapRange} `{SortSlice} `{WarmupCodec} {ENV : WarmupEnv}.

Definition Now : M Z := read_clock we_clock.
Definition GetWarmup (ns name : string) : M Warmup := request (CallGetWarmup ns name) (fun t => we_get_warmup t ns name).
Definition UpdateWarmupStatus (w : Warmup) : M Warmup := request (CallUpdateWarmupStatus w) (fun t => we_update_status t w).
Definition DeleteWarmup (w : Warmup) : M unit := request (CallDeleteWarmup w) (fun t => we_delete_warmup t w).
Definition ListWarmups (ns : string) : M (list Warmup) := request (CallListWarmups ns) (fun t => we_list_warmups t ns).
Definition ListWarmupPods (ns name uid : string) : M (list WarmupPod) :=
  request (CallListWarmupPods ns name uid) (fun t => we_list_warmup_pods t ns name uid).
Definition GetTarget (from : reader) (ns name : string) : M RoleBasedGroup :=
  request (CallGetTarget from ns name) (fun t => we_get_target t from ns name).
Definition ListTargetPods (from : reader) (ns group : string) : M (list WarmupPod) :=
  request (CallListTargetPods from ns group) (fun t => we_list_target_pods t from ns group).
Definition GetAdapter (ns name : string) : M ScalingAdapter := request (CallGetAdapter ns name) (fun t => we_get_adapter t ns name).
Definition ListNodes (selector : labels) : M (list string) := request (CallListNodes selector) (fun t => we_list_nodes t selector).
Definition CreatePod (p : WarmupPod) : M WarmupPod := request (CallCreatePod p) (fun t => we_create_pod t p).
Definition DeletePod (p : WarmupPod) : M unit := request (CallDeletePod p) (fun t => we_delete_pod t p).

(** * Reading *)

Definition listWarmupPods (w : Warmup) : M WarmupPods :=
  items ← ListWarmupPods (wu_Namespace w) (wu_Name w) (om_UID (wu_meta w)); mret (split_pods items).

(** An error of the target's state: missing, or a failure. *)
Definition missing_or_fail (e : error) (message : string) : M target_state :=
  if IsNotFound e then mret (TargetMissing message) else fail message.

Definition group_text (w : Warmup) (name : string) : string := wu_Namespace w +:+ "/" +:+ name.

Definition list_target (w : Warmup) (name : string) (from : reader) (g : RoleBasedGroup) : M target_state :=
  r ← outcome (ListTargetPods from (wu_Namespace w) name);
  match r with
  | Ok pods => mret (TargetFound g pods)
  | Err e => missing_or_fail e ("failed to list Pods for RoleBasedGroup " +:+ group_text w name +:+ ": " +:+ e)
  end.

(** The cache first; the API server only when the cache has no such group. *)
Definition getTargetRoleBasedGroupState (w : Warmup) (tg : TargetRoleBasedGroup) : M target_state :=
  let name := tg_Name tg in
  let message e := "failed to get RoleBasedGroup " +:+ group_text w name +:+ ": " +:+ e in
  r ← outcome (GetTarget Cached (wu_Namespace w) name);
  match r with
  | Ok g => list_target w name Cached g
  | Err e =>
      if negb (IsNotFound e) || negb we_apiReader then missing_or_fail e (message e)
      else
        r' ← outcome (GetTarget Live (wu_Namespace w) name);
        match r' with
        | Err e' => missing_or_fail e' (message e')
        | Ok g => list_target w name Live g
        end
  end.

Definition effective_replicas (g : RoleBasedGroup) (role : RoleSpec) : M RoleSpec :=
  if negb (IsScalingAdapterEnable (Some role)) then mret role
  else
    let adapterName := GenerateScalingAdapterName (rbg_Name g) (role_Name role) in
    r ← outcome (GetAdapter (om_Namespace (rbg_meta g)) adapterName);
    match r with
    | Err e =>
        if IsNotFound e then mret role
        else fail ("get scaling adapter " +:+ om_Namespace (rbg_meta g) +:+ "/" +:+ adapterName +:+ ": " +:+ e)
    | Ok a =>
        if negb (ContainsRBGOwner a g) || negb (bool_decide (as_Phase (adp_status a) = AdapterPhaseBound)) then mret role
        else match adp_Replicas a with None => mret role | Some n => mret (with_Replicas (Some n) role) end
    end.

Fixpoint effective_roles (g : RoleBasedGroup) (roles : list RoleSpec) : M (list RoleSpec) :=
  match roles with
  | [] => mret []
  | role :: roles' => role' ← effective_replicas g role; rest ← effective_roles g roles'; mret (role' :: rest)
  end.

Definition applyTargetScalingAdapterReplicas (g : RoleBasedGroup) : M RoleBasedGroup :=
  roles ← effective_roles g (rbg_Roles g); mret (rbg_with_roles roles g).

(** The nodes of the selector, then those named, then those of the target's pods. *)
Definition getDesiredNodesToWarmup (w : Warmup) (targetPods : list WarmupPod) : M (gmap string (list WarmupAction)) :=
  selected ← match wsp_TargetNodes (wu_spec w) with
             | None => mret ∅
             | Some tn =>
                 names ← match tn_NodeSelector tn with Some selector => ListNodes selector | None => mret [] end;
                 mret (fold_left (add_action (tn_Actions tn)) (names ++ tn_NodeNames tn) ∅)
             end;
  mret (match wsp_TargetGroup (wu_spec w) with
        | None => selected
        | Some tg => target_nodes tg targetPods selected
        end).

(** * Time *)

Definition timed_out (w : Warmup) : M bool := now ← Now; mret (globalTimeoutExpired now w).
Definition wait_for_target (w : Warmup) : M Z := now ← Now; mret (targetWaitRequeueAfter now w).

(** * The diagnostics of a pass: nodes, results, whether an older one was kept *)

Definition diagnose (desiredNodes : gmap string (list WarmupAction)) (pods : WarmupPods) (st : WarmupStatus)
    : gset string * (list CustomizedActionResult * bool) :=
  let nodes := customizedActionDiagnosticNodes desiredNodes (all_pods pods) (wst_Results st) in
  (nodes, preserveCustomizedActionResultsForNodes nodes (wst_Results st)
            (evaluateCustomizedActionResultsForNodes nodes (all_pods pods)) (all_pods pods)).

Definition limited_results (results : list CustomizedActionResult) (kept : bool) (st : WarmupStatus) : WarmupStatus :=
  let '(limited, truncated) := limitCustomizedActionResults results in
  with_results limited (truncated || (kept && wst_Truncated st)) st.

(** * Failing *)

Definition markTargetNotReady (w : Warmup) (reason message : string) : M Z :=
  now ← Now;
  let new := set_condition now ConditionTargetReady ConditionFalse reason message w (with_phase WarmupJobPhaseRunning (wu_status w)) in
  if bool_decide (wu_status w = new) then wait_for_target w
  else w' ← UpdateWarmupStatus (with_wstatus new w); wait_for_target w'.

Definition forced (reason message : string) (r : CustomizedActionResult) : CustomizedActionResult :=
  if bool_decide (car_State r = CustomizedActionStateSucceeded) then r
  else {| car_NodeName := car_NodeName r; car_PodName := car_PodName r; car_State := CustomizedActionStateFailed;
          car_Reason := if bool_decide (car_Reason r = ""%string)
                        then truncateCustomizedActionMessageTo reason customizedActionTerminationReasonLimit else car_Reason r;
          car_Message := if bool_decide (car_Message r = ""%string) then truncateCustomizedActionMessage message else car_Message r;
          car_TimeoutSeconds := car_TimeoutSeconds r; car_Containers := car_Containers r |}.

Definition count_nodes (s : gset string) : Z := int32 (Z.of_nat (size s)).

(** The status of a failed job at the time [now]. *)
Definition failed_status (now : Z) (w : Warmup) (pods : WarmupPods) (desiredNodes : gmap string (list WarmupAction))
    (reason message : string) : WarmupStatus :=
  let st := wu_status w in
  let '(nodes, (results, kept)) := diagnose desiredNodes pods st in
  let results := map (forced reason message) results in
  let st := limited_results results kept
              (with_counts (count_nodes (dom desiredNodes)) 0 (count_nodes (nodes_of (pods_succeeded pods)))
                 (count_nodes (nodes_of (pods_failed pods)))
                 (with_completion (Some now) (with_phase WarmupJobPhaseFailed st))) in
  let st := with_wconditions
              (updateCustomizedActionConditions now (wst_Conditions st) (om_Generation (wu_meta w)) results
                 (computePermanentlyFailedNodes (pods_failed pods) (policy pol_BackoffLimitPerNode w))
                 (bool_decide (reason = CustomizedActionReasonGlobalTimeout)) (Z.of_nat (size nodes))) st in
  set_condition now ConditionFailed ConditionTrue reason message w st.

(** A pod that cannot be deleted is only logged. *)
Fixpoint delete_pods (pods : list WarmupPod) : M unit :=
  match pods with
  | [] => mret tt
  | p :: pods' => outcome (DeletePod p) ≫= fun _ => delete_pods pods'
  end.

Definition failWarmupJob (w : Warmup) (pods : WarmupPods) (desiredNodes : gmap string (list WarmupAction)) (reason message : string) : M Z :=
  delete_pods (pods_active pods) ≫= fun _ =>
  now ← Now;
  UpdateWarmupStatus (with_wstatus (failed_status now w pods desiredNodes reason message) w) ≫= fun _ => mret 0.

(** * Creating pods *)

Definition conflict_message (nodeName : string) : string :=
  "Volume definitions conflict across roles on node " +:+ nodeName
  +:+ "; first definition wins, which may cause unexpected behavior for containers expecting a different volume spec".

Definition pod_of_node (w : Warmup) (desiredNodes : gmap string (list WarmupAction)) (nextAttempts : gmap string Z) (nodeName : string)
    : WarmupPod * bool :=
  let '(p, conflict) := buildWarmupPod w nodeName (default [] (desiredNodes !! nodeName)) in
  let attempt := default 0 (nextAttempts !! nodeName) in
  let m := wp_meta p in
  (with_wpmeta (with_labels (<[LabelWarmupAttempt := Itoa (if attempt =? 0 then 1 else attempt)]> (om_Labels m)) m) p, conflict).

(** The warmup and the active pods are what the loop carries along. *)
Fixpoint create_pods (nodes : list string) (desiredNodes : gmap string (list WarmupAction)) (nextAttempts : gmap string Z)
    (w : Warmup) (activePods : list WarmupPod) : M (Warmup * list WarmupPod) :=
  match nodes with
  | [] => mret (w, activePods)
  | nodeName :: nodes' =>
      now ← Now;
      let '(p, conflict) := pod_of_node w desiredNodes nextAttempts nodeName in
      let w := if conflict
               then with_wstatus (set_condition now "VolumeConflict" ConditionTrue "ConflictingVolumeDefinitions"
                                    (conflict_message nodeName) w (wu_status w)) w
               else w in
      match SetControllerReference WarmupAPIVersion WarmupKind (wu_meta w) (wp_meta p) with
      | Err e => fail ("set owner reference for warmup Pod on node " +:+ quoted nodeName +:+ ": " +:+ e)
      | Ok m =>
          r ← outcome (CreatePod (with_wpmeta m p));
          match r with
          | Ok p' => create_pods nodes' desiredNodes nextAttempts w (activePods ++ [p'])
          | Err e =>
              if IsAlreadyExists e then create_pods nodes' desiredNodes nextAttempts w activePods
              else fail ("create warmup Pod for node " +:+ quoted nodeName +:+ ": " +:+ e)
          end
      end
  end.

(** How many pods may be created; negative when the limit is exceeded. *)
Definition create_budget (w : Warmup) (pendingNodes : list string) (activePods : list WarmupPod) : Z :=
  match policy pol_Parallelism w with
  | None => Z.of_nat (length pendingNodes)
  | Some parallelism => Z.min (Z.of_nat (length pendingNodes)) (parallelism - Z.of_nat (length activePods))
  end.

Definition createPodsForNodes (w : Warmup) (pendingNodes : list string) (desiredNodes : gmap string (list WarmupAction))
    (activePods failedPods : list WarmupPod) : M (Warmup * list WarmupPod) :=
  create_pods (take (Z.to_nat (create_budget w pendingNodes activePods)) pendingNodes) desiredNodes
    (nextWarmupAttempts failedPods) w activePods.

(** * The status *)

Definition updateEmptyDesiredPhase (now : Z) (w : Warmup) (new : WarmupStatus) (active unsucceeded : Z) (warmupPodsExist : bool)
    (target : targetObservation) : WarmupStatus :=
  if (0 <? active) || (0 <? to_pending target) then with_phase WarmupJobPhaseRunning new
  else
    let new := if warmupPodsExist && (wst_Failed new <? unsucceeded)
               then with_counts (wst_Desired new) (wst_Active new) (wst_Succeeded new) unsucceeded new else new in
    let completed := with_phase WarmupJobPhaseCompleted new in
    let new :=
      if negb warmupPodsExist then
        let st := set_condition now ConditionComplete ConditionTrue "NoNodesMatched" "No nodes matched the target configuration" w completed in
        match wst_StartTime st with None => with_start (Some now) st | Some _ => st end
      else
        set_condition now ConditionComplete ConditionTrue "WarmupCompleted"
          (Itoa (wst_Succeeded new) +:+ " node(s) warmed up"
           +:+ (if 0 <? wst_Failed new then " and " +:+ Itoa (wst_Failed new) +:+ " node(s) failed within tolerance" else "")
           +:+ "; the target no longer selects any node") w completed in
    match wst_CompletionTime new with None => with_completion (Some now) new | Some _ => new end.

Definition updateWarmupPhase (now : Z) (w : Warmup) (new : WarmupStatus) (desired active succeeded failed unsucceeded : Z)
    (warmupPodsExist : bool) (target : targetObservation) : WarmupStatus :=
  if desired =? 0 then updateEmptyDesiredPhase now w new active unsucceeded warmupPodsExist target
  else if (desired <=? int32 (succeeded + failed)) && (active =? 0) then
    let maxFailedNodes := policy pol_MaxFailedNodes w in
    let new :=
      if (0 <? failed) && match maxFailedNodes with Some n => n <? failed | None => false end then
        set_condition now ConditionFailed ConditionTrue "MaxFailedNodesExceeded"
          (Itoa failed +:+ " nodes failed (max tolerated: " +:+ Itoa (default 0 maxFailedNodes) +:+ ")") w
          (with_phase WarmupJobPhaseFailed new)
      else
        set_condition now ConditionComplete ConditionTrue "WarmupCompleted"
          (Itoa succeeded +:+ "/" +:+ Itoa desired +:+ " nodes warmed up successfully") w (with_phase WarmupJobPhaseCompleted new) in
    match wst_CompletionTime new with None => with_completion (Some now) new | Some _ => new end
  else if (0 <? desired) && ((0 <? active) || (0 <? succeeded) || (0 <? failed)) then with_phase WarmupJobPhaseRunning new
  else new.

(** The status the pods make at the time [now]. *)
Definition new_status (now : Z) (w : Warmup) (pods : WarmupPods) (desiredNodes : gmap string (list WarmupAction))
    (permanentlyFailedNodes : gset string) (target : targetObservation) : WarmupStatus :=
  let succeededNodes := nodes_of (pods_succeeded pods) in
  let activeNodes := nodes_of (pods_active pods) ∖ (succeededNodes ∪ permanentlyFailedNodes) in
  let desired := count_nodes (dom desiredNodes) in
  let active := count_nodes activeNodes in
  let succeeded := count_nodes succeededNodes in
  let failed := count_nodes permanentlyFailedNodes in
  let '(nodes, (results, kept)) := diagnose desiredNodes pods (wu_status w) in
  let new := limited_results results kept (with_counts desired active succeeded failed (wu_status w)) in
  let new := match wst_StartTime new with
             | None => if bool_decide (all_pods pods = []) then new else with_start (Some now) new
             | Some _ => new
             end in
  let new := updateWarmupPhase now w new desired active succeeded failed
               (countUnsucceededNodes (pods_succeeded pods) (pods_failed pods)) (pods_exist pods new) target in
  with_wconditions
    (updateCustomizedActionConditions now (wst_Conditions new) (om_Generation (wu_meta w)) results permanentlyFailedNodes
       false (Z.of_nat (size nodes))) new.

(** The warmup the pass goes on with. *)
Definition updateStatusWithTarget (w : Warmup) (pods : WarmupPods) (desiredNodes : gmap string (list WarmupAction))
    (permanentlyFailedNodes : gset string) (target : targetObservation) : M Warmup :=
  now ← Now;
  let new := new_status now w pods desiredNodes permanentlyFailedNodes target in
  if bool_decide (to_observed target = new) then mret w else UpdateWarmupStatus (with_wstatus new w).

Definition requeueAfterReconcile (w : Warmup) (target : targetObservation) (desired : nat) : M Z :=
  if (0 <? to_pending target) && (desired =? 0)%nat && bool_decide (wu_Phase w = WarmupJobPhaseRunning) then wait_for_target w
  else now ← Now; mret (requeueForTimeout now w).

(** * The pass *)

(** The nodes a collapsed target leaves unsucceeded, when they are too many. *)
Definition collapsed (w : Warmup) (pods : WarmupPods) (desiredNodes : gmap string (list WarmupAction)) (target : targetObservation)
    : option (Z * Z) :=
  let unsucceeded := countUnsucceededNodes (pods_succeeded pods) (pods_failed pods) in
  if negb (bool_decide (desiredNodes = ∅)) || (0 <? to_pending target) || negb (bool_decide (pods_active pods = []))
     || (unsucceeded =? 0) then None
  else match policy pol_MaxFailedNodes w with
       | None => None
       | Some n => if unsucceeded <=? n then None else Some (unsucceeded, n)
       end.

Definition failCollapsedDesiredSet (w : Warmup) (pods : WarmupPods) (desiredNodes : gmap string (list WarmupAction))
    (target : targetObservation) : option (M Z) :=
  match collapsed w pods desiredNodes target with
  | None => None
  | Some (unsucceeded, n) =>
      Some (failWarmupJob w pods desiredNodes "MaxFailedNodesExceeded"
        ((if to_deleted target then "target RoleBasedGroup was deleted" else "target no longer selects any node")
         +:+ " with " +:+ Itoa unsucceeded +:+ " attempted node(s) not succeeded (max tolerated: " +:+ Itoa n +:+ ")"))
  end.

(** Too many nodes failed for good; only with both policies given. *)
Definition too_many_failed (w : Warmup) (permanentlyFailedNodes : gset string) : option Z :=
  match policy pol_MaxFailedNodes w, policy pol_BackoffLimitPerNode w with
  | Some n, Some _ => if n <? count_nodes permanentlyFailedNodes then Some n else None
  | _, _ => None
  end.

(** What is left once the target is known. *)
Definition reconcile_nodes (w : Warmup) (pods : WarmupPods) (desiredNodes : gmap string (list WarmupAction)) (target : targetObservation)
    : M Z :=
  match failCollapsedDesiredSet w pods desiredNodes target with
  | Some m => m
  | None =>
      let permanentlyFailedNodes := computePermanentlyFailedNodes (pods_failed pods) (policy pol_BackoffLimitPerNode w) in
      match too_many_failed w permanentlyFailedNodes with
      | Some n =>
          failWarmupJob w pods desiredNodes "MaxFailedNodesExceeded"
            ("Warmup job failed: " +:+ Itoa (Z.of_nat (size permanentlyFailedNodes)) +:+ " nodes permanently failed (max tolerated: "
             +:+ Itoa n +:+ ")")
      | None =>
          expired ← (if warmupReachedTerminalState desiredNodes (pods_active pods) (pods_succeeded pods) permanentlyFailedNodes
                          (to_pending target) then mret false else timed_out w);
          if (expired : bool) then
            failWarmupJob w pods desiredNodes "GlobalTimeoutExceeded"
              ("Warmup job timed out after " +:+ Itoa (default 0 (policy pol_GlobalTimeoutSeconds w)) +:+ " seconds")
          else
            let pendingNodes := collectPendingNodes desiredNodes (pods_active pods) (pods_succeeded pods) permanentlyFailedNodes in
            '(w, activePods) ← createPodsForNodes w pendingNodes desiredNodes (pods_active pods) (pods_failed pods);
            w ← updateStatusWithTarget w (with_active activePods pods) desiredNodes permanentlyFailedNodes target;
            requeueAfterReconcile w target (size desiredNodes)
      end
  end.

(** The pods of the target are still missing before anything was started: wait, or
    give up; otherwise go on. *)
Definition reconcile_target (w : Warmup) (tg : TargetRoleBasedGroup) (pods : WarmupPods) (desiredNodes : gmap string (list WarmupAction))
    (g : RoleBasedGroup) (targetPods : list WarmupPod) (observed : WarmupStatus) : M Z :=
  effective ← applyTargetScalingAdapterReplicas g;
  let pending := countTargetPodsNotReady effective targetPods (tg_Roles tg) in
  let target := {| to_deleted := false; to_pending := pending; to_observed := observed |} in
  let message := Itoa pending +:+ " selected target RoleBasedGroup Pod(s) are missing or not scheduled yet" in
  if 0 <? pending then
    if negb (pods_exist pods observed) then
      expired ← timed_out w;
      if (expired : bool) then
        failWarmupJob w pods desiredNodes "GlobalTimeoutExceeded"
          ("Warmup job timed out waiting for " +:+ Itoa pending +:+ " selected target Pod(s) to be created or scheduled")
      else markTargetNotReady w "TargetPodsNotScheduled" message
    else now ← Now; reconcile_nodes (set_target now ConditionFalse "TargetPodsNotScheduled" message w) pods desiredNodes target
  else
    now ← Now;
    reconcile_nodes (set_target now ConditionTrue "RoleBasedGroupReady"
      "all expected selected target RoleBasedGroup Pods are created and scheduled" w) pods desiredNodes target.

Definition reconcileUnfinished (w : Warmup) : M Z :=
  pods ← listWarmupPods w;
  let observed := wu_status w in
  let untargeted := {| to_deleted := false; to_pending := 0; to_observed := observed |} in
  match validateWarmupSpec (wu_spec w) with
  | Some e => failWarmupJob w pods ∅ "InvalidWarmupSpec" e
  | None =>
      match wsp_TargetGroup (wu_spec w) with
      | None => desiredNodes ← getDesiredNodesToWarmup w []; reconcile_nodes w pods desiredNodes untargeted
      | Some tg =>
          state ← getTargetRoleBasedGroupState w tg;
          match state with
          | TargetFound g targetPods =>
              desiredNodes ← getDesiredNodesToWarmup w targetPods; reconcile_target w tg pods desiredNodes g targetPods observed
          | TargetMissing e =>
              if negb (pods_exist pods observed) then
                expired ← timed_out w;
                if (expired : bool) then failWarmupJob w pods ∅ ReasonInvalidTarget e
                else markTargetNotReady w "RoleBasedGroupNotFound" e
              else
                now ← Now;
                let w := set_target now ConditionUnknown "RoleBasedGroupNotFound" "target RoleBasedGroup no longer exists" w in
                desiredNodes ← getDesiredNodesToWarmup w [];
                reconcile_nodes w pods desiredNodes {| to_deleted := true; to_pending := 0; to_observed := observed |}
          end
      end
  end.

(** How long a finished warmup is still to be kept. *)
Definition ttl_remaining (now ttlSeconds completion : Z) : Z := int64 (seconds ttlSeconds - time_sub now completion).

Definition reconcileFinished (w : Warmup) : M Z :=
  match policy pol_TTLSecondsAfterFinished w, wst_CompletionTime (wu_status w) with
  | Some ttl, Some completion =>
      now ← Now;
      let remaining := ttl_remaining now ttl completion in
      if 0 <? remaining then mret (Z.min remaining MaxRequeueDelay)
      else
        r ← outcome (DeleteWarmup w);
        match r with
        | Ok _ => mret 0
        | Err e => match IgnoreNotFound e with None => mret 0 | Some e => fail e end
        end
  | _, _ => mret 0
  end.

Definition paused (w : Warmup) : bool := default false (wsp_Paused (wu_spec w)).

(** The delay after which to come back, 0 for none. *)
Definition reconcile_warmup (w : Warmup) : M Z :=
  if paused w && negb (finished w) then
    if bool_decide (wu_Phase w = WarmupJobPhasePaused) then mret 0
    else UpdateWarmupStatus (with_wstatus (with_phase WarmupJobPhasePaused (wu_status w)) w) ≫= fun _ => mret 0
  else if finished w then reconcileFinished w
  else if bool_decide (wu_Phase w = WarmupJobPhasePaused) then
    w' ← UpdateWarmupStatus (with_wstatus (with_phase WarmupJobPhaseRunning (wu_status w)) w);
    reconcileUnfinished w'
  else if bool_decide (wu_Phase w = WarmupJobPhaseRunning) || bool_decide (wu_Phase w = WarmupJobPhaseNone) then reconcileUnfinished w
  else mret 0.

Definition Reconcile (ns name : string) : M Z :=
  r ← outcome (GetWarmup ns name);
  match r with
  | Err e => match IgnoreNotFound e with None => mret 0 | Some e => fail e end
  | Ok w => if bool_decide (is_Some (om_DeletionTimestamp (wu_meta w))) then mret 0 else reconcile_warmup w
  end.

(** The warmups to reconcile when a group changes. *)
Definition warmupsForTargetRBG (g : RoleBasedGroup) : M (list (string * string)) :=
  r ← outcome (ListWarmups (om_Namespace (rbg_meta g)));
  mret (match r with
        | Err _ => []
        | Ok items =>
            map (fun w => (wu_Namespace w, wu_Name w))
              (List.filter (fun w => match wsp_TargetGroup (wu_spec w) with
                                     | Some tg => bool_decide (tg_Name tg = rbg_Name g)
                                     | None => false
                                     end) items)
        end).
End controller.
