(* ===== verification/WarmupRules.v ===== *)
(** What holds of every pass over a warmup (WarmupReconcile.v), whatever the API server
    answers: the pods one pass creates run on nodes that are to be warmed up and have no
    pod yet, one on each, within the parallelism of the policy. *)
From Stdlib Require Import ZArith Lia Bool Ascii String.
From stdpp Require Import base tactics list strings gmap sets.
From S2P Require Import Prelude GoStrings Types Conditions GroupTypes Effects Revisions Owners Requests ScalingAdapter.
From S2P Require Import Histories WarmupActions Warmup WarmupReconcile.

(** * The creations among the requests, newest first *)

Definition creation (c : warmup_call) : option WarmupPod := match c with CallCreatePod p => Some p | _ => None end.
Definition creations (t : list warmup_call) : list WarmupPod := omap creation t.
Definition quiet (c : warmup_call) : Prop := creation c = None.
Definition node_label (p : WarmupPod) : option string := wp_Labels p !! LabelNodeName.

Lemma pod_creations_app t1 t2 : creations (t1 ++ t2) = creations t1 ++ creations t2.
Proof. apply omap_app. Qed.

Lemma creations_quiet t : (forall c, c ∈ t -> quiet c) -> creations t = [].
Proof.
  induction t as [|c t IH]; intros Hall; [done|]. unfold creations. cbn [omap list_omap].
  rewrite (Hall c) by (by left). apply IH. intros c' Hc'. apply Hall. by right.
Qed.

Lemma elem_of_nodes_of n pods : n ∈ nodes_of pods <-> exists p, p ∈ pods /\ node_label p = Some n.
Proof. unfold nodes_of, node_label. rewrite elem_of_list_to_set, list_elem_of_omap. naive_solver. Qed.

Lemma set_controller_labels apiVersion kind owner m m' :
  SetControllerReference apiVersion kind owner m = Ok m' -> om_Labels m' = om_Labels m.
Proof.
  unfold SetControllerReference. destruct (validateOwner _ _); [done|].
  destruct (GetControllerOf m); [destruct (referSameObject _ _)|]; intros [= <-]; done.
Qed.

Section creation.
Context `{MapRange} `{SortSlice} `{WarmupCodec} {ENV : WarmupEnv}.

(** * What is pending *)

Lemma elem_of_pendingNodes desiredNodes activePods succeededPods failed n :
  n ∈ collectPendingNodes desiredNodes activePods succeededPods failed <->
  n ∈ dom desiredNodes /\ n ∉ failed /\ n ∉ nodes_of activePods /\ n ∉ nodes_of succeededPods.
Proof.
  unfold collectPendingNodes. rewrite sort_slice_perm, list_elem_of_In, filter_In, <-list_elem_of_In, elem_of_keys, elem_of_dom.
  rewrite andb_true_iff, !negb_true_iff, !bool_decide_eq_false. set_solver.
Qed.

Lemma NoDup_pendingNodes desiredNodes activePods succeededPods failed :
  NoDup (collectPendingNodes desiredNodes activePods succeededPods failed).
Proof.
  unfold collectPendingNodes. rewrite sort_slice_perm. apply NoDup_ListNoDup, List.NoDup_filter, NoDup_ListNoDup.
  change (NoDup (fst <$> map_range desiredNodes)). rewrite map_range_perm. apply NoDup_fst_map_to_list.
Qed.

(** * The loop *)

Lemma pod_of_node_label w desiredNodes nextAttempts nodeName :
  node_label (pod_of_node w desiredNodes nextAttempts nodeName).1 = Some nodeName.
Proof.
  unfold pod_of_node, buildWarmupPod. destruct (fold_left custom_step _ _) as [containers mappings].
  destruct (fold_left volume_step _ _) as [volumes conflict]. unfold node_label. cbn.
  rewrite lookup_insert_ne by done. rewrite !lookup_insert_ne by done. apply lookup_insert_eq.
Qed.

(** The pods created are those of the nodes in front, in order. *)
Lemma create_pods_creations nodes desiredNodes nextAttempts w activePods s r s' :
  create_pods nodes desiredNodes nextAttempts w activePods s = (r, s') ->
  exists new, w_trace s' = new ++ w_trace s /\ map node_label (rev (creations new)) `prefix_of` map Some nodes.
Proof.
  revert w activePods s. induction nodes as [|n nodes IH]; intros w activePods s; cbn [create_pods].
  { intros [_ ->]%ret_inv. by exists []. }
  intros [(e & [= ?] & _)|(now & s1 & [= _ <-] & Hr)]%bind_inv.
  pose proof (pod_of_node_label w desiredNodes nextAttempts n) as Hlabel.
  destruct (pod_of_node w desiredNodes nextAttempts n) as [p conflict]. cbn [fst] in Hlabel.
  destruct (SetControllerReference _ _ _ _) as [m|e] eqn:Hm; [|injection Hr as <- <-; exists []; split; [done|apply prefix_nil]].
  apply set_controller_labels in Hm.
  apply outcome_inv in Hr. destruct Hr as (x & s2 & [_ Ht]%request_eq & Hr). cbn [w_trace] in Ht.
  assert (forall new, w_trace s' = new ++ w_trace s2 -> map node_label (rev (creations new)) `prefix_of` map Some nodes ->
            exists new', w_trace s' = new' ++ w_trace s /\ map node_label (rev (creations new')) `prefix_of` map Some (n :: nodes)) as Hstep.
  { intros new Hnew Hpre. exists (new ++ [CallCreatePod (with_wpmeta m p)]). split; [by rewrite Hnew, Ht, <-app_assoc|].
    rewrite pod_creations_app, rev_app_distr.
    assert (node_label (with_wpmeta m p) = Some n) as Hn by (unfold node_label, wp_Labels; cbn [wp_meta with_wpmeta]; by rewrite Hm).
    change (node_label (with_wpmeta m p) :: map node_label (rev (creations new)) `prefix_of` Some n :: map Some nodes).
    rewrite Hn. by apply prefix_cons. }
  destruct x as [p'|e]; [destruct (IH _ _ _ Hr) as (new & Hn & Hp); eauto|].
  destruct (IsAlreadyExists e); [destruct (IH _ _ _ Hr) as (new & Hn & Hp); eauto|].
  injection Hr as <- <-. apply (Hstep []); [done|]. apply prefix_nil.
Qed.

(** The server keeps the labels of the pods it creates. *)
Definition keeps_labels : Prop := forall t p p', we_create_pod t p = Ok p' -> wp_Labels p' = wp_Labels p.

(** A pod that was asked for existed already. *)
Definition refused (t : list warmup_call) (c : warmup_call) : Prop :=
  exists p e, c = CallCreatePod p /\ we_create_pod t p = Err e /\ IsAlreadyExists e = true.

(** Each pod asked for becomes active, unless one of them existed already. *)
Lemma create_pods_active nodes desiredNodes nextAttempts w activePods s w' activePods' s' :
  keeps_labels -> create_pods nodes desiredNodes nextAttempts w activePods s = (Ok (w', activePods'), s') ->
  wu_spec w' = wu_spec w /\ wu_Phase w' = wu_Phase w /\
  (length activePods' <= length activePods + length nodes)%nat /\ later (w_trace s) (w_trace s') /\
  (within (w_trace s) refused (w_trace s') \/ nodes_of activePods' = nodes_of activePods ∪ list_to_set nodes).
Proof.
  intros Hkeeps. revert w activePods s. induction nodes as [|n nodes IH]; intros w activePods s; cbn [create_pods].
  { intros [[= -> ->] ->]%ret_inv. split_and!; [done..|cbn; lia|apply later_refl|]. right. cbn. set_solver. }
  intros [(e & [= ?] & _)|(now & s1 & [= _ <-] & Hr)]%bind_inv.
  pose proof (pod_of_node_label w desiredNodes nextAttempts n) as Hlabel.
  destruct (pod_of_node w desiredNodes nextAttempts n) as [p conflict]. cbn [fst] in Hlabel.
  destruct (SetControllerReference _ _ _ _) as [m|e] eqn:Hm; [|done]. apply set_controller_labels in Hm.
  apply outcome_inv in Hr. destruct Hr as (x & s2 & [Hx Ht]%request_eq & Hr). cbn [w_trace] in Hx, Ht.
  assert (later (w_trace s) (w_trace s2)) as Hl2 by (rewrite Ht; apply later_cons).
  destruct x as [p'|e].
  - destruct (IH _ _ _ Hr) as (Hs & Hp & Hl & Ht' & Hn). split_and!.
    + rewrite Hs. by destruct conflict.
    + rewrite Hp. by destruct conflict.
    + rewrite length_app in Hl. cbn in Hl |- *. lia.
    + by eapply later_trans.
    + destruct Hn as [Hn|Hn]; [left; by eapply within_since|right].
      rewrite Hn. unfold nodes_of. rewrite omap_app, list_to_set_app_L. cbn [omap list_omap].
      change (wp_Labels p' !! LabelNodeName) with (node_label p').
      replace (node_label p') with (Some n); [cbn; set_solver|]. unfold node_label. symmetry in Hx. rewrite (Hkeeps _ _ _ Hx).
      unfold wp_Labels. cbn [wp_meta with_wpmeta]. rewrite Hm. by symmetry.
  - destruct (IsAlreadyExists e) eqn:He; [|done]. destruct (IH _ _ _ Hr) as (Hs & Hp & Hl & Ht' & _). split_and!.
    + rewrite Hs. by destruct conflict.
    + rewrite Hp. by destruct conflict.
    + cbn. lia.
    + by eapply later_trans.
    + left. eapply within_later; [exact Ht'|]. rewrite Ht. apply within_now; [apply later_refl|]. by exists (with_wpmeta m p), e.
Qed.

(** * What else a pass does creates nothing *)

Lemma quiet_request {A} c (answer : list warmup_call -> result A) : quiet c -> calls w_trace quiet (request c answer).
Proof. apply calls_ask. Qed.

Lemma quiet_delete_pods pods : calls w_trace quiet (delete_pods pods).
Proof.
  induction pods as [|p pods IH]; cbn [delete_pods]; [apply calls_ret|].
  apply calls_bind; [|done]. by apply calls_outcome, quiet_request.
Qed.

Lemma quiet_update w : calls w_trace quiet (UpdateWarmupStatus w).
Proof. by apply quiet_request. Qed.

Lemma quiet_Now : calls w_trace quiet Now.
Proof. apply calls_clock. Qed.

#[local] Hint Resolve quiet_delete_pods quiet_update quiet_Now : calls.

Lemma quiet_failWarmupJob w pods desiredNodes reason message : calls w_trace quiet (failWarmupJob w pods desiredNodes reason message).
Proof. unfold failWarmupJob. calling. Qed.

Lemma quiet_timed_out w : calls w_trace quiet (timed_out w).
Proof. unfold timed_out. calling. Qed.

Lemma quiet_wait_for_target w : calls w_trace quiet (wait_for_target w).
Proof. unfold wait_for_target. calling. Qed.

Lemma quiet_ListNodes selector : calls w_trace quiet (ListNodes selector).
Proof. by apply quiet_request. Qed.

#[local] Hint Resolve quiet_failWarmupJob quiet_timed_out quiet_wait_for_target quiet_ListNodes : calls.

Lemma quiet_markTargetNotReady w reason message : calls w_trace quiet (markTargetNotReady w reason message).
Proof. unfold markTargetNotReady. calling. Qed.

Lemma quiet_updateStatus w pods desiredNodes failed target : calls w_trace quiet (updateStatusWithTarget w pods desiredNodes failed target).
Proof. unfold updateStatusWithTarget. calling. Qed.

Lemma quiet_requeue w target desired : calls w_trace quiet (requeueAfterReconcile w target desired).
Proof. unfold requeueAfterReconcile. calling. Qed.

Lemma quiet_adapter ns name : calls w_trace quiet (GetAdapter ns name).
Proof. by apply quiet_request. Qed.

#[local] Hint Resolve quiet_markTargetNotReady quiet_updateStatus quiet_requeue quiet_adapter : calls.

Lemma quiet_effective g : calls w_trace quiet (applyTargetScalingAdapterReplicas g).
Proof.
  unfold applyTargetScalingAdapterReplicas. apply calls_bind; [|intros; apply calls_ret].
  induction (rbg_Roles g) as [|role roles IH]; cbn [effective_roles]; [apply calls_ret|].
  apply calls_bind; [unfold effective_replicas; calling|intros role']. apply calls_bind; [done|intros; apply calls_ret].
Qed.

Lemma quiet_target w tg : calls w_trace quiet (getTargetRoleBasedGroupState w tg).
Proof.
  assert (forall from ns name, calls w_trace quiet (GetTarget from ns name)) by (intros; by apply quiet_request).
  assert (forall from ns name, calls w_trace quiet (ListTargetPods from ns name)) by (intros; by apply quiet_request).
  unfold getTargetRoleBasedGroupState, list_target, missing_or_fail. calling.
Qed.

Lemma quiet_desired w targetPods : calls w_trace quiet (getDesiredNodesToWarmup w targetPods).
Proof. unfold getDesiredNodesToWarmup. calling. Qed.
#[local] Hint Resolve quiet_effective quiet_target quiet_desired : calls.

Lemma quiet_only w s s' : only w_trace quiet s s' -> w = w_trace s -> exists new, w_trace s' = new ++ w /\ creations new = [].
Proof. intros (new & Ht & Hall) ->. exists new. split; [done|]. by apply creations_quiet. Qed.
End creation.

(** A pod of the target that puts its node on the list. *)
Definition selects (tg : TargetRoleBasedGroup) (n : string) (p : WarmupPod) : Prop :=
  isLiveScheduledTargetPod p = true /\ wp_NodeName p = n /\ is_Some (tg_Roles tg !! label_of (wp_Labels p) RoleNameLabelKey).

Section nodes.
Context `{MapRange} `{SortSlice} `{WarmupCodec} {ENV : WarmupEnv}.

Lemma elem_of_role_nodes pods role l n :
  role_nodes pods !! role = Some l -> n ∈ l ->
  exists p, p ∈ pods /\ isLiveScheduledTargetPod p = true /\ label_of (wp_Labels p) RoleNameLabelKey = role /\ wp_NodeName p = n.
Proof.
  unfold role_nodes. rewrite <-fold_left_rev_right.
  assert (forall p, p ∈ rev pods -> p ∈ pods) as Hrev by (intros p; by rewrite !list_elem_of_In, <-in_rev).
  revert Hrev. generalize (rev pods). intros rp Hrev. revert role l. induction rp as [|p rp IH]; intros role l; cbn [foldr].
  { by rewrite lookup_empty. }
  specialize (IH ltac:(intros q Hq; apply Hrev; by right)).
  destruct (negb _ || _) eqn:Hskip; [by apply IH|]. apply orb_false_iff in Hskip. destruct Hskip as [Hlive _].
  apply negb_false_iff in Hlive. rewrite lookup_insert_Some. intros [[<- <-]|[_ Hl]] Hn; [|by eapply IH].
  apply elem_of_app in Hn. destruct Hn as [Hn| ->%list_elem_of_singleton].
  - destruct (foldr _ _ rp !! _) as [l0|] eqn:Hl0; [by eapply IH|]. cbn in Hn. by apply elem_of_nil in Hn.
  - exists p. split_and!; [apply Hrev; by left|done..].
Qed.

Lemma dom_add_actions a nodes m n : n ∈ dom (fold_left (add_action a) nodes m) <-> n ∈ dom m \/ n ∈ nodes.
Proof.
  revert m. induction nodes as [|x nodes IH]; intros m; cbn [fold_left]; [set_solver|].
  rewrite IH. unfold add_action. rewrite dom_insert_L. set_solver.
Qed.

Lemma dom_target_nodes tg pods m n :
  n ∈ dom (target_nodes tg pods m) -> n ∈ dom m \/ exists p, p ∈ pods /\ selects tg n p.
Proof.
  unfold target_nodes.
  assert (forall kv, kv ∈ map_range (role_nodes pods) -> role_nodes pods !! kv.1 = Some kv.2) as Hin.
  { intros [k v] Hkv. rewrite map_range_perm in Hkv. by apply elem_of_map_to_list in Hkv. }
  revert m Hin. generalize (map_range (role_nodes pods)). intros roles. induction roles as [|kv roles IH]; intros m Hin; cbn [fold_left]; [by left|].
  intros Hn. apply IH in Hn; [|intros ? ?; apply Hin; by right]. destruct Hn as [Hn|Hn]; [|by right].
  destruct (tg_Roles tg !! kv.1) as [a|] eqn:Ha; [|by left]. apply dom_add_actions in Hn. destruct Hn as [Hn|Hn]; [by left|right].
  rewrite elem_of_remove_dups in Hn. assert (role_nodes pods !! kv.1 = Some kv.2) as Hkv by (apply Hin; by left).
  destruct (elem_of_role_nodes _ _ _ _ Hkv Hn) as (p & Hp & Hl & Hr & Hnn).
  exists p. split; [done|]. split_and!; [done..|]. rewrite Hr, Ha. by eexists.
Qed.

(** The warmup names the node, or its selector was answered with it. *)
Definition named (w : Warmup) (t : list warmup_call) (n : string) : Prop :=
  exists tn, wsp_TargetNodes (wu_spec w) = Some tn /\
    (n ∈ tn_NodeNames tn \/
     exists selector names, tn_NodeSelector tn = Some selector /\ n ∈ names /\
       once (fun t1 c => c = CallListNodes selector /\ we_list_nodes t1 selector = Ok names) t).

(** The pods of the target were listed with one of a selected role that lives there. *)
Definition hosted (w : Warmup) (t : list warmup_call) (n : string) : Prop :=
  exists tg from pods p, wsp_TargetGroup (wu_spec w) = Some tg /\ p ∈ pods /\ selects tg n p /\
    once (fun t1 c => c = CallListTargetPods from (wu_Namespace w) (tg_Name tg) /\
                      we_list_target_pods t1 from (wu_Namespace w) (tg_Name tg) = Ok pods) t.

Definition wants (w : Warmup) (t : list warmup_call) (n : string) : Prop := named w t n \/ hosted w t n.

Lemma wants_later w t t' n : later t t' -> wants w t n -> wants w t' n.
Proof.
  intros Hl [(tn & Htn & [Hn|(selector & names & Hs & Hn & Ho)])|(tg & from & pods & p & Htg & Hp & Hs & Ho)].
  - left. exists tn. by split; [|left].
  - left. exists tn. split; [done|right]. exists selector, names. split_and!; [done..|]. by eapply once_later.
  - right. exists tg, from, pods, p. split_and!; [done..|]. by eapply once_later.
Qed.

Lemma getDesired_wants w targetPods s desiredNodes s' :
  getDesiredNodesToWarmup w targetPods s = (Ok desiredNodes, s') ->
  forall n, n ∈ dom desiredNodes ->
    named w (w_trace s') n \/ exists tg p, wsp_TargetGroup (wu_spec w) = Some tg /\ p ∈ targetPods /\ selects tg n p.
Proof.
  unfold getDesiredNodesToWarmup. intros (selected & s1 & Hsel & Hret)%bind_ok_inv.
  apply ret_inv in Hret. destruct Hret as [[= ->] ->].
  assert (forall n, n ∈ dom selected -> named w (w_trace s1) n) as Hnamed.
  { intros n Hn. destruct (wsp_TargetNodes (wu_spec w)) as [tn|] eqn:Htn;
      [|apply ret_inv in Hsel; destruct Hsel as [[= ->] _]; set_solver].
    apply bind_ok_inv in Hsel. destruct Hsel as (names & s2 & Hnames & [[= ->] ->]%ret_inv).
    apply dom_add_actions in Hn. destruct Hn as [Hn|[Hn|Hn]%elem_of_app]; [set_solver| |by exists tn; split; [|left]].
    exists tn. split; [done|right]. destruct (tn_NodeSelector tn) as [selector|];
      [|apply ret_inv in Hnames; destruct Hnames as [[= ->] _]; by apply elem_of_nil in Hn].
    exists selector, names. split_and!; [done..|]. apply request_eq in Hnames. destruct Hnames as [Ha ->]. by apply once_now. }
  intros n Hn. destruct (wsp_TargetGroup (wu_spec w)) as [tg|]; [|by left; apply Hnamed].
  apply dom_target_nodes in Hn. destruct Hn as [Hn|(p & Hp & Hs)]; [by left; apply Hnamed|right]. eauto.
Qed.

Lemma getTarget_hosted w tg s g pods s' :
  wsp_TargetGroup (wu_spec w) = Some tg -> getTargetRoleBasedGroupState w tg s = (Ok (TargetFound g pods), s') ->
  forall n p, p ∈ pods -> selects tg n p -> hosted w (w_trace s') n.
Proof.
  intros Htg Hr n p Hp Hs.
  assert (forall from s1, list_target w (tg_Name tg) from g s1 = (Ok (TargetFound g pods), s') -> hosted w (w_trace s') n) as Hlist.
  { intros from s1 (x & s2 & [Hx Ht]%request_eq & Hres)%outcome_inv. destruct x as [pods'|e].
    - apply ret_inv in Hres. destruct Hres as [[= <-] ->]. exists tg, from, pods, p. split_and!; [done..|].
      rewrite Ht. apply once_now. by split.
    - unfold missing_or_fail in Hres. by destruct (IsNotFound e). }
  assert (forall from g' s1, list_target w (tg_Name tg) from g' s1 = (Ok (TargetFound g pods), s') -> g' = g) as Hg.
  { intros from g' s1 (x & s2 & _ & Hres)%outcome_inv. destruct x as [pods'|e]; [by apply ret_inv in Hres; destruct Hres as [[= <- _] _]|].
    unfold missing_or_fail in Hres. by destruct (IsNotFound e). }
  unfold getTargetRoleBasedGroupState in Hr. apply outcome_inv in Hr. destruct Hr as (x & s1 & _ & Hr).
  destruct x as [g'|e]; [rewrite (Hg _ _ _ Hr) in Hr; by eapply Hlist|].
  destruct (negb _ || negb _); [unfold missing_or_fail in Hr; by destruct (IsNotFound e)|].
  apply outcome_inv in Hr. destruct Hr as (x & s2 & _ & Hr).
  destruct x as [g'|e']; [rewrite (Hg _ _ _ Hr) in Hr; by eapply Hlist|].
  unfold missing_or_fail in Hr. by destruct (IsNotFound e').
Qed.
End nodes.

Section rules.
Context `{MapRange} `{SortSlice} `{WarmupCodec} {ENV : WarmupEnv}.

(** * Where pods are started *)

(** The pods of the requests [new], made after [t], are on wanted nodes that have no
    pod yet and may still be tried, one on each, within the parallelism. *)
Definition starts (w : Warmup) (pods : WarmupPods) (t new : list warmup_call) : Prop :=
  creations new = [] \/
  exists nodes, map node_label (rev (creations new)) = map Some nodes /\ NoDup nodes /\
    (forall k, policy pol_Parallelism w = Some k -> Z.of_nat (length (pods_active pods)) + Z.of_nat (length nodes) <= k) /\
    (forall n, n ∈ nodes -> wants w (new ++ t) n /\ n ∉ nodes_of (pods_active pods) /\ n ∉ nodes_of (pods_succeeded pods) /\
       n ∉ computePermanentlyFailedNodes (pods_failed pods) (policy pol_BackoffLimitPerNode w)).

Definition passes (w : Warmup) (pods : WarmupPods) (s s' : world warmup_call) : Prop :=
  exists new, w_trace s' = new ++ w_trace s /\ starts w pods (w_trace s) new.

Lemma passes_quiet w pods s s' : only w_trace quiet s s' -> passes w pods s s'.
Proof. intros (new & Ht & Hall). exists new. split; [done|left]. by apply creations_quiet. Qed.

Lemma passes_after w pods s s1 s' : only w_trace quiet s s1 -> passes w pods s1 s' -> passes w pods s s'.
Proof.
  intros (new1 & Ht1 & Hq) (new2 & Ht2 & Hs). apply creations_quiet in Hq. exists (new2 ++ new1).
  split; [by rewrite Ht2, Ht1, app_assoc|]. unfold starts. rewrite pod_creations_app, Hq, app_nil_r.
  destruct Hs as [Hs|(nodes & Hm & Hnd & Hk & Hn)]; [by left|right]. exists nodes. split_and!; [done..|].
  intros n Hin. rewrite <-app_assoc, <-Ht1. by apply Hn.
Qed.

Lemma passes_then w pods s s1 s' : passes w pods s s1 -> only w_trace quiet s1 s' -> passes w pods s s'.
Proof.
  intros (new1 & Ht1 & Hs) (new2 & Ht2 & Hq). apply creations_quiet in Hq. exists (new2 ++ new1).
  split; [by rewrite Ht2, Ht1, app_assoc|]. unfold starts. rewrite pod_creations_app, Hq. cbn [app].
  destruct Hs as [Hs|(nodes & Hm & Hnd & Hk & Hn)]; [by left|right]. exists nodes. split_and!; [done..|].
  intros n Hin. destruct (Hn n Hin) as [Hw Hrest]. split; [|done]. eapply wants_later; [|exact Hw].
  exists new2. by rewrite app_assoc.
Qed.

(** A quiet step in front, or behind. *)
Lemma passes_bind {A} w pods (m : M A) (f : A -> M Z) s r s' :
  calls w_trace quiet m -> (m ≫= f) s = (r, s') ->
  (forall a s1, m s = (Ok a, s1) -> f a s1 = (r, s') -> passes w pods s1 s') -> passes w pods s s'.
Proof.
  intros Hm [(e & Hr & _)|(a & s1 & Hr & Hr')]%bind_inv Hf.
  - apply passes_quiet. by eapply Hm.
  - eapply passes_after; [by eapply Hm|]. by eapply Hf.
Qed.

Lemma passes_calls w pods (m : M Z) s r s' : calls w_trace quiet m -> m s = (r, s') -> passes w pods s s'.
Proof. intros Hm Hr. apply passes_quiet. by eapply Hm. Qed.

Lemma create_budget_bound w pendingNodes activePods k :
  policy pol_Parallelism w = Some k -> take (Z.to_nat (create_budget w pendingNodes activePods)) pendingNodes <> [] ->
  Z.of_nat (length activePods) + Z.of_nat (length (take (Z.to_nat (create_budget w pendingNodes activePods)) pendingNodes)) <= k.
Proof.
  unfold create_budget. intros -> Hne. rewrite length_take.
  destruct (Z.to_nat _) as [|b] eqn:Hb; [by rewrite take_0 in Hne|]. lia.
Qed.

Lemma reconcile_nodes_passes w pods desiredNodes target s r s' :
  (forall n, n ∈ dom desiredNodes -> wants w (w_trace s) n) ->
  reconcile_nodes w pods desiredNodes target s = (r, s') -> passes w pods s s'.
Proof.
  intros Hwants Hr. unfold reconcile_nodes, failCollapsedDesiredSet in Hr.
  destruct (collapsed _ _ _ _) as [[u n]|]; [eapply passes_calls, Hr; apply quiet_failWarmupJob|].
  destruct (too_many_failed _ _); [eapply passes_calls, Hr; apply quiet_failWarmupJob|].
  set (failed := computePermanentlyFailedNodes _ _) in *.
  assert (forall b : bool, calls w_trace quiet (if b then mret false else timed_out w)) as Hquiet
    by (intros []; [apply calls_ret|apply quiet_timed_out]).
  apply bind_inv in Hr. destruct Hr as [(e & Hr & _)|(expired & s0 & Hexp & Hr)]; [apply passes_quiet; by eapply Hquiet|].
  apply Hquiet in Hexp as Hs0.
  eapply passes_after; [exact Hs0|]. destruct expired; [eapply passes_calls, Hr; apply quiet_failWarmupJob|].
  set (pending := collectPendingNodes _ _ _ _) in *.
  assert (forall x s1, createPodsForNodes w pending desiredNodes (pods_active pods) (pods_failed pods) s0 = (x, s1) -> passes w pods s0 s1) as Hcreate.
  { intros x s1 (new & Ht & Hpre)%create_pods_creations. exists new. split; [done|].
    set (front := take _ pending) in Hpre. destruct Hpre as [rest Hrest].
    destruct (creations new) as [|c cs] eqn:Hc; [by left|right].
    exists (take (length (rev (c :: cs))) front).
    assert (map node_label (rev (c :: cs)) = map Some (take (length (rev (c :: cs))) front)) as Hnodes.
    { change (node_label <$> rev (c :: cs) = Some <$> take (length (rev (c :: cs))) front).
      rewrite fmap_take. change (Some <$> front) with (map Some front). rewrite Hrest. rewrite take_app_length'; [done|].
      by rewrite length_map. }
    assert (length (c :: cs) = length (take (length (rev (c :: cs))) front)) as Hlen.
    { pose proof (f_equal length Hnodes) as Hl. rewrite !length_map in Hl. rewrite <-Hl. by rewrite length_rev. }
    assert (take (length (rev (c :: cs))) front `sublist_of` pending) as Hsub
      by (etrans; [apply sublist_take|]; apply sublist_take).
    rewrite Hc. split_and!; [done| | |].
    - eapply sublist_NoDup; [apply (NoDup_pendingNodes desiredNodes (pods_active pods) (pods_succeeded pods) failed)|done].
    - intros k Hk. pose proof (create_budget_bound w pending (pods_active pods) k Hk) as Hb. fold front in Hb.
      rewrite length_take in *. assert (front <> []) as Hne by (intros E; rewrite E in Hlen; cbn in Hlen; lia).
      specialize (Hb Hne). lia.
    - intros n Hn. assert (n ∈ pending) as (Hd & Hnf & Hna & Hns)%elem_of_pendingNodes.
      { eapply elem_of_submseteq; [exact Hn|]. by apply sublist_submseteq. }
      split_and!; [|done..]. eapply wants_later; [|by apply Hwants]. destruct Hs0 as (new0 & Ht0 & _).
      exists (new ++ new0). by rewrite <-app_assoc, <-Ht0. }
  apply bind_inv in Hr. destruct Hr as [(e & Hr & _)|([w' active'] & s1 & Hr & Hrest)]; [by eapply Hcreate|].
  eapply passes_then; [by eapply Hcreate|]. revert Hrest. apply calls_bind; [apply quiet_updateStatus|intros; apply quiet_requeue].
Qed.

Definition listed (w : Warmup) (items : list WarmupPod) (t : list warmup_call) (c : warmup_call) : Prop :=
  let uid := om_UID (wu_meta w) in
  c = CallListWarmupPods (wu_Namespace w) (wu_Name w) uid /\ we_list_warmup_pods t (wu_Namespace w) (wu_Name w) uid = Ok items.

Lemma reconcile_target_passes w tg pods desiredNodes g targetPods observed s r s' :
  (forall n, n ∈ dom desiredNodes -> wants w (w_trace s) n) ->
  reconcile_target w tg pods desiredNodes g targetPods observed s = (r, s') -> passes w pods s s'.
Proof.
  intros Hwants Hr. unfold reconcile_target in Hr.
  eapply passes_bind; [apply quiet_effective|exact Hr|]. clear Hr. intros effective s1 He Hr.
  assert (forall n, n ∈ dom desiredNodes -> wants w (w_trace s1) n) as Hwants1.
  { intros n Hn. apply quiet_effective in He. destruct He as (new & Ht & _). eapply wants_later; [by exists new|]. by apply Hwants. }
  assert (forall status reason message target s2 s3 r', Now s1 = (Ok s2, s3) ->
            reconcile_nodes (set_target s2 status reason message w) pods desiredNodes target s3 = (r', s') -> passes w pods s3 s') as Hnodes.
  { intros status reason message target s2 s3 r' [= _ <-] Hr'. eapply (reconcile_nodes_passes (set_target s2 status reason message w)); [|exact Hr'].
    exact Hwants1. }
  cbv beta zeta in Hr. set (pending := countTargetPodsNotReady effective _ _) in *. clearbody pending.
  destruct (0 <? pending); [destruct (negb _)|].
  - eapply passes_bind; [apply quiet_timed_out|exact Hr|]. intros [] s2 _ Hr'; (eapply passes_calls, Hr');
      [apply quiet_failWarmupJob|apply quiet_markTargetNotReady].
  - eapply passes_bind; [apply quiet_Now|exact Hr|]. intros now s2 Hn Hr'. eapply Hnodes; [exact Hn|exact Hr'].
  - eapply passes_bind; [apply quiet_Now|exact Hr|]. intros now s2 Hn Hr'. eapply Hnodes; [exact Hn|exact Hr'].
Qed.

Lemma after_listing w pods s r s' :
  listWarmupPods w s = (Ok pods, s') -> r = pods ->
  exists items, pods = split_pods items /\ once (listed w items) (w_trace s').
Proof.
  intros (items & s1 & Hreq & Hret)%bind_ok_inv _. apply ret_inv in Hret. destruct Hret as [[= ->] ->].
  exists items. split; [done|]. apply request_eq in Hreq. destruct Hreq as [Ha ->]. apply once_now. by split.
Qed.

Lemma reconcileUnfinished_passes w s r s' :
  reconcileUnfinished w s = (r, s') ->
  only w_trace quiet s s' \/
  exists items s1, once (listed w items) (w_trace s1) /\ only w_trace quiet s s1 /\ passes w (split_pods items) s1 s'.
Proof.
  intros Hr. unfold reconcileUnfinished in Hr.
  assert (calls w_trace quiet (listWarmupPods w)) as Hlq.
  { unfold listWarmupPods. apply calls_bind; [by apply quiet_request|intros; apply calls_ret]. }
  apply bind_inv in Hr. destruct Hr as [(e & Hr & _)|(pods & s1 & Hpods & Hr)]; [left; by eapply Hlq|right].
  destruct (after_listing w pods s pods s1 Hpods eq_refl) as (items & -> & Hlisted). exists items, s1.
  split_and!; [done|by eapply Hlq|]. clear Hpods Hlisted Hlq.
  destruct (validateWarmupSpec _); [eapply passes_calls, Hr; apply quiet_failWarmupJob|].
  assert (forall desiredNodes target s2 s3 r', wsp_TargetGroup (wu_spec w) = None \/ True ->
            getDesiredNodesToWarmup w [] s2 = (Ok desiredNodes, s3) ->
            reconcile_nodes w (split_pods items) desiredNodes target s3 = (r', s') -> passes w (split_pods items) s3 s') as Hnodes.
  { intros desiredNodes target s2 s3 r' _ Hd Hr'. eapply reconcile_nodes_passes; [|exact Hr'].
    intros n Hn. destruct (getDesired_wants _ _ _ _ _ Hd n Hn) as [Hw|(tg & p & _ & Hp & _)]; [by left|by apply elem_of_nil in Hp]. }
  destruct (wsp_TargetGroup (wu_spec w)) as [tg|] eqn:Htg.
  2: { eapply passes_bind; [apply quiet_desired|exact Hr|]. intros d s2 Hd Hr'. eapply Hnodes; [by left|exact Hd|exact Hr']. }
  eapply passes_bind; [apply quiet_target|exact Hr|]. clear Hr. intros st s2 Hst Hr. destruct st as [g targetPods|e].
  - eapply passes_bind; [apply quiet_desired|exact Hr|]. intros d s3 Hd Hr'.
    eapply reconcile_target_passes; [|exact Hr']. intros n Hn.
    destruct (getDesired_wants _ _ _ _ _ Hd n Hn) as [Hw|(tg' & p & Htg' & Hp & Hs)]; [by left|right].
    rewrite Htg in Htg'. injection Htg' as <-. apply quiet_desired in Hd. destruct Hd as (new & Ht & _). rewrite Ht.
    destruct (getTarget_hosted _ _ _ _ _ _ Htg Hst n p Hp Hs) as (tg' & from & pods & q & Hg & Hq & Hsel & Ho).
    exists tg', from, pods, q. split_and!; [done..|]. eapply once_later; [|exact Ho]. by exists new.
  - destruct (negb _).
    + eapply passes_bind; [apply quiet_timed_out|exact Hr|]. intros [] s3 _ Hr'; (eapply passes_calls, Hr');
        [apply quiet_failWarmupJob|apply quiet_markTargetNotReady].
    + eapply passes_bind; [apply quiet_Now|exact Hr|]. clear Hr. intros now s3 _ Hr.
      eapply passes_bind; [apply quiet_desired|exact Hr|]. intros d s4 Hd Hr'.
      change (passes (set_target now ConditionUnknown "RoleBasedGroupNotFound" "target RoleBasedGroup no longer exists" w)
                (split_pods items) s4 s').
      eapply reconcile_nodes_passes; [|exact Hr']. intros n Hn.
      destruct (getDesired_wants _ _ _ _ _ Hd n Hn) as [Hw|(tg' & p & _ & Hp & _)]; [by left|by apply elem_of_nil in Hp].
Qed.

(** The warmup a pass works for: read and neither paused, finished nor on its way out,
    or resumed and answered by the server. *)
Definition worked_for (ns name : string) (w : Warmup) (t : list warmup_call) (c : warmup_call) : Prop :=
  (c = CallGetWarmup ns name /\ we_get_warmup t ns name = Ok w /\ paused w = false /\ finished w = false /\
   om_DeletionTimestamp (wu_meta w) = None) \/
  (exists w0, c = CallUpdateWarmupStatus w0 /\ we_update_status t w0 = Ok w /\ paused w0 = false /\ wu_Phase w0 = WarmupJobPhaseRunning).

(** C6: Every pod a pass starts belongs to a warmup that is running, as the API server said
    in this pass: it goes to a node that the warmup names, that its selector was
    answered with or that hosts a live pod of a selected role of the target; the node has
    no active and no succeeded pod in the listing of the pass and has not used up its
    attempts; no two pods of the pass share a node; and together with the active ones
    they stay within the parallelism. *)
Theorem pods_start_only_where_needed ns name :
  let t := w_trace (Reconcile ns name start).2 in
  creations t = [] \/
  exists w items nodes,
    once (worked_for ns name w) t /\ once (listed w items) t /\
    map node_label (rev (creations t)) = map Some nodes /\ NoDup nodes /\
    (forall k, policy pol_Parallelism w = Some k -> Z.of_nat (length (pods_active (split_pods items))) + Z.of_nat (length nodes) <= k) /\
    (forall n, n ∈ nodes ->
       wants w t n /\ n ∉ nodes_of (pods_active (split_pods items)) /\ n ∉ nodes_of (pods_succeeded (split_pods items)) /\
       n ∉ computePermanentlyFailedNodes (pods_failed (split_pods items)) (policy pol_BackoffLimitPerNode w)).
Proof.
  cbv zeta. destruct (Reconcile ns name start) as [r s'] eqn:Hr. cbn [snd].
  assert (forall s, only w_trace quiet s s' -> creations (w_trace s) = [] -> creations (w_trace s') = []) as Hq.
  { intros s (new & -> & Hall) Hs. by rewrite pod_creations_app, Hs, creations_quiet. }
  assert (forall w s, once (worked_for ns name w) (w_trace s) -> creations (w_trace s) = [] -> reconcileUnfinished w s = (r, s') ->
     creations (w_trace s') = [] \/
     exists w items nodes, once (worked_for ns name w) (w_trace s') /\ once (listed w items) (w_trace s') /\
       map node_label (rev (creations (w_trace s'))) = map Some nodes /\ NoDup nodes /\
       (forall k, policy pol_Parallelism w = Some k -> Z.of_nat (length (pods_active (split_pods items))) + Z.of_nat (length nodes) <= k) /\
       (forall n, n ∈ nodes ->
         wants w (w_trace s') n /\ n ∉ nodes_of (pods_active (split_pods items)) /\ n ∉ nodes_of (pods_succeeded (split_pods items)) /\
         n ∉ computePermanentlyFailedNodes (pods_failed (split_pods items)) (policy pol_BackoffLimitPerNode w))) as Hunf.
  { intros w s Hw Hc [Hs|(items & s1 & Hl & (new1 & Ht1 & Hq1) & (new & Ht & Hs))]%reconcileUnfinished_passes; [left; by eapply Hq|].
    assert (creations (w_trace s') = creations new) as Hall.
    { rewrite Ht, Ht1, !pod_creations_app, Hc, (creations_quiet new1) by done. by rewrite !app_nil_r. }
    rewrite Hall. destruct Hs as [Hs|(nodes & Hm & Hnd & Hk & Hn)]; [by left|right]. exists w, items, nodes. rewrite Ht.
    split_and!; [|eapply once_later; [by exists new|done]|done..].
    rewrite Ht1. eapply once_later; [|exact Hw]. exists (new ++ new1). by rewrite app_assoc. }
  unfold Reconcile in Hr. apply outcome_inv in Hr. destruct Hr as (x & s1 & [Hx Ht]%request_eq & Hr). cbn [w_trace start] in Hx, Ht.
  assert (creations (w_trace s1) = []) as Hc1 by (by rewrite Ht).
  assert (forall m : M Z, calls w_trace quiet m -> m s1 = (r, s') -> creations (w_trace s') = []) as Hm.
  { intros m Hm Hrun. eapply Hq, Hc1. by eapply Hm. }
  destruct x as [w|e]; [|left; eapply (Hm _), Hr; destruct (IgnoreNotFound e); auto with calls].
  case_bool_decide as Hdel; [left; eapply (Hm _), Hr; apply calls_ret|].
  unfold reconcile_warmup in Hr. destruct (paused w) eqn:Hp; [destruct (finished w) eqn:Hf|]; cbn [andb negb] in Hr.
  - left. eapply (Hm _), Hr. unfold reconcileFinished. pose proof quiet_Now.
    assert (calls w_trace quiet (DeleteWarmup w)) by (by apply quiet_request). calling.
  - left. eapply (Hm _), Hr. pose proof quiet_update. calling.
  - destruct (finished w) eqn:Hf.
    + left. eapply (Hm _), Hr. unfold reconcileFinished. pose proof quiet_Now.
      assert (calls w_trace quiet (DeleteWarmup w)) by (by apply quiet_request). calling.
    + case_bool_decide as Hph.
      * apply bind_inv in Hr. destruct Hr as [(e & Hr & _)|(w' & s2 & Hu & Hr)].
        { left. eapply Hq, Hc1. by eapply quiet_update. }
        apply request_eq in Hu. destruct Hu as [Ha Ht2]. eapply Hunf, Hr; [|rewrite Ht2; exact Hc1].
        rewrite Ht2. apply once_now. right. by eexists.
      * destruct (_ || _); [|left; eapply (Hm _), Hr; apply calls_ret].
        eapply Hunf, Hr; [|exact Hc1]. rewrite Ht. apply once_now. left. split_and!; [done..|].
        by apply eq_None_not_Some.
Qed.
End rules.
