(* ===== verification/WarmupCompletion.v ===== *)
(** When a warmup completes, and when it comes back (WarmupReconcile.v). *)
From Stdlib Require Import ZArith Lia Bool Ascii String.
From stdpp Require Import base tactics list strings gmap sets.
From S2P Require Import Prelude GoStrings Types Conditions GroupTypes Effects Revisions Owners Requests.
From S2P Require Import ScalingAdapter Histories WarmupActions Warmup WarmupReconcile WarmupRules.

Section completion.
Context `{MapRange} `{SortSlice} `{WarmupCodec} {ENV : WarmupEnv}.

(** * Coming back *)

Definition comes_back (lo hi : Z) (m : M Z) : Prop := forall s d s', m s = (Ok d, s') -> lo <= d <= hi.

Lemma comes_back_bind {A} lo hi (m : M A) (f : A -> M Z) : (forall a, comes_back lo hi (f a)) -> comes_back lo hi (m ≫= f).
Proof. intros Hf s d s' (a & s1 & _ & Hr)%bind_ok_inv. by eapply Hf. Qed.

Lemma comes_back_ret lo hi d : lo <= d <= hi -> comes_back lo hi (mret d).
Proof. intros Hd s d' s' [[= ->] _]%ret_inv. done. Qed.

Lemma comes_back_fail lo hi e : comes_back lo hi (fail e).
Proof. intros s d s' [=]. Qed.

Lemma comes_back_now lo hi (m : M Z) : lo = 0 -> hi = MaxRequeueDelay -> comes_back 1 TargetWaitRequeuePeriod m -> comes_back lo hi m.
Proof. intros -> -> Hm s d s' Hr. specialize (Hm s d s' Hr). unfold TargetWaitRequeuePeriod, MaxRequeueDelay, second in *. lia. Qed.

Create HintDb comes_back discriminated.
#[local] Hint Resolve comes_back_fail : comes_back.

Ltac coming :=
  repeat match goal with
  | |- forall _, _ => intros ?
  | |- comes_back _ _ (mbind _ _) => apply comes_back_bind; intros ?
  | |- comes_back _ _ (match ?x with _ => _ end) => destruct x eqn:?
  | |- comes_back _ _ (mret _) => apply comes_back_ret
  | |- comes_back _ _ _ => solve [eauto with comes_back]
  end.

Lemma wait_comes_back w : comes_back 1 TargetWaitRequeuePeriod (wait_for_target w).
Proof.
  unfold wait_for_target, targetWaitRequeueAfter, TargetWaitRequeuePeriod, millisecond, second. coming.
  destruct (globalTimeoutRemaining _ _) as [r|]; [destruct (Z.leb_spec r 0)|]; lia.
Qed.
#[local] Hint Resolve wait_comes_back : comes_back.

Lemma mark_comes_back w reason message : comes_back 1 TargetWaitRequeuePeriod (markTargetNotReady w reason message).
Proof. unfold markTargetNotReady. coming. Qed.

Lemma fail_comes_back w pods desiredNodes reason message : comes_back 0 MaxRequeueDelay (failWarmupJob w pods desiredNodes reason message).
Proof. unfold failWarmupJob. coming. unfold MaxRequeueDelay, second. lia. Qed.

Lemma requeue_comes_back w target desired : comes_back 0 MaxRequeueDelay (requeueAfterReconcile w target desired).
Proof.
  unfold requeueAfterReconcile. destruct (_ && _ && _); [apply comes_back_now; [done..|apply wait_comes_back]|].
  unfold requeueForTimeout, MaxRequeueDelay, second. coming.
  destruct (finished w); [lia|]. destruct (globalTimeoutRemaining _ _) as [r|]; [destruct (Z.leb_spec r 0)|]; lia.
Qed.
#[local] Hint Resolve fail_comes_back requeue_comes_back : comes_back.

Lemma mark_comes_back_soon w reason message : comes_back 0 MaxRequeueDelay (markTargetNotReady w reason message).
Proof. apply comes_back_now; [done..|apply mark_comes_back]. Qed.
#[local] Hint Resolve mark_comes_back_soon : comes_back.

Lemma nodes_comes_back w pods desiredNodes target : comes_back 0 MaxRequeueDelay (reconcile_nodes w pods desiredNodes target).
Proof. unfold reconcile_nodes, failCollapsedDesiredSet. destruct (collapsed _ _ _ _) as [[? ?]|]; coming. Qed.
#[local] Hint Resolve nodes_comes_back : comes_back.

Lemma unfinished_comes_back w : comes_back 0 MaxRequeueDelay (reconcileUnfinished w).
Proof. unfold reconcileUnfinished, reconcile_target. coming. Qed.
#[local] Hint Resolve unfinished_comes_back : comes_back.

Lemma finished_comes_back w : comes_back 0 MaxRequeueDelay (reconcileFinished w).
Proof.
  unfold reconcileFinished. coming; unfold MaxRequeueDelay, second; lia.
Qed.
#[local] Hint Resolve finished_comes_back : comes_back.

(** No delay exceeds ten minutes, whatever timeouts and retention the warmup asks for
    and whatever the clock says; and a warmup that waits for its target comes back within
    ten seconds and never goes to sleep. *)
Theorem delays_are_bounded :
  (forall ns name, comes_back 0 MaxRequeueDelay (Reconcile ns name)) /\
  (forall w reason message, comes_back 1 (10 * second) (markTargetNotReady w reason message)).
Proof.
  split; [|apply mark_comes_back]. intros ns name. unfold Reconcile, reconcile_warmup. coming; unfold MaxRequeueDelay, second; lia.
Qed.

(** * Completing *)

Lemma size_nodes_of pods : (size (nodes_of pods) <= length pods)%nat.
Proof.
  unfold nodes_of. induction pods as [|p pods IH]; [by cbn; rewrite size_empty|].
  cbn [omap list_omap length]. destruct (wp_Labels p !! LabelNodeName) as [n|]; [|lia].
  cbn [list_to_set]. rewrite size_union_alt, size_singleton.
  assert (size (list_to_set (C := gset string) (omap (fun p => wp_Labels p !! LabelNodeName) pods) ∖ {[n]})
          <= size (list_to_set (C := gset string) (omap (fun p => wp_Labels p !! LabelNodeName) pods)))%nat
    by (apply subseteq_size; set_solver). unfold omap in *. lia.
Qed.

Lemma empty_difference (a b : gset string) : a ∖ b = ∅ -> a ⊆ b.
Proof. intros Hd x Hx. destruct (decide (x ∈ b)) as [|Hb]; [done|]. set_solver. Qed.

Lemma count_nodes_none s : count_nodes s = 0 -> Z.of_nat (size s) < 2 ^ 31 -> s = ∅.
Proof.
  unfold count_nodes. intros Hc Hs. rewrite int32_id in Hc by (unfold_int; lia). apply leibniz_equiv, size_empty_inv. lia.
Qed.

Lemma limited_results_phase results kept st : wst_Phase (limited_results results kept st) = wst_Phase st.
Proof. unfold limited_results. by destruct (limitCustomizedActionResults results). Qed.

(** A status that turns to completed: there is nothing to do, or nothing is active. *)
Lemma new_status_completed now w pods desiredNodes failed target :
  wu_Phase w <> WarmupJobPhaseCompleted ->
  wst_Phase (new_status now w pods desiredNodes failed target) = WarmupJobPhaseCompleted ->
  count_nodes (dom desiredNodes) = 0 \/
  count_nodes (nodes_of (pods_active pods) ∖ (nodes_of (pods_succeeded pods) ∪ failed)) = 0.
Proof.
  intros Hw. unfold new_status, diagnose. destruct (preserveCustomizedActionResultsForNodes _ _ _ _) as [results kept].
  cbn [wst_Phase with_wconditions]. set (new := match wst_StartTime _ with Some _ => _ | None => _ end).
  assert (wst_Phase new = wu_Phase w) as Hnew.
  { unfold new. destruct (wst_StartTime _); [|case_bool_decide]; cbn [wst_Phase with_start]; by rewrite limited_results_phase. }
  unfold updateWarmupPhase. destruct (count_nodes (dom desiredNodes) =? 0) eqn:Hd; [left; lia|].
  destruct ((_ <=? _) && _) eqn:Ha; [right; apply andb_true_iff in Ha; lia|].
  destruct (_ && (_ || _)); cbn [wst_Phase with_phase]; [done|congruence].
Qed.

(** Every node that is to be warmed up has succeeded or has failed for good. *)
Definition all_done (desiredNodes : gmap string (list WarmupAction)) (pods : WarmupPods) (failed : gset string) : Prop :=
  forall n, n ∈ dom desiredNodes -> n ∈ nodes_of (pods_succeeded pods) \/ n ∈ failed.

(** The parallelism is used up by pods on nodes that are done, or that carry no node. *)
Definition starved (w : Warmup) (pods : WarmupPods) (failed : gset string) : Prop :=
  exists k, policy pol_Parallelism w = Some k /\ k <= Z.of_nat (length (pods_active pods)) /\
    forall p n, p ∈ pods_active pods -> node_label p = Some n -> n ∈ nodes_of (pods_succeeded pods) \/ n ∈ failed.

(** A request that turns the warmup to completed is made only when [P]. *)
Definition completes_if (P : Prop) (c : warmup_call) : Prop :=
  match c with CallUpdateWarmupStatus w => wu_Phase w = WarmupJobPhaseCompleted -> P | _ => True end.

Lemma honest_request {A} P c (answer : list warmup_call -> result A) :
  completes_if P c -> calls w_trace (completes_if P) (request c answer).
Proof. apply calls_ask. Qed.

Lemma honest_fail w pods desiredNodes reason message P :
  calls w_trace (completes_if P) (failWarmupJob w pods desiredNodes reason message).
Proof.
  unfold failWarmupJob. apply calls_bind.
  - induction (pods_active pods) as [|p l IH]; cbn [delete_pods]; [apply calls_ret|].
    apply calls_bind; [by apply calls_outcome, honest_request|done].
  - intros _. apply calls_bind; [apply calls_clock|intros now]. apply calls_bind; [|intros; apply calls_ret].
    apply honest_request. cbn [completes_if]. unfold wu_Phase. cbn [wu_status with_wstatus].
    unfold failed_status, diagnose. destruct (preserveCustomizedActionResultsForNodes _ _ _ _) as [results kept].
    cbn. by rewrite limited_results_phase.
Qed.

Lemma honest_create nodes desiredNodes nextAttempts w activePods P :
  calls w_trace (completes_if P) (create_pods nodes desiredNodes nextAttempts w activePods).
Proof.
  revert w activePods. induction nodes as [|n nodes IH]; intros w activePods; cbn [create_pods]; [apply calls_ret|].
  apply calls_bind; [apply calls_clock|intros now]. destruct (pod_of_node _ _ _ _) as [p conflict].
  destruct (SetControllerReference _ _ _ _); [|apply calls_fail].
  apply calls_bind; [by apply calls_outcome, honest_request|]. intros [p'|e]; [apply IH|].
  destruct (IsAlreadyExists e); [apply IH|apply calls_fail].
Qed.

Lemma honest_requeue w target desired P : calls w_trace (completes_if P) (requeueAfterReconcile w target desired).
Proof.
  unfold requeueAfterReconcile, wait_for_target. assert (calls w_trace (completes_if P) Now) by apply calls_clock. calling.
Qed.

Lemma honest_timed_out w P : calls w_trace (completes_if P) (timed_out w).
Proof. unfold timed_out. apply calls_bind; [apply calls_clock|intros; apply calls_ret]. Qed.

(** The write of the status, at the time it is made. *)
Lemma honest_update w pods desiredNodes failed target (P : Prop) s r s' :
  (wst_Phase (new_status (we_clock (w_clock s)) w pods desiredNodes failed target) = WarmupJobPhaseCompleted -> P) ->
  updateStatusWithTarget w pods desiredNodes failed target s = (r, s') -> only w_trace (completes_if P) s s'.
Proof.
  intros HP. unfold updateStatusWithTarget, Now. intros [(e & [=] & _)|(now & s1 & [= <- <-] & Hr)]%bind_inv.
  match type of Hr with _ ?s1 = _ => assert (only w_trace (completes_if P) s s1) as Ho by by apply only_same end.
  eapply only_trans; [exact Ho|]. revert Hr. case_bool_decide; [intros [_ ->]%ret_inv; apply only_refl|].
  by apply honest_request.
Qed.

(** After the creations of the pass nothing is active: then nothing was pending, or
    nothing could be created. *)
Lemma nothing_pending w pods desiredNodes failed active' :
  let pending := collectPendingNodes desiredNodes (pods_active pods) (pods_succeeded pods) failed in
  let created := take (Z.to_nat (create_budget w pending (pods_active pods))) pending in
  nodes_of active' = nodes_of (pods_active pods) ∪ list_to_set created ->
  nodes_of active' ⊆ nodes_of (pods_succeeded pods) ∪ failed ->
  all_done desiredNodes pods failed \/ starved w pods failed.
Proof.
  intros pending created Hnodes Hsub. rewrite Hnodes in Hsub.
  assert (forall p n, p ∈ pods_active pods -> node_label p = Some n -> n ∈ nodes_of (pods_succeeded pods) \/ n ∈ failed) as Hclosed.
  { intros p n Hp Hn. assert (n ∈ nodes_of (pods_active pods)) as Hin by (apply elem_of_nodes_of; eauto). set_solver. }
  destruct (decide (pending = [])) as [Hp|Hp].
  - left. intros n Hn. destruct (decide (n ∈ nodes_of (pods_succeeded pods))) as [|Hns]; [by left|].
    destruct (decide (n ∈ failed)) as [|Hnf]; [by right|]. exfalso. apply (not_elem_of_nil (A := string) n). rewrite <-Hp.
    apply elem_of_pendingNodes. split_and!; [done..| |done]. intros (p & Hpa & Hl)%elem_of_nodes_of. by destruct (Hclosed p n Hpa Hl).
  - destruct created as [|m l] eqn:Ht.
    + right. unfold create_budget in created. destruct (policy pol_Parallelism w) as [k|] eqn:Hk.
      * exists k. split; [done|]. split; [|done].
        destruct (Z.to_nat (Z.min (Z.of_nat (length pending)) (k - Z.of_nat (length (pods_active pods))))) as [|b] eqn:Hb.
        -- destruct pending; [done|]. cbn [length] in Hb. lia.
        -- unfold created in Ht. by destruct pending.
      * unfold created in Ht. rewrite Nat2Z.id, firstn_all in Ht. done.
    + exfalso. assert (m ∈ pending) as (_ & Hmf & _ & Hms)%elem_of_pendingNodes.
      { eapply elem_of_submseteq; [|apply sublist_submseteq, sublist_take]. unfold created in Ht. rewrite Ht. by left. }
      set_solver.
Qed.

(** C14: Completed is honest, but for two cases.  With a server that keeps the labels of
    the pods it creates and with nodes that fit an int32, a pass over the nodes of a
    warmup writes it as Completed for the first time only when each node to be warmed
    up has succeeded or has used up its attempts, or when a pod that it asked for in
    this very pass existed already, or when pods on nodes that are done use up the
    parallelism.  The code does complete in the last two cases while a node waits
    ([existing_pod_completes], [starved_completes]). *)
Theorem completed_covers_every_node w pods desiredNodes target s :
  let failed := computePermanentlyFailedNodes (pods_failed pods) (policy pol_BackoffLimitPerNode w) in
  let s' := (reconcile_nodes w pods desiredNodes target s).2 in
  keeps_labels -> wu_Phase w <> WarmupJobPhaseCompleted -> Z.of_nat (length (pods_active pods) + size desiredNodes) < 2 ^ 31 ->
  exists new, w_trace s' = new ++ w_trace s /\
    forall w', CallUpdateWarmupStatus w' ∈ new -> wu_Phase w' = WarmupJobPhaseCompleted ->
      all_done desiredNodes pods failed \/ within (w_trace s) refused (w_trace s') \/ starved w pods failed.
Proof.
  intros failed s' Hkeeps Hphase Hsize.
  set (P := all_done desiredNodes pods failed \/ within (w_trace s) refused (w_trace s') \/ starved w pods failed).
  enough (only w_trace (completes_if P) s s') as (new & Ht & Hn).
  { exists new. split; [done|]. intros w' Hw'. exact (Hn _ Hw'). }
  destruct (reconcile_nodes w pods desiredNodes target s) as [r s''] eqn:Hr. cbn [snd] in s'. subst s'. revert P Hr.
  intros P Hr. unfold reconcile_nodes, failCollapsedDesiredSet in Hr.
  destruct (collapsed _ _ _ _) as [[u m]|]; [by eapply honest_fail|]. fold failed in Hr.
  destruct (too_many_failed _ _); [by eapply honest_fail|].
  assert (calls w_trace (completes_if P) (if warmupReachedTerminalState desiredNodes (pods_active pods) (pods_succeeded pods) failed (to_pending target)
            then mret false else timed_out w)) as Hexp.
  { destruct (warmupReachedTerminalState _ _ _ _ _); [apply calls_ret|apply honest_timed_out]. }
  apply bind_inv in Hr as [(e & He & _)|(expired & s0 & He & Hr)]; [by eapply Hexp|].
  eapply only_trans; [by eapply Hexp|]. apply Hexp in He as (early & Hearly & _). clear Hexp.
  destruct expired; [by eapply honest_fail|]. cbv zeta in Hr. set (pending := collectPendingNodes _ _ _ _) in Hr.
  apply bind_inv in Hr as [(e & Hr & _)|([w' active'] & s1 & Hc & Hr)]; [by eapply honest_create|].
  eapply only_trans; [by eapply honest_create|].
  pose proof (create_pods_active _ _ _ _ _ _ _ _ _ Hkeeps Hc) as (_ & Hph & Hlen & _ & Hnodes).
  assert (forall Q : Prop, (wst_Phase (new_status (we_clock (w_clock s1)) w' (with_active active' pods) desiredNodes failed target)
            = WarmupJobPhaseCompleted -> Q) -> only w_trace (completes_if Q) s1 s'') as Hrest.
  { intros Q HQ. apply bind_inv in Hr as [(e & Hr & _)|(w2 & s2 & Hu & Hr)].
    - by apply (honest_update w' (with_active active' pods) desiredNodes failed target Q s1 _ _ HQ) in Hr.
    - apply (honest_update w' (with_active active' pods) desiredNodes failed target Q s1 _ _ HQ) in Hu.
      eapply only_trans; [exact Hu|]. by eapply honest_requeue. }
  assert (later (w_trace s1) (w_trace s'')) as Hlater by (destruct (Hrest True) as (new & Ht & _); [done|by exists new]).
  apply Hrest. intros [Hd|Ha]%new_status_completed; [..|by rewrite Hph].
  - left. apply count_nodes_none in Hd; [|rewrite size_dom; lia]. unfold all_done. rewrite Hd. set_solver.
  - destruct Hnodes as [Hn|Hn].
    { right; left. eapply within_later; [exact Hlater|]. eapply within_since; [|exact Hn]. by exists early. }
    destruct (nothing_pending w pods desiredNodes failed active' Hn) as [Hdone|Hs]; [|by left|by right; right].
    apply count_nodes_none in Ha; [by apply empty_difference|]. cbn [pods_active with_active pods_succeeded].
    assert (size (nodes_of active' ∖ (nodes_of (pods_succeeded pods) ∪ failed)) <= size (nodes_of active'))%nat as Hsz
      by (apply subseteq_size; set_solver).
    pose proof (size_nodes_of active') as Hact. rewrite length_take in Hlen.
    assert (length pending <= size desiredNodes)%nat as Hp.
    { rewrite <-size_dom. rewrite <-(size_list_to_set (C := gset string) pending) by apply NoDup_pendingNodes.
      apply subseteq_size. intros x [Hx _]%elem_of_list_to_set%elem_of_pendingNodes. done. }
    lia.
Qed.
End completion.

(** * A run: one node warmed up, one that failed too often *)
Module Demo.
Definition order : MapRange := {| map_range := fun A m => map_to_list m; map_range_perm := fun A m => reflexivity _ |}.

Definition codec : WarmupCodec := {|
  marshal_mappings := fun _ => Ok "[]"%string; unmarshal_mappings := fun _ => Ok []; marshal_size := fun _ => Some 2;
  container_text := wc_Image |}.

Definition env : WarmupEnv := {|
  we_clock := fun n => Z.of_nat n; we_apiReader := false;
  we_get_warmup := fun _ _ _ => Err NotFoundError; we_update_status := fun _ w => Ok w; we_delete_warmup := fun _ _ => Ok tt;
  we_list_warmups := fun _ _ => Ok []; we_list_warmup_pods := fun _ _ _ _ => Ok []; we_get_target := fun _ _ _ _ => Err NotFoundError;
  we_list_target_pods := fun _ _ _ _ => Ok []; we_get_adapter := fun _ _ _ => Err NotFoundError; we_list_nodes := fun _ _ => Ok [];
  we_create_pod := fun _ p => Ok p; we_delete_pod := fun _ _ => Ok tt |}.

Definition preload : WarmupAction :=
  {| wa_ImagePreload := Some {| ip_Images := ["model:1"%string]; ip_PullSecrets := [] |}; wa_CustomizedAction := None |}.

Definition status (phase : string) : WarmupStatus := {|
  wst_StartTime := Some 1; wst_CompletionTime := None; wst_Phase := phase; wst_Desired := 0; wst_Active := 0; wst_Succeeded := 0;
  wst_Failed := 0; wst_Conditions := []; wst_Results := []; wst_Truncated := false |}.

Definition warmup (parallelism : Z) : Warmup := {|
  wu_meta := with_name "warm" "default" empty_meta;
  wu_spec := {| wsp_Paused := None;
                wsp_Policies := Some {| pol_Parallelism := Some parallelism; pol_BackoffLimitPerNode := Some 0; pol_MaxFailedNodes := Some 1;
                                        pol_GlobalTimeoutSeconds := None; pol_TTLSecondsAfterFinished := None |};
                wsp_TargetNodes := Some {| tn_NodeNames := ["a"%string; "b"%string]; tn_NodeSelector := None; tn_Actions := preload |};
                wsp_TargetGroup := None; wsp_Tolerations := "" |};
  wu_status := status WarmupJobPhaseRunning |}.

Definition pod (node phase : string) : WarmupPod := {|
  wp_meta := with_labels {[LabelNodeName := node]} (with_name node "default" empty_meta); wp_Containers := []; wp_Volumes := [];
  wp_ImagePullSecrets := []; wp_NodeName := node; wp_NodeSelector := ∅; wp_Tolerations := ""; wp_RestartPolicy := "Never";
  wp_ActiveDeadlineSeconds := None; wp_Phase := phase; wp_Reason := ""; wp_Message := ""; wp_Conditions := []; wp_ContainerStatuses := [] |}.

Definition pods : WarmupPods := split_pods [pod "a" PodSucceeded; pod "b" PodFailed].
Definition desired : gmap string (list WarmupAction) := <["a"%string := [preload]]> {["b"%string := [preload]]}.
Definition target : targetObservation := {| to_deleted := false; to_pending := 0; to_observed := status WarmupJobPhaseRunning |}.
End Demo.

#[local] Existing Instance insertion_sort_slice.
#[local] Existing Instance Demo.order.
#[local] Existing Instance Demo.codec.
#[local] Existing Instance Demo.env.

Definition is_completion (c : warmup_call) : bool :=
  match c with CallUpdateWarmupStatus w => bool_decide (wu_Phase w = WarmupJobPhaseCompleted) | _ => false end.

Lemma completed_covers_every_node_witness :
  existsb is_completion (w_trace (reconcile_nodes (Demo.warmup 2) Demo.pods Demo.desired Demo.target start).2) = true /\
  exists new, w_trace (reconcile_nodes (Demo.warmup 2) Demo.pods Demo.desired Demo.target start).2 = new ++ [] /\
    forall w', CallUpdateWarmupStatus w' ∈ new -> wu_Phase w' = WarmupJobPhaseCompleted ->
      all_done Demo.desired Demo.pods (computePermanentlyFailedNodes (pods_failed Demo.pods) (policy pol_BackoffLimitPerNode (Demo.warmup 2))) \/
      within [] refused (w_trace (reconcile_nodes (Demo.warmup 2) Demo.pods Demo.desired Demo.target start).2) \/
      starved (Demo.warmup 2) Demo.pods (computePermanentlyFailedNodes (pods_failed Demo.pods) (policy pol_BackoffLimitPerNode (Demo.warmup 2))).
Proof.
  split; [vm_compute; reflexivity|]. apply (completed_covers_every_node (Demo.warmup 2) Demo.pods Demo.desired Demo.target start).
  - intros t p p' [= <-]. reflexivity.
  - discriminate.
  - vm_compute. reflexivity.
Defined.

(** * The two cases in which a node is left out

    The nodes that succeeded are counted whether they are still to be warmed up or
    not, and a node counts as active only through a pod that is not on a node that is
    done. *)

(** The server says of every pod that it exists; the cache does not show it yet. *)
Definition late_cache : WarmupEnv := {|
  we_clock := fun n => Z.of_nat n; we_apiReader := false;
  we_get_warmup := fun _ _ _ => Err NotFoundError; we_update_status := fun _ w => Ok w; we_delete_warmup := fun _ _ => Ok tt;
  we_list_warmups := fun _ _ => Ok []; we_list_warmup_pods := fun _ _ _ _ => Ok []; we_get_target := fun _ _ _ _ => Err NotFoundError;
  we_list_target_pods := fun _ _ _ _ => Ok []; we_get_adapter := fun _ _ _ => Err NotFoundError; we_list_nodes := fun _ _ => Ok [];
  we_create_pod := fun _ _ => Err AlreadyExistsError; we_delete_pod := fun _ _ => Ok tt |}.

(** Node [a] was warmed up and is not wanted any more, node [b] is wanted. *)
Definition moved : gmap string (list WarmupAction) := {["b"%string := [Demo.preload]]}.
Definition done_elsewhere : WarmupPods := split_pods [Demo.pod "a" PodSucceeded].

Theorem existing_pod_completes :
  existsb is_completion (w_trace (reconcile_nodes (ENV := late_cache) (Demo.warmup 2) done_elsewhere moved Demo.target start).2) = true /\
  "b"%string ∈ dom moved /\ "b"%string ∉ nodes_of (pods_succeeded done_elsewhere) /\ pods_failed done_elsewhere = [].
Proof.
  split; [vm_compute; reflexivity|]. split; [unfold moved; rewrite dom_singleton; set_solver|].
  split; [apply (bool_decide_unpack (~ _)); vm_compute; exact I|reflexivity].
Qed.

(** A pod still runs on [a], which succeeded; it is the one the parallelism allows. *)
Definition busy_elsewhere : WarmupPods := split_pods [Demo.pod "a" PodSucceeded; Demo.pod "a" "Running"].

Theorem starved_completes :
  existsb is_completion (w_trace (reconcile_nodes (Demo.warmup 1) busy_elsewhere moved Demo.target start).2) = true /\
  "b"%string ∈ dom moved /\ "b"%string ∉ nodes_of (pods_succeeded busy_elsewhere) /\ pods_failed busy_elsewhere = [].
Proof.
  split; [vm_compute; reflexivity|]. split; [unfold moved; rewrite dom_singleton; set_solver|].
  split; [apply (bool_decide_unpack (~ _)); vm_compute; exact I|reflexivity].
Qed.
