(* ===== verification/Conversion.v ===== *)
(** The conversion between the API versions (api/workloads/v1alpha1): a RoleBasedGroup
    and a RoleBasedGroupSet of v1alpha1 become objects of v1alpha2, the stored version,
    and come back.  What v1alpha2 has no field for is kept in annotations.

    The JSON of the annotations is the class [ConversionCodec].  An object is described
    up to which of its empty maps and lists are nil, which its JSON does not show. *)
From Stdlib Require Import ZArith Lia Bool Ascii String.
From stdpp Require Import base tactics list strings gmap.
From S2P Require Import Prelude GoStrings IntOrString Types Conditions GroupTypes Gang GroupSet PolicyMigration.

(** * v1alpha1 (rolebasedgroup_types.go, rolebasedgroupset_types.go) *)

Record KubeSchedulingPodGroupPolicySource := { ks_ScheduleTimeoutSeconds : option Z }.
Record VolcanoSchedulingPodGroupPolicySource := { vs_PriorityClassName : string; vs_Queue : string }.

Record PodGroupPolicy := {
  pgp_KubeScheduling : option KubeSchedulingPodGroupPolicySource;
  pgp_VolcanoScheduling : option VolcanoSchedulingPodGroupPolicySource
}.

Record LeaderWorkerTemplate := {
  lwt_Size : option Z;
  lwt_PatchLeaderTemplate : option string;
  lwt_PatchWorkerTemplate : option string
}.

Record InstanceComponent := {
  ic_Name : string;
  ic_Size : option Z;
  ic_ServiceName : string;
  ic_Template : PodTemplateSpec
}.

(** A reference to a template is its name; an empty raw patch is the empty text. *)
Record OldRole := {
  old_Name : string;
  old_Labels : labels;
  old_Annotations : labels;
  old_Replicas : option Z;
  old_RolloutType : string;
  old_RollingUpdate : option RollingUpdate;
  old_RestartPolicy : string;
  old_Dependencies : list string;
  old_Workload : WorkloadSpec;
  old_Template : option PodTemplateSpec;
  old_TemplateRef : option string;
  old_TemplatePatch : string;
  old_LeaderWorkerSet : option LeaderWorkerTemplate;
  old_Components : list InstanceComponent;
  old_ServicePorts : string;
  old_EngineRuntimes : list EngineRuntime;
  old_ScalingAdapter : option bool;
  old_MinReadySeconds : Z
}.

Record OldSpec := {
  osp_Roles : list OldRole;
  osp_RoleTemplates : list RoleTemplate;
  osp_PodGroupPolicy : option PodGroupPolicy;
  osp_Coordination : list Coordination
}.

Record OldGroup := {
  og_meta : ObjectMeta;
  og_spec : OldSpec;
  og_ObservedGeneration : Z;
  og_Conditions : list Condition;
  og_RoleStatuses : list RoleStatus
}.

Record OldGroupSet := {
  ogs_meta : ObjectMeta;
  ogs_Replicas : option Z;
  ogs_Template : OldSpec;
  ogs_status : RoleBasedGroupSetStatus
}.

(** * Keys *)

Definition annotationV1alpha1PodGroupPolicy : string := "conversion.workloads.x-k8s.io/v1alpha1-pod-group-policy".
Definition annotationV1alpha1Coordination : string := annotationCoordMigration.
Definition ExclusiveKeyAnnotationKey : string := "rolebasedgroup.workloads.x-k8s.io/exclusive-topology".
Definition GroupExclusiveTopologyKey : string := RBGPrefix +:+ "group-exclusive-topology".
Definition GangSchedulingScheduleTimeoutSecondsKey : string := RBGPrefix +:+ "group-gang-scheduling-timeout".
Definition GangSchedulingVolcanoPriorityClassKey : string := RBGPrefix +:+ "group-gang-scheduling-volcano-priority".
Definition GangSchedulingVolcanoQueueKey : string := RBGPrefix +:+ "group-gang-scheduling-volcano-queue".
Definition OldRecreateUpdateStrategyType : string := "Recreate".

Class ConversionCodec := {
  marshal_policy : PodGroupPolicy -> result string;
  unmarshal_policy : string -> result PodGroupPolicy;
  marshal_coordination : list Coordination -> result string;
  unmarshal_coordination : string -> result (list Coordination)
}.

(** * From v1alpha1 *)

Definition convertUpdateStrategyTypeV1alpha1ToV2 (src : string) : string :=
  if bool_decide (src = OldRecreateUpdateStrategyType) then RecreatePodUpdateStrategyType else src.

Definition convertRollingUpdateToV2 (r : RollingUpdate) : RollingUpdate :=
  with_Type (convertUpdateStrategyTypeV1alpha1ToV2 (ru_Type r)) r.

Definition convertTemplateRefV1alpha1ToV2 (ref : string) (patch : string) : TemplateRef :=
  {| tr_Name := ref; tr_Patch := if bool_decide (patch = ""%string) then None else Some patch |}.

(** The template wins over the reference. *)
Definition convertTemplateSourceToV2 (src : OldRole) : TemplateSource :=
  match old_Template src with
  | Some t => {| ts_Template := Some t; ts_TemplateRef := None |}
  | None => {| ts_Template := None;
               ts_TemplateRef := (fun ref => convertTemplateRefV1alpha1ToV2 ref (old_TemplatePatch src)) <$> old_TemplateRef src |}
  end.

Definition restart_config (t : string) : option RestartPolicyConfig :=
  Some {| rpc_Type := t; rpc_BaseDelaySeconds := None; rpc_MaxDelaySeconds := None |}.

Definition convertComponentToV2 (c : InstanceComponent) : RoleInstanceComponent := {|
  ric_Name := ic_Name c; ric_Size := ic_Size c; ric_ServiceName := ic_ServiceName c; ric_Labels := ∅; ric_Annotations := ∅;
  ric_Template := ic_Template c |}.

Definition convertPatternToV2 (src : OldRole) : Pattern :=
  match old_LeaderWorkerSet src, old_Components src with
  | Some lws, _ =>
      {| pat_Standalone := None;
         pat_LeaderWorker := Some {| lw_Size := lwt_Size lws; lw_Source := convertTemplateSourceToV2 src;
                                     lw_LeaderTemplatePatch := lwt_PatchLeaderTemplate lws;
                                     lw_WorkerTemplatePatch := lwt_PatchWorkerTemplate lws; lw_SharedServiceSelection := None;
                                     lw_RestartPolicy := ""; lw_RestartPolicyConfig := restart_config (old_RestartPolicy src) |};
         pat_CustomComponents := None |}
  | None, [] => standalone (convertTemplateSourceToV2 src)
  | None, components =>
      {| pat_Standalone := None; pat_LeaderWorker := None;
         pat_CustomComponents := Some {| cc_Components := map convertComponentToV2 components; cc_RestartPolicy := "";
                                         cc_RestartPolicyConfig := restart_config (old_RestartPolicy src) |} |}
  end.

Definition workload_annotation (src : OldRole) : labels :=
  let w := old_Workload src in
  if negb (bool_decide (ws_APIVersion w = ""%string)) && negb (bool_decide (ws_Kind w = ""%string))
  then <[RoleWorkloadTypeAnnotationKey := ws_APIVersion w +:+ "/" +:+ ws_Kind w]> (old_Annotations src)
  else old_Annotations src.

Definition convertRoleV1alpha1ToV2 (src : OldRole) : RoleSpec := {|
  role_Name := old_Name src; role_Labels := old_Labels src; role_Annotations := workload_annotation src;
  role_Replicas := old_Replicas src; role_RollingUpdate := convertRollingUpdateToV2 <$> old_RollingUpdate src;
  role_Dependencies := old_Dependencies src; role_Pattern := convertPatternToV2 src;
  role_ScalingAdapter := (fun enable => {| sa_Enable := enable; sa_Labels := ∅ |}) <$> old_ScalingAdapter src;
  role_MinReadySeconds := old_MinReadySeconds src;
  role_rest := {| rr_RolloutType := old_RolloutType src; rr_ServicePorts := old_ServicePorts src;
                  rr_EngineRuntimes := old_EngineRuntimes src; rr_PodManagementPolicy := ""; rr_nils := "" |} |}.

(** The roles and the templates of the roles. *)
Definition convertSpecV1alpha1ToV2 (src : OldSpec) : list RoleSpec * list RoleTemplate :=
  (map convertRoleV1alpha1ToV2 (osp_Roles src), osp_RoleTemplates src).

Section conversion.
Context `{ConversionCodec}.

(** What the controllers of v1alpha2 read of a gang policy. *)
Definition translate_policy (pgp : PodGroupPolicy) (m : labels) : labels :=
  match pgp_KubeScheduling pgp, pgp_VolcanoScheduling pgp with
  | Some kube, _ =>
      let m := <[GangSchedulingAnnotationKey := "true"%string]> m in
      match ks_ScheduleTimeoutSeconds kube with
      | Some t => <[GangSchedulingScheduleTimeoutSecondsKey := Itoa t]> m
      | None => m
      end
  | None, Some volcano =>
      let m := <[GangSchedulingAnnotationKey := "true"%string]> m in
      let m := if bool_decide (vs_Queue volcano = ""%string) then m else <[GangSchedulingVolcanoQueueKey := vs_Queue volcano]> m in
      if bool_decide (vs_PriorityClassName volcano = ""%string) then m
      else <[GangSchedulingVolcanoPriorityClassKey := vs_PriorityClassName volcano]> m
  | None, None => m
  end.

Definition translate_exclusive (m : labels) : labels :=
  match m !! ExclusiveKeyAnnotationKey with Some v => <[GroupExclusiveTopologyKey := v]> m | None => m end.

Definition preserve_policy (pgp : option PodGroupPolicy) (m : labels) : result labels :=
  match pgp with
  | None => Ok m
  | Some p =>
      match marshal_policy p with
      | Err e => Err ("marshalling PodGroupPolicy: " +:+ e)
      | Ok data => Ok (translate_policy p (<[annotationV1alpha1PodGroupPolicy := data]> m))
      end
  end.

Definition preserve_coordination (coords : list Coordination) (m : labels) : result labels :=
  match coords with
  | [] => Ok m
  | _ =>
      match marshal_coordination coords with
      | Err e => Err ("marshalling CoordinationRequirements: " +:+ e)
      | Ok data => Ok (<[annotationV1alpha1Coordination := data]> m)
      end
  end.

Definition preserveV1alpha1Fields (spec : OldSpec) (annotations : labels) : result labels :=
  m ← preserve_policy (osp_PodGroupPolicy spec) (translate_exclusive annotations);
  preserve_coordination (osp_Coordination spec) m.

Definition ConvertTo (src : OldGroup) : result RoleBasedGroup :=
  let '(roles, templates) := convertSpecV1alpha1ToV2 (og_spec src) in
  annotations ← preserveV1alpha1Fields (og_spec src) (om_Annotations (og_meta src));
  Ok {| rbg_meta := with_annotations annotations (og_meta src); rbg_Roles := roles; rbg_RoleTemplates := templates;
        rbg_ObservedGeneration := og_ObservedGeneration src; rbg_Conditions := og_Conditions src;
        rbg_RoleStatuses := og_RoleStatuses src |}.

Definition ConvertSetTo (src : OldGroupSet) : result RoleBasedGroupSet :=
  let '(roles, templates) := convertSpecV1alpha1ToV2 (ogs_Template src) in
  annotations ← preserveV1alpha1Fields (ogs_Template src) (om_Annotations (ogs_meta src));
  let coordination := label_of annotations annotationV1alpha1Coordination in
  Ok {| rbgs_meta := with_annotations annotations (ogs_meta src); rbgs_Replicas := ogs_Replicas src;
        rbgs_Template := {| gt_Labels := ∅;
                            gt_Annotations := if bool_decide (coordination = ""%string) then ∅
                                              else {[annotationV1alpha1Coordination := coordination]};
                            gt_Roles := roles; gt_RoleTemplates := templates |};
        rbgs_status := ogs_status src |}.

(** * To v1alpha1 *)

Definition convertUpdateStrategyTypeV2ToV1alpha1 (src : string) : string :=
  if bool_decide (src = RecreatePodUpdateStrategyType) then OldRecreateUpdateStrategyType else src.

Definition convertRollingUpdateToV1alpha1 (r : RollingUpdate) : RollingUpdate :=
  with_Type (convertUpdateStrategyTypeV2ToV1alpha1 (ru_Type r)) r.

(** The template, the reference and the patch. *)
Definition convertTemplateSrcV2ToV1alpha1 (src : TemplateSource) : option PodTemplateSpec * option string * string :=
  match ts_Template src, ts_TemplateRef src with
  | Some t, _ => (Some t, None, ""%string)
  | None, Some ref => (None, Some (tr_Name ref), default ""%string (tr_Patch ref))
  | None, None => (None, None, ""%string)
  end.

Definition GetRawRestartPolicyType (r : RoleSpec) : string :=
  match pat_LeaderWorker (role_Pattern r), pat_CustomComponents (role_Pattern r) with
  | Some lwp, _ => rpc_Type (resolveRestartPolicyConfig (lw_RestartPolicyConfig lwp) (lw_RestartPolicy lwp) "")
  | None, Some ccp => rpc_Type (resolveRestartPolicyConfig (cc_RestartPolicyConfig ccp) (cc_RestartPolicy ccp) "")
  | None, None => ""%string
  end.

Definition convertComponentToV1alpha1 (c : RoleInstanceComponent) : InstanceComponent :=
  {| ic_Name := ric_Name c; ic_Size := ric_Size c; ic_ServiceName := ric_ServiceName c; ic_Template := ric_Template c |}.

(** What the annotation says, when it can be split; otherwise what the role runs as. *)
Definition workload_of (src : RoleSpec) : WorkloadSpec :=
  match split_last_slash (label_of (role_Annotations src) RoleWorkloadTypeAnnotationKey) with
  | Some (v, k) => {| ws_APIVersion := v; ws_Kind := k |}
  | None => GetWorkloadSpec src
  end.

Definition convertRoleV2ToV1alpha1 (src : RoleSpec) : OldRole :=
  let p := role_Pattern src in
  let '(lws, components, (template, ref, patch)) :=
    match pat_LeaderWorker p, pat_CustomComponents p, pat_Standalone p with
    | Some lwp, _, _ =>
        (Some {| lwt_Size := lw_Size lwp; lwt_PatchLeaderTemplate := lw_LeaderTemplatePatch lwp;
                 lwt_PatchWorkerTemplate := lw_WorkerTemplatePatch lwp |}, [], convertTemplateSrcV2ToV1alpha1 (lw_Source lwp))
    | None, Some ccp, _ => (None, map convertComponentToV1alpha1 (cc_Components ccp), (None, None, ""%string))
    | None, None, Some source => (None, [], convertTemplateSrcV2ToV1alpha1 source)
    | None, None, None => (None, [], (None, None, ""%string))
    end in
  {| old_Name := role_Name src; old_Labels := role_Labels src; old_Annotations := role_Annotations src;
     old_Replicas := role_Replicas src; old_RolloutType := rr_RolloutType (role_rest src);
     old_RollingUpdate := convertRollingUpdateToV1alpha1 <$> role_RollingUpdate src;
     old_RestartPolicy := GetRawRestartPolicyType src; old_Dependencies := role_Dependencies src; old_Workload := workload_of src;
     old_Template := template; old_TemplateRef := ref; old_TemplatePatch := patch; old_LeaderWorkerSet := lws;
     old_Components := components; old_ServicePorts := rr_ServicePorts (role_rest src);
     old_EngineRuntimes := rr_EngineRuntimes (role_rest src); old_ScalingAdapter := sa_Enable <$> role_ScalingAdapter src;
     old_MinReadySeconds := role_MinReadySeconds src |}.

Definition restored {A} (what key : string) (unmarshal : string -> result A) (annotations : labels) : result (option A) :=
  let raw := label_of annotations key in
  if bool_decide (raw = ""%string) then Ok None
  else match unmarshal raw with
       | Ok v => Ok (Some v)
       | Err e => Err ("unmarshalling " +:+ what +:+ ": " +:+ e)
       end.

Definition restoreV1alpha1Fields (annotations : labels) : result (option PodGroupPolicy * list Coordination) :=
  pgp ← restored "PodGroupPolicy" annotationV1alpha1PodGroupPolicy unmarshal_policy annotations;
  coords ← restored "CoordinationRequirements" annotationV1alpha1Coordination unmarshal_coordination annotations;
  Ok (pgp, default [] coords).

Definition conversion_keys : list string :=
  [annotationV1alpha1PodGroupPolicy; annotationV1alpha1Coordination; GangSchedulingAnnotationKey;
   GangSchedulingScheduleTimeoutSecondsKey; GangSchedulingVolcanoQueueKey; GangSchedulingVolcanoPriorityClassKey;
   GroupExclusiveTopologyKey].

Definition removeConversionAnnotations (m : labels) : labels := fold_left (fun m k => delete k m) conversion_keys m.

Definition convertSpecV2ToV1alpha1 (roles : list RoleSpec) (templates : list RoleTemplate) (pgp : option PodGroupPolicy)
    (coords : list Coordination) : OldSpec :=
  {| osp_Roles := map convertRoleV2ToV1alpha1 roles; osp_RoleTemplates := templates; osp_PodGroupPolicy := pgp;
     osp_Coordination := coords |}.

Definition ConvertFrom (src : RoleBasedGroup) : result OldGroup :=
  '(pgp, coords) ← restoreV1alpha1Fields (om_Annotations (rbg_meta src));
  Ok {| og_meta := with_annotations (removeConversionAnnotations (om_Annotations (rbg_meta src))) (rbg_meta src);
        og_spec := convertSpecV2ToV1alpha1 (rbg_Roles src) (rbg_RoleTemplates src) pgp coords;
        og_ObservedGeneration := rbg_ObservedGeneration src; og_Conditions := rbg_Conditions src;
        og_RoleStatuses := rbg_RoleStatuses src |}.

Definition ConvertSetFrom (src : RoleBasedGroupSet) : result OldGroupSet :=
  '(pgp, coords) ← restoreV1alpha1Fields (om_Annotations (rbgs_meta src));
  Ok {| ogs_meta := with_annotations (removeConversionAnnotations (om_Annotations (rbgs_meta src))) (rbgs_meta src);
        ogs_Replicas := rbgs_Replicas src;
        ogs_Template := convertSpecV2ToV1alpha1 (gt_Roles (rbgs_Template src)) (gt_RoleTemplates (rbgs_Template src)) pgp coords;
        ogs_status := rbgs_status src |}.
End conversion.

(** * Splitting the workload type *)

Lemma after_last_app c cur l k : c ∉ k -> after_last c cur (l ++ c :: k) = k.
Proof.
  intros Hk. revert cur. induction l as [|x l IH]; intros cur; cbn [app after_last].
  - rewrite bool_decide_eq_true_2 by done. by apply after_last_free.
  - case_bool_decide; apply IH.
Qed.

Lemma split_last_slash_join v k :
  v <> ""%string -> "/"%char ∉ chars k -> split_last_slash (v +:+ "/" +:+ k) = Some (v, k).
Proof.
  intros Hv Hk. unfold split_last_slash, LastField.
  assert (chars (v +:+ "/" +:+ k) = chars v ++ "/"%char :: chars k) as Hc by (by rewrite !chars_app).
  rewrite Hc, after_last_app, of_chars_chars by done.
  assert (String.length (v +:+ "/" +:+ k) - String.length k = S (length (chars v)))%nat as ->.
  { rewrite !string_length_chars, Hc, length_app. cbn [length]. lia. }
  assert (length (chars v) <> O) as Hlen by (destruct v; cbn; [done|lia]).
  destruct (Nat.ltb_spec 1 (S (length (chars v)))); [|lia].
  replace (S (length (chars v)) - 1)%nat with (length (chars v)) by lia.
  by rewrite take_app_length, of_chars_chars.
Qed.

(** * What comes back of a role *)

Definition named_workload (r : OldRole) : Prop :=
  ws_APIVersion (old_Workload r) <> ""%string /\ ws_Kind (old_Workload r) <> ""%string /\ "/"%char ∉ chars (ws_Kind (old_Workload r)).

(** A role without what v1alpha2 does not keep: the leader-worker template excludes
    components, these exclude a template, a template excludes a reference, a patch needs
    a reference, a restart policy a pattern of several pods; RecreatePod is spelled
    Recreate, and an annotation names the workload. *)
Definition normal_role (r : OldRole) : OldRole :=
  let lws := old_LeaderWorkerSet r in
  let components := match lws with Some _ => [] | None => old_Components r end in
  let template := match components with [] => old_Template r | _ => None end in
  let ref := match components, template with [], None => old_TemplateRef r | _, _ => None end in
  {| old_Name := old_Name r; old_Labels := old_Labels r; old_Annotations := workload_annotation r; old_Replicas := old_Replicas r;
     old_RolloutType := old_RolloutType r;
     old_RollingUpdate := (fun u => with_Type (convertUpdateStrategyTypeV2ToV1alpha1 (ru_Type u)) u) <$> old_RollingUpdate r;
     old_RestartPolicy := match lws, components with None, [] => ""%string | _, _ => old_RestartPolicy r end;
     old_Dependencies := old_Dependencies r; old_Workload := old_Workload r; old_Template := template; old_TemplateRef := ref;
     old_TemplatePatch := match ref with Some _ => old_TemplatePatch r | None => ""%string end; old_LeaderWorkerSet := lws;
     old_Components := components; old_ServicePorts := old_ServicePorts r; old_EngineRuntimes := old_EngineRuntimes r;
     old_ScalingAdapter := old_ScalingAdapter r; old_MinReadySeconds := old_MinReadySeconds r |}.

Definition normal (g : OldGroup) : OldGroup := {|
  og_meta := og_meta g;
  og_spec := {| osp_Roles := map normal_role (osp_Roles (og_spec g)); osp_RoleTemplates := osp_RoleTemplates (og_spec g);
                osp_PodGroupPolicy := osp_PodGroupPolicy (og_spec g); osp_Coordination := osp_Coordination (og_spec g) |};
  og_ObservedGeneration := og_ObservedGeneration g; og_Conditions := og_Conditions g; og_RoleStatuses := og_RoleStatuses g |}.

Lemma workload_annotation_named r : named_workload r ->
  workload_annotation r = <[RoleWorkloadTypeAnnotationKey := ws_APIVersion (old_Workload r) +:+ "/" +:+ ws_Kind (old_Workload r)]> (old_Annotations r).
Proof. intros (Hv & Hk & _). unfold workload_annotation. by rewrite !bool_decide_eq_false_2. Qed.

Lemma update_type_back t :
  convertUpdateStrategyTypeV2ToV1alpha1 (convertUpdateStrategyTypeV1alpha1ToV2 t) = convertUpdateStrategyTypeV2ToV1alpha1 t.
Proof.
  unfold convertUpdateStrategyTypeV1alpha1ToV2. case_bool_decide as Ht; [|done]. by rewrite Ht.
Qed.

Lemma update_type_again t :
  convertUpdateStrategyTypeV1alpha1ToV2 (convertUpdateStrategyTypeV2ToV1alpha1 t) = convertUpdateStrategyTypeV1alpha1ToV2 t.
Proof.
  unfold convertUpdateStrategyTypeV2ToV1alpha1. case_bool_decide as Ht; [|done]. by rewrite Ht.
Qed.

Lemma components_back l : map convertComponentToV1alpha1 (map convertComponentToV2 l) = l.
Proof. induction l as [|[] l IH]; [done|]. cbn. by rewrite IH. Qed.

Lemma raw_restart_config t : rpc_Type (resolveRestartPolicyConfig (restart_config t) "" "") = t.
Proof. destruct (decide (t = ""%string)) as [->|Ht]; [done|]. unfold resolveRestartPolicyConfig. cbn. by rewrite bool_decide_eq_true_2. Qed.

Lemma convertTemplateSrc_back r : convertTemplateSrcV2ToV1alpha1 (convertTemplateSourceToV2 r) =
  (old_Template r, match old_Template r with None => old_TemplateRef r | Some _ => None end,
   match old_Template r, old_TemplateRef r with None, Some _ => old_TemplatePatch r | _, _ => ""%string end).
Proof.
  unfold convertTemplateSourceToV2, convertTemplateSrcV2ToV1alpha1. destruct (old_Template r); [done|].
  destruct (old_TemplateRef r); [|done]. cbn. case_bool_decide as Hp; [by rewrite Hp|done].
Qed.

Lemma role_back r : named_workload r -> convertRoleV2ToV1alpha1 (convertRoleV1alpha1ToV2 r) = normal_role r.
Proof.
  intros Hw. unfold convertRoleV2ToV1alpha1, normal_role, GetRawRestartPolicyType, workload_of, convertRoleV1alpha1ToV2, convertPatternToV2.
  cbn [role_Pattern role_Annotations role_RollingUpdate role_ScalingAdapter role_rest role_Name role_Labels role_Replicas role_Dependencies
       role_MinReadySeconds rr_RolloutType rr_ServicePorts rr_EngineRuntimes].
  assert (split_last_slash (label_of (workload_annotation r) RoleWorkloadTypeAnnotationKey) =
            Some (ws_APIVersion (old_Workload r), ws_Kind (old_Workload r))) as ->.
  { rewrite (workload_annotation_named r Hw). unfold label_of. rewrite lookup_insert_eq. cbn [default]. destruct Hw as (Hv & _ & Hk).
    by apply split_last_slash_join. }
  assert (convertRollingUpdateToV1alpha1 <$> (convertRollingUpdateToV2 <$> old_RollingUpdate r) =
            (fun u => with_Type (convertUpdateStrategyTypeV2ToV1alpha1 (ru_Type u)) u) <$> old_RollingUpdate r) as ->.
  { destruct (old_RollingUpdate r) as [u|]; [|done]. cbn. f_equal. unfold convertRollingUpdateToV1alpha1, convertRollingUpdateToV2.
    cbn [ru_Type with_Type]. by rewrite update_type_back. }
  assert (sa_Enable <$> ((fun enable => {| sa_Enable := enable; sa_Labels := ∅ |}) <$> old_ScalingAdapter r) = old_ScalingAdapter r) as ->
    by (by destruct (old_ScalingAdapter r)).
  destruct (old_Workload r) as [v k]. cbn [ws_APIVersion ws_Kind].
  destruct (old_LeaderWorkerSet r) as [[]|]; [|destruct (old_Components r) as [|c l]];
    cbn [pat_Standalone pat_LeaderWorker pat_CustomComponents standalone lw_Size lw_Source lw_LeaderTemplatePatch lw_WorkerTemplatePatch
         lw_RestartPolicy lw_RestartPolicyConfig cc_Components cc_RestartPolicy cc_RestartPolicyConfig lwt_Size lwt_PatchLeaderTemplate
         lwt_PatchWorkerTemplate]; rewrite ?convertTemplateSrc_back, ?raw_restart_config, ?components_back;
    by destruct (old_Template r), (old_TemplateRef r).
Qed.

Lemma source_again r : convertTemplateSourceToV2 (normal_role r) =
  match old_LeaderWorkerSet r, old_Components r with
  | None, _ :: _ => no_template
  | _, _ => convertTemplateSourceToV2 r
  end.
Proof.
  unfold convertTemplateSourceToV2, normal_role. cbn [old_Template old_TemplateRef old_TemplatePatch].
  destruct (old_LeaderWorkerSet r), (old_Components r), (old_Template r), (old_TemplateRef r); done.
Qed.

(** Written again, a role is stored as it was. *)
Lemma role_again r : named_workload r -> convertRoleV1alpha1ToV2 (normal_role r) = convertRoleV1alpha1ToV2 r.
Proof.
  intros Hw. unfold convertRoleV1alpha1ToV2.
  assert (workload_annotation (normal_role r) = workload_annotation r) as ->.
  { rewrite (workload_annotation_named r Hw). rewrite workload_annotation_named by exact Hw. cbn [normal_role old_Workload old_Annotations].
    rewrite (workload_annotation_named r Hw). apply insert_insert_eq. }
  assert (convertRollingUpdateToV2 <$> old_RollingUpdate (normal_role r) = convertRollingUpdateToV2 <$> old_RollingUpdate r) as ->.
  { cbn [normal_role old_RollingUpdate]. destruct (old_RollingUpdate r) as [u|]; [|done]. cbn. f_equal. unfold convertRollingUpdateToV2.
    cbn [ru_Type with_Type]. by rewrite update_type_again. }
  assert (convertPatternToV2 (normal_role r) = convertPatternToV2 r) as ->; [|done].
  unfold convertPatternToV2. rewrite source_again. cbn [normal_role old_LeaderWorkerSet old_Components old_RestartPolicy].
  destruct (old_LeaderWorkerSet r), (old_Components r); done.
Qed.

(** * Annotations *)

Ltac other_key := let E := fresh in intros E; vm_compute in E; discriminate E.

Lemma lookup_removed m k : removeConversionAnnotations m !! k = if bool_decide (k ∈ conversion_keys) then None else m !! k.
Proof.
  unfold removeConversionAnnotations. revert m. induction conversion_keys as [|key keys IH]; intros m; cbn [fold_left]; [done|].
  rewrite IH. destruct (decide (k ∈ keys)) as [Hk|Hk].
  - by rewrite !bool_decide_eq_true_2 by (try done; by right).
  - rewrite (bool_decide_eq_false_2 (k ∈ keys)) by done. destruct (decide (k = key)) as [->|Hne].
    + rewrite lookup_delete_eq. by rewrite bool_decide_eq_true_2 by (by left).
    + rewrite lookup_delete_ne by done. rewrite bool_decide_eq_false_2; [done|]. intros [?|?]%elem_of_cons; done.
Qed.

Lemma insert_off (k key v : string) (m : labels) : key ∈ conversion_keys -> k ∉ conversion_keys -> <[key := v]> m !! k = m !! k.
Proof. intros Hin Hk. rewrite lookup_insert_ne; [done|]. intros ->. done. Qed.

Ltac conversion_key := repeat first [by left | right].

Section roundtrip.
Context `{ConversionCodec}.

(** What the two encodings promise. *)
Record lossless_codec : Prop := {
  policy_decodes : forall p s, marshal_policy p = Ok s -> s <> ""%string /\ unmarshal_policy s = Ok p;
  coordination_decodes : forall l s, marshal_coordination l = Ok s -> s <> ""%string /\ unmarshal_coordination s = Ok l
}.

Lemma translate_policy_off p m k : k ∉ conversion_keys -> translate_policy p m !! k = m !! k.
Proof.
  intros Hk. unfold translate_policy. destruct (pgp_KubeScheduling p) as [kube|]; [|destruct (pgp_VolcanoScheduling p) as [volcano|]; [|done]].
  - destruct (ks_ScheduleTimeoutSeconds kube); rewrite !insert_off by (done || conversion_key); done.
  - repeat case_bool_decide; rewrite !insert_off by (done || conversion_key); done.
Qed.

Lemma translate_exclusive_off m k : k ∉ conversion_keys -> translate_exclusive m !! k = m !! k.
Proof.
  intros Hk. unfold translate_exclusive. destruct (m !! ExclusiveKeyAnnotationKey); [|done]. by rewrite insert_off by (done || conversion_key).
Qed.

Lemma translate_policy_kept p m k :
  k ∈ [annotationV1alpha1PodGroupPolicy; annotationV1alpha1Coordination] -> translate_policy p m !! k = m !! k.
Proof.
  intros Hk. assert (k <> GangSchedulingAnnotationKey /\ k <> GangSchedulingScheduleTimeoutSecondsKey /\
                     k <> GangSchedulingVolcanoQueueKey /\ k <> GangSchedulingVolcanoPriorityClassKey) as (H1 & H2 & H3 & H4).
  { apply elem_of_cons in Hk. destruct Hk as [->| ->%list_elem_of_singleton]; split_and!; other_key. }
  unfold translate_policy. destruct (pgp_KubeScheduling p) as [kube|]; [|destruct (pgp_VolcanoScheduling p) as [volcano|]; [|done]].
  - destruct (ks_ScheduleTimeoutSeconds kube); by rewrite !lookup_insert_ne by done.
  - repeat case_bool_decide; by rewrite !lookup_insert_ne by done.
Qed.

Lemma translate_exclusive_kept m k : k <> GroupExclusiveTopologyKey -> translate_exclusive m !! k = m !! k.
Proof. intros Hk. unfold translate_exclusive. destruct (m !! _); [|done]. by rewrite lookup_insert_ne by done. Qed.

(** Only annotations of the conversion are written. *)
Lemma preserved_off spec m m' k : preserveV1alpha1Fields spec m = Ok m' -> k ∉ conversion_keys -> m' !! k = m !! k.
Proof.
  unfold preserveV1alpha1Fields, preserve_policy, preserve_coordination. intros Hp Hk.
  destruct (osp_PodGroupPolicy spec) as [p|]; [destruct (marshal_policy p) as [data|]; [|done]|]; cbn in Hp.
  all: destruct (osp_Coordination spec) as [|c l];
    [|destruct (marshal_coordination _) as [text|]; [|done]]; injection Hp as <-.
  all: rewrite ?insert_off, ?translate_policy_off, ?insert_off, ?translate_exclusive_off by (done || conversion_key); done.
Qed.

Definition free_of_conversion (m : labels) : Prop := forall k, k ∈ conversion_keys -> m !! k = None.

Lemma removed_preserved spec m m' :
  free_of_conversion m -> preserveV1alpha1Fields spec m = Ok m' -> removeConversionAnnotations m' = m.
Proof.
  intros Hfree Hp. apply map_eq. intros k. rewrite lookup_removed. case_bool_decide as Hk; [by rewrite Hfree|]. by eapply preserved_off.
Qed.

Lemma preserved_restored spec m m' :
  lossless_codec -> free_of_conversion m -> preserveV1alpha1Fields spec m = Ok m' ->
  restoreV1alpha1Fields m' = Ok (osp_PodGroupPolicy spec, osp_Coordination spec).
Proof.
  intros Hcodec Hfree. unfold preserveV1alpha1Fields, preserve_policy, preserve_coordination, restoreV1alpha1Fields, restored, label_of.
  assert (m !! annotationV1alpha1PodGroupPolicy = None) as Hp0 by (apply Hfree; conversion_key).
  assert (m !! annotationV1alpha1Coordination = None) as Hc0 by (apply Hfree; conversion_key).
  assert (annotationV1alpha1Coordination <> annotationV1alpha1PodGroupPolicy) as Hne by other_key.
  assert (annotationV1alpha1PodGroupPolicy <> GroupExclusiveTopologyKey) as Hpe by other_key.
  assert (annotationV1alpha1Coordination <> GroupExclusiveTopologyKey) as Hce by other_key.
  intros Hm.
  assert (exists m1, match osp_PodGroupPolicy spec with
                     | None => m1 !! annotationV1alpha1PodGroupPolicy = None
                     | Some p => exists data, marshal_policy p = Ok data /\ m1 !! annotationV1alpha1PodGroupPolicy = Some data
                     end /\ m1 !! annotationV1alpha1Coordination = None /\
            match osp_Coordination spec with
            | [] => Ok m1
            | _ => match marshal_coordination (osp_Coordination spec) with
                   | Err e => Err ("marshalling CoordinationRequirements: " +:+ e)
                   | Ok data => Ok (<[annotationV1alpha1Coordination := data]> m1)
                   end
            end = Ok m') as (m1 & Hpol & Hco & Hm1).
  { destruct (osp_PodGroupPolicy spec) as [p|].
    - destruct (marshal_policy p) as [data|] eqn:Hd; [|done]. cbn [mbind result_bind] in Hm. eexists. split_and!; [| |exact Hm].
      + exists data. split; [done|]. rewrite translate_policy_kept by (by left). apply lookup_insert_eq.
      + rewrite translate_policy_kept by (by right; left). rewrite lookup_insert_ne by congruence. by rewrite translate_exclusive_kept.
    - eexists. split_and!; [| |exact Hm]; by rewrite translate_exclusive_kept. }
  clear Hm. assert (m' !! annotationV1alpha1PodGroupPolicy = m1 !! annotationV1alpha1PodGroupPolicy) as Hpp.
  { destruct (osp_Coordination spec); [by injection Hm1 as <-|]. destruct (marshal_coordination _); [|done]. injection Hm1 as <-.
    by rewrite lookup_insert_ne. }
  rewrite Hpp.
  assert ((if bool_decide (default ""%string (m1 !! annotationV1alpha1PodGroupPolicy) = ""%string) then Ok None
           else match unmarshal_policy (default ""%string (m1 !! annotationV1alpha1PodGroupPolicy)) with
                | Ok v => Ok (Some v)
                | Err e => Err ("unmarshalling " +:+ "PodGroupPolicy" +:+ ": " +:+ e)
                end) = Ok (osp_PodGroupPolicy spec)) as ->.
  { destruct (osp_PodGroupPolicy spec) as [p|]; [|by rewrite Hpol]. destruct Hpol as (data & Hd & ->). cbn [default from_option id].
    destruct (policy_decodes Hcodec _ _ Hd) as [Hnz ->]. by rewrite bool_decide_eq_false_2. }
  cbn [mbind result_bind]. destruct (osp_Coordination spec) as [|c l] eqn:Hcl; [injection Hm1 as <-; by rewrite Hco|].
  destruct (marshal_coordination (c :: l)) as [text|] eqn:Ht; [|done]. injection Hm1 as <-. rewrite lookup_insert_eq. cbn [default from_option id].
  destruct (coordination_decodes Hcodec _ _ Ht) as [Hnz ->]. by rewrite bool_decide_eq_false_2.
Qed.

Lemma convertSpec_normal spec : Forall named_workload (osp_Roles spec) ->
  map convertRoleV2ToV1alpha1 (map convertRoleV1alpha1ToV2 (osp_Roles spec)) = map normal_role (osp_Roles spec) /\
  map convertRoleV1alpha1ToV2 (map normal_role (osp_Roles spec)) = map convertRoleV1alpha1ToV2 (osp_Roles spec).
Proof.
  intros Hroles. rewrite !map_map.
  split; apply map_ext_in; intros r Hr%list_elem_of_In; rewrite Forall_forall in Hroles; [by apply role_back, Hroles|by apply role_again, Hroles].
Qed.

Lemma with_annotations_back m a : with_annotations (om_Annotations m) (with_annotations a m) = m.
Proof. by destruct m. Qed.

(** C11: The round trip through the stored version.  A v1alpha1 group whose annotations are
    its own and whose roles name their workloads, as the defaults of its schema make
    sure, comes back as its normal form: the same group but for what v1alpha2 has no
    place for in its roles.  The gang policy and the coordination survive whole, and
    writing what came back stores the same object again. *)
Theorem conversion_round_trip g h :
  lossless_codec -> free_of_conversion (om_Annotations (og_meta g)) -> Forall named_workload (osp_Roles (og_spec g)) ->
  ConvertTo g = Ok h -> ConvertFrom h = Ok (normal g) /\ ConvertTo (normal g) = Ok h.
Proof.
  intros Hcodec Hfree Hroles Hto. destruct (convertSpec_normal (og_spec g) Hroles) as [Hback Hagain].
  unfold ConvertTo, convertSpecV1alpha1ToV2 in Hto. destruct (preserveV1alpha1Fields _ _) as [m|] eqn:Hm; [|done].
  cbn [mbind result_bind] in Hto. injection Hto as <-. split.
  - unfold ConvertFrom. cbn [rbg_meta om_Annotations with_annotations]. rewrite (preserved_restored _ _ _ Hcodec Hfree Hm).
    cbn [mbind result_bind]. rewrite (removed_preserved _ _ _ Hfree Hm), with_annotations_back.
    unfold convertSpecV2ToV1alpha1. cbn [rbg_Roles rbg_RoleTemplates rbg_ObservedGeneration rbg_Conditions rbg_RoleStatuses].
    by rewrite Hback.
  - unfold ConvertTo, convertSpecV1alpha1ToV2. cbn [normal og_spec og_meta osp_Roles osp_RoleTemplates]. rewrite Hagain.
    assert (preserveV1alpha1Fields (og_spec (normal g)) (om_Annotations (og_meta g)) = Ok m) as Hm' by exact Hm.
    unfold normal in Hm'. cbn [og_spec] in Hm'. by rewrite Hm'.
Qed.

(** The same for a set: its policy and coordination live in the annotations of the set. *)
Definition normal_set (s : OldGroupSet) : OldGroupSet := {|
  ogs_meta := ogs_meta s; ogs_Replicas := ogs_Replicas s;
  ogs_Template := {| osp_Roles := map normal_role (osp_Roles (ogs_Template s)); osp_RoleTemplates := osp_RoleTemplates (ogs_Template s);
                     osp_PodGroupPolicy := osp_PodGroupPolicy (ogs_Template s); osp_Coordination := osp_Coordination (ogs_Template s) |};
  ogs_status := ogs_status s |}.

Lemma set_round_trip s h :
  lossless_codec -> free_of_conversion (om_Annotations (ogs_meta s)) -> Forall named_workload (osp_Roles (ogs_Template s)) ->
  ConvertSetTo s = Ok h -> ConvertSetFrom h = Ok (normal_set s) /\ ConvertSetTo (normal_set s) = Ok h.
Proof.
  intros Hcodec Hfree Hroles Hto. destruct (convertSpec_normal (ogs_Template s) Hroles) as [Hback Hagain].
  unfold ConvertSetTo, convertSpecV1alpha1ToV2 in Hto. destruct (preserveV1alpha1Fields _ _) as [m|] eqn:Hm; [|done].
  cbn [mbind result_bind] in Hto. injection Hto as <-. split.
  - unfold ConvertSetFrom. cbn [rbgs_meta om_Annotations with_annotations]. rewrite (preserved_restored _ _ _ Hcodec Hfree Hm).
    cbn [mbind result_bind]. rewrite (removed_preserved _ _ _ Hfree Hm), with_annotations_back.
    unfold convertSpecV2ToV1alpha1. cbn [rbgs_Replicas rbgs_Template rbgs_status gt_Roles gt_RoleTemplates]. by rewrite Hback.
  - unfold ConvertSetTo, convertSpecV1alpha1ToV2. cbn [normal_set ogs_Template ogs_meta osp_Roles osp_RoleTemplates]. rewrite Hagain.
    assert (preserveV1alpha1Fields (ogs_Template (normal_set s)) (om_Annotations (ogs_meta s)) = Ok m) as Hm' by exact Hm.
    unfold normal_set in Hm'. cbn [ogs_Template] in Hm'. by rewrite Hm'.
Qed.

(** C39: A group that was never v1alpha1 does not survive the way there and back: its own
    gang annotation is taken for one of the conversion and removed for good, and each
    role without a workload type comes back with one. *)
Theorem native_groups_change :
  (forall h g h', label_of (om_Annotations (rbg_meta h)) annotationV1alpha1PodGroupPolicy = ""%string ->
     ConvertFrom h = Ok g -> ConvertTo g = Ok h' -> om_Annotations (rbg_meta h') !! GangSchedulingAnnotationKey = None) /\
  (forall r, label_of (role_Annotations r) RoleWorkloadTypeAnnotationKey = ""%string ->
     role_Annotations (convertRoleV1alpha1ToV2 (convertRoleV2ToV1alpha1 r)) !! RoleWorkloadTypeAnnotationKey
     = Some RoleInstanceSetWorkloadType).
Proof.
  split.
  - intros h g h' Hraw Hfrom Hto. unfold ConvertFrom, restoreV1alpha1Fields, restored in Hfrom. rewrite Hraw in Hfrom.
    cbv zeta in Hfrom. rewrite (bool_decide_eq_true_2 (""%string = ""%string)) in Hfrom by done. cbn [mbind result_bind] in Hfrom.
    destruct (if bool_decide _ then _ else _) as [coords|]; [|done]. cbn [mbind result_bind] in Hfrom. injection Hfrom as <-.
    unfold ConvertTo, convertSpecV1alpha1ToV2, preserveV1alpha1Fields, preserve_policy, preserve_coordination in Hto.
    cbn [og_spec og_meta convertSpecV2ToV1alpha1 osp_PodGroupPolicy osp_Coordination om_Annotations with_annotations mbind result_bind] in Hto.
    set (m := removeConversionAnnotations _) in Hto.
    assert (translate_exclusive m !! GangSchedulingAnnotationKey = None) as Hnone.
    { rewrite translate_exclusive_kept by other_key. unfold m. rewrite lookup_removed.
      by rewrite bool_decide_eq_true_2 by (unfold conversion_keys; conversion_key). }
    destruct (default [] coords) as [|c l]; [injection Hto as <-; exact Hnone|].
    destruct (marshal_coordination (c :: l)) as [text|]; [|done]. cbn [mbind result_bind] in Hto. injection Hto as <-. cbn [rbg_meta om_Annotations with_annotations].
    rewrite lookup_insert_ne by other_key. exact Hnone.
  - intros r Hr. unfold convertRoleV1alpha1ToV2. cbn [role_Annotations].
    assert (workload_of r = {| ws_APIVersion := "workloads.x-k8s.io/v1alpha2"; ws_Kind := "RoleInstanceSet" |}) as Hw.
    { unfold workload_of, GetWorkloadSpec, GetWorkloadType. rewrite Hr. reflexivity. }
    unfold workload_annotation, convertRoleV2ToV1alpha1.
    destruct (match pat_LeaderWorker _ with Some _ => _ | None => _ end) as [[lws components] [[template ref] patch]].
    cbn [old_Workload old_Annotations]. rewrite Hw. cbn [ws_APIVersion ws_Kind]. rewrite !bool_decide_eq_false_2 by done.
    cbn [negb andb]. by rewrite lookup_insert_eq.
Qed.
End roundtrip.

(** * An object on its way *)
Module ConversionDemo.
#[local] Instance KubeSchedulingPodGroupPolicySource_eq_dec : EqDecision KubeSchedulingPodGroupPolicySource.
Proof. solve_decision. Defined.
#[local] Instance VolcanoSchedulingPodGroupPolicySource_eq_dec : EqDecision VolcanoSchedulingPodGroupPolicySource.
Proof. solve_decision. Defined.
#[local] Instance PodGroupPolicy_eq_dec : EqDecision PodGroupPolicy.
Proof. solve_decision. Defined.

Definition policy : PodGroupPolicy :=
  {| pgp_KubeScheduling := Some {| ks_ScheduleTimeoutSeconds := Some 60 |}; pgp_VolcanoScheduling := None |}.

(** An encoder that knows one policy. *)
Definition codec : ConversionCodec := {|
  marshal_policy := fun p => if bool_decide (p = policy) then Ok "policy"%string else Err "unknown"%string;
  unmarshal_policy := fun _ => Ok policy;
  marshal_coordination := fun _ => Err "unknown"%string;
  unmarshal_coordination := fun _ => Ok [] |}.

Definition role : OldRole := {|
  old_Name := "worker"; old_Labels := ∅; old_Annotations := ∅; old_Replicas := Some 2; old_RolloutType := "RollingUpdate";
  old_RollingUpdate := Some (with_Type "Recreate" empty_RollingUpdate); old_RestartPolicy := "None"; old_Dependencies := [];
  old_Workload := {| ws_APIVersion := "apps/v1"; ws_Kind := "StatefulSet" |}; old_Template := None; old_TemplateRef := Some "base"%string;
  old_TemplatePatch := "{}"; old_LeaderWorkerSet := None; old_Components := []; old_ServicePorts := ""; old_EngineRuntimes := [];
  old_ScalingAdapter := Some true; old_MinReadySeconds := 0 |}.

Definition group : OldGroup := {|
  og_meta := with_annotations {["team"%string := "a"%string]} (with_name "web" "default" empty_meta);
  og_spec := {| osp_Roles := [role]; osp_RoleTemplates := []; osp_PodGroupPolicy := Some policy; osp_Coordination := [] |};
  og_ObservedGeneration := 1; og_Conditions := []; og_RoleStatuses := [] |}.

Definition hub : RoleBasedGroup :=
  match @ConvertTo codec group with
  | Ok h => h
  | Err _ => {| rbg_meta := empty_meta; rbg_Roles := []; rbg_RoleTemplates := []; rbg_ObservedGeneration := 0; rbg_Conditions := [];
                rbg_RoleStatuses := [] |}
  end.

(** A group of v1alpha2 that asks for gang scheduling. *)
Definition native_role : RoleSpec := {|
  role_Name := "worker"; role_Labels := ∅; role_Annotations := ∅; role_Replicas := Some 1; role_RollingUpdate := None;
  role_Dependencies := []; role_Pattern := standalone no_template; role_ScalingAdapter := None; role_MinReadySeconds := 0;
  role_rest := no_rest |}.

Definition native : RoleBasedGroup := {|
  rbg_meta := with_annotations {[GangSchedulingAnnotationKey := "true"%string]} (with_name "web" "default" empty_meta);
  rbg_Roles := [native_role]; rbg_RoleTemplates := []; rbg_ObservedGeneration := 0; rbg_Conditions := []; rbg_RoleStatuses := [] |}.

Definition nothing : RoleBasedGroup := {|
  rbg_meta := empty_meta; rbg_Roles := []; rbg_RoleTemplates := []; rbg_ObservedGeneration := 0; rbg_Conditions := [];
  rbg_RoleStatuses := [] |}.

Definition there_and_back : RoleBasedGroup :=
  match @ConvertFrom codec native with
  | Ok g => match @ConvertTo codec g with Ok h => h | Err _ => nothing end
  | Err _ => nothing
  end.
Definition read_back : OldGroup := match @ConvertFrom codec native with Ok g => g | Err _ => group end.
End ConversionDemo.

Lemma conversion_round_trip_witness :
  @ConvertTo ConversionDemo.codec ConversionDemo.group = Ok ConversionDemo.hub /\
  @ConvertFrom ConversionDemo.codec ConversionDemo.hub = Ok (normal ConversionDemo.group) /\
  @ConvertTo ConversionDemo.codec (normal ConversionDemo.group) = Ok ConversionDemo.hub.
Proof.
  split; [reflexivity|]. apply (@conversion_round_trip ConversionDemo.codec).
  - split; [intros p s; cbn; case_bool_decide as Hp; [|done]; intros [= <-]; by rewrite Hp|done].
  - intros k Hk. cbn. rewrite lookup_singleton_ne; [done|]. intros <-. revert Hk. apply (bool_decide_unpack _). vm_compute. exact I.
  - repeat constructor; [discriminate..|]. apply (bool_decide_unpack _). vm_compute. exact I.
  - reflexivity.
Defined.

Lemma native_groups_change_witness :
  om_Annotations (rbg_meta ConversionDemo.native) !! GangSchedulingAnnotationKey = Some "true"%string /\
  om_Annotations (rbg_meta ConversionDemo.there_and_back) !! GangSchedulingAnnotationKey = None /\
  role_Annotations (convertRoleV1alpha1ToV2 (convertRoleV2ToV1alpha1 ConversionDemo.native_role)) !! RoleWorkloadTypeAnnotationKey
  = Some RoleInstanceSetWorkloadType.
Proof.
  destruct (@native_groups_change ConversionDemo.codec) as [Hgang Hrole]. split_and!; [reflexivity| |].
  - apply (Hgang ConversionDemo.native ConversionDemo.read_back); reflexivity.
  - by apply Hrole.
Defined.
