(* ===== verification/GangScheduler.v ===== *)
(** Gang scheduling (pkg/scheduler): the PodGroup that a group with a gang owns, for the
    coscheduling plugin (k8s-scheduler-plugin/scheduler.go) and for Volcano
    (volcano/scheduler.go), and the fields a pod needs to join it.

    The two plugins keep different kinds of PodGroup and write them the same way: the
    functions they share are written once, over the spec of the kind.  The set of
    watched kinds and Volcano's probe of the CRD live in memory, beside the requests. *)
From Stdlib Require Import ZArith Lia Bool Ascii String.
From stdpp Require Import base tactics list strings gmap sets.
From S2P Require Import Prelude GoStrings Types GroupTypes Gang Effects Revisions Owners InstancePods InstanceReconcile Requests GroupWorld.

(** * The objects *)

Record PodGroup (Spec : Type) := { pg_meta : ObjectMeta; pg_spec : Spec }.
Arguments pg_meta {Spec} _.
Arguments pg_spec {Spec} _.
Arguments Build_PodGroup {Spec} _ _.

(** A schema of a CustomResourceDefinition, as far as it is looked into. *)
Inductive JSONSchemaProps := schema_props (Properties : gmap string JSONSchemaProps).

Record CRDVersion := { crdv_Name : string; crdv_Served : bool; crdv_OpenAPIV3Schema : option JSONSchemaProps }.

Record CustomResourceDefinition := {
  (* the type and status of each condition *)
  crd_Conditions : list (string * string);
  crd_Versions : list CRDVersion
}.

(** * Requests *)

Inductive scheduler_call (Spec : Type) :=
| CallGetCRD (name : string)
| CallGetPodGroup (namespace name : string)
| CallCreatePodGroup (pg : PodGroup Spec)
| CallUpdatePodGroup (pg : PodGroup Spec)
| CallDeletePodGroup (pg : PodGroup Spec)
(* [runtimeController.Owns]: the kind whose events are to wake the group controller *)
| CallOwns (crd : string).
Arguments CallGetCRD {Spec} _.
Arguments CallGetPodGroup {Spec} _ _.
Arguments CallCreatePodGroup {Spec} _.
Arguments CallUpdatePodGroup {Spec} _.
Arguments CallDeletePodGroup {Spec} _.
Arguments CallOwns {Spec} _.

Class SchedulerEnv (Spec : Type) := {
  se_clock : nat -> Z;
  se_get_crd : list (scheduler_call Spec) -> string -> result CustomResourceDefinition;
  se_get : list (scheduler_call Spec) -> string -> string -> result (PodGroup Spec);
  se_create : list (scheduler_call Spec) -> PodGroup Spec -> result unit;
  se_update : list (scheduler_call Spec) -> PodGroup Spec -> result unit;
  se_delete : list (scheduler_call Spec) -> PodGroup Spec -> result unit
}.

(** [watchedWorkload], and the fields [subGroupSupported] and [subGroupProbedAt]. *)
Record Memory := { mem_watched : gset string; mem_probe : option (bool * Z) }.

Definition watch (crd : string) (m : Memory) : Memory :=
  {| mem_watched := {[crd]} ∪ mem_watched m; mem_probe := mem_probe m |}.
Definition probed (supported : bool) (at_ : Z) (m : Memory) : Memory :=
  {| mem_watched := mem_watched m; mem_probe := Some (supported, at_) |}.

Abbreviation SM Spec := (ST (world (scheduler_call Spec) * Memory)).

(** [common.InheritPodGroupAnnotations]; a nil map is an empty one here. *)
Definition InheritPodGroupAnnotations (annotations : labels) (prefixes : list string) : labels :=
  filter (fun kv : string * string => existsb (HasPrefix kv.1) prefixes = true) annotations.

(** * What the plugins share *)
Section pod_groups.
Context {Spec : Type} {ENV : SchedulerEnv Spec}.
Abbreviation M := (SM Spec).

Definition GetCRD (name : string) : M CustomResourceDefinition :=
  on_world (request (CallGetCRD name) (fun t => se_get_crd t name)).
Definition GetPodGroup (ns name : string) : M (PodGroup Spec) :=
  on_world (request (CallGetPodGroup ns name) (fun t => se_get t ns name)).
Definition CreatePodGroup (pg : PodGroup Spec) : M unit :=
  on_world (request (CallCreatePodGroup pg) (fun t => se_create t pg)).
Definition UpdatePodGroup (pg : PodGroup Spec) : M unit :=
  on_world (request (CallUpdatePodGroup pg) (fun t => se_update t pg)).
Definition DeletePodGroup (pg : PodGroup Spec) : M unit :=
  on_world (request (CallDeletePodGroup pg) (fun t => se_delete t pg)).
Definition Owns (crd : string) : M unit := on_world (request (CallOwns crd) (fun _ => Ok tt)).

(** pkg/utils/crds.go *)
Definition CheckCrdExists (crdName : string) : M unit :=
  crd ← GetCRD crdName;
  if existsb (fun cond => bool_decide (cond = ("Established", "True")%string)) (crd_Conditions crd) then mret tt
  else fail ("CRD " +:+ crdName +:+ " exists but not established").

(** The kind is watched from the first gang on. *)
Definition ensure_watched (crdName : string) : M unit :=
  m ← gets snd;
  if bool_decide (crdName ∈ mem_watched m) then mret tt
  else attempt (CheckCrdExists crdName) (fun r =>
    match r with
    | Err _ => fail ("scheduling plugin " +:+ crdName +:+ " not ready")
    | Ok _ => modify (fun s => (s.1, watch crdName s.2)) ≫= fun _ => Owns crdName
    end).

Section group.
Context (g : RoleBasedGroup).
Let ns := om_Namespace (rbg_meta g).
Let name := rbg_Name g.

(** The refusal to touch a PodGroup that something else controls. *)
Definition controlled_by_other (pg : PodGroup Spec) : option error :=
  match GetControllerOf (pg_meta pg) with
  | Some ref =>
      if bool_decide (or_UID ref = om_UID (rbg_meta g)) then None
      else Some ("PodGroup " +:+ ns +:+ "/" +:+ name +:+ " is controlled by uid " +:+ or_UID ref)
  | None => None
  end.

Definition group_ref : OwnerReference := NewControllerRef GroupAPIVersion GroupKind (rbg_meta g).

Definition adopted (m : ObjectMeta) : ObjectMeta :=
  if IsControlledBy m (rbg_meta g) then m else with_owners (om_OwnerReferences m ++ [group_ref])%list m.

Definition newPodGroup (annotations : labels) (spec : Spec) : PodGroup Spec := {|
  pg_meta := {|
    om_Name := name; om_GenerateName := ""; om_Namespace := ns; om_UID := ""; om_ResourceVersion := "";
    om_Generation := 0; om_CreationTimestamp := None; om_DeletionTimestamp := None; om_Labels := ∅;
    om_Annotations := annotations; om_OwnerReferences := [group_ref]; om_Finalizers := [] |};
  pg_spec := spec |}.

Definition updated_pod_group (put : Spec -> Spec) (pg : PodGroup Spec) : PodGroup Spec :=
  {| pg_meta := adopted (pg_meta pg); pg_spec := put (pg_spec pg) |}.

Definition update_attempt (put : Spec -> Spec) : M unit :=
  pg ← GetPodGroup ns name;
  match controlled_by_other pg with
  | Some e => fail e
  | None => UpdatePodGroup (updated_pod_group put pg)
  end.

(** Create the PodGroup with [spec], or bring the one that is there in line with
    [put] when its spec [differs] or the group does not control it yet. *)
Definition ensure_pod_group (annotations : labels) (spec : Spec) (differs : Spec -> bool) (put : Spec -> Spec) : M unit :=
  attempt (GetPodGroup ns name) (fun r =>
    match r with
    | Err e => if IsNotFound e then CreatePodGroup (newPodGroup annotations spec) else fail e
    | Ok pg =>
        match controlled_by_other pg with
        | Some e => fail e
        | None =>
            if negb (IsControlledBy (pg_meta pg) (rbg_meta g)) || differs (pg_spec pg)
            then RetryOnConflict DefaultRetry (update_attempt put) else mret tt
        end
    end).

Definition deletePodGroup (crdName : string) : M unit :=
  m ← gets snd;
  if negb (bool_decide (crdName ∈ mem_watched m)) then mret tt
  else attempt (GetPodGroup ns name) (fun r =>
    match r with
    | Err e => if IsNotFound e then mret tt else fail e
    | Ok pg => if IsControlledBy (pg_meta pg) (rbg_meta g) then DeletePodGroup pg else mret tt
    end).
End group.

(** A failure that may pass. *)
Definition transient (m : M unit) : M (option gang_error) :=
  attempt m (fun r => mret (match r with Ok _ => None | Err e => Some (Transient e) end)).
End pod_groups.

(** The fields of a pod template's apply configuration that the plugins set. *)
Record PodTemplateApply := {
  pta_Labels : labels;
  pta_Annotations : labels;
  pta_SchedulerName : option string
}.

Definition WithSchedulerName (n : string) (p : PodTemplateApply) : PodTemplateApply :=
  {| pta_Labels := pta_Labels p; pta_Annotations := pta_Annotations p; pta_SchedulerName := Some n |}.
Definition WithTemplateLabels (l : labels) (p : PodTemplateApply) : PodTemplateApply :=
  {| pta_Labels := l ∪ pta_Labels p; pta_Annotations := pta_Annotations p; pta_SchedulerName := pta_SchedulerName p |}.
Definition WithTemplateAnnotations (l : labels) (p : PodTemplateApply) : PodTemplateApply :=
  {| pta_Labels := pta_Labels p; pta_Annotations := l ∪ pta_Annotations p; pta_SchedulerName := pta_SchedulerName p |}.

(** * The coscheduling plugin *)
Module Kube.
Definition CrdName : string := "podgroups.scheduling.x-k8s.io".
Definition inheritSchedulingPolicyAnnotations : string := "scheduling.x-k8s.io/".
Definition LabelKey : string := "pod-group.scheduling.sigs.k8s.io/name".
Definition UpstreamLabelKey : string := "scheduling.x-k8s.io/pod-group".
Definition GangSchedulingScheduleTimeoutSecondsKey : string := RBGPrefix +:+ "group-gang-scheduling-timeout".
Definition defaultScheduleTimeoutSeconds : Z := 60.

(** [MinResources] is kept as it is. *)
Record PodGroupSpec := {
  MinMember : Z;
  ScheduleTimeoutSeconds : option Z;
  MinResources : gmap string string
}.

Definition getScheduleTimeoutSeconds (g : RoleBasedGroup) : Z :=
  match om_Annotations (rbg_meta g) !! GangSchedulingScheduleTimeoutSecondsKey with
  | Some v => match ParseInt v 32 with Ok parsed => parsed | Err _ => defaultScheduleTimeoutSeconds end
  | None => defaultScheduleTimeoutSeconds
  end.

Definition differs (minMember timeout : Z) (s : PodGroupSpec) : bool :=
  negb (MinMember s =? minMember) || negb (bool_decide (ScheduleTimeoutSeconds s = Some timeout)).

Definition put (minMember timeout : Z) (s : PodGroupSpec) : PodGroupSpec :=
  {| MinMember := minMember; ScheduleTimeoutSeconds := Some timeout; MinResources := MinResources s |}.

Definition desired (minMember timeout : Z) : PodGroupSpec :=
  {| MinMember := minMember; ScheduleTimeoutSeconds := Some timeout; MinResources := ∅ |}.

Section plugin.
Context {ENV : SchedulerEnv PodGroupSpec}.

Definition createOrUpdate (g : RoleBasedGroup) (s : GangStrategy) : SM PodGroupSpec (option gang_error) :=
  let desiredAnnotations := InheritPodGroupAnnotations (om_Annotations (rbg_meta g)) [inheritSchedulingPolicyAnnotations] in
  match GangSize g (Some s) with
  | Err e => mret (Some (Incompatible e))
  | Ok desiredMinMember =>
      let desiredTimeout := getScheduleTimeoutSeconds g in
      transient (ensure_pod_group g desiredAnnotations (desired desiredMinMember desiredTimeout)
                   (differs desiredMinMember desiredTimeout) (put desiredMinMember desiredTimeout))
  end.

Definition MinReplicasUnsupported : error :=
  "scheduler-plugins does not support per-role minimum gang scheduling (minReplicas); use --scheduler-name=volcano with Volcano >= 1.14".

(** Without a strategy there is no gang, and a PodGroup of before goes. *)
Definition ReconcilePodGroup (g : RoleBasedGroup) (strategy : option GangStrategy) : SM PodGroupSpec (option gang_error) :=
  match strategy with
  | None => transient (deletePodGroup g CrdName)
  | Some s =>
      if bool_decide (gs_MinReplicas s <> ∅) then mret (Some (Incompatible MinReplicasUnsupported))
      else attempt (ensure_watched CrdName) (fun r =>
        match r with
        | Err e => mret (Some (Transient e))
        | Ok _ => createOrUpdate g s
        end)
  end.
End plugin.

Definition InjectPodSchedulingFields (schedulerProfileName : string) (g : RoleBasedGroup) (role : RoleSpec)
    (strategy : option GangStrategy) (pts : PodTemplateApply) : PodTemplateApply :=
  match strategy with
  | None => pts
  | Some _ =>
      let pts := if bool_decide (schedulerProfileName = ""%string) then pts else WithSchedulerName schedulerProfileName pts in
      if negb (RoleInGang (Some role) strategy) then pts
      else WithTemplateLabels {[LabelKey := rbg_Name g; UpstreamLabelKey := rbg_Name g]} pts
  end.
End Kube.

(** * Volcano *)
Module Volcano.
Definition CrdName : string := "podgroups.scheduling.volcano.sh".
Definition AnnotationKey : string := "scheduling.k8s.io/group-name".
Definition AnnotationPrefix : string := "volcano.sh/".
Definition SchedulerName : string := "volcano".
Definition subGroupProbeTTL : Z := 5 * minute.
Definition GangSchedulingVolcanoPriorityClassKey : string := RBGPrefix +:+ "group-gang-scheduling-volcano-priority".
Definition GangSchedulingVolcanoQueueKey : string := RBGPrefix +:+ "group-gang-scheduling-volcano-queue".

Record NetworkTopologySpec := { nt_Mode : string; nt_HighestTierAllowed : option Z; nt_HighestTierName : string }.
#[export] Instance NetworkTopologySpec_dec : EqDecision NetworkTopologySpec.
Proof. solve_decision. Defined.

(** A requirement is a key, an operator and values. *)
Record LabelSelector := { ls_MatchLabels : labels; ls_MatchExpressions : list (string * string * list string) }.
#[export] Instance LabelSelector_dec : EqDecision LabelSelector.
Proof. solve_decision. Defined.

Record SubGroupPolicySpec := {
  sg_Name : string;
  sg_NetworkTopology : option NetworkTopologySpec;
  sg_SubGroupSize : option Z;
  sg_MinSubGroups : option Z;
  sg_LabelSelector : option LabelSelector;
  sg_MatchLabelKeys : list string
}.
#[export] Instance SubGroupPolicySpec_dec : EqDecision SubGroupPolicySpec.
Proof. solve_decision. Defined.

(** The other fields are kept as they are. *)
Record PodGroupSpec := {
  MinMember : Z;
  MinTaskMember : gmap string Z;
  Queue : string;
  PriorityClassName : string;
  MinResources : option (gmap string string);
  NetworkTopology : option NetworkTopologySpec;
  SubGroupPolicy : list SubGroupPolicySpec
}.

Definition emitsRoleInstanceLabel (role : RoleSpec) : bool :=
  bool_decide (GetWorkloadType role = RoleInstanceSetWorkloadType).

Definition subGroupPolicy_of (g : RoleBasedGroup) (role : RoleSpec) (subGroupSize minReplicas : Z) : SubGroupPolicySpec := {|
  sg_Name := role_Name role; sg_NetworkTopology := None;
  sg_SubGroupSize := Some subGroupSize; sg_MinSubGroups := Some minReplicas;
  sg_LabelSelector := Some {|
    ls_MatchLabels := {[GroupNameLabelKey := rbg_Name g; RoleNameLabelKey := role_Name role]};
    ls_MatchExpressions := [] |};
  sg_MatchLabelKeys := [RoleInstanceNameLabelKey] |}.

(** The replicas of a covered role that the gang waits for, or why there are none. *)
Definition role_minimum (g : RoleBasedGroup) (s : GangStrategy) (role : RoleSpec) : result Z :=
  let replicas := default 1 (role_Replicas role) in
  match gs_MinReplicas s !! role_Name role with
  | Some minReplicas =>
      if minReplicas <? 1 then
        Err ("gang scheduling minReplicas for role " +:+ quoted (role_Name role) +:+ " must be at least 1, got "
             +:+ Itoa minReplicas)
      else if replicas <? minReplicas then
        Err ("gang scheduling minReplicas for role " +:+ quoted (role_Name role) +:+ " is " +:+ Itoa minReplicas
             +:+ " but the role only has " +:+ Itoa replicas +:+ " replicas, so the gang can never be satisfied; "
             +:+ "lower the minimum in CoordinatedPolicy " +:+ om_Namespace (rbg_meta g) +:+ "/" +:+ rbg_Name g
             +:+ ", or raise the role's replicas at whichever owns them (spec.replicas, or the autoscaler behind its "
             +:+ "RoleBasedGroupScalingAdapter)")
      else Ok minReplicas
  | None => Ok replicas
  end.

Fixpoint buildGangSpec_loop (g : RoleBasedGroup) (s : GangStrategy) (roles : list RoleSpec) (minMember : Z)
    (policies : list SubGroupPolicySpec) : result (Z * list SubGroupPolicySpec) :=
  match roles with
  | [] => Ok (minMember, policies)
  | role :: roles' =>
      if negb (RoleInGang (Some role) (Some s)) then buildGangSpec_loop g s roles' minMember policies
      else
        minReplicas ← role_minimum g s role;
        if minReplicas =? 0 then buildGangSpec_loop g s roles' minMember policies
        else if negb (emitsRoleInstanceLabel role) then
          Err ("gang scheduling with subGroupPolicy is not supported for role " +:+ quoted (role_Name role)
               +:+ " backed by workload type " +:+ quoted (GetWorkloadType role) +:+ ": the " +:+ RoleInstanceNameLabelKey
               +:+ " pod label is needed to partition the role into per-instance subGroups")
        else
          let subGroupSize := ComputeSubGroupSize (Some role) in
          buildGangSpec_loop g s roles' (int32 (minMember + int32 (subGroupSize * minReplicas)))
            (policies ++ [subGroupPolicy_of g role subGroupSize minReplicas])
  end.

(** Every error is an IncompatibleGangConfigError.  The message prints the unknown
    roles sorted; here they come in the order of the set. *)
Definition buildGangSpec (g : RoleBasedGroup) (s : GangStrategy) : result (Z * list SubGroupPolicySpec) :=
  let policy := om_Namespace (rbg_meta g) +:+ "/" +:+ rbg_Name g in
  let unknown := UnknownGangRoles g (Some s) in
  if bool_decide (unknown <> ∅) then
    Err ("gang scheduling references roles that do not exist in the RoleBasedGroup: [" +:+ Join (elements unknown) " "
         +:+ "]; fix the role names in CoordinatedPolicy " +:+ policy)
  else
    '(minMember, policies) ← buildGangSpec_loop g s (rbg_Roles g) 0 [];
    if minMember =? 0 then
      Err ("gang scheduling resolved to minMember 0, which would provide no gang guarantee; the roles it covers in "
           +:+ "CoordinatedPolicy " +:+ policy +:+ " are all scaled to zero")
    else Ok (minMember, policies).

(** A served v1beta1 schema with [spec.subGroupPolicy]. *)
Definition carries_subgroups (v : CRDVersion) : bool :=
  bool_decide (crdv_Name v = "v1beta1"%string) && crdv_Served v &&
  match crdv_OpenAPIV3Schema v with
  | None => false
  | Some (schema_props properties) =>
      match properties !! "spec"%string with
      | None => false
      | Some (schema_props specProps) => bool_decide (is_Some (specProps !! "subGroupPolicy"%string))
      end
  end.

Section plugin.
Context {ENV : SchedulerEnv PodGroupSpec}.
Abbreviation M := (SM PodGroupSpec).

Definition checkPodGroupCRDHasSubGroup : M bool :=
  attempt (GetCRD CrdName) (fun r =>
    match r with
    | Err e => fail ("get CRD " +:+ CrdName +:+ ": " +:+ e)
    | Ok crd => mret (existsb carries_subgroups (crd_Versions crd))
    end).

Definition probe_subgroups : M bool :=
  supported ← checkPodGroupCRDHasSubGroup;
  now ← on_world (read_clock se_clock);
  modify (fun s => (s.1, probed supported now s.2)) ≫= fun _ => mret supported.

(** The answer of the last probe, while it is fresh. *)
Definition supportsSubGroupPolicy : M bool :=
  m ← gets snd;
  match mem_probe m with
  | Some (supported, probedAt) =>
      now ← on_world (read_clock se_clock);
      if now - probedAt <? subGroupProbeTTL then mret supported else probe_subgroups
  | None => probe_subgroups
  end.

Definition SubGroupUnsupported : error :=
  "gang scheduling with per-role minimums (minReplicas) requires Volcano PodGroup CRD with subGroupPolicy field; the installed Volcano version does not support this feature".

(** The minimum of the whole gang and the sub-groups, or the error. *)
Definition gang_spec (g : RoleBasedGroup) (s : GangStrategy) : M (gang_error + Z * list SubGroupPolicySpec) :=
  if bool_decide (gs_MinReplicas s = ∅) then
    mret (match GangSize g (Some s) with Err e => inl (Incompatible e) | Ok n => inr (n, []) end)
  else attempt supportsSubGroupPolicy (fun r => mret (
    match r with
    | Err e => inl (Transient ("check Volcano PodGroup CRD for subGroupPolicy support: " +:+ e))
    | Ok false => inl (Incompatible SubGroupUnsupported)
    | Ok true => match buildGangSpec g s with Err e => inl (Incompatible e) | Ok spec => inr spec end
    end)).

Definition differs (minMember : Z) (queue priority : string) (policies : list SubGroupPolicySpec) (s : PodGroupSpec) : bool :=
  negb (MinMember s =? minMember) || negb (bool_decide (Queue s = queue))
  || negb (bool_decide (PriorityClassName s = priority)) || negb (bool_decide (SubGroupPolicy s = policies)).

Definition put (minMember : Z) (queue priority : string) (policies : list SubGroupPolicySpec) (s : PodGroupSpec) : PodGroupSpec := {|
  MinMember := minMember; MinTaskMember := MinTaskMember s; Queue := queue; PriorityClassName := priority;
  MinResources := MinResources s; NetworkTopology := NetworkTopology s; SubGroupPolicy := policies |}.

Definition desired (minMember : Z) (queue priority : string) (policies : list SubGroupPolicySpec) : PodGroupSpec := {|
  MinMember := minMember; MinTaskMember := ∅; Queue := queue; PriorityClassName := priority;
  MinResources := None; NetworkTopology := None; SubGroupPolicy := policies |}.

Definition createOrUpdate (g : RoleBasedGroup) (s : GangStrategy) : M (option gang_error) :=
  let annotations := om_Annotations (rbg_meta g) in
  let queue := label_of annotations GangSchedulingVolcanoQueueKey in
  let priorityClassName := label_of annotations GangSchedulingVolcanoPriorityClassKey in
  let desiredAnnotations := InheritPodGroupAnnotations annotations [AnnotationPrefix] in
  spec ← gang_spec g s;
  match spec with
  | inl e => mret (Some e)
  | inr (minMember, subGroupPolicy) =>
      transient (ensure_pod_group g desiredAnnotations (desired minMember queue priorityClassName subGroupPolicy)
                   (differs minMember queue priorityClassName subGroupPolicy)
                   (put minMember queue priorityClassName subGroupPolicy))
  end.

Definition ReconcilePodGroup (g : RoleBasedGroup) (strategy : option GangStrategy) : M (option gang_error) :=
  match strategy with
  | None => transient (deletePodGroup g CrdName)
  | Some s => attempt (ensure_watched CrdName) (fun r =>
      match r with
      | Err e => mret (Some (Transient e))
      | Ok _ => createOrUpdate g s
      end)
  end.
End plugin.

Definition InjectPodSchedulingFields (g : RoleBasedGroup) (role : RoleSpec) (strategy : option GangStrategy)
    (pts : PodTemplateApply) : PodTemplateApply :=
  match strategy with
  | None => pts
  | Some _ =>
      let pts := WithSchedulerName SchedulerName pts in
      if negb (RoleInGang (Some role) strategy) then pts else WithTemplateAnnotations {[AnnotationKey := rbg_Name g]} pts
  end.
End Volcano.

(** * Choosing the plugin (gang_scheduler.go) *)

Definition KubeSchedulerPlugin : string := "scheduler-plugins".
Definition VolcanoSchedulerPlugin : string := "volcano".

Inductive GangScheduler := KubeScheduler (schedulerProfileName : string) | VolcanoScheduler.

Definition NewGangScheduler (schedulerName schedulerProfileName : string) : result GangScheduler :=
  if bool_decide (schedulerName = KubeSchedulerPlugin) then Ok (KubeScheduler schedulerProfileName)
  else if bool_decide (schedulerName = VolcanoSchedulerPlugin) then Ok VolcanoScheduler
  else Err ("unsupported scheduler-name " +:+ quoted schedulerName +:+ ": supported values are "
            +:+ quoted KubeSchedulerPlugin +:+ " and " +:+ quoted VolcanoSchedulerPlugin).

Definition InjectPodSchedulingFields (m : GangScheduler) : RoleBasedGroup -> RoleSpec -> option GangStrategy ->
    PodTemplateApply -> PodTemplateApply :=
  match m with
  | KubeScheduler profile => Kube.InjectPodSchedulingFields profile
  | VolcanoScheduler => Volcano.InjectPodSchedulingFields
  end.
