(* ===== verification/GangSchedulerRules.v ===== *)
(** What gang scheduling does (GangScheduler.v): which PodGroups a pass writes, what a
    Volcano gang with minimums asks for, and the life of a PodGroup on a server that
    does what it is asked. *)
From Stdlib Require Import ZArith Lia Bool Ascii String.
From stdpp Require Import base tactics list strings gmap sets.
From S2P Require Import Prelude GoStrings Types GroupTypes Gang Effects Revisions Owners InstancePods Requests GroupWorld Histories.
From S2P Require Import GangScheduler.

(** * The sub-groups of a gang with minimums *)

(** The replicas the gang waits for: the minimum, or all of them. *)
Definition gang_minimum (s : GangStrategy) (role : RoleSpec) : Z :=
  default (default 1 (role_Replicas role)) (gs_MinReplicas s !! role_Name role).

(** A covered role the gang waits for. *)
Definition awaited (s : GangStrategy) (role : RoleSpec) : bool :=
  RoleInGang (Some role) (Some s) && negb (gang_minimum s role =? 0).

Definition gang_pods (s : GangStrategy) (roles : list RoleSpec) : Z :=
  foldr (fun role n => ComputeSubGroupSize (Some role) * gang_minimum s role + n) 0 (List.filter (awaited s) roles).

Definition gang_policies (g : RoleBasedGroup) (s : GangStrategy) (roles : list RoleSpec) : list Volcano.SubGroupPolicySpec :=
  map (fun role => Volcano.subGroupPolicy_of g role (ComputeSubGroupSize (Some role)) (gang_minimum s role))
    (List.filter (awaited s) roles).

(** The gang can wait for the role: it has the replicas, and its pods can be told apart. *)
Definition can_wait (s : GangStrategy) (role : RoleSpec) : Prop :=
  RoleInGang (Some role) (Some s) = true ->
  gang_minimum s role <= default 1 (role_Replicas role) /\
  (forall n, gs_MinReplicas s !! role_Name role = Some n -> 1 <= n) /\
  (gang_minimum s role <> 0 -> GetWorkloadType role = RoleInstanceSetWorkloadType).

Lemma int32_add_l a b : int32 (int32 a + b) = int32 (a + b).
Proof.
  unfold int32. set (h := 2147483648). set (m := 4294967296). rewrite (Z.mod_eq (a + h) m) by done.
  replace (a + h - m * ((a + h) / m) - h + b + h) with (a + b + h + (- ((a + h) / m)) * m) by ring.
  by rewrite Z.mod_add by done.
Qed.

Lemma int32_add_r a b : int32 (a + int32 b) = int32 (a + b).
Proof. by rewrite Z.add_comm, int32_add_l, Z.add_comm. Qed.

Lemma int32_idem a : int32 (int32 a) = int32 a.
Proof. apply int32_id, int32_range. Qed.

Lemma role_minimum_iff g s role n :
  Volcano.role_minimum g s role = Ok n <->
  n = gang_minimum s role /\ gang_minimum s role <= default 1 (role_Replicas role) /\
  (forall m, gs_MinReplicas s !! role_Name role = Some m -> 1 <= m).
Proof.
  unfold Volcano.role_minimum, gang_minimum. destruct (gs_MinReplicas s !! _) as [m|]; cbn [default from_option].
  - change (id m) with m. destruct (Z.ltb_spec m 1) as [Hm|Hm].
    { split; [done|]. intros (_ & _ & H). specialize (H m eq_refl). lia. }
    destruct (Z.ltb_spec (default 1 (role_Replicas role)) m); [split; [done|lia]|]. split.
    + intros [= <-]. split_and!; [done..|]. by intros ? [= <-].
    + by intros (-> & _).
  - split; [intros [= <-]; split_and!; [done|lia|done]|by intros (-> & _)].
Qed.

Lemma buildGangSpec_loop_iff g s roles m ps m' ps' :
  int32 m = m ->
  Volcano.buildGangSpec_loop g s roles m ps = Ok (m', ps') <->
  Forall (can_wait s) roles /\ m' = int32 (m + gang_pods s roles) /\ ps' = (ps ++ gang_policies g s roles)%list.
Proof.
  revert m ps. induction roles as [|role roles IH]; intros m ps Hm; cbn [Volcano.buildGangSpec_loop].
  { unfold gang_pods, gang_policies. cbn. rewrite Z.add_0_r, Hm, app_nil_r. split.
    - intros [= -> ->]. split_and!; [constructor|done..].
    - by intros (_ & -> & ->). }
  assert (gang_pods s (role :: roles) =
    (if awaited s role then ComputeSubGroupSize (Some role) * gang_minimum s role + gang_pods s roles else gang_pods s roles)) as Hp.
  { unfold gang_pods. cbn [List.filter]. by destruct (awaited s role). }
  assert (gang_policies g s (role :: roles) =
    (if awaited s role then Volcano.subGroupPolicy_of g role (ComputeSubGroupSize (Some role)) (gang_minimum s role) :: gang_policies g s roles
     else gang_policies g s roles)) as Hps.
  { unfold gang_policies. cbn [List.filter]. by destruct (awaited s role). }
  rewrite Forall_cons, Hp, Hps. clear Hp Hps. unfold awaited, can_wait at 1.
  destruct (RoleInGang (Some role) (Some s)); cbn [negb andb].
  2: { rewrite IH by done. split; [intros (? & ? & ?)|intros ((_ & ?) & ? & ?)]; by split_and!. }
  destruct (Volcano.role_minimum g s role) as [n|e] eqn:Hn; cbn [mbind result_bind].
  2: { split; [done|]. intros ((Hw & _) & _). destruct (Hw eq_refl) as (? & ? & _).
       assert (Volcano.role_minimum g s role = Ok (gang_minimum s role)) as He by (by rewrite role_minimum_iff). congruence. }
  apply role_minimum_iff in Hn as (-> & Hle & Hmin). destruct (Z.eqb_spec (gang_minimum s role) 0) as [Hz|Hz]; cbn [negb].
  { rewrite IH by done. split; [intros (? & ? & ?)|intros ((_ & ?) & ? & ?)]; by split_and!. }
  unfold Volcano.emitsRoleInstanceLabel. case_bool_decide as Ht; cbn [negb].
  2: { split; [done|]. intros ((Hw & _) & _). destruct Ht. by apply Hw. }
  rewrite IH by apply int32_idem. rewrite int32_add_r, int32_add_l, <-Z.add_assoc, <-app_assoc.
  split; [intros (? & ? & ?)|intros ((_ & ?) & ? & ?)]; by split_and!.
Qed.

Lemma elem_of_awaited s role roles :
  role ∈ List.filter (awaited s) roles <-> role ∈ roles /\ RoleInGang (Some role) (Some s) = true /\ gang_minimum s role <> 0.
Proof.
  rewrite list_elem_of_In, List.filter_In, <-list_elem_of_In. unfold awaited. rewrite andb_true_iff, negb_true_iff, Z.eqb_neq. done.
Qed.

Lemma NoDup_policy_names g s roles :
  NoDup (map role_Name roles) -> NoDup (map Volcano.sg_Name (gang_policies g s roles)).
Proof.
  unfold gang_policies. rewrite map_map. cbn [Volcano.sg_Name Volcano.subGroupPolicy_of].
  induction roles as [|role roles IH]; cbn [map List.filter]; [done|]. intros [Hn Hnd]%NoDup_cons.
  destruct (awaited s role); cbn [map]; [|by apply IH]. constructor; [|by apply IH].
  intros (r & Hr & Hin)%list_elem_of_fmap. apply Hn. apply list_elem_of_fmap. exists r. split; [done|].
  by apply elem_of_awaited in Hin as [? _].
Qed.

(** C22: Volcano accepts a gang with minimums exactly when it covers only roles of the group,
    can wait for each of them, and asks for at least a pod.  The PodGroup then has one
    sub-group policy for each covered role with replicas to wait for, and for no other,
    that asks for as many instances as [GangMinimumReplicas] tells the other
    controllers to leave the role, never more than it has; the minimum of the whole is
    their int32 sum. *)
Theorem buildGangSpec_iff (g : RoleBasedGroup) (s : GangStrategy) (n : Z) (policies : list Volcano.SubGroupPolicySpec) :
  NoDup (map role_Name (rbg_Roles g)) ->
  Volcano.buildGangSpec g s = Ok (n, policies) <->
  UnknownGangRoles g (Some s) = ∅ /\ (forall role, role ∈ rbg_Roles g -> can_wait s role) /\
  n = int32 (gang_pods s (rbg_Roles g)) /\ n <> 0 /\ policies = gang_policies g s (rbg_Roles g) /\
  NoDup (map Volcano.sg_Name policies) /\
  forall p, p ∈ policies <-> exists role m, role ∈ rbg_Roles g /\
    GangMinimumReplicas g (Some s) !! role_Name role = Some m /\ m <> 0 /\
    p = Volcano.subGroupPolicy_of g role (ComputeSubGroupSize (Some role)) m.
Proof.
  intros Hnd. unfold Volcano.buildGangSpec. case_bool_decide as Hu.
  { split; [done|]. by intros (? & _). }
  assert (UnknownGangRoles g (Some s) = ∅) as Hu'.
  { destruct (decide (UnknownGangRoles g (Some s) = ∅)); [done|]. by destruct Hu. }
  assert (forall p, p ∈ gang_policies g s (rbg_Roles g) <-> exists role m, role ∈ rbg_Roles g /\
    GangMinimumReplicas g (Some s) !! role_Name role = Some m /\ m <> 0 /\
    p = Volcano.subGroupPolicy_of g role (ComputeSubGroupSize (Some role)) m) as Hp.
  { intros p. unfold gang_policies. rewrite list_elem_of_fmap. setoid_rewrite elem_of_awaited. split.
    - intros (role & -> & Hr & Hin & Hz). exists role, (gang_minimum s role). split_and!; [done| |done..].
      unfold GangMinimumReplicas. rewrite GangMinimum_lookup by done. by rewrite Hin.
    - intros (role & m & Hr & Hm & Hz & ->). unfold GangMinimumReplicas in Hm. rewrite GangMinimum_lookup in Hm by done.
      destruct (RoleInGang _ _) eqn:Hin; [|done]. injection Hm as <-. by exists role. }
  destruct (Volcano.buildGangSpec_loop g s (rbg_Roles g) 0 []) as [[n' ps']|e] eqn:Hl; cbn [mbind result_bind].
  - apply buildGangSpec_loop_iff in Hl as (Hw & -> & ->); [|done]. rewrite Forall_forall in Hw. rewrite Z.add_0_l. cbn [app].
    destruct (Z.eqb_spec (int32 (gang_pods s (rbg_Roles g))) 0) as [Hz|Hz].
    { split; [done|]. intros (_ & _ & -> & ? & _). done. }
    split; [intros [= <- <-]|by intros (_ & _ & -> & _ & -> & _)].
    split_and!; [done..| |done]. by apply NoDup_policy_names.
  - split; [done|]. intros (_ & Hw & -> & Hz & -> & _). apply Forall_forall in Hw.
    assert (Volcano.buildGangSpec_loop g s (rbg_Roles g) 0 [] = Ok (int32 (0 + gang_pods s (rbg_Roles g)), ([] ++ gang_policies g s (rbg_Roles g))%list)) as He
      by (by apply buildGangSpec_loop_iff). congruence.
Qed.

(** * Which PodGroups a pass writes *)

Section writes.
Context {Spec : Type} {ENV : SchedulerEnv Spec} (g : RoleBasedGroup) (strategy : option GangStrategy).
Let ns := om_Namespace (rbg_meta g).
Let name := rbg_Name g.

(** The last request read the PodGroup of the group, and the answer was [r]. *)
Definition just_read (r : result (PodGroup Spec)) (t : list (scheduler_call Spec)) : Prop :=
  exists t', t = CallGetPodGroup ns name :: t' /\ se_get t' ns name = r.

Definition due (t : list (scheduler_call Spec)) (c : scheduler_call Spec) : Prop :=
  match c with
  | CallCreatePodGroup pg =>
      strategy <> None /\ just_read (Err NotFoundError) t /\ om_Namespace (pg_meta pg) = ns /\ om_Name (pg_meta pg) = name /\
      IsControlledBy (pg_meta pg) (rbg_meta g) = true
  | CallUpdatePodGroup pg =>
      strategy <> None /\ IsControlledBy (pg_meta pg) (rbg_meta g) = true /\
      exists old, just_read (Ok old) t /\
        (GetControllerOf (pg_meta old) = None \/ pg_meta pg = pg_meta old) /\
        pg_meta pg = with_owners (om_OwnerReferences (pg_meta pg)) (pg_meta old)
  | CallDeletePodGroup pg => strategy = None /\ just_read (Ok pg) t /\ IsControlledBy (pg_meta pg) (rbg_meta g) = true
  | _ => True
  end.

Abbreviation keeping P m Q := (keeps (fun w : world (scheduler_call Spec) * Memory => w_trace w.1) due P m Q).

Lemma controlled_by_other_None (pg : PodGroup Spec) :
  controlled_by_other g pg = None <-> GetControllerOf (pg_meta pg) = None \/ IsControlledBy (pg_meta pg) (rbg_meta g) = true.
Proof.
  unfold controlled_by_other, IsControlledBy. destruct (GetControllerOf _) as [ref|]; [|naive_solver].
  rewrite bool_decide_eq_true. case_bool_decide; naive_solver.
Qed.

Lemma find_app_controller owners ref :
  List.find (fun o => bool_decide (or_Controller o = Some true)) owners = None -> or_Controller ref = Some true ->
  List.find (fun o => bool_decide (or_Controller o = Some true)) (owners ++ [ref]) = Some ref.
Proof.
  intros Ho Hr. induction owners as [|o owners IH]; cbn [app List.find] in *; [by rewrite bool_decide_eq_true_2|].
  destruct (bool_decide _); [done|by apply IH].
Qed.

Lemma adopted_controlled m :
  GetControllerOf m = None \/ IsControlledBy m (rbg_meta g) = true -> IsControlledBy (adopted g m) (rbg_meta g) = true.
Proof.
  unfold adopted. destruct (IsControlledBy m (rbg_meta g)) eqn:Hc; [done|]. intros [Hn|?]; [|done].
  unfold IsControlledBy, GetControllerOf in *. cbn [om_OwnerReferences with_owners].
  rewrite find_app_controller by done. by apply bool_decide_eq_true.
Qed.

Lemma adopted_same m :
  (GetControllerOf m = None \/ adopted g m = m) /\ adopted g m = with_owners (om_OwnerReferences (adopted g m)) m
  \/ IsControlledBy m (rbg_meta g) = false /\ GetControllerOf m <> None.
Proof.
  unfold adopted. destruct (IsControlledBy m (rbg_meta g)); [left; split; [by right|by destruct m]|].
  destruct (GetControllerOf m); [by right|left]. split; [by left|done].
Qed.

Lemma updated_due put pg t :
  strategy <> None -> controlled_by_other g pg = None -> just_read (Ok pg) t -> due t (CallUpdatePodGroup (updated_pod_group g put pg)).
Proof.
  intros Hs Hc%controlled_by_other_None Hr. cbn [due updated_pod_group pg_meta].
  split_and!; [done|by apply adopted_controlled|]. exists pg. split; [done|].
  destruct (adopted_same (pg_meta pg)) as [[? ?]|[Hf Hn]]; [done|]. destruct Hc; [done|congruence].
Qed.

Lemma keeps_GetPodGroup : keeping (fun _ => True) (GetPodGroup ns name) (fun pg t => just_read (Ok pg) t).
Proof. apply keeps_on_world, keeps_request; [done|]. intros pg t _ Ha. by exists t. Qed.

Lemma keeps_attempt_GetPodGroup : keeping (fun _ => True) (attempt (GetPodGroup ns name) mret) just_read.
Proof.
  intros w r w' He _ (x & w1 & Hx & [-> ->]%ret_inv)%attempt_inv. unfold GetPodGroup in Hx.
  apply on_world_inv in Hx as (w2 & [-> Ht]%request_eq & ->). cbn [fst]. rewrite Ht.
  split_and!; [by split|apply later_cons|]. by exists (w_trace w.1).
Qed.

Lemma keeps_any {A} (m : SM Spec A) P : keeping (fun _ => True) m (fun _ _ => True) -> keeping P m (fun _ _ => True).
Proof. apply keeps_conseq; auto. Qed.

Lemma keeps_update_attempt put : strategy <> None -> keeping (fun _ => True) (update_attempt g put) (fun _ _ => True).
Proof.
  intros Hs. unfold update_attempt. eapply keeps_bind; [apply keeps_GetPodGroup|intros pg].
  destruct (controlled_by_other g pg) eqn:Hc; [apply keeps_fail|].
  apply keeps_on_world, keeps_request; [|done]. intros t Ht. by apply updated_due.
Qed.

Lemma keeps_retry n (m : SM Spec unit) :
  keeping (fun _ => True) m (fun _ _ => True) -> keeping (fun _ => True) (RetryOnConflict n m) (fun _ _ => True).
Proof.
  intros Hm. induction n as [|n IH]; cbn [RetryOnConflict]; [done|].
  eapply (keeps_attempt _ _ _ _ _ (fun _ _ => True)).
  - intros w r w' He _ (x & w1 & Hx & [-> ->]%ret_inv)%attempt_inv. by destruct (Hm _ _ _ He I Hx) as (? & ? & _).
  - intros [a|e]; [by apply keeps_ret|]. destruct (IsConflict e); [done|apply keeps_fail].
Qed.

Lemma keeps_ensure annotations spec differs put :
  strategy <> None -> keeping (fun _ => True) (ensure_pod_group g annotations spec differs put) (fun _ _ => True).
Proof.
  intros Hs. unfold ensure_pod_group. eapply keeps_attempt; [apply keeps_attempt_GetPodGroup|]. intros [pg|e].
  - destruct (controlled_by_other g pg); [apply keeps_fail|].
    destruct (_ || _); [|by apply keeps_ret]. apply keeps_any, keeps_retry. by apply keeps_update_attempt.
  - destruct (IsNotFound e) eqn:He; [|apply keeps_fail]. apply bool_decide_eq_true in He as ->.
    apply keeps_on_world, keeps_request; [|done]. intros t Ht. cbn [due newPodGroup pg_meta om_Namespace om_Name].
    split_and!; try done. unfold IsControlledBy, GetControllerOf, group_ref. cbn. by apply bool_decide_eq_true.
Qed.

Lemma keeps_delete crd : strategy = None -> keeping (fun _ => True) (deletePodGroup g crd) (fun _ _ => True).
Proof.
  intros Hs. unfold deletePodGroup. eapply (keeps_bind _ _ _ _ _ (fun _ _ => True)).
  { intros w r w' He _ [= <- <-]. split_and!; [done|apply later_refl|done]. }
  intros m. destruct (negb _); [by apply keeps_ret|].
  eapply keeps_attempt; [apply keeps_attempt_GetPodGroup|]. intros [pg|e].
  - destruct (IsControlledBy _ _) eqn:Hc; [|by apply keeps_ret]. apply keeps_on_world, keeps_request; [|done].
    intros t Ht. by split_and!.
  - destruct (IsNotFound e); [by apply keeps_ret|apply keeps_fail].
Qed.

Lemma keeps_silent {A} (m : SM Spec A) :
  calls (fun w : world (scheduler_call Spec) * Memory => w_trace w.1)
    (fun c => match c with CallGetCRD _ | CallOwns _ => True | _ => False end) m ->
  keeping (fun _ => True) m (fun _ _ => True).
Proof. intros Hm. eapply (keeps_calls _ _ (fun _ => True)); [done| |exact Hm]. by intros []. Qed.

Lemma calls_GetCRD crd ok : (forall c, ok (CallGetCRD c)) ->
  calls (fun w : world (scheduler_call Spec) * Memory => w_trace w.1) ok (GetCRD crd).
Proof. intros Hok. apply calls_on_world, calls_ask, Hok. Qed.

Lemma keeps_ensure_watched crd : keeping (fun _ => True) (ensure_watched crd) (fun _ _ => True).
Proof.
  apply keeps_silent. unfold ensure_watched, CheckCrdExists, Owns. apply calls_bind; [apply calls_gets|intros m].
  case_bool_decide; [apply calls_ret|]. apply calls_attempt.
  - apply calls_bind; [by apply calls_GetCRD|intros c]. destruct (existsb _ _); [apply calls_ret|apply calls_fail].
  - intros []; [|apply calls_fail]. apply calls_bind; [by apply calls_modify|intros _]. by apply calls_on_world, calls_ask.
Qed.

Lemma keeps_then {A B} (m : SM Spec A) (k : result A -> SM Spec B) :
  keeping (fun _ => True) m (fun _ _ => True) -> (forall r, keeping (fun _ => True) (k r) (fun _ _ => True)) ->
  keeping (fun _ => True) (attempt m k) (fun _ _ => True).
Proof.
  intros Hm Hk. apply (keeps_attempt _ _ _ _ _ (fun _ _ => True)); [|done].
  intros w r w' He _ (x & w1 & Hx & [-> ->]%ret_inv)%attempt_inv. by destruct (Hm _ _ _ He I Hx) as (? & ? & _).
Qed.

Lemma keeps_transient (m : SM Spec unit) :
  keeping (fun _ => True) m (fun _ _ => True) -> keeping (fun _ => True) (transient m) (fun _ _ => True).
Proof. intros Hm. apply keeps_then; [done|]. intros r. by apply keeps_ret. Qed.
End writes.

Lemma keeps_Kube {ENV : SchedulerEnv Kube.PodGroupSpec} g strategy :
  keeps (fun w : world (scheduler_call Kube.PodGroupSpec) * Memory => w_trace w.1) (due g strategy)
    (fun _ => True) (Kube.ReconcilePodGroup g strategy) (fun _ _ => True).
Proof.
  unfold Kube.ReconcilePodGroup. destruct strategy as [s|]; [|by apply keeps_transient, keeps_delete].
  case_bool_decide; [by apply keeps_ret|]. apply keeps_then; [apply keeps_ensure_watched|]. intros [[]|e]; [|by apply keeps_ret].
  unfold Kube.createOrUpdate. destruct (GangSize _ _); [|by apply keeps_ret]. by apply keeps_transient, keeps_ensure.
Qed.

Lemma calls_probe {ENV : SchedulerEnv Volcano.PodGroupSpec} :
  calls (fun w : world (scheduler_call Volcano.PodGroupSpec) * Memory => w_trace w.1)
    (fun c => match c with CallGetCRD _ | CallOwns _ => True | _ => False end) Volcano.supportsSubGroupPolicy.
Proof.
  assert (forall now, calls (fun w : world (scheduler_call Volcano.PodGroupSpec) * Memory => w_trace w.1)
    (fun c => match c with CallGetCRD _ | CallOwns _ => True | _ => False end) (on_world (read_clock now))) as Hclock
    by (intros now; apply calls_on_world, calls_clock).
  assert (calls (fun w : world (scheduler_call Volcano.PodGroupSpec) * Memory => w_trace w.1)
    (fun c => match c with CallGetCRD _ | CallOwns _ => True | _ => False end) Volcano.probe_subgroups) as Hprobe.
  { unfold Volcano.probe_subgroups, Volcano.checkPodGroupCRDHasSubGroup. apply calls_bind.
    - apply calls_attempt; [by apply calls_GetCRD|]. intros []; [apply calls_ret|apply calls_fail].
    - intros b. apply calls_bind; [done|intros now]. apply calls_bind; [by apply calls_modify|intros _; apply calls_ret]. }
  unfold Volcano.supportsSubGroupPolicy. apply calls_bind; [apply calls_gets|intros m].
  destruct (mem_probe m) as [[supported probedAt]|]; [|done]. apply calls_bind; [done|intros now].
  destruct (_ <? _); [apply calls_ret|done].
Qed.

Lemma keeps_Volcano {ENV : SchedulerEnv Volcano.PodGroupSpec} g strategy :
  keeps (fun w : world (scheduler_call Volcano.PodGroupSpec) * Memory => w_trace w.1) (due g strategy)
    (fun _ => True) (Volcano.ReconcilePodGroup g strategy) (fun _ _ => True).
Proof.
  unfold Volcano.ReconcilePodGroup. destruct strategy as [s|]; [|by apply keeps_transient, keeps_delete].
  apply keeps_then; [apply keeps_ensure_watched|]. intros [[]|e]; [|by apply keeps_ret].
  unfold Volcano.createOrUpdate. apply (keeps_bind _ _ _ _ _ (fun _ _ => True)).
  - unfold Volcano.gang_spec. case_bool_decide; [by apply keeps_ret|]. apply keeps_then; [apply keeps_silent, calls_probe|].
    intros r. by apply keeps_ret.
  - intros [e|[n policies]]; [by apply keeps_ret|]. by apply keeps_transient, keeps_ensure.
Qed.

(** C16: Whatever the API server answers, a pass of either plugin writes only the PodGroup of
    the group's name, right after reading it: it creates one that was not there, under
    the group's control; it updates one that the group controls or that nobody does, and
    then changes of its metadata only the owners; and it deletes one only without a
    gang, and only when the group controls it. *)
Theorem pod_groups_of_others_untouched (g : RoleBasedGroup) (strategy : option GangStrategy) :
  (forall (ENV : SchedulerEnv Kube.PodGroupSpec) m r w' t2 c t1,
     Kube.ReconcilePodGroup g strategy (start, m) = (r, w') -> w_trace w'.1 = t2 ++ c :: t1 -> due g strategy t1 c) /\
  (forall (ENV : SchedulerEnv Volcano.PodGroupSpec) m r w' t2 c t1,
     Volcano.ReconcilePodGroup g strategy (start, m) = (r, w') -> w_trace w'.1 = t2 ++ c :: t1 -> due g strategy t1 c).
Proof.
  split; intros ENV m r w' t2 c t1 Hr Ht.
  - destruct (keeps_Kube g strategy (start, m) r w' I I Hr) as (He & _ & _). rewrite Ht in He. by eapply explained_at.
  - destruct (keeps_Volcano g strategy (start, m) r w' I I Hr) as (He & _ & _). rewrite Ht in He. by eapply explained_at.
Qed.

(** * The life of a PodGroup *)

Section server.
Context {Spec : Type} (g : RoleBasedGroup) (crds : string -> result CustomResourceDefinition) (clock : nat -> Z).
Context (pg0 : option (PodGroup Spec)).

Definition serve (c : scheduler_call Spec) (pg : option (PodGroup Spec)) : option (PodGroup Spec) :=
  match c with
  | CallCreatePodGroup pg' | CallUpdatePodGroup pg' => Some pg'
  | CallDeletePodGroup _ => None
  | _ => pg
  end.

(** The PodGroup of the group's name after the requests of a trace. *)
Definition stored (t : list (scheduler_call Spec)) : option (PodGroup Spec) := foldr serve pg0 t.

#[local] Instance keeping_server : SchedulerEnv Spec := {|
  se_clock := clock;
  se_get_crd _ name := crds name;
  se_get t ns name :=
    if bool_decide (ns = om_Namespace (rbg_meta g)) && bool_decide (name = rbg_Name g)
    then match stored t with Some pg => Ok pg | None => Err NotFoundError end else Err NotFoundError;
  se_create _ _ := Ok tt;
  se_update _ _ := Ok tt;
  se_delete _ _ := Ok tt |}.

Definition read_call (c : scheduler_call Spec) : Prop :=
  match c with CallGetCRD _ | CallGetPodGroup _ _ => True | _ => False end.

Abbreviation trace_of := (fun w : world (scheduler_call Spec) * Memory => w_trace w.1).

Definition after_read (w : world (scheduler_call Spec) * Memory) : world (scheduler_call Spec) * Memory :=
  ({| w_trace := CallGetPodGroup (om_Namespace (rbg_meta g)) (rbg_Name g) :: w_trace w.1; w_clock := w_clock w.1 |}, w.2).

Lemma GetPodGroup_served (w : world (scheduler_call Spec) * Memory) :
  GetPodGroup (om_Namespace (rbg_meta g)) (rbg_Name g) w
  = (match stored (w_trace w.1) with Some pg => Ok pg | None => Err NotFoundError end, after_read w).
Proof. unfold GetPodGroup, on_world, request. cbn. by rewrite !bool_decide_eq_true_2 by done. Qed.

Lemma delete_served crd w pg :
  stored (w_trace w.1) = Some pg -> IsControlledBy (pg_meta pg) (rbg_meta g) = true -> crd ∈ mem_watched w.2 ->
  exists w', deletePodGroup g crd w = (Ok tt, w') /\ stored (w_trace w'.1) = None.
Proof.
  intros Hst Hc Hw. unfold deletePodGroup. erewrite bind_ok by reflexivity. rewrite bool_decide_eq_true_2 by done. cbn [negb].
  unfold attempt. rewrite GetPodGroup_served, Hst, Hc. by eexists.
Qed.

Lemma ensure_watched_served crd w :
  (exists c, crds crd = Ok c /\ ("Established", "True")%string ∈ crd_Conditions c) ->
  exists w', ensure_watched crd w = (Ok tt, w') /\ stored (w_trace w'.1) = stored (w_trace w.1) /\
    mem_watched w'.2 = {[crd]} ∪ mem_watched w.2 /\ mem_probe w'.2 = mem_probe w.2 /\
    (crd ∈ mem_watched w.2 -> w' = w).
Proof.
  intros (c & Hc & He). unfold ensure_watched. erewrite bind_ok by reflexivity. case_bool_decide as Hin.
  { exists w. split_and!; try done. set_solver. }
  unfold attempt, CheckCrdExists, GetCRD, mbind at 1, ST_bind at 1, on_world, request. cbn [se_get_crd keeping_server]. rewrite Hc.
  assert (existsb (fun cond => bool_decide (cond = ("Established", "True")%string)) (crd_Conditions c) = true) as ->.
  { apply List.existsb_exists. exists ("Established", "True")%string. rewrite <-list_elem_of_In. split; [done|by apply bool_decide_eq_true]. }
  eexists. split; [reflexivity|]. done.
Qed.
Context (spec : Spec) (annotations : labels) (differs : Spec -> bool) (put : Spec -> Spec).
Hypothesis put_settles : forall s, differs (put s) = false.
Hypothesis spec_settles : differs spec = false.

Definition in_line (pg : PodGroup Spec) : Prop :=
  IsControlledBy (pg_meta pg) (rbg_meta g) = true /\ differs (pg_spec pg) = false.

Definition what_is_left (pg : option (PodGroup Spec)) : PodGroup Spec :=
  match pg with
  | None => newPodGroup g annotations spec
  | Some pg => if negb (IsControlledBy (pg_meta pg) (rbg_meta g)) || differs (pg_spec pg) then updated_pod_group g put pg else pg
  end.

Lemma ensure_served w :
  (forall pg, stored (w_trace w.1) = Some pg -> controlled_by_other g pg = None) ->
  exists w', ensure_pod_group g annotations spec differs put w = (Ok tt, w') /\ w'.2 = w.2 /\
    stored (w_trace w'.1) = Some (what_is_left (stored (w_trace w.1))) /\ in_line (what_is_left (stored (w_trace w.1))) /\
    (forall pg, stored (w_trace w.1) = Some pg -> in_line pg -> w' = after_read w).
Proof.
  intros Hfree. unfold ensure_pod_group, attempt at 1. rewrite GetPodGroup_served.
  destruct (stored (w_trace w.1)) as [pg|] eqn:Hst; cbn [what_is_left].
  - specialize (Hfree pg eq_refl). rewrite Hfree. destruct (_ || _) eqn:Hd.
    + cbn [RetryOnConflict DefaultRetry]. unfold attempt at 1, update_attempt at 1. unfold mbind at 1, ST_bind at 1.
      rewrite GetPodGroup_served. replace (stored (w_trace (after_read w).1)) with (Some pg) by done.
      rewrite Hfree. eexists. split; [reflexivity|]. split; [done|]. split; [done|]. split.
      * split; [|apply put_settles]. apply adopted_controlled. by apply controlled_by_other_None.
      * intros ? [= <-] [Hc Hs]. by rewrite Hc, Hs in Hd.
    + apply orb_false_iff in Hd as [Hc%negb_false_iff Hs]. eexists. split; [reflexivity|]. split; [done|].
      split; [exact Hst|]. split; [by split|done].
  - unfold IsNotFound. rewrite bool_decide_eq_true_2 by done. eexists. split; [reflexivity|]. split; [done|].
    split; [done|]. split; [|done]. split; [|done]. unfold IsControlledBy, GetControllerOf, group_ref. cbn.
    by apply bool_decide_eq_true.
Qed.

End server.

Section volcano_server.
Context (g : RoleBasedGroup) (crds : string -> result CustomResourceDefinition) (clock : nat -> Z).
Context (pg0 : option (PodGroup Volcano.PodGroupSpec)) (s : GangStrategy).
#[local] Existing Instance keeping_server.
#[local] Instance env : SchedulerEnv Volcano.PodGroupSpec := keeping_server g crds clock pg0.
Abbreviation world_of := (world (scheduler_call Volcano.PodGroupSpec) * Memory)%type.
Abbreviation trace_of := (fun w : world_of => w_trace w.1).

(** What the gang asks of the PodGroup. *)
Definition demanded : result (Z * list Volcano.SubGroupPolicySpec) :=
  if bool_decide (gs_MinReplicas s = ∅)
  then match GangSize g (Some s) with Ok n => Ok (n, []) | Err e => Err e end
  else Volcano.buildGangSpec g s.

(** Volcano is installed, in a version with sub-groups. *)
Definition volcano_installed : Prop :=
  exists c, crds Volcano.CrdName = Ok c /\ ("Established", "True")%string ∈ crd_Conditions c /\
    existsb Volcano.carries_subgroups (crd_Versions c) = true.

Definition probe_agrees (m : Memory) : Prop := forall b t, mem_probe m = Some (b, t) -> b = true.

Lemma supports_served (w : world_of) :
  volcano_installed -> probe_agrees w.2 ->
  exists w', Volcano.supportsSubGroupPolicy w = (Ok true, w') /\ stored pg0 (w_trace w'.1) = stored pg0 (w_trace w.1) /\
    mem_watched w'.2 = mem_watched w.2 /\ probe_agrees w'.2 /\ only trace_of read_call w w'.
Proof.
  intros (c & Hc & _ & Hs) Hp.
  assert (forall w : world_of, exists w', Volcano.probe_subgroups w = (Ok true, w') /\ stored pg0 (w_trace w'.1) = stored pg0 (w_trace w.1) /\
    mem_watched w'.2 = mem_watched w.2 /\ probe_agrees w'.2 /\ only trace_of read_call w w') as Hprobe.
  { intros w1. unfold Volcano.probe_subgroups, Volcano.checkPodGroupCRDHasSubGroup, GetCRD.
    unfold mbind at 1, ST_bind at 1, attempt, on_world at 1, request. cbn [se_get_crd env keeping_server]. rewrite Hc.
    eexists. unfold mret, ST_ret. rewrite Hs. split; [reflexivity|]. cbn. split_and!; [done..| |].
    - by intros b t [= <- _].
    - exists [CallGetCRD Volcano.CrdName]. split; [done|]. by intros ? ->%list_elem_of_singleton. }
  unfold Volcano.supportsSubGroupPolicy. erewrite bind_ok by reflexivity.
  destruct (mem_probe w.2) as [[supported probedAt]|] eqn:Hm; [|done].
  erewrite bind_ok by reflexivity. destruct (_ <? _).
  - rewrite (Hp supported probedAt Hm). eexists. split; [reflexivity|]. split_and!; [done..|by apply only_same].
  - match goal with |- exists _, Volcano.probe_subgroups ?w1 = _ /\ _ => destruct (Hprobe w1) as (w' & Hr & ? & ? & ? & Ho) end.
    exists w'. split_and!; done.
Qed.

Lemma gang_spec_served n policies (w : world_of) :
  volcano_installed -> probe_agrees w.2 -> demanded = Ok (n, policies) ->
  exists w', Volcano.gang_spec g s w = (Ok (inr (n, policies)), w') /\ stored pg0 (w_trace w'.1) = stored pg0 (w_trace w.1) /\
    mem_watched w'.2 = mem_watched w.2 /\ probe_agrees w'.2 /\ only trace_of read_call w w'.
Proof.
  intros Hv Hp. unfold demanded, Volcano.gang_spec. case_bool_decide.
  - destruct (GangSize _ _); [|done]. intros [= <- <-]. exists w. split_and!; try done. apply only_refl.
  - intros Hb. destruct (supports_served w Hv Hp) as (w' & Hr & Hrest). exists w'. unfold attempt. by rewrite Hr, Hb.
Qed.

Definition queue : string := label_of (om_Annotations (rbg_meta g)) Volcano.GangSchedulingVolcanoQueueKey.
Definition priority : string := label_of (om_Annotations (rbg_meta g)) Volcano.GangSchedulingVolcanoPriorityClassKey.

(** One pass of a gang. *)
Lemma Volcano_served n policies (w : world_of) :
  volcano_installed -> probe_agrees w.2 -> demanded = Ok (n, policies) ->
  (forall pg, stored pg0 (w_trace w.1) = Some pg -> controlled_by_other g pg = None) ->
  exists w' pg, Volcano.ReconcilePodGroup g (Some s) w = (Ok None, w') /\ stored pg0 (w_trace w'.1) = Some pg /\
    in_line g (Volcano.differs n queue priority policies) pg /\
    Volcano.CrdName ∈ mem_watched w'.2 /\ probe_agrees w'.2 /\
    (forall old, stored pg0 (w_trace w.1) = Some old -> in_line g (Volcano.differs n queue priority policies) old ->
       Volcano.CrdName ∈ mem_watched w.2 -> only trace_of read_call w w').
Proof.
  intros Hv Hp Hd Hfree. unfold Volcano.ReconcilePodGroup, attempt at 1.
  destruct (ensure_watched_served g crds clock pg0 Volcano.CrdName w) as (w1 & H1 & Hst1 & Hw1 & Hm1 & Hid1).
  { destruct Hv as (c & Hc & He & _). by exists c. }
  change (keeping_server g crds clock pg0) with env in H1. rewrite H1. unfold Volcano.createOrUpdate.
  assert (probe_agrees w1.2) as Hp1 by (intros b t; rewrite Hm1; apply Hp).
  destruct (gang_spec_served n policies w1 Hv Hp1 Hd) as (w2 & H2 & Hst2 & Hw2 & Hp2 & Ho2).
  erewrite bind_ok by exact H2. fold queue priority. unfold transient, attempt at 1.
  rewrite <-Hst1, <-Hst2 in Hfree |- *.
  destruct (ensure_served g crds clock pg0 (Volcano.desired n queue priority policies)
    (InheritPodGroupAnnotations (om_Annotations (rbg_meta g)) [Volcano.AnnotationPrefix])
    (Volcano.differs n queue priority policies) (Volcano.put n queue priority policies)) with (w := w2)
    as (w3 & H3 & Hm3 & Hst3 & Hin3 & Hid3); [..|done|].
  1,2: intros; unfold Volcano.differs; cbn; by rewrite Z.eqb_refl, !bool_decide_eq_true_2 by done.
  change (keeping_server g crds clock pg0) with env in H3. rewrite H3. eexists w3, _. split; [reflexivity|].
  split; [exact Hst3|]. split; [done|]. split; [rewrite Hm3, Hw2, Hw1; set_solver|]. split; [by rewrite Hm3|].
  intros old Hold Hline Hwatched. rewrite (Hid1 Hwatched) in *. rewrite (Hid3 old Hold Hline).
  eapply only_trans; [exact Ho2|]. eexists [_]. split; [reflexivity|]. by intros ? ->%list_elem_of_singleton.
Qed.
End volcano_server.

(** With Volcano installed, a gang whose demands can be met gets its PodGroup in one
    pass: an orphan is adopted, and its minimum, sub-groups, queue and priority are
    those of the group.  The pass after that only reads.  When the gang is turned off,
    the PodGroup goes. *)
Theorem pod_group_lives_with_its_gang (g : RoleBasedGroup) (crds : string -> result CustomResourceDefinition) (clock : nat -> Z)
    (pg0 : option (PodGroup Volcano.PodGroupSpec)) (m : Memory) (s : GangStrategy) n policies :
  let pass := @Volcano.ReconcilePodGroup (keeping_server g crds clock pg0) g in
  volcano_installed crds -> probe_agrees m -> demanded g s = Ok (n, policies) ->
  (forall pg, pg0 = Some pg -> controlled_by_other g pg = None) ->
  exists w1 pg, pass (Some s) (start, m) = (Ok None, w1) /\ stored pg0 (w_trace w1.1) = Some pg /\
    IsControlledBy (pg_meta pg) (rbg_meta g) = true /\
    Volcano.MinMember (pg_spec pg) = n /\ Volcano.SubGroupPolicy (pg_spec pg) = policies /\
    Volcano.Queue (pg_spec pg) = queue g /\ Volcano.PriorityClassName (pg_spec pg) = priority g /\
    (exists w2, pass (Some s) w1 = (Ok None, w2) /\ only (fun w => w_trace w.1) read_call w1 w2) /\
    (exists w2, pass None w1 = (Ok None, w2) /\ stored pg0 (w_trace w2.1) = None).
Proof.
  intros pass Hv Hp Hd Hfree.
  destruct (Volcano_served g crds clock pg0 s n policies (start, m) Hv Hp Hd Hfree)
    as (w1 & pg & H1 & Hst & [Hc Hs] & Hw & Hp1 & _).
  exists w1, pg. split; [exact H1|]. split; [done|]. split; [done|].
  pose proof Hs as Hs'. unfold Volcano.differs in Hs'. rewrite !orb_false_iff, !negb_false_iff, !bool_decide_eq_true in Hs'.
  destruct Hs' as [[[Hn%Z.eqb_eq Hq] Hpr] Hpol]. split_and!; try done.
  - destruct (Volcano_served g crds clock pg0 s n policies w1 Hv Hp1 Hd) as (w2 & pg2 & H2 & _ & _ & _ & _ & Ho).
    { intros pg' Hpg'. apply controlled_by_other_None. right. congruence. }
    exists w2. split; [exact H2|]. by eapply Ho.
  - destruct (delete_served g crds clock pg0 Volcano.CrdName w1 pg Hst Hc Hw) as (w2 & H2 & Hst2).
    exists w2. split; [|done]. unfold pass, Volcano.ReconcilePodGroup, transient, attempt. by rewrite H2.
Qed.

(** The same for the coscheduling plugin, which knows no minimums per role. *)
Theorem kube_pod_group_lives_with_its_gang (g : RoleBasedGroup) (crds : string -> result CustomResourceDefinition) (clock : nat -> Z)
    (pg0 : option (PodGroup Kube.PodGroupSpec)) (m : Memory) (s : GangStrategy) n :
  let pass := @Kube.ReconcilePodGroup (keeping_server g crds clock pg0) g in
  (exists c, crds Kube.CrdName = Ok c /\ ("Established", "True")%string ∈ crd_Conditions c) ->
  gs_MinReplicas s = ∅ -> GangSize g (Some s) = Ok n ->
  (forall pg, pg0 = Some pg -> controlled_by_other g pg = None) ->
  exists w1 pg, pass (Some s) (start, m) = (Ok None, w1) /\ stored pg0 (w_trace w1.1) = Some pg /\
    IsControlledBy (pg_meta pg) (rbg_meta g) = true /\
    Kube.MinMember (pg_spec pg) = n /\ Kube.ScheduleTimeoutSeconds (pg_spec pg) = Some (Kube.getScheduleTimeoutSeconds g) /\
    (exists w2, pass (Some s) w1 = (Ok None, w2) /\ only (fun w => w_trace w.1) read_call w1 w2) /\
    (exists w2, pass None w1 = (Ok None, w2) /\ stored pg0 (w_trace w2.1) = None).
Proof.
  intros pass Hc Hm Hn Hfree. set (timeout := Kube.getScheduleTimeoutSeconds g).
  set (annotations := InheritPodGroupAnnotations (om_Annotations (rbg_meta g)) [Kube.inheritSchedulingPolicyAnnotations]).
  assert (forall w, pass (Some s) w = transient (attempt (@ensure_watched _ (keeping_server g crds clock pg0) Kube.CrdName) (fun r => match r with
    | Err e => fail e
    | Ok _ => @ensure_pod_group _ (keeping_server g crds clock pg0) g annotations (Kube.desired n timeout) (Kube.differs n timeout) (Kube.put n timeout) end)) w) as Hpass.
  { intros w. unfold pass, Kube.ReconcilePodGroup, Kube.createOrUpdate, transient, attempt. rewrite Hm, Hn.
    rewrite bool_decide_eq_false_2 by (by intros []). by destruct (@ensure_watched _ (keeping_server g crds clock pg0) Kube.CrdName w) as [[[]|e] w']. }
  set (init := (start, m) : world (scheduler_call Kube.PodGroupSpec) * Memory).
  assert (forall w, (forall pg, stored pg0 (w_trace w.1) = Some pg -> controlled_by_other g pg = None) ->
    exists w' pg, pass (Some s) w = (Ok None, w') /\ stored pg0 (w_trace w'.1) = Some pg /\ in_line g (Kube.differs n timeout) pg /\
      Kube.CrdName ∈ mem_watched w'.2 /\
      (forall old, stored pg0 (w_trace w.1) = Some old -> in_line g (Kube.differs n timeout) old ->
         Kube.CrdName ∈ mem_watched w.2 -> only (fun w => w_trace w.1) read_call w w')) as Hserved.
  { intros w Hf. rewrite Hpass. unfold transient, attempt at 1 2.
    destruct (ensure_watched_served g crds clock pg0 Kube.CrdName w Hc) as (w1 & H1 & Hst1 & Hw1 & _ & Hid1). rewrite H1.
    rewrite <-Hst1 in Hf |- *.
    destruct (ensure_served g crds clock pg0 (Kube.desired n timeout) annotations (Kube.differs n timeout) (Kube.put n timeout)) with (w := w1)
      as (w3 & H3 & Hm3 & Hst3 & Hin3 & Hid3); [..|done|].
    1,2: intros; unfold Kube.differs; cbn; by rewrite Z.eqb_refl, bool_decide_eq_true_2 by done.
    rewrite H3. eexists w3, _. split; [reflexivity|]. split; [exact Hst3|]. split; [done|]. split; [rewrite Hm3, Hw1; set_solver|].
    intros old Hold Hline Hwatched. rewrite (Hid1 Hwatched) in *. rewrite (Hid3 old Hold Hline).
    eexists [_]. split; [reflexivity|]. by intros ? ->%list_elem_of_singleton. }
  destruct (Hserved init Hfree) as (w1 & pg & H1 & Hst & [Hcon Hs] & Hw & _).
  exists w1, pg. split; [exact H1|]. split; [done|]. split; [done|].
  pose proof Hs as Hs'. unfold Kube.differs in Hs'. rewrite orb_false_iff, !negb_false_iff, bool_decide_eq_true in Hs'.
  destruct Hs' as [Hmin%Z.eqb_eq Ht]. split_and!; try done.
  - destruct (Hserved w1) as (w2 & pg2 & H2 & _ & _ & _ & Ho).
    { intros pg' Hpg'. apply controlled_by_other_None. right. congruence. }
    exists w2. split; [exact H2|]. by eapply Ho.
  - destruct (delete_served g crds clock pg0 Kube.CrdName w1 pg Hst Hcon Hw) as (w2 & H2 & Hst2).
    exists w2. split; [|done]. unfold pass, Kube.ReconcilePodGroup, transient, attempt. by rewrite H2.
Qed.

(** * Joining the gang *)

(** A pod carries the name of its group's PodGroup, under the key its scheduler reads. *)
Definition enrolled (m : GangScheduler) (pts : PodTemplateApply) (group : string) : Prop :=
  match m with
  | KubeScheduler _ => pta_Labels pts !! Kube.LabelKey = Some group /\ pta_Labels pts !! Kube.UpstreamLabelKey = Some group
  | VolcanoScheduler => pta_Annotations pts !! Volcano.AnnotationKey = Some group
  end.

Definition unenrolled (m : GangScheduler) (pts : PodTemplateApply) : Prop :=
  match m with
  | KubeScheduler _ => pta_Labels pts !! Kube.LabelKey = None
  | VolcanoScheduler => pta_Annotations pts !! Volcano.AnnotationKey = None
  end.

(** Exactly the pods of the roles the gang covers join it. *)
Theorem enrolled_iff_in_gang (m : GangScheduler) (g : RoleBasedGroup) (role : RoleSpec) (strategy : option GangStrategy) (pts : PodTemplateApply) :
  unenrolled m pts ->
  enrolled m (InjectPodSchedulingFields m g role strategy pts) (rbg_Name g) <-> RoleInGang (Some role) strategy = true.
Proof.
  destruct m as [profile|]; cbn [unenrolled enrolled InjectPodSchedulingFields]; intros Hn.
  - unfold Kube.InjectPodSchedulingFields. destruct strategy as [s|]; [|split; [by intros []; congruence|done]].
    set (p := if bool_decide _ then pts else _). assert (pta_Labels p = pta_Labels pts) as Hp by (unfold p; by case_bool_decide).
    destruct (RoleInGang (Some role) (Some s)); cbn [negb].
    + split; [done|intros _]. cbn [WithTemplateLabels pta_Labels]. by split; apply lookup_union_Some_l.
    + rewrite Hp. split; [by intros []; congruence|done].
  - unfold Volcano.InjectPodSchedulingFields. destruct strategy as [s|]; [|split; [congruence|done]].
    destruct (RoleInGang (Some role) (Some s)); cbn [negb].
    + split; [done|intros _]. cbn [WithTemplateAnnotations pta_Annotations]. by apply lookup_union_Some_l.
    + cbn [WithSchedulerName pta_Annotations]. split; [congruence|done].
Qed.

(** * Examples *)

Module GangDemo.
Definition role (name : string) (n : Z) : RoleSpec := {|
  role_Name := name; role_Labels := ∅; role_Annotations := ∅; role_Replicas := Some n; role_RollingUpdate := None;
  role_Dependencies := []; role_Pattern := standalone no_template; role_ScalingAdapter := None;
  role_MinReadySeconds := 0; role_rest := no_rest |}.
Definition meta (uid : string) (owners : list OwnerReference) : ObjectMeta :=
  {| om_Name := "web"; om_GenerateName := ""; om_Namespace := "default"; om_UID := uid; om_ResourceVersion := "1";
     om_Generation := 1; om_CreationTimestamp := None; om_DeletionTimestamp := None; om_Labels := ∅;
     om_Annotations := ∅; om_OwnerReferences := owners; om_Finalizers := [] |}.
Definition group : RoleBasedGroup := {|
  rbg_meta := meta "uid-web" []; rbg_Roles := [role "prefill" 3; role "decode" 4; role "router" 1]; rbg_RoleTemplates := [];
  rbg_ObservedGeneration := 0; rbg_Conditions := []; rbg_RoleStatuses := [] |}.
(** Two of the prefill replicas and all of the decode replicas. *)
Definition gang : GangStrategy := {| gs_Roles := {["prefill"; "decode"]}; gs_MinReplicas := {["prefill" := 2]} |}.
Definition whole : GangStrategy := {| gs_Roles := ∅; gs_MinReplicas := ∅ |}.
Definition crd : CustomResourceDefinition := {|
  crd_Conditions := [("Established", "True")%string];
  crd_Versions := [{| crdv_Name := "v1beta1"; crdv_Served := true;
    crdv_OpenAPIV3Schema := Some (schema_props {["spec" := schema_props {["subGroupPolicy" := schema_props ∅]}]}) |}] |}.
Definition memory : Memory := {| mem_watched := ∅; mem_probe := None |}.
Definition orphan : PodGroup Volcano.PodGroupSpec := {| pg_meta := meta "uid-pg" []; pg_spec := Volcano.desired 1 "" "" [] |}.
Definition policies : list Volcano.SubGroupPolicySpec :=
  [Volcano.subGroupPolicy_of group (role "prefill" 3) 1 2; Volcano.subGroupPolicy_of group (role "decode" 4) 1 4].
End GangDemo.

Example gang_of_six : Volcano.buildGangSpec GangDemo.group GangDemo.gang = Ok (6, GangDemo.policies).
Proof. vm_compute. reflexivity. Qed.

Example unsatisfiable_minimum :
  Volcano.buildGangSpec GangDemo.group {| gs_Roles := {["prefill"]}; gs_MinReplicas := {["prefill" := 5]} |} =
  Err ("gang scheduling minReplicas for role " +:+ quoted "prefill" +:+ " is 5 but the role only has 3 replicas, so the gang can never be satisfied; lower the minimum in CoordinatedPolicy default/web, or raise the role's replicas at whichever owns them (spec.replicas, or the autoscaler behind its RoleBasedGroupScalingAdapter)").
Proof. vm_compute. reflexivity. Qed.

Lemma buildGangSpec_iff_witness :
  GangMinimumReplicas GangDemo.group (Some GangDemo.gang) !! "prefill"%string = Some 2 /\
  UnknownGangRoles GangDemo.group (Some GangDemo.gang) = ∅.
Proof.
  split; [vm_compute; reflexivity|].
  refine (proj1 (proj1 (buildGangSpec_iff GangDemo.group GangDemo.gang 6 GangDemo.policies _) _)).
  - apply (bool_decide_unpack (NoDup _)). vm_compute. exact I.
  - vm_compute. reflexivity.
Defined.

Lemma pod_groups_of_others_untouched_witness :
  let env := keeping_server GangDemo.group (fun _ => Ok GangDemo.crd) (fun _ => 0) (Some GangDemo.orphan) in
  let w' := (@Volcano.ReconcilePodGroup env GangDemo.group (Some GangDemo.gang) (start, GangDemo.memory)).2 in
  exists c t1, w_trace w'.1 = c :: t1 /\ @due _ env GangDemo.group (Some GangDemo.gang) t1 c.
Proof.
  cbv zeta. set (env := keeping_server _ _ _ _).
  destruct (@Volcano.ReconcilePodGroup env GangDemo.group (Some GangDemo.gang) (start, GangDemo.memory)) as [r w'] eqn:Hr.
  cbn [snd]. destruct (w_trace w'.1) as [|c t1] eqn:Ht.
  { apply (f_equal (fun p => length (w_trace p.2.1))) in Hr. cbn [snd] in Hr. rewrite Ht in Hr. vm_compute in Hr. discriminate Hr. }
  exists c, t1. split; [reflexivity|].
  exact (proj2 (pod_groups_of_others_untouched GangDemo.group (Some GangDemo.gang)) env GangDemo.memory r w' [] c t1 Hr Ht).
Defined.

Lemma pod_group_lives_with_its_gang_witness :
  exists w1 pg,
    @Volcano.ReconcilePodGroup (keeping_server GangDemo.group (fun _ => Ok GangDemo.crd) (fun _ => 0) (Some GangDemo.orphan))
      GangDemo.group (Some GangDemo.gang) (start, GangDemo.memory) = (Ok None, w1) /\
    stored (Some GangDemo.orphan) (w_trace w1.1) = Some pg /\ Volcano.MinMember (pg_spec pg) = 6.
Proof.
  destruct (pod_group_lives_with_its_gang GangDemo.group (fun _ => Ok GangDemo.crd) (fun _ => 0) (Some GangDemo.orphan)
    GangDemo.memory GangDemo.gang 6 GangDemo.policies) as (w1 & pg & H1 & Hst & _ & Hn & _).
  - exists GangDemo.crd. split; [reflexivity|]. split; [by apply list_elem_of_singleton|vm_compute; reflexivity].
  - intros b t H. discriminate H.
  - vm_compute. reflexivity.
  - intros pg H. injection H as <-. vm_compute. reflexivity.
  - exists w1, pg. split; [exact H1|]. split; [exact Hst|exact Hn].
Defined.

Lemma kube_pod_group_lives_with_its_gang_witness :
  exists w1 pg,
    @Kube.ReconcilePodGroup (keeping_server GangDemo.group (fun _ => Ok GangDemo.crd) (fun _ => 0) None)
      GangDemo.group (Some GangDemo.whole) (start, GangDemo.memory) = (Ok None, w1) /\
    stored None (w_trace w1.1) = Some pg /\ Kube.MinMember (pg_spec pg) = 8.
Proof.
  destruct (kube_pod_group_lives_with_its_gang GangDemo.group (fun _ => Ok GangDemo.crd) (fun _ => 0) None
    GangDemo.memory GangDemo.whole 8) as (w1 & pg & H1 & Hst & _ & Hn & _).
  - exists GangDemo.crd. split; [reflexivity|by apply list_elem_of_singleton].
  - reflexivity.
  - vm_compute. reflexivity.
  - intros pg H. discriminate H.
  - exists w1, pg. split; [exact H1|]. split; [exact Hst|exact Hn].
Defined.

Lemma enrolled_iff_in_gang_witness :
  ~ enrolled VolcanoScheduler
      (InjectPodSchedulingFields VolcanoScheduler GangDemo.group (GangDemo.role "router" 1) (Some GangDemo.gang)
         {| pta_Labels := ∅; pta_Annotations := ∅; pta_SchedulerName := None |}) "web".
Proof.
  intros H. apply (enrolled_iff_in_gang VolcanoScheduler GangDemo.group (GangDemo.role "router" 1) (Some GangDemo.gang)) in H;
    [vm_compute in H; discriminate H|reflexivity].
Defined.
